(* ===== verification/_CoqProject ===== *)
-Q . S2P
Prelude.v
Bytes.v
Rlp.v
RlpDerive.v
BTree.v
PoolTypes.v
SubPools.v
BestTxs.v
AllTxs.v
AllTxsProofs.v
InsertProofs.v
TxPool.v
TxPoolProofs.v
PoolReach.v
PoolInner.v
PoolInnerProofs.v
Primitives.v
ChainSpec.v
ForkIdProofs.v
Consensus.v
ConsensusProofs.v
SubState.v
PrimitivesRlp.v
PrimitivesRlpProofs.v
EthWire.v
EthWireProofs.v
P2PStream.v
P2PStreamProofs.v
Peers.v
PeersProofs.v
SubStateProofs.v
Chain.v
ChainProofs.v
Tree.v
TreeProofs.v
TreeReach.v
Pipeline.v
PipelineProofs.v
Compact.v
CompactProofs.v
CompactTables.v
DbKeys.v
Tables.v
History.v
HistoryProofs.v
Provider.v
ProviderBlocks.v
ProviderState.v
ProviderRevert.v
ProviderEffect.v
ProviderHash.v
ProviderChain.v
TreeProvider.v
Bloom.v
Filter.v
FilterJson.v
LogFilter.v
Executor.v
ExecutorState.v
ExecutorProofs.v
ExecutorReceipts.v
ExecutorRewards.v
ExecutorSample.v
