(* ===== verification/Prelude.v ===== *)
(** * A verification development of reth

    reth is an Ethereum execution client in Rust.  This library models parts of
    it as Rocq functions that follow the source line by line, and proves what makes
    those parts correct.  Paths below are relative to src/crates.

    ** The program

    A peer is chosen and dialled by the peers manager (net/network/src/peers), and
    the connection goes through the p2p and the eth handshake (net/eth-wire); the
    messages of a session, RLP over snappy frames, carry transactions and blocks.  A
    transaction is
    validated and kept in the pool (transaction-pool) until it is mined.  A block is
    checked against the consensus rules (consensus), executed, and inserted into the
    in-memory tree of side chains (executor/src/blockchain_tree), from which a
    canonical chain is committed to the database (storage); blocks far behind the tip
    are instead downloaded and processed by a pipeline of stages (stages).  Past states
    are read through history indices over the change sets of the database, and clients
    poll for the logs of new blocks (rpc).  Which rules apply at a block is decided by the chain specification (primitives/src/chain/spec.rs), and peers are
    filtered by fork identifiers (primitives/src/forkid.rs).

    ** Conventions

    - A call of the source ends in an [outcome]: [Ok], [Err], [Panic] (index out of
      range, [expect], [assert!], division by zero) or [Diverge] (fuel spent).  A
      helper whose only failure is a panic returns [option], [None] being the panic.
    - [&mut self] methods are functions of the monad [st]; the state survives an
      error, as it does in Rust.
    - A w-bit unsigned integer is a [Z]; operations that can leave the range are
      written with their wrap-around ([wrap], [wadd]), as in the release profile.
    - A [BTreeMap] is a [gmap] read through [entries], the sorted list of its
      bindings; a [BTreeSet] whose [Ord] is not equality is a map keyed by what its
      order compares; a [HashMap] is a [gmap] and a [HashSet] a [gset].
    - External code is a parameter: checksums, hashes, signature recovery, trie
      roots, the database, the interpreter, the clock, channels.  What a theorem needs
      of it is a hypothesis or a class ([CodecOk], [ValidatorOk], [ExecutorOk],
      [DbOk], [BitfieldOk] for the bit packing of modular-bitfield, [EliasFanoOk] for
      the integer lists of sucds, [TrieLoaderOk] for the trie of the hashed state,
      [RevmOk] for the interpreter and its cache, [StringCodecOk] for hexadecimal strings;
      [no_collisions] for keccak; [snappy_ok] for compression, [named_chains_ok] for
      the table of named chains, [iter_ok] for the order in which a hash map is walked),
      with an instance that shows it can hold.

    ** Files

    - Prelude: outcomes, the monad, integers, sums over maps, tactics.
    - Bytes, Rlp, RlpDerive: rlp/src (encode.rs, decode.rs, types.rs).  [Rlp] states round trip,
      canonicity, totality, exact lengths and rejection of truncated input once, for
      every type built from the instances of [CodecOk]; [RlpDerive] is the codec that
      the macros of rlp/rlp-derive generate for a structure, with optional trailing
      fields.
    - BTree: ordered maps and the orders used as keys.
    - PoolTypes, SubPools, BestTxs: transaction-pool identifiers, configuration,
      states, the parked and pending sub-pools and the best-transactions iterator.
    - AllTxs, AllTxsProofs, InsertProofs: [AllTransactions] of pool/txpool.rs.
      Insertion refines insertion into the map from ids to transactions, pending
      transactions are executable, and every rejection is characterised.
    - TxPool, TxPoolProofs, PoolReach: [TxPool]; [pool_inv] holds in every state
      reachable by additions, new blocks, removals and evictions, and eviction
      terminates within the limits.
    - PoolInner, PoolInnerProofs: validate.rs, pool/mod.rs, pool/listener.rs; what the
      validator accepts, sender ids, insertion through the front.
    - Primitives: headers, transactions, blocks as records, with their getters.
    - PrimitivesRlp, PrimitivesRlpProofs: the RLP codecs of transactions, receipts,
      headers, sealed headers and blocks (primitives/src).  Round trips with the hash
      of the bytes sent, totality of the decoders, and where they fall short.
    - EthWire, EthWireProofs: the messages of net/eth-wire/src/types, hello.rs,
      disconnect.rs and p2pstream.rs.  Round trip and totality of the message decoder
      for every protocol version.
    - P2PStream, P2PStreamProofs: capability.rs, p2pstream.rs, pinger.rs,
      ethstream.rs.  Both sides of a handshake agree, a session delivers messages in
      order, and a status is accepted exactly under the checks of the code.  The
      transport is the list of frames it yields and a sink; timers are events.
    - Peers, PeersProofs: net/network/src/peers, error.rs and
      net/common/src/ban_list.rs.  [peers_step] is the relation of all calls of the
      network; a ban holds in all its runs.  Filling the slots
      terminates and leaves none free while a peer can be dialled.
    - ChainSpec, ForkIdProofs: hardfork.rs, chain/spec.rs, forkid.rs.  The cached
      filter refines a fresh one, nodes on one schedule accept each other, and the two
      computations of a fork id agree.
    - Consensus, ConsensusProofs: consensus/src.  Base fee bounds, absence of panics,
      nonce discipline of a body, continuity of withdrawal indices.
    - SubState, SubStateProofs: executor/src/substate.rs and
      storage/provider/src/execution_result.rs.
    - Chain, ChainProofs, Tree, TreeProofs, TreeReach: blockchain_tree.  Splitting and
      appending are inverse; the block index is sound in every reachable tree;
      finalization terminates and drops the chains that fork off below the block.
    - Pipeline, PipelineProofs: stages/src (pipeline/, stage.rs, id.rs, sets.rs).  A
      stage is a record of its execution and its unwind, the database an [Env] of the
      operations the pipeline calls.  The events of a pass replay to the checkpoints in
      the database, a pipeline whose first stage reaches the target and whose others
      catch up reaches it, and an unwind brings every stage to its target, or commits
      nothing unless a stage commits by itself.
    - Compact, CompactProofs, CompactTables: storage/codecs, the codec of table values
      and the code its derive macro generates.  The laws of a codec are classes, the
      derive macro is one theorem over lists of fields, and the values of every table
      are instances.
    - DbKeys, Tables: storage/db/src: keys and their byte order, seeks and walks of a
      cursor over an ordered table.
    - History, HistoryProofs: the history indices of storage/provider/src
      (transaction.rs) and the state they give access to (providers/state/historical.rs).
      Sharded lists refine plain ones, indexing a range adds its transitions and no
      others, unwinding undoes it, and a lookup gives the state before a transition.
    - Provider: the other operations of storage/provider/src/transaction.rs and utils.rs
      over the tables of blocks ([BlockTables]), of state ([StateTables]) and all of
      them ([ProviderTables]).  ProviderBlocks reads back and takes off inserted
      blocks; ProviderState and ProviderRevert show that the change sets are a journal
      which taking results replays backwards; ProviderEffect that writing change sets
      succeeds, and what it does to each account and slot; ProviderHash that the hashed tables
      mirror the plain ones; ProviderChain composes them to [insert_block] and
      [take_block_and_execution_range], and TreeProvider to [commit_canonical] and
      [revert_canonical] of the tree.
    - Bloom, Filter, FilterJson: primitives/src/bloom.rs and filter.rs.  Blooms as sets
      of bits, the topics and addresses a filter accepts, the blooms that it skips
      without losing a log, and its JSON format, which is read back as a filter that
      accepts the same.
    - LogFilter: rpc/rpc/src/eth (filter.rs, logs_utils.rs): installed filters, log
      queries and polls.  Polls over a growing chain deliver each matching log once.
    - Executor: executor/src/executor.rs and eth_dao_fork.rs, with the environments and
      the database wrapper of revm.  The interpreter is the record [Revm].
      ExecutorState and ExecutorProofs show that the change sets of a block, written to
      tables that hold the state before it, give the state after it, and when they also
      hold the old values; ExecutorReceipts
      accounts for gas, receipts and logs, and shows that nothing panics;
      ExecutorRewards compares the rewards with the issuance schedule and adds the
      withdrawals; ExecutorSample runs a block on
      an interpreter that meets [RevmOk].

    Each operation of the source is one definition of the same name, prefixed by its
    component where the name is taken (for example [pending_add_transaction]); loops
    are local recursive functions next to it.

    ** Fuel

    Loops over lists are structural.  The others take fuel.  [decode_items] has one
    unit per byte of the payload, and [rlp_decode_total] shows that this is enough.
    The eviction loops of TxPool have one unit per transaction of the sub-pool or of
    the index, and [discard_worst_limits] shows that they return; the same holds of
    [best_next_loop] in [best_transactions_order].  [fill_loop] has one unit per known
    peer, enough by [fill_outbound_slots_spec].  The fuel of the tree is an
    argument: [finalize_block_total] gives a bound from which all runs agree.
    [peek_chains] runs out of every fuel, as
    [update_canonical_hashes_diverges] proves of the source's loop.
    [run] takes two: [turns] bounds its passes and [fuel] the batches of one stage in
    a pass; [run_reaches_target] and [unwind_outcome] give sufficient values.
    [chunks] has one unit per element and the unwinding of shards one per shard of the
    table, enough by [chunks_ok] and [unwind_index_ok].
    [pop_wildcards] of a filter has one unit per element of its list.
    The chain walks [promote], [all_chain_hashes] and [canonical_fork] are only
    proved to preserve the invariant when they return.

    ** Behaviour that departs from the documentation

    Some theorems state what the code does where its comments say otherwise:
    [insert_tx_records_queued], [remove_fresh_pending_leaks],
    [replace_fresh_pending_panics], [update_canonical_hashes_diverges],
    [apply_changed_reads_old], [revert_keeps_created_account],
    [sepolia_fork_id_disagrees], [legacy_chain_id_rejected],
    [header_zero_base_fee_lost], [header_number_panics], [legacy_hash_collision],
    [legacy_v_accepts], [eth_handshake_accepts], [p2p_poll_next_safety],
    [numeric_chain_refused], [timeouts_ban_for_good],
    [duplicate_connections_exhaust], [outbound_counter_underflow],
    [unwind_outcome], [run_never_stops], [receipt_roundtrip_iff],
    [created_destroyed], [access_list_2048_lost], [tx_type_lost], [untouched_account_lost],
    [empty_blocks_lost], [execution_results_restored],
    [short_lived_account_deletes_another], [block_filter_skips_best],
    [failed_poll_loses_logs], [empty_alternatives_match_all],
    [wildcard_alternative_ignored], [earliest_excludes_genesis].

    ** Not modelled

    Input and output, asynchronous plumbing (tasks, streams, channels, locks, wakers),
    the storage engine and its C library, the encrypted transport, discovery, sessions and
    fetchers, RPC servers and handlers other than log filters, metrics, the syntax
    traversal of procedural macros, the interpreter and its inspectors.  Metrics updates
    inside modelled functions are left out.  Termination of the chain walks under the
    number order of forks and the payload validation of the engine API are open. *)
From Stdlib Require Export ZArith Lia.
From stdpp Require Export sorting numbers strings.
From stdpp Require Export base tactics option list gmap.

#[global] Open Scope Z_scope.
#[global] Set Warnings "-clear-no-such-hyp".

(** ** Outcomes of Rust calls

    A fallible Rust function returns [Result]; it may also panic (slice out of
    range, [assert!], [expect]) or loop for ever.  The four outcomes are kept
    apart, so that absence of panics and termination are statements about the
    model and not conventions. *)
Inductive outcome (E A : Type) : Type :=
| Ok (a : A)
| Err (e : E)
| Panic
| Diverge.
Arguments Ok {E A} a.
Arguments Err {E A} e.
Arguments Panic {E A}.
Arguments Diverge {E A}.

#[global] Instance outcome_eq_dec {E A : Type} `{EqDecision E, EqDecision A} :
  EqDecision (outcome E A).
Proof. solve_decision. Defined.

#[global] Instance outcome_ret {E : Type} : MRet (outcome E) := fun A a => Ok a.
#[global] Instance outcome_bind {E : Type} : MBind (outcome E) := fun A B f m =>
  match m with
  | Ok a => f a
  | Err e => Err e
  | Panic => Panic
  | Diverge => Diverge
  end.

(** A call that neither panics nor diverges. *)
Definition safe {E A : Type} (o : outcome E A) : Prop :=
  match o with Ok _ | Err _ => True | Panic | Diverge => False end.

Definition is_ok {E A : Type} (o : outcome E A) : bool :=
  match o with Ok _ => true | _ => false end.

(** ** State passing with outcomes: [&mut self] methods that return [Result] *)
Definition st (S E A : Type) : Type := S -> outcome E A * S.

#[global] Instance st_ret {S E : Type} : MRet (st S E) := fun A a s => (Ok a, s).
#[global] Instance st_bind {S E : Type} : MBind (st S E) := fun A B f m s =>
  match m s with
  | (Ok a, s') => f a s'
  | (Err e, s') => (Err e, s')
  | (Panic, s') => (Panic, s')
  | (Diverge, s') => (Diverge, s')
  end.

Definition st_get {S E : Type} : st S E S := fun s => (Ok s, s).
Definition st_put {S E : Type} (s' : S) : st S E unit := fun _ => (Ok tt, s').
Definition st_throw {S E A : Type} (e : E) : st S E A := fun s => (Err e, s).
Definition st_panic {S E A : Type} : st S E A := fun s => (Panic, s).
Definition st_lift {S E A : Type} (o : outcome E A) : st S E A := fun s => (o, s).

Lemma bind_ok {S E A B} (m : st S E A) (f : A -> st S E B) s a s' :
  m s = (Ok a, s') -> (m ≫= f) s = f a s'.
Proof. intros H. unfold mbind, st_bind. by rewrite H. Qed.

Lemma bind_inv {S E A B} (m : st S E A) (f : A -> st S E B) s b s' :
  (m ≫= f) s = (Ok b, s') -> exists a s1, m s = (Ok a, s1) /\ f a s1 = (Ok b, s').
Proof.
  unfold mbind, st_bind. destruct (m s) as [[a|e| |] s1]; try done. intros H. eauto.
Qed.

Lemma bind_safe {S E A B} (m : st S E A) (f : A -> st S E B) s :
  safe (fst (m s)) -> (forall a s1, m s = (Ok a, s1) -> safe (fst (f a s1))) ->
  safe (fst ((m ≫= f) s)).
Proof.
  unfold mbind, st_bind. intros Hm Hf. destruct (m s) as [[a|e| |] s1] eqn:E1; try done.
  by apply Hf.
Qed.

(** ** Machine integers

    A [w]-bit unsigned integer is a [Z]; arithmetic that can leave the range is
    written with its wrap-around (the release profile). *)
Definition in_u (w z : Z) : Prop := 0 <= z < 2 ^ w.
Definition wrap (w z : Z) : Z := z mod 2 ^ w.
Definition wadd (w a b : Z) : Z := wrap w (a + b).
Definition saturating_sub (a b : Z) : Z := if a <? b then 0 else a - b.
Definition u64_max : Z := 2 ^ 64 - 1.

Lemma wrap_small w z : in_u w z -> wrap w z = z.
Proof. apply Z.mod_small. Qed.

Lemma wadd_small w a b : in_u w (a + b) -> wadd w a b = a + b.
Proof. apply wrap_small. Qed.

Lemma wrap_range w z : 0 <= w -> in_u w (wrap w z).
Proof. intros Hw. apply Z.mod_pos_bound. lia. Qed.

(** ** Sums over maps *)

Definition msum {K A : Type} `{Countable K} (f : A -> Z) (m : gmap K A) : Z :=
  map_fold (fun _ x acc => f x + acc) 0 m.

Section Msum.
Context {K A : Type} `{Countable K} (f : A -> Z).
Implicit Types (m : gmap K A).

Lemma msum_empty : msum f (∅ : gmap K A) = 0.
Proof. done. Qed.

Lemma msum_insert m k x : m !! k = None -> msum f (<[k:=x]> m) = f x + msum f m.
Proof. intros Hk. unfold msum. rewrite map_fold_insert_L; [done|intros; lia|done]. Qed.

Lemma msum_delete m k x : m !! k = Some x -> msum f (delete k m) = msum f m - f x.
Proof.
  intros Hk. rewrite <- (insert_delete_id m k x) at 2 by done.
  rewrite msum_insert by apply lookup_delete_eq. lia.
Qed.

Lemma msum_nonneg m : (forall k x, m !! k = Some x -> 0 <= f x) -> 0 <= msum f m.
Proof.
  induction m as [|k x m Hk IH] using map_ind; intros Hf; [done|].
  rewrite msum_insert by done. pose proof (Hf k x (lookup_insert_eq _ _ _)).
  enough (0 <= msum f m) by lia. apply IH. intros k' x' Hk'. apply (Hf k' x').
  rewrite lookup_insert_ne; [done|]. intros ->. congruence.
Qed.

Lemma msum_subseteq m1 m2 :
  m1 ⊆ m2 -> (forall k x, m2 !! k = Some x -> 0 <= f x) -> msum f m1 <= msum f m2.
Proof.
  revert m2. induction m1 as [|k x m1 Hk IH] using map_ind; intros m2 Hs Hf.
  { rewrite msum_empty. by apply msum_nonneg. }
  assert (Hx : m2 !! k = Some x) by (eapply lookup_weaken; [apply lookup_insert_eq|done]).
  rewrite msum_insert by done. enough (msum f m1 <= msum f (delete k m2)) as Hle
    by (rewrite (msum_delete _ _ _ Hx) in Hle; lia).
  apply IH.
  - apply map_subseteq_spec. intros i y Hi. apply lookup_delete_Some. split; [congruence|].
    eapply lookup_weaken; [|exact Hs]. rewrite lookup_insert_ne; [done|congruence].
  - intros i y Hi. apply lookup_delete_Some in Hi as [_ Hi]. by apply (Hf i).
Qed.

Lemma msum_fmap {B} (g : B -> A) (m : gmap K B) : msum f (g <$> m) = msum (fun x => f (g x)) m.
Proof. unfold msum. by rewrite map_fold_fmap. Qed.
End Msum.

Lemma map_size_delete_lt `{Countable K} {A} (m : gmap K A) k x :
  m !! k = Some x -> (size (delete k m) < size m)%nat.
Proof.
  intros Hk. assert (Hs : is_Some (m !! k)) by (by eexists).
  rewrite map_size_delete_Some by done. enough (size m <> 0%nat) by lia.
  apply map_size_ne_0_lookup. by exists k.
Qed.

Lemma elem_of_concat {A} (x : A) ls : x ∈ concat ls <-> exists l, l ∈ ls /\ x ∈ l.
Proof.
  induction ls as [|l ls IH]; cbn [concat]; [set_solver|]. rewrite elem_of_app, IH. set_solver.
Qed.

(** ** The order in which a hash map is walked: every entry once *)
Definition iter_ok (iter : forall V, gmap Z V -> list (Z * V)) : Prop :=
  forall V (m : gmap Z V), iter V m ≡ₚ map_to_list m.

Definition example_iter (V : Type) (m : gmap Z V) : list (Z * V) := map_to_list m.
Lemma example_iter_ok : iter_ok example_iter.
Proof. intros V m. done. Qed.

(** ** Hint databases and tactics *)

Create HintDb pool.


(** Split the boolean comparison tests of the goal or of a hypothesis. *)
Ltac zcase :=
  repeat match goal with
  | |- context [?a =? ?b] => destruct (Z.eqb_spec a b)
  | |- context [?a <? ?b] => destruct (Z.ltb_spec a b)
  | |- context [?a <=? ?b] => destruct (Z.leb_spec a b)
  end.

Ltac zcase_in H :=
  repeat match type of H with
  | context [?a =? ?b] => destruct (Z.eqb_spec a b)
  | context [?a <? ?b] => destruct (Z.ltb_spec a b)
  | context [?a <=? ?b] => destruct (Z.leb_spec a b)
  end.

(** Decide the comparison tests of the goal that follow by arithmetic. *)
Ltac zdec :=
  repeat match goal with
  | |- context [?a <? ?b] =>
      first [ rewrite (proj2 (Z.ltb_lt a b)) by lia | rewrite (proj2 (Z.ltb_ge a b)) by lia ]
  | |- context [?a <=? ?b] =>
      first [ rewrite (proj2 (Z.leb_le a b)) by lia | rewrite (proj2 (Z.leb_gt a b)) by lia ]
  | |- context [?a =? ?b] =>
      first [ rewrite (proj2 (Z.eqb_eq a b)) by lia | rewrite (proj2 (Z.eqb_neq a b)) by lia ]
  end.

Abbreviation zlen l := (Z.of_nat (length l)).
