(* ===== verification/Bytes.v ===== *)
(** * Bytes and big-endian integers

    A Rust [u8] is a [Z] in [0, 256); a byte slice is a list of them.
    [be_bytes] is [to_be_bytes] of an [8 * n]-bit integer, [be_value] is
    [from_be_bytes], [leading_zeros] the integer method of that name,
    [zeroless_view] and [static_left_pad] are the helpers of the RLP crate. *)
From S2P Require Import Prelude.

Abbreviation bytes := (list Z).

Definition is_byte (b : Z) : Prop := 0 <= b < 256.
Definition wf_bytes (l : bytes) : Prop := Forall is_byte l.

Fixpoint be_bytes (n : nat) (z : Z) : bytes :=
  match n with
  | O => []
  | S n' => be_bytes n' (z / 256) ++ [z mod 256]
  end.

Definition be_value (l : bytes) : Z := foldl (fun acc b => acc * 256 + b) 0 l.

Definition leading_zeros (w z : Z) : Z := if z =? 0 then w else w - 1 - Z.log2 z.

(** [&v[v.iter().take_while(|b| b == 0).count()..]] *)
Fixpoint zeroless_view (v : bytes) : bytes :=
  match v with
  | [] => []
  | b :: v' => if b =? 0 then zeroless_view v' else v
  end.

(** [static_left_pad::<LEN>(data)] *)
Definition static_left_pad (LEN : nat) (data : bytes) : option bytes :=
  if (LEN <? length data)%nat then None
  else match data with
       | [] => Some (replicate LEN 0)
       | b :: _ => if b =? 0 then None
                   else Some (replicate (LEN - length data) 0 ++ data)
       end.

(** ** Big-endian values *)

Lemma length_be_bytes n z : length (be_bytes n z) = n.
Proof.
  revert z; induction n as [|n IH]; intros z; cbn; [done|].
  rewrite length_app, IH; cbn; lia.
Qed.

Lemma be_bytes_wf n z : wf_bytes (be_bytes n z).
Proof.
  revert z; induction n as [|n IH]; intros z; cbn; [constructor|].
  apply Forall_app; split; [apply IH|].
  constructor; [|constructor]. apply Z.mod_pos_bound; lia.
Qed.

Lemma be_value_snoc l b : be_value (l ++ [b]) = be_value l * 256 + b.
Proof. unfold be_value. by rewrite foldl_app. Qed.

Lemma be_value_app l k : be_value (l ++ k) = be_value l * 256 ^ zlen k + be_value k.
Proof.
  induction k as [|b k IH] using rev_ind.
  - rewrite app_nil_r. change (zlen []) with 0. cbn. lia.
  - rewrite app_assoc, !be_value_snoc, IH, length_app, Nat2Z.inj_add; cbn [length].
    rewrite Z.pow_add_r by lia. change (256 ^ Z.of_nat 1) with 256. lia.
Qed.

Lemma be_value_cons b l : be_value (b :: l) = b * 256 ^ zlen l + be_value l.
Proof. change (b :: l) with ([b] ++ l). rewrite be_value_app. cbn. lia. Qed.

Lemma be_value_range l : wf_bytes l -> 0 <= be_value l < 256 ^ zlen l.
Proof.
  induction l as [|b l IH] using rev_ind; intros Hwf; [cbn; lia|].
  apply Forall_app in Hwf as [Hl Hb]. apply Forall_cons_1 in Hb as [Hb _].
  specialize (IH Hl). rewrite be_value_snoc, length_app, Nat2Z.inj_add; cbn [length].
  rewrite Z.pow_add_r by lia. change (256 ^ Z.of_nat 1) with 256.
  unfold is_byte in Hb. lia.
Qed.

Lemma be_value_be_bytes n z : be_value (be_bytes n z) = z mod 256 ^ Z.of_nat n.
Proof.
  revert z; induction n as [|n IH]; intros z.
  - cbn. by rewrite Z.mod_1_r.
  - cbn [be_bytes]. rewrite be_value_snoc, IH, Nat2Z.inj_succ, Z.pow_succ_r by lia.
    rewrite (Z.rem_mul_r z 256) by lia. lia.
Qed.

Lemma be_bytes_be_value l : wf_bytes l -> be_bytes (length l) (be_value l) = l.
Proof.
  induction l as [|b l IH] using rev_ind; intros Hwf; [done|].
  apply Forall_app in Hwf as [Hl Hb]. apply Forall_cons_1 in Hb as [Hb _].
  rewrite be_value_snoc, length_app; cbn [length]. rewrite Nat.add_1_r; cbn [be_bytes].
  rewrite Z.div_add_l by lia. rewrite (Z.div_small b) by apply Hb.
  rewrite Z.add_0_r, IH by done. f_equal. f_equal.
  rewrite Z.add_comm, Z.mod_add by lia. apply Z.mod_small, Hb.
Qed.

Lemma be_value_replicate_0 n : be_value (replicate n 0) = 0.
Proof. induction n as [|n IH]; [done|]. cbn [replicate]. rewrite be_value_cons, IH. lia. Qed.

Lemma pow256 n : 0 <= n -> 256 ^ n = 2 ^ (8 * n).
Proof. intros Hn. change 256 with (2 ^ 8). by rewrite <- Z.pow_mul_r by lia. Qed.

(** ** Views without leading zeros *)

Lemma zeroless_suffix v :
  exists k, v = replicate k 0 ++ zeroless_view v.
Proof.
  induction v as [|b v [k IH]]; [by exists O|]. cbn [zeroless_view].
  destruct (Z.eqb_spec b 0) as [->|]; [|by exists O].
  exists (S k). cbn. by f_equal.
Qed.

Lemma zeroless_head v b l : zeroless_view v = b :: l -> b <> 0.
Proof.
  induction v as [|c v IH]; [done|]. cbn [zeroless_view].
  destruct (Z.eqb_spec c 0); [apply IH|]. by intros [= -> ->].
Qed.

Lemma zeroless_wf v : wf_bytes v -> wf_bytes (zeroless_view v).
Proof.
  intros Hv. destruct (zeroless_suffix v) as [k Hk]. rewrite Hk in Hv.
  by apply Forall_app in Hv as [_ ?].
Qed.

Lemma length_zeroless v : (length (zeroless_view v) <= length v)%nat.
Proof.
  destruct (zeroless_suffix v) as [k Hk].
  rewrite Hk at 2. rewrite length_app. lia.
Qed.

Lemma be_value_zeroless v : be_value (zeroless_view v) = be_value v.
Proof.
  destruct (zeroless_suffix v) as [k Hk]. rewrite Hk at 2.
  rewrite be_value_app, be_value_replicate_0. lia.
Qed.

(** The number of significant bytes, and the bounds that characterise it. *)
Definition byte_width (n : nat) (z : Z) : nat := length (zeroless_view (be_bytes n z)).

Lemma byte_width_bounds n z :
  0 <= z < 256 ^ Z.of_nat n ->
  let k := Z.of_nat (byte_width n z) in
  z < 256 ^ k /\ (0 < k -> 256 ^ (k - 1) <= z) /\ (k = 0 -> z = 0) /\ k <= Z.of_nat n.
Proof.
  intros Hz k. unfold k, byte_width.
  assert (Hval : be_value (zeroless_view (be_bytes n z)) = z).
  { rewrite be_value_zeroless, be_value_be_bytes. by apply Z.mod_small. }
  pose proof (zeroless_wf _ (be_bytes_wf n z)) as Hwf.
  pose proof (length_zeroless (be_bytes n z)) as Hlen. rewrite length_be_bytes in Hlen.
  pose proof (be_value_range _ Hwf) as Hr. rewrite Hval in Hr.
  split; [lia|]. split; [|split; [|lia]].
  - destruct (zeroless_view (be_bytes n z)) as [|b l] eqn:E; [cbn; lia|]. intros _.
    pose proof (zeroless_head _ _ _ E) as Hb. apply Forall_cons_1 in Hwf as [Hb' Hl].
    rewrite be_value_cons in Hval. pose proof (be_value_range _ Hl) as Hr'.
    cbn [length]. rewrite Nat2Z.inj_succ. replace (Z.succ (zlen l) - 1) with (zlen l) by lia.
    unfold is_byte in Hb'. nia.
  - destruct (zeroless_view (be_bytes n z)); cbn; [cbn in Hval; lia|lia].
Qed.

Lemma leading_zeros_byte_width n z :
  0 <= z < 256 ^ Z.of_nat n ->
  leading_zeros (8 * Z.of_nat n) z / 8 = Z.of_nat n - Z.of_nat (byte_width n z).
Proof.
  intros Hz. destruct (byte_width_bounds n z Hz) as (Hhi & Hlo & H0 & Hn).
  set (k := Z.of_nat (byte_width n z)) in *. unfold leading_zeros.
  destruct (Z.eqb_spec z 0) as [->|Hne].
  - assert (k = 0).
    { destruct (Z.eq_dec k 0) as [|Hk]; [done|].
      assert (0 < 256 ^ (k - 1)) by (apply Z.pow_pos_nonneg; lia). lia. }
    rewrite Z.mul_comm, Z.div_mul by lia. lia.
  - assert (0 < k) by lia. specialize (Hlo ltac:(lia)).
    rewrite !pow256 in * by lia.
    pose proof (Z.log2_le_mono _ _ Hlo) as L1. rewrite Z.log2_pow2 in L1 by lia.
    assert (L2 : Z.log2 z < 8 * k) by (apply Z.log2_lt_pow2; lia).
    symmetry; apply (Z.div_unique _ 8 _ (8 * Z.of_nat n - 1 - Z.log2 z - 8 * (Z.of_nat n - k))); lia.
Qed.

Lemma drop_leading_zeros n z :
  0 <= z < 256 ^ Z.of_nat n ->
  drop (Z.to_nat (leading_zeros (8 * Z.of_nat n) z / 8)) (be_bytes n z)
  = zeroless_view (be_bytes n z).
Proof.
  intros Hz. rewrite leading_zeros_byte_width by done. unfold byte_width.
  destruct (zeroless_suffix (be_bytes n z)) as [k Hk].
  assert (Hl : (k + length (zeroless_view (be_bytes n z)) = n)%nat).
  { pose proof (length_be_bytes n z) as L. rewrite Hk in L at 1.
    by rewrite length_app, length_replicate in L. }
  replace (Z.to_nat _) with k by lia.
  rewrite Hk at 1. apply drop_app_length'. by rewrite length_replicate.
Qed.

(** ** Left padding *)

Lemma left_pad_value LEN data v :
  static_left_pad LEN data = Some v -> be_value v = be_value data.
Proof.
  unfold static_left_pad. destruct (LEN <? length data)%nat; [done|].
  destruct data as [|b d]; [intros [= <-]; apply be_value_replicate_0|].
  destruct (Z.eqb_spec b 0); [done|]. intros [= <-].
  rewrite be_value_app, be_value_replicate_0. lia.
Qed.

(** Padding succeeds exactly on data that fits and has no leading zero. *)
Lemma left_pad_some LEN data :
  zeroless_view data = data -> (length data <= LEN)%nat ->
  exists v, static_left_pad LEN data = Some v.
Proof.
  intros Hz Hl. unfold static_left_pad.
  destruct (Nat.ltb_spec LEN (length data)); [lia|].
  destruct data as [|b d]; [by eexists|].
  apply zeroless_head in Hz. destruct (Z.eqb_spec b 0); [done|]. by eexists.
Qed.

Lemma left_pad_inv LEN data v :
  static_left_pad LEN data = Some v ->
  zeroless_view data = data /\ (length data <= LEN)%nat.
Proof.
  unfold static_left_pad. destruct (Nat.ltb_spec LEN (length data)); [done|].
  destruct data as [|b d]; [by split|]. cbn [zeroless_view].
  destruct (Z.eqb_spec b 0); [done|]. by split.
Qed.

Lemma zeroless_idemp v : zeroless_view (zeroless_view v) = zeroless_view v.
Proof.
  induction v as [|b v IH]; [done|]. cbn [zeroless_view].
  destruct (Z.eqb_spec b 0) as [|Hb]; [done|]. cbn [zeroless_view].
  by destruct (Z.eqb_spec b 0).
Qed.

(** Data without a leading zero is the significant bytes of its value. *)
Lemma zeroless_be_bytes n data :
  wf_bytes data -> zeroless_view data = data -> (length data <= n)%nat ->
  zeroless_view (be_bytes n (be_value data)) = data.
Proof.
  intros Hwf Hz Hl.
  assert (Hpad : be_bytes n (be_value data) = replicate (n - length data) 0 ++ data).
  { rewrite <- (be_bytes_be_value (replicate (n - length data) 0 ++ data)).
    - rewrite length_app, length_replicate. f_equal; [lia|].
      rewrite be_value_app, be_value_replicate_0. lia.
    - apply Forall_app; split; [|done]. apply Forall_replicate. unfold is_byte; lia. }
  rewrite Hpad. clear Hpad Hl. induction (n - length data)%nat as [|k IH]; [done|]. apply IH.
Qed.

(** ** Strings *)

Abbreviation in_range lo hi b := ((lo <=? b) && (b <=? hi)).
Abbreviation continuation b := (in_range 0x80 0xBF b).

(** [core::str::from_utf8] succeeds: well-formed UTF-8 without surrogates or
    overlong forms. *)
Fixpoint utf8_valid (s : bytes) : bool :=
  match s with
  | [] => true
  | b :: s =>
      if b <? 0x80 then utf8_valid s else
      match s with
      | [] => false
      | b1 :: s =>
          if in_range 0xC2 0xDF b then continuation b1 && utf8_valid s else
          match s with
          | [] => false
          | b2 :: s =>
              if in_range 0xE0 0xEF b then
                (if b =? 0xE0 then in_range 0xA0 0xBF b1
                 else if b =? 0xED then in_range 0x80 0x9F b1 else continuation b1)
                && continuation b2 && utf8_valid s
              else
              match s with
              | [] => false
              | b3 :: s =>
                  in_range 0xF0 0xF4 b
                  && (if b =? 0xF0 then in_range 0x90 0xBF b1
                      else if b =? 0xF4 then in_range 0x80 0x8F b1 else continuation b1)
                  && continuation b2 && continuation b3 && utf8_valid s
              end
          end
      end
  end.
