(* ===== verification/Rlp.v ===== *)
(** * The RLP codec (crates/rlp/src)

    [Header], [DecodeError] and the encoders and decoders of the crate.  An
    encoder takes the output buffer and returns it with the encoding appended
    ([BufMut]); a decoder is a state-passing computation on the input slice
    ([&mut &[u8]]) whose slice after an error is kept.  A type with an encoder,
    a [length] and a decoder is a [Codec]; [CodecOk] states what the rest of the
    node relies on, and there is one instance per codec of the crate. *)
From S2P Require Import Prelude Bytes.

(** ** Types (types.rs, decode.rs) *)

Record Header := mkHeader { is_list : bool; payload_length : Z }.

Definition EMPTY_STRING_CODE : Z := 0x80.
Definition EMPTY_LIST_CODE : Z := 0xC0.

Inductive DecodeError :=
| Overflow
| LeadingZero
| InputTooShort
| NonCanonicalSingleByte
| NonCanonicalSize
| UnexpectedLength
| UnexpectedString
| UnexpectedList
| ListLengthMismatch (expected got : Z)
| Custom (msg : string).

#[global] Instance Header_eq_dec : EqDecision Header.
Proof. solve_decision. Defined.
#[global] Instance DecodeError_eq_dec : EqDecision DecodeError.
Proof. solve_decision. Defined.

(** ** Output buffer *)

Definition put_u8 (b : Z) (out : bytes) : bytes := out ++ [b].
Definition put_slice (l out : bytes) : bytes := out ++ l.

(** ** Encoders (encode.rs) *)

Definition Header_encode (h : Header) (out : bytes) : bytes :=
  if payload_length h <? 56 then
    let code := if is_list h then EMPTY_LIST_CODE else EMPTY_STRING_CODE in
    put_u8 (wadd 8 code (wrap 8 (payload_length h))) out
  else
    let len_be := zeroless_view (be_bytes 8 (payload_length h)) in
    let code := if is_list h then 0xF7 else 0xB7 in
    put_slice len_be (put_u8 (wadd 8 code (wrap 8 (zlen len_be))) out).

Definition Header_length (h : Header) : Z := zlen (Header_encode h []).

Definition length_of_length (payload_length : Z) : Z :=
  if payload_length <? 56 then 1
  else 1 + 8 - leading_zeros 64 payload_length / 8.

Definition needs_header (s : bytes) : bool :=
  negb (length s =? 1)%nat || (EMPTY_STRING_CODE <=? nth 0 s 0).

Definition slice_length (s : bytes) : Z :=
  let len := zlen s in
  if needs_header s then wadd 64 len (length_of_length (zlen s)) else len.

Definition slice_encode (s out : bytes) : bytes :=
  let out :=
    if needs_header s
    then Header_encode (mkHeader false (zlen s)) out else out in
  put_slice s out.

(** [encodable_uint!]: the unsigned integer of [n] bytes. *)
Definition uint_length (n : nat) (v : Z) : Z :=
  if v <? EMPTY_STRING_CODE then 1
  else 1 + Z.of_nat n - leading_zeros (8 * Z.of_nat n) v / 8.

Definition uint_encode (n : nat) (v : Z) (out : bytes) : bytes :=
  if v =? 0 then put_u8 EMPTY_STRING_CODE out
  else if v <? EMPTY_STRING_CODE then put_u8 v out
  else
    let be := zeroless_view (be_bytes n v) in
    put_slice be (put_u8 (wadd 8 EMPTY_STRING_CODE (wrap 8 (zlen be))) out).

(** [fixed_uint_impl!]: the big integers of [n] bytes. *)
Definition fixed_uint_encode (n : nat) (v : Z) (out : bytes) : bytes :=
  let temp_arr := be_bytes n v in
  let sliced := drop (Z.to_nat (leading_zeros (8 * Z.of_nat n) v / 8)) temp_arr in
  slice_encode sliced out.

Definition bool_as_u8 (b : bool) : Z := if b then 1 else 0.
Definition bool_length (b : bool) : Z := uint_length 1 (bool_as_u8 b).
Definition bool_encode (b : bool) (out : bytes) : bytes := uint_encode 1 (bool_as_u8 b) out.

(** [std::net::IpAddr] is its octets. *)
Inductive IpAddr := V4 (octets : bytes) | V6 (octets : bytes).

Definition ip_octets (a : IpAddr) : bytes := match a with V4 o | V6 o => o end.
Definition ip_encode (a : IpAddr) (out : bytes) : bytes := slice_encode (ip_octets a) out.

(** ** Codecs: the [Encodable] and [Decodable] traits *)

Abbreviation dec A := (st bytes DecodeError A).

Record Codec (A : Type) := mkCodec {
  encode : A -> bytes -> bytes;
  encoded_length : A -> Z;
  decode : dec A
}.
Arguments mkCodec {A} _ _ _.
Arguments encode {A} c _ _ : rename.
Arguments encoded_length {A} c _ : rename.
Arguments decode {A} c _ : rename.

(** [rlp_list_header], [list_length] and [encode_list] *)
Definition rlp_list_header {A} (c : Codec A) (v : list A) : Header :=
  foldl (fun h x => mkHeader (is_list h)
                      (wadd 64 (payload_length h) (encoded_length c x)))
        (mkHeader true 0) v.

Definition list_length {A} (c : Codec A) (v : list A) : Z :=
  let payload_length := payload_length (rlp_list_header c v) in
  wadd 64 (length_of_length payload_length) payload_length.

Definition encode_list {A} (c : Codec A) (v : list A) (out : bytes) : bytes :=
  let h := rlp_list_header c v in
  foldl (fun out x => encode c x out) (Header_encode h out) v.

(** [encode_fixed_size]: the encoder writes into an array of [LEN] bytes and
    panics when it does not fit; the rest of the array is cut off. *)
Definition encode_fixed_size {A} (c : Codec A) (LEN : nat) (v : A)
    : outcome DecodeError bytes :=
  let written := encode c v [] in
  if (length written <=? LEN)%nat then
    let s := replicate (LEN - length written) 0 in
    let final_len := (LEN - length s)%nat in
    Ok (take final_len (written ++ s))
  else Panic.

(** ** Input slice *)

Definition buf_advance (n : Z) : dec unit := fun s =>
  if n <=? zlen s then (Ok tt, drop (Z.to_nat n) s) else (Panic, s).

Definition buf_index0 : dec Z := fun s =>
  match s with b :: _ => (Ok b, s) | [] => (Panic, s) end.

Definition buf_slice_to (n : Z) : dec bytes := fun s =>
  if n <=? zlen s then (Ok (take (Z.to_nat n) s), s) else (Panic, s).

Definition is_empty {A} (l : list A) : bool := match l with [] => true | _ => false end.

(** ** Decoders (decode.rs) *)

(** The length field of a long header; [usize] has 64 bits. *)
Definition decode_long_length (len_of_len : Z) : dec Z :=
  s ← st_get;
  if zlen s <? len_of_len then st_throw InputTooShort else
  data ← buf_slice_to len_of_len;
  match static_left_pad 8 data with
  | None => st_throw LeadingZero
  | Some v =>
      let payload_length := be_value v in
      buf_advance len_of_len;;
      if payload_length <? 56 then st_throw NonCanonicalSize else mret payload_length
  end.

Definition Header_decode : dec Header :=
  s ← st_get;
  if is_empty s then st_throw InputTooShort else
  b ← buf_index0;
  h ← (if b <? 0x80 then mret (mkHeader false 1)
       else if b <? 0xB8 then
         buf_advance 1;;
         let h := mkHeader false (b - 0x80) in
         if payload_length h =? 1 then
           s ← st_get;
           if is_empty s then st_throw InputTooShort else
           b0 ← buf_index0;
           if b0 <? 0x80 then st_throw NonCanonicalSingleByte else mret h
         else mret h
       else if b <? 0xC0 then
         buf_advance 1;;
         payload_length ← decode_long_length (b - 0xB7);
         mret (mkHeader false payload_length)
       else if b <? 0xF8 then
         buf_advance 1;; mret (mkHeader true (b - 0xC0))
       else
         buf_advance 1;;
         payload_length ← decode_long_length (b - 0xF7);
         mret (mkHeader true payload_length) : dec Header);
  s ← st_get;
  if zlen s <? payload_length h then st_throw InputTooShort else mret h.

(** [decode_integer!] and [fixed_uint_impl!]: an integer of [n] bytes. *)
Definition uint_decode (n : nat) : dec Z :=
  h ← Header_decode;
  if is_list h then st_throw UnexpectedList else
  if Z.of_nat n <? payload_length h then st_throw Overflow else
  s ← st_get;
  if zlen s <? payload_length h then st_throw InputTooShort else
  if payload_length h =? 0 then mret 0 else
  data ← buf_slice_to (payload_length h);
  match static_left_pad n data with
  | None => st_throw LeadingZero
  | Some v => buf_advance (payload_length h);; mret (be_value v)
  end.

Definition bool_decode : dec bool :=
  v ← uint_decode 1;
  if v =? 0 then mret false
  else if v =? 1 then mret true
  else st_throw (Custom "invalid bool value, must be 0 or 1").

(** [[u8; N]] *)
Definition array_decode (N : nat) : dec bytes :=
  h ← Header_decode;
  if is_list h then st_throw UnexpectedList else
  if negb (payload_length h =? Z.of_nat N) then st_throw UnexpectedLength else
  to ← buf_slice_to (Z.of_nat N);
  buf_advance (Z.of_nat N);;
  mret to.

(** [BytesMut] and [Bytes] *)
Definition bytes_decode : dec bytes :=
  h ← Header_decode;
  if is_list h then st_throw UnexpectedList else
  to ← buf_slice_to (payload_length h);
  buf_advance (payload_length h);;
  mret to.

Definition ip_decode : dec IpAddr :=
  h ← Header_decode;
  if is_list h then st_throw UnexpectedList else
  o ← (if payload_length h =? 4 then to ← buf_slice_to 4; mret (V4 to)
       else if payload_length h =? 16 then to ← buf_slice_to 16; mret (V6 to)
       else st_throw UnexpectedLength : dec IpAddr);
  buf_advance (payload_length h);;
  mret o.

(** The [while !payload_view.is_empty()] loop of [Vec::decode]. *)
Fixpoint decode_items {A} (d : dec A) (fuel : nat) (payload_view : bytes)
    : outcome DecodeError (list A) :=
  match payload_view with
  | [] => Ok []
  | _ =>
      match fuel with
      | O => Diverge
      | S fuel =>
          match d payload_view with
          | (Ok x, payload_view) => xs ← decode_items d fuel payload_view; Ok (x :: xs)
          | (Err e, _) => Err e
          | (Panic, _) => Panic
          | (Diverge, _) => Diverge
          end
      end
  end.

Definition vec_decode {A} (d : dec A) : dec (list A) :=
  h ← Header_decode;
  if negb (is_list h) then st_throw UnexpectedString else
  payload_view ← buf_slice_to (payload_length h);
  to ← st_lift (decode_items d (length payload_view) payload_view);
  buf_advance (payload_length h);;
  mret to.

(** The [Rlp] cursor over the items of a list. *)
Definition Rlp_new (payload : bytes) : outcome DecodeError bytes :=
  fst ((h ← Header_decode;
        if negb (is_list h) then st_throw UnexpectedString
        else buf_slice_to (payload_length h)) payload).

Definition Rlp_get_next {A} (d : dec A) : dec (option A) :=
  payload_view ← st_get;
  if is_empty payload_view then mret None
  else x ← d; mret (Some x).

(** ** The codecs of the crate *)

Definition uint_codec (n : nat) : Codec Z := mkCodec (uint_encode n) (uint_length n) (uint_decode n).
Definition fixed_uint_codec (n : nat) : Codec Z :=
  mkCodec (fixed_uint_encode n) (uint_length n) (uint_decode n).
Definition bytes_codec : Codec bytes := mkCodec slice_encode slice_length bytes_decode.
Definition array_codec (N : nat) : Codec bytes := mkCodec slice_encode slice_length (array_decode N).
Definition bool_codec : Codec bool := mkCodec bool_encode bool_length bool_decode.
(** [IpAddr] keeps the default [length]: the length of what [encode] writes. *)
Definition ip_codec : Codec IpAddr := mkCodec ip_encode (fun a => zlen (ip_encode a [])) ip_decode.
Definition vec_codec {A} (c : Codec A) : Codec (list A) :=
  mkCodec (encode_list c) (list_length c) (vec_decode (decode c)).

(** ** What a codec promises *)

(** A Rust slice holds bytes, and at most [isize::MAX] of them. *)
Definition is_slice (l : bytes) : Prop := wf_bytes l /\ zlen l < 2 ^ 63.

Class CodecOk {A : Type} (c : Codec A) (wf : A -> Prop) : Prop := {
  encode_append x out : encode c x out = out ++ encode c x [];
  encode_wf x : wf x -> wf_bytes (encode c x []);
  encode_nonempty x : wf x -> encode c x [] <> [];
  encode_length x : wf x -> encoded_length c x = zlen (encode c x []);
  decode_encode x rest : wf x -> decode c (encode c x [] ++ rest) = (Ok x, rest);
  decode_canonical buf x rest :
    is_slice buf -> decode c buf = (Ok x, rest) -> wf x /\ buf = encode c x [] ++ rest;
  decode_safe buf : is_slice buf -> safe (fst (decode c buf))
}.

(** The two halves a type can have without the other: its encodings are read
    back ([CodecRt]), and its decoder never panics, never diverges and consumes
    at least one byte when it succeeds ([DecodeOk]).  A decoder that accepts
    several encodings of a value has these and no canonicity. *)
Class CodecRt {A : Type} (c : Codec A) (wf : A -> Prop) : Prop := {
  rt_append x out : encode c x out = out ++ encode c x [];
  rt_wf x : wf x -> wf_bytes (encode c x []);
  rt_nonempty x : wf x -> encode c x [] <> [];
  rt_length x : wf x -> encoded_length c x = zlen (encode c x []);
  rt_decode x rest : wf x -> decode c (encode c x [] ++ rest) = (Ok x, rest)
}.

Class DecodeOk {A : Type} (d : dec A) : Prop := {
  dk_safe buf : is_slice buf -> safe (fst (d buf));
  dk_consumes buf x rest :
    is_slice buf -> d buf = (Ok x, rest) -> exists pre, pre <> [] /\ buf = pre ++ rest
}.

#[global] Instance CodecOk_rt {A} (c : Codec A) wf : CodecOk c wf -> CodecRt c wf.
Proof. intros []. by split. Qed.

#[global] Instance CodecOk_dec {A} (c : Codec A) wf : CodecOk c wf -> DecodeOk (decode c).
Proof.
  intros Hc. split; [apply decode_safe|]. intros buf x rest Hb H.
  apply decode_canonical in H as [Hx ->]; [|done]. exists (encode c x []).
  split; [by apply encode_nonempty|done].
Qed.

Definition wf_uint (n : nat) (v : Z) : Prop := 0 <= v < 256 ^ Z.of_nat n.
Definition wf_array (N : nat) (l : bytes) : Prop := wf_bytes l /\ length l = N.
Definition wf_ip (a : IpAddr) : Prop :=
  wf_bytes (ip_octets a) /\ length (ip_octets a) = match a with V4 _ => 4%nat | V6 _ => 16%nat end.

(** The concatenated items of a list, and its well-formedness: the payload
    fits in a Rust allocation. *)
Definition items_encode {A} (c : Codec A) (v : list A) : bytes :=
  concat ((fun x => encode c x []) <$> v).
Definition wf_vec {A} (c : Codec A) (wf : A -> Prop) (v : list A) : Prop :=
  Forall wf v /\ zlen (items_encode c v) < 2 ^ 63.

(** ** Input-slice lemmas *)

Lemma buf_advance_app a rest : buf_advance (zlen a) (a ++ rest) = (Ok tt, rest).
Proof.
  unfold buf_advance. rewrite length_app. zcase; [|lia].
  by rewrite Nat2Z.id, drop_app_length.
Qed.

Lemma buf_slice_to_app a rest : buf_slice_to (zlen a) (a ++ rest) = (Ok a, a ++ rest).
Proof.
  unfold buf_slice_to. rewrite length_app. zcase; [|lia].
  by rewrite Nat2Z.id, take_app_length.
Qed.

Lemma buf_advance_inv n s s' u :
  0 <= n -> buf_advance n s = (Ok u, s') ->
  n <= zlen s /\ s' = drop (Z.to_nat n) s.
Proof. unfold buf_advance. intros Hn. zcase; [|done]. by intros [= _ <-]. Qed.

Lemma buf_slice_to_inv n s s' d :
  buf_slice_to n s = (Ok d, s') -> n <= zlen s /\ d = take (Z.to_nat n) s /\ s' = s.
Proof. unfold buf_slice_to. zcase; [|done]. by intros [= <- <-]. Qed.

(** ** Headers *)

Definition wf_header (h : Header) : Prop := 0 <= payload_length h < 2 ^ 64.

Lemma length_code_range p :
  56 <= p < 2 ^ 64 -> 1 <= zlen (zeroless_view (be_bytes 8 p)) <= 8.
Proof.
  intros Hp. destruct (byte_width_bounds 8 p) as (_ & _ & H0 & Hn).
  { change (256 ^ Z.of_nat 8) with (2 ^ 64). lia. }
  unfold byte_width in *. lia.
Qed.

(** The bytes of a header, without machine arithmetic. *)
Lemma Header_encode_eq h out :
  wf_header h ->
  Header_encode h out = out ++
    if payload_length h <? 56
    then [(if is_list h then 0xC0 else 0x80) + payload_length h]
    else let be := zeroless_view (be_bytes 8 (payload_length h)) in
         ((if is_list h then 0xF7 else 0xB7) + zlen be) :: be.
Proof.
  unfold wf_header, Header_encode, put_u8, put_slice. intros Hh.
  destruct (Z.ltb_spec (payload_length h) 56).
  - f_equal. f_equal. rewrite (wrap_small 8) by (unfold in_u; lia).
    apply wadd_small. unfold in_u, EMPTY_LIST_CODE, EMPTY_STRING_CODE.
    destruct (is_list h); lia.
  - pose proof (length_code_range (payload_length h)) as Hk.
    cbv zeta. rewrite <- app_assoc. cbn [app]. do 2 f_equal.
    rewrite (wrap_small 8) by (unfold in_u; lia).
    apply wadd_small. unfold in_u. destruct (is_list h); lia.
Qed.

Lemma Header_encode_append h out : Header_encode h out = out ++ Header_encode h [].
Proof.
  unfold Header_encode, put_u8, put_slice. destruct (_ <? _); cbn; [done|].
  by rewrite <- app_assoc.
Qed.

Lemma Header_encode_nonempty h : Header_encode h [] <> [].
Proof. unfold Header_encode, put_u8, put_slice. by destruct (_ <? 56). Qed.

Lemma Header_encode_wf h : wf_header h -> wf_bytes (Header_encode h []).
Proof.
  intros Hh. rewrite Header_encode_eq by done. unfold wf_header in Hh. cbn [app].
  destruct (Z.ltb_spec (payload_length h) 56).
  - constructor; [|constructor]. unfold is_byte. destruct (is_list h); lia.
  - cbv zeta. pose proof (length_code_range (payload_length h)).
    constructor; [unfold is_byte; destruct (is_list h); lia|].
    apply zeroless_wf, be_bytes_wf.
Qed.

Lemma length_of_length_ok h : wf_header h -> length_of_length (payload_length h) = Header_length h.
Proof.
  intros Hh. unfold Header_length, length_of_length. rewrite Header_encode_eq by done.
  unfold wf_header in Hh. cbn [app]. destruct (Z.ltb_spec (payload_length h) 56); [done|].
  cbv zeta. cbn [length]. rewrite Nat2Z.inj_succ.
  change 64 with (8 * Z.of_nat 8). rewrite leading_zeros_byte_width; [|change (256 ^ Z.of_nat 8) with (2^64); lia].
  unfold byte_width. lia.
Qed.

Lemma decode_long_length_ok p rest :
  56 <= p < 2 ^ 64 ->
  let be := zeroless_view (be_bytes 8 p) in
  decode_long_length (zlen be) (be ++ rest) = (Ok p, rest).
Proof.
  intros Hp be. unfold decode_long_length.
  pose proof (length_code_range p Hp) as Hk. fold be in Hk.
  destruct (left_pad_some 8 be) as [v Hv]; [apply zeroless_idemp|lia|].
  erewrite bind_ok by reflexivity. rewrite length_app.
  destruct (Z.ltb_spec (Z.of_nat (length be + length rest)) (zlen be)); [lia|].
  erewrite bind_ok by apply buf_slice_to_app. rewrite Hv.
  erewrite bind_ok by apply buf_advance_app.
  rewrite (left_pad_value _ _ _ Hv). unfold be.
  rewrite be_value_zeroless, be_value_be_bytes, Z.mod_small
    by (change (256 ^ Z.of_nat 8) with (2 ^ 64); lia).
  destruct (Z.ltb_spec p 56); [lia|done].
Qed.

Lemma decode_long_length_inv k s p rest :
  wf_bytes s -> 0 <= k -> decode_long_length k s = (Ok p, rest) ->
  56 <= p < 2 ^ 64 /\ s = zeroless_view (be_bytes 8 p) ++ rest /\
  k = zlen (zeroless_view (be_bytes 8 p)).
Proof.
  intros Hwf Hk H. unfold decode_long_length in H.
  apply bind_inv in H as (s0 & s1 & [= <- <-] & H).
  destruct (Z.ltb_spec (zlen s) k); [done|].
  apply bind_inv in H as (data & s1 & H1 & H).
  apply buf_slice_to_inv in H1 as (_ & -> & ->).
  destruct (static_left_pad 8 (take (Z.to_nat k) s)) as [v|] eqn:Hv; [|done].
  apply bind_inv in H as (u & s1 & H1 & H).
  apply buf_advance_inv in H1 as [_ ->]; [|done].
  destruct (Z.ltb_spec (be_value v) 56); [done|]. injection H as <- <-.
  destruct (left_pad_inv _ _ _ Hv) as [Hz Hl].
  apply left_pad_value in Hv. rewrite Hv in *.
  assert (Hwf' : wf_bytes (take (Z.to_nat k) s)) by (by apply Forall_take).
  pose proof (be_value_range _ Hwf') as Hr.
  rewrite zeroless_be_bytes by done. rewrite take_drop, length_take in *.
  split; [|split; [done|lia]]. split; [done|].
  eapply Z.lt_le_trans; [apply Hr|]. change (2 ^ 64) with (256 ^ 8).
  apply Z.pow_le_mono_r; lia.
Qed.

(** Run one monadic step whose result is known by computation. *)
Ltac step := erewrite bind_ok by reflexivity; cbn [is_empty payload_length is_list].

Ltac step_in H := erewrite bind_ok in H by reflexivity; cbn [is_empty payload_length is_list] in H.

Lemma advance1 b s : buf_advance 1 (b :: s) = (Ok tt, s).
Proof. apply (buf_advance_app [b]). Qed.

Lemma Header_decode_single b s :
  b < 0x80 -> Header_decode (b :: s) = (Ok (mkHeader false 1), b :: s).
Proof.
  intros Hb. unfold Header_decode. do 2 step.
  destruct (Z.ltb_spec b 0x80); [|lia]. do 2 step.
  destruct (Z.ltb_spec (zlen (b :: s)) 1); [cbn in *; lia|done].
Qed.

(** A byte string of one small byte is written without a header. *)
Definition header_guard (h : Header) (rest : bytes) : Prop :=
  is_list h = false -> payload_length h = 1 -> 0x80 <= nth 0 rest 0.

Lemma Header_decode_encode h rest :
  wf_header h -> payload_length h <= zlen rest -> header_guard h rest ->
  Header_decode (Header_encode h [] ++ rest) = (Ok h, rest).
Proof.
  destruct h as [l p]. unfold wf_header; cbn. intros Hp Hrest Hg.
  assert (Hfin : (s ← st_get;
     if zlen s <? payload_length (mkHeader l p) then st_throw InputTooShort
     else mret (mkHeader l p) : dec Header) rest = (Ok (mkHeader l p), rest)).
  { step. destruct (Z.ltb_spec (zlen rest) p); [lia|done]. }
  rewrite Header_encode_eq by done. cbn [app is_list payload_length].
  destruct (Z.ltb_spec p 56) as [Hs|Hs]; cbn [app]; unfold Header_decode; do 2 step.
  - destruct l; zdec; (erewrite bind_ok; [apply Hfin|]); erewrite bind_ok by apply advance1.
    + unfold mret, st_ret. repeat f_equal. lia.
    + replace (0x80 + p - 0x80) with p by lia. cbn [payload_length].
      destruct (Z.eqb_spec p 1) as [->|]; [|done]. step.
      specialize (Hg eq_refl eq_refl). destruct rest as [|b0 rest]; [cbn in Hrest; lia|].
      cbn in Hg; cbn [is_empty]. step. by zdec.
  - pose proof (length_code_range p) as Hk. pose proof (decode_long_length_ok p rest) as Hl.
    destruct l; zdec; (erewrite bind_ok; [apply Hfin|]); erewrite bind_ok by apply advance1;
      rewrite Z.add_simpl_l, (bind_ok _ _ _ _ _ (Hl ltac:(lia))); done.
Qed.

(** The bytes of the header that a branch of the decoder read. *)
Ltac header_inv :=
  split; [unfold wf_header; cbn; lia|];
  split; [unfold header_guard; cbn; first [done | lia | auto]|];
  rewrite Header_encode_eq by (unfold wf_header; cbn; lia);
  cbn [payload_length is_list app]; zdec; cbv zeta; cbn [app]; f_equal; lia.

(** What a decoded header says about the bytes it was read from. *)
Lemma Header_decode_inv buf h rest :
  wf_bytes buf -> Header_decode buf = (Ok h, rest) ->
  payload_length h <= zlen rest /\
  ((h = mkHeader false 1 /\ rest = buf /\ nth 0 buf 0 < 0x80) \/
   (wf_header h /\ header_guard h rest /\ buf = Header_encode h [] ++ rest)).
Proof.
  intros Hwf H. destruct buf as [|b s]; [done|].
  unfold Header_decode in H. do 2 step_in H.
  apply Forall_cons_1 in Hwf as [Hb Hwf]. unfold is_byte in Hb.
  apply bind_inv in H as (h0 & s1 & Hbr & H).
  apply bind_inv in H as (s2 & s3 & [= <- <-] & H).
  destruct (Z.ltb_spec (zlen s1) (payload_length h0)) as [|Hle]; [done|].
  injection H as -> ->. split; [done|].
  destruct (Z.ltb_spec b 0x80) as [H1|H1].
  { injection Hbr as <- <-. left. by cbn. }
  right. destruct (Z.ltb_spec b 0xB8) as [H2|H2]; [|destruct (Z.ltb_spec b 0xC0) as [H3|H3];
    [|destruct (Z.ltb_spec b 0xF8) as [H4|H4]]];
  rewrite (bind_ok _ _ _ _ _ (advance1 _ _)) in Hbr.
  - cbn [payload_length] in Hbr. unfold wf_header, header_guard.
    assert (Hh : h = mkHeader false (b - 0x80) /\ rest = s /\ (b - 0x80 = 1 -> 0x80 <= nth 0 s 0)).
    { destruct (Z.eqb_spec (b - 0x80) 1) as [E|E]; [|by injection Hbr as <- <-].
      rewrite (bind_ok st_get _ s s s) in Hbr by done.
      destruct s as [|b0 s]; [done|]. cbn [is_empty] in Hbr.
      rewrite (bind_ok buf_index0 _ _ b0 (b0 :: s)) in Hbr by done.
      destruct (Z.ltb_spec b0 0x80); [done|]. injection Hbr as <- <-. by cbn. }
    destruct Hh as (-> & -> & Hg). by header_inv.
  - apply bind_inv in Hbr as (p & s1 & Hl & [= <- <-]).
    apply decode_long_length_inv in Hl as (Hp & -> & Hk); [|done|lia]. by header_inv.
  - injection Hbr as <- <-. by header_inv.
  - apply bind_inv in Hbr as (p & s1 & Hl & [= <- <-]).
    apply decode_long_length_inv in Hl as (Hp & -> & Hk); [|done|lia]. by header_inv.
Qed.

(** ** Absence of panics *)

Lemma buf_advance_safe n s : n <= zlen s -> safe (fst (buf_advance n s)).
Proof. intros H. unfold buf_advance. by zdec. Qed.

Lemma buf_slice_to_safe n s : n <= zlen s -> safe (fst (buf_slice_to n s)).
Proof. intros H. unfold buf_slice_to. by zdec. Qed.

Lemma decode_long_length_safe k s : 0 <= k -> safe (fst (decode_long_length k s)).
Proof.
  intros Hk. unfold decode_long_length. step.
  destruct (Z.ltb_spec (zlen s) k); [done|].
  apply bind_safe; [by apply buf_slice_to_safe|]. intros d s1 H1.
  apply buf_slice_to_inv in H1 as (_ & -> & ->).
  destruct (static_left_pad _ _); [|done].
  apply bind_safe; [by apply buf_advance_safe|]. intros u s1 _. by destruct (_ <? 56).
Qed.

Lemma Header_decode_safe buf : safe (fst (Header_decode buf)).
Proof.
  destruct buf as [|b s]; [done|]. unfold Header_decode. do 2 step.
  apply bind_safe; [|intros h s1 _; step; by destruct (_ <? _)].
  destruct (Z.ltb_spec b 0x80); [done|].
  destruct (Z.ltb_spec b 0xB8); [|destruct (Z.ltb_spec b 0xC0); [|destruct (Z.ltb_spec b 0xF8)]];
    erewrite bind_ok by apply advance1.
  - cbn [payload_length]. destruct (_ =? 1); [|done]. step.
    destruct s as [|b0 s]; [done|]. cbn [is_empty]. step. by destruct (_ <? _).
  - apply bind_safe; [apply decode_long_length_safe; lia|done].
  - done.
  - apply bind_safe; [apply decode_long_length_safe; lia|done].
Qed.

(** ** Byte strings *)

Lemma needs_header_false s : needs_header s = false -> exists b, s = [b] /\ b < 0x80.
Proof.
  unfold needs_header, EMPTY_STRING_CODE. intros H. apply orb_false_iff in H as [H1 H2].
  destruct s as [|b [|c s]]; try done. exists b. split; [done|]. cbn in H2. lia.
Qed.

Lemma needs_header_true s : needs_header s = true -> header_guard (mkHeader false (zlen s)) s.
Proof.
  unfold needs_header, header_guard, EMPTY_STRING_CODE. cbn. intros H _ Hl.
  assert (length s = 1%nat) as E by lia. rewrite E in H. cbn in H. by apply Z.leb_le.
Qed.

Lemma slice_encode_append s out : slice_encode s out = out ++ slice_encode s [].
Proof.
  unfold slice_encode, put_slice. destruct (needs_header s); [|done].
  rewrite Header_encode_append. by rewrite app_assoc.
Qed.

Lemma wf_header_slice b s : is_slice s -> wf_header (mkHeader b (zlen s)).
Proof. intros [_ H]. unfold wf_header. cbn. lia. Qed.

Lemma slice_encode_wf s : is_slice s -> wf_bytes (slice_encode s []).
Proof.
  intros Hs. unfold slice_encode, put_slice. destruct (needs_header s); [|apply Hs].
  apply Forall_app; split; [|apply Hs]. by apply Header_encode_wf, wf_header_slice.
Qed.

Lemma slice_encode_nonempty s : slice_encode s [] <> [].
Proof.
  unfold slice_encode, put_slice. destruct (needs_header s) eqn:E.
  - intros H. apply app_eq_nil in H as [H _]. unfold Header_encode, put_u8, put_slice in H.
    by destruct (_ <? 56).
  - by apply needs_header_false in E as (b & -> & _).
Qed.

Lemma Header_length_bounds h : wf_header h -> 1 <= Header_length h <= 9.
Proof.
  intros Hh. unfold Header_length. rewrite Header_encode_eq by done.
  unfold wf_header in Hh. destruct (Z.ltb_spec (payload_length h) 56); [cbn; lia|].
  pose proof (length_code_range (payload_length h)). cbv zeta. cbn [length app]. lia.
Qed.

Lemma slice_length_ok s : is_slice s -> slice_length s = zlen (slice_encode s []).
Proof.
  intros Hs. pose proof (wf_header_slice false s Hs) as Hh. destruct Hs as [_ Hs].
  unfold slice_length, slice_encode, put_slice. destruct (needs_header s); [|done].
  pose proof (length_of_length_ok _ Hh) as L. cbn [payload_length] in L.
  pose proof (Header_length_bounds _ Hh) as B. rewrite L, length_app, Nat2Z.inj_add.
  fold (Header_length (mkHeader false (zlen s))). rewrite wadd_small by (unfold in_u; lia). lia.
Qed.

(** Reading back the header of a byte string leaves its payload. *)
Lemma string_header_decode s rest :
  is_slice s ->
  Header_decode (slice_encode s [] ++ rest) = (Ok (mkHeader false (zlen s)), s ++ rest).
Proof.
  intros Hs. unfold slice_encode, put_slice. destruct (needs_header s) eqn:E.
  - rewrite <- app_assoc. apply Header_decode_encode.
    + by apply wf_header_slice.
    + cbn. rewrite length_app. lia.
    + apply needs_header_true in E. unfold header_guard in *. cbn in *.
      intros H1 H2. specialize (E H1 H2). by destruct s.
  - apply needs_header_false in E as (b & -> & Hb). by apply Header_decode_single.
Qed.

Lemma string_header_inv buf h rest :
  is_slice buf -> Header_decode buf = (Ok h, rest) -> is_list h = false ->
  exists s rest', rest = s ++ rest' /\ payload_length h = zlen s /\ is_slice s /\
    buf = slice_encode s [] ++ rest'.
Proof.
  intros [Hwf Hmax] H Hlist. apply Header_decode_inv in H as [Hle H]; [|done].
  destruct H as [(-> & -> & Hb) | (Hh & Hg & ->)].
  - destruct buf as [|b s]; [cbn in Hle; lia|]. exists [b], s. cbn in Hb |- *.
    apply Forall_cons_1 in Hwf as [Hb' _]. split_and!; try done.
    + split; [by constructor|done].
    + unfold slice_encode, needs_header, EMPTY_STRING_CODE. cbn. by zdec.
  - unfold wf_header in Hh. exists (take (Z.to_nat (payload_length h)) rest),
      (drop (Z.to_nat (payload_length h)) rest).
    apply Forall_app in Hwf as [_ Hwf]. rewrite length_app in Hmax.
    assert (Hlen : zlen (take (Z.to_nat (payload_length h)) rest) = payload_length h)
      by (rewrite length_take; lia).
    rewrite take_drop. split_and!; [done|done| |].
    + split; [by apply Forall_take|lia].
    + unfold slice_encode, put_slice. rewrite Hlen.
      assert (Heq : mkHeader false (payload_length h) = h) by (destruct h; cbn in *; by subst).
      rewrite Heq. destruct (needs_header _) eqn:E.
      * by rewrite <- app_assoc, take_drop.
      * exfalso. apply needs_header_false in E as (b & E & Hb). rewrite E in Hlen. cbn in Hlen.
        specialize (Hg Hlist ltac:(lia)). rewrite <- Hlen in E. destruct rest; [done|].
        cbn in E, Hg. injection E as ->. lia.
Qed.

Lemma take_payload s rest : 
  (to ← buf_slice_to (zlen s); buf_advance (zlen s);; mret to : dec bytes) (s ++ rest) = (Ok s, rest).
Proof.
  erewrite bind_ok by apply buf_slice_to_app. by erewrite bind_ok by apply buf_advance_app.
Qed.

(** A string decoder: after the header, [k] reads the payload. *)
Lemma string_decoder_safe {A} (k : Header -> dec A) buf :
  is_slice buf ->
  (forall s rest, is_slice s -> safe (fst (k (mkHeader false (zlen s)) (s ++ rest)))) ->
  safe (fst ((h ← Header_decode; if is_list h then st_throw UnexpectedList else k h) buf)).
Proof.
  intros Hb Hk. apply bind_safe; [apply Header_decode_safe|]. intros [l p] s1 H. cbn [is_list].
  destruct l; [done|]. apply string_header_inv in H as (s & r & -> & Hp & Hs & _); [|done..].
  cbn in Hp. subst p. by apply Hk.
Qed.

Lemma string_decoder_inv {A} (k : Header -> dec A) buf x rest :
  is_slice buf ->
  (h ← Header_decode; if is_list h then st_throw UnexpectedList else k h) buf = (Ok x, rest) ->
  exists s r, is_slice s /\ buf = slice_encode s [] ++ r /\
    k (mkHeader false (zlen s)) (s ++ r) = (Ok x, rest).
Proof.
  intros Hb H. apply bind_inv in H as ([l p] & s1 & H1 & H). cbn [is_list] in H.
  destruct l; [done|]. apply string_header_inv in H1 as (s & r & -> & Hp & Hs & ->); [|done..].
  cbn in Hp. subst p. eauto.
Qed.

Lemma string_decoder_run {A} (k : Header -> dec A) s rest :
  is_slice s ->
  (h ← Header_decode; if is_list h then st_throw UnexpectedList else k h)
    (slice_encode s [] ++ rest) = k (mkHeader false (zlen s)) (s ++ rest).
Proof. intros Hs. by erewrite bind_ok by (by apply string_header_decode). Qed.

#[global] Instance bytes_codec_ok : CodecOk bytes_codec is_slice.
Proof.
  split; cbn.
  - apply slice_encode_append.
  - apply slice_encode_wf.
  - intros x _. apply slice_encode_nonempty.
  - apply slice_length_ok.
  - intros s rest Hs. unfold bytes_decode. rewrite string_decoder_run by done. apply take_payload.
  - intros buf x rest Hb H. apply string_decoder_inv in H as (s & r & Hs & -> & H); [|done].
    cbn [payload_length] in H. rewrite take_payload in H. by injection H as <- <-.
  - intros buf Hb. apply string_decoder_safe; [done|]. intros s rest Hs.
    cbn [payload_length]. by rewrite take_payload.
Qed.

Lemma wf_array_slice N l : Z.of_nat N < 2 ^ 63 -> wf_array N l -> is_slice l.
Proof. intros HN [Hw Hl]. split; [done|]. by rewrite Hl. Qed.

(** [[u8; N]]: the payload must have exactly [N] bytes. *)
Lemma array_codec_ok N : Z.of_nat N < 2 ^ 63 -> CodecOk (array_codec N) (wf_array N).
Proof.
  intros HN. pose proof (wf_array_slice N) as Hsl. split; cbn.
  - apply slice_encode_append.
  - intros x Hx. apply slice_encode_wf; auto.
  - intros x _. apply slice_encode_nonempty.
  - intros x Hx. apply slice_length_ok; auto.
  - intros s rest Hs. unfold array_decode. rewrite string_decoder_run by auto. cbn [payload_length].
    destruct Hs as [_ <-]. rewrite Z.eqb_refl. apply take_payload.
  - intros buf x rest Hb H. apply string_decoder_inv in H as (s & r & Hs & -> & H); [|done].
    cbn [payload_length] in H. destruct (Z.eqb_spec (zlen s) (Z.of_nat N)) as [E|]; [|done].
    cbn [negb] in H. rewrite <- E, take_payload in H. injection H as <- <-.
    split; [|done]. split; [apply Hs|lia].
  - intros buf Hb. apply string_decoder_safe; [done|]. intros s rest Hs. cbn [payload_length].
    destruct (Z.eqb_spec (zlen s) (Z.of_nat N)) as [<-|]; [|done]. cbn [negb]. by rewrite take_payload.
Qed.

Lemma wf_ip_slice a : wf_ip a -> is_slice (ip_octets a).
Proof. intros [Hw Hl]. split; [done|]. rewrite Hl. by destruct a. Qed.

#[global] Instance ip_codec_ok : CodecOk ip_codec wf_ip.
Proof.
  pose proof wf_ip_slice as Hsl. split; cbn; unfold ip_encode.
  - intros x out. apply slice_encode_append.
  - intros x Hx. apply slice_encode_wf; auto.
  - intros x _. apply slice_encode_nonempty.
  - done.
  - intros a rest Ha. unfold ip_decode. rewrite string_decoder_run by auto. cbn [payload_length].
    assert (Hread : forall (f : bytes -> IpAddr) o n, zlen o = n ->
      (o' ← (to ← buf_slice_to n; mret (f to) : dec IpAddr); buf_advance n;; mret o' : dec IpAddr)
        (o ++ rest) = (Ok (f o), rest)).
    { intros f o n <-. erewrite bind_ok; [|by erewrite bind_ok by apply buf_slice_to_app].
      by erewrite bind_ok by apply buf_advance_app. }
    destruct a as [o|o], Ha as [_ Hl]; cbn [ip_octets] in *.
    + replace (zlen o) with 4 by (rewrite Hl; done). apply (Hread V4). by rewrite Hl.
    + replace (zlen o) with 16 by (rewrite Hl; done). apply (Hread V6). by rewrite Hl.
  - intros buf x rest Hb H. apply string_decoder_inv in H as (s & r & Hs & -> & H); [|done].
    cbn [payload_length] in H. apply bind_inv in H as (o & s1 & H1 & H).
    assert (Ho : wf_ip o /\ ip_octets o = s /\ s1 = s ++ r).
    { destruct (Z.eqb_spec (zlen s) 4) as [E|E]; [|destruct (Z.eqb_spec (zlen s) 16) as [E'|E']; [|done]];
      [rewrite <- E in H1 at 1 | rewrite <- E' in H1 at 1];
      erewrite bind_ok in H1 by apply buf_slice_to_app; injection H1 as <- <-;
      cbn; (split; [split; [apply Hs|cbn; lia]|done]). }
    destruct Ho as (Ho & <- & ->). rewrite (bind_ok _ _ _ _ _ (buf_advance_app _ _)) in H.
    by injection H as <- <-.
  - intros buf Hb. apply string_decoder_safe; [done|]. intros s rest Hs. cbn [payload_length].
    assert (Hle : zlen s <= zlen (s ++ rest)) by (rewrite length_app; lia).
    apply bind_safe.
    + destruct (Z.eqb_spec (zlen s) 4); [|destruct (Z.eqb_spec (zlen s) 16); [|done]];
        (apply bind_safe; [apply buf_slice_to_safe; lia|done]).
    + intros o s1 H1. apply bind_safe; [|done]. apply buf_advance_safe.
      destruct (_ =? 4); [|destruct (_ =? 16); [|done]];
        apply bind_inv in H1 as (d & s2 & H1 & [= <- <-]);
        apply buf_slice_to_inv in H1 as (_ & _ & ->); done.
Qed.

(** ** Unsigned integers *)

(** The payload of an integer: its significant bytes. *)
Definition uint_payload (n : nat) (v : Z) : bytes := zeroless_view (be_bytes n v).

Lemma uint_payload_value n v : wf_uint n v -> be_value (uint_payload n v) = v.
Proof.
  intros Hv. unfold uint_payload. rewrite be_value_zeroless, be_value_be_bytes.
  by apply Z.mod_small.
Qed.

Lemma uint_payload_length n v : (length (uint_payload n v) <= n)%nat.
Proof. unfold uint_payload. rewrite length_zeroless, length_be_bytes. done. Qed.

Lemma uint_payload_wf n v : wf_bytes (uint_payload n v).
Proof. apply zeroless_wf, be_bytes_wf. Qed.

Lemma uint_payload_slice n v : Z.of_nat n < 2 ^ 63 -> is_slice (uint_payload n v).
Proof.
  intros Hn. split; [apply uint_payload_wf|]. pose proof (uint_payload_length n v). lia.
Qed.

Lemma uint_payload_small n v : (0 < n)%nat -> 0 < v < 256 -> uint_payload n v = [v].
Proof.
  intros Hn Hv. unfold uint_payload. change v with (be_value [v]) at 1.
  apply zeroless_be_bytes; [by repeat constructor; lia| |cbn; lia].
  cbn. by zdec.
Qed.

Lemma uint_payload_0 n : uint_payload n 0 = [].
Proof. apply (zeroless_be_bytes n []); [constructor|done|cbn; lia]. Qed.

Lemma fixed_uint_encode_eq n v out :
  wf_uint n v -> fixed_uint_encode n v out = slice_encode (uint_payload n v) out.
Proof. intros Hv. unfold fixed_uint_encode. cbv zeta. by rewrite drop_leading_zeros. Qed.

(** The specialised encoder of the built-in integers writes what the byte-string
    encoder writes for the significant bytes. *)
Lemma uint_encode_eq n v out :
  (0 < n <= 55)%nat -> wf_uint n v ->
  uint_encode n v out = slice_encode (uint_payload n v) out.
Proof.
  intros Hn Hv. unfold uint_encode, wf_uint in *. fold (uint_payload n v).
  destruct (Z.eqb_spec v 0) as [->|Hv0].
  { rewrite uint_payload_0. by rewrite slice_encode_append. }
  unfold EMPTY_STRING_CODE. destruct (Z.ltb_spec v 0x80) as [Hs|Hs].
  { rewrite uint_payload_small by lia. unfold slice_encode, needs_header, EMPTY_STRING_CODE.
    cbn. by zdec. }
  assert (Hp : is_slice (uint_payload n v)) by (apply uint_payload_slice; lia).
  pose proof (uint_payload_length n v) as Hl.
  unfold slice_encode. destruct (needs_header _) eqn:E.
  - rewrite Header_encode_eq by (by apply wf_header_slice). cbn [payload_length is_list].
    zdec. cbv zeta. unfold put_u8, put_slice.
    rewrite (wrap_small 8) by (unfold in_u; lia). by rewrite wadd_small by (unfold in_u; lia).
  - apply needs_header_false in E as (b & E & Hb).
    pose proof (uint_payload_value n v Hv) as Hval. rewrite E in Hval. cbn in Hval. lia.
Qed.

Lemma uint_length_ok n v :
  (0 < n <= 55)%nat -> wf_uint n v ->
  uint_length n v = zlen (slice_encode (uint_payload n v) []).
Proof.
  intros Hn Hv. unfold uint_length, EMPTY_STRING_CODE.
  destruct (Z.ltb_spec v 0x80) as [Hs|Hs].
  - destruct (Z.eq_dec v 0) as [->|]; [by rewrite uint_payload_0|].
    unfold wf_uint in Hv. rewrite uint_payload_small by lia.
    unfold slice_encode, needs_header, EMPTY_STRING_CODE. cbn. by zdec.
  - rewrite leading_zeros_byte_width by done. unfold byte_width. fold (uint_payload n v).
    pose proof (uint_payload_length n v) as Hl.
    unfold slice_encode, put_slice. destruct (needs_header _) eqn:E.
    + rewrite Header_encode_eq by (apply wf_header_slice, uint_payload_slice; lia).
      cbn [payload_length is_list]. zdec. cbn [app length]. lia.
    + apply needs_header_false in E as (b & E & Hb).
      pose proof (uint_payload_value n v Hv) as Hval. rewrite E in Hval. cbn in Hval. lia.
Qed.

(** [uint_decode] after its header. *)
Definition uint_decode_payload (n : nat) (h : Header) : dec Z :=
  if Z.of_nat n <? payload_length h then st_throw Overflow else
  s ← st_get;
  if zlen s <? payload_length h then st_throw InputTooShort else
  if payload_length h =? 0 then mret 0 else
  data ← buf_slice_to (payload_length h);
  match static_left_pad n data with
  | None => st_throw LeadingZero
  | Some v => buf_advance (payload_length h);; mret (be_value v)
  end.

Lemma uint_decode_payload_eq n s rest :
  uint_decode_payload n (mkHeader false (zlen s)) (s ++ rest) =
  if Z.of_nat n <? zlen s then (Err Overflow, s ++ rest)
  else if decide (zeroless_view s = s) then (Ok (be_value s), rest)
  else (Err LeadingZero, s ++ rest).
Proof.
  unfold uint_decode_payload. cbn [payload_length].
  destruct (Z.ltb_spec (Z.of_nat n) (zlen s)) as [|Hn]; [done|]. step.
  destruct (Z.ltb_spec (zlen (s ++ rest)) (zlen s)); [rewrite length_app in *; lia|].
  destruct (Z.eqb_spec (zlen s) 0) as [Hz|Hz].
  { destruct s; [|done]. cbn. by rewrite decide_True. }
  erewrite bind_ok by apply buf_slice_to_app.
  destruct (static_left_pad n s) as [v|] eqn:Hv.
  - erewrite bind_ok by apply buf_advance_app. rewrite (left_pad_value _ _ _ Hv).
    apply left_pad_inv in Hv as [Hv _]. by rewrite decide_True.
  - rewrite decide_False; [done|]. intros E. destruct (left_pad_some n s E) as [v Hv']; [lia|congruence].
Qed.

Section UintCodec.
Context (n : nat) (Hn : (0 < n <= 55)%nat).

Lemma uint_decode_encode v rest :
  wf_uint n v -> uint_decode n (slice_encode (uint_payload n v) [] ++ rest) = (Ok v, rest).
Proof.
  intros Hv. unfold uint_decode. rewrite string_decoder_run by (apply uint_payload_slice; lia).
  fold (uint_decode_payload n (mkHeader false (zlen (uint_payload n v)))).
  rewrite uint_decode_payload_eq. pose proof (uint_payload_length n v). zdec.
  rewrite decide_True by apply zeroless_idemp. by rewrite uint_payload_value.
Qed.

Lemma uint_decode_inv buf v rest :
  is_slice buf -> uint_decode n buf = (Ok v, rest) ->
  wf_uint n v /\ buf = slice_encode (uint_payload n v) [] ++ rest.
Proof.
  intros Hb H. apply string_decoder_inv in H as (s & r & Hs & -> & H); [|done].
  fold (uint_decode_payload n (mkHeader false (zlen s))) in H. rewrite uint_decode_payload_eq in H.
  destruct (Z.ltb_spec (Z.of_nat n) (zlen s)); [done|].
  destruct (decide (zeroless_view s = s)) as [Hz|]; [|done]. injection H as <- <-.
  destruct Hs as [Hwf _]. unfold uint_payload. rewrite zeroless_be_bytes by (done || lia).
  split; [|done]. unfold wf_uint. pose proof (be_value_range s Hwf) as Hr. split; [lia|].
  eapply Z.lt_le_trans; [apply Hr|]. apply Z.pow_le_mono_r; lia.
Qed.

Lemma uint_decode_safe buf : is_slice buf -> safe (fst (uint_decode n buf)).
Proof.
  intros Hb. apply string_decoder_safe; [done|]. intros s rest Hs.
  fold (uint_decode_payload n (mkHeader false (zlen s))). rewrite uint_decode_payload_eq.
  destruct (_ <? _); [done|]. by case_decide.
Qed.

#[local] Instance uint_codec_ok : CodecOk (uint_codec n) (wf_uint n).
Proof.
  split; cbn.
  - intros x out. unfold uint_encode, put_u8, put_slice. destruct (_ =? 0); [done|].
    destruct (_ <? _); [done|]. cbn. by rewrite <- app_assoc.
  - intros x Hx. rewrite uint_encode_eq by done. apply slice_encode_wf, uint_payload_slice. lia.
  - intros x Hx. rewrite uint_encode_eq by done. apply slice_encode_nonempty.
  - intros x Hx. rewrite uint_encode_eq by done. by apply uint_length_ok.
  - intros x rest Hx. rewrite uint_encode_eq by done. by apply uint_decode_encode.
  - intros buf x rest Hb H. apply uint_decode_inv in H as [Hx ->]; [|done].
    by rewrite uint_encode_eq.
  - apply uint_decode_safe.
Qed.

#[local] Instance fixed_uint_codec_ok : CodecOk (fixed_uint_codec n) (wf_uint n).
Proof.
  split; cbn.
  - intros x out. apply slice_encode_append.
  - intros x Hx. rewrite fixed_uint_encode_eq by done. apply slice_encode_wf, uint_payload_slice. lia.
  - intros x Hx. rewrite fixed_uint_encode_eq by done. apply slice_encode_nonempty.
  - intros x Hx. rewrite fixed_uint_encode_eq by done. by apply uint_length_ok.
  - intros x rest Hx. rewrite fixed_uint_encode_eq by done. by apply uint_decode_encode.
  - intros buf x rest Hb H. apply uint_decode_inv in H as [Hx ->]; [|done].
    by rewrite fixed_uint_encode_eq.
  - apply uint_decode_safe.
Qed.
End UintCodec.

#[global] Instance bool_codec_ok : CodecOk bool_codec (fun _ => True).
Proof.
  pose proof (uint_codec_ok 1 ltac:(lia)) as U.
  assert (Hw : forall b, wf_uint 1 (bool_as_u8 b)) by (intros []; unfold wf_uint; cbn; lia).
  split; cbn; unfold bool_encode, bool_length.
  - intros x out. by apply (encode_append (CodecOk := U)).
  - intros x _. by apply (encode_wf (CodecOk := U)).
  - intros x _. by apply (encode_nonempty (CodecOk := U)).
  - intros x _. by apply (encode_length (CodecOk := U)).
  - intros x rest _. unfold bool_decode. erewrite bind_ok by (by apply (decode_encode (CodecOk := U))).
    by destruct x.
  - intros buf x rest Hb H. apply bind_inv in H as (v & s & H1 & H).
    apply (decode_canonical (CodecOk := U)) in H1 as [_ ->]; [|done]. split; [done|].
    destruct (Z.eqb_spec v 0) as [->|]; [by injection H as <- <-|].
    destruct (Z.eqb_spec v 1) as [->|]; [by injection H as <- <-|done].
  - intros buf Hb. apply bind_safe; [by apply (decode_safe (CodecOk := U))|].
    intros v s _. destruct (_ =? 0); [done|]. by destruct (_ =? 1).
Qed.

(** ** Lists, over any lawful item codec *)

Lemma is_slice_app a b : is_slice (a ++ b) -> is_slice a /\ is_slice b.
Proof.
  intros [Hw Hl]. apply Forall_app in Hw as [??]. rewrite length_app in Hl.
  split; split; done || lia.
Qed.

Lemma list_header_inv buf h rest :
  is_slice buf -> Header_decode buf = (Ok h, rest) -> is_list h = true ->
  wf_header h /\ exists view rest', rest = view ++ rest' /\ payload_length h = zlen view /\
    is_slice view /\ buf = Header_encode h [] ++ view ++ rest'.
Proof.
  intros [Hwf Hmax] H Hl. apply Header_decode_inv in H as [Hle H]; [|done].
  destruct H as [(-> & _)|(Hh & _ & ->)]; [done|]. split; [done|].
  exists (take (Z.to_nat (payload_length h)) rest), (drop (Z.to_nat (payload_length h)) rest).
  unfold wf_header in Hh. rewrite take_drop, length_take. rewrite length_app in Hmax.
  apply Forall_app in Hwf as [_ Hwf]. split_and!; [done|lia| |done].
  split; [by apply Forall_take|rewrite length_take; lia].
Qed.

Section VecRt.
Context {A : Type} (c : Codec A) (wf : A -> Prop) {Hc : CodecRt c wf}.

Lemma items_encode_cons x v : items_encode c (x :: v) = encode c x [] ++ items_encode c v.
Proof. done. Qed.

Lemma foldl_encode v out : foldl (fun out x => encode c x out) out v = out ++ items_encode c v.
Proof.
  revert out; induction v as [|x v IH]; intros out; cbn [foldl].
  - unfold items_encode. cbn. by rewrite app_nil_r.
  - rewrite IH, rt_append, items_encode_cons. by rewrite app_assoc.
Qed.

Lemma rlp_list_header_fold h v :
  Forall wf v -> 0 <= payload_length h -> payload_length h + zlen (items_encode c v) < 2 ^ 64 ->
  foldl (fun h x => mkHeader (is_list h) (wadd 64 (payload_length h) (encoded_length c x))) h v
  = mkHeader (is_list h) (payload_length h + zlen (items_encode c v)).
Proof.
  revert h; induction v as [|x v IH]; intros [l p] Hv Hp Hb; cbn [foldl is_list payload_length].
  - cbn in *. f_equal. lia.
  - apply Forall_cons_1 in Hv as [Hx Hv]. rewrite items_encode_cons, length_app in *.
    cbn [payload_length] in *. rewrite rt_length by done.
    rewrite wadd_small by (unfold in_u; lia).
    rewrite IH; [|done|cbn; lia|cbn [payload_length]; lia]. cbn. f_equal. lia.
Qed.

Lemma rlp_list_header_eq v :
  wf_vec c wf v -> rlp_list_header c v = mkHeader true (zlen (items_encode c v)).
Proof.
  intros [Hv Hb]. unfold rlp_list_header. rewrite rlp_list_header_fold by (cbn; done || lia).
  done.
Qed.

Lemma wf_vec_header v : wf_vec c wf v -> wf_header (mkHeader true (zlen (items_encode c v))).
Proof. intros [_ Hb]. unfold wf_header. cbn. lia. Qed.

Lemma encode_list_eq v :
  wf_vec c wf v ->
  encode_list c v [] = Header_encode (mkHeader true (zlen (items_encode c v))) [] ++ items_encode c v.
Proof. intros Hv. unfold encode_list. cbv zeta. by rewrite foldl_encode, rlp_list_header_eq. Qed.

Lemma items_encode_wf v : Forall wf v -> wf_bytes (items_encode c v).
Proof.
  induction 1 as [|x v Hx Hv IH]; [constructor|]. rewrite items_encode_cons.
  apply Forall_app; split; [by apply rt_wf|done].
Qed.

Lemma encode_pos x : wf x -> (0 < length (encode c x []))%nat.
Proof. intros Hx. pose proof (rt_nonempty x Hx). destruct (encode c x []); [done|cbn; lia]. Qed.

(** Enough fuel: one unit per byte of the payload. *)
Lemma decode_items_encode v fuel :
  Forall wf v -> (length (items_encode c v) <= fuel)%nat ->
  decode_items (decode c) fuel (items_encode c v) = Ok v.
Proof.
  intros Hv. revert fuel; induction Hv as [|x v Hx Hv IH]; intros fuel Hf.
  { by destruct fuel. }
  rewrite items_encode_cons, length_app in *. pose proof (encode_pos x Hx) as Hpos.
  destruct fuel as [|fuel]; [lia|].
  pose proof (rt_decode x (items_encode c v) Hx) as Hd.
  destruct (encode c x [] ++ items_encode c v) as [|b l] eqn:E.
  { destruct (encode c x []); [cbn in Hpos; lia|done]. }
  cbn [decode_items]. rewrite Hd, IH by lia. done.
Qed.

#[global] Instance vec_codec_rt : CodecRt (vec_codec c) (wf_vec c wf).
Proof.
  split; cbn.
  - intros v out. unfold encode_list. cbv zeta. rewrite !foldl_encode.
    rewrite Header_encode_append. by rewrite app_assoc.
  - intros v Hv. rewrite encode_list_eq by done.
    apply Forall_app; split; [by apply Header_encode_wf, wf_vec_header|apply items_encode_wf, Hv].
  - intros v Hv H. rewrite encode_list_eq in H by done. apply app_eq_nil in H as [H _].
    unfold Header_encode, put_u8, put_slice in H. by destruct (_ <? 56).
  - intros v Hv. unfold list_length. cbv zeta. rewrite encode_list_eq, rlp_list_header_eq by done.
    pose proof (wf_vec_header v Hv) as Hh. pose proof (length_of_length_ok _ Hh) as L.
    pose proof (Header_length_bounds _ Hh). cbn [payload_length] in *. destruct Hv as [_ Hb].
    rewrite L, length_app, Nat2Z.inj_add, wadd_small; [done|unfold in_u; lia].
  - intros v rest Hv. rewrite encode_list_eq by done. rewrite <- app_assoc. unfold vec_decode.
    erewrite bind_ok by (apply Header_decode_encode;
      [by apply wf_vec_header|cbn [payload_length]; rewrite length_app; lia|by unfold header_guard]).
    cbn [is_list negb payload_length]. erewrite bind_ok by apply buf_slice_to_app.
    erewrite bind_ok by (unfold st_lift; by rewrite decode_items_encode by (done || apply Hv)).
    by erewrite bind_ok by apply buf_advance_app.
Qed.
End VecRt.

Section VecDec.
Context {A : Type} (d : dec A) {Hdk : DecodeOk d}.

Lemma decode_items_safe fuel view :
  is_slice view -> (length view <= fuel)%nat -> safe (decode_items d fuel view).
Proof.
  revert view; induction fuel as [|fuel IH]; intros view Hs Hf;
    (destruct view as [|b view]; [done|]); [cbn in Hf; lia|].
  cbn [decode_items]. pose proof (dk_safe (b :: view) Hs) as Hd.
  destruct (d (b :: view)) as [[x|e| |] view'] eqn:E; try done.
  apply dk_consumes in E as (pre & Hpre & Hview); [|done]. rewrite Hview in Hs, Hf.
  apply is_slice_app in Hs as [_ Hs]. rewrite length_app in Hf. assert (0 < length pre)%nat by (destruct pre; [done|cbn; lia]).
  specialize (IH view' Hs ltac:(lia)). by destruct (decode_items _ _ view').
Qed.

#[global] Instance vec_decode_ok : DecodeOk (vec_decode d).
Proof.
  split.
  - intros buf Hb. apply bind_safe; [apply Header_decode_safe|]. intros h s1 H1.
    destruct (is_list h) eqn:Hl; [|done]. cbn [negb].
    apply list_header_inv in H1 as (Hh & view & r & -> & Hp & Hs & ->); [|done..].
    rewrite Hp. erewrite bind_ok by apply buf_slice_to_app. apply bind_safe.
    + by apply decode_items_safe.
    + intros to s2 [= _ <-]. by erewrite bind_ok by apply buf_advance_app.
  - intros buf v rest Hb H. apply bind_inv in H as (h & s1 & H1 & H).
    destruct (is_list h) eqn:Hl; [|done]. cbn [negb] in H.
    apply list_header_inv in H1 as (Hh & view & r & -> & Hp & Hs & ->); [|done..].
    rewrite Hp, (bind_ok _ _ _ _ _ (buf_slice_to_app view r)) in H.
    apply bind_inv in H as (to & s2 & H2 & H). injection H2 as _ <-.
    rewrite (bind_ok _ _ _ _ _ (buf_advance_app view r)) in H. injection H as _ ->.
    exists (Header_encode h [] ++ view). split; [|by rewrite app_assoc].
    intros E. apply app_eq_nil in E as [E _]. by apply Header_encode_nonempty in E.
Qed.
End VecDec.

Section VecCodec.
Context {A : Type} (c : Codec A) (wf : A -> Prop) {Hc : CodecOk c wf}.

Lemma decode_items_inv fuel view v :
  is_slice view -> decode_items (decode c) fuel view = Ok v ->
  Forall wf v /\ view = items_encode c v.
Proof.
  revert view v; induction fuel as [|fuel IH]; intros view v Hs H;
    (destruct view as [|b view]; [injection H as <-; by split|]); [done|].
  cbn [decode_items] in H. destruct (decode c (b :: view)) as [[x|e| |] view'] eqn:E; try done.
  apply decode_canonical in E as [Hx Hview]; [|done]. rewrite Hview in Hs.
  apply is_slice_app in Hs as [_ Hs].
  destruct (decode_items (decode c) fuel view') as [xs|e| |] eqn:E'; try done.
  injection H as <-. apply IH in E' as [Hxs ->]; [|done].
  split; [by constructor|by rewrite items_encode_cons].
Qed.

#[global] Instance vec_codec_ok : CodecOk (vec_codec c) (wf_vec c wf).
Proof.
  pose proof (vec_codec_rt c wf) as Hrt. split; [apply Hrt..| |].
  - intros buf v rest Hb H. apply bind_inv in H as (h & s1 & H1 & H).
    destruct (is_list h) eqn:Hl; [|done]. cbn [negb] in H.
    apply list_header_inv in H1 as (Hh & view & r & -> & Hp & Hs & ->); [|done..].
    rewrite Hp, (bind_ok _ _ _ _ _ (buf_slice_to_app view r)) in H.
    apply bind_inv in H as (to & s2 & H2 & H). injection H2 as H2 <-.
    rewrite (bind_ok _ _ _ _ _ (buf_advance_app view r)) in H. injection H as -> ->.
    apply decode_items_inv in H2 as [Hv ->]; [|done].
    assert (Hwf : wf_vec c wf v) by (split; [done|apply Hs]). split; [done|].
    cbn [encode vec_codec]. rewrite (encode_list_eq c wf), <- app_assoc by done. destruct h as [l p]. cbn in Hl, Hp. by subst.
  - apply dk_safe.
Qed.
End VecCodec.

(** ** The types of the crate, closed under [Vec]

    A code for every type with [Encodable] and [Decodable] implementations
    modelled here; the theorems below hold for all of them, nested lists
    included. *)
Inductive rlp_type :=
| TUint (n : nat)
| TFixedUint (n : nat)
| TBool
| TBytes
| TArray (N : nat)
| TIp
| TVec (t : rlp_type).

Fixpoint denote (t : rlp_type) : Type :=
  match t with
  | TUint _ | TFixedUint _ => Z
  | TBool => bool
  | TBytes | TArray _ => bytes
  | TIp => IpAddr
  | TVec t => list (denote t)
  end.

Fixpoint codec (t : rlp_type) : Codec (denote t) :=
  match t with
  | TUint n => uint_codec n
  | TFixedUint n => fixed_uint_codec n
  | TBool => bool_codec
  | TBytes => bytes_codec
  | TArray N => array_codec N
  | TIp => ip_codec
  | TVec t => vec_codec (codec t)
  end.

(** The values a Rust variable of the type can hold. *)
Fixpoint wf_val (t : rlp_type) : denote t -> Prop :=
  match t with
  | TUint n | TFixedUint n => wf_uint n
  | TBool => fun _ => True
  | TBytes => is_slice
  | TArray N => wf_array N
  | TIp => wf_ip
  | TVec t => wf_vec (codec t) (wf_val t)
  end.

(** Integers of up to 55 bytes (all but [U512]) and arrays that can exist. *)
Fixpoint valid_type (t : rlp_type) : bool :=
  match t with
  | TUint n | TFixedUint n => (0 <? n)%nat && (n <=? 55)%nat
  | TBool | TBytes | TIp => true
  | TArray N => Z.of_nat N <? 2 ^ 63
  | TVec t => valid_type t
  end.

Lemma codec_ok t : valid_type t = true -> CodecOk (codec t) (wf_val t).
Proof.
  induction t as [n|n| | |N| |t IH]; cbn [valid_type codec wf_val denote]; intros H.
  - apply andb_true_iff in H as [H1 H2]. apply uint_codec_ok.
    apply Nat.ltb_lt in H1. apply Nat.leb_le in H2. lia.
  - apply andb_true_iff in H as [H1 H2]. apply fixed_uint_codec_ok.
    apply Nat.ltb_lt in H1. apply Nat.leb_le in H2. lia.
  - apply _.
  - apply _.
  - apply array_codec_ok. lia.
  - apply _.
  - by apply vec_codec_ok, IH.
Qed.

(** C1. Decoding the encoding of a value, followed by any bytes, returns the
    value and leaves exactly those bytes, for every type of the crate: built-in
    and big integers, booleans, byte strings, fixed arrays, IP addresses and
    lists nested to any depth. *)
Theorem rlp_roundtrip (t : rlp_type) (x : denote t) (rest : bytes) :
  valid_type t = true -> wf_val t x ->
  decode (codec t) (encode (codec t) x [] ++ rest) = (Ok x, rest).
Proof. intros Ht Hx. pose proof (codec_ok t Ht). by apply decode_encode. Qed.

Lemma rlp_roundtrip_witness :
  let x := [[1; 200]; []; [70000]] in
  decode (codec (TVec (TVec (TUint 8)))) (encode (codec (TVec (TVec (TUint 8)))) x [] ++ [7; 9])
  = (Ok x, [7; 9]).
Proof.
  apply (rlp_roundtrip (TVec (TVec (TUint 8)))); [reflexivity|].
  cbn. repeat (split || constructor); vm_compute; done.
Defined.

(** C2. RLP is canonical: a slice decodes to a value only if it starts with the
    encoding of that value, so no value has a second accepted encoding. *)
Theorem rlp_canonical (t : rlp_type) (buf rest : bytes) (x : denote t) :
  valid_type t = true -> is_slice buf ->
  decode (codec t) buf = (Ok x, rest) ->
  wf_val t x /\ buf = encode (codec t) x [] ++ rest.
Proof. intros Ht Hb Hd. pose proof (codec_ok t Ht). by apply decode_canonical. Qed.

Lemma rlp_canonical_witness :
  wf_val (TVec (TUint 8)) [1; 200] /\
  [0xC3; 1; 0x81; 200; 5] = encode (codec (TVec (TUint 8))) [1; 200] [] ++ [5].
Proof.
  apply (rlp_canonical (TVec (TUint 8))); [reflexivity| |reflexivity].
  split; [|reflexivity]. repeat constructor; vm_compute; done.
Defined.

(** No decoder panics or loops, whatever the input bytes: every slice
    index, [advance] and list loop is guarded by the checks made before it. *)
Theorem rlp_decode_total (t : rlp_type) (buf : bytes) :
  valid_type t = true -> is_slice buf -> safe (fst (decode (codec t) buf)).
Proof. intros Ht Hb. pose proof (codec_ok t Ht). by apply decode_safe. Qed.

Lemma rlp_decode_total_witness :
  safe (fst (decode (codec (TVec TBytes)) [0xC4; 0xB8; 0x40; 1; 2])).
Proof.
  apply (rlp_decode_total (TVec TBytes)); [reflexivity|].
  split; [|reflexivity]. repeat constructor; vm_compute; done.
Defined.

(** [Encodable::length] predicts the number of bytes [encode] writes, which
    is what list headers are computed from. *)
Theorem rlp_length_exact (t : rlp_type) (x : denote t) :
  valid_type t = true -> wf_val t x ->
  encoded_length (codec t) x = zlen (encode (codec t) x []).
Proof. intros Ht Hx. pose proof (codec_ok t Ht). by apply encode_length. Qed.

Lemma rlp_length_exact_witness :
  encoded_length (codec (TVec TBytes)) [replicate 56 1; [5]]
  = zlen (encode (codec (TVec TBytes)) [replicate 56 1; [5]] []).
Proof.
  apply (rlp_length_exact (TVec TBytes)); [reflexivity|].
  split; [|reflexivity]. constructor; [|constructor; [|constructor]];
    (split; [|reflexivity]); repeat constructor; vm_compute; done.
Defined.

(** RLP is prefix free: a truncated encoding is never accepted, whatever
    value it is read as. *)
Theorem rlp_truncated_rejected (t : rlp_type) (x : denote t) (buf cut : bytes) :
  valid_type t = true -> wf_val t x ->
  encode (codec t) x [] = buf ++ cut -> cut <> [] -> zlen buf < 2 ^ 63 ->
  is_ok (fst (decode (codec t) buf)) = false.
Proof.
  intros Ht Hx Hcut Hne Hb. pose proof (codec_ok t Ht) as Hc.
  destruct (decode (codec t) buf) as [[y|e| |] r] eqn:Hd; try done. exfalso.
  pose proof (encode_wf x Hx) as Hw. rewrite Hcut in Hw. apply Forall_app in Hw as [Hw _].
  apply decode_canonical in Hd as [Hy ->]; [|by split].
  pose proof (decode_encode x [] Hx) as D1. rewrite app_nil_r, Hcut, <- app_assoc in D1.
  rewrite decode_encode in D1 by done. injection D1 as _ D1.
  by apply app_eq_nil in D1 as [_ ?].
Qed.

Lemma rlp_truncated_rejected_witness :
  is_ok (fst (decode (codec (TVec (TUint 8))) [0xC3; 1; 0x81])) = false.
Proof.
  apply (rlp_truncated_rejected (TVec (TUint 8)) [1; 200] _ [200]); try reflexivity; [|done].
  split; [|reflexivity]. repeat constructor; vm_compute; done.
Defined.

(** [encode_fixed_size] of an integer fits in the array of its
    [MaxEncodedLen] and returns the encoding. *)
Theorem encode_fixed_size_uint (n : nat) (v : Z) :
  (0 < n <= 55)%nat -> wf_uint n v ->
  encode_fixed_size (uint_codec n) (Z.to_nat (length_of_length (Z.of_nat n) + Z.of_nat n)) v
  = Ok (uint_encode n v []).
Proof.
  intros Hn Hv. unfold encode_fixed_size. cbn [encode uint_codec].
  assert (Hl : (length (uint_encode n v []) <= S n)%nat).
  { rewrite uint_encode_eq by done. unfold slice_encode, put_slice.
    pose proof (uint_payload_length n v). destruct (needs_header _); [|cbn; lia].
    rewrite Header_encode_eq by (apply wf_header_slice, uint_payload_slice; lia).
    cbn [payload_length is_list]. zdec. cbn [app length]. lia. }
  replace (Z.to_nat _) with (S n) by (unfold length_of_length; zdec; lia).
  rewrite (proj2 (Nat.leb_le _ _)) by done. do 2 f_equal.
  rewrite length_replicate. apply take_app_length'. lia.
Qed.

Lemma encode_fixed_size_uint_witness :
  encode_fixed_size (uint_codec 8) 9 (2 ^ 64 - 1) = Ok (uint_encode 8 (2 ^ 64 - 1) []).
Proof. apply (encode_fixed_size_uint 8); [lia|unfold wf_uint; vm_compute; done]. Defined.

(** The 64-byte integer [U512] breaks the promise of [length]: at 2^440
    its encoding has a long header, and [length] is one byte short.  A list
    header built from it announces a payload shorter than what follows. *)
Theorem u512_length_short :
  uint_length 64 (2 ^ 440) = 57 /\ zlen (fixed_uint_encode 64 (2 ^ 440) []) = 58.
Proof. split; vm_compute; reflexivity. Qed.
