(* ===== verification/RlpDerive.v ===== *)
(** * Derived RLP codecs (crates/rlp/rlp-derive/src)

    What the macros [RlpEncodable], [RlpDecodable] and their [Wrapper] versions
    generate for a struct: its required fields are a codec built with
    [fields_codec], its trailing [Option] fields (attribute [rlp(trailing)]) are
    a [Tail], and [derive_codec] is the generated [Encodable]/[Decodable] pair.
    The laws of the fields' codecs give the laws of the struct's. *)
From S2P Require Import Prelude Bytes Rlp.

(** ** Building blocks *)

(** A wrapper struct, or a type read and written through another one. *)
Definition map_codec {A B} (c : Codec A) (f : A -> B) (g : B -> A) : Codec B :=
  mkCodec (fun b out => encode c (g b) out) (fun b => encoded_length c (g b))
          (a ← decode c; mret (f a)).

(** Two fields one after the other. *)
Definition fields_codec {A B} (c : Codec A) (d : Codec B) : Codec (A * B) :=
  mkCodec (fun x out => encode d (snd x) (encode c (fst x) out))
          (fun x => wadd 64 (encoded_length c (fst x)) (encoded_length d (snd x)))
          (a ← decode c; b ← decode d; mret (a, b)).

(** A fixed hash ([H64], [H160], [H256], [H512], [Bloom]): an array of [n] bytes
    read as a big-endian number. *)
Definition hash_codec (n : nat) : Codec Z := map_codec (array_codec n) be_value (be_bytes n).

(** The trailing optional fields of a struct; [started_len] and [payload_length]
    are the variables of the generated decoder. *)
Record Tail (T : Type) := mkTail {
  tl_some : T -> bool;
  tl_encode : T -> bytes -> bytes;
  tl_length : T -> Z;
  tl_decode : Z -> Z -> dec T
}.
Arguments mkTail {T} _ _ _ _.
Arguments tl_some {T} t _ : rename.
Arguments tl_encode {T} t _ _ : rename.
Arguments tl_length {T} t _ : rename.
Arguments tl_decode {T} t _ _ _ : rename.

Definition tail_nil : Tail unit :=
  mkTail (fun _ => false) (fun _ out => out) (fun _ => 0) (fun _ _ => mret tt).

(** [decodable_field] of an optional field. *)
Definition opt_decode {A} (c : Codec A) (started_len payload_length : Z) : dec (option A) :=
  b ← st_get;
  if started_len - zlen b <? payload_length then
    match b with
    | x :: _ => if x =? EMPTY_STRING_CODE then buf_advance 1;; mret None
                else v ← decode c; mret (Some v)
    | [] => v ← decode c; mret (Some v)
    end
  else mret None.

(** [encodable_field] and [encodable_length] of an optional field: a missing
    value leaves a placeholder when a later field is present. *)
Definition opt_encode {A} (c : Codec A) (later : bool) (v : option A) (out : bytes) : bytes :=
  match v with
  | Some v => encode c v out
  | None => if later then put_u8 EMPTY_STRING_CODE out else out
  end.

Definition opt_length {A} (c : Codec A) (later : bool) (v : option A) : Z :=
  match v with Some v => encoded_length c v | None => if later then 1 else 0 end.

Definition tail_opt {A T} (c : Codec A) (t : Tail T) : Tail (option A * T) :=
  mkTail (fun x => bool_decide (is_Some (fst x)) || tl_some t (snd x))
         (fun x out => tl_encode t (snd x) (opt_encode c (tl_some t (snd x)) (fst x) out))
         (fun x => wadd 64 (opt_length c (tl_some t (snd x)) (fst x)) (tl_length t (snd x)))
         (fun started_len payload_length =>
            v ← opt_decode c started_len payload_length;
            x ← tl_decode t started_len payload_length; mret (v, x)).

(** The decoder works on a copy of the slice, written back on success. *)
Definition on_copy {A} (d : dec A) : dec A := fun s =>
  match d s with (Ok x, s') => (Ok x, s') | (r, _) => (r, s) end.

(** [impl_encodable] and [impl_decodable] *)
Definition derive_header {A T} (c : Codec A) (t : Tail T) (x : A * T) : Header :=
  mkHeader true (wadd 64 (encoded_length c (fst x)) (tl_length t (snd x))).

Definition derive_encode {A T} (c : Codec A) (t : Tail T) (x : A * T) (out : bytes) : bytes :=
  tl_encode t (snd x) (encode c (fst x) (Header_encode (derive_header c t x) out)).

Definition derive_decode {A T} (c : Codec A) (t : Tail T) : dec (A * T) :=
  on_copy (
    rlp_head ← Header_decode;
    if negb (is_list rlp_head) then st_throw UnexpectedString else
    b ← st_get;
    let started_len := zlen b in
    v ← decode c;
    x ← tl_decode t started_len (payload_length rlp_head);
    b ← st_get;
    let consumed := started_len - zlen b in
    if negb (consumed =? payload_length rlp_head)
    then st_throw (ListLengthMismatch (payload_length rlp_head) consumed) else
    mret (v, x)).

Definition derive_codec {A T} (c : Codec A) (t : Tail T) : Codec (A * T) :=
  mkCodec (derive_encode c t)
          (fun x => let p := payload_length (derive_header c t x) in wadd 64 (length_of_length p) p)
          (derive_decode c t).

(** A struct without optional fields, as the type [B]. *)
Definition struct_codec {A B} (c : Codec A) (f : A -> B) (g : B -> A) : Codec B :=
  map_codec (derive_codec c tail_nil) (fun x => f (fst x)) (fun b => (g b, tt)).

#[global] Typeclasses Opaque uint_codec fixed_uint_codec bytes_codec array_codec bool_codec ip_codec vec_codec.
#[global] Typeclasses Opaque map_codec fields_codec hash_codec derive_codec struct_codec.

(** ** Laws *)

(** What a value of a [map_codec] must satisfy: its image is well formed. *)
Definition inverse_on {A B} (wf : A -> Prop) (wf' : B -> Prop) (f : A -> B) (g : B -> A) : Prop :=
  forall b, wf' b -> wf (g b) /\ f (g b) = b.

Lemma map_codec_rt {A B} (c : Codec A) wf wf' (f : A -> B) g :
  CodecRt c wf -> inverse_on wf wf' f g -> CodecRt (map_codec c f g) wf'.
Proof.
  intros Hc Hg. split; cbn.
  - intros x out. apply rt_append.
  - intros x Hx. apply rt_wf, Hg, Hx.
  - intros x Hx. apply rt_nonempty, Hg, Hx.
  - intros x Hx. apply rt_length, Hg, Hx.
  - intros x rest Hx. apply Hg in Hx as [Hx E].
    erewrite bind_ok by (by apply rt_decode). by rewrite E.
Qed.

Lemma map_decode_ok {A B} (d : dec A) (f : A -> B) :
  DecodeOk d -> DecodeOk (a ← d; mret (f a)).
Proof.
  intros Hd. split.
  - intros buf Hb. apply bind_safe; [by apply dk_safe|done].
  - intros buf x rest Hb H. apply bind_inv in H as (a & s1 & H1 & H). injection H as _ ->.
    by eapply dk_consumes.
Qed.
#[global] Existing Instance map_decode_ok.

Lemma map_codec_ok {A B} (c : Codec A) wf wf' (f : A -> B) g :
  CodecOk c wf -> inverse_on wf wf' f g -> inverse_on wf' wf g f -> CodecOk (map_codec c f g) wf'.
Proof.
  intros Hc Hg Hf. pose proof (map_codec_rt c wf wf' f g _ Hg) as Hrt.
  split; [apply Hrt..| |].
  - intros buf x rest Hb H. cbn in *. apply bind_inv in H as (a & s1 & H1 & H).
    injection H as <- ->. apply decode_canonical in H1 as [Ha ->]; [|done].
    destruct (Hf a Ha) as [? ->]. done.
  - apply (map_decode_ok (decode c) f); apply _.
Qed.

Definition wf_fields {A B} (c : Codec A) (d : Codec B) (wf : A -> Prop) (wf' : B -> Prop)
    (x : A * B) : Prop :=
  wf (fst x) /\ wf' (snd x) /\ zlen (encode (fields_codec c d) x []) < 2 ^ 63.

Section Fields.
Context {A B : Type} (c : Codec A) (d : Codec B) (wf : A -> Prop) (wf' : B -> Prop).

Lemma fields_encode_eq `{!CodecRt c wf, !CodecRt d wf'} x :
  encode (fields_codec c d) x [] = encode c (fst x) [] ++ encode d (snd x) [].
Proof. cbn. by rewrite (rt_append (snd x)). Qed.

#[global] Instance fields_codec_rt :
  CodecRt c wf -> CodecRt d wf' -> CodecRt (fields_codec c d) (wf_fields c d wf wf').
Proof.
  intros Hc Hd. split.
  - intros x out. rewrite fields_encode_eq. cbn.
    by rewrite (rt_append (snd x)), (rt_append (fst x)), app_assoc.
  - intros x (Ha & Hb & _). rewrite fields_encode_eq. apply Forall_app; split; by apply rt_wf.
  - intros x (Ha & Hb & _). rewrite fields_encode_eq. intros E. apply app_eq_nil in E as [E _].
    exact (rt_nonempty _ Ha E).
  - intros x (Ha & Hb & Hl). rewrite fields_encode_eq in *. cbn.
    rewrite !rt_length, length_app in * by done.
    rewrite wadd_small; [lia|unfold in_u; lia].
  - intros x rest (Ha & Hb & _). rewrite fields_encode_eq, <- app_assoc. cbn.
    erewrite bind_ok by (by apply rt_decode). erewrite bind_ok by (by apply rt_decode).
    by destruct x.
Qed.

#[global] Instance fields_decode_ok :
  DecodeOk (decode c) -> DecodeOk (decode d) -> DecodeOk (decode (fields_codec c d)).
Proof.
  intros Hc Hd. split.
  - intros buf Hb. apply bind_safe; [by apply dk_safe|]. intros a s1 H1.
    apply dk_consumes in H1 as (pre & _ & ->); [|done]. apply is_slice_app in Hb as [_ Hb].
    apply bind_safe; [by apply dk_safe|done].
  - intros buf x rest Hb H. apply bind_inv in H as (a & s1 & H1 & H).
    apply dk_consumes in H1 as (pre & Hpre & ->); [|done]. apply is_slice_app in Hb as [_ Hb].
    apply bind_inv in H as (b & s2 & H2 & H). injection H as _ ->.
    apply dk_consumes in H2 as (pre' & _ & ->); [|done].
    exists (pre ++ pre'). rewrite app_assoc. split; [|done].
    intros E. by apply app_eq_nil in E as [-> _].
Qed.

#[global] Instance fields_codec_ok :
  CodecOk c wf -> CodecOk d wf' -> CodecOk (fields_codec c d) (wf_fields c d wf wf').
Proof.
  intros Hc Hd. pose proof fields_codec_rt as Hrt. split; [apply Hrt..| |]; try apply _.
  - intros buf x rest Hb H. apply bind_inv in H as (a & s1 & H1 & H).
    apply decode_canonical in H1 as [Ha ->]; [|done].
    pose proof Hb as [_ Hb1]%is_slice_app. apply bind_inv in H as (b & s2 & H2 & H).
    injection H as <- ->. apply decode_canonical in H2 as [Hx ->]; [|done].
    rewrite app_assoc in Hb. apply is_slice_app in Hb as [[_ Hl] _].
    rewrite fields_encode_eq, app_assoc. split; [|done].
    split_and!; [done..|]. rewrite fields_encode_eq. exact Hl.
  - apply (dk_safe (d := decode (fields_codec c d))).
Qed.
End Fields.

Lemma hash_codec_ok n : Z.of_nat n < 2 ^ 63 -> CodecOk (hash_codec n) (wf_uint n).
Proof.
  intros Hn. apply (map_codec_ok _ (wf_array n)); [by apply array_codec_ok| |].
  - intros v Hv. split; [split; [apply be_bytes_wf|apply length_be_bytes]|].
    rewrite be_value_be_bytes. by apply Z.mod_small.
  - intros l [Hw Hl]. subst n. split; [by apply be_value_range|by apply be_bytes_be_value].
Qed.

(** ** Trailing fields *)

Class TailRt {T : Type} (t : Tail T) (wf : T -> Prop) : Prop := {
  tail_append x out : tl_encode t x out = out ++ tl_encode t x [];
  tail_wf x : wf x -> wf_bytes (tl_encode t x []);
  tail_some x : wf x -> tl_some t x = true <-> tl_encode t x [] <> [];
  tail_length x : wf x -> zlen (tl_encode t x []) < 2 ^ 63 -> tl_length t x = zlen (tl_encode t x []);
  tail_decode x rest started_len payload_length : wf x ->
    started_len - zlen rest = payload_length ->
    tl_decode t started_len payload_length (tl_encode t x [] ++ rest) = (Ok x, rest)
}.

Class TailDec {T : Type} (t : Tail T) : Prop := {
  tail_safe sl pl buf : is_slice buf -> safe (fst (tl_decode t sl pl buf));
  tail_suffix sl pl buf x rest :
    is_slice buf -> tl_decode t sl pl buf = (Ok x, rest) -> exists pre, buf = pre ++ rest
}.

#[global] Instance tail_nil_rt : TailRt tail_nil (fun _ => True).
Proof.
  split; cbn.
  - intros x out. by rewrite app_nil_r.
  - constructor.
  - intros x _. by split.
  - done.
  - by intros [] rest sl pl _ _.
Qed.

#[global] Instance tail_nil_dec : TailDec tail_nil.
Proof. split; [done|]. intros sl pl buf x rest _ [= _ ->]. by exists []. Qed.

(** The encoding of a present field must not look like the placeholder. *)
Definition not_placeholder {A} (c : Codec A) (v : A) : Prop :=
  head (encode c v []) <> Some EMPTY_STRING_CODE.

Definition wf_tail_opt {A T} (c : Codec A) (wf : A -> Prop) (wft : T -> Prop) (x : option A * T) : Prop :=
  (forall v, fst x = Some v -> wf v /\ not_placeholder c v) /\ wft (snd x).

Section TailOpt.
Context {A T : Type} (c : Codec A) (t : Tail T) (wf : A -> Prop) (wft : T -> Prop).
Context {Hc : CodecRt c wf} {Ht : TailRt t wft}.

Lemma opt_encode_append later v out : opt_encode c later v out = out ++ opt_encode c later v [].
Proof.
  destruct v as [v|]; [apply rt_append|]. destruct later; cbn; [done|by rewrite app_nil_r].
Qed.

Lemma tail_opt_encode x :
  tl_encode (tail_opt c t) x [] = opt_encode c (tl_some t (snd x)) (fst x) [] ++ tl_encode t (snd x) [].
Proof. cbn. by rewrite tail_append. Qed.

(** The whole field when a value or a placeholder is written, nothing otherwise. *)
Lemma opt_decode_encode v later rest sl pl :
  (forall a, v = Some a -> wf a /\ not_placeholder c a) ->
  (v = None -> later = false -> pl <= sl - zlen rest) ->
  ((v <> None \/ later = true) -> sl - zlen (opt_encode c later v [] ++ rest) < pl) ->
  opt_decode c sl pl (opt_encode c later v [] ++ rest) = (Ok v, rest).
Proof.
  intros Hv Hnone Hsome. unfold opt_decode. erewrite bind_ok by done. destruct v as [v|].
  - destruct (Hv v eq_refl) as [Hw Hp]. specialize (Hsome ltac:(by left)).
    cbn [opt_encode] in *. zdec. pose proof (rt_decode v rest Hw) as Hd.
    pose proof (rt_nonempty v Hw) as Hn. unfold not_placeholder in Hp.
    destruct (encode c v []) as [|b l]; [done|]. cbn [app head] in *.
    destruct (Z.eqb_spec b EMPTY_STRING_CODE) as [->|]; [done|].
    by erewrite bind_ok by exact Hd.
  - destruct later; cbn [opt_encode put_u8 app] in *.
    + specialize (Hsome (or_intror eq_refl)). zdec.
      by erewrite bind_ok by apply advance1.
    + specialize (Hnone eq_refl eq_refl). by zdec.
Qed.

Lemma opt_length_ok later v : (forall a, v = Some a -> wf a) ->
  opt_length c later v = zlen (opt_encode c later v []).
Proof. destruct v as [v|]; intros Hv; cbn; [apply rt_length, Hv; done|by destruct later]. Qed.

#[global] Instance tail_opt_rt : TailRt (tail_opt c t) (wf_tail_opt c wf wft).
Proof.
  split.
  - intros x out. rewrite tail_opt_encode. cbn.
    by rewrite tail_append, opt_encode_append, app_assoc.
  - intros [v x] [Hv Hx]. rewrite tail_opt_encode. cbn [fst snd] in *.
    apply Forall_app; split; [|by apply tail_wf].
    destruct v as [v|]; [apply rt_wf, Hv; done|]. destruct (tl_some t x); cbn; [|constructor].
    by repeat constructor.
  - intros [v x] [Hv Hx]. rewrite tail_opt_encode. cbn [fst snd tail_opt tl_some] in *.
    rewrite orb_true_iff, bool_decide_eq_true, (tail_some x Hx). destruct v as [v|]; cbn [opt_encode].
    + split; intros _; [|by left]. intros E. apply app_eq_nil in E as [E _].
      exact (rt_nonempty v (proj1 (Hv v eq_refl)) E).
    + destruct (tl_some t x) eqn:E; [cbn; apply (tail_some x Hx) in E|]; intuition done.
  - intros [v x] [Hv Hx]. rewrite tail_opt_encode. cbn [tl_length tail_opt fst snd] in *.
    rewrite length_app. intros Hl. rewrite opt_length_ok by (intros; by apply Hv).
    rewrite tail_length by (done || lia). rewrite wadd_small; [lia|unfold in_u; lia].
  - intros [v x] rest sl pl [Hv Hx] Hpl. rewrite tail_opt_encode, <- app_assoc.
    cbn [tl_decode tail_opt fst snd] in *.
    erewrite bind_ok; [by erewrite bind_ok by (by apply tail_decode)|].
    apply opt_decode_encode; [done|..].
    + intros -> E. assert (Hnil : tl_encode t x [] = []).
      { destruct (tl_encode t x []) eqn:E'; [done|]. exfalso.
        assert (tl_some t x = true) by (apply (tail_some x Hx); by rewrite E'). congruence. }
      rewrite Hnil. cbn. lia.
    + intros H. rewrite !length_app. enough (0 < length (opt_encode c (tl_some t x) v []))%nat by lia.
      destruct v as [v|]; cbn [opt_encode].
      * pose proof (rt_nonempty v (proj1 (Hv v eq_refl))). destruct (encode c v []); [done|cbn; lia].
      * destruct H as [ | ->]; [done|]. cbn. lia.
Qed.
End TailOpt.

#[global] Instance tail_opt_dec {A T} (c : Codec A) (t : Tail T) :
  DecodeOk (decode c) -> TailDec t -> TailDec (tail_opt c t).
Proof.
  intros Hc Ht.
  assert (Hopt : forall sl pl buf, is_slice buf -> safe (fst (opt_decode c sl pl buf)) /\
    forall v rest, opt_decode c sl pl buf = (Ok v, rest) -> exists pre, buf = pre ++ rest).
  { intros sl pl buf Hb. unfold opt_decode. rewrite (bind_ok st_get _ buf buf buf eq_refl).
    pose proof (map_decode_ok (decode c) Some Hc) as Hm.
    assert (Hd : safe (fst ((v ← decode c; mret (Some v)) buf)) /\ forall v rest,
      (v ← decode c; mret (Some v)) buf = (Ok v, rest) -> exists pre, buf = pre ++ rest).
    { split; [by apply dk_safe|]. intros v rest H. apply dk_consumes in H as (pre & _ & ?); eauto. }
    destruct (sl - zlen buf <? pl); [|split; [done|]; intros v rest [= _ ->]; by exists []].
    destruct buf as [|x buf]; [done|]. destruct (x =? EMPTY_STRING_CODE); [|done].
    rewrite (bind_ok _ _ _ _ _ (advance1 x buf)).
    split; [done|]. intros v rest [= _ ->]. by exists [x]. }
  split.
  - intros sl pl buf Hb. apply bind_safe; [by apply Hopt|]. intros v s1 H1.
    apply Hopt in H1 as [pre ->]; [|done]. apply is_slice_app in Hb as [_ Hb].
    apply bind_safe; [by apply tail_safe|done].
  - intros sl pl buf x rest Hb H. apply bind_inv in H as (v & s1 & H1 & H).
    apply Hopt in H1 as [pre ->]; [|done]. apply is_slice_app in Hb as [_ Hb].
    apply bind_inv in H as (y & s2 & H2 & H). injection H as _ ->.
    apply tail_suffix in H2 as [pre' ->]; [|done]. exists (pre ++ pre'). by rewrite app_assoc.
Qed.

(** ** Derived structs *)

Lemma on_copy_ok {A} (d : dec A) s x s' : on_copy d s = (Ok x, s') <-> d s = (Ok x, s').
Proof. unfold on_copy. destruct (d s) as [[]]; split; congruence. Qed.

Lemma on_copy_safe {A} (d : dec A) s : safe (fst (d s)) -> safe (fst (on_copy d s)).
Proof. unfold on_copy. by destruct (d s) as [[]]. Qed.

(** Reading a list: its header, then [k] on the payload, which must be used up. *)
Definition payload_decode {A} (d : Z -> Z -> dec A) : dec A :=
  rlp_head ← Header_decode;
  if negb (is_list rlp_head) then st_throw UnexpectedString else
  b ← st_get;
  v ← d (zlen b) (payload_length rlp_head);
  b' ← st_get;
  if negb (zlen b - zlen b' =? payload_length rlp_head)
  then st_throw (ListLengthMismatch (payload_length rlp_head) (zlen b - zlen b'))
  else mret v.

Section Payload.
Context {A : Type} (d : Z -> Z -> dec A).

Lemma payload_decode_encode x payload rest :
  zlen payload < 2 ^ 63 ->
  (forall sl, sl = zlen (payload ++ rest) -> d sl (zlen payload) (payload ++ rest) = (Ok x, rest)) ->
  payload_decode d (Header_encode (mkHeader true (zlen payload)) [] ++ payload ++ rest) = (Ok x, rest).
Proof.
  intros Hl Hd. unfold payload_decode.
  erewrite bind_ok by (apply Header_decode_encode;
    [unfold wf_header; cbn; lia|cbn [payload_length]; rewrite length_app; lia|by unfold header_guard]).
  cbn [is_list negb payload_length]. erewrite bind_ok by done.
  erewrite bind_ok by (by apply Hd). erewrite bind_ok by done.
  rewrite length_app. by zdec.
Qed.

Lemma payload_decode_inv buf x rest :
  is_slice buf -> payload_decode d buf = (Ok x, rest) ->
  (forall sl pl s, is_slice s -> d sl pl s = (Ok x, rest) -> exists pre, s = pre ++ rest) ->
  exists payload, is_slice (payload ++ rest) /\
    buf = Header_encode (mkHeader true (zlen payload)) [] ++ payload ++ rest /\
    d (zlen (payload ++ rest)) (zlen payload) (payload ++ rest) = (Ok x, rest).
Proof.
  intros Hb H Hsuf. apply bind_inv in H as (h & s1 & H1 & H).
  destruct (is_list h) eqn:Hl; [|done]. cbn [negb] in H.
  pose proof (list_header_inv _ _ _ Hb H1 Hl) as (Hh & view & r & Hs1 & Hp & Hs & ->).
  apply is_slice_app in Hb as [_ Hb]. rewrite <- Hs1 in *. clear Hs1 view r Hp Hs.
  erewrite bind_ok in H by done. apply bind_inv in H as (v & s2 & H2 & H).
  erewrite bind_ok in H by done.
  destruct (Z.eqb_spec (zlen s1 - zlen s2) (payload_length h)) as [E|]; [|done]. cbn [negb] in H.
  injection H as -> ->. destruct (Hsuf _ _ _ Hb H2) as [pre ->]. rewrite length_app in E.
  assert (E' : payload_length h = zlen pre) by lia.
  exists pre. rewrite E' in H2. split; [done|]. split; [|done].
  destruct h as [l p]. cbn [is_list payload_length] in Hl, E'. by subst.
Qed.

Lemma payload_decode_safe buf :
  is_slice buf ->
  (forall sl pl s, is_slice s -> safe (fst (d sl pl s))) -> safe (fst (payload_decode d buf)).
Proof.
  intros Hb Hd. apply bind_safe; [apply Header_decode_safe|]. intros h s1 H1.
  destruct (is_list h) eqn:Hl; [|done]. cbn [negb].
  pose proof (list_header_inv _ _ _ Hb H1 Hl) as (Hh & view & r & Hs1 & Hp & Hs & ->).
  apply is_slice_app in Hb as [_ Hb]. rewrite <- Hs1 in *.
  erewrite bind_ok by done. apply bind_safe; [by apply Hd|]. intros v s2 _.
  erewrite bind_ok by done. by destruct (_ =? _).
Qed.
End Payload.

(** The payload of a derived struct. *)
Definition derive_payload {A T} (c : Codec A) (t : Tail T) (x : A * T) : bytes :=
  encode c (fst x) [] ++ tl_encode t (snd x) [].

Definition wf_derive {A T} (c : Codec A) (t : Tail T) (wf : A -> Prop) (wft : T -> Prop)
    (x : A * T) : Prop :=
  wf (fst x) /\ wft (snd x) /\ zlen (derive_payload c t x) < 2 ^ 63.

Definition fields_then_tail {A T} (c : Codec A) (t : Tail T) (sl pl : Z) : dec (A * T) :=
  v ← decode c; x ← tl_decode t sl pl; mret (v, x).

Lemma derive_decode_eq {A T} (c : Codec A) (t : Tail T) buf :
  derive_decode c t buf = on_copy (payload_decode (fields_then_tail c t)) buf.
Proof.
  unfold derive_decode, payload_decode, fields_then_tail, on_copy, mbind, st_bind, st_get.
  destruct (Header_decode buf) as [[h|e| |] s]; try done. destruct (negb (is_list h)); [done|].
  destruct (decode c s) as [[v|e| |] s1]; try done.
  destruct (tl_decode t _ _ s1) as [[x|e| |] s2]; try done.
Qed.

Section Derive.
Context {A T : Type} (c : Codec A) (t : Tail T) (wf : A -> Prop) (wft : T -> Prop).

Lemma derive_header_eq `{!CodecRt c wf, !TailRt t wft} x :
  wf_derive c t wf wft x -> derive_header c t x = mkHeader true (zlen (derive_payload c t x)).
Proof.
  intros (Hx & Hy & Hl). unfold derive_header, derive_payload in *. rewrite length_app in *.
  rewrite rt_length, tail_length by (done || lia). f_equal. rewrite wadd_small; [lia|unfold in_u; lia].
Qed.

Lemma derive_encode_eq `{!CodecRt c wf, !TailRt t wft} x out :
  derive_encode c t x out = out ++ Header_encode (derive_header c t x) [] ++ derive_payload c t x.
Proof.
  unfold derive_encode, derive_payload.
  by rewrite tail_append, rt_append, Header_encode_append, <- !app_assoc.
Qed.

#[global] Instance derive_codec_rt :
  CodecRt c wf -> TailRt t wft -> CodecRt (derive_codec c t) (wf_derive c t wf wft).
Proof.
  intros Hc Ht. split; cbn [derive_codec encode encoded_length decode].
  - intros x out. by rewrite !derive_encode_eq.
  - intros x Hx. rewrite derive_encode_eq, app_nil_l, derive_header_eq by done.
    destruct Hx as (Hx & Hy & Hl). apply Forall_app; split; [apply Header_encode_wf; unfold wf_header; cbn; lia|].
    apply Forall_app; split; [by apply rt_wf|by apply tail_wf].
  - intros x _. rewrite derive_encode_eq, app_nil_l. intros E. apply app_eq_nil in E as [E _].
    exact (Header_encode_nonempty _ E).
  - intros x Hx. rewrite derive_encode_eq, !derive_header_eq by done. destruct Hx as (_ & _ & Hl).
    cbn [payload_length app]. cbv zeta.
    assert (Hh : wf_header (mkHeader true (zlen (derive_payload c t x)))) by (unfold wf_header; cbn; lia).
    pose proof (length_of_length_ok _ Hh) as L. pose proof (Header_length_bounds _ Hh) as B.
    unfold Header_length in *. cbn [payload_length] in *.
    rewrite L, length_app, wadd_small; [lia|unfold in_u; lia].
  - intros x rest Hx. rewrite derive_encode_eq, app_nil_l, derive_header_eq, <- app_assoc by done.
    rewrite derive_decode_eq. apply on_copy_ok. destruct Hx as (Hx & Hy & Hl).
    apply payload_decode_encode; [done|]. intros sl ->. unfold fields_then_tail, derive_payload.
    rewrite <- app_assoc. erewrite bind_ok by (by apply rt_decode).
    rewrite (bind_ok _ _ _ (snd x) rest); [by destruct x|]. apply tail_decode; [done|]. rewrite !length_app. lia.
Qed.

#[global] Instance derive_decode_ok :
  DecodeOk (decode c) -> TailDec t -> DecodeOk (derive_decode c t).
Proof.
  intros Hc Ht.
  assert (Hft : forall sl pl s, is_slice s -> safe (fst (fields_then_tail c t sl pl s)) /\
    forall x rest, fields_then_tail c t sl pl s = (Ok x, rest) -> exists pre, s = pre ++ rest).
  { intros sl pl s Hs. split.
    - apply bind_safe; [by apply dk_safe|]. intros v s1 H1.
      apply dk_consumes in H1 as (pre & _ & ->); [|done]. apply is_slice_app in Hs as [_ Hs].
      apply bind_safe; [by apply tail_safe|done].
    - intros x rest H. apply bind_inv in H as (v & s1 & H1 & H).
      apply dk_consumes in H1 as (pre & _ & ->); [|done]. apply is_slice_app in Hs as [_ Hs].
      apply bind_inv in H as (y & s2 & H2 & H). injection H as _ ->.
      apply tail_suffix in H2 as [pre' ->]; [|done]. exists (pre ++ pre'). by rewrite app_assoc. }
  split.
  - intros buf Hb. rewrite derive_decode_eq. apply on_copy_safe, payload_decode_safe; [done|].
    intros sl pl s Hs. by apply Hft.
  - intros buf x rest Hb H. rewrite derive_decode_eq, on_copy_ok in H.
    apply payload_decode_inv in H as (payload & _ & -> & _); [|done|intros sl pl s Hs H'; by eapply Hft].
    exists (Header_encode (mkHeader true (zlen payload)) [] ++ payload). rewrite <- app_assoc.
    split; [|done]. intros E. apply app_eq_nil in E as [E _]. exact (Header_encode_nonempty _ E).
Qed.

End Derive.

(** Without optional fields the encoding is canonical. *)
Lemma derive_nil_ok {A} (c : Codec A) wf :
  CodecOk c wf -> CodecOk (derive_codec c tail_nil) (wf_derive c tail_nil wf (fun _ => True)).
Proof.
  intros Hc. pose proof (derive_codec_rt c tail_nil wf (fun _ => True) _ _) as Hrt.
  split; [apply Hrt..| |apply (dk_safe (d := derive_decode c tail_nil))].
  intros buf [x []] rest Hb H. cbn [decode derive_codec] in H. rewrite derive_decode_eq, on_copy_ok in H.
  assert (Hft : forall sl pl s, is_slice s -> fields_then_tail c tail_nil sl pl s = (Ok (x, tt), rest) ->
    wf x /\ s = encode c x [] ++ rest).
  { intros sl pl s Hs H'. apply bind_inv in H' as (v & s1 & H1 & H').
    injection H' as -> ->. by apply decode_canonical in H1. }
  apply payload_decode_inv in H as (payload & Hs & -> & H); [|done|].
  2: { intros sl pl s Hs H'. apply Hft in H' as [_ ->]; eauto. }
  apply Hft in H as [Hx E]; [|done]. apply app_inv_tail in E. subst payload.
  assert (Hwf : wf_derive c tail_nil wf (fun _ => True) (x, tt)).
  { split_and!; [done..|]. unfold derive_payload. cbn. rewrite app_nil_r.
    apply is_slice_app in Hs as [[_ Hs] _]. exact Hs. }
  split; [done|]. cbn [encode derive_codec].
  rewrite (derive_encode_eq c tail_nil wf (fun _ => True)), (derive_header_eq c tail_nil wf (fun _ => True)) by done.
  unfold derive_payload. cbn. by rewrite app_nil_r, <- app_assoc.
Qed.

Definition wf_struct {A B} (c : Codec A) (wf : A -> Prop) (g : B -> A) (b : B) : Prop :=
  wf (g b) /\ zlen (encode c (g b) []) < 2 ^ 63.

Lemma struct_codec_ok {A B} (c : Codec A) wf (f : A -> B) (g : B -> A) :
  CodecOk c wf -> (forall b, f (g b) = b) -> (forall a, g (f a) = a) ->
  CodecOk (struct_codec c f g) (wf_struct c wf g).
Proof.
  intros Hc Hfg Hgf. eapply map_codec_ok; [by apply derive_nil_ok| |].
  - intros b [Hb Hl]. split; [|apply Hfg]. split_and!; [done..|].
    unfold derive_payload. cbn. by rewrite app_nil_r.
  - intros [a []] (Ha & _ & Hl). cbn in *. rewrite Hgf. split; [|done].
    split; rewrite Hgf; [done|]. unfold derive_payload in Hl. cbn in Hl. by rewrite app_nil_r in Hl.
Qed.

Lemma struct_codec_rt {A B} (c : Codec A) wf (f : A -> B) (g : B -> A) :
  CodecRt c wf -> (forall b, f (g b) = b) -> CodecRt (struct_codec c f g) (wf_struct c wf g).
Proof.
  intros Hc Hfg. eapply map_codec_rt; [by apply derive_codec_rt, tail_nil_rt|].
  intros b [Hb Hl]. split; [|apply Hfg]. split_and!; [done..|].
  unfold derive_payload. cbn. by rewrite app_nil_r.
Qed.

(** ** Decoders that may consume nothing

    Sequencing decoders that never panic and only move forward. *)
Class DecodeWeak {A : Type} (d : dec A) : Prop := {
  dw_safe buf : is_slice buf -> safe (fst (d buf));
  dw_suffix buf x rest : is_slice buf -> d buf = (Ok x, rest) -> exists pre, buf = pre ++ rest
}.

#[global] Instance decode_ok_weak {A} (d : dec A) : DecodeOk d -> DecodeWeak d.
Proof.
  intros Hd. split; [apply dk_safe|]. intros buf x rest Hb H.
  apply dk_consumes in H as (pre & _ & ?); eauto.
Qed.

Lemma mret_weak {A} (x : A) : DecodeWeak (mret x : dec A).
Proof. split; [done|]. intros buf y rest _ [= _ ->]. by exists []. Qed.

Lemma throw_weak {A} e : DecodeWeak (st_throw e : dec A).
Proof. by split. Qed.

Lemma lift_weak {A} (o : outcome DecodeError A) : safe o -> DecodeWeak (st_lift o : dec A).
Proof. intros Ho. split; [done|]. intros buf y rest _ [= _ ->]. by exists []. Qed.

Lemma get_weak {A} (f : bytes -> dec A) :
  (forall s, is_slice s -> safe (fst (f s s)) /\ forall x rest, f s s = (Ok x, rest) -> exists pre, s = pre ++ rest) ->
  DecodeWeak (s ← st_get; f s).
Proof.
  intros Hf. split.
  - intros buf Hb. by apply Hf.
  - intros buf x rest Hb H. by eapply Hf.
Qed.

Lemma bind_weak {A B} (d : dec A) (f : A -> dec B) :
  DecodeWeak d -> (forall a, DecodeWeak (f a)) -> DecodeWeak (d ≫= f).
Proof.
  intros Hd Hf. split.
  - intros buf Hb. apply bind_safe; [by apply dw_safe|]. intros a s1 H1.
    apply dw_suffix in H1 as [pre ->]; [|done]. apply is_slice_app in Hb as [_ Hb]. by apply dw_safe.
  - intros buf x rest Hb H. apply bind_inv in H as (a & s1 & H1 & H).
    apply dw_suffix in H1 as [pre ->]; [|done]. apply is_slice_app in Hb as [_ Hb].
    apply dw_suffix in H as [pre' ->]; [|done]. exists (pre ++ pre'). by rewrite app_assoc.
Qed.

Lemma bind_strong {A B} (d : dec A) (f : A -> dec B) :
  DecodeOk d -> (forall a, DecodeWeak (f a)) -> DecodeOk (d ≫= f).
Proof.
  intros Hd Hf. pose proof (bind_weak d f _ Hf) as Hw. split; [apply dw_safe|].
  - intros buf x rest Hb H. apply bind_inv in H as (a & s1 & H1 & H).
    apply dk_consumes in H1 as (pre & Hpre & ->); [|done]. apply is_slice_app in Hb as [_ Hb].
    apply dw_suffix in H as [pre' ->]; [|done]. exists (pre ++ pre'). rewrite app_assoc. split; [|done].
    intros E. by apply app_eq_nil in E as [-> _].
Qed.

#[global] Instance Header_weak : DecodeWeak Header_decode.
Proof.
  split; [intros; apply Header_decode_safe|]. intros buf h rest [Hb _] H.
  apply Header_decode_inv in H as [_ [(_ & -> & _)|(_ & _ & ->)]]; [by exists []|eauto|done].
Qed.

(** Decide the conditionals and products of a decoder. *)
Ltac weak :=
  repeat (intros; lazymatch goal with
  | |- DecodeWeak (mret _) => apply mret_weak
  | |- DecodeWeak (st_throw _) => apply throw_weak
  | |- DecodeWeak (st_lift _) => apply lift_weak
  | |- DecodeWeak (mbind _ _) => apply bind_weak
  | |- DecodeWeak (if ?b then _ else _) => destruct b
  | |- DecodeWeak (match ?x with _ => _ end) => destruct x
  | |- DecodeWeak (let _ := _ in _) => cbv zeta
  | |- DecodeWeak _ => apply _
  end).

#[global] Instance on_copy_dec {A} (d : dec A) : DecodeOk d -> DecodeOk (on_copy d).
Proof.
  intros Hd. split; intros buf.
  - intros Hb. by apply on_copy_safe, dk_safe.
  - intros x rest Hb H. rewrite on_copy_ok in H. by eapply dk_consumes.
Qed.
