(* ===== verification/BTree.v ===== *)
(** * Ordered collections of the Rust standard library

    A [BTreeMap] is a [gmap] together with the total order of its keys: the map
    gives [get], [insert] and [remove]; [entries] is its iterator, the bindings
    in ascending key order, from which [first_key_value], [last_key_value] and
    the range queries are derived.  A [BTreeSet] whose elements carry their own
    [Ord] is the same structure, keyed by what that order compares. *)
From S2P Require Import Prelude.

(** ** Sorted lists and filters *)

Lemma filter_none {A} (Q : A -> Prop) `{forall x, Decision (Q x)} (l : list A) :
  Forall (fun x => ~ Q x) l -> filter Q l = [].
Proof. induction 1; [done|]. by rewrite filter_cons_False. Qed.

Lemma filter_all {A} (Q : A -> Prop) `{forall x, Decision (Q x)} (l : list A) :
  Forall Q l -> filter Q l = l.
Proof. induction 1 as [|x l Hx _ IH]; [done|]. rewrite filter_cons_True by done. by rewrite IH. Qed.

Lemma filter_ext_in {A} (P Q : A -> Prop) `{forall x, Decision (P x), forall x, Decision (Q x)} (l : list A) :
  (forall x, x ∈ l -> P x <-> Q x) -> filter P l = filter Q l.
Proof.
  induction l as [|x l IH]; intros Hl; [done|]. rewrite !filter_cons.
  rewrite IH by (intros y Hy; apply Hl; by apply list_elem_of_further).
  pose proof (Hl x (list_elem_of_here _ _)). repeat case_decide; tauto.
Qed.

Lemma StronglySorted_fmap_inv {A B} (f : A -> B) (R : relation B) (l : list A) :
  StronglySorted R (f <$> l) -> StronglySorted (fun x y => R (f x) (f y)) l.
Proof.
  induction l as [|x l IH]; cbn; [constructor|]. intros [Hl Hx]%StronglySorted_inv.
  constructor; [by apply IH|]. by rewrite Forall_fmap in Hx.
Qed.

Lemma StronglySorted_filter {A} (R : relation A) (Q : A -> Prop) `{forall x, Decision (Q x)} (l : list A) :
  StronglySorted R l -> StronglySorted R (filter Q l).
Proof.
  induction 1 as [|x l Hl IH Hall]; [constructor|]. rewrite filter_cons. case_decide; [|done].
  constructor; [done|]. apply Forall_forall. intros y [_ Hy]%list_elem_of_filter.
  by apply (proj1 (Forall_forall _ _) Hall).
Qed.

Lemma StronglySorted_impl {A} (R S : relation A) l : (forall x y, R x y -> S x y) -> StronglySorted R l -> StronglySorted S l.
Proof. intros HRS. induction 1; constructor; [done|]. eapply Forall_impl; [done|]. auto. Qed.

Section Entries.
Context {K : Type} `{Countable K} (R : relation K) `{!RelDecision R} `{!TotalOrder R}.
Context {V : Type}.

Definition entry_le (x y : K * V) : Prop := R x.1 y.1.
#[global] Instance entry_le_dec : RelDecision entry_le.
Proof. intros x y. unfold entry_le. apply _. Defined.

(** [iter()]: the bindings in ascending key order. *)
Definition entries (m : gmap K V) : list (K * V) := merge_sort entry_le (map_to_list m).

Definition first_key_value (m : gmap K V) : option (K * V) := head (entries m).
Definition last_key_value (m : gmap K V) : option (K * V) := last (entries m).

(** [BTreeSet::insert] keeps an element that compares equal. *)
Definition bset_insert (k : K) (v : V) (m : gmap K V) : gmap K V :=
  match m !! k with Some _ => m | None => <[k:=v]> m end.

#[global] Instance entry_le_total : Total entry_le.
Proof. intros [a ?] [b ?]. unfold entry_le. cbn. apply (total R). Qed.
#[global] Instance entry_le_trans : Transitive entry_le.
Proof. intros [a ?] [b ?] [c ?]. unfold entry_le. cbn. apply (transitivity (R := R)). Qed.

Lemma entries_perm m : entries m ≡ₚ map_to_list m.
Proof. apply merge_sort_Permutation. Qed.

Lemma elem_of_entries m k v : (k, v) ∈ entries m <-> m !! k = Some v.
Proof. rewrite entries_perm. apply elem_of_map_to_list. Qed.

Lemma entries_NoDup_keys m : NoDup (entries m).*1.
Proof. rewrite entries_perm. apply NoDup_fst_map_to_list. Qed.

Lemma length_entries m : length (entries m) = size m.
Proof. rewrite entries_perm. apply length_map_to_list. Qed.

Lemma entries_sorted m : StronglySorted entry_le (entries m).
Proof. apply StronglySorted_merge_sort; apply _. Qed.

Lemma entries_strict m : StronglySorted (fun x y => strict R x.1 y.1) (entries m).
Proof.
  pose proof (entries_sorted m) as Hs. pose proof (entries_NoDup_keys m) as Hn.
  induction Hs as [|[k v] l Hl IH Hall]; [constructor|]. cbn in Hn.
  apply NoDup_cons in Hn as [Hnk Hn]. constructor; [auto|].
  rewrite Forall_forall in *. intros [k' v'] Hin. specialize (Hall _ Hin). cbn in *.
  apply strict_spec_alt. split; [done|]. intros ->. apply Hnk, list_elem_of_fmap.
  by exists (k', v').
Qed.

Lemma first_key_value_Some m k v :
  first_key_value m = Some (k, v) ->
  m !! k = Some v /\ forall k' v', m !! k' = Some v' -> R k k'.
Proof.
  unfold first_key_value. intros Hh. pose proof (entries_sorted m) as Hs.
  destruct (entries m) as [|x l] eqn:E; [done|]. cbn in Hh. injection Hh as ->.
  split; [apply elem_of_entries; rewrite E; left|].
  intros k' v' Hk'. apply elem_of_entries in Hk'. rewrite E in Hk'.
  apply elem_of_cons in Hk' as [[= -> ->]|Hin]; [apply (reflexivity (R := R))|].
  apply StronglySorted_inv in Hs as [_ Hall]. rewrite Forall_forall in Hall.
  by specialize (Hall _ Hin).
Qed.

Lemma last_key_value_Some m k v :
  last_key_value m = Some (k, v) ->
  m !! k = Some v /\ forall k' v', m !! k' = Some v' -> R k' k.
Proof.
  unfold last_key_value. intros Hl. apply last_Some in Hl as [l E].
  pose proof (entries_sorted m) as Hs. rewrite E in Hs.
  split; [apply elem_of_entries; rewrite E; set_solver|].
  intros k' v' Hk'. apply elem_of_entries in Hk'. rewrite E in Hk'.
  apply elem_of_app in Hk' as [Hin|Hin].
  - clear E. induction l as [|y l IH]; [by apply not_elem_of_nil in Hin|].
    cbn in Hs. apply StronglySorted_inv in Hs as [Hs Hall].
    apply elem_of_cons in Hin as [<-|Hin]; [|auto]. rewrite Forall_forall in Hall.
    apply (Hall (k, v)). set_solver.
  - apply list_elem_of_singleton in Hin as [= -> ->]. apply (reflexivity (R := R)).
Qed.

Lemma first_key_value_None m : first_key_value m = None <-> m = ∅.
Proof.
  unfold first_key_value. rewrite head_None. split.
  - intros E. apply map_to_list_empty_iff, Permutation_nil. by rewrite <- entries_perm, E.
  - intros ->. apply Permutation_nil. by rewrite entries_perm, map_to_list_empty.
Qed.

Lemma last_key_value_None m : last_key_value m = None <-> m = ∅.
Proof. unfold last_key_value. rewrite last_None, <- first_key_value_None. symmetry. apply head_None. Qed.

Lemma bset_insert_fresh k v m : m !! k = None -> bset_insert k v m = <[k:=v]> m.
Proof. intros E. unfold bset_insert. by rewrite E. Qed.

(** A strictly sorted list of the bindings is the list of the map. *)
Lemma entries_unique m (l : list (K * V)) :
  StronglySorted (fun x y => strict R x.1 y.1) l ->
  (forall k v, (k, v) ∈ l <-> m !! k = Some v) -> entries m = l.
Proof.
  intros Hs Hl. apply (StronglySorted_unique_strong (fun x y => strict R x.1 y.1)).
  - intros x y _ _ [? ?] [? ?]. done.
  - apply entries_strict.
  - done.
  - apply NoDup_Permutation.
    + apply (NoDup_fmap_1 fst), entries_NoDup_keys.
    + clear Hl. induction Hs as [|x l Hs IH Hx]; constructor; [|done].
      rewrite Forall_forall in Hx. intros [_ []]%Hx. apply (reflexivity (R := R)).
    + intros [k v]. by rewrite elem_of_entries, Hl.
Qed.
End Entries.

(** ** Orders *)

#[global] Instance Z_le_total_order : TotalOrder Z.le.
Proof.
  split; [apply _|]. intros x y. unfold trichotomyT, strict.
  destruct (Z.lt_trichotomy x y) as [|[|]]; [left|right;left|right;right]; lia.
Qed.

Section Lex.
Context {A B : Type} (RA : relation A) (RB : relation B).

(** Lexicographic order: [derive(PartialOrd, Ord)] of a pair, [cmp().then_with()]. *)
Definition lex_le (x y : A * B) : Prop := strict RA x.1 y.1 \/ (x.1 = y.1 /\ RB x.2 y.2).

#[global] Instance lex_le_dec `{EqDecision A, !RelDecision RA, !RelDecision RB} : RelDecision lex_le.
Proof. intros x y. unfold lex_le, strict. apply _. Defined.

#[global] Instance lex_le_total `{!TotalOrder RA, !TotalOrder RB} : TotalOrder lex_le.
Proof.
  split; [split; [split|]|].
  - intros [a b]. right. split; [done|]. cbn. apply (reflexivity (R := RB)).
  - intros [a b] [a' b'] [a'' b''] [H1|[H1 H1']] [H2|[H2 H2']]; cbn in *; subst.
    + left. cbn. by etrans.
    + by left.
    + by left.
    + right. cbn. split; [done|]. by etrans.
  - intros [a b] [a' b'] [H1|[H1 H1']] [H2|[H2 H2']]; cbn in *; subst; try done.
    + destruct H1 as [H1 H1'], H2 as [H2 H2']. done.
    + by destruct H1 as [H1 H1'].
    + by destruct H2 as [H2 H2'].
    + f_equal. by apply (anti_symm RB).
  - intros [a b] [a' b']. unfold trichotomyT, strict, lex_le. cbn.
    destruct (trichotomy (strict RA) a a') as [Ha|[->|Ha]].
    + left. split; [by left|]. intros [Hb|[-> _]]; destruct Ha; [by destruct Hb|done].
    + destruct (trichotomy (strict RB) b b') as [[Hb Hb']|[->|[Hb Hb']]].
      * left. split; [by right|]. intros [[??]|[_ ?]]; done.
      * by right; left.
      * right; right. split; [by right|]. intros [[??]|[_ ?]]; done.
    + right; right. split; [by left|]. intros [Hb|[-> _]]; destruct Ha; [by destruct Hb|done].
Qed.
End Lex.

(** The reverse order. *)
Definition rev_le {A} (R : relation A) (x y : A) : Prop := R y x.
#[global] Instance rev_le_total {A} (R : relation A) `{!TotalOrder R} : TotalOrder (rev_le R).
Proof.
  split; [split; [split|]|]; unfold rev_le.
  - intros x. apply (reflexivity (R := R)).
  - intros x y z H1 H2. by etrans.
  - intros x y H1 H2. by apply (anti_symm R).
  - intros x y. unfold trichotomyT, strict.
    destruct (trichotomy (strict R) x y) as [[]|[->|[]]]; auto.
Qed.
#[global] Instance rev_le_dec {A} (R : relation A) `{!RelDecision R} : RelDecision (rev_le R).
Proof. intros x y. unfold rev_le. apply _. Defined.

(** [None] is below every [Some]. *)
Definition opt_le {A} (R : relation A) (x y : option A) : Prop :=
  match x, y with
  | None, _ => True
  | Some _, None => False
  | Some a, Some b => R a b
  end.
#[global] Instance opt_le_dec {A} (R : relation A) `{!RelDecision R} : RelDecision (opt_le R).
Proof. intros [a|] [b|]; cbn; apply _. Defined.
#[global] Instance opt_le_total {A} (R : relation A) `{!TotalOrder R} : TotalOrder (opt_le R).
Proof.
  split; [split; [split|]|].
  - intros [a|]; cbn; [apply (reflexivity (R := R))|done].
  - intros [a|] [b|] [c|]; cbn; try done. intros ??; by etrans.
  - intros [a|] [b|]; cbn; try done. intros ??. f_equal. by apply (anti_symm R).
  - intros [a|] [b|]; unfold trichotomyT, strict; cbn; [|right;right;by split;auto|left; by split; auto|by right; left].
    destruct (trichotomy (strict R) a b) as [[]|[->|[]]]; auto.
Qed.

(** The order of a struct that compares by its fields. *)
Definition pre_le {A B} (f : A -> B) (R : relation B) (x y : A) : Prop := R (f x) (f y).
#[global] Instance pre_le_dec {A B} (f : A -> B) (R : relation B) `{!RelDecision R} :
  RelDecision (pre_le f R).
Proof. intros x y. unfold pre_le. apply _. Defined.
Lemma pre_le_total {A B} (f : A -> B) (R : relation B) `{!TotalOrder R} :
  Inj (=) (=) f -> TotalOrder (pre_le f R).
Proof.
  intros Hf. split; [split; [split|]|]; unfold pre_le.
  - intros x. apply (reflexivity (R := R)).
  - intros x y z ??. by etrans.
  - intros x y ??. apply Hf. by apply (anti_symm R).
  - intros x y. unfold trichotomyT, strict.
    destruct (trichotomy (strict R) (f x) (f y)) as [[]|[E|[]]]; auto.
Qed.

#[global] Typeclasses Opaque rev_le lex_le opt_le pre_le.
