(* ===== verification/PoolTypes.v ===== *)
(** * Transaction pool: identifiers, states, limits and transactions

    crates/transaction-pool/src: identifier.rs, config.rs, pool/state.rs,
    pool/size.rs, pool/update.rs, the transaction types of traits.rs and
    validate.rs, and the error types of error.rs. *)
From S2P Require Import Prelude BTree.

(** ** identifier.rs *)

Abbreviation Address := Z.
Abbreviation TxHash := Z.
Abbreviation SenderId := Z.

Record TransactionId := mkTransactionId { id_sender : SenderId; id_nonce : Z }.

#[global] Instance TransactionId_eq_dec : EqDecision TransactionId.
Proof. solve_decision. Defined.
Definition id_pair (i : TransactionId) : Z * Z := (id_sender i, id_nonce i).
#[global] Instance TransactionId_countable : Countable TransactionId.
Proof. apply (inj_countable' id_pair (fun '(s, n) => mkTransactionId s n)). by intros []. Defined.

(** [derive(PartialOrd, Ord)]: by sender, then by nonce. *)
Definition id_le : relation TransactionId := pre_le id_pair (lex_le Z.le Z.le).
#[global] Instance id_le_dec : RelDecision id_le.
Proof. unfold id_le. apply _. Defined.
#[global] Instance id_le_total : TotalOrder id_le.
Proof. apply (pre_le_total id_pair (lex_le Z.le Z.le)). by intros [??] [??] [= -> ->]. Qed.

(** [TransactionId::ancestor] *)
Definition TransactionId_ancestor (transaction_nonce on_chain_nonce : Z) (sender : SenderId)
    : option TransactionId :=
  if transaction_nonce =? on_chain_nonce then None
  else
    let prev_nonce := saturating_sub transaction_nonce 1 in
    if on_chain_nonce <=? prev_nonce then Some (mkTransactionId sender prev_nonce) else None.

Definition unchecked_ancestor (i : TransactionId) : option TransactionId :=
  if id_nonce i =? 0 then None else Some (mkTransactionId (id_sender i) (id_nonce i - 1)).

Definition next_nonce (i : TransactionId) : Z := wadd 64 (id_nonce i) 1.
Definition descendant (i : TransactionId) : TransactionId :=
  mkTransactionId (id_sender i) (wadd 64 (id_nonce i) 1).

Record SenderIdentifiers := mkSenderIdentifiers {
  si_id : Z;
  address_to_id : gmap Address SenderId;
  sender_to_address : gmap SenderId Address
}.

Definition SenderIdentifiers_default : SenderIdentifiers := mkSenderIdentifiers 0 ∅ ∅.

Definition SenderIdentifiers_address (s : SenderIdentifiers) (i : SenderId) : option Address :=
  sender_to_address s !! i.

Definition SenderIdentifiers_sender_id (s : SenderIdentifiers) (addr : Address) : option SenderId :=
  address_to_id s !! addr.

Definition SenderIdentifiers_next_id (s : SenderIdentifiers) : SenderId * SenderIdentifiers :=
  (si_id s, mkSenderIdentifiers (wadd 64 (si_id s) 1) (address_to_id s) (sender_to_address s)).

Definition sender_id_or_create (s : SenderIdentifiers) (addr : Address)
    : SenderId * SenderIdentifiers :=
  match SenderIdentifiers_sender_id s addr with
  | Some i => (i, s)
  | None =>
      let '(i, s) := SenderIdentifiers_next_id s in
      (i, mkSenderIdentifiers (si_id s) (<[addr:=i]> (address_to_id s))
            (<[i:=addr]> (sender_to_address s)))
  end.

(** ** config.rs *)

Definition MAX_ACCOUNT_SLOTS_PER_SENDER : Z := 16.

Record SubPoolLimit := mkSubPoolLimit { max_txs : Z; max_size : Z }.

Definition SubPoolLimit_default : SubPoolLimit := mkSubPoolLimit 10000 (20 * 1024 * 1024).

Definition is_exceeded (l : SubPoolLimit) (txs size : Z) : bool :=
  (max_txs l <? txs) || (max_size l <? size).

Record PoolConfig := mkPoolConfig {
  pending_limit : SubPoolLimit;
  basefee_limit : SubPoolLimit;
  queued_limit : SubPoolLimit;
  cfg_max_account_slots : Z
}.

Definition PoolConfig_default : PoolConfig :=
  mkPoolConfig SubPoolLimit_default SubPoolLimit_default SubPoolLimit_default
    MAX_ACCOUNT_SLOTS_PER_SENDER.

(** ** pool/state.rs: [bitflags TxState: u8] *)

Definition NO_PARKED_ANCESTORS : Z := 0x20.
Definition NO_NONCE_GAPS : Z := 0x10.
Definition ENOUGH_BALANCE : Z := 0x8.
Definition NOT_TOO_MUCH_GAS : Z := 0x4.
Definition ENOUGH_FEE_CAP_BLOCK : Z := 0x2.
Definition PENDING_POOL_BITS : Z :=
  Z.lor (Z.lor (Z.lor (Z.lor NO_PARKED_ANCESTORS NO_NONCE_GAPS) ENOUGH_BALANCE)
           NOT_TOO_MUCH_GAS) ENOUGH_FEE_CAP_BLOCK.
Definition BASE_FEE_POOL_BITS : Z :=
  Z.lor (Z.lor (Z.lor NO_PARKED_ANCESTORS NO_NONCE_GAPS) ENOUGH_BALANCE) NOT_TOO_MUCH_GAS.

Definition st_insert (s flag : Z) : Z := Z.lor s flag.
Definition st_remove (s flag : Z) : Z := Z.land s (Z.lnot flag).
Definition st_intersects (s flag : Z) : bool := negb (Z.land s flag =? 0).

Definition is_pending (s : Z) : bool := PENDING_POOL_BITS <=? s.
Definition has_enough_fee_cap (s : Z) : bool := st_intersects s ENOUGH_FEE_CAP_BLOCK.
Definition has_nonce_gap (s : Z) : bool := negb (st_intersects s NO_NONCE_GAPS).

Inductive SubPool := Queued | Pending | BaseFee.
#[global] Instance SubPool_eq_dec : EqDecision SubPool.
Proof. solve_decision. Defined.

Definition SubPool_is_pending (p : SubPool) : bool :=
  match p with Pending => true | _ => false end.

(** [From<TxState> for SubPool] *)
Definition subpool_of (value : Z) : SubPool :=
  if is_pending value then Pending
  else if value <? BASE_FEE_POOL_BITS then Queued
  else BaseFee.

(** ** pool/size.rs: [SizeTracker(isize)] *)

Definition swrap (w z : Z) : Z := (z + 2 ^ (w - 1)) mod 2 ^ w - 2 ^ (w - 1).
Definition size_add (t rhs : Z) : Z := swrap 64 (t + swrap 64 rhs).
Definition size_sub (t rhs : Z) : Z := swrap 64 (t - swrap 64 rhs).
Definition size_to_usize (t : Z) : Z := wrap 64 t.

(** ** pool/update.rs *)

Inductive Destination := Discard | ToPool (p : SubPool).

Record PoolUpdate := mkPoolUpdate {
  up_id : TransactionId;
  up_hash : TxHash;
  up_current : SubPool;
  up_destination : Destination
}.

(** ** traits.rs, validate.rs: transactions *)

Inductive TransactionOrigin := Local | External.

Definition is_local (o : TransactionOrigin) : bool :=
  match o with Local => true | External => false end.

(** The getters of the trait [PoolTransaction]. *)
Record PoolTransaction := mkPoolTransaction {
  tx_hash : TxHash;
  tx_sender : Address;
  tx_nonce : Z;
  tx_cost : Z;
  effective_gas_price : Z;
  gas_limit : Z;
  max_fee_per_gas : option Z;
  max_priority_fee_per_gas : option Z;
  is_create : bool;
  tx_size : Z;
  tx_type : Z;
  tx_encoded_length : Z;
  tx_chain_id : option Z
}.

Record ValidPoolTransaction := mkValidPoolTransaction {
  transaction : PoolTransaction;
  transaction_id : TransactionId;
  propagate : bool;
  v_cost : Z;
  timestamp : Z;
  origin : TransactionOrigin;
  encoded_length : Z
}.

Definition v_hash (t : ValidPoolTransaction) : TxHash := tx_hash (transaction t).
Definition v_sender (t : ValidPoolTransaction) : Address := tx_sender (transaction t).
Definition v_sender_id (t : ValidPoolTransaction) : SenderId := id_sender (transaction_id t).
Definition v_nonce (t : ValidPoolTransaction) : Z := tx_nonce (transaction t).
Definition v_max_fee_per_gas (t : ValidPoolTransaction) : option Z := max_fee_per_gas (transaction t).
Definition v_gas_limit (t : ValidPoolTransaction) : Z := gas_limit (transaction t).
Definition v_size (t : ValidPoolTransaction) : Z := tx_size (transaction t).

(** Whether [t] does not pay more than the transaction it would replace. *)
Definition is_underpriced (t other : ValidPoolTransaction) : bool :=
  effective_gas_price (transaction t) <=? effective_gas_price (transaction other).

(** ** error.rs *)

Inductive InvalidTransactionError :=
| PriorityFeeMoreThenMaxFee
| InsufficientFunds (max_fee available_funds : Z)
| NonceNotConsistent
| OldLegacyChainId
| ChainIdMismatch
| MaxFeeLessThenBaseFee
| Eip2930Disabled
| Eip1559Disabled
| GasUintOverflow
| GasTooLow
| GasTooHigh
| TxTypeNotSupported
| TipAboveFeeCap
| FeeCapTooLow
| SignerAccountHasBytecode.

Inductive InvalidPoolTransactionError :=
| ConsensusInvalid (e : InvalidTransactionError)
| ExceedsGasLimit (a b : Z)
| ExceedsMaxInitCodeSize (a b : Z)
| AccountNotFound
| OversizedData (a b : Z).

Inductive PoolError :=
| ReplacementUnderpriced (h : TxHash)
| ProtocolFeeCapTooLow (h : TxHash) (fee_cap : Z)
| SpammerExceededCapacity (a : Address) (h : TxHash)
| DiscardedOnInsert (h : TxHash)
| InvalidTransaction (h : TxHash) (e : InvalidPoolTransactionError)
| Other (h : TxHash).

Definition PoolError_hash (e : PoolError) : TxHash :=
  match e with
  | ReplacementUnderpriced h | ProtocolFeeCapTooLow h _ | SpammerExceededCapacity _ h
  | DiscardedOnInsert h | InvalidTransaction h _ | Other h => h
  end.

(** ** Lemmas *)

(** A state uses only the five declared bits. *)
Definition valid_state (s : Z) : Prop := 0 <= s < 64 /\ Z.testbit s 0 = false.

(** Decide a property of all valid states by checking each of them. *)
Definition all_states (P : Z -> bool) : bool :=
  forallb (fun s => Z.testbit s 0 || P s) (seqZ 0 64).

Lemma all_states_correct (P : Z -> bool) :
  all_states P = true -> forall s, valid_state s -> P s = true.
Proof.
  unfold all_states. intros H s [Hs Hb].
  assert (Hin : In s (seqZ 0 64)) by (apply list_elem_of_In, elem_of_seqZ; lia).
  pose proof (proj1 (forallb_forall _ _) H s Hin) as Hp. cbv beta in Hp. by rewrite Hb in Hp.
Qed.

Lemma valid_state_insert s f : valid_state s -> valid_state f -> valid_state (st_insert s f).
Proof.
  intros [Hs Hb] [Hf Hc]. unfold st_insert. split; [|by rewrite Z.lor_spec, Hb, Hc].
  assert (H0 : 0 <= Z.lor s f) by (apply Z.lor_nonneg; lia). split; [done|].
  destruct (Z.eq_dec (Z.lor s f) 0) as [->|]; [lia|].
  change 64 with (2 ^ 6). apply Z.log2_lt_pow2; [lia|]. rewrite Z.log2_lor by lia.
  assert (forall z, 0 <= z < 64 -> Z.log2 z < 6).
  { intros z Hz. destruct (Z.eq_dec z 0) as [->|]; [cbn; lia|]. apply Z.log2_lt_pow2; [lia|].
    change (2 ^ 6) with 64. lia. }
  apply Z.max_lub_lt; auto.
Qed.

Lemma valid_state_remove s f : valid_state s -> 0 <= f -> valid_state (st_remove s f).
Proof.
  intros [Hs Hb] Hf. unfold st_remove. split; [|by rewrite Z.land_spec, Hb].
  rewrite <- Z.ldiff_land. split; [apply Z.ldiff_nonneg; lia|].
  apply Z.le_lt_trans with s; [|lia]. apply Z.ldiff_le; [lia|].
  apply Z.bits_inj'. intros n _. rewrite !Z.ldiff_spec, Z.bits_0.
  by destruct (Z.testbit s n), (Z.testbit f n).
Qed.

Lemma valid_state_0 : valid_state 0.
Proof. split; [lia|done]. Qed.

#[export] Hint Resolve valid_state_insert valid_state_remove valid_state_0 : pool.

(** ** Sizes *)

Lemma swrap_small z : - 2 ^ 63 <= z < 2 ^ 63 -> swrap 64 z = z.
Proof. intros Hz. unfold swrap. change (64 - 1) with 63. rewrite Z.mod_small; lia. Qed.

Lemma size_add_small a b : 0 <= a -> 0 <= b -> a + b < 2 ^ 63 -> size_add a b = a + b.
Proof. intros. unfold size_add. rewrite (swrap_small b) by lia. apply swrap_small; lia. Qed.

Lemma size_sub_small a b : 0 <= b <= a -> a < 2 ^ 63 -> size_sub a b = a - b.
Proof. intros. unfold size_sub. rewrite (swrap_small b) by lia. apply swrap_small; lia. Qed.

(** Ancestors and descendants are inverse below the last nonce. *)
Lemma descendant_ancestor i :
  0 <= id_nonce i < u64_max -> unchecked_ancestor (descendant i) = Some i.
Proof.
  destruct i as [s n]. unfold unchecked_ancestor, descendant, u64_max. cbn. intros Hn.
  rewrite wadd_small by (unfold in_u; lia). zdec. by rewrite Z.add_simpl_r.
Qed.

Lemma ancestor_descendant i a :
  0 <= id_nonce i < u64_max -> unchecked_ancestor i = Some a -> descendant a = i /\ 0 <= id_nonce a < u64_max.
Proof.
  destruct i as [s n]. unfold unchecked_ancestor, descendant, u64_max. cbn. intros Hn.
  destruct (Z.eqb_spec n 0); [done|]. intros [= <-]. cbn.
  rewrite wadd_small by (unfold in_u; lia). by rewrite Z.sub_add by lia; split; [|lia].
Qed.

(** A transaction of sender [s] for examples. *)
Definition sample_tx (s nonce hash cost price : Z) : ValidPoolTransaction :=
  mkValidPoolTransaction
    (mkPoolTransaction hash (1000 + s) nonce cost price 21000 (Some price) None false 100 2 110 (Some 1))
    (mkTransactionId s nonce) true cost 0 External 110.
