(* ===== verification/SubPools.v ===== *)
(** * Transaction pool: the parked and pending sub-pools and the best iterator

    crates/transaction-pool/src/pool: parked.rs ([ParkedPool] with the two
    orders [BasefeeOrd] and [QueuedOrd]), pending.rs ([PendingPool]) and best.rs
    ([BestTransactions]).  A [BTreeSet] of transactions is keyed by what its
    [Ord] compares: the order value and, reversed, the submission id. *)
From S2P Require Import Prelude BTree PoolTypes.

(** ** parked.rs *)

Record ParkedPoolTransaction := mkParkedPoolTransaction {
  pk_submission_id : Z;
  pk_transaction : ValidPoolTransaction
}.

(** The trait [ParkedOrd]: the value a transaction is compared by. *)
Record ParkedOrd (O : Type) := mkParkedOrd {
  ord_key : ValidPoolTransaction -> O;
  ord_le : relation O
}.
Arguments mkParkedOrd {O} _ _.
Arguments ord_key {O} _ _.
Arguments ord_le {O} _ _ _.

(** [BasefeeOrd]: by fee cap, a transaction without one being the lowest. *)
Definition BasefeeOrd : ParkedOrd (option Z) :=
  mkParkedOrd v_max_fee_per_gas (opt_le Z.le).
(** [QueuedOrd]: higher cost is better, then the lower timestamp. *)
Definition QueuedOrd : ParkedOrd (Z * Z) :=
  mkParkedOrd (fun t => (v_cost t, timestamp t)) (lex_le Z.le (rev_le Z.le)).

#[global] Instance BasefeeOrd_dec : RelDecision (ord_le BasefeeOrd).
Proof. cbn. apply _. Defined.
#[global] Instance BasefeeOrd_total : TotalOrder (ord_le BasefeeOrd).
Proof. cbn. apply _. Qed.
#[global] Instance QueuedOrd_dec : RelDecision (ord_le QueuedOrd).
Proof. cbn. apply _. Defined.
#[global] Instance QueuedOrd_total : TotalOrder (ord_le QueuedOrd).
Proof. cbn. apply _. Qed.

Record ParkedPool (O : Type) `{Countable O} := mkParkedPool {
  pk_next_id : Z;
  pk_by_id : gmap TransactionId ParkedPoolTransaction;
  pk_best : gmap (O * Z) ParkedPoolTransaction;
  pk_size_of : Z
}.
Arguments mkParkedPool {O _ _} _ _ _ _.
Arguments pk_next_id {O _ _} _.
Arguments pk_by_id {O _ _} _.
Arguments pk_best {O _ _} _.
Arguments pk_size_of {O _ _} _.

Section Parked.
Context {O : Type} `{Countable O} (o : ParkedOrd O).
Context `{!RelDecision (ord_le o)} `{!TotalOrder (ord_le o)}.

(** [Ord for ParkedPoolTransaction] *)
Definition parked_key (t : ParkedPoolTransaction) : O * Z :=
  (ord_key o (pk_transaction t), pk_submission_id t).
Definition parked_le : relation (O * Z) := lex_le (ord_le o) (rev_le Z.le).

Definition ParkedPool_default : ParkedPool O := mkParkedPool 0 ∅ ∅ 0.

Definition parked_next_id (p : ParkedPool O) : Z * ParkedPool O :=
  (pk_next_id p,
   mkParkedPool (wadd 64 (pk_next_id p) 1) (pk_by_id p) (pk_best p) (pk_size_of p)).

Definition parked_add_transaction {E} (p : ParkedPool O) (tx : ValidPoolTransaction)
    : outcome E (ParkedPool O) :=
  let id := transaction_id tx in
  match pk_by_id p !! id with
  | Some _ => Panic
  | None =>
      let '(submission_id, p) := parked_next_id p in
      let t := mkParkedPoolTransaction submission_id tx in
      Ok (mkParkedPool (pk_next_id p) (<[id:=t]> (pk_by_id p))
            (bset_insert (parked_key t) t (pk_best p)) (size_add (pk_size_of p) (v_size tx)))
  end.

Definition parked_remove_transaction (p : ParkedPool O) (id : TransactionId)
    : option ValidPoolTransaction * ParkedPool O :=
  match pk_by_id p !! id with
  | None => (None, p)
  | Some t =>
      (Some (pk_transaction t),
       mkParkedPool (pk_next_id p) (delete id (pk_by_id p))
         (delete (parked_key t) (pk_best p)) (size_sub (pk_size_of p) (v_size (pk_transaction t))))
  end.

Definition parked_pop_worst (p : ParkedPool O) : option ValidPoolTransaction * ParkedPool O :=
  match first_key_value parked_le (pk_best p) with
  | None => (None, p)
  | Some (_, t) => parked_remove_transaction p (transaction_id (pk_transaction t))
  end.

Definition parked_size (p : ParkedPool O) : Z := size_to_usize (pk_size_of p).
Definition parked_len (p : ParkedPool O) : Z := Z.of_nat (size (pk_by_id p)).
End Parked.

(** ** pending.rs *)

(** The trait [TransactionOrdering]: the priority of a transaction. *)
Record TransactionOrdering (P : Type) := mkTransactionOrdering {
  priority_of : PoolTransaction -> P;
  priority_le : relation P
}.
Arguments mkTransactionOrdering {P} _ _.
Arguments priority_of {P} _ _.
Arguments priority_le {P} _ _ _.

(** [CostOrdering], the default. *)
Definition CostOrdering : TransactionOrdering Z := mkTransactionOrdering tx_cost Z.le.

#[global] Instance CostOrdering_dec : RelDecision (priority_le CostOrdering).
Proof. cbn. apply _. Defined.
#[global] Instance CostOrdering_total : TotalOrder (priority_le CostOrdering).
Proof. cbn. apply _. Qed.

Record PendingTransactionRef (P : Type) := mkPendingTransactionRef {
  pd_submission_id : Z;
  pd_transaction : ValidPoolTransaction;
  pd_priority : P
}.
Arguments mkPendingTransactionRef {P} _ _ _.
Arguments pd_submission_id {P} _.
Arguments pd_transaction {P} _.
Arguments pd_priority {P} _.

Record PendingPool (P : Type) `{Countable P} := mkPendingPool {
  pd_next_id : Z;
  pd_by_id : gmap TransactionId (PendingTransactionRef P);
  pd_all : gmap (P * Z) (PendingTransactionRef P);
  pd_independent : gmap (P * Z) (PendingTransactionRef P);
  pd_size_of : Z
}.
Arguments mkPendingPool {P _ _} _ _ _ _ _.
Arguments pd_next_id {P _ _} _.
Arguments pd_by_id {P _ _} _.
Arguments pd_all {P _ _} _.
Arguments pd_independent {P _ _} _.
Arguments pd_size_of {P _ _} _.

Record BestTransactions (P : Type) `{Countable P} := mkBestTransactions {
  b_all : gmap TransactionId (PendingTransactionRef P);
  b_independent : gmap (P * Z) (PendingTransactionRef P);
  b_invalid : gset TxHash
}.
Arguments mkBestTransactions {P _ _} _ _ _.
Arguments b_all {P _ _} _.
Arguments b_independent {P _ _} _.
Arguments b_invalid {P _ _} _.

Section Pending.
Context {P : Type} `{Countable P} (ordering : TransactionOrdering P).
Context `{!RelDecision (priority_le ordering)} `{!TotalOrder (priority_le ordering)}.

(** [Ord for PendingTransactionRef] *)
Definition pending_key (t : PendingTransactionRef P) : P * Z := (pd_priority t, pd_submission_id t).
Definition pending_le : relation (P * Z) := lex_le (priority_le ordering) (rev_le Z.le).

Definition pd_id (t : PendingTransactionRef P) : TransactionId := transaction_id (pd_transaction t).
Definition unlocks (t : PendingTransactionRef P) : TransactionId := descendant (pd_id t).

Definition PendingPool_new : PendingPool P := mkPendingPool 0 ∅ ∅ ∅ 0.

Definition pending_next_id (p : PendingPool P) : Z * PendingPool P :=
  (pd_next_id p, mkPendingPool (wadd 64 (pd_next_id p) 1) (pd_by_id p) (pd_all p)
                   (pd_independent p) (pd_size_of p)).

Definition pending_ancestor (p : PendingPool P) (id : TransactionId)
    : option (PendingTransactionRef P) :=
  a ← unchecked_ancestor id; pd_by_id p !! a.

Definition pending_best (p : PendingPool P) : BestTransactions P :=
  mkBestTransactions (pd_by_id p) (pd_independent p) ∅.

Definition pending_add_transaction {E} (p : PendingPool P) (tx : ValidPoolTransaction)
    : outcome E (PendingPool P) :=
  let tx_id := transaction_id tx in
  match pd_by_id p !! tx_id with
  | Some _ => Panic
  | None =>
      let '(submission_id, p) := pending_next_id p in
      let t := mkPendingTransactionRef submission_id tx (priority_of ordering (transaction tx)) in
      let independent :=
        match pending_ancestor p tx_id with
        | None => bset_insert (pending_key t) t (pd_independent p)
        | Some _ => pd_independent p
        end in
      Ok (mkPendingPool (pd_next_id p) (<[tx_id:=t]> (pd_by_id p))
            (bset_insert (pending_key t) t (pd_all p)) independent
            (size_add (pd_size_of p) (v_size tx)))
  end.

Definition pending_remove_transaction (p : PendingPool P) (id : TransactionId)
    : option ValidPoolTransaction * PendingPool P :=
  match pd_by_id p !! id with
  | None => (None, p)
  | Some t =>
      (Some (pd_transaction t),
       mkPendingPool (pd_next_id p) (delete id (pd_by_id p)) (delete (pending_key t) (pd_all p))
         (delete (pending_key t) (pd_independent p))
         (size_sub (pd_size_of p) (v_size (pd_transaction t))))
  end.

Definition pending_remove_mined (p : PendingPool P) (id : TransactionId)
    : option ValidPoolTransaction * PendingPool P :=
  let p :=
    match pd_by_id p !! descendant id with
    | Some unlocked =>
        mkPendingPool (pd_next_id p) (pd_by_id p) (pd_all p)
          (bset_insert (pending_key unlocked) unlocked (pd_independent p)) (pd_size_of p)
    | None => p
    end in
  pending_remove_transaction p id.

Definition pending_pop_worst (p : PendingPool P) : option ValidPoolTransaction * PendingPool P :=
  match last_key_value pending_le (pd_all p) with
  | None => (None, p)
  | Some (_, t) => pending_remove_transaction p (pd_id t)
  end.

Definition pending_size (p : PendingPool P) : Z := size_to_usize (pd_size_of p).
Definition pending_len (p : PendingPool P) : Z := Z.of_nat (size (pd_by_id p)).

(** *** best.rs *)

Definition mark_invalid (b : BestTransactions P) (tx : ValidPoolTransaction) : BestTransactions P :=
  mkBestTransactions (b_all b) (b_independent b) ({[v_hash tx]} ∪ b_invalid b).

(** [Iterator::next]; [fuel] bounds the loop that skips invalid transactions. *)
Fixpoint best_next_loop (fuel : nat) (b : BestTransactions P)
    : outcome Empty_set (option ValidPoolTransaction * BestTransactions P) :=
  match fuel with
  | O => Diverge
  | S fuel =>
      match last_key_value pending_le (b_independent b) with
      | None => Ok (None, b)
      | Some (k, best) =>
          let b := mkBestTransactions (b_all b) (delete k (b_independent b)) (b_invalid b) in
          if decide (v_hash (pd_transaction best) ∈ b_invalid b) then best_next_loop fuel b
          else
            let b :=
              match b_all b !! unlocks best with
              | Some unlocked =>
                  mkBestTransactions (b_all b)
                    (bset_insert (pending_key unlocked) unlocked (b_independent b)) (b_invalid b)
              | None => b
              end in
            Ok (Some (pd_transaction best), b)
      end
  end.

Definition best_next (b : BestTransactions P)
    : outcome Empty_set (option ValidPoolTransaction * BestTransactions P) :=
  best_next_loop (S (size (b_independent b))) b.

(** The transactions a consumer that never marks one invalid receives. *)
Fixpoint best_drain (fuel : nat) (b : BestTransactions P)
    : outcome Empty_set (list ValidPoolTransaction) :=
  match fuel with
  | O => Diverge
  | S fuel =>
      match best_next b with
      | Ok (None, _) => Ok []
      | Ok (Some tx, b) => txs ← best_drain fuel b; Ok (tx :: txs)
      | Err e => Err e
      | Panic => Panic
      | Diverge => Diverge
      end
  end.
End Pending.

(** ** Two indices over one set of transactions

    [mirrors] says that a map by id and an ordered set hold the same
    transactions; both sub-pools maintain it. *)
Section Mirror.
Context {T KO : Type} `{Countable KO} (idof : T -> TransactionId) (keyof : T -> KO).

Definition mirrors (by_id : gmap TransactionId T) (ordered : gmap KO T) : Prop :=
  (forall id t, by_id !! id = Some t -> idof t = id) /\
  (forall k t, ordered !! k = Some t <-> k = keyof t /\ by_id !! idof t = Some t).

Lemma mirrors_empty : mirrors ∅ ∅.
Proof.
  split; [intros ??; by rewrite lookup_empty|]. intros k t. rewrite !lookup_empty.
  split; [done|]. by intros [_ ?].
Qed.

Lemma mirrors_insert by_id ordered t :
  mirrors by_id ordered -> by_id !! idof t = None -> ordered !! keyof t = None ->
  mirrors (<[idof t:=t]> by_id) (bset_insert (keyof t) t ordered).
Proof.
  intros [H1 H2] Hid Hk. rewrite bset_insert_fresh by done. split.
  - intros id u. rewrite lookup_insert. case_decide; [by intros [= <-]|apply H1].
  - intros k u. rewrite !lookup_insert. split.
    + case_decide as Hd; [intros [= <-]|intros Hu].
      * by rewrite decide_True.
      * apply H2 in Hu as [-> Hu]. split; [done|]. case_decide as Hi; [|done].
        by rewrite <- Hi, Hid in Hu.
    + intros [-> Hu]. case_decide as Hi; [injection Hu as ->; by rewrite decide_True|].
      assert (Hu' : ordered !! keyof u = Some u) by (by apply H2).
      rewrite decide_False; [done|]. intros E. by rewrite <- E, Hk in Hu'.
Qed.

Lemma mirrors_delete by_id ordered t :
  mirrors by_id ordered -> by_id !! idof t = Some t ->
  mirrors (delete (idof t) by_id) (delete (keyof t) ordered).
Proof.
  intros [H1 H2] Ht. split.
  - intros id u Hu. apply lookup_delete_Some in Hu as [_ Hu]. by apply H1.
  - intros k u. rewrite !lookup_delete_Some, H2. split.
    + intros (Hne & -> & Hu). split_and!; [done| |done]. intros E. rewrite E, Hu in Ht.
      by injection Ht as ->.
    + intros (-> & Hne & Hu). split_and!; [|done|done]. intros E.
      assert (Hk : ordered !! keyof t = Some t) by (by apply H2).
      rewrite E in Hk. apply H2 in Hk as [_ Hk].
      assert (Hk' : ordered !! keyof u = Some u) by (by apply H2).
      rewrite <- E in Hk'. assert (ordered !! keyof t = Some t) as E' by (by apply H2).
      rewrite E' in Hk'. by injection Hk' as ->.
Qed.
End Mirror.

(** ** The parked pool *)

Section ParkedProofs.
Context {O : Type} `{Countable O} (o : ParkedOrd O).
Context `{!RelDecision (ord_le o)} `{!TotalOrder (ord_le o)}.
Implicit Types p : ParkedPool O.

Definition parked_id (t : ParkedPoolTransaction) : TransactionId := transaction_id (pk_transaction t).
Definition parked_tsize (t : ParkedPoolTransaction) : Z := v_size (pk_transaction t).

(** The invariant of parked.rs: [best] and [by_id] hold the same transactions,
    the size counter is their total size, and every submission id was handed
    out before the next one. *)
Record parked_inv p : Prop := {
  pki_mirror : mirrors parked_id (parked_key o) (pk_by_id p) (pk_best p);
  pki_sub id t : pk_by_id p !! id = Some t -> 0 <= pk_submission_id t < pk_next_id p;
  pki_next : 0 <= pk_next_id p;
  pki_sizes id t : pk_by_id p !! id = Some t -> 0 <= parked_tsize t;
  pki_size : pk_size_of p = msum parked_tsize (pk_by_id p);
  pki_bound : msum parked_tsize (pk_by_id p) < 2 ^ 63
}.

Lemma parked_inv_default : parked_inv ParkedPool_default.
Proof. split; cbn; try done. apply mirrors_empty. Qed.

(** Room for one more transaction: ids and sizes stay in range. *)
Definition parked_room p (tx : ValidPoolTransaction) : Prop :=
  pk_next_id p < u64_max /\ 0 <= v_size tx /\
  msum parked_tsize (pk_by_id p) + v_size tx < 2 ^ 63.

Lemma parked_add_ok {E} p tx :
  pk_by_id p !! transaction_id tx = None ->
  exists p', parked_add_transaction (E := E) o p tx = Ok p' /\
    pk_by_id p' = <[transaction_id tx := mkParkedPoolTransaction (pk_next_id p) tx]> (pk_by_id p).
Proof. intros Hid. unfold parked_add_transaction. rewrite Hid. cbn. by eexists. Qed.

Lemma parked_add_inv {E} p tx p' :
  parked_inv p -> parked_room p tx -> parked_add_transaction (E := E) o p tx = Ok p' -> parked_inv p'.
Proof.
  intros [Hm Hs Hn Hz Hsz Hb] (Hr1 & Hr2 & Hr3) Hadd. unfold parked_add_transaction in Hadd.
  destruct (pk_by_id p !! transaction_id tx) eqn:Hid; [done|]. injection Hadd as <-.
  unfold u64_max in Hr1. set (t := mkParkedPoolTransaction (pk_next_id p) tx).
  assert (Hfresh : pk_best p !! parked_key o t = None).
  { destruct (pk_best p !! parked_key o t) as [u|] eqn:Hu; [|done]. exfalso.
    apply Hm in Hu as [Hk Hu]. apply Hs in Hu. injection Hk as _ Hk. cbn in Hk. lia. }
  pose proof (msum_nonneg parked_tsize (pk_by_id p) Hz) as H0.
  split; cbn -[Z.pow].
  - by apply (mirrors_insert parked_id (parked_key o) _ _ t).
  - intros id u. rewrite wadd_small by (unfold in_u; lia). rewrite lookup_insert.
    case_decide; [intros [= <-]; cbn; lia|]. intros Hu. apply Hs in Hu. lia.
  - rewrite wadd_small by (unfold in_u; lia). lia.
  - intros id u. rewrite lookup_insert. case_decide; [by intros [= <-]|apply Hz].
  - rewrite msum_insert by done. rewrite Hsz. rewrite size_add_small by lia.
    unfold parked_tsize at 2. cbn. lia.
  - rewrite msum_insert by done. unfold parked_tsize at 1. cbn. lia.
Qed.

Lemma parked_remove_inv p id : parked_inv p -> parked_inv (parked_remove_transaction o p id).2.
Proof.
  intros [Hm Hs Hn Hz Hsz Hb]. unfold parked_remove_transaction.
  destruct (pk_by_id p !! id) as [t|] eqn:Hid; [|by split].
  assert (Hid' : parked_id t = id) by (by apply Hm).
  pose proof (Hz _ _ Hid) as H1.
  assert (H2 : 0 <= msum parked_tsize (delete id (pk_by_id p))).
  { apply msum_nonneg. intros k x Hk. apply lookup_delete_Some in Hk as [_ Hk]. by apply (Hz k). }
  rewrite (msum_delete _ _ _ _ Hid) in H2.
  split; cbn -[Z.pow].
  - rewrite <- Hid'. apply mirrors_delete; [done|]. by rewrite Hid'.
  - intros k x Hk. apply lookup_delete_Some in Hk as [_ Hk]. by apply (Hs k).
  - done.
  - intros k x Hk. apply lookup_delete_Some in Hk as [_ Hk]. by apply (Hz k).
  - rewrite (msum_delete _ _ _ _ Hid), Hsz. unfold parked_tsize in *. by rewrite size_sub_small by lia.
  - rewrite (msum_delete _ _ _ _ Hid). lia.
Qed.

(** The transactions of the pool, and what removal and insertion do to them. *)
Definition parked_txs p : gmap TransactionId ValidPoolTransaction := pk_transaction <$> pk_by_id p.

Lemma parked_remove_txs p id :
  parked_txs (parked_remove_transaction o p id).2 = delete id (parked_txs p) /\
  (parked_remove_transaction o p id).1 = parked_txs p !! id.
Proof.
  unfold parked_remove_transaction, parked_txs. rewrite lookup_fmap.
  destruct (pk_by_id p !! id) as [t|] eqn:E; cbn; [by rewrite fmap_delete|].
  by rewrite delete_id by (by rewrite lookup_fmap, E).
Qed.

Lemma parked_add_txs {E} p tx :
  parked_txs p !! transaction_id tx = None ->
  exists p', parked_add_transaction (E := E) o p tx = Ok p' /\
    parked_txs p' = <[transaction_id tx := tx]> (parked_txs p).
Proof.
  unfold parked_txs. rewrite lookup_fmap, fmap_None. intros Hid.
  destruct (parked_add_ok (E := E) p tx Hid) as (p' & E1 & E2). exists p'. split; [done|].
  by rewrite E2, fmap_insert.
Qed.

Lemma parked_add_panics {E} p tx :
  is_Some (parked_txs p !! transaction_id tx) -> parked_add_transaction (E := E) o p tx = Panic.
Proof.
  unfold parked_txs, parked_add_transaction. rewrite lookup_fmap. intros [x Hx].
  by destruct (pk_by_id p !! transaction_id tx).
Qed.

Lemma parked_pop_inv p : parked_inv p -> parked_inv (parked_pop_worst o p).2.
Proof.
  intros Hp. unfold parked_pop_worst.
  destruct (first_key_value _ _) as [[k t]|]; [by apply parked_remove_inv|done].
Qed.

(** Eviction from a parked sub-pool takes the worst transaction: the smallest
    in the sub-pool's order and, among equals, the one submitted last. *)
Theorem parked_pop_worst_min p tx p' :
  parked_inv p -> parked_pop_worst o p = (Some tx, p') ->
  pk_by_id p' = delete (transaction_id tx) (pk_by_id p) /\
  exists t, pk_by_id p !! transaction_id tx = Some t /\ pk_transaction t = tx /\
    forall id u, pk_by_id p !! id = Some u -> parked_le o (parked_key o t) (parked_key o u).
Proof.
  intros Hp Hpop. unfold parked_pop_worst in Hpop.
  destruct (first_key_value (parked_le o) (pk_best p)) as [[k t]|] eqn:Hf; [|done].
  apply (first_key_value_Some (parked_le o)) in Hf as [Hk Hmin].
  destruct Hp as [Hm _ _ _ _ _]. apply Hm in Hk as [-> Ht].
  unfold parked_remove_transaction in Hpop. change (transaction_id (pk_transaction t)) with (parked_id t) in Hpop.
  rewrite Ht in Hpop. injection Hpop as <- <-. cbn. split; [done|].
  exists t. split_and!; [done|done|]. intros id u Hu. apply (Hmin _ u).
  apply Hm. split; [done|]. assert (parked_id u = id) as -> by (by apply Hm). done.
Qed.

Lemma parked_pop_worst_nonempty p :
  parked_inv p -> pk_by_id p <> ∅ -> exists tx p', parked_pop_worst o p = (Some tx, p').
Proof.
  intros Hp Hne. unfold parked_pop_worst.
  destruct (first_key_value (parked_le o) (pk_best p)) as [[k t]|] eqn:Hf.
  - apply (first_key_value_Some (parked_le o)) in Hf as [Hk _]. apply Hp in Hk as [_ Ht].
    unfold parked_remove_transaction. change (transaction_id (pk_transaction t)) with (parked_id t).
    rewrite Ht. by do 2 eexists.
  - apply (first_key_value_None (parked_le o)) in Hf. exfalso. apply map_choose in Hne as (id & t & Ht).
    assert (Hb : pk_best p !! parked_key o t = Some t).
    { apply Hp. split; [done|]. assert (parked_id t = id) as -> by (by apply Hp). done. }
    by rewrite Hf, lookup_empty in Hb.
Qed.
End ParkedProofs.

(** ** The pending pool *)

Section PendingProofs.
Context {P : Type} `{Countable P} (ordering : TransactionOrdering P).
Context `{!RelDecision (priority_le ordering)} `{!TotalOrder (priority_le ordering)}.
Implicit Types p : PendingPool P.
Implicit Types t u : PendingTransactionRef P.

Definition pending_tsize t : Z := v_size (pd_transaction t).

(** The invariant of pending.rs: [all] and [by_id] hold the same transactions
    with their priorities, [independent_transactions] is a subset of them, and
    the size counter is their total size. *)
Record pending_inv p : Prop := {
  pdi_mirror : mirrors pd_id pending_key (pd_by_id p) (pd_all p);
  pdi_indep k t : pd_independent p !! k = Some t -> pd_all p !! k = Some t;
  pdi_priority id t : pd_by_id p !! id = Some t ->
    pd_priority t = priority_of ordering (transaction (pd_transaction t));
  pdi_sub id t : pd_by_id p !! id = Some t -> 0 <= pd_submission_id t < pd_next_id p;
  pdi_next : 0 <= pd_next_id p;
  pdi_sizes id t : pd_by_id p !! id = Some t -> 0 <= pending_tsize t;
  pdi_size : pd_size_of p = msum pending_tsize (pd_by_id p);
  pdi_bound : msum pending_tsize (pd_by_id p) < 2 ^ 63
}.

(** The independent transactions are exactly those without an ancestor in the
    pool: none that must wait, and none that is forgotten. *)
Definition independent_sound p : Prop :=
  forall k t, pd_independent p !! k = Some t -> pending_ancestor p (pd_id t) = None.
Definition independent_complete p : Prop :=
  forall id t, pd_by_id p !! id = Some t -> pending_ancestor p id = None ->
    pd_independent p !! pending_key t = Some t.
Definition nonces_ok (m : gmap TransactionId (PendingTransactionRef P)) : Prop :=
  forall id t, m !! id = Some t -> 0 <= id_nonce id < u64_max.

Lemma pending_inv_new : pending_inv PendingPool_new.
Proof. split; cbn; try done. apply mirrors_empty. Qed.

Definition pending_room p (tx : ValidPoolTransaction) : Prop :=
  pd_next_id p < u64_max /\ 0 <= v_size tx /\
  msum pending_tsize (pd_by_id p) + v_size tx < 2 ^ 63.

Lemma pending_add_ok {E} p tx :
  pd_by_id p !! transaction_id tx = None ->
  exists p', pending_add_transaction (E := E) ordering p tx = Ok p' /\
    pd_by_id p' = <[transaction_id tx :=
      mkPendingTransactionRef (pd_next_id p) tx (priority_of ordering (transaction tx))]> (pd_by_id p).
Proof. intros Hid. unfold pending_add_transaction. rewrite Hid. cbn. by eexists. Qed.

Lemma pending_key_fresh p pr :
  pending_inv p -> pd_all p !! (pr, pd_next_id p) = None.
Proof.
  intros Hp. destruct (pd_all p !! _) as [u|] eqn:Hu; [|done]. exfalso.
  apply (pdi_mirror _ Hp) in Hu as [Hk Hu]. apply (pdi_sub _ Hp) in Hu. injection Hk as _ Hk. lia.
Qed.

Lemma pending_add_inv {E} p tx p' :
  pending_inv p -> pending_room p tx ->
  pending_add_transaction (E := E) ordering p tx = Ok p' -> pending_inv p'.
Proof.
  intros Hp (Hr1 & Hr2 & Hr3) Hadd. unfold pending_add_transaction in Hadd.
  destruct (pd_by_id p !! transaction_id tx) eqn:Hid; [done|]. injection Hadd as <-.
  pose proof (pending_key_fresh p (priority_of ordering (transaction tx)) Hp) as Hfresh.
  destruct Hp as [Hm Hi Hpr Hs Hn Hz Hsz Hb]. unfold u64_max in Hr1.
  set (t := mkPendingTransactionRef (pd_next_id p) tx (priority_of ordering (transaction tx))).
  change (pd_all p !! pending_key t = None) in Hfresh.
  pose proof (msum_nonneg pending_tsize (pd_by_id p) Hz) as H0.
  assert (Hall : bset_insert (pending_key t) t (pd_all p) = <[pending_key t:=t]> (pd_all p))
    by (by apply bset_insert_fresh).
  split; cbn -[Z.pow].
  - by apply (mirrors_insert pd_id pending_key _ _ t).
  - intros k u. fold t. rewrite Hall. rewrite lookup_insert.
    assert (Hf : pd_independent p !! pending_key t = None).
    { destruct (pd_independent p !! pending_key t) as [v|] eqn:Hv; [|done]. by rewrite (Hi _ _ Hv) in Hfresh. }
    case_decide as Hd; [|].
    + rewrite <- Hd. destruct (pending_ancestor _ _); [congruence|].
      rewrite bset_insert_fresh by done. by rewrite lookup_insert_eq.
    + destruct (pending_ancestor _ _); [apply Hi|].
      rewrite bset_insert_fresh by done. rewrite lookup_insert_ne by done. apply Hi.
  - intros id u. rewrite lookup_insert. case_decide; [by intros [= <-]|apply Hpr].
  - intros id u. rewrite wadd_small by (unfold in_u; lia). rewrite lookup_insert.
    case_decide; [intros [= <-]; cbn; lia|]. intros Hu. apply Hs in Hu. lia.
  - rewrite wadd_small by (unfold in_u; lia). lia.
  - intros id u. rewrite lookup_insert. case_decide; [by intros [= <-]|apply Hz].
  - rewrite msum_insert by done. rewrite Hsz, size_add_small by lia.
    unfold pending_tsize at 2. cbn. lia.
  - rewrite msum_insert by done. unfold pending_tsize at 1. cbn. lia.
Qed.

Lemma pending_remove_inv p id : pending_inv p -> pending_inv (pending_remove_transaction p id).2.
Proof.
  intros Hp. pose proof Hp as [Hm Hi Hpr Hs Hn Hz Hsz Hb]. unfold pending_remove_transaction.
  destruct (pd_by_id p !! id) as [t|] eqn:Hid; [|done].
  assert (Hid' : pd_id t = id) by (by apply Hm).
  pose proof (Hz _ _ Hid) as H1.
  assert (H2 : 0 <= msum pending_tsize (delete id (pd_by_id p))).
  { apply msum_nonneg. intros k x Hk. apply lookup_delete_Some in Hk as [_ Hk]. by apply (Hz k). }
  rewrite (msum_delete _ _ _ _ Hid) in H2.
  split; cbn -[Z.pow].
  - rewrite <- Hid'. apply mirrors_delete; [done|]. by rewrite Hid'.
  - intros k u Hk. apply lookup_delete_Some in Hk as [Hne Hk]. apply lookup_delete_Some. auto.
  - intros k x Hk. apply lookup_delete_Some in Hk as [_ Hk]. by apply (Hpr k).
  - intros k x Hk. apply lookup_delete_Some in Hk as [_ Hk]. by apply (Hs k).
  - done.
  - intros k x Hk. apply lookup_delete_Some in Hk as [_ Hk]. by apply (Hz k).
  - rewrite (msum_delete _ _ _ _ Hid), Hsz. unfold pending_tsize in *. by rewrite size_sub_small by lia.
  - rewrite (msum_delete _ _ _ _ Hid). lia.
Qed.

Definition pending_txs p : gmap TransactionId ValidPoolTransaction := pd_transaction <$> pd_by_id p.

Lemma pending_remove_txs p id :
  pending_txs (pending_remove_transaction p id).2 = delete id (pending_txs p) /\
  (pending_remove_transaction p id).1 = pending_txs p !! id.
Proof.
  unfold pending_remove_transaction, pending_txs. rewrite lookup_fmap.
  destruct (pd_by_id p !! id) as [t|] eqn:E; cbn; [by rewrite fmap_delete|].
  by rewrite delete_id by (by rewrite lookup_fmap, E).
Qed.

Lemma pending_add_txs {E} p tx :
  pending_txs p !! transaction_id tx = None ->
  exists p', pending_add_transaction (E := E) ordering p tx = Ok p' /\
    pending_txs p' = <[transaction_id tx := tx]> (pending_txs p).
Proof.
  unfold pending_txs. rewrite lookup_fmap, fmap_None. intros Hid.
  destruct (pending_add_ok (E := E) p tx Hid) as (p' & E1 & E2). exists p'. split; [done|].
  by rewrite E2, fmap_insert.
Qed.

Lemma pending_add_panics {E} p tx :
  is_Some (pending_txs p !! transaction_id tx) -> pending_add_transaction (E := E) ordering p tx = Panic.
Proof.
  unfold pending_txs, pending_add_transaction. rewrite lookup_fmap. intros [x Hx].
  by destruct (pd_by_id p !! transaction_id tx).
Qed.

Lemma pending_pop_inv p : pending_inv p -> pending_inv (pending_pop_worst ordering p).2.
Proof.
  intros Hp. unfold pending_pop_worst.
  destruct (last_key_value _ _) as [[k t]|]; [by apply pending_remove_inv|done].
Qed.

(** Eviction from the pending sub-pool takes the best transaction:
    [pop_worst], documented to remove the worst one, returns the transaction of
    the highest priority. *)
Theorem pending_pop_worst_max p tx p' :
  pending_inv p -> pending_pop_worst ordering p = (Some tx, p') ->
  exists t, pd_by_id p !! transaction_id tx = Some t /\ pd_transaction t = tx /\
    forall id u, pd_by_id p !! id = Some u -> pending_le ordering (pending_key u) (pending_key t).
Proof.
  intros Hp Hpop. unfold pending_pop_worst in Hpop.
  destruct (last_key_value (pending_le ordering) (pd_all p)) as [[k t]|] eqn:Hf; [|done].
  apply (last_key_value_Some (pending_le ordering)) in Hf as [Hk Hmax].
  pose proof (pdi_mirror _ Hp) as Hm. apply Hm in Hk as [-> Ht].
  unfold pending_remove_transaction in Hpop. rewrite Ht in Hpop. injection Hpop as <- <-.
  exists t. split_and!; [done|done|]. intros id u Hu. apply (Hmax _ u).
  apply Hm. split; [done|]. assert (pd_id u = id) as -> by (by apply Hm). done.
Qed.
End PendingProofs.
