(* ===== verification/BestTxs.v ===== *)
(** * The iterator over the best transactions

    Correctness of [BestTransactions::next] (pool/best.rs, modelled in
    SubPools.v) on a pending pool: which transactions it yields, in which
    order, and that it stops. *)
From S2P Require Import Prelude BTree PoolTypes SubPools.

Section Best.
Context {P : Type} `{Countable P} (ordering : TransactionOrdering P).
Context `{!RelDecision (priority_le ordering)} `{!TotalOrder (priority_le ordering)}.
Implicit Types b : BestTransactions P.
Implicit Types t u : PendingTransactionRef P.
Implicit Types Y : gset TransactionId.

(** The iterator's own consistency. *)
Record best_wf b : Prop := {
  bw_id id t : b_all b !! id = Some t -> pd_id t = id;
  bw_key id id' t u : b_all b !! id = Some t -> b_all b !! id' = Some u ->
    pending_key t = pending_key u -> t = u;
  bw_indep k t : b_independent b !! k = Some t -> k = pending_key t /\ b_all b !! pd_id t = Some t;
  bw_nonce : nonces_ok (b_all b)
}.

(** [released b Y id]: the ancestor of [id] is not pending, or was yielded. *)
Definition released b Y (id : TransactionId) : Prop :=
  forall a, unchecked_ancestor id = Some a -> is_Some (b_all b !! a) -> a ∈ Y.

(** The state after yielding the transactions [Y]. *)
Record best_inv b Y : Prop := {
  bi_wf : best_wf b;
  bi_indep k t : b_independent b !! k = Some t -> (pd_id t ∉ Y) /\ released b Y (pd_id t);
  bi_yield y : y ∈ Y -> released b Y y
}.

(** Nothing is forgotten: every pending transaction was yielded, is queued, or
    waits for an ancestor that was not yielded. *)
Definition best_complete b Y : Prop :=
  forall id t, b_all b !! id = Some t ->
    id ∈ Y \/ b_independent b !! pending_key t = Some t \/
    exists a, unchecked_ancestor id = Some a /\ is_Some (b_all b !! a) /\ a ∉ Y.

Definition with_independent b m := mkBestTransactions (b_all b) m (b_invalid b).

Lemma best_inv_delete b Y k :
  best_inv b Y -> best_inv (with_independent b (delete k (b_independent b))) Y.
Proof.
  intros [[H1 H2 H3 H4] H5 H6]. split; [split|..]; cbn; try done.
  - intros k' t Hk. apply lookup_delete_Some in Hk as [_ Hk]. by apply H3.
  - intros k' t Hk. apply lookup_delete_Some in Hk as [_ Hk]. by apply (H5 k').
Qed.

Lemma descendant_released b Y t :
  best_wf b -> b_all b !! pd_id t = Some t -> pd_id t ∈ Y -> released b Y (unlocks t).
Proof.
  intros Hwf Ht Hy a Ha Hs. unfold unlocks in Ha.
  rewrite descendant_ancestor in Ha by (by eapply bw_nonce). by injection Ha as <-.
Qed.

Lemma unlocks_not_yielded b Y t :
  best_inv b Y -> b_all b !! pd_id t = Some t -> pd_id t ∉ Y -> unlocks t ∉ Y.
Proof.
  intros Hb Ht Hn Hu. apply Hn. apply (bi_yield _ _ Hb _ Hu); [|by eexists].
  apply descendant_ancestor. eapply (bw_nonce _ (bi_wf _ _ Hb)), Ht.
Qed.

Lemma unlocks_ne b t :
  best_wf b -> b_all b !! pd_id t = Some t -> unlocks t <> pd_id t.
Proof.
  intros Hwf Ht E. pose proof (bw_nonce _ Hwf _ _ Ht) as Hn.
  apply (f_equal id_nonce) in E. unfold unlocks, descendant, u64_max in *. cbn in E.
  rewrite wadd_small in E by (unfold in_u; lia). lia.
Qed.

(** One call of [next] that yields the transaction of [t]. *)
Lemma best_inv_yield b Y t :
  best_inv b Y -> b_independent b !! pending_key t = Some t ->
  let b1 := with_independent b (delete (pending_key t) (b_independent b)) in
  let b2 := match b_all b !! unlocks t with
            | Some u => with_independent b (bset_insert (pending_key u) u (b_independent b1))
            | None => b1
            end in
  best_inv b2 ({[pd_id t]} ∪ Y).
Proof.
  intros Hb Ht b1 b2. destruct (bw_indep _ (bi_wf _ _ Hb) _ _ Ht) as [_ Hall].
  destruct (bi_indep _ _ Hb _ _ Ht) as [HnY Hrel].
  assert (Hb1 : best_inv b1 Y) by (by apply best_inv_delete).
  assert (Hmono : forall id, released b Y id -> released b ({[pd_id t]} ∪ Y) id).
  { intros id Hr a Ha Hs. specialize (Hr a Ha Hs). set_solver. }
  assert (Hyield : forall y, y ∈ {[pd_id t]} ∪ Y -> released b ({[pd_id t]} ∪ Y) y).
  { intros y Hy. apply Hmono. apply elem_of_union in Hy as [->%elem_of_singleton|Hy]; [done|].
    by apply (bi_yield _ _ Hb). }
  assert (Hind1 : forall k u, b_independent b1 !! k = Some u ->
    (pd_id u ∉ {[pd_id t]} ∪ Y) /\ released b ({[pd_id t]} ∪ Y) (pd_id u)).
  { intros k u Hu. pose proof (bi_indep _ _ Hb1 _ _ Hu) as [Hnu Hru].
    split; [|by apply Hmono]. apply not_elem_of_union. split; [|done].
    intros E%elem_of_singleton. cbn in Hu. apply lookup_delete_Some in Hu as [Hne Hu].
    destruct (bw_indep _ (bi_wf _ _ Hb) _ _ Hu) as [-> Hu']. rewrite E, Hall in Hu'. congruence. }
  unfold b2. destruct (b_all b !! unlocks t) as [u|] eqn:Hu.
  - assert (Hid : pd_id u = unlocks t) by (by apply (bw_id _ (bi_wf _ _ Hb))).
    destruct Hb1 as [[W1 W2 W3 W4] _ _].
    assert (Hins : forall k v, bset_insert (pending_key u) u (b_independent b1) !! k = Some v ->
      b_independent b1 !! k = Some v \/ (k = pending_key u /\ v = u)).
    { intros k v. unfold bset_insert. destruct (b_independent b1 !! pending_key u); [by left|].
      rewrite lookup_insert. case_decide; [intros [= <-]; by right|by left]. }
    split; [split|..]; cbn; try done.
    + intros k v Hk. apply Hins in Hk as [Hk|[-> ->]]; [by apply W3|]. by rewrite Hid.
    + intros k v Hk. apply Hins in Hk as [Hk|[-> ->]]; [by apply (Hind1 k)|]. rewrite Hid. split.
      * apply not_elem_of_union. split; [|by apply unlocks_not_yielded with b].
        intros E%elem_of_singleton. revert E. by apply (unlocks_ne b), Hall; apply Hb.
      * apply (descendant_released b); [apply Hb|done|set_solver].
  - destruct Hb1 as [[W1 W2 W3 W4] _ _]. split; [split|..]; cbn; try done.
Qed.

Lemma best_complete_yield b Y t :
  best_inv b Y -> b_independent b !! pending_key t = Some t -> best_complete b Y ->
  let b1 := with_independent b (delete (pending_key t) (b_independent b)) in
  let b2 := match b_all b !! unlocks t with
            | Some u => with_independent b (bset_insert (pending_key u) u (b_independent b1))
            | None => b1
            end in
  best_complete b2 ({[pd_id t]} ∪ Y).
Proof.
  intros Hb Ht Hc b1 b2. destruct (bw_indep _ (bi_wf _ _ Hb) _ _ Ht) as [_ Hall].
  assert (Hall2 : b_all b2 = b_all b) by (unfold b2; by destruct (b_all b !! unlocks t)).
  assert (Hold : forall u, pending_key u <> pending_key t ->
    b_independent b !! pending_key u = Some u -> b_independent b2 !! pending_key u = Some u).
  { intros u Hne Hu. assert (Hd : b_independent b1 !! pending_key u = Some u)
      by (cbn; by rewrite lookup_delete_ne by congruence).
    unfold b2. destruct (b_all b !! unlocks t) as [v|] eqn:Hv; [|done]. cbn [b_independent with_independent].
    unfold bset_insert. destruct (b_independent b1 !! pending_key v) eqn:Hv'; [done|].
    rewrite lookup_insert_ne; [done|]. intros E. congruence. }
  intros id u Hu. rewrite Hall2 in Hu. rewrite Hall2.
  destruct (decide (id = pd_id t)) as [->|Hne]; [left; set_solver|].
  destruct (Hc id u Hu) as [Hy|[Hi|(a & Ha & Hs & Hna)]]; [left; set_solver| |].
  - right; left. apply Hold; [|done]. intros E. apply Hne.
    assert (u = t) as -> by (by apply (bw_key _ (bi_wf _ _ Hb) id (pd_id t))).
    symmetry. by apply (bw_id _ (bi_wf _ _ Hb)).
  - right. destruct (decide (a = pd_id t)) as [->|Hat]; [left|right; exists a; set_solver].
    pose proof (bw_nonce _ (bi_wf _ _ Hb) _ _ Hu) as Hn.
    destruct (ancestor_descendant id (pd_id t)) as [Hd _]; [done..|].
    unfold b2. unfold unlocks. rewrite Hd, Hu. cbn [b_independent with_independent]. unfold bset_insert.
    destruct (b_independent b1 !! pending_key u) as [v|] eqn:Hv; [|apply lookup_insert_eq].
    rewrite Hv. cbn in Hv. apply lookup_delete_Some in Hv as [_ Hv].
    destruct (bw_indep _ (bi_wf _ _ Hb) _ _ Hv) as [Hk Hv'].
    f_equal. symmetry. by apply (bw_key _ (bi_wf _ _ Hb) id (pd_id v)).
Qed.

(** *** [next] *)

(** Without transactions marked invalid, [next] returns the independent
    transaction with the highest priority. *)
Lemma best_next_eq b :
  b_invalid b = ∅ ->
  best_next ordering b =
  match last_key_value (pending_le ordering) (b_independent b) with
  | None => Ok (None, b)
  | Some (k, t) =>
      let b1 := with_independent b (delete k (b_independent b)) in
      Ok (Some (pd_transaction t),
          match b_all b !! unlocks t with
          | Some u => with_independent b (bset_insert (pending_key u) u (b_independent b1))
          | None => b1
          end)
  end.
Proof.
  intros Hinv. unfold best_next. cbn [best_next_loop].
  destruct (last_key_value _ _) as [[k t]|]; [|done]. cbn [b_invalid].
  rewrite decide_False by (rewrite Hinv; set_solver). cbv zeta. cbn.
  by destruct (b_all b !! unlocks t).
Qed.

(** The skipping loop always stops: every round removes an independent
    transaction. *)
Lemma best_next_loop_safe fuel b :
  (size (b_independent b) < fuel)%nat -> safe (best_next_loop ordering fuel b).
Proof.
  revert b; induction fuel as [|fuel IH]; intros b Hf; [lia|]. cbn [best_next_loop].
  destruct (last_key_value _ _) as [[k t]|] eqn:Hl; [|done]. case_decide; [|done].
  apply IH. cbn. apply (last_key_value_Some (pending_le ordering)) in Hl as [Hk _].
  pose proof (map_size_delete_lt _ _ _ Hk). lia.
Qed.

(** *** The order the iterator promises *)

(** [t] can be executed once the transactions [Y] were: it is pending, was not
    executed, and its ancestor is not pending or was executed. *)
Definition ready (m : gmap TransactionId (PendingTransactionRef P)) Y t : Prop :=
  m !! pd_id t = Some t /\ (pd_id t ∉ Y) /\
  (forall a, unchecked_ancestor (pd_id t) = Some a -> is_Some (m !! a) -> a ∈ Y).

(** The order documented at [PendingPool::best]: every step returns a ready
    transaction, of the highest priority and, among equals, the one submitted
    first; the sequence ends when every transaction was returned. *)
Inductive greedy_order (m : gmap TransactionId (PendingTransactionRef P)) Y
    : list ValidPoolTransaction -> Prop :=
| greedy_nil : (forall id t, m !! id = Some t -> id ∈ Y) -> greedy_order m Y []
| greedy_cons t txs :
    ready m Y t ->
    (forall u, ready m Y u -> pending_le ordering (pending_key u) (pending_key t)) ->
    greedy_order m ({[pd_id t]} ∪ Y) txs ->
    greedy_order m Y (pd_transaction t :: txs).

Definition not_yielded Y (m : gmap TransactionId (PendingTransactionRef P)) :=
  filter (fun x => x.1 ∉ Y) m.

Lemma not_yielded_insert m Y id :
  not_yielded ({[id]} ∪ Y) m = delete id (not_yielded Y m).
Proof.
  apply map_eq. intros i. unfold not_yielded. rewrite lookup_delete, !map_lookup_filter.
  destruct (m !! i); cbn; [|by case_decide]. case_decide as Hi; [subst i|].
  - rewrite option_guard_False by (cbn; set_solver). done.
  - destruct (decide (i ∈ Y)).
    + rewrite !option_guard_False by (cbn; set_solver). done.
    + rewrite !option_guard_True by (cbn; set_solver). done.
Qed.

Lemma not_yielded_lookup m Y t :
  m !! pd_id t = Some t -> pd_id t ∉ Y -> not_yielded Y m !! pd_id t = Some t.
Proof. intros Ht Hn. by apply map_lookup_filter_Some. Qed.

(** A greedy order returns each remaining transaction once. *)
Lemma greedy_order_perm m Y txs :
  greedy_order m Y txs ->
  txs ≡ₚ (fun x => pd_transaction x.2) <$> map_to_list (not_yielded Y m).
Proof.
  induction 1 as [Y Hall|Y t txs (Ht & Hn & _) _ _ IH].
  - assert (not_yielded Y m = ∅) as ->; [|by rewrite map_to_list_empty].
    apply map_eq. intros i. rewrite lookup_empty. apply map_lookup_filter_None. right.
    intros x Hx Hi. by apply Hi, (Hall _ x).
  - rewrite IH, not_yielded_insert.
    by rewrite <- (map_to_list_delete (not_yielded Y m) (pd_id t) t) by (by apply not_yielded_lookup).
Qed.

(** When nothing is independent any more, everything was returned: descend
    along the ancestors. *)
Lemma drained_all b Y :
  best_wf b -> best_complete b Y -> b_independent b = ∅ ->
  forall id t, b_all b !! id = Some t -> id ∈ Y.
Proof.
  intros Hwf Hc He. assert (H0 : forall n id t, (Z.to_nat (id_nonce id) < n)%nat ->
    b_all b !! id = Some t -> id ∈ Y).
  { induction n as [|n IH]; [lia|]. intros id t Hn Ht.
    destruct (Hc id t Ht) as [Hy|[Hi|(a & Ha & [u Hu] & HaY)]]; [done| |].
    - by rewrite He, lookup_empty in Hi.
    - exfalso. apply HaY. apply (IH a u); [|done].
      pose proof (bw_nonce _ Hwf _ _ Ht) as Hb. unfold unchecked_ancestor in Ha.
      destruct (Z.eqb_spec (id_nonce id) 0); [done|]. injection Ha as <-. cbn. lia. }
  intros id t. by apply (H0 (S (Z.to_nat (id_nonce id)))); lia.
Qed.

(** A ready transaction is in the independent set. *)
Lemma ready_independent b Y u :
  best_complete b Y -> ready (b_all b) Y u -> b_independent b !! pending_key u = Some u.
Proof.
  intros Hc (Hu & Hn & Hr). destruct (Hc _ _ Hu) as [Hy|[Hi|(a & Ha & Hs & HaY)]]; [done|done|].
  exfalso. apply HaY. by apply Hr.
Qed.

Lemma best_drain_greedy fuel b Y :
  best_inv b Y -> best_complete b Y -> b_invalid b = ∅ ->
  (size (not_yielded Y (b_all b)) < fuel)%nat ->
  exists txs, best_drain ordering fuel b = Ok txs /\ greedy_order (b_all b) Y txs.
Proof.
  revert b Y. induction fuel as [|fuel IH]; intros b Y Hb Hc Hi Hf; [lia|]. cbn [best_drain].
  rewrite best_next_eq by done.
  destruct (last_key_value _ _) as [[k t]|] eqn:Hl.
  - apply (last_key_value_Some (pending_le ordering)) in Hl as [Hk Hmax].
    destruct (bw_indep _ (bi_wf _ _ Hb) _ _ Hk) as [-> Ht].
    destruct (bi_indep _ _ Hb _ _ Hk) as [Hn Hr].
    pose proof (best_inv_yield b Y t Hb Hk) as Hb2.
    pose proof (best_complete_yield b Y t Hb Hk Hc) as Hc2. cbv zeta in Hb2, Hc2 |- *.
    set (b2 := match b_all b !! unlocks t with Some _ => _ | None => _ end) in *.
    assert (E : b_all b2 = b_all b) by (unfold b2; by destruct (b_all b !! unlocks t)).
    destruct (IH b2 ({[pd_id t]} ∪ Y)) as (txs & Hd & Hg); [done|done| | |].
    + unfold b2. by destruct (b_all b !! unlocks t).
    + rewrite E, not_yielded_insert.
      pose proof (map_size_delete_lt _ _ _ (not_yielded_lookup _ _ _ Ht Hn)). lia.
    + rewrite Hd. cbn. eexists; split; [done|]. rewrite E in Hg. apply greedy_cons; [done| |done].
      intros u Hu. apply (Hmax _ u). by apply (ready_independent b Y).
  - apply (last_key_value_None (pending_le ordering)) in Hl. eexists; split; [done|].
    apply greedy_nil. apply drained_all; [apply Hb|done|done].
Qed.

(** *** From the pending pool *)

(** The independent transactions are exactly those without a pending ancestor. *)
Record gapless_pool (p : PendingPool P) : Prop := {
  gp_inv : pending_inv ordering p;
  gp_sound : independent_sound p;
  gp_complete : independent_complete p;
  gp_nonces : nonces_ok (pd_by_id p)
}.

Lemma pending_ancestor_None (p : PendingPool P) id :
  pending_ancestor p id = None <-> forall a, unchecked_ancestor id = Some a -> pd_by_id p !! a = None.
Proof.
  unfold pending_ancestor. destruct (unchecked_ancestor id) as [a|]; cbn; split; [|by intros H0; apply H0|done|done].
  by intros H0 a' [= <-].
Qed.

Lemma pending_best_inv p : gapless_pool p -> best_inv (pending_best p) ∅ /\ best_complete (pending_best p) ∅.
Proof.
  intros [Hp Hs Hc Hn]. pose proof (pdi_mirror _ _ Hp) as [Hid Hm]. split; [split|].
  - split; cbn; [done| | |done].
    + intros id id' t u Ht Hu Hk. pose proof (Hid _ _ Ht) as <-. pose proof (Hid _ _ Hu) as <-.
      pose proof (proj2 (Hm (pending_key t) t) (conj eq_refl Ht)) as G1.
      pose proof (proj2 (Hm (pending_key u) u) (conj eq_refl Hu)) as G2. rewrite Hk in G1. congruence.
    + intros k t Hk. by apply (pdi_indep _ _ Hp), Hm in Hk.
  - intros k t Hk. split; [set_solver|]. intros a Ha [x Hx]. cbn in Hk, Hx.
    pose proof (proj1 (pending_ancestor_None _ _) (Hs _ _ Hk) a Ha). congruence.
  - intros y Hy. set_solver.
  - intros id t Ht. right. destruct (pending_ancestor p id) as [x|] eqn:Ha; [right|left; by apply (Hc id)].
    unfold pending_ancestor in Ha. destruct (unchecked_ancestor id) as [a|]; [|done]. cbn in Ha.
    exists a. split_and!; [done|by eexists|set_solver].
Qed.

(** C17. The order of the best transactions.  On a pending pool whose independent
    set is exact, draining the iterator returns every pending transaction
    exactly once and then stops; each one comes after its ancestor, and among
    the transactions whose ancestors were returned it has the highest priority,
    ties going to the earlier submission. *)
Theorem best_transactions_order p :
  gapless_pool p ->
  exists txs, best_drain ordering (S (size (pd_by_id p))) (pending_best p) = Ok txs /\
    greedy_order (pd_by_id p) ∅ txs /\
    txs ≡ₚ (fun x => pd_transaction x.2) <$> map_to_list (pd_by_id p).
Proof.
  intros Hp. destruct (pending_best_inv p Hp) as [Hb Hc].
  assert (E : not_yielded ∅ (pd_by_id p) = pd_by_id p).
  { apply map_filter_id. intros id t _. set_solver. }
  destruct (best_drain_greedy (S (size (pd_by_id p))) (pending_best p) ∅ Hb Hc) as (txs & Hd & Hg);
    [done|cbn; rewrite E; lia|].
  exists txs. split_and!; [done|done|]. pose proof (greedy_order_perm (pd_by_id p) ∅ txs Hg) as Hperm.
  by rewrite E in Hperm.
Qed.

(** *** Keeping the independent set exact *)

Lemma pending_add_shape {E} p tx p' :
  pending_add_transaction (E := E) ordering p tx = Ok p' ->
  let t := mkPendingTransactionRef (pd_next_id p) tx (priority_of ordering (transaction tx)) in
  pd_by_id p !! pd_id t = None /\ pd_by_id p' = <[pd_id t := t]> (pd_by_id p) /\
  pd_independent p' = match pending_ancestor p (pd_id t) with
                      | None => bset_insert (pending_key t) t (pd_independent p)
                      | Some _ => pd_independent p end.
Proof.
  unfold pending_add_transaction. destruct (pd_by_id p !! transaction_id tx) eqn:E0; [done|].
  intros [= <-]. cbn. split_and!; [done|done|]. unfold pending_ancestor. cbn. done.
Qed.

Lemma unchecked_ancestor_ne id a : unchecked_ancestor id = Some a -> a <> id.
Proof.
  unfold unchecked_ancestor. destruct id as [s n]. cbn. destruct (Z.eqb_spec n 0); [done|].
  intros [= <-] [=]. lia.
Qed.

Lemma pending_add_gapless p tx p' :
  gapless_pool p -> pending_room p tx -> 0 <= id_nonce (transaction_id tx) < u64_max ->
  pd_by_id p !! descendant (transaction_id tx) = None ->
  pending_add_transaction (E := PoolError) ordering p tx = Ok p' -> gapless_pool p'.
Proof.
  intros [Hp Hs Hc Hn] Hr Hnonce Hd Hadd. pose proof (pending_add_inv _ _ _ _ Hp Hr Hadd) as Hp'.
  pose proof (pending_key_fresh ordering p (priority_of ordering (transaction tx)) Hp) as Hfresh.
  destruct (pending_add_shape _ _ _ Hadd) as (Hid & E1 & E2). cbv zeta in *.
  set (t := mkPendingTransactionRef (pd_next_id p) tx (priority_of ordering (transaction tx))) in *.
  change (pd_all p !! pending_key t = None) in Hfresh.
  assert (Hi : pd_independent p !! pending_key t = None).
  { destruct (pd_independent p !! pending_key t) as [x|] eqn:Hx; [|done]. by rewrite (pdi_indep _ _ Hp _ _ Hx) in Hfresh. }
  assert (Hanc : forall id, 0 <= id_nonce id < u64_max -> is_Some (pd_by_id p !! id) ->
    pending_ancestor p' id = pending_ancestor p id).
  { intros id Hid' [x Hx]. unfold pending_ancestor. destruct (unchecked_ancestor id) as [a|] eqn:Ha; [|done]. cbn.
    rewrite E1, lookup_insert_ne; [done|]. intros <-. apply (ancestor_descendant id) in Ha as [Ea _]; [|done].
    change (pd_id t) with (transaction_id tx) in Ea. rewrite Ea in Hd. congruence. }
  assert (Hself : pending_ancestor p' (pd_id t) = pending_ancestor p (pd_id t)).
  { unfold pending_ancestor. destruct (unchecked_ancestor (pd_id t)) as [a|] eqn:Ha; [|done]. cbn.
    by rewrite E1, lookup_insert_ne by (intros E; by apply (unchecked_ancestor_ne (pd_id t) a)). }
  split; [done| | |].
  - intros k u. rewrite E2. destruct (pending_ancestor p (pd_id t)) as [y|] eqn:Hy.
    + intros Hk. pose proof (pdi_indep _ _ Hp _ _ Hk) as Hk'. apply (pdi_mirror _ _ Hp) in Hk' as [_ Hk'].
      rewrite Hanc; [by apply (Hs k)|by apply (Hn _ u)|by eexists].
    + rewrite bset_insert_fresh by done. intros [[<- <-]|[Hne Hk]]%lookup_insert_Some; [by rewrite Hself|].
      pose proof (pdi_indep _ _ Hp _ _ Hk) as Hk'. apply (pdi_mirror _ _ Hp) in Hk' as [_ Hk'].
      rewrite Hanc; [by apply (Hs k)|by apply (Hn _ u)|by eexists].
  - intros id u. rewrite E1. intros [[<- <-]|[Hne Hu]]%lookup_insert_Some Ha.
    + rewrite E2. rewrite Hself in Ha. rewrite Ha, bset_insert_fresh by done. apply lookup_insert_eq.
    + rewrite Hanc in Ha; [|by apply (Hn _ u)|by eexists]. pose proof (Hc _ _ Hu Ha) as Hk. rewrite E2.
      destruct (pending_ancestor p (pd_id t)); [done|]. rewrite bset_insert_fresh by done.
      rewrite lookup_insert_ne; [done|]. intros E. rewrite <- E, Hi in Hk. done.
  - intros id u. rewrite E1. intros [[<- <-]|[_ Hu]]%lookup_insert_Some; [done|by apply (Hn id u)].
Qed.

Lemma gapless_key_inj p t u :
  gapless_pool p -> pd_by_id p !! pd_id t = Some t -> pd_by_id p !! pd_id u = Some u ->
  pending_key t = pending_key u -> t = u.
Proof.
  intros Hp Ht Hu Hk. destruct (pending_best_inv p Hp) as [Hb _]. by apply (bw_key _ (bi_wf _ _ Hb) _ _ _ _ Ht Hu).
Qed.

(** [remove_mined] on a transaction of the pool, in one equation. *)
Lemma pending_remove_mined_shape p id t :
  pd_by_id p !! id = Some t ->
  let p' := (pending_remove_mined p id).2 in
  pd_by_id p' = delete id (pd_by_id p) /\ pd_all p' = delete (pending_key t) (pd_all p) /\
  pd_independent p' = delete (pending_key t)
    (match pd_by_id p !! descendant id with
     | Some u => bset_insert (pending_key u) u (pd_independent p)
     | None => pd_independent p end) /\
  pd_next_id p' = pd_next_id p /\ pd_size_of p' = size_sub (pd_size_of p) (v_size (pd_transaction t)).
Proof.
  intros Ht. unfold pending_remove_mined, pending_remove_transaction.
  destruct (pd_by_id p !! descendant id) as [u|]; cbn; rewrite Ht; done.
Qed.

Lemma pending_remove_mined_gapless p id t :
  gapless_pool p -> pd_by_id p !! id = Some t -> pending_ancestor p id = None ->
  gapless_pool (pending_remove_mined p id).2.
Proof.
  intros Hg Ht Ha. pose proof Hg as [Hp Hs Hc Hn]. pose proof (pdi_mirror _ _ Hp) as [Hid Hm].
  pose proof (Hid _ _ Ht) as Eid. pose proof (Hn _ _ Ht) as Hnid.
  destruct (pending_remove_mined_shape p id t Ht) as (E1 & E2 & E3 & E4 & E5). cbv zeta in *.
  set (p' := (pending_remove_mined p id).2) in *.
  assert (Hind : forall k u, pd_independent p' !! k = Some u ->
    k <> pending_key t /\ (pd_independent p !! k = Some u \/ (k = pending_key u /\ pd_by_id p !! descendant id = Some u))).
  { intros k u. rewrite E3. intros [Hne Hk]%lookup_delete_Some. split; [done|].
    destruct (pd_by_id p !! descendant id) as [v|] eqn:Hv; [|by left]. unfold bset_insert in Hk.
    destruct (pd_independent p !! pending_key v); [by left|].
    apply lookup_insert_Some in Hk as [[<- <-]|[_ Hk]]; [by right|by left]. }
  assert (Hin : forall k u, pd_independent p' !! k = Some u -> pd_all p' !! k = Some u).
  { intros k u Hk. rewrite E2. apply Hind in Hk as [Hne [Hk|[-> Hu]]]; apply lookup_delete_Some; (split; [done|]).
    - by apply (pdi_indep _ _ Hp).
    - apply Hm. split; [done|]. by rewrite (Hid _ _ Hu). }
  split.
  - destruct (pending_remove_inv ordering p id Hp). unfold pending_remove_transaction in *. rewrite Ht in *. cbn -[Z.pow] in *.
    split; [..|rewrite E1|rewrite E5, E1|rewrite E1]; try exact Hin; rewrite ?E1, ?E2, ?E4; done.
  - intros k u Hk. apply Hind in Hk as [Hne [Hk|[-> Hu]]].
    + apply pending_ancestor_None. intros a Ha'. rewrite E1. apply lookup_delete_None. right.
      by apply (proj1 (pending_ancestor_None p (pd_id u)) (Hs _ _ Hk)).
    + apply pending_ancestor_None. intros a Ha'. rewrite E1. apply lookup_delete_None. left.
      rewrite (Hid _ _ Hu), descendant_ancestor in Ha' by done. by injection Ha'.
  - intros j u. rewrite E1. intros [Hne Hu]%lookup_delete_Some Hau. rewrite E3.
    assert (Hku : pending_key u <> pending_key t).
    { intros E. apply Hne. rewrite <- Eid, <- (Hid _ _ Hu). f_equal. symmetry.
      apply (gapless_key_inj p); [done| |by rewrite Eid|done]. by rewrite (Hid _ _ Hu). }
    rewrite lookup_delete_ne by done.
    destruct (decide (j = descendant id)) as [->|Hjd].
    + rewrite Hu. unfold bset_insert. destruct (pd_independent p !! pending_key u) as [v|] eqn:Hv; [|apply lookup_insert_eq].
      rewrite Hv. f_equal. pose proof (pdi_indep _ _ Hp _ _ Hv) as Hv'. apply Hm in Hv' as [Ek Hv'].
      symmetry. apply (gapless_key_inj p); [done| |done|done]. by rewrite (Hid _ _ Hu).
    + assert (Hind' : pd_independent p !! pending_key u = Some u).
      { apply (Hc j); [done|]. apply pending_ancestor_None. intros a Ha'.
        pose proof (proj1 (pending_ancestor_None p' j) Hau a Ha') as Hl. rewrite E1 in Hl.
        apply lookup_delete_None in Hl as [<-|Hl]; [|done]. exfalso. apply Hjd.
        by apply (ancestor_descendant j) in Ha' as [<- _]; [|apply (Hn _ u)]. }
      destruct (pd_by_id p !! descendant id) as [v|]; [|done]. unfold bset_insert.
      destruct (pd_independent p !! pending_key v) eqn:Hv; [done|].
      rewrite lookup_insert_ne; [done|]. intros E. congruence.
  - intros j u. rewrite E1. intros [_ Hu]%lookup_delete_Some. by apply (Hn j u).
Qed.

(** The independent set stays exact when transactions are added after their
    ancestors and leave through [remove_mined] in execution order. *)
Theorem independent_preserved p tx p' id t :
  gapless_pool p ->
  (pending_room p tx -> 0 <= id_nonce (transaction_id tx) < u64_max ->
   pd_by_id p !! descendant (transaction_id tx) = None ->
   pending_add_transaction (E := PoolError) ordering p tx = Ok p' -> gapless_pool p') /\
  (pd_by_id p !! id = Some t -> pending_ancestor p id = None -> gapless_pool (pending_remove_mined p id).2).
Proof.
  intros Hp. split; [intros; by apply (pending_add_gapless p tx)|intros; by apply (pending_remove_mined_gapless p id t)].
Qed.

(** Plain removal forgets the descendant: when a transaction is taken out
    with [remove_transaction] (which is what [on_new_block] does with mined
    transactions) and its descendant is pending, the descendant has no pending
    ancestor any more, yet it is not independent, so the iterator never returns
    it. *)
Theorem remove_transaction_forgets p id t u :
  gapless_pool p -> pd_by_id p !! id = Some t -> pd_by_id p !! descendant id = Some u ->
  let p' := (pending_remove_transaction p id).2 in
  pd_by_id p' !! descendant id = Some u /\ pending_ancestor p' (descendant id) = None /\
  pd_independent p' !! pending_key u = None.
Proof.
  intros Hg Ht Hu. pose proof Hg as [Hp Hs _ Hn]. pose proof (pdi_mirror _ _ Hp) as [Hid Hm].
  pose proof (Hn _ _ Ht) as Hnid. pose proof (descendant_ancestor id Hnid) as Ha.
  unfold pending_remove_transaction. rewrite Ht. cbn.
  split_and!.
  - rewrite lookup_delete_ne; [done|]. intros E. by apply (unchecked_ancestor_ne (descendant id) id).
  - unfold pending_ancestor. rewrite Ha. cbn. apply lookup_delete_eq.
  - apply lookup_delete_None. right. destruct (pd_independent p !! pending_key u) as [v|] eqn:Hv; [|done]. exfalso.
    pose proof (pdi_indep _ _ Hp _ _ Hv) as Hv'. apply Hm in Hv' as [Ek Hv'].
    assert (v = u) as ->. { symmetry. apply (gapless_key_inj p); [done| |done|done]. by rewrite (Hid _ _ Hu). }
    pose proof (Hs _ _ Hv) as Hn'. rewrite (Hid _ _ Hu) in Hn'. unfold pending_ancestor in Hn'.
    rewrite Ha in Hn'. cbn in Hn'. congruence.
Qed.

End Best.

(** ** Examples *)

Definition add_pending (tx : ValidPoolTransaction) (p : PendingPool Z) : PendingPool Z :=
  match pending_add_transaction (E := PoolError) CostOrdering p tx with Ok p' => p' | _ => p end.

Definition pending_one : PendingPool Z := add_pending (sample_tx 7 0 100 30 50) PendingPool_new.
Definition pending_two : PendingPool Z := add_pending (sample_tx 7 1 101 40 50) pending_one.

Lemma gapless_new : gapless_pool CostOrdering PendingPool_new.
Proof. split; [apply pending_inv_new|by intros ??..]. Qed.

Lemma pending_one_gapless : gapless_pool CostOrdering pending_one.
Proof.
  apply (pending_add_gapless CostOrdering PendingPool_new (sample_tx 7 0 100 30 50)); [apply gapless_new|..]; try done.
Qed.

Lemma pending_two_gapless : gapless_pool CostOrdering pending_two.
Proof.
  apply (pending_add_gapless CostOrdering pending_one (sample_tx 7 1 101 40 50)); [apply pending_one_gapless|..]; try done.
Qed.

Lemma best_transactions_order_witness :
  exists txs, best_drain CostOrdering 3 (pending_best pending_two) = Ok txs /\
    txs = [sample_tx 7 0 100 30 50; sample_tx 7 1 101 40 50].
Proof.
  destruct (best_transactions_order CostOrdering pending_two pending_two_gapless) as (txs & E & _).
  exists txs. split; [exact E|]. vm_compute in E. by injection E.
Defined.

Lemma independent_preserved_witness :
  gapless_pool CostOrdering pending_two /\ gapless_pool CostOrdering (pending_remove_mined pending_two (mkTransactionId 7 0)).2.
Proof.
  split.
  - apply (independent_preserved CostOrdering pending_one (sample_tx 7 1 101 40 50) pending_two (mkTransactionId 7 0)
      (mkPendingTransactionRef 0 (sample_tx 7 0 100 30 50) 30)); [apply pending_one_gapless|done..].
  - apply (independent_preserved CostOrdering pending_two (sample_tx 7 1 101 40 50) pending_two (mkTransactionId 7 0)
      (mkPendingTransactionRef 0 (sample_tx 7 0 100 30 50) 30)); [apply pending_two_gapless|done..].
Defined.

Lemma remove_transaction_forgets_witness :
  pd_independent (pending_remove_transaction pending_two (mkTransactionId 7 0)).2 !! (40, 1) = None /\
  best_drain CostOrdering 3 (pending_best (pending_remove_transaction pending_two (mkTransactionId 7 0)).2) = Ok [].
Proof.
  split; [|vm_compute; reflexivity].
  apply (remove_transaction_forgets CostOrdering pending_two (mkTransactionId 7 0)
    (mkPendingTransactionRef 0 (sample_tx 7 0 100 30 50) 30) (mkPendingTransactionRef 1 (sample_tx 7 1 101 40 50) 40));
    [apply pending_two_gapless|done..].
Defined.

Lemma pending_pop_worst_max_witness :
  exists t, pd_by_id pending_two !! mkTransactionId 7 1 = Some t /\
    pending_le CostOrdering (30, 0) (pending_key t).
Proof.
  destruct (pending_pop_worst_max CostOrdering pending_two (sample_tx 7 1 101 40 50)
    (pending_pop_worst CostOrdering pending_two).2) as (t & Ht & _ & Hmax).
  - apply pending_two_gapless.
  - vm_compute. reflexivity.
  - exists t. split; [done|].
    apply (Hmax (mkTransactionId 7 0) (mkPendingTransactionRef 0 (sample_tx 7 0 100 30 50) 30)). vm_compute. reflexivity.
Defined.

Definition add_queued (tx : ValidPoolTransaction) (p : ParkedPool (Z * Z)) : ParkedPool (Z * Z) :=
  match parked_add_transaction (E := PoolError) QueuedOrd p tx with Ok p' => p' | _ => p end.

Lemma parked_pop_worst_min_witness :
  exists t, pk_by_id (add_queued (sample_tx 7 3 100 30 50) ParkedPool_default) !! mkTransactionId 7 3 = Some t /\
    pk_transaction t = sample_tx 7 3 100 30 50.
Proof.
  destruct (parked_pop_worst_min QueuedOrd (add_queued (sample_tx 7 3 100 30 50) ParkedPool_default) (sample_tx 7 3 100 30 50)
    (parked_pop_worst QueuedOrd (add_queued (sample_tx 7 3 100 30 50) ParkedPool_default)).2) as (_ & t & Ht & Et & _).
  - apply (parked_add_inv (E := PoolError) QueuedOrd ParkedPool_default (sample_tx 7 3 100 30 50)); [apply parked_inv_default|done..].
  - vm_compute. reflexivity.
  - by exists t.
Defined.
