(* ===== verification/AllTxs.v ===== *)
(** * Transaction pool: the set of all transactions

    [AllTransactions] of crates/transaction-pool/src/pool/txpool.rs: the index
    every sub-pool decision is derived from.  [BTreeMap::range] is read off the
    sorted entries; the two loops that mutate the entries in place
    ([insert_tx], [update]) are folds over the entries they visit that return
    the new entries. *)
From S2P Require Import Prelude BTree PoolTypes.

(** ** Data *)

Definition MIN_PROTOCOL_BASE_FEE : Z := 7.

Record PoolInternalTransaction := mkPoolInternalTransaction {
  pit_transaction : ValidPoolTransaction;
  pit_subpool : SubPool;
  pit_state : Z;
  pit_cumulative_cost : Z
}.

Definition next_cumulative_cost (t : PoolInternalTransaction) : Z :=
  wadd 256 (pit_cumulative_cost t) (v_cost (pit_transaction t)).

Record AllTransactions := mkAllTransactions {
  pending_basefee : Z;
  minimal_protocol_basefee : Z;
  block_gas_limit : Z;
  max_account_slots : Z;
  by_hash : gmap TxHash ValidPoolTransaction;
  txs : gmap TransactionId PoolInternalTransaction;
  tx_counter : gmap SenderId Z
}.

Definition AllTransactions_default : AllTransactions :=
  mkAllTransactions 0 MIN_PROTOCOL_BASE_FEE 30000000 MAX_ACCOUNT_SLOTS_PER_SENDER ∅ ∅ ∅.

Definition AllTransactions_new (max_account_slots : Z) : AllTransactions :=
  let d := AllTransactions_default in
  mkAllTransactions (pending_basefee d) (minimal_protocol_basefee d) (block_gas_limit d)
    max_account_slots (by_hash d) (txs d) (tx_counter d).

Definition with_by_hash (a : AllTransactions) (m : gmap TxHash ValidPoolTransaction) :=
  mkAllTransactions (pending_basefee a) (minimal_protocol_basefee a) (block_gas_limit a)
    (max_account_slots a) m (txs a) (tx_counter a).
Definition with_txs (a : AllTransactions) (m : gmap TransactionId PoolInternalTransaction) :=
  mkAllTransactions (pending_basefee a) (minimal_protocol_basefee a) (block_gas_limit a)
    (max_account_slots a) (by_hash a) m (tx_counter a).
Definition with_counter (a : AllTransactions) (m : gmap SenderId Z) :=
  mkAllTransactions (pending_basefee a) (minimal_protocol_basefee a) (block_gas_limit a)
    (max_account_slots a) (by_hash a) (txs a) m.

Definition all_contains (a : AllTransactions) (h : TxHash) : bool := bool_decide (is_Some (by_hash a !! h)).
Definition all_len (a : AllTransactions) : Z := Z.of_nat (size (txs a)).
Definition all_is_empty (a : AllTransactions) : bool := all_len a =? 0.

(** ** The counter of transactions per sender *)

Definition tx_count (a : AllTransactions) (s : SenderId) : Z := default 0 (tx_counter a !! s).

Definition tx_inc (a : AllTransactions) (sender : SenderId) : AllTransactions :=
  with_counter a (<[sender := wadd 64 (tx_count a sender) 1]> (tx_counter a)).

Definition tx_decr (a : AllTransactions) (sender : SenderId) : AllTransactions :=
  match tx_counter a !! sender with
  | None => a
  | Some count =>
      if count =? 1 then with_counter a (delete sender (tx_counter a))
      else with_counter a (<[sender := wrap 64 (count - 1)]> (tx_counter a))
  end.

(** ** Rechecking all transactions after a block *)

Definition with_state (t : PoolInternalTransaction) (s : Z) : PoolInternalTransaction :=
  mkPoolInternalTransaction (pit_transaction t) (pit_subpool t) s (pit_cumulative_cost t).

Definition update_base_fee (pending_block_base_fee : Z) (t : PoolInternalTransaction)
    : PoolInternalTransaction :=
  match v_max_fee_per_gas (pit_transaction t) with
  | None => t
  | Some fee_cap =>
      if pending_block_base_fee <=? fee_cap
      then with_state t (st_insert (pit_state t) ENOUGH_FEE_CAP_BLOCK)
      else with_state t (st_remove (pit_state t) ENOUGH_FEE_CAP_BLOCK)
  end.

Definition record_subpool_update (t : PoolInternalTransaction)
    : PoolInternalTransaction * list PoolUpdate :=
  let current_pool := pit_subpool t in
  let subpool := subpool_of (pit_state t) in
  (mkPoolInternalTransaction (pit_transaction t) subpool (pit_state t) (pit_cumulative_cost t),
   if decide (current_pool = subpool) then []
   else [mkPoolUpdate (transaction_id (pit_transaction t)) (v_hash (pit_transaction t))
           current_pool (ToPool subpool)]).

(** Where the iteration over the sorted transactions is: before the first
    transaction of a sender, skipping the rest of a sender, or at a transaction
    that follows the sender's first one. *)
Inductive update_mode :=
| UniqueSender
| SkipSender (sender : SenderId)
| Consecutive (sender : SenderId) (has_parked_ancestor : bool).

(** The first transaction of a sender. *)
Definition update_first (fee : Z) (id : TransactionId) (t : PoolInternalTransaction)
    : PoolInternalTransaction * list PoolUpdate * update_mode :=
  if has_nonce_gap (pit_state t) then (t, [], SkipSender (id_sender id))
  else
    let t := with_state t (st_insert (pit_state t) NO_PARKED_ANCESTORS) in
    let t := update_base_fee fee t in
    let '(t, updates) := record_subpool_update t in
    (t, updates, Consecutive (id_sender id) (negb (is_pending (pit_state t)))).

(** A transaction that follows another one of its sender. *)
Definition update_next (fee : Z) (sender : SenderId) (has_parked_ancestor : bool)
    (t : PoolInternalTransaction) : PoolInternalTransaction * list PoolUpdate * update_mode :=
  if has_nonce_gap (pit_state t) then (t, [], SkipSender sender)
  else
    let t := with_state t (if has_parked_ancestor then st_remove (pit_state t) NO_PARKED_ANCESTORS
                           else st_insert (pit_state t) NO_PARKED_ANCESTORS) in
    let has_parked_ancestor := negb (is_pending (pit_state t)) in
    let t := update_base_fee fee t in
    let '(t, updates) := record_subpool_update t in
    (t, updates, Consecutive sender has_parked_ancestor).

Definition update_step (fee : Z) (mode : update_mode) (id : TransactionId)
    (t : PoolInternalTransaction) : PoolInternalTransaction * list PoolUpdate * update_mode :=
  match mode with
  | UniqueSender => update_first fee id t
  | SkipSender s => if id_sender id =? s then (t, [], SkipSender s) else update_first fee id t
  | Consecutive s parked =>
      if id_sender id =? s then update_next fee s parked t else update_first fee id t
  end.

Fixpoint update_walk (fee : Z) (mode : update_mode)
    (l : list (TransactionId * PoolInternalTransaction))
    : list (TransactionId * PoolInternalTransaction) * list PoolUpdate :=
  match l with
  | [] => ([], [])
  | (id, t) :: rest =>
      let '(t, updates, mode) := update_step fee mode id t in
      let '(out, more) := update_walk fee mode rest in
      ((id, t) :: out, updates ++ more)
  end.

(** [AllTransactions::update]; the state diff is not used by the code. *)
Definition all_update (a : AllTransactions) (pending_block_base_fee : Z)
    : list PoolUpdate * AllTransactions :=
  let '(out, updates) := update_walk pending_block_base_fee UniqueSender (entries id_le (txs a)) in
  (updates,
   mkAllTransactions pending_block_base_fee (minimal_protocol_basefee a) (block_gas_limit a)
     (max_account_slots a) (by_hash a) (list_to_map out) (tx_counter a)).

(** ** Ranges of one sender *)

Fixpoint take_while {A} (f : A -> bool) (l : list A) : list A :=
  match l with
  | [] => []
  | x :: l => if f x then x :: take_while f l else []
  end.

Definition same_sender (id : TransactionId) (e : TransactionId * PoolInternalTransaction) : bool :=
  id_sender id =? id_sender e.1.

Definition descendant_txs (a : AllTransactions) (id : TransactionId)
    : list (TransactionId * PoolInternalTransaction) :=
  take_while (same_sender id) (filter (fun e => id_le id e.1) (entries id_le (txs a))).

Definition descendant_txs_exclusive (a : AllTransactions) (id : TransactionId)
    : list (TransactionId * PoolInternalTransaction) :=
  take_while (same_sender id)
    (filter (fun e => id_le id e.1 /\ id <> e.1) (entries id_le (txs a))).

(** ** Removal *)

Definition all_remove_transaction_by_hash (a : AllTransactions) (h : TxHash)
    : option (ValidPoolTransaction * SubPool) * AllTransactions :=
  match by_hash a !! h with
  | None => (None, a)
  | Some tx =>
      let a := with_by_hash a (delete h (by_hash a)) in
      match txs a !! transaction_id tx with
      | None => (None, a)
      | Some internal =>
          let a := with_txs a (delete (transaction_id tx) (txs a)) in
          (Some (tx, pit_subpool internal), tx_decr a (v_sender_id tx))
      end
  end.

Definition all_remove_transaction (a : AllTransactions) (id : TransactionId)
    : option (ValidPoolTransaction * SubPool) * AllTransactions :=
  match txs a !! id with
  | None => (None, a)
  | Some internal =>
      let a := with_txs a (delete id (txs a)) in
      let a := tx_decr a (v_sender_id (pit_transaction internal)) in
      let h := v_hash (pit_transaction internal) in
      ((fun tx => (tx, pit_subpool internal)) <$> by_hash a !! h,
       with_by_hash a (delete h (by_hash a)))
  end.

(** ** Insertion *)

Inductive InsertErr :=
| Underpriced (transaction : ValidPoolTransaction) (existing : TxHash)
| InsertFeeCapTooLow (transaction : ValidPoolTransaction) (fee_cap : Z)
| ExceededSenderTransactionsCapacity (transaction : ValidPoolTransaction)
| TxGasLimitMoreThanAvailableBlockGas (transaction : ValidPoolTransaction)
    (block_gas_limit tx_gas_limit : Z).

Record InsertOk := mkInsertOk {
  ok_transaction : ValidPoolTransaction;
  ok_move_to : SubPool;
  ok_state : Z;
  ok_replaced_tx : option (ValidPoolTransaction * SubPool);
  ok_updates : list PoolUpdate
}.

Definition ensure_valid (a : AllTransactions) (tx : ValidPoolTransaction)
    : outcome InsertErr ValidPoolTransaction :=
  if negb (is_local (origin tx)) && (max_account_slots a <=? tx_count a (v_sender_id tx))
  then Err (ExceededSenderTransactionsCapacity tx)
  else if block_gas_limit a <? v_gas_limit tx
  then Err (TxGasLimitMoreThanAvailableBlockGas tx (block_gas_limit a) (v_gas_limit tx))
  else Ok tx.

(** The state of the new transaction before its sender's transactions are
    walked through, or the fee error. *)
Definition insert_state (a : AllTransactions) (tx : ValidPoolTransaction)
    (predecessor : option TransactionId) : outcome InsertErr Z :=
  let state := 0 in
  let state :=
    match predecessor with
    | None => st_insert (st_insert state NO_NONCE_GAPS) NO_PARKED_ANCESTORS
    | Some _ => state
    end in
  state ← match v_max_fee_per_gas tx with
          | Some fee_cap =>
              if fee_cap <? minimal_protocol_basefee a then Err (InsertFeeCapTooLow tx fee_cap)
              else if pending_basefee a <=? fee_cap then Ok (st_insert state ENOUGH_FEE_CAP_BLOCK)
              else Ok state
          | None => Ok (st_insert state ENOUGH_FEE_CAP_BLOCK)
          end;
  Ok (if v_gas_limit tx <? block_gas_limit a then st_insert state NOT_TOO_MUCH_GAS else state).

(** One transaction of the walk: its new state. *)
Definition insert_tx_state (on_chain_balance cumulative_cost : Z) (has_parked_ancestor : bool)
    (s : Z) : Z :=
  let s := st_insert s NO_NONCE_GAPS in
  let s := if on_chain_balance <? cumulative_cost then st_remove s ENOUGH_BALANCE
           else st_insert s ENOUGH_BALANCE in
  if has_parked_ancestor then st_remove s NO_PARKED_ANCESTORS
  else st_insert s NO_PARKED_ANCESTORS.

(** The loop of [insert_tx] over the sender's transactions: the rewritten
    entries, the updates and the state of the new transaction. *)
Fixpoint insert_walk (tx_id : TransactionId) (on_chain_balance : Z) (expected_nonce : Z)
    (cumulative_cost : Z) (has_parked_ancestor : bool) (state : Z)
    (l : list (TransactionId * PoolInternalTransaction))
    : list (TransactionId * PoolInternalTransaction) * list PoolUpdate * Z :=
  match l with
  | [] => ([], [], state)
  | (id, t) :: rest =>
      if negb (expected_nonce =? id_nonce id) then ([], [], state)
      else
        let current_pool := pit_subpool t in
        let next_cost := wadd 256 cumulative_cost (v_cost (pit_transaction t)) in
        let s := insert_tx_state on_chain_balance next_cost has_parked_ancestor (pit_state t) in
        let is_new := bool_decide (tx_id = id) in
        let subpool := if is_new then current_pool else subpool_of s in
        let update :=
          if is_new || bool_decide (current_pool = subpool) then []
          else [mkPoolUpdate id (v_hash (pit_transaction t)) current_pool (ToPool subpool)] in
        let '(out, more, state) :=
          insert_walk tx_id on_chain_balance (next_nonce id) next_cost (negb (is_pending s))
            (if is_new then s else state) rest in
        ((id, mkPoolInternalTransaction (pit_transaction t) subpool s cumulative_cost) :: out,
         update ++ more, state)
  end.

(** The insertion into the two maps, with the replaced transaction. *)
Definition insert_entry (a : AllTransactions) (pool_tx : PoolInternalTransaction)
    : outcome InsertErr (option (ValidPoolTransaction * SubPool) * AllTransactions) :=
  let tx := pit_transaction pool_tx in
  match txs a !! transaction_id tx with
  | None =>
      Ok (None, with_txs (with_by_hash a (<[v_hash tx := tx]> (by_hash a)))
                  (<[transaction_id tx := pool_tx]> (txs a)))
  | Some existing =>
      if is_underpriced tx (pit_transaction existing)
      then Err (Underpriced tx (v_hash (pit_transaction existing)))
      else
        Ok (Some (pit_transaction existing, pit_subpool existing),
            with_txs (with_by_hash a
              (<[v_hash tx := tx]> (delete (v_hash (pit_transaction existing)) (by_hash a))))
              (<[transaction_id tx := pool_tx]> (txs a)))
  end.

Definition insert_entries (m : gmap TransactionId PoolInternalTransaction)
    (l : list (TransactionId * PoolInternalTransaction)) : gmap TransactionId PoolInternalTransaction :=
  list_to_map l ∪ m.

(** Whether the walk starts below a parked ancestor; [None] is the failed
    [expect]. *)
Definition initial_parked (predecessor : option TransactionId) (tx_id : TransactionId)
    (descendants : list (TransactionId * PoolInternalTransaction)) : option bool :=
  match predecessor with
  | None => Some false
  | Some _ =>
      match descendants with
      | [] => None
      | (id, t) :: _ =>
          Some (if id_nonce id <? id_nonce tx_id then negb (is_pending (pit_state t)) else true)
      end
  end.

Definition insert_tx (a : AllTransactions) (tx : ValidPoolTransaction)
    (on_chain_balance on_chain_nonce : Z) : outcome InsertErr InsertOk * AllTransactions :=
  if negb (on_chain_nonce <=? v_nonce tx) then (Panic, a)
  else
    let tx_id := transaction_id tx in
    let predecessor := TransactionId_ancestor (v_nonce tx) on_chain_nonce (id_sender tx_id) in
    match tx ← ensure_valid a tx; state ← insert_state a tx predecessor;
          inserted ← insert_entry a (mkPoolInternalTransaction tx Queued state 0);
          Ok (state, inserted) with
    | Ok (state, (replaced_tx, a1)) =>
        let on_chain_id := mkTransactionId (v_sender_id tx) on_chain_nonce in
        let descendants := descendant_txs a1 on_chain_id in
        match initial_parked predecessor tx_id descendants with
        | None => (Panic, a1)
        | Some parked =>
            let '(out, updates, state) :=
              insert_walk tx_id on_chain_balance on_chain_nonce 0 parked state descendants in
            let a2 := with_txs a1 (insert_entries (txs a1) out) in
            let a3 := match replaced_tx with None => tx_inc a2 (id_sender tx_id) | Some _ => a2 end in
            (Ok (mkInsertOk tx (subpool_of state) state replaced_tx updates), a3)
        end
    | Err e => (Err e, a)
    | Panic => (Panic, a)
    | Diverge => (Diverge, a)
    end.
