(* ===== verification/AllTxsProofs.v ===== *)
(** * Transaction pool: correctness of the set of all transactions

    The abstraction of [AllTransactions] is the map from ids to transactions
    ([abs]); the hash index and the per-sender counters are functions of it
    ([index_inv]).  Insertion, removal and rechecking refine insertion, deletion
    and identity on the abstraction. *)
From S2P Require Import Prelude BTree PoolTypes AllTxs.

(** ** The index: hashes and counters over a map of transactions *)

Abbreviation tx_map := (gmap TransactionId ValidPoolTransaction).

Definition of_sender (s : SenderId) (m : tx_map) : tx_map :=
  filter (fun e => id_sender e.1 = s) m.

Definition sender_count (s : SenderId) (m : tx_map) : Z := Z.of_nat (size (of_sender s m)).

(** The counter of a sender is absent when it has no transaction. *)
Definition counts (counter : gmap SenderId Z) (m : tx_map) : Prop :=
  forall s, counter !! s = if sender_count s m =? 0 then None else Some (sender_count s m).

Record index_inv (m : tx_map) (hashes : gmap TxHash ValidPoolTransaction)
    (counter : gmap SenderId Z) : Prop := {
  ix_id id tx : m !! id = Some tx -> transaction_id tx = id;
  ix_hash h tx : hashes !! h = Some tx <-> v_hash tx = h /\ m !! transaction_id tx = Some tx;
  ix_count : counts counter m
}.

Lemma sender_count_nonneg s m : 0 <= sender_count s m.
Proof. unfold sender_count. lia. Qed.

Lemma sender_count_insert s m id tx :
  m !! id = None ->
  sender_count s (<[id:=tx]> m) = if id_sender id =? s then sender_count s m + 1 else sender_count s m.
Proof.
  intros Hid. unfold sender_count, of_sender. destruct (Z.eqb_spec (id_sender id) s).
  - rewrite map_filter_insert_True by done. rewrite map_size_insert_None; [lia|].
    apply map_lookup_filter_None. by left.
  - rewrite map_filter_insert_False by done. by rewrite delete_id.
Qed.

Lemma sender_count_replace s m id tx tx' :
  m !! id = Some tx' -> sender_count s (<[id:=tx]> m) = sender_count s m.
Proof.
  intros Hid. rewrite <- (insert_delete_id m id tx') at 2 by done. rewrite <- insert_delete_eq.
  by rewrite !sender_count_insert by apply lookup_delete_eq.
Qed.

Lemma sender_count_delete s m id tx :
  m !! id = Some tx ->
  sender_count s (delete id m) = if id_sender id =? s then sender_count s m - 1 else sender_count s m.
Proof.
  intros Hid. pose proof (sender_count_insert s (delete id m) id tx (lookup_delete_eq m id)) as E.
  rewrite insert_delete_id in E by done. destruct (id_sender id =? s); lia.
Qed.

Lemma index_inv_empty : index_inv ∅ ∅ ∅.
Proof.
  split.
  - intros id tx. by rewrite lookup_empty.
  - intros h tx. rewrite !lookup_empty. split; [done|]. by intros [_ ?].
  - intros s. rewrite lookup_empty. unfold sender_count, of_sender. by rewrite map_filter_empty.
Qed.

(** No two transactions of the index share a hash. *)
Lemma index_hash_inj m hashes counter id1 id2 tx1 tx2 :
  index_inv m hashes counter -> m !! id1 = Some tx1 -> m !! id2 = Some tx2 ->
  v_hash tx1 = v_hash tx2 -> tx1 = tx2.
Proof.
  intros [Hid Hh _] H1 H2 E. pose proof (Hid _ _ H1) as <-. pose proof (Hid _ _ H2) as <-.
  pose proof (proj2 (Hh (v_hash tx1) tx1) (conj eq_refl H1)) as G1.
  pose proof (proj2 (Hh (v_hash tx2) tx2) (conj eq_refl H2)) as G2. rewrite E in G1. congruence.
Qed.

(** The hash of [tx] is not the hash of a transaction with another id. *)
Definition hash_fresh (m : tx_map) (tx : ValidPoolTransaction) : Prop :=
  forall id tx', m !! id = Some tx' -> v_hash tx' = v_hash tx -> id = transaction_id tx.

Lemma index_insert m hashes counter tx :
  index_inv m hashes counter -> m !! transaction_id tx = None -> hash_fresh m tx ->
  index_inv (<[transaction_id tx:=tx]> m) (<[v_hash tx:=tx]> hashes)
    (<[v_sender_id tx := sender_count (v_sender_id tx) m + 1]> counter).
Proof.
  intros [Hid Hh Hc] Hn Hf. split.
  - intros id tx'. rewrite lookup_insert. case_decide; [by intros [= <-]|apply Hid].
  - intros h tx'. rewrite !lookup_insert. split.
    + case_decide as E; [intros [= <-]; by rewrite decide_True|]. rewrite Hh. intros [<- Ht].
      split; [done|]. case_decide as E'; [|done]. rewrite E' in Hn. congruence.
    + intros [<- Ht]. case_decide as E; [injection Ht as ->; by rewrite decide_True|].
      rewrite decide_False; [by apply Hh|]. intros E'. apply E. symmetry. by apply (Hf _ tx').
  - intros s. rewrite lookup_insert, sender_count_insert by done. unfold v_sender_id.
    pose proof (sender_count_nonneg s m). destruct (Z.eqb_spec (id_sender (transaction_id tx)) s).
    + subst s. rewrite decide_True by done. by zdec.
    + by rewrite decide_False.
Qed.

Lemma index_replace m hashes counter tx old :
  index_inv m hashes counter -> m !! transaction_id tx = Some old -> hash_fresh m tx ->
  index_inv (<[transaction_id tx:=tx]> m) (<[v_hash tx:=tx]> (delete (v_hash old) hashes)) counter.
Proof.
  intros Hi Ho Hf. pose proof Hi as [Hid Hh Hc]. split.
  - intros id tx'. rewrite lookup_insert. case_decide; [by intros [= <-]|apply Hid].
  - intros h tx'. rewrite !lookup_insert. split.
    + case_decide as E; [intros [= <-]; by rewrite decide_True|]. intros Hd.
      apply lookup_delete_Some in Hd as [Hne Hd]. apply Hh in Hd as [<- Ht]. split; [done|].
      case_decide as E'; [|done]. rewrite E' in Ho. congruence.
    + intros [<- Ht]. case_decide as E; [injection Ht as ->; by rewrite decide_True|].
      rewrite decide_False by (intros E'; apply E; symmetry; by apply (Hf _ tx')).
      apply lookup_delete_Some. split; [|by apply Hh]. intros E'. apply E.
      assert (old = tx') as -> by (by eapply index_hash_inj). symmetry. by apply Hid.
  - intros s. by rewrite (sender_count_replace _ _ _ _ old).
Qed.

(** The counters after the removal of [tx]. *)
Definition counter_decr (counter : gmap SenderId Z) (m : tx_map) (s : SenderId) : gmap SenderId Z :=
  if sender_count s m =? 1 then delete s counter else <[s := sender_count s m - 1]> counter.

Lemma index_delete m hashes counter tx :
  index_inv m hashes counter -> m !! transaction_id tx = Some tx ->
  index_inv (delete (transaction_id tx) m) (delete (v_hash tx) hashes)
    (counter_decr counter m (v_sender_id tx)).
Proof.
  intros Hi Ht. pose proof Hi as [Hid Hh Hc]. split.
  - intros id tx' Hd. apply lookup_delete_Some in Hd as [_ Hd]. by apply Hid.
  - intros h tx'. rewrite !lookup_delete_Some, Hh. split.
    + intros (Hne & <- & Hd). split_and!; [done| |done]. intros E. rewrite E in Ht. congruence.
    + intros (<- & Hne & Hd). split_and!; [|done|done]. intros E. apply Hne.
      by assert (tx = tx') as -> by (by eapply index_hash_inj).
  - intros s. rewrite (sender_count_delete _ _ _ tx) by done. unfold counter_decr, v_sender_id.
    assert (Hpos : 1 <= sender_count (id_sender (transaction_id tx)) m).
    { pose proof (sender_count_delete (id_sender (transaction_id tx)) m _ tx Ht) as E.
      rewrite Z.eqb_refl in E. pose proof (sender_count_nonneg (id_sender (transaction_id tx))
        (delete (transaction_id tx) m)). lia. }
    destruct (Z.eqb_spec (id_sender (transaction_id tx)) s) as [<-|Hne];
      destruct (Z.eqb_spec (sender_count (id_sender (transaction_id tx)) m) 1) as [E|E].
    + by rewrite lookup_delete_eq, E.
    + rewrite lookup_insert_eq. by zdec.
    + by rewrite lookup_delete_ne.
    + by rewrite lookup_insert_ne.
Qed.

(** ** Ranges *)

Abbreviation entry := (TransactionId * PoolInternalTransaction)%type.

Definition entry_lt (x y : entry) : Prop := strict id_le x.1 y.1.

Lemma id_le_spec i j :
  id_le i j <-> id_sender i < id_sender j \/ (id_sender i = id_sender j /\ id_nonce i <= id_nonce j).
Proof.
  destruct i as [s n], j as [s' n']. unfold id_le, pre_le, lex_le, strict. cbn.
  split; [intros [[??]|[??]]; lia|]. intros [?|[??]]; [left; lia|right; lia].
Qed.

Lemma id_lt_spec i j :
  strict id_le i j <-> id_sender i < id_sender j \/ (id_sender i = id_sender j /\ id_nonce i < id_nonce j).
Proof. unfold strict. rewrite !id_le_spec. lia. Qed.

(** On the sorted entries from [id] on, taking while the sender is the same
    keeps every entry of the sender. *)
Lemma take_while_sender id (l : list entry) :
  StronglySorted entry_lt l -> Forall (fun e => id_le id e.1) l ->
  take_while (same_sender id) l = filter (fun e => id_sender e.1 = id_sender id) l.
Proof.
  induction 1 as [|e l Hs IH Hall]; intros Hf; [done|]. apply Forall_cons_1 in Hf as [He Hf].
  cbn [take_while]. unfold same_sender at 1. destruct (Z.eqb_spec (id_sender id) (id_sender e.1)).
  - rewrite filter_cons_True by done. f_equal. by apply IH.
  - rewrite filter_cons_False by done. symmetry. apply filter_none.
    eapply Forall_impl; [exact Hall|]. intros e' He'. apply id_lt_spec in He'. apply id_le_spec in He. lia.
Qed.

Lemma descendant_txs_sorted a id : StronglySorted entry_lt (descendant_txs a id).
Proof.
  unfold descendant_txs. pose proof (entries_strict id_le (txs a)) as Hs.
  rewrite take_while_sender; [by repeat apply StronglySorted_filter|by apply StronglySorted_filter|].
  apply Forall_forall. by intros e [He _]%list_elem_of_filter.
Qed.

Lemma elem_of_descendant_txs a id id' t :
  (id', t) ∈ descendant_txs a id <->
  txs a !! id' = Some t /\ id_sender id' = id_sender id /\ id_nonce id <= id_nonce id'.
Proof.
  unfold descendant_txs. rewrite take_while_sender.
  - rewrite !list_elem_of_filter, elem_of_entries. cbn. rewrite id_le_spec.
    split; intros (?&?&?); split_and!; (done || lia).
  - apply StronglySorted_filter, (entries_strict id_le).
  - apply Forall_forall. by intros e [He _]%list_elem_of_filter.
Qed.

Lemma elem_of_descendant_txs_exclusive a id id' t :
  (id', t) ∈ descendant_txs_exclusive a id <->
  txs a !! id' = Some t /\ id_sender id' = id_sender id /\ id_nonce id < id_nonce id'.
Proof.
  unfold descendant_txs_exclusive. rewrite take_while_sender.
  - rewrite !list_elem_of_filter, elem_of_entries. cbn. rewrite id_le_spec. destruct id, id'; cbn.
    split; [|intros (?&?&?); split_and!; [done|lia|intros [= ??]; lia|done]].
    intros (Hs & [Hl Hne] & Ht). split_and!; [done|done|]. subst.
    enough (id_nonce <> id_nonce0) by lia. by intros ->.
  - apply StronglySorted_filter, (entries_strict id_le).
  - apply Forall_forall. by intros e [[He _] _]%list_elem_of_filter.
Qed.

(** ** Walks keep the transactions and rewrite only their bookkeeping *)

Definition abs (m : gmap TransactionId PoolInternalTransaction) : tx_map := pit_transaction <$> m.

Definition all_states_valid (m : gmap TransactionId PoolInternalTransaction) : Prop :=
  forall id t, m !! id = Some t -> valid_state (pit_state t).

(** [e'] is [e] with other bookkeeping. *)
Definition rewrites (e' e : entry) : Prop :=
  e'.1 = e.1 /\ pit_transaction e'.2 = pit_transaction e.2 /\
  (valid_state (pit_state e.2) -> valid_state (pit_state e'.2)).

Definition flags := [NO_PARKED_ANCESTORS; NO_NONCE_GAPS; ENOUGH_BALANCE; NOT_TOO_MUCH_GAS; ENOUGH_FEE_CAP_BLOCK].

Lemma valid_flag f : f ∈ flags -> valid_state f /\ 0 <= f.
Proof.
  unfold flags. rewrite !elem_of_cons, elem_of_nil.
  intros [->|[->|[->|[->|[->|[]]]]]]; (split; [split; [|reflexivity]|]); cbv; done.
Qed.

Lemma valid_insert_flag s f : f ∈ flags -> valid_state s -> valid_state (st_insert s f).
Proof. intros [Hf _]%valid_flag Hs. by apply valid_state_insert. Qed.
Lemma valid_remove_flag s f : f ∈ flags -> valid_state s -> valid_state (st_remove s f).
Proof. intros [_ Hf]%valid_flag Hs. by apply valid_state_remove. Qed.

Ltac valid_flags :=
  repeat first [ assumption | apply valid_insert_flag; [unfold flags; set_solver|]
               | apply valid_remove_flag; [unfold flags; set_solver|] | apply valid_state_0
               | match goal with |- valid_state (if ?b then _ else _) => destruct b end ].

Lemma insert_tx_state_valid balance cost parked s :
  valid_state s -> valid_state (insert_tx_state balance cost parked s).
Proof. intros Hs. unfold insert_tx_state. valid_flags. Qed.

Lemma insert_walk_rewrites tx_id balance n cost parked state (l : list entry) :
  exists l1 l2, l = l1 ++ l2 /\
    Forall2 rewrites (insert_walk tx_id balance n cost parked state l).1.1 l1.
Proof.
  revert n cost parked state. induction l as [|[id t] l IH]; intros n cost parked state.
  { exists [], []. by split; [|constructor]. }
  cbn [insert_walk]. destruct (negb (n =? id_nonce id)); [by exists [], ((id, t) :: l); split; [|constructor]|].
  cbv zeta. set (s := insert_tx_state _ _ _ _).
  destruct (insert_walk _ _ _ _ _ _ l) as [[out more] st'] eqn:E.
  destruct (IH (next_nonce id) (wadd 256 cost (v_cost (pit_transaction t))) (negb (is_pending s))
    (if bool_decide (tx_id = id) then s else state)) as (l1 & l2 & -> & Hf).
  rewrite E in Hf. exists ((id, t) :: l1), l2. split; [done|]. cbn in *. constructor; [|done].
  split_and!; cbn; [done|done|]. apply insert_tx_state_valid.
Qed.

Lemma update_base_fee_rewrites fee t :
  pit_transaction (update_base_fee fee t) = pit_transaction t /\
  (valid_state (pit_state t) -> valid_state (pit_state (update_base_fee fee t))).
Proof.
  unfold update_base_fee. destruct (v_max_fee_per_gas _); [|done].
  case_match; (split; [done|]); cbn; intros; valid_flags.
Qed.

Lemma update_step_rewrites fee mode id t :
  rewrites (id, (update_step fee mode id t).1.1) (id, t).
Proof.
  assert (Hfirst : rewrites (id, (update_first fee id t).1.1) (id, t)).
  { unfold update_first. destruct (has_nonce_gap _); [done|]. cbn.
    destruct (update_base_fee_rewrites fee (with_state t (st_insert (pit_state t) NO_PARKED_ANCESTORS)))
      as [H1 H2]. split_and!; cbn; [done|by rewrite H1|]. intros Hv. apply H2. cbn. valid_flags. }
  assert (Hnext : forall s p, rewrites (id, (update_next fee s p t).1.1) (id, t)).
  { intros s p. unfold update_next. destruct (has_nonce_gap _); [done|]. cbn.
    destruct (update_base_fee_rewrites fee (with_state t (if p then st_remove (pit_state t) NO_PARKED_ANCESTORS
      else st_insert (pit_state t) NO_PARKED_ANCESTORS))) as [H1 H2].
    split_and!; cbn; [done|by rewrite H1|]. intros Hv. apply H2. cbn. valid_flags. }
  unfold update_step. destruct mode; [done|case_match; done|case_match; done].
Qed.

Lemma update_walk_rewrites fee mode (l : list entry) :
  Forall2 rewrites (update_walk fee mode l).1 l.
Proof.
  revert mode. induction l as [|[id t] l IH]; intros mode; [constructor|]. cbn [update_walk].
  pose proof (update_step_rewrites fee mode id t) as Hs.
  destruct (update_step fee mode id t) as [[t' ups] mode']. specialize (IH mode').
  destruct (update_walk fee mode' l) as [out more]. by constructor.
Qed.

(** Rewriting entries of a map keeps its abstraction. *)
Lemma insert_entries_lookup m (out : list entry) l1 id t :
  Forall2 rewrites out l1 -> (forall id t, (id, t) ∈ l1 -> m !! id = Some t) ->
  insert_entries m out !! id = Some t ->
  exists t0, m !! id = Some t0 /\ pit_transaction t = pit_transaction t0 /\
    (valid_state (pit_state t0) -> valid_state (pit_state t)) /\
    ((id, t) ∈ out \/ t = t0).
Proof.
  intros Hf Hm. unfold insert_entries. rewrite lookup_union_Some_raw. intros [Hl|[_ Hl]].
  - apply elem_of_list_to_map_2 in Hl as Hin.
    apply list_elem_of_lookup in Hin as [i Hi]. destruct (Forall2_lookup_l _ _ _ _ _ Hf Hi) as ([id' t0] & Hi' & H1 & H2 & H3).
    cbn in *. subst id'. exists t0. apply elem_of_list_to_map_2 in Hl.
    split_and!; [|done|done|by left]. apply Hm. by apply list_elem_of_lookup_2 with i.
  - exists t. split_and!; [done|done|done|by right].
Qed.

Lemma insert_entries_None m (out : list entry) l1 id :
  Forall2 rewrites out l1 -> (forall id t, (id, t) ∈ l1 -> m !! id = Some t) ->
  insert_entries m out !! id = None <-> m !! id = None.
Proof.
  intros Hf Hm. unfold insert_entries. rewrite lookup_union_None. split; [by intros [_ ?]|].
  intros Hn. split; [|done]. destruct (list_to_map out !! id) as [t|] eqn:Hl; [|done].
  destruct (insert_entries_lookup m out l1 id t Hf Hm) as (t0 & Ht0 & _); [|congruence].
  unfold insert_entries. by apply lookup_union_Some_l.
Qed.

Lemma insert_entries_abs m (out : list entry) l1 :
  Forall2 rewrites out l1 -> (forall id t, (id, t) ∈ l1 -> m !! id = Some t) ->
  abs (insert_entries m out) = abs m.
Proof.
  intros Hf Hm. apply map_eq. intros id. unfold abs. rewrite !lookup_fmap.
  destruct (insert_entries m out !! id) as [t|] eqn:Hl.
  - destruct (insert_entries_lookup m out l1 id t Hf Hm Hl) as (t0 & -> & E & _). cbn. by rewrite E.
  - apply (insert_entries_None m out l1) in Hl as ->; done.
Qed.

Lemma insert_entries_valid m (out : list entry) l1 :
  Forall2 rewrites out l1 -> (forall id t, (id, t) ∈ l1 -> m !! id = Some t) ->
  all_states_valid m -> all_states_valid (insert_entries m out).
Proof.
  intros Hf Hm Hv id t Ht.
  destruct (insert_entries_lookup m out l1 id t Hf Hm Ht) as (t0 & Ht0 & _ & Hs & _).
  by apply Hs, (Hv id).
Qed.

(** [update] rewrites every entry: the rebuilt map is the old one overlaid. *)
Lemma update_rebuild fee mode m :
  list_to_map (update_walk fee mode (entries id_le m)).1
  = insert_entries m (update_walk fee mode (entries id_le m)).1.
Proof.
  set (out := (update_walk fee mode (entries id_le m)).1).
  pose proof (update_walk_rewrites fee mode (entries id_le m)) as Hf. fold out in Hf.
  apply map_eq. intros id. unfold insert_entries. rewrite lookup_union.
  destruct (list_to_map out !! id) as [t|] eqn:Hl; [by destruct (m !! id)|].
  destruct (m !! id) as [t|] eqn:Hm; [|done]. exfalso.
  apply (elem_of_entries id_le), list_elem_of_lookup in Hm as [i Hi].
  destruct (Forall2_lookup_r _ _ _ _ _ Hf Hi) as ([id' t'] & Hi' & H1 & _). cbn in H1. subst id'.
  apply not_elem_of_list_to_map in Hl. apply Hl, list_elem_of_fmap.
  exists (id, t'). split; [done|]. by apply list_elem_of_lookup_2 with i.
Qed.

(** ** The invariant of [AllTransactions] *)

Record all_inv (a : AllTransactions) : Prop := {
  ai_index : index_inv (abs (txs a)) (by_hash a) (tx_counter a);
  ai_states : all_states_valid (txs a);
  ai_nonces id t : txs a !! id = Some t -> 0 <= id_nonce id < u64_max
}.

Lemma all_inv_new slots : all_inv (AllTransactions_new slots).
Proof.
  split; cbn.
  - unfold abs. rewrite fmap_empty. apply index_inv_empty.
  - intros id t. by rewrite lookup_empty.
  - intros id t. by rewrite lookup_empty.
Qed.

Lemma abs_lookup m id tx : abs m !! id = Some tx <-> exists t, m !! id = Some t /\ pit_transaction t = tx.
Proof.
  unfold abs. rewrite lookup_fmap, fmap_Some. split; intros (t & H1 & H2); by exists t.
Qed.

Lemma tx_count_spec a s : counts (tx_counter a) (abs (txs a)) -> tx_count a s = sender_count s (abs (txs a)).
Proof. intros Hc. unfold tx_count. rewrite (Hc s). destruct (Z.eqb_spec (sender_count s (abs (txs a))) 0); cbn; lia. Qed.

Lemma sender_count_le_size s m : sender_count s m <= Z.of_nat (size m).
Proof.
  unfold sender_count, of_sender. enough (size (filter (fun e => id_sender e.1 = s) m) <= size m)%nat by lia.
  apply map_subseteq_size, map_filter_subseteq.
Qed.

(** The counter can still count. *)
Definition counter_room (a : AllTransactions) : Prop := all_len a < u64_max.

Lemma sender_count_room a s : counter_room a -> 0 <= sender_count s (abs (txs a)) < u64_max.
Proof.
  unfold counter_room, all_len. intros Hr. pose proof (sender_count_nonneg s (abs (txs a))).
  pose proof (sender_count_le_size s (abs (txs a))) as Hs. unfold abs in Hs at 2.
  rewrite map_size_fmap in Hs. lia.
Qed.

Lemma tx_decr_counter a a1 s :
  tx_counter a1 = tx_counter a -> counts (tx_counter a) (abs (txs a)) -> counter_room a ->
  1 <= sender_count s (abs (txs a)) ->
  tx_decr a1 s = with_counter a1 (counter_decr (tx_counter a) (abs (txs a)) s).
Proof.
  intros Ec Hc Hr Hs. unfold tx_decr, counter_decr. rewrite Ec, (Hc s). zdec.
  destruct (Z.eqb_spec (sender_count s (abs (txs a))) 1); [done|].
  rewrite wrap_small; [done|]. pose proof (sender_count_room a s Hr). unfold in_u, u64_max in *. lia.
Qed.

Lemma sender_count_pos m id tx : m !! id = Some tx -> 1 <= sender_count (id_sender id) m.
Proof.
  intros Ht. pose proof (sender_count_delete (id_sender id) m id tx Ht) as E. rewrite Z.eqb_refl in E.
  pose proof (sender_count_nonneg (id_sender id) (delete id m)). lia.
Qed.

(** *** Removal *)

Lemma all_states_valid_delete m id : all_states_valid m -> all_states_valid (delete id m).
Proof. intros Hv i t Ht. apply lookup_delete_Some in Ht as [_ Ht]. by apply (Hv i). Qed.

(** Removing by hash and removing by id are the same removal. *)
Lemma all_remove_spec a id t :
  all_inv a -> counter_room a -> txs a !! id = Some t ->
  let a' := mkAllTransactions (pending_basefee a) (minimal_protocol_basefee a) (block_gas_limit a)
    (max_account_slots a) (delete (v_hash (pit_transaction t)) (by_hash a)) (delete id (txs a))
    (counter_decr (tx_counter a) (abs (txs a)) (id_sender id)) in
  all_remove_transaction a id = (Some (pit_transaction t, pit_subpool t), a') /\
  all_remove_transaction_by_hash a (v_hash (pit_transaction t))
    = (Some (pit_transaction t, pit_subpool t), a') /\
  all_inv a'.
Proof.
  intros [Hi Hv Hn] Hr Ht a'. pose proof Hi as [Hid Hh Hc].
  assert (Hm : abs (txs a) !! id = Some (pit_transaction t)) by (apply abs_lookup; by exists t).
  pose proof (Hid _ _ Hm) as E. pose proof (sender_count_pos _ _ _ Hm) as Hp.
  assert (Hb : by_hash a !! v_hash (pit_transaction t) = Some (pit_transaction t))
    by (apply Hh; by rewrite E).
  split_and!.
  - unfold all_remove_transaction. rewrite Ht. unfold v_sender_id. rewrite E.
    rewrite (tx_decr_counter a) by done. cbn. by rewrite Hb.
  - unfold all_remove_transaction_by_hash. rewrite Hb. cbn [txs with_by_hash]. rewrite E, Ht.
    unfold v_sender_id. rewrite E. by rewrite (tx_decr_counter a) by done.
  - split; cbn.
    + unfold abs. rewrite fmap_delete. rewrite <- E. apply index_delete; [done|]. by rewrite E.
    + by apply all_states_valid_delete.
    + intros i x Hx. apply lookup_delete_Some in Hx as [_ Hx]. by apply (Hn i x).
Qed.

Lemma all_remove_none a id : txs a !! id = None -> all_remove_transaction a id = (None, a).
Proof. intros Hn. unfold all_remove_transaction. by rewrite Hn. Qed.

Lemma all_remove_by_hash_none a h : by_hash a !! h = None -> all_remove_transaction_by_hash a h = (None, a).
Proof. intros Hn. unfold all_remove_transaction_by_hash. by rewrite Hn. Qed.

(** *** Rechecking *)

Lemma all_update_inv a fee : all_inv a -> all_inv (all_update a fee).2 /\ abs (txs (all_update a fee).2) = abs (txs a).
Proof.
  intros [Hi Hv Hn]. unfold all_update.
  pose proof (update_walk_rewrites fee UniqueSender (entries id_le (txs a))) as Hf.
  pose proof (update_rebuild fee UniqueSender (txs a)) as Hb.
  destruct (update_walk fee UniqueSender (entries id_le (txs a))) as [out ups]. cbn [fst snd txs] in *.
  assert (Hm : forall id t, (id, t) ∈ entries id_le (txs a) -> txs a !! id = Some t)
    by (intros id t; by rewrite elem_of_entries).
  rewrite Hb. pose proof (insert_entries_abs _ _ _ Hf Hm) as Ha. split; [|done].
  split; cbn [txs by_hash tx_counter].
  - by rewrite Ha.
  - by apply (insert_entries_valid _ _ _ Hf Hm).
  - intros id t Ht. destruct (insert_entries_lookup _ _ _ _ _ Hf Hm Ht) as (t0 & Ht0 & _).
    by apply (Hn id t0).
Qed.

(** *** Insertion *)

(** What the validator promises of a transaction it hands to the pool. *)
Record valid_tx (tx : ValidPoolTransaction) : Prop := {
  vt_id : id_nonce (transaction_id tx) = v_nonce tx;
  vt_nonce : 0 <= v_nonce tx < u64_max
}.

Definition same_config (a a' : AllTransactions) : Prop :=
  pending_basefee a' = pending_basefee a /\
  minimal_protocol_basefee a' = minimal_protocol_basefee a /\
  block_gas_limit a' = block_gas_limit a /\ max_account_slots a' = max_account_slots a.

Lemma insert_entry_ok a p replaced a1 :
  insert_entry a p = Ok (replaced, a1) ->
  txs a1 = <[transaction_id (pit_transaction p) := p]> (txs a) /\
  tx_counter a1 = tx_counter a /\ same_config a a1 /\
  replaced = (fun t => (pit_transaction t, pit_subpool t)) <$> txs a !! transaction_id (pit_transaction p).
Proof.
  unfold insert_entry. destruct (txs a !! _) as [old|]; [destruct (is_underpriced _ _); [done|]|];
    intros [= <- <-]; by split_and!.
Qed.

Lemma insert_entry_index a p replaced a1 :
  all_inv a -> counter_room a -> hash_fresh (abs (txs a)) (pit_transaction p) ->
  insert_entry a p = Ok (replaced, a1) ->
  let s := v_sender_id (pit_transaction p) in
  index_inv (abs (txs a1)) (by_hash a1)
    (match replaced with None => <[s := wadd 64 (tx_count a s) 1]> (tx_counter a) | Some _ => tx_counter a end).
Proof.
  intros [Hi _ _] Hr Hf He s. unfold insert_entry in He.
  assert (Hl : forall t, txs a !! transaction_id (pit_transaction p) = t ->
    abs (txs a) !! transaction_id (pit_transaction p) = pit_transaction <$> t)
    by (intros t <-; apply lookup_fmap).
  destruct (txs a !! _) as [old|] eqn:Ho.
  - destruct (is_underpriced _ _); [done|]. injection He as <- <-. cbn.
    unfold abs. rewrite fmap_insert. apply index_replace; [done|by apply (Hl (Some old))|done].
  - injection He as <- <-. cbn. unfold abs. rewrite fmap_insert.
    rewrite (tx_count_spec a) by apply Hi.
    rewrite wadd_small by (pose proof (sender_count_room a s Hr); unfold in_u, u64_max in *; lia).
    apply index_insert; [done|by apply (Hl None)|done].
Qed.

(** The successful call, taken apart. *)
Lemma insert_tx_Ok_inv a tx balance n r a' :
  insert_tx a tx balance n = (Ok r, a') ->
  exists state replaced a1 parked out ups st',
    let predecessor := TransactionId_ancestor (v_nonce tx) n (v_sender_id tx) in
    let range := descendant_txs a1 (mkTransactionId (v_sender_id tx) n) in
    n <= v_nonce tx /\ ensure_valid a tx = Ok tx /\ insert_state a tx predecessor = Ok state /\
    insert_entry a (mkPoolInternalTransaction tx Queued state 0) = Ok (replaced, a1) /\
    initial_parked predecessor (transaction_id tx) range = Some parked /\
    insert_walk (transaction_id tx) balance n 0 parked state range = (out, ups, st') /\
    r = mkInsertOk tx (subpool_of st') st' replaced ups /\
    a' = (let a2 := with_txs a1 (insert_entries (txs a1) out) in
          match replaced with None => tx_inc a2 (v_sender_id tx) | Some _ => a2 end).
Proof.
  unfold insert_tx. destruct (Z.leb_spec n (v_nonce tx)); [|done]. cbn [negb].
  destruct (ensure_valid a tx) as [tx'|e| |] eqn:Hv; [|done..].
  assert (tx' = tx) as ->.
  { unfold ensure_valid in Hv. destruct (_ && _); [done|]. destruct (_ <? _); [done|]. by injection Hv. }
  cbn [mbind outcome_bind].
  destruct (insert_state _ _ _) as [state|e| |] eqn:Hs; [|done..]. cbn [mbind outcome_bind].
  destruct (insert_entry _ _) as [[replaced a1]|e| |] eqn:He; [|done..]. cbn [mbind outcome_bind].
  destruct (initial_parked _ _ _) as [parked|] eqn:Hp; [|done].
  destruct (insert_walk _ _ _ _ _ _ _) as [[out ups] st'] eqn:Hw. intros [= <- <-].
  by exists state, replaced, a1, parked, out, ups, st'.
Qed.

Lemma insert_range_entries a1 (i : TransactionId) l1 l2 :
  descendant_txs a1 i = l1 ++ l2 -> forall id t, (id, t) ∈ l1 -> txs a1 !! id = Some t.
Proof.
  intros E id t Hin. apply (elem_of_descendant_txs a1 i id t). rewrite E. apply elem_of_app. by left.
Qed.

Lemma insert_state_valid a tx pred state : insert_state a tx pred = Ok state -> valid_state state.
Proof.
  unfold insert_state. intros H.
  assert (H0 : forall o, (o ← o; Ok (if v_gas_limit tx <? block_gas_limit a then st_insert o NOT_TOO_MUCH_GAS else o))
    = Ok (E := InsertErr) state -> (forall s, o = Ok s -> valid_state s) -> valid_state state).
  { intros [s| | |] Ho Hs; try done. cbn in Ho. injection Ho as <-. specialize (Hs s eq_refl). valid_flags. }
  apply (H0 _ H). intros s. destruct (v_max_fee_per_gas tx) as [fee|].
  - destruct (fee <? _); [done|].
    destruct (_ <=? fee); intros Es; injection Es as <-; destruct pred; valid_flags.
  - intros Es; injection Es as <-. destruct pred; valid_flags.
Qed.

Lemma insert_tx_inv_ok a tx balance n r a' :
  all_inv a -> counter_room a -> valid_tx tx -> hash_fresh (abs (txs a)) tx ->
  insert_tx a tx balance n = (Ok r, a') ->
  all_inv a' /\ abs (txs a') = <[transaction_id tx := tx]> (abs (txs a)) /\ same_config a a' /\
  ok_replaced_tx r = (fun t => (pit_transaction t, pit_subpool t)) <$> txs a !! transaction_id tx.
Proof.
  intros Ha Hr [Hid Hnonce] Hf Hins.
  destruct (insert_tx_Ok_inv _ _ _ _ _ _ Hins) as (state & replaced & a1 & parked & out & ups & st' &
    _ & _ & Hs & He & _ & Hw & -> & ->).
  pose proof (insert_entry_index a (mkPoolInternalTransaction tx Queued state 0) _ _ Ha Hr Hf He) as Hix. cbn zeta in Hix.
  apply insert_entry_ok in He as (Etx & Ec & Hcfg & Erep). cbn [pit_transaction] in *.
  destruct (insert_walk_rewrites (transaction_id tx) balance n 0 parked state
    (descendant_txs a1 (mkTransactionId (v_sender_id tx) n))) as (l1 & l2 & El & Hfa).
  rewrite Hw in Hfa. cbn [fst] in Hfa. pose proof (insert_range_entries _ _ _ _ El) as Hm.
  pose proof (insert_entries_abs _ _ _ Hfa Hm) as Eabs.
  set (a2 := with_txs a1 (insert_entries (txs a1) out)).
  assert (Hv : all_states_valid (txs a1)).
  { rewrite Etx. intros id t. rewrite lookup_insert. case_decide; [|apply Ha].
    intros [= <-]. by apply insert_state_valid in Hs. }
  assert (Hn : forall id t, insert_entries (txs a1) out !! id = Some t -> 0 <= id_nonce id < u64_max).
  { intros id t Ht. destruct (insert_entries_lookup _ _ _ _ _ Hfa Hm Ht) as (t0 & Ht0 & _).
    rewrite Etx, lookup_insert in Ht0. case_decide as E; [subst id; by rewrite Hid|].
    by apply (ai_nonces _ Ha id t0). }
  assert (Habs : abs (txs a1) = <[transaction_id tx:=tx]> (abs (txs a)))
    by (rewrite Etx; unfold abs; by rewrite fmap_insert).
  assert (Hcnt : tx_count a2 (v_sender_id tx) = tx_count a (v_sender_id tx))
    by (unfold tx_count; cbn; by rewrite Ec).
  split_and!; [|destruct replaced; cbn [txs with_txs tx_inc with_counter a2]; by rewrite Eabs|by destruct replaced|done].
  destruct replaced; split; cbn [txs by_hash tx_counter with_txs tx_inc with_counter a2];
    try (rewrite Eabs); try done; try (by apply (insert_entries_valid _ _ _ Hfa Hm)).
  - by rewrite Ec.
  - rewrite Hcnt, Ec. done.
Qed.
