(* ===== verification/InsertProofs.v ===== *)
(** * Transaction pool: what an insertion establishes

    The guarantees of [AllTransactions::insert_tx]: when a transaction is sent
    to the pending sub-pool, when it is rejected, which moves of other
    transactions it triggers, and what it records for the new transaction. *)
From S2P Require Import Prelude BTree PoolTypes AllTxs AllTxsProofs.

(** ** State bits *)

(** A state is pending exactly when all five conditions hold. *)
Lemma is_pending_bits s :
  valid_state s ->
  is_pending s = st_intersects s NO_PARKED_ANCESTORS && st_intersects s NO_NONCE_GAPS
    && st_intersects s ENOUGH_BALANCE && st_intersects s NOT_TOO_MUCH_GAS
    && st_intersects s ENOUGH_FEE_CAP_BLOCK.
Proof.
  intros Hs. apply eqb_prop. revert s Hs. apply all_states_correct. vm_compute. reflexivity.
Qed.

Lemma subpool_of_pending s : subpool_of s = Pending <-> is_pending s = true.
Proof. unfold subpool_of. destruct (is_pending s); [done|]. destruct (s <? _); done. Qed.

(** The walk makes a transaction pending only if it is affordable, has no
    parked ancestor and passed the fee and gas checks. *)
Lemma insert_tx_state_pending balance cost parked s :
  valid_state s -> is_pending (insert_tx_state balance cost parked s) = true ->
  cost <= balance /\ parked = false /\ st_intersects s NOT_TOO_MUCH_GAS = true /\
  st_intersects s ENOUGH_FEE_CAP_BLOCK = true.
Proof.
  intros Hs. unfold insert_tx_state. destruct (Z.ltb_spec balance cost), parked; cbv zeta.
  1-3: intros Hp; exfalso; revert Hp; apply not_true_iff_false, negb_true_iff; revert s Hs;
    apply all_states_correct; vm_compute; reflexivity.
  intros Hp. split_and!; [lia|done| |]; revert Hp; apply implb_true_iff; revert s Hs;
    apply all_states_correct; vm_compute; reflexivity.
Qed.

(** What [insert_state] establishes for the new transaction. *)
Lemma insert_state_bits a tx pred state :
  insert_state a tx pred = Ok state ->
  st_intersects state ENOUGH_BALANCE = false /\
  (st_intersects state NOT_TOO_MUCH_GAS = true -> v_gas_limit tx < block_gas_limit a) /\
  (st_intersects state ENOUGH_FEE_CAP_BLOCK = true ->
     forall fee, v_max_fee_per_gas tx = Some fee -> pending_basefee a <= fee) /\
  (forall fee, v_max_fee_per_gas tx = Some fee -> minimal_protocol_basefee a <= fee).
Proof.
  unfold insert_state.
  destruct pred, (v_max_fee_per_gas tx) as [fee|];
    try (destruct (Z.ltb_spec fee (minimal_protocol_basefee a)); [done|]);
    try (destruct (Z.leb_spec (pending_basefee a) fee));
    cbn [mbind outcome_bind]; destruct (Z.ltb_spec (v_gas_limit tx) (block_gas_limit a));
    intros Hs; injection Hs as <-; (split_and!; [reflexivity|..]);
    first [ done | by intros _ | (intros Hb; vm_compute in Hb; done)
          | (intros _ ? [= <-]; done) | (intros ? [= <-]; done) ].
Qed.

(** ** The run of a sender *)

Definition entry_cost (e : entry) : Z := v_cost (pit_transaction e.2).
Definition total_cost (l : list entry) : Z := foldr (fun e acc => entry_cost e + acc) 0 l.

Lemma total_cost_app l1 l2 : total_cost (l1 ++ l2) = total_cost l1 + total_cost l2.
Proof. induction l1 as [|e l1 IH]; cbn; [done|]. unfold total_cost in *. rewrite IH. lia. Qed.

(** The entries have the nonces [n], [n + 1], ... *)
Fixpoint gapless (n : Z) (l : list entry) : Prop :=
  match l with [] => True | e :: l => id_nonce e.1 = n /\ gapless (n + 1) l end.

Lemma gapless_app n l1 l2 :
  gapless n (l1 ++ l2) <-> gapless n l1 /\ gapless (n + zlen l1) l2.
Proof.
  revert n. induction l1 as [|e l1 IH]; intros n; cbn.
  - rewrite Z.add_0_r. tauto.
  - rewrite IH. replace (n + 1 + zlen l1) with (n + Z.of_nat (S (length l1))) by lia. tauto.
Qed.

Lemma gapless_lookup n l k :
  gapless n l -> n <= k < n + zlen l -> exists e, e ∈ l /\ id_nonce e.1 = k.
Proof.
  revert n. induction l as [|e l IH]; intros n Hg Hk; cbn in *; [lia|]. destruct Hg as [He Hg].
  destruct (Z.eq_dec k n) as [->|]; [exists e; split; [left|done]|].
  destruct (IH (n + 1) Hg) as (e' & Hin & He'); [lia|]. exists e'. split; [by right|done].
Qed.

Definition nonces_small (l : list entry) : Prop := Forall (fun e => 0 <= id_nonce e.1 < u64_max) l.

Lemma next_nonce_small id : 0 <= id_nonce id < u64_max -> next_nonce id = id_nonce id + 1.
Proof. intros H. unfold next_nonce. apply wadd_small. unfold in_u, u64_max in *. lia. Qed.

(** The state the walk returns for the new transaction: untouched when the walk
    does not reach it, else decided by the run of transactions before it. *)
Lemma insert_walk_state tx_id balance n c parked state l out ups st' :
  nonces_small l ->
  insert_walk tx_id balance n c parked state l = (out, ups, st') ->
  NoDup (l.*1) ->
  (st' = state /\ tx_id ∉ out.*1) \/
  exists pre t post pk,
    l = pre ++ (tx_id, t) :: post /\ gapless n (pre ++ [(tx_id, t)]) /\
    (pre = [] -> pk = parked) /\
    st' = insert_tx_state balance (wrap 256 (c + total_cost (pre ++ [(tx_id, t)]))) pk (pit_state t) /\
    exists t', (tx_id, t') ∈ out /\ pit_state t' = st' /\ pit_subpool t' = pit_subpool t.
Proof.
  revert n c parked state out ups st'. induction l as [|[id t] l IH];
    intros n c parked state out ups st' Hsm Hw Hnd; cbn [insert_walk] in Hw.
  { injection Hw as <- <- <-. left. set_solver. }
  destruct (Z.eqb_spec n (id_nonce id)) as [En|]; cbn [negb] in Hw; [|injection Hw as <- <- <-; left; set_solver].
  apply Forall_cons_1 in Hsm as [Hid Hsm]. cbn in Hid, Hnd. apply NoDup_cons in Hnd as [Hni Hnd].
  cbv zeta in Hw. rewrite next_nonce_small in Hw by done.
  set (s := insert_tx_state _ _ _ _) in *.
  destruct (insert_walk _ _ _ _ _ _ l) as [[out' more] st2] eqn:E. injection Hw as <- _ <-.
  specialize (IH _ _ _ _ _ _ _ Hsm E Hnd). case_bool_decide as Hnew.
  - subst id. destruct IH as [[-> Hno]|(pre & t0 & post & pk & El & _)].
    + right. exists [], t, l, parked. cbn. split_and!; [done|done|done|done| |].
      * unfold s. f_equal. unfold wadd. f_equal. unfold entry_cost. cbn. lia.
      * eexists. split; [left|]. by split.
    + exfalso. apply Hni. rewrite El, fmap_app. set_solver.
  - destruct IH as [[-> Hno]|(pre & t0 & post & pk & -> & Hg & _ & Hst & t' & Hin & Ht')].
    + left. split; [done|]. cbn. set_solver.
    + right. exists ((id, t) :: pre), t0, post, pk. cbn [app gapless].
      split_and!; [done|done|by rewrite En|done| |].
      * rewrite Hst. f_equal. unfold wadd, wrap. cbn [total_cost foldr]. fold (total_cost (pre ++ [(tx_id, t0)])).
        rewrite Zplus_mod_idemp_l. f_equal. unfold entry_cost. cbn. lia.
      * exists t'. split; [by right|done].
Qed.

(** ** Insertion: the guarantees *)

Lemma range_keys_NoDup a i : NoDup (descendant_txs a i).*1.
Proof.
  pose proof (descendant_txs_sorted a i) as Hs. induction Hs as [|e l Hs IH Hall]; [constructor|].
  cbn. apply NoDup_cons. split; [|done]. intros ([j t] & E & Hin)%list_elem_of_fmap.
  rewrite Forall_forall in Hall. specialize (Hall _ Hin).
  unfold entry_lt in Hall. apply strict_ne in Hall. by apply Hall.
Qed.

Lemma insert_range_small a tx state replaced a1 i :
  all_inv a -> valid_tx tx ->
  insert_entry a (mkPoolInternalTransaction tx Queued state 0) = Ok (replaced, a1) ->
  nonces_small (descendant_txs a1 i).
Proof.
  intros Ha Htx He. apply insert_entry_ok in He as (Etx & _). cbn in Etx. apply Forall_forall.
  intros [id t] Hin. apply elem_of_descendant_txs in Hin as (Ht & _). cbn.
  rewrite Etx, lookup_insert in Ht. case_decide as E.
  - subst id. rewrite (vt_id _ Htx). apply Htx.
  - by apply (ai_nonces _ Ha id t).
Qed.

Lemma rewritten_keys_NoDup (out l1 l2 : list entry) :
  Forall2 rewrites out l1 -> NoDup (l1 ++ l2).*1 -> NoDup out.*1.
Proof.
  intros Hf Hn. assert (out.*1 = l1.*1) as ->.
  { apply list_eq_Forall2, Forall2_fmap. eapply Forall2_impl; [exact Hf|]. by intros ?? [??]. }
  rewrite fmap_app in Hn. by apply NoDup_app in Hn as [? _].
Qed.

(** The transactions before the new one in its sender's range were there
    before the insertion. *)
Lemma range_before_new a a1 (p : PoolInternalTransaction) id i pre post :
  txs a1 = <[id := p]> (txs a) -> descendant_txs a1 i = pre ++ (id, p) :: post ->
  Forall (fun e => exists t, txs a !! e.1 = Some t /\ pit_transaction t = pit_transaction e.2
    /\ id_sender e.1 = id_sender i /\ e.1 <> id) pre.
Proof.
  intros Etx Er. apply Forall_forall. intros e He.
  assert (Hin : e ∈ descendant_txs a1 i) by (rewrite Er; apply elem_of_app; by left).
  destruct e as [j x]. apply elem_of_descendant_txs in Hin as (Hl & Hs & _). cbn.
  rewrite Etx, lookup_insert in Hl. case_decide as E; [|exists x; by split_and!]. exfalso.
  pose proof (range_keys_NoDup a1 i) as Hn. rewrite Er, fmap_app in Hn.
  apply NoDup_app in Hn as (_ & Hn & _). apply (Hn id); [|by left].
  apply list_elem_of_fmap. exists (j, x). by rewrite E.
Qed.

(** What the walk of a successful insertion says about the new transaction. *)
Lemma insert_tx_walked a tx balance n r a' :
  all_inv a -> valid_tx tx -> insert_tx a tx balance n = (Ok r, a') ->
  exists state,
    insert_state a tx (TransactionId_ancestor (v_nonce tx) n (v_sender_id tx)) = Ok state /\
    ok_move_to r = subpool_of (ok_state r) /\ abs (txs a') = <[transaction_id tx := tx]> (abs (txs a)) /\
    (exists t', txs a' !! transaction_id tx = Some t' /\ pit_state t' = ok_state r /\ pit_subpool t' = Queued) /\
    (ok_state r = state \/
     exists pre pk,
       let run := pre ++ [(transaction_id tx, mkPoolInternalTransaction tx Queued state 0)] in
       Forall (fun e => exists t, txs a !! e.1 = Some t /\ pit_transaction t = pit_transaction e.2
         /\ id_sender e.1 = v_sender_id tx /\ e.1 <> transaction_id tx) pre /\
       gapless n run /\ ok_state r = insert_tx_state balance (wrap 256 (total_cost run)) pk state).
Proof.
  intros Ha Htx Hins.
  destruct (insert_tx_Ok_inv _ _ _ _ _ _ Hins) as (state & replaced & a1 & parked & out & ups & st' &
    _ & _ & Hs & He & _ & Hw & -> & ->). cbn [ok_move_to ok_state].
  pose proof (insert_range_small a tx state replaced a1 (mkTransactionId (v_sender_id tx) n) Ha Htx He) as Hsm.
  pose proof (insert_walk_state _ _ _ _ _ _ _ _ _ _ Hsm Hw (range_keys_NoDup _ _)) as Hst.
  destruct (insert_walk_rewrites (transaction_id tx) balance n 0 parked state
    (descendant_txs a1 (mkTransactionId (v_sender_id tx) n))) as (l1 & l2 & El & Hf).
  rewrite Hw in Hf. cbn [fst] in Hf. pose proof (insert_range_entries _ _ _ _ El) as Hm.
  apply insert_entry_ok in He as (Etx & _). cbn [pit_transaction] in Etx.
  set (p := mkPoolInternalTransaction tx Queued state 0) in *.
  assert (Hp : txs a1 !! transaction_id tx = Some p) by (rewrite Etx; apply lookup_insert_eq).
  assert (Eabs : abs (insert_entries (txs a1) out) = <[transaction_id tx := tx]> (abs (txs a))).
  { rewrite (insert_entries_abs _ _ _ Hf Hm), Etx. unfold abs. by rewrite fmap_insert. }
  assert (E2 : txs (match replaced with None => tx_inc (with_txs a1 (insert_entries (txs a1) out)) (v_sender_id tx)
    | Some _ => with_txs a1 (insert_entries (txs a1) out) end) = insert_entries (txs a1) out) by (by destruct replaced).
  assert (Hnew : forall pre t post, descendant_txs a1 (mkTransactionId (v_sender_id tx) n)
    = pre ++ (transaction_id tx, t) :: post -> t = p).
  { intros pre t post Er. apply (inj Some). rewrite <- Hp. symmetry.
    apply (elem_of_descendant_txs a1 (mkTransactionId (v_sender_id tx) n)). rewrite Er. set_solver. }
  exists state. cbv zeta. rewrite E2. split_and!; [done|done|done| |].
  - destruct Hst as [[-> Hno]|(pre & t & post & pk & Er & _ & _ & _ & t' & Hin & Ht' & Hsub)].
    + exists p. split; [|done]. apply lookup_union_Some_raw. right. split; [|done].
      by apply not_elem_of_list_to_map.
    + exists t'. split_and!; [|done|].
      * apply lookup_union_Some_l, elem_of_list_to_map; [|done].
        apply (rewritten_keys_NoDup _ l1 l2); [done|]. rewrite <- El. apply range_keys_NoDup.
      * by rewrite Hsub, (Hnew _ _ _ Er).
  - destruct Hst as [[-> _]|(pre & t & post & pk & Er & Hg & _ & Hst & _)]; [by left|right].
    pose proof (Hnew _ _ _ Er) as ->. exists pre, pk. split_and!; [|done|done].
    apply (range_before_new a a1 p (transaction_id tx) (mkTransactionId (v_sender_id tx) n) pre post Etx Er).
Qed.

(** C18. What the pending sub-pool promises.  A transaction that [insert_tx] sends
    to the pending sub-pool fits into a block and, if it has a maximum fee (EIP-1559),
    pays the base fee of the pending block; the gas price of other transactions is not
    compared with it.  It belongs to a gapless run of pooled transactions of its sender
    from the account nonce up to itself whose total cost (in 256-bit
    arithmetic) the sender can pay. *)
Theorem insert_tx_pending a tx balance n r a' :
  all_inv a -> valid_tx tx -> insert_tx a tx balance n = (Ok r, a') -> ok_move_to r = Pending ->
  (forall fee, v_max_fee_per_gas tx = Some fee -> pending_basefee a <= fee) /\
  v_gas_limit tx < block_gas_limit a /\
  exists run, gapless n run /\ wrap 256 (total_cost run) <= balance /\
    last run.*1 = Some (transaction_id tx) /\
    Forall (fun e => abs (txs a') !! e.1 = Some (pit_transaction e.2) /\ id_sender e.1 = v_sender_id tx) run.
Proof.
  intros Ha Htx Hins Hmv.
  destruct (insert_tx_walked _ _ _ _ _ _ Ha Htx Hins) as (state & Hs & Emv & Eabs & _ & Hst).
  rewrite Emv in Hmv. apply subpool_of_pending in Hmv. pose proof (insert_state_valid _ _ _ _ Hs) as Hv.
  destruct (insert_state_bits _ _ _ _ Hs) as (Hbal & Hgas & Hfee & _).
  destruct Hst as [E|(pre & pk & Hpre & Hg & E)]; rewrite E in Hmv.
  { rewrite is_pending_bits, Hbal in Hmv by done. by rewrite andb_false_r in Hmv. }
  apply insert_tx_state_pending in Hmv as (Hc & _ & Hb1 & Hb2); [|done].
  split_and!; [by apply Hfee|by apply Hgas|]. eexists. split_and!; [exact Hg|exact Hc| |].
  - rewrite fmap_app. apply last_snoc.
  - rewrite Eabs. apply Forall_app. split; [|apply Forall_singleton; by rewrite lookup_insert_eq].
    eapply Forall_impl; [exact Hpre|]. intros [i x] (t & Ht & Et & Hsn & Hne). cbn in *. split; [|done].
    rewrite lookup_insert_ne by done. apply abs_lookup. by exists t.
Qed.

Definition sample_pool : AllTransactions :=
  (insert_tx (AllTransactions_new 16) (sample_tx 7 0 100 30 50) 100 0).2.

Lemma sample_pool_inv : all_inv sample_pool.
Proof.
  refine (proj1 (insert_tx_inv_ok (AllTransactions_new 16) (sample_tx 7 0 100 30 50) 100 0 _ _ _ _ _ _ _)).
  - apply all_inv_new.
  - done.
  - by split.
  - intros id tx. vm_compute. done.
  - unfold sample_pool. vm_compute. reflexivity.
Qed.

Lemma insert_tx_pending_witness :
  exists r, insert_tx sample_pool (sample_tx 7 1 101 40 60) 100 0 =
    (Ok r, (insert_tx sample_pool (sample_tx 7 1 101 40 60) 100 0).2) /\
  ok_move_to r = Pending /\ pending_basefee sample_pool <= 60.
Proof.
  eexists. split; [vm_compute; reflexivity|]. split; [reflexivity|].
  refine (proj1 (insert_tx_pending sample_pool (sample_tx 7 1 101 40 60) 100 0
    _ _ sample_pool_inv _ _ _) 60 eq_refl).
  - by split.
  - vm_compute. reflexivity.
  - reflexivity.
Defined.

(** The [expect] of [insert_tx] cannot fail: the new transaction is in range. *)
Lemma initial_parked_some a tx n state replaced a1 pred :
  valid_tx tx -> n <= v_nonce tx ->
  insert_entry a (mkPoolInternalTransaction tx Queued state 0) = Ok (replaced, a1) ->
  is_Some (initial_parked pred (transaction_id tx) (descendant_txs a1 (mkTransactionId (v_sender_id tx) n))).
Proof.
  intros Htx Hn He. apply insert_entry_ok in He as (Etx & _). cbn in Etx.
  destruct pred; [|by eexists]. cbn.
  assert (Hin : (transaction_id tx, mkPoolInternalTransaction tx Queued state 0)
    ∈ descendant_txs a1 (mkTransactionId (v_sender_id tx) n)).
  { apply elem_of_descendant_txs. rewrite Etx, lookup_insert_eq. cbn. rewrite (vt_id _ Htx). done. }
  destruct (descendant_txs _ _) as [|[]]; [by apply not_elem_of_nil in Hin|by eexists].
Qed.

Lemma ensure_valid_safe a tx : match ensure_valid a tx with Ok tx' => tx' = tx | Err _ => True | _ => False end.
Proof. unfold ensure_valid. destruct (_ && _); [done|]. by destruct (_ <? _). Qed.

Lemma insert_state_safe a tx pred : match insert_state a tx pred with Ok _ | Err _ => True | _ => False end.
Proof.
  unfold insert_state. destruct (v_max_fee_per_gas tx) as [fee|]; [|done].
  destruct (fee <? _); [done|]. by destruct (_ <=? fee).
Qed.

Lemma insert_entry_safe a p : match insert_entry a p with Ok _ | Err _ => True | _ => False end.
Proof. unfold insert_entry. destruct (txs a !! _); [|done]. by destruct (is_underpriced _ _). Qed.

(** The outcomes of [insert_tx], in the order of its checks. *)
Lemma insert_tx_cases a tx balance n :
  valid_tx tx -> n <= v_nonce tx ->
  let checks := tx' ← ensure_valid a tx;
    state ← insert_state a tx' (TransactionId_ancestor (v_nonce tx) n (v_sender_id tx));
    insert_entry a (mkPoolInternalTransaction tx' Queued state 0) in
  match checks with
  | Err e => insert_tx a tx balance n = (Err e, a)
  | Ok _ => exists r a', insert_tx a tx balance n = (Ok r, a')
  | _ => False
  end.
Proof.
  intros Htx Hn. unfold insert_tx. zdec. cbn [negb].
  pose proof (ensure_valid_safe a tx) as H1. destruct (ensure_valid a tx) as [tx'|e| |]; [|done..].
  subst tx'. cbn [mbind outcome_bind].
  pose proof (insert_state_safe a tx (TransactionId_ancestor (v_nonce tx) n (v_sender_id tx))) as H2.
  change (id_sender (transaction_id tx)) with (v_sender_id tx).
  destruct (insert_state _ _ _) as [state|e| |]; [|done..]. cbn [mbind outcome_bind].
  pose proof (insert_entry_safe a (mkPoolInternalTransaction tx Queued state 0)) as H3.
  destruct (insert_entry _ _) as [[replaced a1]|e| |] eqn:He; [|done..]. cbn [mbind outcome_bind].
  destruct (initial_parked_some _ _ _ _ _ _ (TransactionId_ancestor (v_nonce tx) n (v_sender_id tx)) Htx Hn He) as [parked ->].
  destruct (insert_walk _ _ _ _ _ _ _) as [[out ups] st']. by eexists _, _.
Qed.

(** C19. Refinement of the set of transactions.  [insert_tx] implements insertion
    into a map from ids to transactions: a success binds the id to the new
    transaction, reports the transaction it replaces, and keeps the hash index
    and the per-sender counters exact; an error changes nothing; and the only
    panic is the assertion against nonces below the account's. *)
Theorem insert_tx_refines a tx balance n :
  all_inv a -> counter_room a -> valid_tx tx -> hash_fresh (abs (txs a)) tx ->
  match insert_tx a tx balance n with
  | (Ok r, a') =>
      all_inv a' /\ abs (txs a') = <[transaction_id tx := tx]> (abs (txs a)) /\
      ok_transaction r = tx /\ fst <$> ok_replaced_tx r = abs (txs a) !! transaction_id tx
  | (Err _, a') => a' = a
  | (Panic, _) => v_nonce tx < n
  | (Diverge, _) => False
  end.
Proof.
  intros Ha Hr Htx Hf. destruct (Z.lt_ge_cases (v_nonce tx) n) as [Hlt|Hn].
  { unfold insert_tx. zdec. done. }
  pose proof (insert_tx_cases a tx balance n Htx Hn) as Hc. cbv zeta in Hc.
  destruct (x ← ensure_valid a tx; _) as [x|e| |]; [|by rewrite Hc|done..].
  destruct Hc as (r & a' & E). rewrite E.
  destruct (insert_tx_inv_ok _ _ _ _ _ _ Ha Hr Htx Hf E) as (H1 & H2 & _ & H3).
  split_and!; [done|done| |].
  - apply insert_tx_Ok_inv in E as (?&?&?&?&?&?&?&_&_&_&_&_&_&->&_). done.
  - rewrite H3. unfold abs. rewrite lookup_fmap. by destruct (txs a !! _).
Qed.

Lemma insert_tx_refines_witness :
  exists r a', insert_tx sample_pool (sample_tx 7 0 102 30 51) 100 0 = (Ok r, a') /\ all_inv a' /\
    fst <$> ok_replaced_tx r = Some (sample_tx 7 0 100 30 50).
Proof.
  eexists _, _. split; [vm_compute; reflexivity|].
  pose proof (insert_tx_refines sample_pool (sample_tx 7 0 102 30 51) 100 0 sample_pool_inv) as H.
  assert (H0 : hash_fresh (abs (txs sample_pool)) (sample_tx 7 0 102 30 51)).
  { intros id tx Hl Hh. change (abs (txs sample_pool)) with
      (<[mkTransactionId 7 0 := sample_tx 7 0 100 30 50]> (∅ : gmap TransactionId ValidPoolTransaction)) in Hl.
    apply lookup_insert_Some in Hl as [[<- <-]|[_ Hl]]; [done|by rewrite lookup_empty in Hl]. }
  specialize (H eq_refl ltac:(by split) H0). vm_compute in H. destruct H as (H1 & _ & _ & H2).
  split; [exact H1|reflexivity].
Defined.

Lemma insert_checks a tx pred :
  (exists e, (state ← insert_state a tx pred; insert_entry a (mkPoolInternalTransaction tx Queued state 0)) = Err e)
  <-> (exists fee, v_max_fee_per_gas tx = Some fee /\ fee < minimal_protocol_basefee a) \/
      (exists old, abs (txs a) !! transaction_id tx = Some old /\
         effective_gas_price (transaction tx) <= effective_gas_price (transaction old)).
Proof.
  assert (Hent : forall state, (exists e, insert_entry a (mkPoolInternalTransaction tx Queued state 0) = Err e) <->
    exists old, abs (txs a) !! transaction_id tx = Some old /\
         effective_gas_price (transaction tx) <= effective_gas_price (transaction old)).
  { intros state. unfold insert_entry, abs. cbn. rewrite lookup_fmap.
    destruct (txs a !! transaction_id tx) as [old|]; cbn; [|split; [by intros [? ?]|by intros (? & ? & _)]].
    unfold is_underpriced. destruct (Z.leb_spec (effective_gas_price (transaction tx))
      (effective_gas_price (transaction (pit_transaction old)))); split.
    - intros _. by eexists.
    - intros _. by eexists.
    - by intros [? ?].
    - intros (? & [= <-] & ?). lia. }
  unfold insert_state. destruct (v_max_fee_per_gas tx) as [fee|]; cbn.
  - destruct (Z.ltb_spec fee (minimal_protocol_basefee a)).
    { split; [intros _; left; by exists fee|by eexists]. }
    destruct (_ <=? fee); cbn [mbind outcome_bind]; rewrite Hent; (split; [tauto|]);
      (intros [(f & [= <-] & Hf)|?]; [lia|done]).
  - rewrite Hent. split; [tauto|]. intros [(f & ? & _)|?]; done.
Qed.

(** C40. Exactly four reasons reject a transaction whose nonce is not outdated: a
    remote sender has used up its slots, the gas limit exceeds the block's, the
    fee cap is below the protocol's minimum, or it does not pay more than the
    pooled transaction it would replace. *)
Theorem insert_tx_rejects a tx balance n :
  all_inv a -> valid_tx tx -> n <= v_nonce tx ->
  (exists e, (insert_tx a tx balance n).1 = Err e) <->
  (origin tx = External /\ max_account_slots a <= sender_count (v_sender_id tx) (abs (txs a))) \/
  block_gas_limit a < v_gas_limit tx \/
  (exists fee, v_max_fee_per_gas tx = Some fee /\ fee < minimal_protocol_basefee a) \/
  (exists old, abs (txs a) !! transaction_id tx = Some old /\
     effective_gas_price (transaction tx) <= effective_gas_price (transaction old)).
Proof.
  intros Ha Htx Hn. pose proof (insert_tx_cases a tx balance n Htx Hn) as Hc. cbv zeta in Hc.
  assert (Hres : (exists e, (insert_tx a tx balance n).1 = Err e) <->
    exists e, (tx' ← ensure_valid a tx;
    state ← insert_state a tx' (TransactionId_ancestor (v_nonce tx) n (v_sender_id tx));
    insert_entry a (mkPoolInternalTransaction tx' Queued state 0)) = Err e).
  { destruct (x ← ensure_valid a tx; _) as [x|e| |]; [|rewrite Hc; by split; eexists|done..].
    destruct Hc as (r & a' & ->). split; by intros [? ?]. }
  rewrite Hres. clear Hc Hres. unfold ensure_valid. rewrite tx_count_spec by apply Ha.
  set (c := sender_count _ _). destruct (origin tx) eqn:Ho; cbn [is_local negb andb].
  2: destruct (Z.leb_spec (max_account_slots a) c); [split; [intros _; left; done|by eexists]|].
  all: destruct (Z.ltb_spec (block_gas_limit a) (v_gas_limit tx));
    [split; [intros _; right; left; lia|by eexists]|]; cbn [mbind outcome_bind].
  all: rewrite (insert_checks a tx (TransactionId_ancestor (v_nonce tx) n (v_sender_id tx))).
  all: split; [intros [?|?]; tauto|intros [[??]|[?|?]]; [(done || lia)|lia|tauto]].
Qed.

Lemma insert_tx_rejects_witness :
  exists e, (insert_tx sample_pool (sample_tx 7 0 102 30 50) 100 0).1 = Err e.
Proof.
  apply (insert_tx_rejects sample_pool (sample_tx 7 0 102 30 50) 100 0 sample_pool_inv).
  - by split.
  - done.
  - right; right; right. exists (sample_tx 7 0 100 30 50). by split.
Defined.

(** ** The moves between sub-pools *)

(** The move from the sub-pool recorded in [t] to the one recorded in [t']. *)
Definition move (id : TransactionId) (t t' : PoolInternalTransaction) : PoolUpdate :=
  mkPoolUpdate id (v_hash (pit_transaction t)) (pit_subpool t) (ToPool (pit_subpool t')).

(** The updates of a walk over [l1] that writes [out], the new transaction
    excepted. *)
Lemma insert_walk_moves tx_id balance n c parked state l out ups st' :
  insert_walk tx_id balance n c parked state l = (out, ups, st') ->
  forall u, u ∈ ups <-> exists i id t t', l !! i = Some (id, t) /\ out !! i = Some (id, t') /\
    pit_subpool t <> pit_subpool t' /\ u = move id t t'.
Proof.
  revert n c parked state out ups st'. induction l as [|[id t] l IH];
    intros n c parked state out ups st' Hw u; cbn [insert_walk] in Hw.
  { injection Hw as <- <- <-. split; [by intros ?%not_elem_of_nil|]. by intros ([]&?&?&?&?&_). }
  destruct (negb (n =? id_nonce id)).
  { injection Hw as <- <- <-. split; [by intros ?%not_elem_of_nil|]. by intros (i&?&?&?&_&?&_). }
  cbv zeta in Hw. set (s := insert_tx_state _ _ _ _) in *.
  destruct (insert_walk _ _ _ _ _ _ l) as [[out' more] st2] eqn:E. injection Hw as <- <- <-.
  rewrite elem_of_app, (IH _ _ _ _ _ _ _ E). split.
  - intros [Hin|(i & id' & t0 & t0' & H1 & H2 & H3)].
    + exists 0%nat, id, t. destruct (bool_decide (tx_id = id)) eqn:Hnew; cbn in Hin; [by apply not_elem_of_nil in Hin|].
      case_bool_decide as Hsub; [by apply not_elem_of_nil in Hin|]. apply list_elem_of_singleton in Hin as ->.
      eexists. split_and!; [done|done|exact Hsub|done].
    + exists (S i), id', t0, t0'. done.
  - intros ([|i] & id' & t0 & t0' & H1 & H2 & H3 & ->); cbn in *; [left|right; by exists i, id', t0, t0'].
    injection H1 as <- <-. injection H2 as <-. cbn in *. destruct (bool_decide (tx_id = id)); [done|]. cbn.
    rewrite bool_decide_false by done. by apply list_elem_of_singleton.
Qed.

(** The walk does not touch the sub-pool recorded for the new transaction. *)
Lemma insert_walk_new tx_id balance n c parked state l out ups st' i t t' :
  insert_walk tx_id balance n c parked state l = (out, ups, st') ->
  l !! i = Some (tx_id, t) -> out !! i = Some (tx_id, t') -> pit_subpool t = pit_subpool t'.
Proof.
  revert n c parked state out ups st' i. induction l as [|[id x] l IH];
    intros n c parked state out ups st' i Hw Hl Ho; cbn [insert_walk] in Hw; [done|].
  destruct (negb (n =? id_nonce id)); [by injection Hw as <- _ _|].
  cbv zeta in Hw. set (s := insert_tx_state _ _ _ _) in *.
  destruct (insert_walk _ _ _ _ _ _ l) as [[out' more] st2] eqn:E. injection Hw as <- _ _.
  destruct i as [|i]; cbn in Hl, Ho; [|by apply (IH _ _ _ _ _ _ _ i E)].
  injection Hl as -> ->. injection Ho as <-. cbn. by rewrite bool_decide_true.
Qed.

Lemma insert_tx_updates_other a tx balance n r a' :
  insert_tx a tx balance n = (Ok r, a') -> transaction_id tx ∉ up_id <$> ok_updates r.
Proof.
  intros (state & replaced & a1 & parked & out & ups & st' & _ & _ & _ & _ & _ & Hw & -> & _)%insert_tx_Ok_inv.
  cbn [ok_updates]. intros (u & Eu & Hu)%list_elem_of_fmap.
  apply (insert_walk_moves _ _ _ _ _ _ _ _ _ _ Hw) in Hu as (i & id & t & t' & H1 & H2 & H3 & ->).
  cbn in Eu. subst id. apply H3. by apply (insert_walk_new _ _ _ _ _ _ _ _ _ _ _ _ _ Hw H1 H2).
Qed.

Lemma update_step_moves fee mode id t :
  transaction_id (pit_transaction t) = id ->
  forall u, u ∈ (update_step fee mode id t).1.2 <->
    pit_subpool t <> pit_subpool (update_step fee mode id t).1.1 /\ u = move id t (update_step fee mode id t).1.1.
Proof.
  intros Hid u.
  assert (Hrec : forall t1, pit_transaction t1 = pit_transaction t -> pit_subpool t1 = pit_subpool t ->
    u ∈ (record_subpool_update t1).2 <-> pit_subpool t <> pit_subpool (record_subpool_update t1).1 /\
      u = move id t (record_subpool_update t1).1).
  { intros t1 E1 E2. unfold record_subpool_update, move. cbn. rewrite E1, E2, Hid.
    case_decide as Hd; [split; [by intros ?%not_elem_of_nil|by intros [? _]]|].
    rewrite list_elem_of_singleton. tauto. }
  assert (Hnil : u ∈ ([] : list PoolUpdate) <-> pit_subpool t <> pit_subpool t /\ u = move id t t)
    by (split; [by intros ?%not_elem_of_nil|by intros [? _]]).
  assert (Hfee : forall s, pit_transaction (update_base_fee fee (with_state t s)) = pit_transaction t /\
    pit_subpool (update_base_fee fee (with_state t s)) = pit_subpool t).
  { intros s. unfold update_base_fee. cbn. destruct (v_max_fee_per_gas _); [by destruct (_ <=? _)|done]. }
  assert (Hfirst : u ∈ (update_first fee id t).1.2 <-> pit_subpool t <> pit_subpool (update_first fee id t).1.1 /\
    u = move id t (update_first fee id t).1.1).
  { unfold update_first. destruct (has_nonce_gap _); [done|]. destruct (Hfee (st_insert (pit_state t) NO_PARKED_ANCESTORS)).
    by apply Hrec. }
  assert (Hnext : forall s p, u ∈ (update_next fee s p t).1.2 <->
    pit_subpool t <> pit_subpool (update_next fee s p t).1.1 /\ u = move id t (update_next fee s p t).1.1).
  { intros s p. unfold update_next. destruct (has_nonce_gap _); [done|].
    destruct (Hfee (if p then st_remove (pit_state t) NO_PARKED_ANCESTORS else st_insert (pit_state t) NO_PARKED_ANCESTORS)).
    by apply Hrec. }
  unfold update_step. destruct mode; [done|by destruct (_ =? _)|by destruct (_ =? _)].
Qed.

Lemma update_walk_moves fee mode l :
  Forall (fun e => transaction_id (pit_transaction e.2) = e.1) l ->
  forall u, u ∈ (update_walk fee mode l).2 <-> exists i id t t', l !! i = Some (id, t) /\
    (update_walk fee mode l).1 !! i = Some (id, t') /\ pit_subpool t <> pit_subpool t' /\ u = move id t t'.
Proof.
  revert mode. induction l as [|[id t] l IH]; intros mode Hid u; cbn [update_walk].
  { split; [by intros ?%not_elem_of_nil|]. by intros ([]&?&?&?&?&_). }
  apply Forall_cons_1 in Hid as [Ht Hid]. pose proof (update_step_moves fee mode id t Ht u) as Hs.
  destruct (update_step fee mode id t) as [[t' ups] mode']. specialize (IH mode' Hid u).
  destruct (update_walk fee mode' l) as [out more]. cbn [fst snd] in *. rewrite elem_of_app, IH, Hs. split.
  - intros [[H1 ->]|(i & id' & t0 & t0' & H1)]; [by exists 0%nat, id, t, t'|by exists (S i), id', t0, t0'].
  - intros ([|i] & id' & t0 & t0' & H1 & H2 & H3 & ->); [left|right; by exists i, id', t0, t0'].
    cbn in H1, H2. by simplify_eq.
Qed.

(** Rechecking the pool reports exactly its moves: [update] emits a sub-pool
    update for a transaction if and only if the sub-pool it records for the
    transaction changes, and the update carries the old and the new sub-pool. *)
Theorem all_update_moves a fee u :
  all_inv a ->
  u ∈ (all_update a fee).1 <->
  exists id t t', txs a !! id = Some t /\ txs (all_update a fee).2 !! id = Some t' /\
    pit_subpool t <> pit_subpool t' /\ u = move id t t'.
Proof.
  intros Ha. unfold all_update. pose proof (update_walk_rewrites fee UniqueSender (entries id_le (txs a))) as Hf.
  assert (Hids : Forall (fun e => transaction_id (pit_transaction e.2) = e.1) (entries id_le (txs a))).
  { apply Forall_forall. intros [id t] Hin. apply elem_of_entries in Hin.
    apply (ix_id _ _ _ (ai_index _ Ha)). apply abs_lookup. by exists t. }
  pose proof (update_walk_moves fee UniqueSender _ Hids u) as Hm.
  destruct (update_walk fee UniqueSender (entries id_le (txs a))) as [out ups]. cbn [fst snd txs] in *.
  rewrite Hm. clear Hm. assert (Hnd : NoDup out.*1).
  { apply (rewritten_keys_NoDup _ (entries id_le (txs a)) []); [done|]. rewrite app_nil_r. apply entries_NoDup_keys. }
  split.
  - intros (i & id & t & t' & H1 & H2 & H3 & H4). exists id, t, t'. split_and!; [| |done|done].
    + apply (elem_of_entries id_le). by eapply list_elem_of_lookup_2.
    + apply elem_of_list_to_map; [done|]. by eapply list_elem_of_lookup_2.
  - intros (id & t & t' & H1 & H2 & H3 & H4). apply (elem_of_entries id_le), list_elem_of_lookup in H1 as [i Hi].
    destruct (Forall2_lookup_r _ _ _ _ _ Hf Hi) as ([id' t2] & Hi2 & E & _). cbn in E. subst id'.
    exists i, id, t, t'. split_and!; [done| |done|done].
    apply elem_of_list_to_map_2 in H2. apply list_elem_of_lookup_2 in Hi2 as Hin2.
    apply elem_of_list_to_map in H2; [|done]. apply elem_of_list_to_map in Hin2; [|done]. congruence.
Qed.

(** Three pending transactions of one sender; the fee cap of the second one is
    the lowest. *)
Definition staggered_pool : AllTransactions :=
  let add a tx := (insert_tx a tx 1000 0).2 in
  let a := add (add (add (AllTransactions_new 16) (sample_tx 7 0 100 30 90))
                 (sample_tx 7 1 101 30 20)) (sample_tx 7 2 102 30 90) in
  (all_update a 10).2.

Lemma all_update_moves_witness :
  exists t t', txs sample_pool !! mkTransactionId 7 0 = Some t /\
    txs (all_update sample_pool 10).2 !! mkTransactionId 7 0 = Some t' /\ pit_subpool t' = Pending /\
    (move (mkTransactionId 7 0) t t' ∈ (all_update sample_pool 10).1).
Proof.
  eexists _, _. split; [vm_compute; reflexivity|]. split; [vm_compute; reflexivity|]. split; [reflexivity|].
  apply (all_update_moves sample_pool 10 _ sample_pool_inv). eexists (mkTransactionId 7 0), _, _.
  split; [vm_compute; reflexivity|]. split; [vm_compute; reflexivity|]. split; [done|reflexivity].
Defined.

(** A stale ancestor check.  Raising the base fee above the second
    transaction's fee cap parks that transaction, yet [update] leaves its
    descendant in the pending sub-pool: the ancestor flag of a third transaction
    is computed from the second one's state before its fee is rechecked. *)
Theorem update_stale_ancestor :
  (pit_subpool <$> txs staggered_pool !! mkTransactionId 7 1) = Some Pending /\
  (pit_subpool <$> txs (all_update staggered_pool 50).2 !! mkTransactionId 7 1) = Some BaseFee /\
  (pit_subpool <$> txs (all_update staggered_pool 50).2 !! mkTransactionId 7 2) = Some Pending /\
  (pit_subpool <$> txs (all_update (all_update staggered_pool 50).2 50).2 !! mkTransactionId 7 2) = Some Queued.
Proof. vm_compute. done. Qed.

(** The record of the new transaction.  After a success the stored entry
    carries the state that decides the sub-pool, but the sub-pool recorded for
    it is [Queued] whatever sub-pool the transaction is sent to: the record of
    a transaction sent to the pending or base-fee sub-pool is wrong until the
    next recheck. *)
Theorem insert_tx_records_queued a tx balance n r a' :
  all_inv a -> valid_tx tx -> insert_tx a tx balance n = (Ok r, a') ->
  exists t, txs a' !! transaction_id tx = Some t /\ pit_state t = ok_state r /\
    subpool_of (pit_state t) = ok_move_to r /\ pit_subpool t = Queued.
Proof.
  intros Ha Htx Hins.
  destruct (insert_tx_walked _ _ _ _ _ _ Ha Htx Hins) as (state & _ & Emv & _ & (t & Ht & Hs & Hq) & _).
  exists t. split_and!; [done|done|by rewrite Hs|done].
Qed.

Lemma insert_tx_records_queued_witness :
  exists t, txs sample_pool !! mkTransactionId 7 0 = Some t /\
    subpool_of (pit_state t) = Pending /\ pit_subpool t = Queued.
Proof.
  destruct (insert_tx_records_queued (AllTransactions_new 16) (sample_tx 7 0 100 30 50) 100 0
    (mkInsertOk (sample_tx 7 0 100 30 50) Pending 62 None []) sample_pool) as (t & H1 & _ & H2 & H3).
  - apply all_inv_new.
  - by split.
  - vm_compute. reflexivity.
  - by exists t.
Defined.
