(* ===== verification/TxPool.v ===== *)
(** * Transaction pool: the pool of sub-pools

    [TxPool] of crates/transaction-pool/src/pool/txpool.rs: the set of all
    transactions together with the pending, base-fee and queued sub-pools, and
    the operations that move transactions between them.  A sub-pool insertion
    can panic ([assert!]), so these operations run in the state monad of the
    prelude.  The loops of [remove_descendants] and [discard_worst] take fuel;
    the callers pass one more than the number of transactions left. *)
From S2P Require Import Prelude BTree PoolTypes SubPools AllTxs.

Record SenderInfo := mkSenderInfo { state_nonce : Z; balance : Z }.

Record TxPool (P : Type) `{Countable P} := mkTxPool {
  sender_info : gmap SenderId SenderInfo;
  pending_pool : PendingPool P;
  tp_config : PoolConfig;
  queued_pool : ParkedPool (Z * Z);
  basefee_pool : ParkedPool (option Z);
  all_transactions : AllTransactions
}.
Arguments mkTxPool {P _ _} _ _ _ _ _ _.
Arguments sender_info {P _ _} _.
Arguments pending_pool {P _ _} _.
Arguments tp_config {P _ _} _.
Arguments queued_pool {P _ _} _.
Arguments basefee_pool {P _ _} _.
Arguments all_transactions {P _ _} _.

Record PoolSize := mkPoolSize {
  ps_pending : Z; ps_pending_size : Z; ps_basefee : Z; ps_basefee_size : Z;
  ps_queued : Z; ps_queued_size : Z
}.

Record UpdateOutcome := mkUpdateOutcome { promoted : list TxHash; discarded : list TxHash }.

Inductive AddedTransaction :=
| AddedPending (transaction : ValidPoolTransaction) (promoted discarded : list TxHash)
| AddedParked (transaction : ValidPoolTransaction) (subpool : SubPool).

Record OnNewBlockEvent := mkOnNewBlockEvent {
  ev_hash : Z;
  ev_pending_block_base_fee : Z;
  ev_mined_transactions : list TxHash
}.

Record OnNewBlockOutcome := mkOnNewBlockOutcome {
  ob_block_hash : Z;
  ob_mined : list TxHash;
  ob_promoted : list TxHash;
  ob_discarded : list TxHash
}.

Section TxPool.
Context {P : Type} `{Countable P} (ordering : TransactionOrdering P).
Context `{!RelDecision (priority_le ordering)} `{!TotalOrder (priority_le ordering)}.
Implicit Types t : TxPool P.

Definition TxPool_new (config : PoolConfig) : TxPool P :=
  mkTxPool ∅ PendingPool_new config ParkedPool_default ParkedPool_default
    (AllTransactions_new (cfg_max_account_slots config)).

Definition with_pending t p : TxPool P := mkTxPool (sender_info t) p (tp_config t) (queued_pool t) (basefee_pool t) (all_transactions t).
Definition with_queued t p : TxPool P := mkTxPool (sender_info t) (pending_pool t) (tp_config t) p (basefee_pool t) (all_transactions t).
Definition with_basefee t p : TxPool P := mkTxPool (sender_info t) (pending_pool t) (tp_config t) (queued_pool t) p (all_transactions t).
Definition with_all t a : TxPool P := mkTxPool (sender_info t) (pending_pool t) (tp_config t) (queued_pool t) (basefee_pool t) a.
Definition with_sender_info t s : TxPool P := mkTxPool s (pending_pool t) (tp_config t) (queued_pool t) (basefee_pool t) (all_transactions t).

Definition pool_size t : PoolSize :=
  mkPoolSize (pending_len (pending_pool t)) (pending_size (pending_pool t))
    (parked_len (basefee_pool t)) (parked_size (basefee_pool t))
    (parked_len (queued_pool t)) (parked_size (queued_pool t)).

Definition best_transactions t : BestTransactions P := pending_best (pending_pool t).
Definition contains t (h : TxHash) : bool := all_contains (all_transactions t) h.
Definition pool_get t (h : TxHash) : option ValidPoolTransaction := by_hash (all_transactions t) !! h.
Definition pool_get_all t (hs : list TxHash) : list ValidPoolTransaction := omap (pool_get t) hs.
Definition pool_len t : Z := all_len (all_transactions t).

(** ** The sub-pool of a transaction *)

Definition remove_from_subpool t (pool : SubPool) (id : TransactionId)
    : option ValidPoolTransaction * TxPool P :=
  match pool with
  | Queued => let '(tx, p) := parked_remove_transaction QueuedOrd (queued_pool t) id in (tx, with_queued t p)
  | Pending => let '(tx, p) := pending_remove_transaction (pending_pool t) id in (tx, with_pending t p)
  | BaseFee => let '(tx, p) := parked_remove_transaction BasefeeOrd (basefee_pool t) id in (tx, with_basefee t p)
  end.

Definition add_transaction_to_subpool (pool : SubPool) (tx : ValidPoolTransaction)
    : st (TxPool P) PoolError unit := fun t =>
  match pool with
  | Queued =>
      match parked_add_transaction QueuedOrd (queued_pool t) tx with
      | Ok p => (Ok tt, with_queued t p) | Err e => (Err e, t) | Panic => (Panic, t) | Diverge => (Diverge, t)
      end
  | Pending =>
      match pending_add_transaction ordering (pending_pool t) tx with
      | Ok p => (Ok tt, with_pending t p) | Err e => (Err e, t) | Panic => (Panic, t) | Diverge => (Diverge, t)
      end
  | BaseFee =>
      match parked_add_transaction BasefeeOrd (basefee_pool t) tx with
      | Ok p => (Ok tt, with_basefee t p) | Err e => (Err e, t) | Panic => (Panic, t) | Diverge => (Diverge, t)
      end
  end.

Definition move_transaction (from to : SubPool) (id : TransactionId) : st (TxPool P) PoolError unit := fun t =>
  match remove_from_subpool t from id with
  | (Some tx, t) => add_transaction_to_subpool to tx t
  | (None, t) => (Ok tt, t)
  end.

(** [process_updates]: the loop's accumulator is the outcome. *)
Fixpoint process_updates (outcome : UpdateOutcome) (updates : list PoolUpdate)
    : st (TxPool P) PoolError UpdateOutcome :=
  match updates with
  | [] => mret outcome
  | u :: updates =>
      match up_destination u with
      | Discard => process_updates (mkUpdateOutcome (promoted outcome) (discarded outcome ++ [up_hash u])) updates
      | ToPool move_to =>
          move_transaction (up_current u) move_to (up_id u);;
          process_updates
            (if SubPool_is_pending move_to
             then mkUpdateOutcome (promoted outcome ++ [up_hash u]) (discarded outcome)
             else outcome) updates
      end
  end.

(** ** Removal from the entire pool *)

Definition remove_transaction t (id : TransactionId) : option ValidPoolTransaction * TxPool P :=
  match all_remove_transaction (all_transactions t) id with
  | (None, a) => (None, with_all t a)
  | (Some (tx, pool), a) => remove_from_subpool (with_all t a) pool (transaction_id tx)
  end.

Definition remove_transaction_by_hash t (h : TxHash) : option ValidPoolTransaction * TxPool P :=
  match all_remove_transaction_by_hash (all_transactions t) h with
  | (None, a) => (None, with_all t a)
  | (Some (tx, pool), a) => remove_from_subpool (with_all t a) pool (transaction_id tx)
  end.

Fixpoint remove_invalid t (hashes : list TxHash) : list ValidPoolTransaction * TxPool P :=
  match hashes with
  | [] => ([], t)
  | h :: hashes =>
      let '(tx, t) := remove_transaction_by_hash t h in
      let '(removed, t) := remove_invalid t hashes in
      (match tx with Some tx => tx :: removed | None => removed end, t)
  end.

(** [remove_descendants]: pops the transactions after [id] one by one. *)
Fixpoint remove_descendants (fuel : nat) (id : TransactionId) (removed : list ValidPoolTransaction)
    : st (TxPool P) PoolError (list ValidPoolTransaction) := fun t =>
  match fuel with
  | O => (Diverge, t)
  | S fuel =>
      match descendant_txs_exclusive (all_transactions t) id with
      | [] => (Ok removed, t)
      | (descendant, _) :: _ =>
          let '(tx, t) := remove_transaction t descendant in
          remove_descendants fuel descendant
            (match tx with Some tx => removed ++ [tx] | None => removed end) t
      end
  end.
(** ** Insertion *)

Definition add_new_transaction (tx : ValidPoolTransaction)
    (replaced : option (ValidPoolTransaction * SubPool)) (pool : SubPool) : st (TxPool P) PoolError unit := fun t =>
  let t :=
    match replaced with
    | Some (old, old_pool) => (remove_from_subpool t old_pool (transaction_id old)).2
    | None => t
    end in
  add_transaction_to_subpool pool tx t.

Definition insert_error (e : InsertErr) : PoolError :=
  match e with
  | Underpriced _ existing => ReplacementUnderpriced existing
  | InsertFeeCapTooLow tx fee_cap => ProtocolFeeCapTooLow (v_hash tx) fee_cap
  | ExceededSenderTransactionsCapacity tx => SpammerExceededCapacity (v_sender tx) (v_hash tx)
  | TxGasLimitMoreThanAvailableBlockGas tx block_gas_limit tx_gas_limit =>
      InvalidTransaction (v_hash tx) (ExceedsGasLimit block_gas_limit tx_gas_limit)
  end.

Definition add_transaction (tx : ValidPoolTransaction) (on_chain_balance on_chain_nonce : Z)
    : st (TxPool P) PoolError AddedTransaction := fun t =>
  let t := with_sender_info t
    (<[v_sender_id tx := mkSenderInfo on_chain_nonce on_chain_balance]> (sender_info t)) in
  match insert_tx (all_transactions t) tx on_chain_balance on_chain_nonce with
  | (Ok r, a) =>
      (add_new_transaction (ok_transaction r) (ok_replaced_tx r) (ok_move_to r);;
       u ← process_updates (mkUpdateOutcome [] []) (ok_updates r);
       mret (if SubPool_is_pending (ok_move_to r)
             then AddedPending (ok_transaction r) (promoted u) (discarded u)
             else AddedParked (ok_transaction r) (ok_move_to r))) (with_all t a)
  | (Err e, a) => (Err (insert_error e), with_all t a)
  | (Panic, a) => (Panic, with_all t a)
  | (Diverge, a) => (Diverge, with_all t a)
  end.

(** ** New blocks *)

Fixpoint remove_mined t (hashes : list TxHash) : TxPool P :=
  match hashes with
  | [] => t
  | h :: hashes => remove_mined (remove_transaction_by_hash t h).2 hashes
  end.

Definition on_new_block (event : OnNewBlockEvent) : st (TxPool P) PoolError OnNewBlockOutcome := fun t =>
  let t := remove_mined t (ev_mined_transactions event) in
  let '(updates, a) := all_update (all_transactions t) (ev_pending_block_base_fee event) in
  (u ← process_updates (mkUpdateOutcome [] []) updates;
   mret (mkOnNewBlockOutcome (ev_hash event) (ev_mined_transactions event) (promoted u) (discarded u)))
  (with_all t a).

(** ** Size limits *)

Definition subpool_len t (pool : SubPool) : Z :=
  match pool with
  | Queued => parked_len (queued_pool t)
  | Pending => pending_len (pending_pool t)
  | BaseFee => parked_len (basefee_pool t)
  end.

Definition subpool_size t (pool : SubPool) : Z :=
  match pool with
  | Queued => parked_size (queued_pool t)
  | Pending => pending_size (pending_pool t)
  | BaseFee => parked_size (basefee_pool t)
  end.

Definition subpool_limit (c : PoolConfig) (pool : SubPool) : SubPoolLimit :=
  match pool with Queued => queued_limit c | Pending => pending_limit c | BaseFee => basefee_limit c end.

Definition subpool_pop_worst t (pool : SubPool) : option ValidPoolTransaction * TxPool P :=
  match pool with
  | Queued => let '(tx, p) := parked_pop_worst QueuedOrd (queued_pool t) in (tx, with_queued t p)
  | Pending => let '(tx, p) := pending_pop_worst ordering (pending_pool t) in (tx, with_pending t p)
  | BaseFee => let '(tx, p) := parked_pop_worst BasefeeOrd (basefee_pool t) in (tx, with_basefee t p)
  end.

Definition exceeded t (pool : SubPool) : bool :=
  is_exceeded (subpool_limit (tp_config t) pool) (subpool_len t pool) (subpool_size t pool).

(** One expansion of the macro [discard_worst!]: the [while] loop of a sub-pool. *)
Fixpoint discard_loop (fuel : nat) (pool : SubPool) (removed : list ValidPoolTransaction)
    : st (TxPool P) PoolError (list ValidPoolTransaction) := fun t =>
  match fuel with
  | O => (Diverge, t)
  | S fuel =>
      if exceeded t pool then
        match subpool_pop_worst t pool with
        | (Some tx, t) =>
            (removed ← remove_descendants (S (size (txs (all_transactions t)))) (transaction_id tx)
                         (removed ++ [tx]);
             discard_loop fuel pool removed) t
        | (None, t) => discard_loop fuel pool removed t
        end
      else (Ok removed, t)
  end.

Definition discard_one (pool : SubPool) (removed : list ValidPoolTransaction)
    : st (TxPool P) PoolError (list ValidPoolTransaction) := fun t =>
  discard_loop (S (Z.to_nat (subpool_len t pool))) pool removed t.

Definition discard_worst : st (TxPool P) PoolError (list ValidPoolTransaction) :=
  removed ← discard_one Pending [];
  removed ← discard_one BaseFee removed;
  discard_one Queued removed.
End TxPool.
