(* ===== verification/TxPoolProofs.v ===== *)
(** * Transaction pool: correctness of the pool of sub-pools

    Invariant of [TxPool], the enforcement of the size limits (with
    termination), the effect of insertions and new blocks, and the places where
    the recorded sub-pool and the real one part. *)
From S2P Require Import Prelude BTree PoolTypes SubPools BestTxs AllTxs AllTxsProofs InsertProofs TxPool.

Section TxPoolProofs.
Context {P : Type} `{Countable P} (ordering : TransactionOrdering P).
Context `{!RelDecision (priority_le ordering)} `{!TotalOrder (priority_le ordering)}.
Implicit Types t : TxPool P.

(** Every part of the pool is consistent in itself. *)
Record pool_inv t : Prop := {
  pi_all : all_inv (all_transactions t);
  pi_room : counter_room (all_transactions t);
  pi_pending : pending_inv ordering (pending_pool t);
  pi_queued : parked_inv QueuedOrd (queued_pool t);
  pi_basefee : parked_inv BasefeeOrd (basefee_pool t)
}.

Lemma pool_inv_new config : pool_inv (TxPool_new config).
Proof.
  split; cbn; [apply all_inv_new|done|apply pending_inv_new|apply parked_inv_default..].
Qed.

(** The transactions of a sub-pool, by id. *)
Definition sub_ids t (pool : SubPool) : tx_map :=
  match pool with
  | Queued => parked_txs (queued_pool t)
  | Pending => pending_txs (pending_pool t)
  | BaseFee => parked_txs (basefee_pool t)
  end.

Definition in_subpool t (pool : SubPool) (tx : ValidPoolTransaction) : Prop :=
  sub_ids t pool !! transaction_id tx = Some tx.

(** *** What a removal keeps *)

(** [t'] results from [t] by removals. *)
Record shrinks t t' : Prop := {
  sh_all : txs (all_transactions t') ⊆ txs (all_transactions t);
  sh_sub pool : sub_ids t' pool ⊆ sub_ids t pool;
  sh_config : tp_config t' = tp_config t
}.

Lemma shrinks_refl t : shrinks t t.
Proof. by split. Qed.

Lemma shrinks_trans t1 t2 t3 : shrinks t1 t2 -> shrinks t2 t3 -> shrinks t1 t3.
Proof.
  intros [H1 H2 H3] [G1 G2 G3]. split; [by transitivity (txs (all_transactions t2))| |congruence].
  intros pool. by transitivity (sub_ids t2 pool).
Qed.

Definition total_size (m : tx_map) : Z := msum v_size m.

Lemma subpool_len_ids t pool : subpool_len t pool = Z.of_nat (size (sub_ids t pool)).
Proof. destruct pool; cbn; unfold parked_txs, pending_txs; by rewrite map_size_fmap. Qed.

Lemma sub_sizes_nonneg t pool id tx : pool_inv t -> sub_ids t pool !! id = Some tx -> 0 <= v_size tx.
Proof.
  intros Hp. destruct pool; cbn; unfold parked_txs, pending_txs; rewrite lookup_fmap, fmap_Some; intros (x & Hx & ->).
  - by apply (pki_sizes _ _ (pi_queued _ Hp) id).
  - by apply (pdi_sizes _ _ (pi_pending _ Hp) id).
  - by apply (pki_sizes _ _ (pi_basefee _ Hp) id).
Qed.

Lemma subpool_size_ids t pool : pool_inv t -> subpool_size t pool = total_size (sub_ids t pool).
Proof.
  intros Hp. unfold total_size. assert (Hw : forall z, 0 <= z < 2 ^ 63 -> size_to_usize z = z).
  { intros z Hz. apply wrap_small. unfold in_u. lia. }
  assert (Hn : 0 <= msum v_size (sub_ids t pool))
    by (apply msum_nonneg; intros k x Hx; by eapply sub_sizes_nonneg).
  destruct pool; cbn [sub_ids] in *; unfold parked_txs, pending_txs in *; rewrite msum_fmap in *; cbn [subpool_size].
  - pose proof (pki_bound _ _ (pi_queued _ Hp)). unfold parked_size. rewrite (pki_size _ _ (pi_queued _ Hp)).
    apply Hw. unfold parked_tsize in *. lia.
  - pose proof (pdi_bound _ _ (pi_pending _ Hp)). unfold pending_size. rewrite (pdi_size _ _ (pi_pending _ Hp)).
    apply Hw. unfold pending_tsize in *. lia.
  - pose proof (pki_bound _ _ (pi_basefee _ Hp)). unfold parked_size. rewrite (pki_size _ _ (pi_basefee _ Hp)).
    apply Hw. unfold parked_tsize in *. lia.
Qed.

(** Removals never push a sub-pool over its limit. *)
Lemma shrinks_exceeded t t' pool :
  pool_inv t -> pool_inv t' -> shrinks t t' -> exceeded t pool = false -> exceeded t' pool = false.
Proof.
  intros Hp Hp' Hs. unfold exceeded, is_exceeded. rewrite (sh_config _ _ Hs).
  rewrite !subpool_len_ids, !subpool_size_ids by done.
  pose proof (map_subseteq_size _ _ (sh_sub _ _ Hs pool)) as Hl.
  assert (total_size (sub_ids t' pool) <= total_size (sub_ids t pool)).
  { apply msum_subseteq; [apply Hs|]. intros k x Hx. by apply (sub_sizes_nonneg t pool k). }
  rewrite !orb_false_iff, !Z.ltb_ge. lia.
Qed.

(** *** Removal from a sub-pool *)

Lemma remove_from_subpool_ids t pool id :
  let t' := (remove_from_subpool t pool id).2 in
  all_transactions t' = all_transactions t /\ tp_config t' = tp_config t /\
  (forall q, sub_ids t' q = if decide (q = pool) then delete id (sub_ids t pool) else sub_ids t q) /\
  (remove_from_subpool t pool id).1 = sub_ids t pool !! id.
Proof.
  destruct pool; cbn [remove_from_subpool].
  - destruct (parked_remove_txs QueuedOrd (queued_pool t) id).
    destruct (parked_remove_transaction QueuedOrd (queued_pool t) id). by split_and!; [..|intros []|].
  - destruct (pending_remove_txs (pending_pool t) id).
    destruct (pending_remove_transaction (pending_pool t) id). by split_and!; [..|intros []|].
  - destruct (parked_remove_txs BasefeeOrd (basefee_pool t) id).
    destruct (parked_remove_transaction BasefeeOrd (basefee_pool t) id). by split_and!; [..|intros []|].
Qed.

Lemma remove_from_subpool_inv t pool id : pool_inv t -> pool_inv (remove_from_subpool t pool id).2.
Proof.
  intros [Ha Hr Hp Hq Hb]. destruct pool; cbn [remove_from_subpool].
  - pose proof (parked_remove_inv QueuedOrd (queued_pool t) id Hq).
    destruct (parked_remove_transaction QueuedOrd (queued_pool t) id). by split.
  - pose proof (pending_remove_inv ordering (pending_pool t) id Hp).
    destruct (pending_remove_transaction (pending_pool t) id). by split.
  - pose proof (parked_remove_inv BasefeeOrd (basefee_pool t) id Hb).
    destruct (parked_remove_transaction BasefeeOrd (basefee_pool t) id). by split.
Qed.

Lemma remove_from_subpool_spec t pool id :
  pool_inv t ->
  let t' := (remove_from_subpool t pool id).2 in
  pool_inv t' /\ shrinks t t' /\ all_transactions t' = all_transactions t /\
  (forall q, sub_ids t' q = if decide (q = pool) then delete id (sub_ids t pool) else sub_ids t q) /\
  (remove_from_subpool t pool id).1 = sub_ids t pool !! id.
Proof.
  intros Hp. destruct (remove_from_subpool_ids t pool id) as (E1 & E2 & E3 & E4).
  split_and!; [by apply remove_from_subpool_inv| |done|done|done].
  split; [by rewrite E1| |done]. intros q. rewrite E3.
  case_decide; [subst q; apply delete_subseteq|done].
Qed.

(** *** Removal from the entire pool *)

Lemma pool_inv_with_all t a :
  pool_inv t -> all_inv a -> counter_room a -> pool_inv (with_all t a).
Proof. intros [] Ha Hr. by split. Qed.

Lemma counter_room_subseteq a a' : txs a' ⊆ txs a -> counter_room a -> counter_room a'.
Proof. intros Hs%map_subseteq_size. unfold counter_room, all_len. lia. Qed.

Lemma remove_transaction_spec t id x :
  pool_inv t -> txs (all_transactions t) !! id = Some x ->
  let t' := (remove_transaction t id).2 in
  pool_inv t' /\ shrinks t t' /\ txs (all_transactions t') = delete id (txs (all_transactions t)).
Proof.
  intros Hp Hx. destruct (all_remove_spec _ _ _ (pi_all _ Hp) (pi_room _ Hp) Hx) as (E & _ & Hi).
  cbv zeta in E, Hi. unfold remove_transaction. rewrite E. set (a' := mkAllTransactions _ _ _ _ _ _ _) in *.
  assert (Hsub : txs a' ⊆ txs (all_transactions t)) by apply delete_subseteq.
  pose proof (pool_inv_with_all t a' Hp Hi (counter_room_subseteq _ _ Hsub (pi_room _ Hp))) as Hp1.
  destruct (remove_from_subpool_spec (with_all t a') (pit_subpool x) (transaction_id (pit_transaction x)) Hp1)
    as (H1 & H2 & H3 & _).
  split_and!; [done| |by rewrite H3].
  apply shrinks_trans with (with_all t a'); [|done]. split; [done|by intros []|done].
Qed.

Lemma remove_descendants_spec fuel id removed t :
  pool_inv t -> (size (txs (all_transactions t)) < fuel)%nat ->
  exists out t', remove_descendants fuel id removed t = (Ok out, t') /\ pool_inv t' /\ shrinks t t'.
Proof.
  revert id removed t. induction fuel as [|fuel IH]; intros id removed t Hp Hf; [lia|]. cbn [remove_descendants].
  destruct (descendant_txs_exclusive (all_transactions t) id) as [|[d x] l] eqn:E.
  { exists removed, t. split_and!; [done|done|apply shrinks_refl]. }
  assert (Hd : txs (all_transactions t) !! d = Some x).
  { apply (elem_of_descendant_txs_exclusive (all_transactions t) id d x). rewrite E. by left. }
  destruct (remove_transaction_spec t d x Hp Hd) as (H1 & H2 & H3).
  destruct (remove_transaction t d) as [y t1]. cbn [snd] in *.
  destruct (IH d (match y with Some y => removed ++ [y] | None => removed end) t1 H1) as (out & t' & E1 & E2 & E3).
  { rewrite H3. pose proof (map_size_delete_lt _ _ _ Hd). lia. }
  exists out, t'. split_and!; [done|done|by apply shrinks_trans with t1].
Qed.

(** *** The worst transaction of a sub-pool *)

Lemma parked_pop_remove {O} `{Countable O} (o : ParkedOrd O) `{!RelDecision (ord_le o)} `{!TotalOrder (ord_le o)} p :
  parked_inv o p -> parked_txs p <> ∅ ->
  exists id, is_Some (parked_txs p !! id) /\ parked_pop_worst o p = parked_remove_transaction o p id.
Proof.
  intros Hp Hne. unfold parked_pop_worst.
  destruct (first_key_value (parked_le o) (pk_best p)) as [[k x]|] eqn:E.
  - apply (first_key_value_Some (parked_le o)) in E as [Hk _]. apply (pki_mirror _ _ Hp) in Hk as [_ Hk].
    exists (transaction_id (pk_transaction x)). split; [|done]. unfold parked_txs. rewrite lookup_fmap.
    change (transaction_id (pk_transaction x)) with (parked_id x). by rewrite Hk.
  - exfalso. apply Hne. apply (first_key_value_None (parked_le o)) in E. unfold parked_txs.
    destruct (map_choose (pk_by_id p)) as (id & x & Hx).
    { intros E0. apply Hne. unfold parked_txs. by rewrite E0, fmap_empty. }
    destruct (pki_mirror _ _ Hp) as [Hid Hm]. pose proof (Hid _ _ Hx) as <-.
    pose proof (proj2 (Hm (parked_key o x) x) (conj eq_refl Hx)) as Hb. by rewrite E, lookup_empty in Hb.
Qed.

Lemma pending_pop_remove p :
  pending_inv ordering p -> pending_txs p <> ∅ ->
  exists id, is_Some (pending_txs p !! id) /\ pending_pop_worst ordering p = pending_remove_transaction p id.
Proof.
  intros Hp Hne. unfold pending_pop_worst.
  destruct (last_key_value (pending_le ordering) (pd_all p)) as [[k x]|] eqn:E.
  - apply (last_key_value_Some (pending_le ordering)) in E as [Hk _]. apply (pdi_mirror _ _ Hp) in Hk as [_ Hk].
    exists (pd_id x). split; [|done]. unfold pending_txs. by rewrite lookup_fmap, Hk.
  - exfalso. apply Hne. apply (last_key_value_None (pending_le ordering)) in E. unfold pending_txs.
    destruct (map_choose (pd_by_id p)) as (id & x & Hx).
    { intros E0. apply Hne. unfold pending_txs. by rewrite E0, fmap_empty. }
    destruct (pdi_mirror _ _ Hp) as [Hid Hm]. pose proof (Hid _ _ Hx) as <-.
    pose proof (proj2 (Hm (pending_key x) x) (conj eq_refl Hx)) as Hb. by rewrite E, lookup_empty in Hb.
Qed.

Lemma subpool_pop_remove t pool :
  pool_inv t -> sub_ids t pool <> ∅ ->
  exists id, is_Some (sub_ids t pool !! id) /\ subpool_pop_worst ordering t pool = remove_from_subpool t pool id.
Proof.
  intros Hp Hne. destruct pool; cbn [sub_ids subpool_pop_worst remove_from_subpool] in *.
  - destruct (parked_pop_remove QueuedOrd (queued_pool t) (pi_queued _ Hp) Hne) as (id & Hid & E). exists id. by rewrite E.
  - destruct (pending_pop_remove (pending_pool t) (pi_pending _ Hp) Hne) as (id & Hid & E). exists id. by rewrite E.
  - destruct (parked_pop_remove BasefeeOrd (basefee_pool t) (pi_basefee _ Hp) Hne) as (id & Hid & E). exists id. by rewrite E.
Qed.

Definition limits_ok (c : PoolConfig) : Prop :=
  forall pool, 0 <= max_txs (subpool_limit c pool) /\ 0 <= max_size (subpool_limit c pool).

(** A sub-pool over its limit is not empty. *)
Lemma exceeded_nonempty t pool :
  pool_inv t -> limits_ok (tp_config t) -> exceeded t pool = true -> sub_ids t pool <> ∅.
Proof.
  intros Hp Hl He E. unfold exceeded, is_exceeded in He.
  rewrite subpool_len_ids, subpool_size_ids, E in He by done. unfold total_size in He. rewrite msum_empty, map_size_empty in He.
  destruct (Hl pool). apply orb_true_iff in He. rewrite !Z.ltb_lt in He. lia.
Qed.

Lemma discard_loop_spec fuel pool removed t :
  pool_inv t -> limits_ok (tp_config t) -> (size (sub_ids t pool) < fuel)%nat ->
  exists out t', discard_loop ordering fuel pool removed t = (Ok out, t') /\
    pool_inv t' /\ shrinks t t' /\ exceeded t' pool = false.
Proof.
  revert removed t. induction fuel as [|fuel IH]; intros removed t Hp Hl Hf; [lia|]. cbn [discard_loop].
  destruct (exceeded t pool) eqn:He; [|exists removed, t; split_and!; [done|done|apply shrinks_refl|done]].
  destruct (subpool_pop_remove t pool Hp (exceeded_nonempty _ _ Hp Hl He)) as (id & [tx Hid] & ->).
  destruct (remove_from_subpool_spec t pool id Hp) as (H1 & H2 & _ & H4 & H5).
  destruct (remove_from_subpool t pool id) as [y t1]. cbn [fst snd] in *. rewrite H5, Hid.
  unfold mbind, st_bind.
  destruct (remove_descendants_spec (S (size (txs (all_transactions t1)))) (transaction_id tx) (removed ++ [tx]) t1 H1)
    as (out & t2 & -> & Hp2 & Hs2); [lia|].
  assert (Hs : shrinks t t2) by (by apply shrinks_trans with t1).
  destruct (IH out t2 Hp2) as (out' & t' & E & Hp' & Hs' & He').
  - by rewrite (sh_config _ _ Hs).
  - pose proof (map_subseteq_size _ _ (sh_sub _ _ Hs2 pool)) as Hle. rewrite H4, decide_True in Hle by done.
    pose proof (map_size_delete_lt _ _ _ Hid). lia.
  - exists out', t'. split_and!; [done|done|by apply shrinks_trans with t2|done].
Qed.

Lemma discard_one_spec pool removed t :
  pool_inv t -> limits_ok (tp_config t) ->
  exists out t', discard_one ordering pool removed t = (Ok out, t') /\
    pool_inv t' /\ shrinks t t' /\ exceeded t' pool = false.
Proof. intros Hp Hl. apply discard_loop_spec; [done|done|]. rewrite subpool_len_ids. lia. Qed.

Lemma discard_worst_inv t :
  pool_inv t -> limits_ok (tp_config t) -> pool_inv (discard_worst ordering t).2.
Proof.
  intros Hp Hl. unfold discard_worst, mbind, st_bind.
  destruct (discard_one_spec Pending [] t Hp Hl) as (r1 & t1 & -> & Hp1 & Hs1 & _).
  destruct (discard_one_spec BaseFee r1 t1 Hp1) as (r2 & t2 & -> & Hp2 & Hs2 & _);
    [by rewrite (sh_config _ _ Hs1)|].
  destruct (discard_one_spec Queued r2 t2 Hp2) as (r3 & t3 & -> & Hp3 & _); [|done].
  by rewrite (sh_config _ _ Hs2), (sh_config _ _ Hs1).
Qed.

(** C34. [discard_worst] terminates and enforces the limits: on a consistent pool
    it neither loops nor panics, and afterwards every sub-pool is within its
    limits of number and size; transactions are only removed. *)
Theorem discard_worst_limits t :
  pool_inv t -> limits_ok (tp_config t) ->
  exists removed t', discard_worst ordering t = (Ok removed, t') /\
    pool_inv t' /\ shrinks t t' /\ forall pool, exceeded t' pool = false.
Proof.
  intros Hp Hl. unfold discard_worst, mbind, st_bind.
  destruct (discard_one_spec Pending [] t Hp Hl) as (r1 & t1 & -> & Hp1 & Hs1 & He1).
  destruct (discard_one_spec BaseFee r1 t1 Hp1) as (r2 & t2 & -> & Hp2 & Hs2 & He2);
    [by rewrite (sh_config _ _ Hs1)|].
  assert (Hs02 : shrinks t t2) by (by apply shrinks_trans with t1).
  destruct (discard_one_spec Queued r2 t2 Hp2) as (r3 & t3 & -> & Hp3 & Hs3 & He3);
    [by rewrite (sh_config _ _ Hs02)|].
  exists r3, t3. split_and!; [done|done|by apply shrinks_trans with t2|].
  intros []; [done| |by apply (shrinks_exceeded t2)].
  apply (shrinks_exceeded t1); [done|done|by apply shrinks_trans with t2|done].
Qed.

(** *** Insertion and moves *)

(** Sub-pools file transactions under their own ids. *)
Definition ids_ok t : Prop :=
  forall pool id tx, sub_ids t pool !! id = Some tx -> transaction_id tx = id.

Lemma pool_inv_ids t : pool_inv t -> ids_ok t.
Proof.
  intros Hp pool id tx. destruct pool; cbn; unfold parked_txs, pending_txs; rewrite lookup_fmap, fmap_Some;
    intros (x & Hx & ->).
  - by apply (pki_mirror _ _ (pi_queued _ Hp)).
  - by apply (pdi_mirror _ _ (pi_pending _ Hp)).
  - by apply (pki_mirror _ _ (pi_basefee _ Hp)).
Qed.

(** Adding to a sub-pool succeeds exactly when the id is not there yet. *)
Lemma add_to_subpool_spec t pool tx :
  match add_transaction_to_subpool ordering pool tx t with
  | (Ok _, t') => sub_ids t pool !! transaction_id tx = None /\ all_transactions t' = all_transactions t /\
      sub_ids t' pool = <[transaction_id tx := tx]> (sub_ids t pool) /\
      forall q, q <> pool -> sub_ids t' q = sub_ids t q
  | (o, t') => o = Panic /\ t' = t /\ is_Some (sub_ids t pool !! transaction_id tx)
  end.
Proof.
  destruct (sub_ids t pool !! transaction_id tx) as [x|] eqn:E; destruct pool; cbn in *.
  - rewrite parked_add_panics; [by split_and!; [..|eexists]|by eexists].
  - rewrite pending_add_panics; [by split_and!; [..|eexists]|by eexists].
  - rewrite parked_add_panics; [by split_and!; [..|eexists]|by eexists].
  - destruct (parked_add_txs (E := PoolError) QueuedOrd _ _ E) as (p & -> & Ep). by split_and!; [..|intros []].
  - destruct (pending_add_txs (E := PoolError) ordering _ _ E) as (p & -> & Ep). by split_and!; [..|intros []].
  - destruct (parked_add_txs (E := PoolError) BasefeeOrd _ _ E) as (p & -> & Ep). by split_and!; [..|intros []].
Qed.

(** [t'] differs from [t] at most in the sub-pool of [id]. *)
Record only_moves (ids : list TransactionId) t t' : Prop := {
  om_all : all_transactions t' = all_transactions t;
  om_ids : ids_ok t -> ids_ok t';
  om_frame pool j : ids_ok t -> j ∉ ids -> sub_ids t' pool !! j = sub_ids t pool !! j
}.

Lemma only_moves_trans l1 l2 t1 t2 t3 :
  only_moves l1 t1 t2 -> only_moves l2 t2 t3 -> only_moves (l1 ++ l2) t1 t3.
Proof.
  intros [A1 B1 C1] [A2 B2 C2]. split; [congruence|auto|].
  intros pool j Hi Hj. rewrite C2, C1; set_solver.
Qed.

Lemma move_transaction_moves from to id t :
  only_moves [id] t (move_transaction ordering from to id t).2.
Proof.
  unfold move_transaction. destruct (remove_from_subpool_ids t from id) as (E1 & _ & E3 & E4).
  destruct (remove_from_subpool t from id) as [[tx|] t1]; cbn [fst snd] in *.
  - pose proof (add_to_subpool_spec t1 to tx) as Ha.
    assert (Hrem : only_moves [id] t t1).
    { split; [done| |].
      - intros Hi q j x. rewrite E3. case_decide; [|apply Hi]. intros [_ Hx]%lookup_delete_Some. by apply (Hi from).
      - intros q j Hi Hj. rewrite E3. case_decide; [subst q|done]. rewrite lookup_delete_ne; [done|set_solver]. }
    destruct (add_transaction_to_subpool ordering to tx t1) as [[]  t2];
      [|destruct Ha as (_ & -> & _); exact Hrem..].
    cbn [snd]. destruct Ha as (_ & A1 & A2 & A3). split; [congruence| |].
    + intros Hi q j x. destruct (decide (q = to)) as [->|Hne]; [|rewrite A3 by done; by apply (om_ids _ _ _ Hrem)].
      rewrite A2. intros [[<- <-]|[_ Hx]]%lookup_insert_Some; [done|]. by apply (om_ids _ _ _ Hrem Hi to).
    + intros q j Hi Hj. rewrite <- (om_frame _ _ _ Hrem q j Hi Hj).
      destruct (decide (q = to)) as [->|Hne]; [|by rewrite A3]. rewrite A2, lookup_insert_ne; [done|].
      symmetry in E4. rewrite (Hi _ _ _ E4). set_solver.
  - split; [done| |].
    + intros Hi q j x. rewrite E3. case_decide; [|apply Hi]. intros [_ Hx]%lookup_delete_Some. by apply (Hi from).
    + intros q j Hi Hj. rewrite E3. case_decide; [subst q|done]. rewrite lookup_delete_ne; [done|set_solver].
Qed.

Lemma process_updates_moves o us t :
  only_moves (up_id <$> us) t (process_updates ordering o us t).2.
Proof.
  revert o t. induction us as [|u us IH]; intros o t; cbn [process_updates fmap list_fmap].
  { by split. }
  destruct (up_destination u) as [|to].
  - apply (only_moves_trans [up_id u] (up_id <$> us) t t); [by split|apply IH].
  - unfold mbind, st_bind. pose proof (move_transaction_moves (up_current u) to (up_id u) t) as Hm.
    destruct (move_transaction ordering (up_current u) to (up_id u) t) as [[] t1]; cbn [snd] in *.
    { by apply (only_moves_trans [up_id u] (up_id <$> us) t t1). }
    all: apply (only_moves_trans [up_id u] (up_id <$> us) t t1); [done|by split].
Qed.

Lemma process_updates_no_err o us t e : (process_updates ordering o us t).1 <> Err e.
Proof.
  revert o t. induction us as [|u us IH]; intros o t; cbn [process_updates]; [done|].
  destruct (up_destination u) as [|to]; [apply IH|]. unfold mbind, st_bind, move_transaction.
  destruct (remove_from_subpool t (up_current u) (up_id u)) as [[tx|] t1]; [|apply IH].
  pose proof (add_to_subpool_spec t1 to tx) as Hs.
  destruct (add_transaction_to_subpool ordering to tx t1) as [[] t2]; [apply IH|by destruct Hs|done..].
Qed.

Lemma by_hash_abs a tx : all_inv a -> abs (txs a) !! transaction_id tx = Some tx -> by_hash a !! v_hash tx = Some tx.
Proof. intros Ha Ht. by apply (ix_hash _ _ _ (ai_index _ Ha)). Qed.

(** The successful insertion, taken apart. *)
Lemma add_transaction_Ok_inv tx bal n t r t' :
  add_transaction ordering tx bal n t = (Ok r, t') ->
  exists i a t1 t2 u, insert_tx (all_transactions t) tx bal n = (Ok i, a) /\
    t1 = match ok_replaced_tx i with
         | Some (old, old_pool) => (remove_from_subpool (with_all (with_sender_info t
             (<[v_sender_id tx := mkSenderInfo n bal]> (sender_info t))) a) old_pool (transaction_id old)).2
         | None => with_all (with_sender_info t (<[v_sender_id tx := mkSenderInfo n bal]> (sender_info t))) a
         end /\
    add_transaction_to_subpool ordering (ok_move_to i) (ok_transaction i) t1 = (Ok tt, t2) /\
    process_updates ordering (mkUpdateOutcome [] []) (ok_updates i) t2 = (Ok u, t') /\
    r = if SubPool_is_pending (ok_move_to i) then AddedPending (ok_transaction i) (promoted u) (discarded u)
        else AddedParked (ok_transaction i) (ok_move_to i).
Proof.
  unfold add_transaction. cbn [all_transactions with_sender_info].
  destruct (insert_tx (all_transactions t) tx bal n) as [[i|e| |] a]; try done.
  unfold mbind, st_bind, add_new_transaction.
  set (t1 := match ok_replaced_tx i with Some _ => _ | None => _ end).
  destruct (add_transaction_to_subpool ordering (ok_move_to i) (ok_transaction i) t1) as [[[]|e| |] t2] eqn:E1; try done.
  destruct (process_updates ordering _ (ok_updates i) t2) as [[u|e| |] t3] eqn:E2; try done.
  intros [= <- <-]. by exists i, a, t1, t2, u.
Qed.

Lemma insert_tx_transaction a tx bal n i a' : insert_tx a tx bal n = (Ok i, a') -> ok_transaction i = tx.
Proof. by intros (?&?&?&?&?&?&?&_&_&_&_&_&_&->&_)%insert_tx_Ok_inv. Qed.

(** The sub-pool a result names. *)
Definition added_subpool (r : AddedTransaction) : SubPool :=
  match r with AddedPending _ _ _ => Pending | AddedParked _ pool => pool end.

(** The sub-pools after the first two steps of an insertion. *)
Lemma replaced_removed t i a s :
  ids_ok t ->
  let t1 := match ok_replaced_tx i with
         | Some (old, old_pool) => (remove_from_subpool (with_all (with_sender_info t s) a) old_pool (transaction_id old)).2
         | None => with_all (with_sender_info t s) a
         end in
  all_transactions t1 = a /\ ids_ok t1 /\ forall q, sub_ids t1 q ⊆ sub_ids t q.
Proof.
  intros Hids. set (t0 := with_all (with_sender_info t s) a).
  assert (E0 : forall q, sub_ids t0 q = sub_ids t q) by (by intros []).
  assert (Hids0 : ids_ok t0) by (intros q j x; rewrite E0; apply Hids).
  destruct (ok_replaced_tx i) as [[old q0]|]; cbv zeta.
  - destruct (remove_from_subpool_ids t0 q0 (transaction_id old)) as (E1 & _ & E3 & _).
    assert (Hsub : forall q, sub_ids (remove_from_subpool t0 q0 (transaction_id old)).2 q ⊆ sub_ids t q).
    { intros q. rewrite E3, !E0. case_decide; [subst q; apply delete_subseteq|done]. }
    split_and!; [done| |done]. intros q j x Hx. apply (Hids q). by eapply lookup_weaken.
  - split_and!; [done|done|]. intros q. by rewrite E0.
Qed.

Lemma added_in_subpool tx bal n t r t' :
  ids_ok t -> add_transaction ordering tx bal n t = (Ok r, t') ->
  exists i, insert_tx (all_transactions t) tx bal n = (Ok i, all_transactions t') /\
    added_subpool r = ok_move_to i /\ in_subpool t' (added_subpool r) tx /\ ids_ok t'.
Proof.
  intros Hids (i & a & t1 & t2 & u & Hi & Et1 & Hadd & Hup & ->)%add_transaction_Ok_inv.
  pose proof (insert_tx_transaction _ _ _ _ _ _ Hi) as Etx.
  destruct (replaced_removed t i a (<[v_sender_id tx := mkSenderInfo n bal]> (sender_info t)) Hids) as (Ea & Hids1 & _).
  cbv zeta in Ea, Hids1. rewrite <- Et1 in Ea, Hids1. rewrite Etx in Hadd.
  pose proof (add_to_subpool_spec t1 (ok_move_to i) tx) as Hs. rewrite Hadd in Hs.
  destruct Hs as (_ & A1 & A2 & A3).
  pose proof (process_updates_moves (mkUpdateOutcome [] []) (ok_updates i) t2) as Hm. rewrite Hup in Hm. cbn [snd] in Hm.
  assert (Hids2 : ids_ok t2).
  { intros q j x. destruct (decide (q = ok_move_to i)) as [->|Hne]; [|rewrite A3 by done; apply Hids1].
    rewrite A2. intros [[<- <-]|[_ Hx]]%lookup_insert_Some; [done|]. by apply (Hids1 (ok_move_to i)). }
  assert (Er : added_subpool (if SubPool_is_pending (ok_move_to i) then AddedPending (ok_transaction i) (promoted u) (discarded u)
        else AddedParked (ok_transaction i) (ok_move_to i)) = ok_move_to i) by (by destruct (ok_move_to i)).
  exists i. rewrite Er. split_and!.
  - by rewrite (om_all _ _ _ Hm), A1, Ea.
  - done.
  - unfold in_subpool. rewrite (om_frame _ _ _ Hm) by (done || by eapply insert_tx_updates_other).
    rewrite A2. apply lookup_insert_eq.
  - by apply (om_ids _ _ _ Hm).
Qed.

(** A successful insertion: afterwards the transaction is found by its hash,
    the set of transactions is the old one with the id bound to it, and it sits
    in the sub-pool that the result names. *)
Theorem add_transaction_success tx bal n t r t' :
  pool_inv t -> valid_tx tx -> hash_fresh (abs (txs (all_transactions t))) tx ->
  add_transaction ordering tx bal n t = (Ok r, t') ->
  pool_get t' (v_hash tx) = Some tx /\
  abs (txs (all_transactions t')) = <[transaction_id tx := tx]> (abs (txs (all_transactions t))) /\
  all_inv (all_transactions t') /\ in_subpool t' (added_subpool r) tx.
Proof.
  intros Hp Htx Hf Hadd. destruct (added_in_subpool _ _ _ _ _ _ (pool_inv_ids _ Hp) Hadd) as (i & Hi & _ & Hin & _).
  destruct (insert_tx_inv_ok _ _ _ _ _ _ (pi_all _ Hp) (pi_room _ Hp) Htx Hf Hi) as (Ha & Eabs & _ & _).
  split_and!; [|done|done|done]. apply by_hash_abs; [done|]. rewrite Eabs. apply lookup_insert_eq.
Qed.

(** A rejected insertion leaves no trace: all four rejections are reported as
    errors about the offending transactions, and only the sender's account
    information is updated. *)
Theorem add_transaction_rejected tx bal n t e t' :
  add_transaction ordering tx bal n t = (Err e, t') ->
  t' = with_sender_info t (<[v_sender_id tx := mkSenderInfo n bal]> (sender_info t)) /\
  exists ie, insert_tx (all_transactions t) tx bal n = (Err ie, all_transactions t) /\ e = insert_error ie.
Proof.
  unfold add_transaction. cbn [all_transactions with_sender_info].
  assert (Herr : forall ie a, insert_tx (all_transactions t) tx bal n = (Err ie, a) -> a = all_transactions t).
  { intros ie a. unfold insert_tx. destruct (negb _); [done|].
    destruct (x ← ensure_valid _ tx; _) as [[state [replaced a1]]|e0| |]; [|by intros [= <- <-]|done..].
    destruct (initial_parked _ _ _); [|done]. by destruct (insert_walk _ _ _ _ _ _ _) as [[??]?]. }
  destruct (insert_tx (all_transactions t) tx bal n) as [[i|ie| |] a]; [|intros [= <- <-]|done..].
  - unfold mbind, st_bind, add_new_transaction.
    set (t1 := match ok_replaced_tx i with Some _ => _ | None => _ end).
    pose proof (add_to_subpool_spec t1 (ok_move_to i) (ok_transaction i)) as Hs.
    destruct (add_transaction_to_subpool ordering _ _ t1) as [[[]|e0| |] t2]; [|by destruct Hs|done..].
    pose proof (process_updates_no_err (mkUpdateOutcome [] []) (ok_updates i) t2) as Hn.
    destruct (process_updates ordering _ (ok_updates i) t2) as [[u|e0| |] t3]; [done|by destruct (Hn e0)|done..].
  - pose proof (Herr ie a eq_refl) as ->. split; [by destruct t|]. by exists ie.
Qed.

(** *** The recorded sub-pool *)

(** A transaction that was just added to the pending sub-pool cannot be
    removed from it by hash: the record says [Queued], so the pending sub-pool
    keeps the transaction although the pool no longer contains it. *)
Theorem remove_fresh_pending_leaks tx bal n t promoted discarded t' :
  pool_inv t -> valid_tx tx -> hash_fresh (abs (txs (all_transactions t))) tx ->
  counter_room (all_transactions t') ->
  add_transaction ordering tx bal n t = (Ok (AddedPending tx promoted discarded), t') ->
  let t'' := (remove_transaction_by_hash t' (v_hash tx)).2 in
  contains t'' (v_hash tx) = false /\ in_subpool t'' Pending tx.
Proof.
  intros Hp Htx Hf Hr Hadd.
  destruct (added_in_subpool _ _ _ _ _ _ (pool_inv_ids _ Hp) Hadd) as (i & Hi & _ & Hin & _). cbn [added_subpool] in Hin.
  destruct (insert_tx_inv_ok _ _ _ _ _ _ (pi_all _ Hp) (pi_room _ Hp) Htx Hf Hi) as (Ha & Eabs & _ & _).
  destruct (insert_tx_walked _ _ _ _ _ _ (pi_all _ Hp) Htx Hi) as (_ & _ & _ & _ & (x & Hx & _ & Hq) & _).
  assert (Ex : pit_transaction x = tx).
  { assert (Hl : abs (txs (all_transactions t')) !! transaction_id tx = Some (pit_transaction x))
      by (apply abs_lookup; by exists x). rewrite Eabs, lookup_insert_eq in Hl. congruence. }
  destruct (all_remove_spec _ _ _ Ha Hr Hx) as (_ & E & _). cbv zeta in E. rewrite Ex in E.
  cbv zeta. unfold remove_transaction_by_hash. rewrite E, Hq. set (a' := mkAllTransactions _ _ _ _ _ _ _).
  destruct (remove_from_subpool_ids (with_all t' a') Queued (transaction_id tx)) as (E1 & _ & E3 & _). split.
  - unfold contains, all_contains. rewrite E1. cbn. apply bool_decide_false. rewrite lookup_delete_eq. by intros [? ?].
  - unfold in_subpool. rewrite E3. exact Hin.
Qed.

(** Replacing a transaction that was just added to the pending sub-pool, by
    one that is pending too, panics: the replaced transaction is looked for in
    the queued sub-pool, and the pending one asserts that the id is free. *)
Theorem replace_fresh_pending_panics tx bal n t promoted discarded t' tx' bal' n' i a :
  pool_inv t -> valid_tx tx ->
  add_transaction ordering tx bal n t = (Ok (AddedPending tx promoted discarded), t') ->
  transaction_id tx' = transaction_id tx ->
  insert_tx (all_transactions t') tx' bal' n' = (Ok i, a) -> ok_move_to i = Pending ->
  (add_transaction ordering tx' bal' n' t').1 = Panic.
Proof.
  intros Hp Htx Hadd Eid Hi' Emv.
  destruct (added_in_subpool _ _ _ _ _ _ (pool_inv_ids _ Hp) Hadd) as (i0 & Hi & _ & Hin & Hids). cbn [added_subpool] in Hin.
  destruct (insert_tx_walked _ _ _ _ _ _ (pi_all _ Hp) Htx Hi) as (_ & _ & _ & _ & (x & Hx & _ & Hq) & _).
  assert (Erep : ok_replaced_tx i = Some (pit_transaction x, Queued)).
  { destruct (insert_tx_Ok_inv _ _ _ _ _ _ Hi') as (state & replaced & a1 & parked & out & ups & st' &
      _ & _ & _ & He & _ & _ & -> & _). apply insert_entry_ok in He as (_ & _ & _ & ->). cbn. by rewrite Eid, Hx, <- Hq. }
  unfold add_transaction. cbn [all_transactions with_sender_info]. rewrite Hi'.
  unfold mbind, st_bind, add_new_transaction. rewrite Erep, Emv.
  set (t0 := with_all _ a). pose proof (insert_tx_transaction _ _ _ _ _ _ Hi') as ->.
  destruct (remove_from_subpool_ids t0 Queued (transaction_id (pit_transaction x))) as (_ & _ & E3 & _).
  set (t1 := (remove_from_subpool t0 Queued (transaction_id (pit_transaction x))).2) in *.
  pose proof (add_to_subpool_spec t1 Pending tx') as Hs.
  destruct (add_transaction_to_subpool ordering Pending tx' t1) as [[[]|e0| |] t2]; [|by destruct Hs..].
  destruct Hs as [Hs _]. rewrite E3, decide_False, Eid in Hs by done.
  change (sub_ids t' Pending !! transaction_id tx = None) in Hs. unfold in_subpool in Hin. congruence.
Qed.

(** *** New blocks *)

Lemma remove_by_hash_all t h :
  pool_inv t ->
  let t' := (remove_transaction_by_hash t h).2 in
  pool_inv t' /\ by_hash (all_transactions t') = delete h (by_hash (all_transactions t)).
Proof.
  intros Hp. unfold remove_transaction_by_hash. destruct (by_hash (all_transactions t) !! h) as [tx|] eqn:Hh.
  - apply (ix_hash _ _ _ (ai_index _ (pi_all _ Hp))) in Hh as [Eh Hm].
    apply abs_lookup in Hm as (x & Hx & Ex).
    destruct (all_remove_spec _ _ _ (pi_all _ Hp) (pi_room _ Hp) Hx) as (_ & E & Hi). cbv zeta in E, Hi.
    rewrite Ex, Eh in E, Hi. rewrite E. set (a' := mkAllTransactions _ _ _ _ _ _ _) in *.
    assert (Hsub : txs a' ⊆ txs (all_transactions t)) by apply delete_subseteq.
    pose proof (pool_inv_with_all t a' Hp Hi (counter_room_subseteq _ _ Hsub (pi_room _ Hp))) as Hp1.
    destruct (remove_from_subpool_ids (with_all t a') (pit_subpool x) (transaction_id tx)) as (E1 & _).
    split; [by apply remove_from_subpool_inv|]. by rewrite E1.
  - rewrite all_remove_by_hash_none by done. cbn. split; [by apply pool_inv_with_all; try apply Hp|].
    by rewrite delete_id.
Qed.

Lemma remove_mined_all t hs :
  pool_inv t ->
  pool_inv (remove_mined t hs) /\
  by_hash (all_transactions (remove_mined t hs)) = foldl (fun m h => delete h m) (by_hash (all_transactions t)) hs.
Proof.
  revert t. induction hs as [|h hs IH]; intros t Hp; [done|]. cbn.
  destruct (remove_by_hash_all t h Hp) as [H1 H2]. destruct (IH _ H1) as [H3 H4]. split; [done|]. by rewrite H4, H2.
Qed.

Lemma foldl_delete_lookup (hs : list TxHash) (m : gmap TxHash ValidPoolTransaction) h :
  foldl (fun m h => delete h m) m hs !! h = if decide (h ∈ hs) then None else m !! h.
Proof.
  revert m. induction hs as [|x hs IH]; intros m; cbn; [by rewrite decide_False by apply not_elem_of_nil|].
  rewrite IH, lookup_delete. repeat case_decide; set_solver.
Qed.

(** New blocks: whatever the outcome of the sub-pool updates, after
    [on_new_block] the pool contains exactly the transactions it contained
    before that were not mined in the block, and the pending base fee is the
    block's. *)
Theorem on_new_block_mined t event h :
  pool_inv t ->
  let t' := (on_new_block ordering event t).2 in
  contains t' h = negb (bool_decide (h ∈ ev_mined_transactions event)) && contains t h /\
  pending_basefee (all_transactions t') = ev_pending_block_base_fee event /\ all_inv (all_transactions t').
Proof.
  intros Hp. unfold on_new_block. destruct (remove_mined_all t (ev_mined_transactions event) Hp) as [Hp1 Eh].
  set (t1 := remove_mined t (ev_mined_transactions event)) in *.
  destruct (all_update_inv (all_transactions t1) (ev_pending_block_base_fee event) (pi_all _ Hp1)) as [Hi _].
  assert (Eb : by_hash (all_update (all_transactions t1) (ev_pending_block_base_fee event)).2 = by_hash (all_transactions t1)
    /\ pending_basefee (all_update (all_transactions t1) (ev_pending_block_base_fee event)).2 = ev_pending_block_base_fee event)
    by (unfold all_update; by destruct (update_walk _ _ _)).
  destruct (all_update _ _) as [ups a]. cbn [snd] in *. destruct Eb as [Eb Ef].
  pose proof (process_updates_moves (mkUpdateOutcome [] []) ups (with_all t1 a)) as Hm.
  assert (Ea : all_transactions (process_updates ordering (mkUpdateOutcome [] []) ups (with_all t1 a)).2 = a) by apply Hm.
  assert (E : all_transactions ((u ← process_updates ordering (mkUpdateOutcome [] []) ups;
   mret (mkOnNewBlockOutcome (ev_hash event) (ev_mined_transactions event) (promoted u) (discarded u)))
  (with_all t1 a)).2 = a).
  { unfold mbind, st_bind. by destruct (process_updates _ _ _ _) as [[] ?]. }
  cbv zeta. unfold contains, all_contains. rewrite E. split_and!; [|done|done].
  rewrite Eb, Eh, foldl_delete_lookup. case_decide.
  { rewrite (bool_decide_true (h ∈ _)) by done. done. }
  by rewrite (bool_decide_false (h ∈ _)).
Qed.
End TxPoolProofs.
