(* ===== verification/PoolReach.v ===== *)
(** * Transaction pool: the invariant of the reachable states

    Every public operation of [TxPool] preserves [pool_inv], whatever its
    outcome, as long as the machine counters (submission ids, sizes, number of
    transactions) have room. *)
From S2P Require Import Prelude BTree PoolTypes SubPools BestTxs AllTxs AllTxsProofs InsertProofs TxPool TxPoolProofs.

Section Reach.
Context {P : Type} `{Countable P} (ordering : TransactionOrdering P).
Context `{!RelDecision (priority_le ordering)} `{!TotalOrder (priority_le ordering)}.
Implicit Types t : TxPool P.

Definition next_submission t (pool : SubPool) : Z :=
  match pool with
  | Queued => pk_next_id (queued_pool t)
  | Pending => pd_next_id (pending_pool t)
  | BaseFee => pk_next_id (basefee_pool t)
  end.

Definition grand_total t : Z :=
  total_size (sub_ids t Queued) + total_size (sub_ids t Pending) + total_size (sub_ids t BaseFee).

(** Room for [k] more insertions of [extra] bytes in total. *)
Definition room t (k extra : Z) : Prop :=
  (forall pool, next_submission t pool + k <= u64_max) /\ grand_total t + extra < 2 ^ 63.

Lemma total_size_nonneg t pool : pool_inv ordering t -> 0 <= total_size (sub_ids t pool).
Proof. intros Hp. apply msum_nonneg. intros k x Hx. by apply (sub_sizes_nonneg ordering t pool k). Qed.

(** What an operation may add to the counters. *)
Record grows (k extra : Z) t t' : Prop := {
  gr_next pool : next_submission t' pool <= next_submission t pool + k;
  gr_total : grand_total t' <= grand_total t + extra
}.

Lemma grows_trans k1 e1 k2 e2 t1 t2 t3 :
  grows k1 e1 t1 t2 -> grows k2 e2 t2 t3 -> grows (k1 + k2) (e1 + e2) t1 t3.
Proof.
  intros [A1 B1] [A2 B2]. split; [|lia]. intros pool. specialize (A1 pool). specialize (A2 pool). lia.
Qed.

Lemma parked_add_next {O E} `{Countable O} (o : ParkedOrd O) p p' tx :
  0 <= pk_next_id p < u64_max -> parked_add_transaction (E := E) o p tx = Ok p' -> pk_next_id p' = pk_next_id p + 1.
Proof.
  intros Hn. unfold parked_add_transaction. destruct (pk_by_id p !! _); [done|]. intros [= <-]. cbn.
  apply wadd_small. unfold in_u, u64_max in *. lia.
Qed.

Lemma pending_add_next {E} p p' tx :
  0 <= pd_next_id p < u64_max -> pending_add_transaction (E := E) ordering p tx = Ok p' -> pd_next_id p' = pd_next_id p + 1.
Proof.
  intros Hn. unfold pending_add_transaction. destruct (pd_by_id p !! _); [done|]. intros [= <-]. cbn.
  apply wadd_small. unfold in_u, u64_max in *. lia.
Qed.

Lemma next_submission_nonneg t pool : pool_inv ordering t -> 0 <= next_submission t pool.
Proof.
  intros Hp. destruct pool; cbn; [apply (pki_next _ _ (pi_queued _ _ Hp))|apply (pdi_next _ _ (pi_pending _ _ Hp))
    |apply (pki_next _ _ (pi_basefee _ _ Hp))].
Qed.

Lemma total_size_add t t' pool tx :
  pool_inv ordering t ->
  sub_ids t' pool = <[transaction_id tx := tx]> (sub_ids t pool) ->
  sub_ids t pool !! transaction_id tx = None ->
  (forall q, q <> pool -> sub_ids t' q = sub_ids t q) ->
  grand_total t' = grand_total t + v_size tx.
Proof.
  intros Hp E1 Hn E2. unfold grand_total, total_size.
  destruct pool; rewrite E1, !E2 by done; rewrite msum_insert by done; lia.
Qed.

Lemma add_to_subpool_inv t pool tx :
  pool_inv ordering t -> room t 1 (v_size tx) -> 0 <= v_size tx ->
  let t' := (add_transaction_to_subpool ordering pool tx t).2 in
  pool_inv ordering t' /\ grows 1 (v_size tx) t t'.
Proof.
  intros Hp [Hn Ht] Hz. pose proof (next_submission_nonneg t) as H0. pose proof (total_size_nonneg t) as Hts.
  pose proof (add_to_subpool_spec ordering t pool tx) as Hs.
  assert (Hb : total_size (sub_ids t pool) + v_size tx < 2 ^ 63).
  { pose proof (Hts Queued Hp). pose proof (Hts Pending Hp). pose proof (Hts BaseFee Hp).
    unfold grand_total in Ht. destruct pool; lia. }
  assert (Hnop : grows 1 (v_size tx) t t) by (split; [intros q|]; lia).
  unfold total_size in Hb. specialize (Hn pool) as Hnp. specialize (H0 pool Hp).
  assert (Hr : 0 <= next_submission t pool < u64_max) by lia.
  destruct pool; cbn [add_transaction_to_subpool sub_ids next_submission] in *;
    unfold parked_txs, pending_txs in Hb; rewrite msum_fmap in Hb.
  - destruct (parked_add_transaction QueuedOrd (queued_pool t) tx) as [p| | |] eqn:E; try (by cbv zeta; cbn [snd]).
    destruct Hs as (Hn0 & _ & E1 & E2). cbv zeta. cbn [snd]. split.
    + destruct Hp. split; try done. eapply parked_add_inv; [done| |done]. split_and!; [lia|done|done].
    + split; [|rewrite (total_size_add t _ Queued tx) by done; lia].
      intros []; cbn; [rewrite (parked_add_next _ _ _ _ Hr E)|..]; lia.
  - destruct (pending_add_transaction ordering (pending_pool t) tx) as [p| | |] eqn:E; try (by cbv zeta; cbn [snd]).
    destruct Hs as (Hn0 & _ & E1 & E2). cbv zeta. cbn [snd]. split.
    + destruct Hp. split; try done. eapply pending_add_inv; [done| |done]. split_and!; [lia|done|done].
    + split; [|rewrite (total_size_add t _ Pending tx) by done; lia].
      intros []; cbn; [|rewrite (pending_add_next _ _ _ Hr E)|]; lia.
  - destruct (parked_add_transaction BasefeeOrd (basefee_pool t) tx) as [p| | |] eqn:E; try (by cbv zeta; cbn [snd]).
    destruct Hs as (Hn0 & _ & E1 & E2). cbv zeta. cbn [snd]. split.
    + destruct Hp. split; try done. eapply parked_add_inv; [done| |done]. split_and!; [lia|done|done].
    + split; [|rewrite (total_size_add t _ BaseFee tx) by done; lia].
      intros []; cbn; [..|rewrite (parked_add_next _ _ _ _ Hr E)]; lia.
Qed.

Definition removed_size (o : option ValidPoolTransaction) : Z :=
  match o with Some tx => v_size tx | None => 0 end.

Lemma remove_from_subpool_counters t pool id :
  let '(o, t') := remove_from_subpool t pool id in
  (forall q, next_submission t' q = next_submission t q) /\ grand_total t' = grand_total t - removed_size o.
Proof.
  destruct (remove_from_subpool_ids t pool id) as (_ & _ & E3 & E4).
  assert (Hn : forall q, next_submission (remove_from_subpool t pool id).2 q = next_submission t q).
  { intros q. destruct pool; cbn [remove_from_subpool]; unfold parked_remove_transaction, pending_remove_transaction;
      [destruct (pk_by_id (queued_pool t) !! id)|destruct (pd_by_id (pending_pool t) !! id)
      |destruct (pk_by_id (basefee_pool t) !! id)]; by destruct q. }
  destruct (remove_from_subpool t pool id) as [o t']. cbn [fst snd] in *. split; [done|].
  assert (Hd : forall m : tx_map, total_size (delete id m) = total_size m - removed_size (m !! id)).
  { intros m. unfold total_size. destruct (m !! id) as [x|] eqn:Ex; [by apply (msum_delete v_size)|].
    rewrite delete_id by done. cbn. lia. }
  unfold grand_total. rewrite !E3, E4. destruct pool;
    repeat first [rewrite decide_True by done | rewrite decide_False by done]; rewrite Hd; lia.
Qed.

Lemma move_transaction_inv from to id t :
  pool_inv ordering t -> room t 1 0 ->
  let t' := (move_transaction ordering from to id t).2 in pool_inv ordering t' /\ grows 1 0 t t'.
Proof.
  intros Hp [Hn Ht]. unfold move_transaction. pose proof (remove_from_subpool_counters t from id) as Hc.
  pose proof (remove_from_subpool_inv ordering t from id Hp) as Hp1.
  destruct (remove_from_subpool_ids t from id) as (_ & _ & _ & E4).
  destruct (remove_from_subpool t from id) as [[tx|] t1]; cbn [fst snd removed_size] in *; destruct Hc as [Hc1 Hc2].
  - symmetry in E4. pose proof (sub_sizes_nonneg ordering t from id tx Hp E4) as Hz.
    destruct (add_to_subpool_inv t1 to tx Hp1) as [H1 [H2 H3]]; [|done|].
    + split; [intros q; rewrite Hc1; apply Hn|]. lia.
    + split; [done|]. split; [intros q; specialize (H2 q); by rewrite Hc1 in H2|lia].
  - cbv zeta. split; [done|]. split; [intros q; rewrite Hc1; lia|lia].
Qed.

Lemma process_updates_inv o us t :
  pool_inv ordering t -> room t (zlen us) 0 ->
  let t' := (process_updates ordering o us t).2 in pool_inv ordering t' /\ grows (zlen us) 0 t t'.
Proof.
  revert o t. induction us as [|u us IH]; intros o t Hp Hr; cbn [process_updates length] in *.
  { split; [done|]. split; [intros q|]; cbn; lia. }
  assert (Hr' : room t (1 + zlen us) 0) by (destruct Hr as [Hn Ht]; split; [intros q; specialize (Hn q)|]; lia).
  replace (Z.of_nat (S (length us))) with (1 + zlen us) by lia. clear Hr. destruct Hr' as [Hn Ht].
  destruct (up_destination u) as [|to].
  - destruct (IH (mkUpdateOutcome (promoted o) (discarded o ++ [up_hash u])) t Hp) as [H1 H2].
    + split; [intros q; specialize (Hn q); lia|lia].
    + split; [done|]. apply (grows_trans 1 0 (zlen us) 0 t t); [|done]. split; [intros q|]; lia.
  - unfold mbind, st_bind. destruct (move_transaction_inv (up_current u) to (up_id u) t Hp) as [Hp1 Hg1].
    { split; [intros q; specialize (Hn q); lia|done]. }
    destruct (move_transaction ordering (up_current u) to (up_id u) t) as [[[]|e| |] t1]; cbn [snd] in *.
    { destruct (IH (if SubPool_is_pending to then mkUpdateOutcome (promoted o ++ [up_hash u]) (discarded o) else o) t1 Hp1)
        as [H1 H2].
      - destruct Hg1 as [G1 G2]. split; [intros q; specialize (G1 q); specialize (Hn q); lia|lia].
      - split; [done|]. by apply (grows_trans 1 0 (zlen us) 0 t t1). }
    all: split; [done|]; destruct Hg1 as [G1 G2]; split; [intros q; specialize (G1 q)|]; lia.
Qed.

(** *** The number of moves an operation causes *)

Lemma insert_walk_length tx_id balance n c parked state l out ups st' :
  insert_walk tx_id balance n c parked state l = (out, ups, st') -> (length ups <= length l)%nat.
Proof.
  revert n c parked state out ups st'. induction l as [|[id x] l IH];
    intros n c parked state out ups st' Hw; cbn [insert_walk] in Hw; [by injection Hw as _ <- _|].
  destruct (negb (n =? id_nonce id)); [injection Hw as _ <- _; cbn; lia|].
  cbv zeta in Hw. set (s := insert_tx_state _ _ _ _) in *.
  destruct (insert_walk _ _ _ _ _ _ l) as [[out' more] st2] eqn:E. injection Hw as _ <- _.
  specialize (IH _ _ _ _ _ _ _ E). rewrite length_app. cbn.
  destruct (bool_decide (tx_id = id)); cbn; [lia|]. case_bool_decide; cbn; lia.
Qed.

Lemma descendant_txs_length a id : (length (descendant_txs a id) <= size (txs a))%nat.
Proof.
  unfold descendant_txs. assert (Htw : forall l : list entry, (length (take_while (same_sender id) l) <= length l)%nat)
    by (induction l as [|e l IHl]; cbn; [lia|]; destruct (same_sender id e); cbn; lia).
  etransitivity; [apply Htw|]. etransitivity; [apply length_filter|]. by rewrite length_entries.
Qed.

Lemma insert_tx_updates_length a tx bal n r a' :
  insert_tx a tx bal n = (Ok r, a') -> zlen (ok_updates r) <= all_len a + 1.
Proof.
  intros (state & replaced & a1 & parked & out & ups & st' & _ & _ & _ & He & _ & Hw & -> & _)%insert_tx_Ok_inv.
  apply insert_walk_length in Hw. pose proof (descendant_txs_length a1 (mkTransactionId (v_sender_id tx) n)) as Hl.
  apply insert_entry_ok in He as (Etx & _). cbn [ok_updates]. unfold all_len.
  enough (size (txs a1) <= size (txs a) + 1)%nat by lia. rewrite Etx.
  rewrite map_size_insert. destruct (txs a !! _); cbn; lia.
Qed.

Lemma update_walk_length fee mode l : (length (update_walk fee mode l).2 <= length l)%nat.
Proof.
  revert mode. induction l as [|[id x] l IH]; intros mode; cbn [update_walk]; [done|].
  assert (Hs : (length (update_step fee mode id x).1.2 <= 1)%nat).
  { assert (Hrec : forall y, (length (record_subpool_update y).2 <= 1)%nat)
      by (intros y; cbn; case_decide; cbn; lia).
    assert (Hf : (length (update_first fee id x).1.2 <= 1)%nat)
      by (unfold update_first; destruct (has_nonce_gap _); [cbn; lia|apply Hrec]).
    assert (Hn : forall s p, (length (update_next fee s p x).1.2 <= 1)%nat)
      by (intros s p; unfold update_next; destruct (has_nonce_gap _); [cbn; lia|apply Hrec]).
    unfold update_step. destruct mode; [done|destruct (_ =? _); [cbn; lia|done]|destruct (_ =? _); done]. }
  destruct (update_step fee mode id x) as [[x' u] mode']. specialize (IH mode').
  destruct (update_walk fee mode' l) as [out more]. cbn in *. rewrite length_app. lia.
Qed.

Lemma all_update_length a fee : zlen (all_update a fee).1 <= all_len a.
Proof.
  unfold all_update, all_len. pose proof (update_walk_length fee UniqueSender (entries id_le (txs a))) as Hl.
  destruct (update_walk _ _ _) as [out ups]. cbn in *. rewrite length_entries in Hl. lia.
Qed.

(** *** The operations *)

(** The operations of [TxPool] that change its state. *)
Inductive pool_op :=
| OpAdd (tx : ValidPoolTransaction) (on_chain_balance on_chain_nonce : Z)
| OpNewBlock (event : OnNewBlockEvent)
| OpRemoveInvalid (hashes : list TxHash)
| OpDiscardWorst.

Definition pool_step (op : pool_op) t : TxPool P :=
  match op with
  | OpAdd tx bal n => (add_transaction ordering tx bal n t).2
  | OpNewBlock event => (on_new_block ordering event t).2
  | OpRemoveInvalid hashes => (remove_invalid t hashes).2
  | OpDiscardWorst => (discard_worst ordering t).2
  end.

(** What an operation requires: a validated transaction with a hash of its own
    and counters that do not overflow. *)
Definition op_ok (op : pool_op) t : Prop :=
  match op with
  | OpAdd tx _ _ =>
      valid_tx tx /\ 0 <= v_size tx /\ hash_fresh (abs (txs (all_transactions t))) tx /\
      all_len (all_transactions t) + 1 < u64_max /\
      room t (all_len (all_transactions t) + 2) (v_size tx)
  | OpNewBlock _ => room t (all_len (all_transactions t)) 0
  | OpRemoveInvalid _ => True
  | OpDiscardWorst => limits_ok (tp_config t)
  end.

Lemma insert_tx_state_inv a tx bal n :
  all_inv a -> counter_room a -> valid_tx tx -> hash_fresh (abs (txs a)) tx ->
  all_inv (insert_tx a tx bal n).2 /\ all_len (insert_tx a tx bal n).2 <= all_len a + 1.
Proof.
  intros Ha Hr Htx Hf. destruct (Z.lt_ge_cases (v_nonce tx) n) as [Hlt|Hn].
  { unfold insert_tx. zdec. cbn. split; [done|lia]. }
  pose proof (insert_tx_cases a tx bal n Htx Hn) as Hc. cbv zeta in Hc.
  destruct (x ← ensure_valid a tx; _) as [x|e| |]; [|rewrite Hc; cbn; split; [done|lia]|done..].
  destruct Hc as (r & a' & E). rewrite E.
  destruct (insert_tx_inv_ok _ _ _ _ _ _ Ha Hr Htx Hf E) as (H1 & H2 & _). split; [done|]. cbn [snd].
  apply (f_equal size) in H2. unfold abs in H2. rewrite map_size_insert, !map_size_fmap in H2.
  unfold all_len. destruct (_ !! _) in H2; cbn in H2; lia.
Qed.

Lemma add_new_transaction_inv tx replaced pool t :
  pool_inv ordering t -> room t 1 (v_size tx) -> 0 <= v_size tx ->
  let t' := (add_new_transaction ordering tx replaced pool t).2 in
  pool_inv ordering t' /\ grows 1 (v_size tx) t t'.
Proof.
  intros Hp [Hn Ht] Hz. unfold add_new_transaction. destruct replaced as [[old q]|]; [|by apply add_to_subpool_inv].
  pose proof (remove_from_subpool_counters t q (transaction_id old)) as Hc.
  pose proof (remove_from_subpool_inv ordering t q (transaction_id old) Hp) as Hp1.
  destruct (remove_from_subpool_ids t q (transaction_id old)) as (_ & _ & _ & E4).
  assert (Hrem : 0 <= removed_size (remove_from_subpool t q (transaction_id old)).1).
  { rewrite E4. destruct (sub_ids t q !! _) as [x|] eqn:Hx; cbn; [|lia]. by apply (sub_sizes_nonneg ordering t q (transaction_id old)). }
  destruct (remove_from_subpool t q (transaction_id old)) as [o t1]. cbn [fst snd] in *. destruct Hc as [C1 C2].
  destruct (add_to_subpool_inv t1 pool tx Hp1) as [H1 [H2 H3]]; [|done|].
  - split; [intros p; rewrite C1; apply Hn|lia].
  - split; [done|]. split; [intros p; specialize (H2 p); by rewrite C1 in H2|lia].
Qed.

Lemma add_transaction_inv tx bal n t :
  pool_inv ordering t -> op_ok (OpAdd tx bal n) t -> pool_inv ordering (pool_step (OpAdd tx bal n) t).
Proof.
  intros Hp (Htx & Hz & Hf & Hlen & Hn & Ht). cbn [pool_step]. unfold add_transaction.
  cbn [all_transactions with_sender_info].
  set (t0 := with_sender_info t _).
  destruct (insert_tx_state_inv (all_transactions t) tx bal n (pi_all _ _ Hp) (pi_room _ _ Hp) Htx Hf) as [Hi Hl].
  assert (Hp0 : forall a, all_inv a -> all_len a <= all_len (all_transactions t) + 1 -> pool_inv ordering (with_all t0 a)).
  { intros a Ha Hla. destruct Hp. split; try done. unfold counter_room. cbn. lia. }
  destruct (insert_tx (all_transactions t) tx bal n) as [[i|e| |] a] eqn:E; cbn [snd] in *; try (by apply Hp0).
  pose proof (insert_tx_transaction _ _ _ _ _ _ E) as Etx. pose proof (insert_tx_updates_length _ _ _ _ _ _ E) as Hup.
  unfold mbind, st_bind. rewrite Etx.
  assert (En : forall q, next_submission (with_all t0 a) q = next_submission t q) by (by intros []).
  destruct (add_new_transaction_inv tx (ok_replaced_tx i) (ok_move_to i) (with_all t0 a) (Hp0 a Hi Hl)) as [H1 [H2 H3]]; [|done|].
  { split; [|exact ltac:(change (grand_total (with_all t0 a)) with (grand_total t); lia)].
    intros q. rewrite En. specialize (Hn q). pose proof (Nat2Z.is_nonneg (size (txs (all_transactions t)))).
    unfold all_len in *. lia. }
  destruct (add_new_transaction ordering tx (ok_replaced_tx i) (ok_move_to i) (with_all t0 a)) as [[[]|e| |] t1];
    cbn [snd] in *; try done.
  destruct (process_updates_inv (mkUpdateOutcome [] []) (ok_updates i) t1 H1) as [H4 _].
  { split; [|change (grand_total (with_all t0 a)) with (grand_total t) in H3; lia].
    intros q. specialize (H2 q). rewrite En in H2. specialize (Hn q). lia. }
  by destruct (process_updates ordering _ (ok_updates i) t1) as [[] t2].
Qed.

Lemma tx_decr_txs a s : txs (tx_decr a s) = txs a.
Proof. unfold tx_decr. destruct (tx_counter a !! s); [|done]. by destruct (_ =? 1). Qed.

Lemma remove_by_hash_txs a h : txs (all_remove_transaction_by_hash a h).2 ⊆ txs a.
Proof.
  unfold all_remove_transaction_by_hash. destruct (by_hash a !! h) as [tx|]; [|done].
  cbn [txs with_by_hash]. destruct (txs a !! transaction_id tx); [|done]. cbn [snd].
  rewrite tx_decr_txs. apply delete_subseteq.
Qed.

Lemma remove_by_hash_counters t h :
  pool_inv ordering t ->
  let t' := (remove_transaction_by_hash t h).2 in
  grows 0 0 t t' /\ all_len (all_transactions t') <= all_len (all_transactions t).
Proof.
  intros Hp. unfold remove_transaction_by_hash. pose proof (remove_by_hash_txs (all_transactions t) h) as Hs.
  apply map_subseteq_size in Hs.
  destruct (all_remove_transaction_by_hash (all_transactions t) h) as [[[tx q]|] a]; cbn [snd] in *.
  - pose proof (remove_from_subpool_counters (with_all t a) q (transaction_id tx)) as Hc.
    destruct (remove_from_subpool_ids (with_all t a) q (transaction_id tx)) as (E1 & _ & _ & E4).
    assert (Hrem : 0 <= removed_size (remove_from_subpool (with_all t a) q (transaction_id tx)).1).
    { rewrite E4. change (sub_ids (with_all t a) q) with (sub_ids t q).
      destruct (sub_ids t q !! _) as [x|] eqn:Hx; cbn; [|lia]. by apply (sub_sizes_nonneg ordering t q (transaction_id tx)). }
    destruct (remove_from_subpool (with_all t a) q (transaction_id tx)) as [o t1]. cbn [fst snd] in *.
    destruct Hc as [C1 C2]. split; [|rewrite E1; unfold all_len; cbn; lia].
    split; [intros p; rewrite C1; by destruct p; cbn; lia|].
    change (grand_total (with_all t a)) with (grand_total t) in C2. lia.
  - split; [|unfold all_len; cbn; lia]. split; [intros []; cbn; lia|].
    change (grand_total (with_all t a)) with (grand_total t). lia.
Qed.

Lemma remove_mined_counters t hs :
  pool_inv ordering t ->
  grows 0 0 t (remove_mined t hs) /\ all_len (all_transactions (remove_mined t hs)) <= all_len (all_transactions t).
Proof.
  revert t. induction hs as [|h hs IH]; intros t Hp; cbn [remove_mined].
  { split; [split; [intros q|]|]; lia. }
  destruct (remove_by_hash_all ordering t h Hp) as [Hp1 _]. destruct (remove_by_hash_counters t h Hp) as [G1 L1].
  destruct (IH _ Hp1) as [G2 L2]. split; [by apply (grows_trans 0 0 0 0 _ _ _ G1)|lia].
Qed.

Lemma on_new_block_inv event t :
  pool_inv ordering t -> op_ok (OpNewBlock event) t -> pool_inv ordering (pool_step (OpNewBlock event) t).
Proof.
  intros Hp [Hn Ht]. cbn [pool_step]. unfold on_new_block.
  destruct (remove_mined_all ordering t (ev_mined_transactions event) Hp) as [Hp1 _].
  destruct (remove_mined_counters t (ev_mined_transactions event) Hp) as [[G1 G2] L].
  set (t1 := remove_mined t (ev_mined_transactions event)) in *.
  destruct (all_update_inv (all_transactions t1) (ev_pending_block_base_fee event) (pi_all _ _ Hp1)) as [Hi Ea].
  pose proof (all_update_length (all_transactions t1) (ev_pending_block_base_fee event)) as Hl.
  destruct (all_update _ _) as [ups a]. cbn [fst snd] in *.
  assert (Hlen : all_len a = all_len (all_transactions t1)).
  { unfold all_len. apply (f_equal size) in Ea. unfold abs in Ea. rewrite !map_size_fmap in Ea. by rewrite Ea. }
  assert (Hp2 : pool_inv ordering (with_all t1 a)).
  { apply pool_inv_with_all; [done|done|]. unfold counter_room. rewrite Hlen. apply Hp1. }
  destruct (process_updates_inv (mkUpdateOutcome [] []) ups (with_all t1 a) Hp2) as [H1 _].
  - split; [intros q; specialize (G1 q); specialize (Hn q); destruct q; cbn in *; lia|].
    change (grand_total (with_all t1 a)) with (grand_total t1). lia.
  - unfold mbind, st_bind. by destruct (process_updates ordering _ ups (with_all t1 a)) as [[] t2].
Qed.

Lemma remove_invalid_inv t hs : pool_inv ordering t -> pool_inv ordering (remove_invalid t hs).2.
Proof.
  revert t. induction hs as [|h hs IH]; intros t Hp; [done|]. cbn [remove_invalid].
  destruct (remove_by_hash_all ordering t h Hp) as [Hp1 _].
  destruct (remove_transaction_by_hash t h) as [o t1]. cbn [snd] in Hp1. specialize (IH t1 Hp1).
  by destruct (remove_invalid t1 hs).
Qed.

(** *** Reachable pools *)

Inductive reachable (config : PoolConfig) : TxPool P -> Prop :=
| reach_new : reachable config (TxPool_new config)
| reach_step op t : reachable config t -> op_ok op t -> reachable config (pool_step op t).

(** C3. The containers of the pool stay consistent, each by itself.  In every state
    reached from the empty pool by additions, new blocks, removals and evictions whose
    numbers are in range ([op_ok]), whether they succeed, fail or panic: the id, hash and
    sender-count indices of [AllTransactions] describe one set of transactions, whose
    states use only the declared flags; the two orders of each sub-pool hold the same
    transactions under submission ids that do not repeat; and the size counter of each
    sub-pool is the sum of its transaction sizes.  Nothing is said about one
    container compared with another: a sub-pool may keep a transaction that
    [AllTransactions] has dropped. *)
Theorem reachable_inv config t : reachable config t -> pool_inv ordering t.
Proof.
  induction 1 as [|op t Hr IH Hok]; [apply pool_inv_new|].
  destruct op; [by apply add_transaction_inv|by apply on_new_block_inv
    |by apply remove_invalid_inv|by apply discard_worst_inv].
Qed.
End Reach.

(** ** Examples *)

Definition tiny_config : PoolConfig :=
  mkPoolConfig (mkSubPoolLimit 0 1000) (mkSubPoolLimit 10 1000) (mkSubPoolLimit 10 1000) 16.

Definition empty_pool : TxPool Z := TxPool_new tiny_config.
Definition add_sample (s nonce hash cost price : Z) (t : TxPool Z) : TxPool Z :=
  (add_transaction CostOrdering (sample_tx s nonce hash cost price) 1000 0 t).2.
Definition one_pending : TxPool Z := add_sample 7 0 100 30 50 empty_pool.

Lemma op_ok_sample s nonce hash cost price :
  0 <= nonce < u64_max -> op_ok (OpAdd (sample_tx s nonce hash cost price) 1000 0) empty_pool.
Proof.
  intros Hn. split_and!; [by split|by cbn| |done|].
  - intros id tx. cbn. unfold abs. by rewrite fmap_empty, lookup_empty.
  - split; [by intros []|done].
Qed.

Lemma one_pending_inv : pool_inv CostOrdering one_pending.
Proof.
  apply (add_transaction_inv CostOrdering (sample_tx 7 0 100 30 50) 1000 0 empty_pool); [apply pool_inv_new|].
  by apply op_ok_sample.
Qed.

Lemma empty_hash_fresh tx : hash_fresh (abs (txs (all_transactions empty_pool))) tx.
Proof. intros id x. cbn. unfold abs. by rewrite fmap_empty, lookup_empty. Qed.

Lemma reachable_inv_witness : pool_inv CostOrdering one_pending.
Proof.
  apply (reachable_inv CostOrdering tiny_config one_pending).
  apply (reach_step CostOrdering tiny_config (OpAdd (sample_tx 7 0 100 30 50) 1000 0) empty_pool).
  - apply reach_new.
  - by apply op_ok_sample.
Defined.

Lemma discard_worst_limits_witness :
  exceeded one_pending Pending = true /\
  exists removed t', discard_worst CostOrdering one_pending = (Ok removed, t') /\ exceeded t' Pending = false.
Proof.
  split; [reflexivity|].
  destruct (discard_worst_limits CostOrdering one_pending one_pending_inv) as (r & t' & E & _ & _ & Hl).
  - by intros []; split.
  - exists r, t'. by split.
Defined.

Lemma add_transaction_success_witness :
  pool_get one_pending 100 = Some (sample_tx 7 0 100 30 50) /\
  in_subpool one_pending Pending (sample_tx 7 0 100 30 50).
Proof.
  destruct (add_transaction_success CostOrdering (sample_tx 7 0 100 30 50) 1000 0 empty_pool
    (AddedPending (sample_tx 7 0 100 30 50) [] []) one_pending) as (H1 & _ & _ & H2).
  - apply pool_inv_new.
  - by split.
  - apply empty_hash_fresh.
  - vm_compute. reflexivity.
  - by split.
Defined.

Lemma add_transaction_rejected_witness :
  exists t', add_transaction CostOrdering (sample_tx 7 0 101 30 50) 900 0 one_pending
    = (Err (ReplacementUnderpriced 100), t') /\
  t' = with_sender_info one_pending (<[7 := mkSenderInfo 0 900]> (sender_info one_pending)).
Proof.
  eexists. split; [vm_compute; reflexivity|].
  apply (add_transaction_rejected CostOrdering (sample_tx 7 0 101 30 50) 900 0 one_pending
    (ReplacementUnderpriced 100)). vm_compute. reflexivity.
Defined.

Lemma remove_fresh_pending_leaks_witness :
  contains (remove_transaction_by_hash one_pending 100).2 100 = false /\
  in_subpool (remove_transaction_by_hash one_pending 100).2 Pending (sample_tx 7 0 100 30 50).
Proof.
  apply (remove_fresh_pending_leaks CostOrdering (sample_tx 7 0 100 30 50) 1000 0 empty_pool [] [] one_pending).
  - apply pool_inv_new.
  - by split.
  - apply empty_hash_fresh.
  - done.
  - vm_compute. reflexivity.
Defined.

Lemma replace_fresh_pending_panics_witness :
  (add_transaction CostOrdering (sample_tx 7 0 101 30 60) 1000 0 one_pending).1 = Panic.
Proof.
  eapply (replace_fresh_pending_panics CostOrdering (sample_tx 7 0 100 30 50) 1000 0 empty_pool [] [] one_pending
    (sample_tx 7 0 101 30 60) 1000 0).
  - apply pool_inv_new.
  - by split.
  - vm_compute. reflexivity.
  - reflexivity.
  - vm_compute. reflexivity.
  - reflexivity.
Defined.

Lemma on_new_block_mined_witness :
  contains (on_new_block CostOrdering (mkOnNewBlockEvent 1 10 [100]) one_pending).2 100 = false.
Proof.
  destruct (on_new_block_mined CostOrdering one_pending (mkOnNewBlockEvent 1 10 [100]) 100 one_pending_inv) as [E _].
  rewrite E. reflexivity.
Defined.

(** Eviction leaves the evicted transaction in the index: [discard_worst]
    returns the transaction it popped from the pending sub-pool, which the pool
    still reports as contained (and counts against its sender), because only
    the descendants are removed from the set of all transactions. *)
Theorem discard_worst_keeps_index :
  let '(removed, t') := discard_worst CostOrdering one_pending in
  removed = Ok [sample_tx 7 0 100 30 50] /\ contains t' 100 = true /\
  sub_ids t' Pending = ∅ /\ tx_count (all_transactions t') 7 = 1.
Proof. vm_compute. done. Qed.
