(* ===== verification/PoolInner.v ===== *)
(** * Transaction pool: validation, listeners and the pool's front

    crates/transaction-pool/src: validate.rs ([EthTransactionValidator]),
    pool/listener.rs ([PoolEventBroadcast]) and pool/mod.rs ([PoolInner]).  The
    account database and the channels of tokio are parameters: a channel is a
    sender with its send operation. *)
From S2P Require Import Prelude BTree PoolTypes SubPools AllTxs TxPool.

(** ** validate.rs *)

Definition LEGACY_TX_TYPE_ID : Z := 0.
Definition EIP2930_TX_TYPE_ID : Z := 1.
Definition EIP1559_TX_TYPE_ID : Z := 2.
Definition TX_SLOT_SIZE : Z := 32 * 1024.
Definition TX_MAX_SIZE : Z := 4 * TX_SLOT_SIZE.
Definition MAX_CODE_SIZE : Z := 24576.
Definition MAX_INIT_CODE_SIZE : Z := 2 * MAX_CODE_SIZE.

Record Account := mkAccount { acc_nonce : Z; acc_balance : Z; bytecode_hash : option Z }.

Definition has_bytecode (a : Account) : bool := bool_decide (is_Some (bytecode_hash a)).

Inductive TransactionValidationOutcome :=
| Valid (balance state_nonce : Z) (tx : PoolTransaction)
| Invalid (tx : PoolTransaction) (e : InvalidPoolTransactionError)
| ValidationError (tx : PoolTransaction).

Record EthTransactionValidator := mkEthTransactionValidator {
  val_chain_id : Z;
  shanghai : bool;
  eip2718 : bool;
  eip1559 : bool;
  current_max_gas_limit : Z;
  gas_price : option Z
}.

(** [PartialOrd for Option<u128>]: [None] is below every [Some]. *)
Definition opt_leb (a b : option Z) : bool :=
  match a, b with
  | None, _ => true
  | Some _, None => false
  | Some a, Some b => a <=? b
  end.
Definition opt_ltb (a b : option Z) : bool := negb (opt_leb b a).

Definition ensure_max_init_code_size (tx : PoolTransaction) (max_init_code_size : Z)
    : outcome InvalidPoolTransactionError unit :=
  if is_create tx && (max_init_code_size <? tx_size tx)
  then Err (ExceedsMaxInitCodeSize (tx_size tx) max_init_code_size) else Ok tt.

(** The check of the transaction type. *)
Definition check_tx_type (v : EthTransactionValidator) (tx : PoolTransaction)
    : option InvalidTransactionError :=
  if tx_type tx =? LEGACY_TX_TYPE_ID then None
  else if tx_type tx =? EIP2930_TX_TYPE_ID then (if eip2718 v then None else Some Eip1559Disabled)
  else if tx_type tx =? EIP1559_TX_TYPE_ID then (if eip1559 v then None else Some Eip1559Disabled)
  else Some TxTypeNotSupported.

(** The checks before the account is read. *)
Definition check_static (v : EthTransactionValidator) (o : TransactionOrigin) (tx : PoolTransaction)
    : option InvalidPoolTransactionError :=
  match check_tx_type v tx with
  | Some e => Some (ConsensusInvalid e)
  | None =>
      if TX_MAX_SIZE <? tx_size tx then Some (OversizedData (tx_size tx) TX_MAX_SIZE)
      else
        match (if shanghai v then ensure_max_init_code_size tx MAX_INIT_CODE_SIZE else Ok tt) with
        | Err e => Some e
        | _ =>
            if current_max_gas_limit v <? gas_limit tx
            then Some (ExceedsGasLimit (gas_limit tx) (current_max_gas_limit v))
            else if opt_leb (max_fee_per_gas tx) (max_priority_fee_per_gas tx)
            then Some (ConsensusInvalid TipAboveFeeCap)
            else if negb (is_local o) && opt_ltb (max_fee_per_gas tx) (gas_price v)
            then Some (ConsensusInvalid MaxFeeLessThenBaseFee)
            else if bool_decide (tx_chain_id tx = Some (val_chain_id v)) then None
            else Some (ConsensusInvalid ChainIdMismatch)
        end
  end.

(** The checks against the sender's account. *)
Definition check_account (tx : PoolTransaction) (account : option Account)
    : TransactionValidationOutcome :=
  match account with
  | None => Invalid tx AccountNotFound
  | Some a =>
      if has_bytecode a then Invalid tx (ConsensusInvalid SignerAccountHasBytecode)
      else if tx_nonce tx <? acc_nonce a then Invalid tx (ConsensusInvalid NonceNotConsistent)
      else if acc_balance a <? tx_cost tx
      then Invalid tx (ConsensusInvalid (InsufficientFunds (default 0 (max_fee_per_gas tx)) (acc_balance a)))
      else Valid (acc_balance a) (acc_nonce a) tx
  end.

(** [validate_transaction]; [basic_account] is the account provider, [None] a
    provider error. *)
Definition validate_transaction (basic_account : Address -> option (option Account))
    (v : EthTransactionValidator) (o : TransactionOrigin) (tx : PoolTransaction)
    : TransactionValidationOutcome :=
  match check_static v o tx with
  | Some e => Invalid tx e
  | None =>
      match basic_account (tx_sender tx) with
      | None => ValidationError tx
      | Some account => check_account tx account
      end
  end.

(** ** pool/listener.rs *)

Inductive PropagateKind := PropagateFull (peer : Z) | PropagateHash (peer : Z).

Inductive TransactionEvent :=
| EvPending
| EvQueued
| EvMined (block_hash : Z)
| EvReplaced (h : TxHash)
| EvDiscarded
| EvInvalid
| EvPropagated (peers : list PropagateKind).

Section Listener.
Context {S : Type} (send : S -> TransactionEvent -> bool * S).

Record PoolEventBroadcaster := mkBroadcaster { br_is_done : bool; br_senders : list S }.

Abbreviation PoolEventBroadcast := (gmap TxHash PoolEventBroadcaster).

(** [retain] of the senders whose channel is still open. *)
Fixpoint retain_senders (l : list S) (e : TransactionEvent) : list S :=
  match l with
  | [] => []
  | s :: l => let '(ok, s) := send s e in if ok then s :: retain_senders l e else retain_senders l e
  end.

Definition broadcaster_broadcast (b : PoolEventBroadcaster) (e : TransactionEvent) : PoolEventBroadcaster :=
  mkBroadcaster (br_is_done b) (retain_senders (br_senders b) e).

Definition broadcaster_is_done (b : PoolEventBroadcaster) : bool :=
  bool_decide (br_senders b = []) || br_is_done b.

Definition broadcaster_done (b : PoolEventBroadcaster) : PoolEventBroadcaster :=
  mkBroadcaster true (br_senders b).

Definition broadcast_with (m : PoolEventBroadcast) (h : TxHash)
    (callback : PoolEventBroadcaster -> PoolEventBroadcaster) : PoolEventBroadcast :=
  match m !! h with
  | None => m
  | Some sink =>
      let sink := callback sink in
      if broadcaster_is_done sink then delete h m else <[h := sink]> m
  end.

Definition ev_pending (m : PoolEventBroadcast) (tx : TxHash) (replaced : option TxHash) : PoolEventBroadcast :=
  let m := broadcast_with m tx (fun b => broadcaster_broadcast b EvPending) in
  match replaced with
  | Some r => broadcast_with m r (fun b => broadcaster_done (broadcaster_broadcast b (EvReplaced tx)))
  | None => m
  end.
Definition ev_queued (m : PoolEventBroadcast) (tx : TxHash) : PoolEventBroadcast :=
  broadcast_with m tx (fun b => broadcaster_broadcast b EvQueued).
Definition ev_propagated (m : PoolEventBroadcast) (tx : TxHash) (peers : list PropagateKind) : PoolEventBroadcast :=
  broadcast_with m tx (fun b => broadcaster_broadcast b (EvPropagated peers)).
Definition ev_discarded (m : PoolEventBroadcast) (tx : TxHash) : PoolEventBroadcast :=
  broadcast_with m tx (fun b => broadcaster_done (broadcaster_broadcast b EvDiscarded)).
Definition ev_mined (m : PoolEventBroadcast) (tx : TxHash) (block_hash : Z) : PoolEventBroadcast :=
  broadcast_with m tx (fun b => broadcaster_done (broadcaster_broadcast b (EvMined block_hash))).
End Listener.
Arguments PoolEventBroadcaster S : clear implicits.
Arguments mkBroadcaster {S} _ _.
Arguments br_is_done {S} _.
Arguments br_senders {S} _.

(** ** pool/mod.rs *)

(** The result of [mpsc::Sender::try_send]. *)
Inductive try_send_result := SendOk | SendFull | SendClosed.

Record NewTransactionEvent := mkNewTransactionEvent { ne_subpool : SubPool; ne_transaction : ValidPoolTransaction }.

Definition added_hash (t : AddedTransaction) : TxHash :=
  match t with AddedPending tx _ _ | AddedParked tx _ => v_hash tx end.
Definition as_pending (t : AddedTransaction) : option TxHash :=
  match t with AddedPending tx _ _ => Some (v_hash tx) | AddedParked _ _ => None end.
Definition into_new_transaction_event (t : AddedTransaction) : NewTransactionEvent :=
  match t with
  | AddedPending tx _ _ => mkNewTransactionEvent Pending tx
  | AddedParked tx pool => mkNewTransactionEvent pool tx
  end.

(** [retain_mut]: only listeners whose channel is closed are dropped. *)
Fixpoint notify_listeners {S A : Type} (try_send : S -> A -> try_send_result * S) (l : list S) (x : A) : list S :=
  match l with
  | [] => []
  | s :: l =>
      let '(r, s) := try_send s x in
      match r with
      | SendOk | SendFull => s :: notify_listeners try_send l x
      | SendClosed => notify_listeners try_send l x
      end
  end.

Section PoolInner.
Context {P : Type} `{Countable P} (ordering : TransactionOrdering P).
Context `{!RelDecision (priority_le ordering)} `{!TotalOrder (priority_le ordering)}.
Context {SE SP ST : Type} (send : SE -> TransactionEvent -> bool * SE).
Context (try_send_pending : SP -> TxHash -> try_send_result * SP).
Context (try_send_new : ST -> NewTransactionEvent -> try_send_result * ST).

Record PoolInner := mkPoolInner {
  identifiers : SenderIdentifiers;
  inner_pool : TxPool P;
  inner_config : PoolConfig;
  event_listener : gmap TxHash (PoolEventBroadcaster SE);
  pending_transaction_listener : list SP;
  transaction_listener : list ST
}.

Definition PoolInner_new (config : PoolConfig) : PoolInner :=
  mkPoolInner SenderIdentifiers_default (TxPool_new config) config ∅ [] [].

Definition with_identifiers (s : PoolInner) i :=
  mkPoolInner i (inner_pool s) (inner_config s) (event_listener s) (pending_transaction_listener s) (transaction_listener s).
Definition with_pool (s : PoolInner) p :=
  mkPoolInner (identifiers s) p (inner_config s) (event_listener s) (pending_transaction_listener s) (transaction_listener s).
Definition with_events (s : PoolInner) e :=
  mkPoolInner (identifiers s) (inner_pool s) (inner_config s) e (pending_transaction_listener s) (transaction_listener s).
Definition with_pending_listeners (s : PoolInner) l :=
  mkPoolInner (identifiers s) (inner_pool s) (inner_config s) (event_listener s) l (transaction_listener s).
Definition with_listeners (s : PoolInner) l :=
  mkPoolInner (identifiers s) (inner_pool s) (inner_config s) (event_listener s) (pending_transaction_listener s) l.

Definition get_sender_id (s : PoolInner) (addr : Address) : SenderId * PoolInner :=
  let '(i, ids) := sender_id_or_create (identifiers s) addr in (i, with_identifiers s ids).

Definition add_pending_listener (s : PoolInner) (tx : SP) : PoolInner :=
  with_pending_listeners s (pending_transaction_listener s ++ [tx]).
Definition add_transaction_listener (s : PoolInner) (tx : ST) : PoolInner :=
  with_listeners s (transaction_listener s ++ [tx]).

Definition on_new_pending_transaction (s : PoolInner) (ready : TxHash) : PoolInner :=
  with_pending_listeners s (notify_listeners try_send_pending (pending_transaction_listener s) ready).
Definition on_new_transaction (s : PoolInner) (event : NewTransactionEvent) : PoolInner :=
  with_listeners s (notify_listeners try_send_new (transaction_listener s) event).

Definition notify_event_listeners (s : PoolInner) (tx : AddedTransaction) : PoolInner :=
  with_events s
    (match tx with
     | AddedPending tx promoted discarded =>
         let m := ev_pending send (event_listener s) (v_hash tx) None in
         let m := foldl (fun m h => ev_pending send m h None) m promoted in
         foldl (ev_discarded send) m discarded
     | AddedParked tx _ => ev_queued send (event_listener s) (v_hash tx)
     end).

Definition notify_on_new_block (s : PoolInner) (o : OnNewBlockOutcome) : PoolInner :=
  let m := foldl (fun m h => ev_mined send m h (ob_block_hash o)) (event_listener s) (ob_mined o) in
  let m := foldl (fun m h => ev_pending send m h None) m (ob_promoted o) in
  with_events s (foldl (ev_discarded send) m (ob_discarded o)).

(** Run an operation of the wrapped pool. *)
Definition on_pool {A} (f : st (TxPool P) PoolError A) : st PoolInner PoolError A := fun s =>
  let '(r, p) := f (inner_pool s) in (r, with_pool s p).

(** [add_transaction]; [now] is the instant of the call. *)
Definition inner_add_transaction (now : Z) (o : TransactionOrigin) (tx : TransactionValidationOutcome)
    : st PoolInner PoolError TxHash := fun s =>
  match tx with
  | Valid balance state_nonce transaction =>
      let '(sender_id, s) := get_sender_id s (tx_sender transaction) in
      let transaction_id := mkTransactionId sender_id (tx_nonce transaction) in
      let tx := mkValidPoolTransaction transaction transaction_id false (tx_cost transaction) now o
                  (tx_encoded_length transaction) in
      (added ← on_pool (add_transaction ordering tx balance state_nonce);
       s ← st_get;
       let s := match as_pending added with
                | Some h => on_new_pending_transaction s h
                | None => s
                end in
       let s := notify_event_listeners s added in
       st_put (on_new_transaction s (into_new_transaction_event added));;
       mret (added_hash added)) s
  | Invalid tx e =>
      (Err (InvalidTransaction (tx_hash tx) e), with_events s (ev_discarded send (event_listener s) (tx_hash tx)))
  | ValidationError tx =>
      (Err (Other (tx_hash tx)), with_events s (ev_discarded send (event_listener s) (tx_hash tx)))
  end.

(** A [Result] kept as a value. *)
Definition st_try {S E A} (f : st S E A) : st S E (A + E) := fun s =>
  match f s with
  | (Ok a, s) => (Ok (inl a), s)
  | (Err e, s) => (Ok (inr e), s)
  | (Panic, s) => (Panic, s)
  | (Diverge, s) => (Diverge, s)
  end.

Fixpoint add_each (o : TransactionOrigin) (l : list (Z * TransactionValidationOutcome))
    : st PoolInner PoolError (list (TxHash + PoolError)) :=
  match l with
  | [] => mret []
  | (now, tx) :: l => r ← st_try (inner_add_transaction now o tx); rs ← add_each o l; mret (r :: rs)
  end.

Definition is_inl {A B} (x : A + B) : bool := match x with inl _ => true | inr _ => false end.

Definition inner_discard_worst : st PoolInner PoolError (gset TxHash) :=
  removed ← on_pool (discard_worst ordering); mret (list_to_set (v_hash <$> removed)).

Definition mark_discarded (discarded : gset TxHash) (r : TxHash + PoolError) : TxHash + PoolError :=
  match r with
  | inl h => if decide (h ∈ discarded) then inr (DiscardedOnInsert h) else inl h
  | inr e => inr e
  end.

Definition inner_add_transactions (o : TransactionOrigin) (l : list (Z * TransactionValidationOutcome))
    : st PoolInner PoolError (list (TxHash + PoolError)) :=
  added ← add_each o l;
  discarded ← (if existsb is_inl added then inner_discard_worst else mret ∅);
  mret (if decide (discarded = ∅) then added else mark_discarded discarded <$> added).

Definition inner_on_new_block (event : OnNewBlockEvent) : st PoolInner PoolError unit :=
  outcome ← on_pool (on_new_block ordering event);
  s ← st_get;
  st_put (notify_on_new_block s outcome).

Definition inner_remove_invalid (s : PoolInner) (hashes : list TxHash) : list ValidPoolTransaction * PoolInner :=
  let '(removed, p) := remove_invalid (inner_pool s) hashes in
  let s := with_pool s p in
  (removed, with_events s (foldl (fun m tx => ev_discarded send m (v_hash tx)) (event_listener s) removed)).

Definition retain_unknown (s : PoolInner) (hashes : list TxHash) : list TxHash :=
  filter (fun h => contains (inner_pool s) h = false) hashes.

Definition on_propagated (s : PoolInner) (txs : list (TxHash * list PropagateKind)) : PoolInner :=
  with_events s (foldl (fun m '(h, peers) => ev_propagated send m h peers) (event_listener s) txs).

(** [Pool::add_transaction]: validate, then add. *)
Definition pool_add_transaction (basic_account : Address -> option (option Account)) (v : EthTransactionValidator)
    (now : Z) (o : TransactionOrigin) (transaction : PoolTransaction) : st PoolInner PoolError TxHash := fun s =>
  match validate_transaction basic_account v o transaction with
  | Valid balance state_nonce tx =>
      match inner_add_transactions o [(now, Valid balance state_nonce tx)] s with
      | (Ok rs, s) =>
          match last rs with
          | Some (inl h) => (Ok h, s)
          | Some (inr e) => (Err e, s)
          | None => (Panic, s)
          end
      | (Err e, s) => (Err e, s)
      | (Panic, s) => (Panic, s)
      | (Diverge, s) => (Diverge, s)
      end
  | Invalid tx e => (Err (InvalidTransaction (tx_hash tx) e), s)
  | ValidationError tx => (Err (Other (tx_hash tx)), s)
  end.
End PoolInner.
