(* ===== verification/PoolInnerProofs.v ===== *)
(** * Transaction pool: validation and insertion through the pool's front

    What the validator accepts, what it promises to the pool (an interface that
    the front's theorems use), the sender identifiers, and the insertion of a
    validated transaction. *)
From S2P Require Import Prelude BTree PoolTypes SubPools AllTxs AllTxsProofs InsertProofs TxPool TxPoolProofs PoolReach PoolInner.

(** ** The validator *)

(** What [TransactionValidator] promises of a transaction it accepts. *)
Class ValidatorOk (validate : TransactionOrigin -> PoolTransaction -> TransactionValidationOutcome) : Prop := {
  validator_same o tx b n tx' : validate o tx = Valid b n tx' -> tx' = tx;
  validator_nonce o tx b n tx' : validate o tx = Valid b n tx' -> n <= tx_nonce tx;
  validator_cost o tx b n tx' : validate o tx = Valid b n tx' -> tx_cost tx <= b
}.

Definition type_accepted (v : EthTransactionValidator) (ty : Z) : Prop :=
  ty = LEGACY_TX_TYPE_ID \/ (ty = EIP2930_TX_TYPE_ID /\ eip2718 v = true) \/
  (ty = EIP1559_TX_TYPE_ID /\ eip1559 v = true).

Lemma check_tx_type_None v tx : check_tx_type v tx = None <-> type_accepted v (tx_type tx).
Proof.
  unfold check_tx_type, type_accepted, LEGACY_TX_TYPE_ID, EIP2930_TX_TYPE_ID, EIP1559_TX_TYPE_ID.
  zcase; try (split; intros; [tauto|done]).
  - destruct (eip2718 v); split; [intros; right; left; done|done|done|]. intros [?|[[_ ?]|[? _]]]; (lia || done).
  - destruct (eip1559 v); split; [intros; right; right; done|done|done|]. intros [?|[[? _]|[_ ?]]]; (lia || done).
  - split; [done|]. intros [?|[[? _]|[? _]]]; lia.
Qed.

Lemma check_static_None v o tx :
  check_static v o tx = None <->
  type_accepted v (tx_type tx) /\ tx_size tx <= TX_MAX_SIZE /\
  (shanghai v = true -> is_create tx = true -> tx_size tx <= MAX_INIT_CODE_SIZE) /\
  gas_limit tx <= current_max_gas_limit v /\
  opt_leb (max_fee_per_gas tx) (max_priority_fee_per_gas tx) = false /\
  (is_local o = true \/ opt_leb (gas_price v) (max_fee_per_gas tx) = true) /\
  tx_chain_id tx = Some (val_chain_id v).
Proof.
  unfold check_static. rewrite <- check_tx_type_None. destruct (check_tx_type v tx) as [e|]; [naive_solver|].
  destruct (Z.ltb_spec TX_MAX_SIZE (tx_size tx)) as [Hs|Hs]; [split; [done|intros (_ & ? & _); lia]|].
  assert (Hinit : (if shanghai v then ensure_max_init_code_size tx MAX_INIT_CODE_SIZE else Ok tt) = Ok tt <->
    (shanghai v = true -> is_create tx = true -> tx_size tx <= MAX_INIT_CODE_SIZE)).
  { unfold ensure_max_init_code_size. destruct (shanghai v), (is_create tx); cbn [andb]; try naive_solver.
    destruct (Z.ltb_spec MAX_INIT_CODE_SIZE (tx_size tx)); [|naive_solver]. split; [done|]. intros Hi.
    specialize (Hi eq_refl eq_refl). lia. }
  destruct (if shanghai v then _ else _) as [[]|e| |] eqn:E.
  2: { split; [done|]. intros (_ & _ & Hi & _). by apply Hinit in Hi. }
  2-3: exfalso; revert E; unfold ensure_max_init_code_size; destruct (shanghai v);
    [destruct (is_create tx && _)|]; done.
  pose proof (proj1 Hinit eq_refl) as Hi. clear Hinit E.
  destruct (Z.ltb_spec (current_max_gas_limit v) (gas_limit tx)); [split; [done|intros (_ & _ & _ & ? & _); lia]|].
  destruct (opt_leb (max_fee_per_gas tx) _); [naive_solver|]. unfold opt_ltb.
  destruct (is_local o); cbn [negb andb]; [|destruct (opt_leb (gas_price v) _); cbn [negb]; [|naive_solver]];
    case_bool_decide; naive_solver.
Qed.

(** What the validator accepts: exactly the transactions of an enabled type
    within the size and gas limits, whose fee cap lies strictly above the tip
    and (unless local) not below the minimal price, with the right chain id,
    from an existing account without code, whose nonce is not used up and
    whose cost the account can pay; it reports the account's balance and nonce. *)
Theorem validate_transaction_accepts basic_account v o tx b n tx' :
  validate_transaction basic_account v o tx = Valid b n tx' <->
  tx' = tx /\ type_accepted v (tx_type tx) /\ tx_size tx <= TX_MAX_SIZE /\
  (shanghai v = true -> is_create tx = true -> tx_size tx <= MAX_INIT_CODE_SIZE) /\
  gas_limit tx <= current_max_gas_limit v /\
  opt_leb (max_fee_per_gas tx) (max_priority_fee_per_gas tx) = false /\
  (is_local o = true \/ opt_leb (gas_price v) (max_fee_per_gas tx) = true) /\
  tx_chain_id tx = Some (val_chain_id v) /\
  basic_account (tx_sender tx) = Some (Some (mkAccount n b None)) /\
  n <= tx_nonce tx /\ tx_cost tx <= b.
Proof.
  unfold validate_transaction. pose proof (check_static_None v o tx) as Hs.
  destruct (check_static v o tx) as [e|].
  { split; [done|]. intros (-> & H1 & H2 & H3 & H4 & H5 & H6 & H7 & _). by assert (Some e = None) by (apply Hs; by split_and!). }
  destruct (proj1 Hs eq_refl) as (H1 & H2 & H3 & H4 & H5 & H6 & H7). clear Hs.
  destruct (basic_account (tx_sender tx)) as [[a|]|]; [|naive_solver..]. cbn [check_account].
  destruct a as [an ab ah]. unfold has_bytecode. cbn. case_bool_decide as Hb.
  { split; [done|]. intros (_ & _ & _ & _ & _ & _ & _ & _ & [= -> -> ->] & _). by destruct Hb. }
  destruct ah; [destruct Hb; by eexists|].
  destruct (Z.ltb_spec (tx_nonce tx) an); [split; [done|intros (_ & _ & _ & _ & _ & _ & _ & _ & [= -> ->] & ? & _); lia]|].
  destruct (Z.ltb_spec ab (tx_cost tx)); [split; [done|intros (_ & _ & _ & _ & _ & _ & _ & _ & [= -> ->] & _ & ?); lia]|].
  split; [intros [= <- <- <-]; by split_and!|]. by intros (-> & _ & _ & _ & _ & _ & _ & _ & [= -> ->] & _).
Qed.

#[global] Instance eth_validator_ok basic_account v : ValidatorOk (validate_transaction basic_account v).
Proof.
  assert (H : forall o tx b n tx', validate_transaction basic_account v o tx = Valid b n tx' ->
    tx' = tx /\ n <= tx_nonce tx /\ tx_cost tx <= b).
  { intros o tx b n tx'. unfold validate_transaction, check_account.
    destruct (check_static v o tx); [done|]. destruct (basic_account (tx_sender tx)) as [[a|]|]; [|done..].
    destruct (has_bytecode a); [done|]. destruct (Z.ltb_spec (tx_nonce tx) (acc_nonce a)); [done|].
    destruct (Z.ltb_spec (acc_balance a) (tx_cost tx)); [done|]. by intros [= <- <- <-]. }
  split; intros o tx b n tx' E; apply (H _ _ _ _ _ E).
Qed.

(** Transactions without a fee cap are never accepted: for a legacy or
    access-list transaction both fees are absent, and the check that the fee
    cap exceeds the tip, made with the order of [Option], fails.  A dynamic-fee
    transaction whose tip equals its fee cap is refused too. *)
Theorem validate_rejects_no_fee_cap basic_account v o tx b n tx' :
  max_fee_per_gas tx = None \/ max_fee_per_gas tx = max_priority_fee_per_gas tx ->
  validate_transaction basic_account v o tx <> Valid b n tx'.
Proof.
  intros Hfee. unfold validate_transaction.
  assert (Hle : opt_leb (max_fee_per_gas tx) (max_priority_fee_per_gas tx) = true).
  { destruct Hfee as [-> | ->]; [done|]. destruct (max_priority_fee_per_gas tx); [|done]. cbn. apply Z.leb_refl. }
  destruct (check_static v o tx) as [e|] eqn:E; [done|]. apply check_static_None in E as (_ & _ & _ & _ & E & _). congruence.
Qed.

Definition sample_validator : EthTransactionValidator := mkEthTransactionValidator 1 true true true 30000000 (Some 10).

Lemma validate_rejects_no_fee_cap_witness :
  validate_transaction (fun _ => Some (Some (mkAccount 0 1000 None))) sample_validator Local
    (mkPoolTransaction 1 2 0 30 50 21000 None None false 100 0 110 (Some 1)) <> Valid 1000 0
    (mkPoolTransaction 1 2 0 30 50 21000 None None false 100 0 110 (Some 1)).
Proof. apply validate_rejects_no_fee_cap. by left. Defined.

(** ** The sender identifiers *)

Record ids_inv (s : SenderIdentifiers) : Prop := {
  ids_fwd addr i : address_to_id s !! addr = Some i -> sender_to_address s !! i = Some addr /\ 0 <= i < si_id s;
  ids_bwd addr i : sender_to_address s !! i = Some addr -> address_to_id s !! addr = Some i;
  ids_next : 0 <= si_id s
}.

Lemma ids_inv_default : ids_inv SenderIdentifiers_default.
Proof. split; [intros addr i|intros addr i|]; cbn; [by rewrite lookup_empty..|lia]. Qed.

Lemma sender_id_facts ids addr :
  ids_inv ids -> si_id ids < u64_max ->
  ids_inv (sender_id_or_create ids addr).2 /\
  address_to_id (sender_id_or_create ids addr).2 !! addr = Some (sender_id_or_create ids addr).1 /\
  (forall a j, address_to_id ids !! a = Some j -> address_to_id (sender_id_or_create ids addr).2 !! a = Some j) /\
  (forall a, a <> addr -> address_to_id (sender_id_or_create ids addr).2 !! a = address_to_id ids !! a).
Proof.
  intros Hs Hr. pose proof Hs as [Hf Hb Hn]. unfold sender_id_or_create, SenderIdentifiers_sender_id.
  destruct (address_to_id ids !! addr) as [i|] eqn:E; [by split_and!|]. cbn.
  assert (Hfresh : sender_to_address ids !! si_id ids = None).
  { destruct (sender_to_address ids !! si_id ids) as [a|] eqn:Ea; [|done]. apply Hb, Hf in Ea as [_ ?]. lia. }
  assert (Hw : wadd 64 (si_id ids) 1 = si_id ids + 1) by (apply wadd_small; unfold in_u, u64_max in *; lia).
  split_and!; [|apply lookup_insert_eq| |].
  - split; cbn; rewrite ?Hw; [| |lia].
    + intros a j. intros [[<- <-]|[Hne Ha]]%lookup_insert_Some; [by rewrite lookup_insert_eq; split; [|lia]|].
      apply Hf in Ha as [Ha ?]. rewrite lookup_insert_ne by lia. split; [done|lia].
    + intros a j. intros [[<- <-]|[Hne Ha]]%lookup_insert_Some; [by rewrite lookup_insert_eq|].
      rewrite lookup_insert_ne; [by apply Hb|]. intros ->. apply Hb in Ha. congruence.
  - intros a j Ha. rewrite lookup_insert_ne; [done|congruence].
  - intros a Ha. by rewrite lookup_insert_ne.
Qed.

(** Sender identifiers: [sender_id_or_create] keeps the two maps inverse to
    each other, so that no two addresses share an id, returns the id under
    which the address is found from then on, and never changes the id of
    another address. *)
Theorem sender_id_or_create_spec s addr :
  ids_inv s -> si_id s < u64_max ->
  let '(i, s') := sender_id_or_create s addr in
  ids_inv s' /\ SenderIdentifiers_sender_id s' addr = Some i /\ SenderIdentifiers_address s' i = Some addr /\
  (forall a j, SenderIdentifiers_sender_id s a = Some j -> SenderIdentifiers_sender_id s' a = Some j).
Proof.
  intros Hs Hr. destruct (sender_id_facts s addr Hs Hr) as (H1 & H2 & H3 & _).
  destruct (sender_id_or_create s addr) as [i s']. cbn [fst snd] in *. split_and!; [done|done| |done].
  by apply (ids_fwd _ H1) in H2 as [? _].
Qed.

Lemma sender_id_or_create_spec_witness :
  ids_inv (sender_id_or_create SenderIdentifiers_default 99).2.
Proof. apply (sender_id_or_create_spec SenderIdentifiers_default 99 ids_inv_default). done. Defined.

(** ** Insertion through the front *)

Section Front.
Context {P : Type} `{Countable P} (ordering : TransactionOrdering P).
Context `{!RelDecision (priority_le ordering)} `{!TotalOrder (priority_le ordering)}.
Context {SE SP ST : Type} (send : SE -> TransactionEvent -> bool * SE).
Context (try_send_pending : SP -> TxHash -> try_send_result * SP).
Context (try_send_new : ST -> NewTransactionEvent -> try_send_result * ST).
Context (validate : TransactionOrigin -> PoolTransaction -> TransactionValidationOutcome) `{!ValidatorOk validate}.
Implicit Types s : PoolInner (P := P) (SE := SE) (SP := SP) (ST := ST).

Abbreviation pooled s := (abs (txs (all_transactions (inner_pool s)))).

(** The pool is consistent and files every transaction under the identifier of
    its sender's address and its nonce. *)
Record inner_inv s : Prop := {
  ii_pool : pool_inv ordering (inner_pool s);
  ii_ids : ids_inv (identifiers s);
  ii_filed id tx : pooled s !! id = Some tx ->
    address_to_id (identifiers s) !! v_sender tx = Some (id_sender id) /\ id_nonce id = v_nonce tx
}.

(** Transactions with the same hash have the same sender and nonce. *)
Definition hash_determines s (tx : PoolTransaction) : Prop :=
  forall id tx', pooled s !! id = Some tx' -> v_hash tx' = tx_hash tx ->
    v_sender tx' = tx_sender tx /\ v_nonce tx' = tx_nonce tx.

(** The transaction the front hands to the pool. *)
Definition front_tx (now : Z) (o : TransactionOrigin) (sender : SenderId) (tx : PoolTransaction) : ValidPoolTransaction :=
  mkValidPoolTransaction tx (mkTransactionId sender (tx_nonce tx)) false (tx_cost tx) now o (tx_encoded_length tx).

Lemma front_fresh s now o tx :
  inner_inv s -> si_id (identifiers s) < u64_max -> hash_determines s tx ->
  hash_fresh (pooled s) (front_tx now o (sender_id_or_create (identifiers s) (tx_sender tx)).1 tx).
Proof.
  intros Hi Hr Hd id tx' Ht Hh. destruct (Hd id tx' Ht Hh) as [Es En].
  destruct (ii_filed _ Hi _ _ Ht) as [Ha Hn].
  destruct (sender_id_facts _ (tx_sender tx) (ii_ids _ Hi) Hr) as (_ & Hf & Hm & _).
  apply Hm in Ha. rewrite Es, Hf in Ha. injection Ha as Ha. destruct id as [i n]. cbn in *. f_equal; congruence.
Qed.

Lemma inner_add_Ok_inv s now o tx b n h s' :
  inner_add_transaction ordering send try_send_pending try_send_new now o (Valid b n tx) s = (Ok h, s') ->
  let i := (sender_id_or_create (identifiers s) (tx_sender tx)).1 in
  exists r, add_transaction ordering (front_tx now o i tx) b n (inner_pool s) = (Ok r, inner_pool s') /\
    h = added_hash r /\ identifiers s' = (sender_id_or_create (identifiers s) (tx_sender tx)).2.
Proof.
  unfold inner_add_transaction, get_sender_id. destruct (sender_id_or_create _ _) as [i ids]. cbv zeta.
  unfold mbind at 1, st_bind, on_pool. cbn [inner_pool with_identifiers fst].
  change (mkValidPoolTransaction tx _ _ _ _ _ _) with (front_tx now o i tx).
  destruct (add_transaction ordering (front_tx now o i tx) b n (inner_pool s)) as [[r| | |] p]; try done.
  intros [= <- <-]. exists r. split_and!; [|done|].
  - destruct (as_pending r); done.
  - destruct (as_pending r); done.
Qed.

Lemma added_transaction_hash tx bal n t r t' :
  add_transaction ordering tx bal n t = (Ok r, t') -> added_hash r = v_hash tx.
Proof.
  intros (i & a & t1 & t2 & u & Hi & _ & _ & _ & ->)%add_transaction_Ok_inv.
  rewrite (insert_tx_transaction _ _ _ _ _ _ Hi). by destruct (SubPool_is_pending _).
Qed.

(** Insertion of a validated transaction.  Against any validator that keeps
    its promises: inserting an accepted transaction through the front cannot hit
    the pool's assertion against outdated nonces, and when it succeeds, the
    returned hash is the transaction's, the pool contains it under that hash
    with the sender's identifier, and the front's invariant holds again. *)
Theorem front_add_transaction s now o tx b n h s' :
  inner_inv s -> si_id (identifiers s) < u64_max -> 0 <= tx_nonce tx < u64_max -> hash_determines s tx ->
  op_ok (OpAdd (front_tx now o (sender_id_or_create (identifiers s) (tx_sender tx)).1 tx) b n) (inner_pool s) ->
  validate o tx = Valid b n tx ->
  let i := (sender_id_or_create (identifiers s) (tx_sender tx)).1 in
  (insert_tx (all_transactions (inner_pool s)) (front_tx now o i tx) b n).1 <> Panic /\
  (inner_add_transaction ordering send try_send_pending try_send_new now o (Valid b n tx) s = (Ok h, s') ->
   h = tx_hash tx /\ pool_get (inner_pool s') h = Some (front_tx now o i tx) /\
   SenderIdentifiers_sender_id (identifiers s') (tx_sender tx) = Some i /\ inner_inv s').
Proof.
  intros Hi Hr Hn Hd Hok Hval i. pose proof (validator_nonce _ _ _ _ _ Hval) as Hle.
  assert (Htx : valid_tx (front_tx now o i tx)) by (by split).
  pose proof (front_fresh s now o tx Hi Hr Hd) as Hf.
  split.
  - pose proof (insert_tx_cases (all_transactions (inner_pool s)) (front_tx now o i tx) b n Htx Hle) as Hc. cbv zeta in Hc.
    destruct (x ← ensure_valid _ _; _) as [x|e| |]; [destruct Hc as (r & a' & ->); done|by rewrite Hc|done..].
  - intros Hadd. destruct (inner_add_Ok_inv _ _ _ _ _ _ _ _ Hadd) as (r & Hpool & -> & Eids). cbv zeta in *. fold i in Hpool, Eids.
    destruct (added_in_subpool ordering _ _ _ _ _ _ (pool_inv_ids _ _ (ii_pool _ Hi)) Hpool) as (k & Hk & _).
    destruct (insert_tx_inv_ok _ _ _ _ _ _ (pi_all _ _ (ii_pool _ Hi)) (pi_room _ _ (ii_pool _ Hi)) Htx Hf Hk) as (Ha & Eabs & _).
    destruct (sender_id_facts _ (tx_sender tx) (ii_ids _ Hi) Hr) as (G1 & G2 & G3 & _). fold i in G2. rewrite <- Eids in G1, G2, G3.
    rewrite (added_transaction_hash _ _ _ _ _ _ Hpool). split_and!; [done| |done|].
    + apply by_hash_abs; [done|]. rewrite Eabs. apply lookup_insert_eq.
    + split; [|done|].
      * pose proof (add_transaction_inv ordering _ b n _ (ii_pool _ Hi) Hok) as Hp. cbn [pool_step] in Hp. fold i in Hp. by rewrite Hpool in Hp.
      * intros id tx'. rewrite Eabs. intros [[<- <-]|[_ Ht]]%lookup_insert_Some; [by split|].
        destruct (ii_filed _ Hi _ _ Ht) as [H1 H2]. split; [by apply G3|done].
Qed.
End Front.

(** ** Example *)

Definition unit_send {A R} (r : R) : unit -> A -> R * unit := fun _ _ => (r, tt).

Definition sample_inner : PoolInner (P := Z) (SE := unit) (SP := unit) (ST := unit) := PoolInner_new tiny_config.

Definition sample_account (addr : Address) : option (option Account) := Some (Some (mkAccount 0 1000 None)).

Definition sample_pool_tx : PoolTransaction :=
  mkPoolTransaction 100 55 0 30 50 21000 (Some 50) (Some 2) false 100 2 110 (Some 1).

Lemma sample_inner_inv : inner_inv CostOrdering sample_inner.
Proof.
  split; [apply pool_inv_new|apply ids_inv_default|].
  intros id tx. cbn. unfold abs. by rewrite fmap_empty, lookup_empty.
Qed.

Lemma front_add_transaction_witness :
  exists s', inner_add_transaction CostOrdering (unit_send true) (unit_send SendOk) (unit_send SendOk) 5 External
    (Valid 1000 0 sample_pool_tx) sample_inner = (Ok 100, s') /\
  pool_get (inner_pool s') 100 = Some (front_tx 5 External 0 sample_pool_tx).
Proof.
  eexists. split; [vm_compute; reflexivity|].
  refine (proj1 (proj2 (proj2 (front_add_transaction CostOrdering (unit_send true) (unit_send SendOk) (unit_send SendOk)
    (validate_transaction sample_account sample_validator) sample_inner 5 External sample_pool_tx 1000 0 100 _
    sample_inner_inv _ _ _ _ _) _))).
  - done.
  - done.
  - intros id tx. cbn. unfold abs. by rewrite fmap_empty, lookup_empty.
  - split_and!; [by split|by cbn| |done|split; [by intros []|done]].
    intros id tx. cbn. unfold abs. by rewrite fmap_empty, lookup_empty.
  - vm_compute. reflexivity.
  - vm_compute. reflexivity.
Defined.
