(* ===== verification/Primitives.v ===== *)
(** * Headers, transactions and blocks

    The data types of crates/primitives/src (header.rs, block.rs, withdrawal.rs,
    transaction/mod.rs) and the getters the other components call.  Hashes,
    addresses and blooms are their integer values. *)
From S2P Require Import Prelude Bytes.

Record Header := mkHeader {
  parent_hash : Z;
  ommers_hash : Z;
  beneficiary : Z;
  state_root : Z;
  transactions_root : Z;
  receipts_root : Z;
  withdrawals_root : option Z;
  logs_bloom : Z;
  difficulty : Z;
  number : Z;
  h_gas_limit : Z;
  gas_used : Z;
  timestamp : Z;
  mix_hash : Z;
  h_nonce : Z;
  base_fee_per_gas : option Z;
  extra_data : bytes
}.

Record SealedHeader := mkSealedHeader { sh_header : Header; sh_hash : Z }.

Record Withdrawal := mkWithdrawal { w_index : Z; validator_index : Z; w_address : Z; amount : Z }.

(** [amount_wei], on [U256]. *)
Definition amount_wei (w : Withdrawal) : Z := wrap 256 (amount w * 1000000000).

Inductive TransactionKind := Create | Call (to : Z).

Record AccessListItem := mkAccessListItem { ali_address : Z; storage_keys : list Z }.

Record TxLegacy := mkTxLegacy {
  lg_chain_id : option Z; lg_nonce : Z; lg_gas_price : Z; lg_gas_limit : Z;
  lg_to : TransactionKind; lg_value : Z; lg_input : bytes
}.

Record TxEip2930 := mkTxEip2930 {
  al_chain_id : Z; al_nonce : Z; al_gas_price : Z; al_gas_limit : Z;
  al_to : TransactionKind; al_value : Z; al_access_list : list AccessListItem; al_input : bytes
}.

Record TxEip1559 := mkTxEip1559 {
  df_chain_id : Z; df_nonce : Z; df_gas_limit : Z; df_max_fee_per_gas : Z; df_max_priority_fee_per_gas : Z;
  df_to : TransactionKind; df_value : Z; df_access_list : list AccessListItem; df_input : bytes
}.

Inductive Transaction :=
| TLegacy (tx : TxLegacy)
| TEip2930 (tx : TxEip2930)
| TEip1559 (tx : TxEip1559).

Definition t_nonce (t : Transaction) : Z :=
  match t with TLegacy x => lg_nonce x | TEip2930 x => al_nonce x | TEip1559 x => df_nonce x end.

Definition t_chain_id (t : Transaction) : option Z :=
  match t with
  | TLegacy x => lg_chain_id x
  | TEip2930 x => Some (al_chain_id x)
  | TEip1559 x => Some (df_chain_id x)
  end.

Definition t_gas_limit (t : Transaction) : Z :=
  match t with TLegacy x => lg_gas_limit x | TEip2930 x => al_gas_limit x | TEip1559 x => df_gas_limit x end.

Definition t_max_fee_per_gas (t : Transaction) : Z :=
  match t with
  | TLegacy x => lg_gas_price x
  | TEip2930 x => al_gas_price x
  | TEip1559 x => df_max_fee_per_gas x
  end.

Definition t_max_priority_fee_per_gas (t : Transaction) : option Z :=
  match t with TEip1559 x => Some (df_max_priority_fee_per_gas x) | _ => None end.

Definition t_kind (t : Transaction) : TransactionKind :=
  match t with TLegacy x => lg_to x | TEip2930 x => al_to x | TEip1559 x => df_to x end.

(** [set_chain_id], [set_nonce]. *)
Definition set_chain_id (c : Z) (t : Transaction) : Transaction :=
  match t with
  | TLegacy (mkTxLegacy _ n p g to v i) => TLegacy (mkTxLegacy (Some c) n p g to v i)
  | TEip2930 (mkTxEip2930 _ n p g to v a i) => TEip2930 (mkTxEip2930 c n p g to v a i)
  | TEip1559 (mkTxEip1559 _ n g f p to v a i) => TEip1559 (mkTxEip1559 c n g f p to v a i)
  end.

Record Signature := mkSignature { sig_r : Z; sig_s : Z; odd_y_parity : bool }.

Record TransactionSigned := mkTransactionSigned {
  ts_hash : Z; signature : Signature; ts_transaction : Transaction
}.

Record TransactionSignedEcRecovered := mkEcRecovered { signer : Z; ec_signed : TransactionSigned }.

Record SealedBlock := mkSealedBlock {
  sb_header : SealedHeader;
  body : list TransactionSigned;
  ommers : list SealedHeader;
  withdrawals : option (list Withdrawal)
}.
