(* ===== verification/ChainSpec.v ===== *)
(** * Chain specifications and fork identifiers

    crates/primitives/src: hardfork.rs, chain/spec.rs ([ForkCondition],
    [ChainSpec]) and forkid.rs (EIP-2124).  The checksum of the crc crate and
    the hash of a genesis header are parameters. *)
From S2P Require Import Prelude BTree.

(** ** hardfork.rs *)

Inductive Hardfork :=
| Frontier | Homestead | Dao | Tangerine | SpuriousDragon | Byzantium | Constantinople | Petersburg
| Istanbul | MuirGlacier | Berlin | London | ArrowGlacier | GrayGlacier | Paris | Shanghai.

#[global] Instance Hardfork_eq_dec : EqDecision Hardfork.
Proof. solve_decision. Defined.

Definition hardforks_list : list Hardfork :=
  [Frontier; Homestead; Dao; Tangerine; SpuriousDragon; Byzantium; Constantinople; Petersburg;
   Istanbul; MuirGlacier; Berlin; London; ArrowGlacier; GrayGlacier; Paris; Shanghai].

(** The declaration order, which [derive(Ord)] uses. *)
Definition hf_index (f : Hardfork) : Z :=
  match f with
  | Frontier => 0 | Homestead => 1 | Dao => 2 | Tangerine => 3 | SpuriousDragon => 4 | Byzantium => 5
  | Constantinople => 6 | Petersburg => 7 | Istanbul => 8 | MuirGlacier => 9 | Berlin => 10 | London => 11
  | ArrowGlacier => 12 | GrayGlacier => 13 | Paris => 14 | Shanghai => 15
  end.

#[global] Instance Hardfork_countable : Countable Hardfork.
Proof.
  apply (inj_countable' hf_index (fun z => default Frontier (hardforks_list !! Z.to_nat z))). by intros [].
Defined.

Definition hf_le : relation Hardfork := pre_le hf_index Z.le.
#[global] Instance hf_le_dec : RelDecision hf_le.
Proof. unfold hf_le. apply _. Defined.
#[global] Instance hf_le_total : TotalOrder hf_le.
Proof. apply (pre_le_total hf_index Z.le). by intros [] []. Qed.

(** ** header.rs: [Head] *)

Record Head := mkHead {
  hd_number : Z; hd_hash : Z; hd_difficulty : Z; hd_total_difficulty : Z; hd_timestamp : Z
}.

(** ** chain/spec.rs *)

Inductive ForkCondition :=
| FcBlock (block : Z)
| FcTTD (fork_block : option Z) (total_difficulty : Z)
| FcTimestamp (time : Z)
| FcNever.

Definition active_at_block (c : ForkCondition) (current_block : Z) : bool :=
  match c with
  | FcBlock block => block <=? current_block
  | FcTTD (Some block) _ => block <=? current_block
  | _ => false
  end.

Definition transitions_at_block (c : ForkCondition) (current_block : Z) : bool :=
  match c with FcBlock block => current_block =? block | _ => false end.

Definition active_at_ttd (c : ForkCondition) (ttd difficulty : Z) : bool :=
  match c with
  | FcTTD _ total_difficulty => total_difficulty <=? saturating_sub ttd difficulty
  | _ => false
  end.

Definition active_at_timestamp (c : ForkCondition) (timestamp : Z) : bool :=
  match c with FcTimestamp time => time <=? timestamp | _ => false end.

Definition active_at_head (c : ForkCondition) (head : Head) : bool :=
  active_at_block c (hd_number head) || active_at_timestamp c (hd_timestamp head)
  || active_at_ttd c (hd_total_difficulty head) (hd_difficulty head).

Definition fc_ttd (c : ForkCondition) : option Z :=
  match c with FcTTD _ total_difficulty => Some total_difficulty | _ => None end.

(** [satisfy]; [None] is the [unreachable!] of [Never], which its callers
    have excluded. *)
Definition satisfy (c : ForkCondition) : option Head :=
  match c with
  | FcBlock number => Some (mkHead number 0 0 0 0)
  | FcTimestamp timestamp => Some (mkHead 0 0 0 0 timestamp)
  | FcTTD _ total_difficulty => Some (mkHead 0 0 0 total_difficulty 0)
  | FcNever => None
  end.

Record ChainSpec := mkChainSpec {
  cs_chain_id : Z;
  cs_genesis_hash : option Z;
  cs_hardforks : gmap Hardfork ForkCondition
}.

Definition fork (s : ChainSpec) (f : Hardfork) : ForkCondition := default FcNever (cs_hardforks s !! f).

Definition forks_iter (s : ChainSpec) : list (Hardfork * ForkCondition) := entries hf_le (cs_hardforks s).

(** The block or timestamp a condition contributes to fork identifiers. *)
Definition fork_value (c : ForkCondition) : option Z :=
  match c with
  | FcBlock block => Some block
  | FcTimestamp time => Some time
  | FcTTD (Some block) _ => Some block
  | _ => None
  end.

Definition MAINNET_hardforks : gmap Hardfork ForkCondition := list_to_map
  [(Frontier, FcBlock 0); (Homestead, FcBlock 1150000); (Dao, FcBlock 1920000);
   (Tangerine, FcBlock 2463000); (SpuriousDragon, FcBlock 2675000); (Byzantium, FcBlock 4370000);
   (Constantinople, FcBlock 7280000); (Petersburg, FcBlock 7280000); (Istanbul, FcBlock 9069000);
   (MuirGlacier, FcBlock 9200000); (Berlin, FcBlock 12244000); (London, FcBlock 12965000);
   (ArrowGlacier, FcBlock 13773000); (GrayGlacier, FcBlock 15050000);
   (Paris, FcTTD None 58750000000000000000000)].

Definition GOERLI_hardforks : gmap Hardfork ForkCondition := list_to_map
  [(Frontier, FcBlock 0); (Istanbul, FcBlock 1561651); (Berlin, FcBlock 4460644);
   (London, FcBlock 5062605); (Paris, FcTTD None 10790000)].

Definition SEPOLIA_hardforks : gmap Hardfork ForkCondition := list_to_map
  [(Frontier, FcBlock 0); (Homestead, FcBlock 0); (Dao, FcBlock 0); (Tangerine, FcBlock 0);
   (SpuriousDragon, FcBlock 0); (Byzantium, FcBlock 0); (Constantinople, FcBlock 0);
   (Petersburg, FcBlock 0); (Istanbul, FcBlock 0); (MuirGlacier, FcBlock 0); (Berlin, FcBlock 0);
   (London, FcBlock 0); (Paris, FcTTD (Some 1735371) 17000000000000000);
   (Shanghai, FcTimestamp 1677557088)].

(** ** forkid.rs *)

Abbreviation ForkHash := Z.

Inductive ForkFilterKey := FkBlock (block : Z) | FkTime (time : Z).

#[global] Instance ForkFilterKey_eq_dec : EqDecision ForkFilterKey.
Proof. solve_decision. Defined.

(** [Ord for ForkFilterKey]: blocks before timestamps. *)
Definition key_rank (k : ForkFilterKey) : Z * Z :=
  match k with FkBlock b => (0, b) | FkTime t => (1, t) end.

#[global] Instance ForkFilterKey_countable : Countable ForkFilterKey.
Proof.
  apply (inj_countable' key_rank (fun '(c, v) => if c =? 0 then FkBlock v else FkTime v)). by intros [].
Defined.

Definition key_le : relation ForkFilterKey := pre_le key_rank (lex_le Z.le Z.le).
#[global] Instance key_le_dec : RelDecision key_le.
Proof. unfold key_le. apply _. Defined.
#[global] Instance key_le_total : TotalOrder key_le.
Proof.
  apply (pre_le_total key_rank (lex_le Z.le Z.le)). intros [] [] E; cbn in E; congruence.
Qed.

Definition key_value (k : ForkFilterKey) : Z := match k with FkBlock b => b | FkTime t => t end.

Record ForkId := mkForkId { fi_hash : ForkHash; fi_next : Z }.

Inductive ValidationError :=
| RemoteStale (local remote : ForkId)
| LocalIncompatibleOrStale (local remote : ForkId).

Record Cache := mkCache {
  epoch_start : ForkFilterKey;
  epoch_end : option ForkFilterKey;
  past : list (ForkFilterKey * ForkHash);
  future : list ForkHash;
  cache_fork_id : ForkId
}.

Record ForkFilter := mkForkFilter {
  ff_forks : gmap ForkFilterKey ForkHash;
  ff_head : Head;
  ff_cache : Cache
}.

Record ForkTransition := mkForkTransition { ft_current : ForkId; ft_past : ForkId }.

Definition key_active (head : Head) (k : ForkFilterKey) : bool :=
  match k with FkBlock block => block <=? hd_number head | FkTime time => time <=? hd_timestamp head end.

(** The loop of [compute_cache] over the sorted forks. *)
Fixpoint cache_loop (head : Head) (l : list (ForkFilterKey * ForkHash)) (start : ForkFilterKey)
    (end_ : option ForkFilterKey) (past : list (ForkFilterKey * ForkHash)) (future : list ForkHash)
    : ForkFilterKey * option ForkFilterKey * list (ForkFilterKey * ForkHash) * list ForkHash :=
  match l with
  | [] => (start, end_, past, future)
  | (key, hash) :: l =>
      if key_active head key then cache_loop head l key end_ (past ++ [(key, hash)]) future
      else cache_loop head l start (match end_ with None => Some key | Some _ => end_ end) past (future ++ [hash])
  end.

(** [Cache::compute_cache]; [None] is the failed [expect]. *)
Definition compute_cache (forks : gmap ForkFilterKey ForkHash) (head : Head) : option Cache :=
  let '(start, end_, past, future) := cache_loop head (entries key_le forks) (FkBlock 0) None [] [] in
  match last past with
  | None => None
  | Some (_, hash) =>
      Some (mkCache start end_ past future (mkForkId hash (key_value (default (FkBlock 0) end_))))
  end.

Definition current (f : ForkFilter) : ForkId := cache_fork_id (ff_cache f).

Section ForkFilter.
Context (fork_hash_of : Z -> ForkHash) (fork_hash_add : ForkHash -> Z -> ForkHash).

(** The fold of [ForkFilter::new] over the sorted keys. *)
Fixpoint hash_forks (acc : gmap ForkFilterKey ForkHash) (base : ForkHash) (keys : list ForkFilterKey)
    : gmap ForkFilterKey ForkHash :=
  match keys with
  | [] => acc
  | key :: keys =>
      let fork_hash := fork_hash_add base (key_value key) in
      hash_forks (<[key := fork_hash]> acc) fork_hash keys
  end.

(** The keys as a [BTreeSet] without the genesis ones, in order. *)
Definition sorted_keys (forks : list ForkFilterKey) : list ForkFilterKey :=
  (entries key_le (delete (FkBlock 0) (delete (FkTime 0) (list_to_map ((fun k => (k, tt)) <$> forks))
    : gmap ForkFilterKey unit))).*1.

Definition ForkFilter_new (head : Head) (genesis : Z) (forks : list ForkFilterKey) : option ForkFilter :=
  let genesis_fork_hash := fork_hash_of genesis in
  let forks := hash_forks {[FkBlock 0 := genesis_fork_hash]} genesis_fork_hash (sorted_keys forks) in
  cache ← compute_cache forks head;
  Some (mkForkFilter forks head cache).

(** [ChainSpec::fork_filter] *)
Definition filter_key (c : ForkCondition) : option ForkFilterKey :=
  match c with
  | FcBlock block => Some (FkBlock block)
  | FcTimestamp time => Some (FkTime time)
  | FcTTD (Some block) _ => Some (FkBlock block)
  | _ => None
  end.

Definition fork_filter (genesis_hash : Z) (s : ChainSpec) (head : Head) : option ForkFilter :=
  ForkFilter_new head (default genesis_hash (cs_genesis_hash s))
    (omap (fun fc => filter_key fc.2) (forks_iter s)).

(** [ChainSpec::fork_id] *)
Fixpoint fork_id_loop (head : Head) (hash : ForkHash) (applied : Z) (l : list (Hardfork * ForkCondition)) : ForkId :=
  match l with
  | [] => mkForkId hash 0
  | (_, cond) :: l =>
      match fork_value cond with
      | None => fork_id_loop head hash applied l
      | Some value =>
          if active_at_head cond head then
            if negb (value =? applied) then fork_id_loop head (fork_hash_add hash value) value l
            else fork_id_loop head hash applied l
          else mkForkId hash value
      end
  end.

Definition fork_id (genesis_hash : Z) (s : ChainSpec) (head : Head) : ForkId :=
  fork_id_loop head (fork_hash_of (default genesis_hash (cs_genesis_hash s))) 0 (forks_iter s).

(** [Hardfork::fork_id] and [Hardfork::fork_filter]; the inner [None] is a panic. *)
Definition hardfork_fork_id (genesis_hash : Z) (f : Hardfork) (spec : ChainSpec) : option ForkId :=
  head ← satisfy (fork spec f);
  Some (fork_id genesis_hash spec head).

Definition hardfork_fork_filter (genesis_hash : Z) (f : Hardfork) (spec : ChainSpec) : option (option ForkFilter) :=
  head ← satisfy (fork spec f);
  Some (fork_filter genesis_hash spec head).
End ForkFilter.

Definition needs_recompute (c : Cache) (head : Head) : bool :=
  let head_in_past :=
    match epoch_start c with
    | FkBlock b => hd_number head <? b
    | FkTime t => hd_timestamp head <? t
    end in
  let head_in_future :=
    match epoch_end c with
    | Some (FkBlock b) => b <=? hd_number head
    | Some (FkTime t) => t <=? hd_timestamp head
    | None => false
    end in
  head_in_past || head_in_future.

(** [set_head]; [None] is a panic of [compute_cache]. *)
Definition set_head (f : ForkFilter) (head : Head) : option (option ForkTransition * ForkFilter) :=
  if needs_recompute (ff_cache f) head then
    let past := current f in
    cache ← compute_cache (ff_forks f) head;
    Some (Some (mkForkTransition (cache_fork_id cache) past), mkForkFilter (ff_forks f) head cache)
  else Some (None, mkForkFilter (ff_forks f) head (ff_cache f)).

(** Rule 2 of [validate]: the key after the remote hash in the past forks. *)
Fixpoint find_past (h : ForkHash) (past : list (ForkFilterKey * ForkHash)) : option ForkFilterKey :=
  match past with
  | [] => None
  | (_, hash) :: past =>
      if hash =? h then match past with (key, _) :: _ => Some key | [] => None end else find_past h past
  end.

Definition validate (f : ForkFilter) (remote : ForkId) : outcome ValidationError unit :=
  if fi_hash (current f) =? fi_hash remote then
    if fi_next remote =? 0 then Ok tt
    else
      let head_block_or_time :=
        match epoch_start (ff_cache f) with
        | FkBlock _ => hd_number (ff_head f)
        | FkTime _ => hd_timestamp (ff_head f)
        end in
      if fi_next remote <=? head_block_or_time
      then Err (LocalIncompatibleOrStale (current f) remote) else Ok tt
  else
    match find_past (fi_hash remote) (past (ff_cache f)) with
    | Some actual_key =>
        if key_value actual_key =? fi_next remote then Ok tt else Err (RemoteStale (current f) remote)
    | None =>
        if existsb (fun h => h =? fi_hash remote) (future (ff_cache f)) then Ok tt
        else Err (LocalIncompatibleOrStale (current f) remote)
    end.
