(* ===== verification/ForkIdProofs.v ===== *)
(** * Fork identifiers: cache coherence and EIP-2124 compatibility

    Theorems about [ForkFilter] and [ChainSpec::fork_id] of ChainSpec.v: the
    incremental cache of [set_head] agrees with a filter built afresh, two nodes
    on one fork schedule accept each other, and the two routines that compute a
    fork identifier agree. *)
From S2P Require Import Prelude BTree ChainSpec.

Abbreviation entry := (ForkFilterKey * ForkHash)%type.

(** The active forks form an initial segment of the sorted schedule. *)
Definition head_ordered (forks : gmap ForkFilterKey ForkHash) (head : Head) : Prop :=
  map_Forall (fun k2 _ => key_active head k2 = true ->
    map_Forall (fun k1 _ => key_le k1 k2 -> key_active head k1 = true) forks) forks.
#[global] Instance head_ordered_dec forks head : Decision (head_ordered forks head).
Proof. unfold head_ordered. apply _. Defined.

(** ** The loop of [compute_cache] *)

Definition split_at (head : Head) (a b : list entry) : Prop :=
  Forall (fun e => key_active head e.1 = true) a /\ Forall (fun e => key_active head e.1 = false) b.

Lemma cache_loop_inactive head b st en pa fu :
  Forall (fun e => key_active head e.1 = false) b ->
  cache_loop head b st en pa fu =
  (st, match en with Some _ => en | None => fst <$> List.head b end, pa, fu ++ b.*2).
Proof.
  intros Hb. revert en fu. induction Hb as [|[k h] b Hk _ IH]; intros en fu; cbn in *.
  - rewrite app_nil_r. by destruct en.
  - rewrite Hk, IH, <- app_assoc. by destruct en.
Qed.

Lemma cache_loop_split head a b st pa fu :
  split_at head a b ->
  cache_loop head (a ++ b) st None pa fu =
  (default st (fst <$> last a), fst <$> List.head b, pa ++ a, fu ++ b.*2).
Proof.
  intros [Ha Hb]. revert st pa. induction Ha as [|[k h] a Hk Ha IH]; intros st pa; cbn [app cache_loop].
  - rewrite cache_loop_inactive by done. by rewrite app_nil_r.
  - cbn in Hk. rewrite Hk, IH, <- app_assoc. cbn. rewrite last_cons. by destruct (last a) as [[]|].
Qed.

Lemma compute_cache_split forks head a b k h :
  entries key_le forks = (a ++ [(k, h)]) ++ b -> split_at head (a ++ [(k, h)]) b ->
  compute_cache forks head =
  Some (mkCache k (fst <$> List.head b) (a ++ [(k, h)]) b.*2
          (mkForkId h (key_value (default (FkBlock 0) (fst <$> List.head b))))).
Proof.
  intros E Hs. unfold compute_cache. rewrite E, cache_loop_split by done. cbn [app].
  rewrite last_snoc. done.
Qed.

Lemma sorted_split head (l : list entry) :
  StronglySorted (fun x y => strict key_le x.1 y.1) l ->
  (forall x y, x ∈ l -> y ∈ l -> key_le x.1 y.1 -> key_active head y.1 = true -> key_active head x.1 = true) ->
  exists a b, l = a ++ b /\ split_at head a b.
Proof.
  induction 1 as [|e l Hl IH Hall]; intros Hord; [exists [], []; by repeat constructor|].
  destruct (key_active head e.1) eqn:He.
  - destruct IH as (a & b & -> & Ha & Hb).
    { intros x y Hx Hy. apply Hord; by apply list_elem_of_further. }
    exists (e :: a), b. split; [done|]. split; [by constructor|done].
  - exists [], (e :: l). split; [done|]. split; [constructor|]. constructor; [done|].
    rewrite Forall_forall in Hall |- *. intros y Hy. destruct (key_active head y.1) eqn:Hya; [|done].
    rewrite <- He. symmetry. apply (Hord e y); [apply list_elem_of_here|by apply list_elem_of_further| |done].
    by apply Hall.
Qed.

Lemma ordered_split forks head :
  head_ordered forks head ->
  exists a b, entries key_le forks = a ++ b /\ split_at head a b.
Proof.
  intros Ho. apply sorted_split; [apply (entries_strict key_le)|].
  intros [k1 h1] [k2 h2] H1%(elem_of_entries key_le) H2%(elem_of_entries key_le) Hle Ha. cbn in *.
  exact (Ho k2 h2 H2 Ha k1 h1 H1 Hle).
Qed.

(** A schedule with its genesis entry, at a head its active forks precede. *)
Definition schedule_at (forks : gmap ForkFilterKey ForkHash) (head : Head) : Prop :=
  is_Some (forks !! FkBlock 0) /\ 0 <= hd_number head /\ head_ordered forks head.

Lemma schedule_split forks head :
  schedule_at forks head ->
  exists a k h b, entries key_le forks = (a ++ [(k, h)]) ++ b /\ split_at head (a ++ [(k, h)]) b.
Proof.
  intros ([g Hg] & Hn & Ho). destruct (ordered_split _ _ Ho) as (a & b & E & Ha & Hb).
  destruct a as [|[k h] a _] using rev_ind; [exfalso|by exists a, k, h, b].
  apply (elem_of_entries key_le) in Hg. rewrite E in Hg. cbn in Hg.
  rewrite Forall_forall in Hb. specialize (Hb _ Hg). cbn in Hb. apply Z.leb_gt in Hb. lia.
Qed.

(** Two splits of one schedule. *)
Lemma split_compare {A} (a1 b1 a2 b2 : list A) :
  a1 ++ b1 = a2 ++ b2 ->
  (exists c, a1 = a2 ++ c /\ b2 = c ++ b1) \/ (exists x c, a2 = a1 ++ x :: c /\ b1 = x :: c ++ b2).
Proof.
  intros E. destruct (app_eq_inv _ _ _ _ E) as [(c & -> & ->)|(c & -> & ->)].
  - left. by exists c.
  - destruct c as [|x c]; [left; exists []; by rewrite !app_nil_r|]. right. by exists x, c.
Qed.

Section New.
Context (fork_hash_of : Z -> ForkHash) (fork_hash_add : ForkHash -> Z -> ForkHash).

Lemma hash_forks_lookup keys acc base k :
  is_Some (acc !! k) -> is_Some (hash_forks fork_hash_add acc base keys !! k).
Proof.
  revert acc base. induction keys as [|x keys IH]; intros acc base H; cbn; [done|].
  apply IH. destruct (decide (x = k)) as [->|]; [by rewrite lookup_insert_eq|by rewrite lookup_insert_ne].
Qed.

(** The schedule [ForkFilter::new] builds. *)
Definition schedule (genesis : Z) (keys : list ForkFilterKey) : gmap ForkFilterKey ForkHash :=
  hash_forks fork_hash_add {[FkBlock 0 := fork_hash_of genesis]} (fork_hash_of genesis) (sorted_keys keys).

Lemma schedule_genesis genesis keys : is_Some (schedule genesis keys !! FkBlock 0).
Proof. apply hash_forks_lookup. by rewrite lookup_singleton_eq. Qed.

Lemma ForkFilter_new_Some head genesis keys f :
  ForkFilter_new fork_hash_of fork_hash_add head genesis keys = Some f <->
  ff_forks f = schedule genesis keys /\ ff_head f = head /\
  compute_cache (ff_forks f) head = Some (ff_cache f).
Proof.
  unfold ForkFilter_new, schedule. cbn.
  destruct (compute_cache _ head) as [c|] eqn:Ec; cbn; split.
  - intros [= <-]. by cbn.
  - destruct f as [fs hd cc]. cbn. intros (-> & -> & E). rewrite Ec in E. by injection E as ->.
  - done.
  - destruct f as [fs hd cc]. cbn. intros (-> & -> & E). by rewrite Ec in E.
Qed.
End New.

(** ** [set_head] *)

Lemma last_inactive head (a : list entry) k h b :
  split_at head (a ++ [(k, h)]) b -> key_active head k = true.
Proof. intros [Ha _]. apply Forall_app in Ha as [_ Ha]. by inversion Ha. Qed.

Lemma needs_recompute_spec c head :
  needs_recompute c head =
  negb (key_active head (epoch_start c)) ||
  match epoch_end c with Some k => key_active head k | None => false end.
Proof.
  unfold needs_recompute, key_active.
  destruct (epoch_start c), (epoch_end c) as [[]|]; by rewrite ?(Z.leb_antisym (hd_number head)),
    ?(Z.leb_antisym (hd_timestamp head)), ?negb_involutive.
Qed.

Definition no_collision (forks : gmap ForkFilterKey ForkHash) : Prop := NoDup (entries key_le forks).*2.
#[global] Instance no_collision_dec forks : Decision (no_collision forks).
Proof. unfold no_collision. apply _. Defined.

(** Two splits of a collision-free schedule with the same last hash coincide. *)
Lemma split_same_hash (a1 a2 b1 b2 : list entry) k1 k2 h :
  NoDup ((a1 ++ [(k1, h)]) ++ b1).*2 ->
  (a1 ++ [(k1, h)]) ++ b1 = (a2 ++ [(k2, h)]) ++ b2 -> a1 = a2 /\ k1 = k2 /\ b1 = b2.
Proof.
  intros Hn E. rewrite <- !app_assoc in E, Hn. cbn in E, Hn.
  revert a2 E Hn. induction a1 as [|[k' h'] a1 IH]; intros [|[k'' h''] a2] E Hn; cbn in *; simplify_eq.
  - done.
  - exfalso. apply NoDup_cons in Hn as [Hn _]. apply Hn.
    rewrite !fmap_app, !elem_of_app. cbn. rewrite ?elem_of_cons. tauto.
  - exfalso. apply NoDup_cons in Hn as [Hn _]. apply Hn.
    rewrite !fmap_app, !elem_of_app. cbn. rewrite ?elem_of_cons. tauto.
  - apply NoDup_cons in Hn as [_ Hn]. destruct (IH a2) as (-> & -> & ->); done.
Qed.

Lemma split_at_unique head (a1 b1 a2 b2 : list entry) :
  a1 ++ b1 = a2 ++ b2 -> split_at head a1 b1 -> split_at head a2 b2 -> a1 = a2 /\ b1 = b2.
Proof.
  intros E [Ha1 Hb1] [Ha2 Hb2]. destruct (split_compare _ _ _ _ E) as [(c & -> & ->)|(x & c & -> & ->)].
  - destruct c as [|x c]; [by rewrite app_nil_r|exfalso].
    apply Forall_app in Ha1 as [_ Ha1]. inversion Ha1; inversion Hb2; congruence.
  - exfalso. apply Forall_app in Ha2 as [_ Ha2]. inversion Ha2; inversion Hb1; congruence.
Qed.

Lemma needs_recompute_splits head a1 k1 (h1 : ForkHash) (b1 a2 b2 : list entry) c :
  epoch_start c = k1 -> epoch_end c = fst <$> List.head b1 ->
  (a1 ++ [(k1, h1)]) ++ b1 = a2 ++ b2 -> split_at head a2 b2 ->
  needs_recompute c head = false <-> a1 ++ [(k1, h1)] = a2.
Proof.
  intros Es Ee E Hs. rewrite needs_recompute_spec, Es, Ee, orb_false_iff, negb_false_iff.
  destruct (split_compare _ _ _ _ E) as [(d & Ea & ->)|(x & d & -> & ->)].
  - destruct d as [|y d _] using rev_ind.
    + rewrite app_nil_r in Ea. subst a2. cbn in *. split; [done|]. intros _.
      split; [by eapply last_inactive|]. destruct Hs as [_ Hb]. destruct Hb; done.
    + rewrite app_assoc in Ea. apply app_inj_tail in Ea as [-> <-]. destruct Hs as [_ Hb].
      rewrite !Forall_app in Hb. destruct Hb as [[_ Hb] _]. inversion Hb as [|? ? Hk]; subst. cbn in Hk.
      split; [intros [? _]; congruence|]. intros E'%(f_equal length). rewrite !length_app in E'. cbn in E'. lia.
  - destruct Hs as [Ha _]. apply Forall_app in Ha as [_ Ha]. inversion Ha as [|? ? Hx]; subst. cbn.
    split; [intros [_ ?]; congruence|]. intros E'%(f_equal length). rewrite !length_app in E'. cbn in E'. lia.
Qed.

(** C28. Cache coherence: moving a filter's head with [set_head] gives exactly
    the filter [ForkFilter::new] builds at that head, whether or not the cache was
    recomputed; a transition is returned exactly when the current fork id changes,
    and it carries the new and the old fork id.  Assumed: at both heads the active
    forks are an initial segment of the schedule, and no two forks share a hash. *)
Theorem set_head_refines fork_hash_of fork_hash_add h0 genesis keys f head :
  ForkFilter_new fork_hash_of fork_hash_add h0 genesis keys = Some f ->
  0 <= hd_number h0 -> 0 <= hd_number head ->
  head_ordered (ff_forks f) h0 -> head_ordered (ff_forks f) head -> no_collision (ff_forks f) ->
  exists t f', set_head f head = Some (t, f') /\
    ForkFilter_new fork_hash_of fork_hash_add head genesis keys = Some f' /\
    (t = None <-> current f' = current f) /\
    (forall tr, t = Some tr -> tr = mkForkTransition (current f') (current f)).
Proof.
  intros Hf Hn0 Hn Ho0 Ho Hnc. apply ForkFilter_new_Some in Hf as (Hfs & _ & Hc).
  assert (Hg : is_Some (ff_forks f !! FkBlock 0)) by (rewrite Hfs; apply schedule_genesis).
  destruct (schedule_split (ff_forks f) h0) as (a1 & k1 & h1 & b1 & E1 & S1); [by split_and!|].
  destruct (schedule_split (ff_forks f) head) as (a2 & k2 & h2 & b2 & E2 & S2); [by split_and!|].
  pose proof (compute_cache_split _ _ _ _ _ _ E2 S2) as C2.
  rewrite (compute_cache_split _ _ _ _ _ _ E1 S1) in Hc. injection Hc as Hc.
  assert (E := E1). rewrite E2 in E. symmetry in E.
  destruct (needs_recompute_splits head a1 k1 h1 b1 (a2 ++ [(k2, h2)]) b2 (ff_cache f)) as [N1 N2]; [by rewrite <- Hc..|done|done|].
  unfold set_head. destruct (needs_recompute (ff_cache f) head) eqn:Hr; [rewrite C2; cbn|].
  - eexists _, _. split; [done|]. split; [by apply ForkFilter_new_Some; cbn|].
    unfold current. cbn. split; [|by intros tr [= <-]]. split; [done|].
    rewrite <- Hc. cbn. intros [= <- _]. unfold no_collision in Hnc. rewrite E1 in Hnc.
    destruct (split_same_hash _ _ _ _ _ _ _ Hnc E) as (-> & -> & ->). discriminate (N2 eq_refl).
  - rewrite (N1 eq_refl) in E1, Hc. apply app_inj_tail in N1 as [-> [= -> ->]]; [|done].
    assert (b1 = b2) as -> by (apply (app_inv_head (a2 ++ [(k2, h2)])); congruence).
    eexists _, _. split; [done|]. split; [apply ForkFilter_new_Some; cbn; split_and!; try done; congruence|].
    split; [done|]. by intros tr.
Qed.

(** ** [validate] *)

Lemma find_past_app h (a : list entry) k c :
  h ∉ a.*2 -> find_past h (a ++ (k, h) :: c) = fst <$> List.head c.
Proof.
  induction a as [|[k' h'] a IH]; cbn; intros Hn.
  - rewrite Z.eqb_refl. by destruct c as [|[]].
  - apply not_elem_of_cons in Hn as [Hh Hn]. rewrite (proj2 (Z.eqb_neq h' h)) by congruence. by apply IH.
Qed.

Lemma find_past_None h (a : list entry) : h ∉ a.*2 -> find_past h a = None.
Proof.
  induction a as [|[k' h'] a IH]; cbn; intros Hn; [done|].
  apply not_elem_of_cons in Hn as [Hh Hn]. rewrite (proj2 (Z.eqb_neq h' h)) by congruence. by apply IH.
Qed.

(** Block forks of the schedule are never time forks: the number of the head
    stays below every fork timestamp. *)
Definition numbers_below_times (forks : gmap ForkFilterKey ForkHash) (head : Head) : Prop :=
  map_Forall (fun k _ => match k with FkTime t => hd_number head < t | FkBlock _ => True end) forks.
#[global] Instance numbers_below_times_dec forks head : Decision (numbers_below_times forks head).
Proof. apply map_Forall_dec. intros [] ?; apply _. Defined.

(** The next fork is ahead of the quantity [validate] compares it with. *)
Lemma next_ahead forks head a k h k' h' b :
  entries key_le forks = (a ++ [(k, h)]) ++ (k', h') :: b -> split_at head (a ++ [(k, h)]) ((k', h') :: b) ->
  numbers_below_times forks head ->
  match k with FkBlock _ => hd_number head | FkTime _ => hd_timestamp head end < key_value k'.
Proof.
  intros E [Ha Hb] Hnt. apply Forall_cons in Hb as [Hb _]. cbn in Hb.
  assert (Hk' : forks !! k' = Some h').
  { apply (elem_of_entries key_le). rewrite E. apply elem_of_app. right. apply list_elem_of_here. }
  assert (Hle : key_le k k').
  { pose proof (entries_strict key_le forks) as Hs. rewrite E in Hs.
    apply (StronglySorted_app_1_elem_of _ _ _ (k, h) (k', h')) in Hs as [Hs _]; [done| |apply list_elem_of_here].
    apply elem_of_app. right. apply list_elem_of_here. }
  specialize (Hnt _ _ Hk'). destruct k as [n|t], k' as [n'|t']; cbn in *; try (apply Z.leb_gt in Hb; lia).
  unfold key_le, pre_le, lex_le, strict in Hle. cbn in Hle. lia.
Qed.

(** C26. Two nodes that run the same fork schedule accept each other's fork
    identifier, whatever their heads: [validate] on the filter at one head accepts
    the current fork id of the filter at the other head, behind, equal or ahead.  A head
    past a fork is past the earlier ones of the schedule ([head_ordered]), the number of
    the local head is below the forks given by time ([numbers_below_times]), and no two
    prefixes of the schedule have one hash ([no_collision]). *)
Theorem same_schedule_compatible fork_hash_of fork_hash_add genesis keys h1 h2 f1 f2 :
  ForkFilter_new fork_hash_of fork_hash_add h1 genesis keys = Some f1 ->
  ForkFilter_new fork_hash_of fork_hash_add h2 genesis keys = Some f2 ->
  0 <= hd_number h1 -> 0 <= hd_number h2 ->
  head_ordered (ff_forks f1) h1 -> head_ordered (ff_forks f1) h2 ->
  numbers_below_times (ff_forks f1) h1 -> no_collision (ff_forks f1) ->
  validate f1 (current f2) = Ok tt.
Proof.
  intros Hf1 Hf2 Hn1 Hn2 Ho1 Ho2 Hnt Hnc.
  apply ForkFilter_new_Some in Hf1 as (Hfs1 & Hh1 & Hc1), Hf2 as (Hfs2 & _ & Hc2).
  rewrite Hfs2, <- Hfs1 in Hc2.
  assert (Hg : is_Some (ff_forks f1 !! FkBlock 0)) by (rewrite Hfs1; apply schedule_genesis).
  destruct (schedule_split (ff_forks f1) h1) as (a1 & k1 & x1 & b1 & E1 & S1); [by split_and!|].
  destruct (schedule_split (ff_forks f1) h2) as (a2 & k2 & x2 & b2 & E2 & S2); [by split_and!|].
  rewrite (compute_cache_split _ _ _ _ _ _ E1 S1) in Hc1. rewrite (compute_cache_split _ _ _ _ _ _ E2 S2) in Hc2.
  injection Hc1 as Hc1. injection Hc2 as Hc2. assert (E := E1). rewrite E2 in E. symmetry in E.
  unfold no_collision in Hnc. rewrite E1 in Hnc.
  unfold validate, current. rewrite <- Hc1, <- Hc2, Hh1. cbn [cache_fork_id fi_hash fi_next epoch_start past future].
  destruct (Z.eqb_spec x1 x2) as [<-|Hne].
  - destruct (split_same_hash _ _ _ _ _ _ _ Hnc E) as (<- & <- & <-).
    destruct b1 as [|[k' h'] b1]; cbn; [done|]. pose proof (next_ahead _ _ _ _ _ _ _ _ E1 S1 Hnt).
    destruct (key_value k' =? 0); [done|]. by zdec.
  - destruct (split_compare _ _ _ _ E) as [(c & Ea & ->)|(x & c & Ea & ->)].
    + rewrite E, !fmap_app, !NoDup_app in Hnc. rewrite Ea, <- app_assoc. cbn [app].
      destruct Hnc as ((_ & Hd & _) & _). rewrite find_past_app.
      2: { intros Hin. apply (Hd _ Hin). apply list_elem_of_here. }
      destruct c as [|[k h] c]; cbn; [|by rewrite Z.eqb_refl].
      rewrite app_nil_r in Ea. apply app_inj_tail in Ea as [_ [=]]. congruence.
    + assert (Hx : (k2, x2) ∈ x :: c ++ b2).
      { destruct c as [|y c _] using rev_ind; [apply app_inj_tail in Ea as [_ ->]; apply list_elem_of_here|].
        rewrite app_comm_cons, app_assoc in Ea. apply app_inj_tail in Ea as [_ ->].
        rewrite elem_of_cons, !elem_of_app, elem_of_cons. tauto. }
      rewrite fmap_app, NoDup_app in Hnc. destruct Hnc as (_ & Hd & _).
      assert (Hx2 : x2 ∈ (x :: c ++ b2).*2) by (apply list_elem_of_fmap; by exists (k2, x2)).
      rewrite find_past_None by (intros Hin; exact (Hd _ Hin Hx2)).
      rewrite (proj2 (existsb_exists _ _)); [done|]. exists x2. split; [by apply list_elem_of_In|apply Z.eqb_refl].
Qed.

(** ** [fork_id] against [fork_filter] *)

(** Along the schedule both the key order and the activation values increase. *)
Definition key_before (x y : ForkFilterKey) : Prop :=
  x = y \/ (strict key_le x y /\ key_value x < key_value y).
#[global] Instance key_before_dec : RelDecision key_before.
Proof. intros x y. unfold key_before, strict. apply _. Defined.

(** The keys [fork_id] adds to its checksum, [applied] being the last one. *)
Fixpoint dedup (applied : Z) (ks : list ForkFilterKey) : list ForkFilterKey :=
  match ks with
  | [] => []
  | k :: ks => if key_value k =? applied then dedup applied ks else k :: dedup (key_value k) ks
  end.

Lemma dedup_spec applied ks :
  StronglySorted key_before ks -> Forall (fun k => applied <= key_value k) ks ->
  (forall k, k ∈ dedup applied ks <-> k ∈ ks /\ applied < key_value k) /\
  StronglySorted (strict key_le) (dedup applied ks).
Proof.
  intros Hs. revert applied. induction Hs as [|x ks Hs IH Hx]; intros applied Ha; cbn.
  - split; [|constructor]. intros k. rewrite elem_of_nil. tauto.
  - apply Forall_cons in Ha as [Hax Ha]. destruct (Z.eqb_spec (key_value x) applied) as [E|E].
    + destruct (IH applied Ha) as [Hin Hss]. split; [|done]. intros k. rewrite Hin, elem_of_cons.
      split; [tauto|]. intros [[->|] ?]; [lia|done].
    + destruct (IH (key_value x)) as [Hin Hss].
      { eapply Forall_impl; [exact Hx|]. intros k [->|[_ ?]]; lia. }
      rewrite Forall_forall in Hx, Ha. split.
      * intros k. rewrite !elem_of_cons, Hin. split.
        -- intros [->|[Hk ?]]; [split; [by left|lia]|]. split; [by right|lia].
        -- intros [[->|Hk] Hv]; [by left|]. destruct (Hx _ Hk) as [->|[_ ?]]; [by left|by right].
      * constructor; [done|]. rewrite Forall_forall. intros k [Hk Hv]%Hin.
        destruct (Hx _ Hk) as [->|[? _]]; [lia|done].
Qed.

(** Each condition is active at the head when its filter key is. *)
Definition conditions_agree (head : Head) (l : list (Hardfork * ForkCondition)) : Prop :=
  Forall (fun fc => match filter_key fc.2 with
                    | Some k => active_at_head fc.2 head = key_active head k
                    | None => True
                    end) l.

Definition apply_keys (add : ForkHash -> Z -> ForkHash) (h : ForkHash) (ks : list ForkFilterKey) : ForkHash :=
  fold_left (fun h k => add h (key_value k)) ks h.
Definition next_value (b : list ForkFilterKey) : Z := key_value (default (FkBlock 0) (List.head b)).

Lemma fork_id_loop_split add head l h applied a b :
  conditions_agree head l -> omap (fun fc => filter_key fc.2) l = a ++ b ->
  Forall (fun k => key_active head k = true) a -> Forall (fun k => key_active head k = false) b ->
  fork_id_loop add head h applied l = mkForkId (apply_keys add h (dedup applied a)) (next_value b).
Proof.
  intros Hc. revert a h applied. induction Hc as [|[hf c] l Hc _ IH]; intros a h applied E Ha Hb.
  - destruct a; [|done]. by destruct b.
  - cbn in E, Hc |- *.
    assert (Hv : fork_value c = key_value <$> filter_key c) by (by destruct c as [|[]| |]).
    rewrite Hv. destruct (filter_key c) as [k|]; cbn; [|by apply IH]. rewrite Hc.
    destruct a as [|k' a]; cbn in E.
    + destruct b as [|k' b]; [done|]. injection E as <- E. apply Forall_cons in Hb as [-> _]. done.
    + injection E as <- E. apply Forall_cons in Ha as [Hk Ha]. rewrite Hk. cbn.
      destruct (key_value k =? applied); cbn; by apply IH.
Qed.

Fixpoint hashed (add : ForkHash -> Z -> ForkHash) (h : ForkHash) (ks : list ForkFilterKey) : list entry :=
  match ks with
  | [] => []
  | k :: ks => (k, add h (key_value k)) :: hashed add (add h (key_value k)) ks
  end.

Lemma hashed_keys add h ks : (hashed add h ks).*1 = ks.
Proof. revert h. induction ks as [|k ks IH]; intros h; cbn; [done|]. by rewrite IH. Qed.

Lemma hashed_Forall add (P : ForkFilterKey -> Prop) h ks :
  Forall P ks -> Forall (fun e => P e.1) (hashed add h ks).
Proof. intros Hks. revert h. induction Hks; intros h; by constructor. Qed.

Lemma hashed_app add h a b : hashed add h (a ++ b) = hashed add h a ++ hashed add (apply_keys add h a) b.
Proof. revert h. induction a as [|k a IH]; intros h; cbn; [done|]. by rewrite IH. Qed.

Lemma hashed_last add k0 h a :
  exists k l, (k0, h) :: hashed add h a = l ++ [(k, apply_keys add h a)].
Proof.
  revert k0 h. induction a as [|x a IH]; intros k0 h; cbn; [by exists k0, []|].
  destruct (IH x (add h (key_value x))) as (k & l & E). exists k, ((k0, h) :: l). cbn. by rewrite E.
Qed.

Lemma hash_forks_lookup_iff add acc base ks k v :
  NoDup ks ->
  hash_forks add acc base ks !! k = Some v <-> (k, v) ∈ hashed add base ks \/ (~ k ∈ ks /\ acc !! k = Some v).
Proof.
  revert acc base. induction ks as [|x ks IH]; intros acc base Hn; cbn.
  - rewrite elem_of_nil. split; [|tauto]. intros H. right. split; [apply not_elem_of_nil|done].
  - apply NoDup_cons in Hn as [Hx Hn]. rewrite IH, elem_of_cons, not_elem_of_cons by done.
    destruct (decide (x = k)) as [->|Hne].
    + rewrite lookup_insert_eq. split; [intros [?|[_ [= <-]]]; tauto|]. intros [[[= <-]|?]|[[? _] _]]; tauto.
    + rewrite lookup_insert_ne by done. split; [intros [?|[? ?]]; [tauto|]; right; auto|].
      intros [[[= ? _]|?]|[[? ?] ?]]; [congruence|tauto..].
Qed.

Lemma schedule_entries fork_hash_of add genesis keys :
  Forall (fun k => 0 < key_value k) (sorted_keys keys) ->
  entries key_le (schedule fork_hash_of add genesis keys) =
  (FkBlock 0, fork_hash_of genesis) :: hashed add (fork_hash_of genesis) (sorted_keys keys).
Proof.
  intros Hpos. unfold schedule. set (ks := sorted_keys keys) in *. set (g := fork_hash_of genesis).
  assert (Hs : StronglySorted (strict key_le) (FkBlock 0 :: ks)).
  { constructor.
    - unfold ks, sorted_keys. eapply StronglySorted_fmap; [|apply (entries_strict key_le)]. done.
    - eapply Forall_impl; [exact Hpos|]. intros [n|t] Hk; cbn in Hk;
        unfold strict, key_le, pre_le, lex_le, strict; cbn; lia. }
  assert (Hn : NoDup ks) by (apply (entries_NoDup_keys key_le)).
  assert (H0 : FkBlock 0 ∉ ks).
  { intros Hin. rewrite Forall_forall in Hpos. specialize (Hpos _ Hin). cbn in Hpos. lia. }
  apply (entries_unique key_le).
  - apply (StronglySorted_fmap_inv fst (strict key_le)). cbn. by rewrite hashed_keys.
  - intros k v. rewrite hash_forks_lookup_iff, elem_of_cons, lookup_singleton_Some by done.
    split; [intros [[= -> ->]|?]; tauto|]. intros [?|[_ [<- <-]]]; tauto.
Qed.

Definition active_before (head : Head) (x y : ForkFilterKey) : Prop :=
  key_active head y = true -> key_active head x = true.
#[global] Instance active_before_dec head : RelDecision (active_before head).
Proof. intros x y. unfold active_before. apply _. Defined.

Lemma keys_split head ks :
  StronglySorted (active_before head) ks ->
  exists a b, ks = a ++ b /\ Forall (fun k => key_active head k = true) a /\
    Forall (fun k => key_active head k = false) b.
Proof.
  induction 1 as [|k ks _ (a & b & -> & Ha & Hb) Hk]; [by exists [], []|].
  destruct (key_active head k) eqn:E.
  - exists (k :: a), b. split_and!; [done|by constructor|done].
  - exists [], (k :: a ++ b). split_and!; [done|constructor|]. constructor; [done|].
    eapply Forall_impl; [exact Hk|]. intros y Hy. apply not_true_iff_false. intros ?%Hy. congruence.
Qed.

Definition last_applied (applied : Z) (ks : list ForkFilterKey) : Z :=
  default applied (key_value <$> last ks).

Lemma dedup_app applied a b :
  dedup applied (a ++ b) = dedup applied a ++ dedup (last_applied applied a) b.
Proof.
  revert applied. induction a as [|k a IH]; intros applied; cbn; [done|].
  destruct (Z.eqb_spec (key_value k) applied) as [<-|]; rewrite IH; unfold last_applied;
    rewrite last_cons; by destruct (last a).
Qed.

Lemma elem_of_sorted_keys ks k : k ∈ sorted_keys ks <-> k ∈ ks /\ key_value k <> 0.
Proof.
  assert (Hz : key_value k = 0 <-> FkBlock 0 = k \/ FkTime 0 = k).
  { destruct k; cbn; split; [intros ->; by left|intros [[= <-]|[=]]; done|intros ->; by right|
                             intros [[=]|[= <-]]; done]. }
  assert (Hk : is_Some ((list_to_map ((fun k => (k, tt)) <$> ks) : gmap ForkFilterKey unit) !! k) <-> k ∈ ks).
  { rewrite <- elem_of_dom, dom_list_to_map, elem_of_list_to_set, <- list_fmap_compose. cbn.
    by rewrite list_fmap_id. }
  unfold sorted_keys. rewrite list_elem_of_fmap, <- Hk. split.
  - intros ([k' u] & -> & Hin%(elem_of_entries key_le)). cbn in *.
    apply lookup_delete_Some in Hin as [H0 [H1 Hin]%lookup_delete_Some]. split; [by exists u|]. tauto.
  - intros [[u Hu] Hv]. exists (k, u). split; [done|]. apply (elem_of_entries key_le).
    rewrite !lookup_delete_ne by tauto. done.
Qed.

Lemma sorted_keys_dedup ks :
  StronglySorted key_before ks -> Forall (fun k => 0 <= key_value k) ks -> sorted_keys ks = dedup 0 ks.
Proof.
  intros Hs Hp. destruct (dedup_spec 0 ks Hs Hp) as [Hin Hss].
  apply (StronglySorted_unique_strong (strict key_le)).
  - intros x y _ _ [_ ?] [? _]. done.
  - unfold sorted_keys. eapply StronglySorted_fmap; [|apply (entries_strict key_le)]. done.
  - done.
  - apply NoDup_Permutation; [apply (entries_NoDup_keys key_le)| |].
    + clear -Hss. induction Hss as [|x l _ IH Hx]; constructor; [|done].
      rewrite Forall_forall in Hx. intros [_ []]%Hx. apply (reflexivity (R := key_le)).
    + intros k. rewrite Hin, elem_of_sorted_keys. rewrite Forall_forall in Hp.
      split; intros [Hk Hv]; (split; [done|]); specialize (Hp _ Hk); cbn in Hp; lia.
Qed.

(** The inactive keys lose no first element to the deduplication. *)
Lemma dedup_head head a b :
  StronglySorted key_before (a ++ b) -> 0 <= hd_number head -> 0 <= hd_timestamp head ->
  Forall (fun k => key_active head k = true) a -> Forall (fun k => key_active head k = false) b ->
  List.head (dedup (last_applied 0 a) b) = List.head b.
Proof.
  intros Hs Hn Ht Ha Hb. destruct b as [|k b]; [done|]. cbn.
  apply Forall_cons in Hb as [Hk _]. destruct (Z.eqb_spec (key_value k) (last_applied 0 a)) as [E|]; [exfalso|done].
  unfold last_applied in E. destruct (last a) as [k'|] eqn:El; cbn in E.
  - apply last_Some_elem_of in El. rewrite Forall_forall in Ha. specialize (Ha _ El).
    destruct (StronglySorted_app_1_elem_of _ _ _ k' k Hs El (list_elem_of_here _ _)) as [->|[_ ?]]; [congruence|lia].
  - destruct k; cbn in *; apply Z.leb_gt in Hk; lia.
Qed.

Definition spec_keys (s : ChainSpec) : list ForkFilterKey := omap (fun fc => filter_key fc.2) (forks_iter s).

(** The two routines that compute a fork identifier agree: [ChainSpec::fork_id]
    at a head is the current fork id of [ChainSpec::fork_filter] at that head, which
    is built without panicking.  Assumed of the chain spec: activation values grow
    along the hardfork order (equal forks aside), the active forks come first, and a
    fork with a known merge block is not active by total difficulty before it. *)
Theorem fork_id_matches_filter fork_hash_of fork_hash_add genesis_hash s head :
  StronglySorted key_before (spec_keys s) -> Forall (fun k => 0 <= key_value k) (spec_keys s) ->
  StronglySorted (active_before head) (spec_keys s) -> conditions_agree head (forks_iter s) ->
  0 <= hd_number head -> 0 <= hd_timestamp head ->
  current <$> fork_filter fork_hash_of fork_hash_add genesis_hash s head =
  Some (fork_id fork_hash_of fork_hash_add genesis_hash s head).
Proof.
  intros Hs Hp Ho Hc Hn Ht. destruct (keys_split _ _ Ho) as (a & b & E & Ha & Hb).
  unfold fork_id, fork_filter, ForkFilter_new. rewrite (fork_id_loop_split _ _ _ _ _ a b Hc E Ha Hb).
  fold (spec_keys s). set (g := default genesis_hash (cs_genesis_hash s)).
  change (hash_forks _ _ _ _) with (schedule fork_hash_of fork_hash_add g (spec_keys s)).
  pose proof (sorted_keys_dedup _ Hs Hp) as Ek. rewrite E, dedup_app, <- E in Ek.
  assert (Hpos : Forall (fun k => 0 < key_value k) (sorted_keys (spec_keys s))).
  { rewrite Forall_forall in Hp |- *. intros k [Hk Hv]%elem_of_sorted_keys. specialize (Hp _ Hk). cbn in Hp. lia. }
  pose proof (schedule_entries fork_hash_of fork_hash_add g _ Hpos) as He. rewrite Ek, hashed_app in He.
  assert (Hsub : forall ap l k, k ∈ dedup ap l -> k ∈ l).
  { intros ap l k. revert ap. induction l as [|x l IH]; intros ap; cbn; [done|].
    rewrite elem_of_cons. destruct (_ =? _); [eauto|]. rewrite elem_of_cons. intros [->|?]; eauto. }
  destruct (hashed_last fork_hash_add (FkBlock 0) (fork_hash_of g) (dedup 0 a)) as (k & l & El).
  rewrite app_comm_cons, El in He.
  rewrite (compute_cache_split _ head _ _ _ _ He).
  - cbn. unfold current, next_value. cbn. rewrite E in Hs. rewrite <- (dedup_head head a b Hs Hn Ht Ha Hb).
    by destruct (dedup (last_applied 0 a) b).
  - rewrite <- El. split.
    + constructor; [cbn; by apply Z.leb_le|]. apply (hashed_Forall _ (fun k => key_active head k = true)).
      rewrite Forall_forall in Ha |- *. eauto.
    + apply (hashed_Forall _ (fun k => key_active head k = false)).
      rewrite Forall_forall in Hb |- *. eauto.
Qed.

(** On Sepolia the two routines disagree once the merge difficulty is reached
    and before the announced merge block: [fork_id] already counts Paris as passed
    and announces Shanghai, while the filter still announces block 1735371. *)
Theorem sepolia_fork_id_disagrees fork_hash_of fork_hash_add genesis_hash :
  let s := mkChainSpec 11155111 None SEPOLIA_hardforks in
  let head := mkHead 1450409 0 0 17000000000000000 1661130096 in
  fi_next (fork_id fork_hash_of fork_hash_add genesis_hash s head) = 1677557088 /\
  (fi_next ∘ current) <$> fork_filter fork_hash_of fork_hash_add genesis_hash s head = Some 1735371.
Proof. split; vm_compute; reflexivity. Qed.

(** ** Witnesses *)

Definition sample_add (h : ForkHash) (v : Z) : ForkHash := 31 * h + v.
Definition sample_keys : list ForkFilterKey := [FkBlock 5; FkBlock 0; FkTime 1000; FkBlock 9].
Definition sample_head (n t : Z) : Head := mkHead n 0 0 0 t.
Definition sample_filter (h : Head) : ForkFilter :=
  default (mkForkFilter ∅ h (mkCache (FkBlock 0) None [] [] (mkForkId 0 0)))
    (ForkFilter_new id sample_add h 7 sample_keys).

Ltac by_decide := apply (bool_decide_unpack _); vm_compute; exact I.

Lemma set_head_refines_witness :
  exists t f', set_head (sample_filter (sample_head 6 100)) (sample_head 12 1500) = Some (t, f') /\
    ForkFilter_new id sample_add (sample_head 12 1500) 7 sample_keys = Some f' /\
    (t = None <-> current f' = current (sample_filter (sample_head 6 100))) /\
    (forall tr, t = Some tr -> tr = mkForkTransition (current f') (current (sample_filter (sample_head 6 100)))).
Proof.
  apply (set_head_refines id sample_add (sample_head 6 100));
    [vm_compute; reflexivity|cbn; lia|cbn; lia|by_decide|by_decide|by_decide].
Defined.

Lemma same_schedule_compatible_witness :
  validate (sample_filter (sample_head 6 100)) (current (sample_filter (sample_head 12 1500))) = Ok tt.
Proof.
  apply (same_schedule_compatible id sample_add 7 sample_keys (sample_head 6 100) (sample_head 12 1500));
    [vm_compute; reflexivity|vm_compute; reflexivity|cbn; lia|cbn; lia|by_decide|by_decide|by_decide|by_decide].
Defined.

Ltac sorted_decide := repeat (constructor; [|by_decide]); constructor.

Lemma fork_id_matches_filter_witness :
  current <$> fork_filter id sample_add 7 (mkChainSpec 1 None MAINNET_hardforks) (sample_head 10000000 1600000000) =
  Some (fork_id id sample_add 7 (mkChainSpec 1 None MAINNET_hardforks) (sample_head 10000000 1600000000)).
Proof.
  assert (E : spec_keys (mkChainSpec 1 None MAINNET_hardforks) =
    [FkBlock 0; FkBlock 1150000; FkBlock 1920000; FkBlock 2463000; FkBlock 2675000; FkBlock 4370000;
     FkBlock 7280000; FkBlock 7280000; FkBlock 9069000; FkBlock 9200000; FkBlock 12244000; FkBlock 12965000;
     FkBlock 13773000; FkBlock 15050000]) by (vm_compute; reflexivity).
  apply fork_id_matches_filter; rewrite ?E; [sorted_decide|by_decide|sorted_decide| |cbn; lia|cbn; lia].
  assert (El : forks_iter (mkChainSpec 1 None MAINNET_hardforks) = [(Frontier, FcBlock 0); (Homestead, FcBlock 1150000); (Dao, FcBlock 1920000);
   (Tangerine, FcBlock 2463000); (SpuriousDragon, FcBlock 2675000); (Byzantium, FcBlock 4370000);
   (Constantinople, FcBlock 7280000); (Petersburg, FcBlock 7280000); (Istanbul, FcBlock 9069000);
   (MuirGlacier, FcBlock 9200000); (Berlin, FcBlock 12244000); (London, FcBlock 12965000);
   (ArrowGlacier, FcBlock 13773000); (GrayGlacier, FcBlock 15050000);
   (Paris, FcTTD None 58750000000000000000000)]) by (vm_compute; reflexivity).
  unfold conditions_agree. rewrite El. repeat (constructor; [vm_compute; first [reflexivity|exact I]|]). constructor.
Defined.
