(* ===== verification/Consensus.v ===== *)
(** * Block validation

    crates/consensus/src/validation.rs and beacon/beacon_consensus.rs, with the
    error type of crates/interfaces/src/consensus.rs.  The trie roots of
    primitives/proofs.rs, signature recovery and the state provider are
    parameters; the system clock is an argument. *)
From S2P Require Import Prelude Bytes PoolTypes PoolInner Primitives ChainSpec.

Definition EIP1559_INITIAL_BASE_FEE : Z := 1000000000.
Definition EIP1559_BASE_FEE_MAX_CHANGE_DENOMINATOR : Z := 8.
Definition EIP1559_ELASTICITY_MULTIPLIER : Z := 2.

Inductive ConsensusError :=
| HeaderGasUsedExceedsGasLimit (gas_used gas_limit : Z)
| BodyOmmersHashDiff (got expected : Z)
| BodyStateRootDiff (got expected : Z)
| BodyTransactionRootDiff (got expected : Z)
| BodyReceiptsRootDiff (got expected : Z)
| BodyWithdrawalsRootDiff (got expected : Z)
| BlockKnown (hash number : Z)
| ParentUnknown (hash : Z)
| ParentBlockNumberMismatch (parent_block_number block_number : Z)
| TimestampIsInPast (parent_timestamp timestamp : Z)
| TimestampIsInFuture (timestamp present_timestamp : Z)
| GasLimitInvalidIncrease (parent_gas_limit child_gas_limit : Z)
| GasLimitInvalidDecrease (parent_gas_limit child_gas_limit : Z)
| BaseFeeMissing
| BaseFeeDiff (expected got : Z)
| TransactionSignerRecoveryError
| TransactionReceiptCountDiff (transaction_count receipt_count : Z)
| TransactionTypeReceiptTypeDiff
| ExtraDataExceedsMax (len : Z)
| TheMergeDifficultyIsNotZero
| TheMergeNonceIsNotZero
| TheMergeOmmerRootIsNotEmpty
| TheMergeMixHashIsNotZero
| WithdrawalsRootMissing
| WithdrawalsRootUnexpected
| WithdrawalIndexInvalid (got expected : Z)
| BodyWithdrawalsMissing
| CInvalidTransaction (e : InvalidTransactionError).

Definition ensure {E} (ok : bool) (e : E) : outcome E unit := if ok then Ok tt else Err e.
Definition ok_or {E A} (o : option A) (e : E) : outcome E A :=
  match o with Some a => Ok a | None => Err e end.

(** Division of the source; by zero it panics. *)
Definition checked_quot {E} (a b : Z) : outcome E Z := if b =? 0 then Panic else Ok (a / b).

Definition validate_header_standalone (present_timestamp : Z) (header : SealedHeader) (chain_spec : ChainSpec)
    : outcome ConsensusError unit :=
  let h := sh_header header in
  let shanghai := active_at_timestamp (fork chain_spec Shanghai) (timestamp h) in
  ensure (gas_used h <=? h_gas_limit h) (HeaderGasUsedExceedsGasLimit (gas_used h) (h_gas_limit h));;
  ensure (timestamp h <=? present_timestamp) (TimestampIsInFuture (timestamp h) present_timestamp);;
  ensure (zlen (extra_data h) <=? 32) (ExtraDataExceedsMax (zlen (extra_data h)));;
  ensure (negb (active_at_block (fork chain_spec London) (number h)
                && bool_decide (base_fee_per_gas h = None))) BaseFeeMissing;;
  if shanghai && bool_decide (withdrawals_root h = None) then Err WithdrawalsRootMissing
  else if negb shanghai && bool_decide (is_Some (withdrawals_root h)) then Err WithdrawalsRootUnexpected
  else Ok tt.

Definition validate_transaction_regarding_header (transaction : Transaction) (chain_spec : ChainSpec)
    (at_block_number : Z) (base_fee : option Z) : outcome ConsensusError unit :=
  chain_id ← match transaction with
    | TLegacy x =>
        if active_at_block (fork chain_spec SpuriousDragon) at_block_number && bool_decide (is_Some (lg_chain_id x))
        then Err (CInvalidTransaction OldLegacyChainId) else Ok (lg_chain_id x)
    | TEip2930 x =>
        if negb (active_at_block (fork chain_spec Berlin) at_block_number)
        then Err (CInvalidTransaction Eip2930Disabled) else Ok (Some (al_chain_id x))
    | TEip1559 x =>
        if negb (active_at_block (fork chain_spec Berlin) at_block_number)
        then Err (CInvalidTransaction Eip1559Disabled)
        else if df_max_fee_per_gas x <? df_max_priority_fee_per_gas x
        then Err (CInvalidTransaction PriorityFeeMoreThenMaxFee) else Ok (Some (df_chain_id x))
    end;
  match chain_id with
  | Some chain_id => ensure (chain_id =? cs_chain_id chain_spec) (CInvalidTransaction ChainIdMismatch)
  | None => Ok tt
  end;;
  match base_fee with
  | Some base_fee_per_gas =>
      ensure (base_fee_per_gas <=? t_max_fee_per_gas transaction) (CInvalidTransaction MaxFeeLessThenBaseFee)
  | None => Ok tt
  end.

(** Errors of [RethResult]: a consensus error, or one of the provider. *)
Inductive RethError (E : Type) := EConsensus (e : ConsensusError) | EProvider (e : E).
Arguments EConsensus {E} e.
Arguments EProvider {E} e.

Definition lift_consensus {E A} (o : outcome ConsensusError A) : outcome (RethError E) A :=
  match o with Ok a => Ok a | Err e => Err (EConsensus e) | Panic => Panic | Diverge => Diverge end.
Definition lift_provider {E A} (o : outcome E A) : outcome (RethError E) A :=
  match o with Ok a => Ok a | Err e => Err (EProvider e) | Panic => Panic | Diverge => Diverge end.

(** The provider traits the validation calls. *)
Record Provider (E : Type) := mkProvider {
  is_known : Z -> outcome E bool;
  header_by_hash : Z -> outcome E (option Header);
  latest_withdrawal : outcome E (option Withdrawal);
  basic_account : Z -> outcome E (option Account)
}.
Arguments is_known {E} p _.
Arguments header_by_hash {E} p _.
Arguments latest_withdrawal {E} p.
Arguments basic_account {E} p _.

Definition default_account : Account := mkAccount 0 0 None.

(** The nonce a transaction of [signer] must have, and the updated table. *)
Definition expect_nonce {E} (provider : Provider E) (account_nonces : gmap Z Z) (signer : Z)
    : outcome (RethError E) (Z * gmap Z Z) :=
  match account_nonces !! signer with
  | Some nonce => Ok (nonce, <[signer := wadd 64 nonce 1]> account_nonces)
  | None =>
      account ← lift_provider (basic_account provider signer);
      let account := default default_account account in
      if has_bytecode account then Err (EConsensus (CInvalidTransaction SignerAccountHasBytecode))
      else Ok (acc_nonce account, <[signer := wadd 64 (acc_nonce account) 1]> account_nonces)
  end.

Fixpoint validate_nonces {E} (account_nonces : gmap Z Z) (transactions : list TransactionSignedEcRecovered)
    (header : Header) (provider : Provider E) (chain_spec : ChainSpec) : outcome (RethError E) unit :=
  match transactions with
  | [] => Ok tt
  | transaction :: transactions =>
      let t := ts_transaction (ec_signed transaction) in
      lift_consensus (validate_transaction_regarding_header t chain_spec (number header) (base_fee_per_gas header));;
      '(nonce, account_nonces) ← expect_nonce provider account_nonces (signer transaction);
      ensure (t_nonce t =? nonce) (EConsensus (CInvalidTransaction NonceNotConsistent));;
      validate_nonces account_nonces transactions header provider chain_spec
  end.

Definition validate_all_transaction_regarding_block_and_nonces {E} :
    list TransactionSignedEcRecovered -> Header -> Provider E -> ChainSpec -> outcome (RethError E) unit :=
  validate_nonces ∅.

(** The index loop of [validate_block_standalone]. *)
Fixpoint check_indices (prev_index : Z) (ws : list Withdrawal) : outcome ConsensusError unit :=
  match ws with
  | [] => Ok tt
  | w :: ws =>
      let expected := wadd 64 prev_index 1 in
      ensure (expected =? w_index w) (WithdrawalIndexInvalid (w_index w) expected);;
      check_indices (w_index w) ws
  end.

Section Roots.
Context (calculate_ommers_root : list Header -> Z)
        (calculate_transaction_root : list TransactionSigned -> Z)
        (calculate_withdrawals_root : list Withdrawal -> Z).

Definition validate_block_standalone (block : SealedBlock) (chain_spec : ChainSpec) : outcome ConsensusError unit :=
  let h := sh_header (sb_header block) in
  let ommers_hash' := calculate_ommers_root (sh_header <$> ommers block) in
  ensure (ommers_hash h =? ommers_hash') (BodyOmmersHashDiff ommers_hash' (ommers_hash h));;
  let transaction_root := calculate_transaction_root (body block) in
  ensure (transactions_root h =? transaction_root) (BodyTransactionRootDiff transaction_root (transactions_root h));;
  if active_at_timestamp (fork chain_spec Shanghai) (timestamp h) then
    ws ← ok_or (withdrawals block) BodyWithdrawalsMissing;
    let withdrawals_root' := calculate_withdrawals_root ws in
    header_withdrawals_root ← ok_or (withdrawals_root h) WithdrawalsRootMissing;
    ensure (withdrawals_root' =? header_withdrawals_root)
      (BodyWithdrawalsRootDiff withdrawals_root' header_withdrawals_root);;
    match ws with
    | [] => Ok tt
    | first :: rest => check_indices (w_index first) rest
    end
  else Ok tt.
End Roots.

Definition calculate_next_block_base_fee {E} (gas_used gas_limit base_fee : Z) : outcome E Z :=
  let gas_target := gas_limit / EIP1559_ELASTICITY_MULTIPLIER in
  if gas_used =? gas_target then Ok base_fee
  else if gas_target <? gas_used then
    let gas_used_delta := gas_used - gas_target in
    q ← checked_quot (base_fee * gas_used_delta) gas_target;
    let base_fee_delta := Z.max 1 (q / EIP1559_BASE_FEE_MAX_CHANGE_DENOMINATOR) in
    Ok (wadd 64 base_fee (wrap 64 base_fee_delta))
  else
    let gas_used_delta := gas_target - gas_used in
    q ← checked_quot (base_fee * gas_used_delta) gas_target;
    let base_fee_per_gas_delta := q / EIP1559_BASE_FEE_MAX_CHANGE_DENOMINATOR in
    Ok (saturating_sub base_fee (wrap 64 base_fee_per_gas_delta)).

(** The gas limit rule of [validate_header_regarding_parent]. *)
Definition check_gas_limit (parent_gas_limit child_gas_limit : Z) : outcome ConsensusError unit :=
  if parent_gas_limit <? child_gas_limit then
    ensure (negb (parent_gas_limit / 1024 <=? child_gas_limit - parent_gas_limit))
      (GasLimitInvalidIncrease parent_gas_limit child_gas_limit)
  else
    ensure (negb (parent_gas_limit / 1024 <=? parent_gas_limit - child_gas_limit))
      (GasLimitInvalidDecrease parent_gas_limit child_gas_limit).

Definition validate_header_regarding_parent (parent child : SealedHeader) (chain_spec : ChainSpec)
    : outcome ConsensusError unit :=
  let p := sh_header parent in
  let c := sh_header child in
  ensure (wadd 64 (number p) 1 =? number c) (ParentBlockNumberMismatch (number p) (number c));;
  ensure (timestamp p <=? timestamp c) (TimestampIsInPast (timestamp p) (timestamp c));;
  let parent_gas_limit :=
    if transitions_at_block (fork chain_spec London) (number c)
    then wrap 64 (h_gas_limit p * EIP1559_ELASTICITY_MULTIPLIER) else h_gas_limit p in
  check_gas_limit parent_gas_limit (h_gas_limit c);;
  if active_at_block (fork chain_spec London) (number c) then
    base_fee ← ok_or (base_fee_per_gas c) BaseFeeMissing;
    expected_base_fee ←
      (if transitions_at_block (fork chain_spec London) (number c) then Ok EIP1559_INITIAL_BASE_FEE
       else
         parent_base_fee ← ok_or (base_fee_per_gas p) BaseFeeMissing;
         calculate_next_block_base_fee (gas_used p) (h_gas_limit p) parent_base_fee);
    ensure (expected_base_fee =? base_fee) (BaseFeeDiff expected_base_fee base_fee)
  else Ok tt.

Definition validate_block_regarding_chain {E} (block : SealedBlock) (provider : Provider E)
    : outcome (RethError E) SealedHeader :=
  let hash := sh_hash (sb_header block) in
  let h := sh_header (sb_header block) in
  known ← lift_provider (is_known provider hash);
  if (known : bool) then Err (EConsensus (BlockKnown hash (number h)))
  else
    parent ← lift_provider (header_by_hash provider (parent_hash h));
    parent ← ok_or parent (EConsensus (ParentUnknown (parent_hash h)));
    match withdrawals block with
    | Some (first :: _) =>
        latest ← lift_provider (latest_withdrawal provider);
        let expected := match latest with Some w => wadd 64 (w_index w) 1 | None => 0 end in
        ensure (expected =? w_index first) (EConsensus (WithdrawalIndexInvalid (w_index first) expected))
    | _ => Ok tt
    end;;
    Ok (mkSealedHeader parent (parent_hash h)).

Section Full.
Context (calculate_ommers_root : list Header -> Z)
        (calculate_transaction_root : list TransactionSigned -> Z)
        (calculate_withdrawals_root : list Withdrawal -> Z)
        (recover_signer : TransactionSigned -> option Z).

(** The recovery of all signers, stopping at the first failure. *)
Fixpoint recover_all (txs : list TransactionSigned) : outcome ConsensusError (list TransactionSignedEcRecovered) :=
  match txs with
  | [] => Ok []
  | tx :: txs =>
      s ← ok_or (recover_signer tx) TransactionSignerRecoveryError;
      rest ← recover_all txs;
      Ok (mkEcRecovered s tx :: rest)
  end.

Definition full_validation {E} (present_timestamp : Z) (block : SealedBlock) (provider : Provider E)
    (chain_spec : ChainSpec) : outcome (RethError E) unit :=
  lift_consensus (validate_header_standalone present_timestamp (sb_header block) chain_spec);;
  lift_consensus (validate_block_standalone calculate_ommers_root calculate_transaction_root
                    calculate_withdrawals_root block chain_spec);;
  parent ← validate_block_regarding_chain block provider;
  lift_consensus (validate_header_regarding_parent parent (sb_header block) chain_spec);;
  transactions ← lift_consensus (recover_all (body block));
  validate_all_transaction_regarding_block_and_nonces transactions (sh_header (sb_header block)) provider chain_spec.
End Full.

(** ** beacon_consensus.rs *)

Definition pre_validate_header (present_timestamp : Z) (chain_spec : ChainSpec) (header parent : SealedHeader)
    : outcome ConsensusError unit :=
  validate_header_standalone present_timestamp header chain_spec;;
  validate_header_regarding_parent parent header chain_spec.

Definition EMPTY_OMMER_ROOT : Z := 0x1dcc4de8dec75d7aab85b567b6ccd41ad312451b948a7413f0a142fd40d49347.

Definition validate_header (chain_spec : ChainSpec) (header : SealedHeader) (total_difficulty : Z)
    : outcome ConsensusError unit :=
  let h := sh_header header in
  if active_at_ttd (fork chain_spec Paris) total_difficulty (difficulty h) then
    ensure (difficulty h =? 0) TheMergeDifficultyIsNotZero;;
    ensure (h_nonce h =? 0) TheMergeNonceIsNotZero;;
    ensure (ommers_hash h =? EMPTY_OMMER_ROOT) TheMergeOmmerRootIsNotEmpty
  else Ok tt.

Definition has_block_reward (chain_spec : ChainSpec) (total_difficulty difficulty : Z) : bool :=
  negb (active_at_ttd (fork chain_spec Paris) total_difficulty difficulty).
