(* ===== verification/ConsensusProofs.v ===== *)
(** * Theorems about block validation

    The base fee recurrence, what an accepted child header satisfies, the nonce
    discipline of an accepted body and the withdrawal indices across blocks. *)
From S2P Require Import Prelude Bytes PoolTypes PoolInner Primitives ChainSpec Consensus.

(** ** Decomposing sequences of checks *)

Lemma ensure_bind {E A} (b : bool) (e : E) (k : outcome E A) (r : A) :
  (ensure b e;; k) = Ok r <-> b = true /\ k = Ok r.
Proof. destruct b; cbn; split; [done|tauto|done|by intros []]. Qed.

Lemma ensure_Ok {E} (b : bool) (e : E) u : ensure b e = Ok u <-> b = true.
Proof. destruct u, b; cbn; done. Qed.

Lemma bind_Ok {E A B} (m : outcome E A) (k : A -> outcome E B) r :
  (x ← m; k x) = Ok r <-> exists x, m = Ok x /\ k x = Ok r.
Proof. destruct m as [a| | |]; cbn; split; try done; [by exists a|..]; intros (x & [= <-] & ?); done. Qed.

Lemma ok_or_Ok {E A} (o : option A) (e : E) a : ok_or o e = Ok a <-> o = Some a.
Proof. destruct o; cbn; split; congruence. Qed.

Lemma lift_consensus_Ok {E A} (o : outcome ConsensusError A) a :
  lift_consensus (E := E) o = Ok a <-> o = Ok a.
Proof. destruct o; cbn; split; congruence. Qed.

Lemma lift_provider_Ok {E A} (o : outcome E A) a : lift_provider o = Ok a -> o = Ok a.
Proof. destruct o; cbn; congruence. Qed.

Lemma ensure_safe {E A} (b : bool) (e : E) (k : outcome E A) :
  (b = true -> safe k) -> safe (ensure b e;; k).
Proof. destruct b; cbn; auto. Qed.

(** ** The base fee *)

Lemma quot_le base delta target :
  0 <= base -> 0 < target -> 0 <= delta <= target -> 0 <= base * delta / target / 8 <= base / 8.
Proof.
  intros Hb Ht Hd. split; [apply Z.div_pos; [apply Z.div_pos; nia|lia]|].
  apply Z.div_le_mono; [lia|]. apply Z.div_le_upper_bound; nia.
Qed.

(** C39. EIP-1559: for a block that used at most twice its gas target, the next
    base fee exists, moves by at most one eighth of the current one (at least by
    one when it rises), rises strictly above the target, does not rise below it and
    stays the same at the target.  The only assumption on the width is that the
    largest possible next fee fits in 64 bits. *)
Theorem next_base_fee_bounds {E} gas_used gas_limit base_fee :
  2 <= gas_limit -> 0 <= gas_used <= 2 * (gas_limit / 2) -> 0 <= base_fee ->
  in_u 64 (base_fee + Z.max 1 (base_fee / 8)) ->
  exists next, calculate_next_block_base_fee (E := E) gas_used gas_limit base_fee = Ok next /\
    base_fee - base_fee / 8 <= next <= base_fee + Z.max 1 (base_fee / 8) /\
    (gas_used > gas_limit / 2 -> base_fee < next) /\
    (gas_used < gas_limit / 2 -> next <= base_fee) /\
    (gas_used = gas_limit / 2 -> next = base_fee).
Proof.
  intros Hl Hu Hb Hw. assert (Ht : 1 <= gas_limit / 2) by (apply Z.div_le_lower_bound; lia).
  assert (H8 : 0 <= base_fee / 8 <= base_fee) by (split; [apply Z.div_pos|apply Z.div_le_upper_bound]; lia).
  unfold calculate_next_block_base_fee, EIP1559_ELASTICITY_MULTIPLIER, EIP1559_BASE_FEE_MAX_CHANGE_DENOMINATOR,
    checked_quot, in_u in *. set (t := gas_limit / 2) in *.
  destruct (Z.eqb_spec gas_used t); [exists base_fee; split; [done|lia]|].
  rewrite (proj2 (Z.eqb_neq t 0)) by lia. cbn [mbind outcome_bind].
  destruct (Z.ltb_spec t gas_used).
  - pose proof (quot_le base_fee (gas_used - t) t ltac:(lia) ltac:(lia) ltac:(lia)).
    rewrite (wrap_small 64 (Z.max _ _)) by (unfold in_u; lia). rewrite wadd_small by (unfold in_u; lia).
    eexists. split; [done|]. lia.
  - pose proof (quot_le base_fee (t - gas_used) t ltac:(lia) ltac:(lia) ltac:(lia)).
    rewrite wrap_small by (unfold in_u; lia). unfold saturating_sub. zdec.
    eexists. split; [done|]. lia.
Qed.

Lemma next_base_fee_bounds_witness :
  exists next, calculate_next_block_base_fee (E := unit) 30000000 30000000 1000000000 = Ok next /\
    1000000000 - 1000000000 / 8 <= next <= 1000000000 + Z.max 1 (1000000000 / 8) /\
    (30000000 > 30000000 / 2 -> 1000000000 < next) /\
    (30000000 < 30000000 / 2 -> next <= 1000000000) /\
    (30000000 = 30000000 / 2 -> next = 1000000000).
Proof. apply next_base_fee_bounds; [lia|split; [lia|vm_compute; discriminate]|lia|split; [vm_compute; discriminate|vm_compute; reflexivity]]. Defined.

(** ** Headers *)

Definition effective_parent_limit (p c : Header) (s : ChainSpec) : Z :=
  if transitions_at_block (fork s London) (number c) then wrap 64 (h_gas_limit p * 2) else h_gas_limit p.

Lemma calculate_safe {E} used limit base :
  2 <= limit -> safe (calculate_next_block_base_fee (E := E) used limit base).
Proof.
  intros Hl. assert (1 <= limit / 2) by (apply Z.div_le_lower_bound; lia).
  unfold calculate_next_block_base_fee, checked_quot, EIP1559_ELASTICITY_MULTIPLIER.
  rewrite (proj2 (Z.eqb_neq (limit / 2) 0)) by lia. cbn. by repeat case_match.
Qed.

Lemma check_gas_limit_Ok limit child u :
  check_gas_limit limit child = Ok u -> 1024 * Z.abs (child - limit) < limit.
Proof.
  pose proof (Z.mul_div_le limit 1024 ltac:(lia)).
  unfold check_gas_limit. destruct (Z.ltb_spec limit child); intros Hc%ensure_Ok%negb_true_iff%Z.leb_gt; lia.
Qed.

Lemma check_gas_limit_safe {A} limit child (k : outcome ConsensusError A) :
  (1024 <= limit -> safe k) -> safe (check_gas_limit limit child;; k).
Proof.
  intros Hk. unfold check_gas_limit. pose proof (Z.div_lt_upper_bound limit 1024 1).
  destruct (Z.ltb_spec limit child), (Z.leb_spec 1024 limit);
    (apply ensure_safe; intros Hc%negb_true_iff%Z.leb_gt; apply Hk; lia).
Qed.

(** C30. Validation against the parent never panics: although the base fee
    computation divides by the gas target, the gas limit rule that runs before it
    rejects every child of a parent whose target is zero.  An accepted child has the
    next number (absent overflow), a timestamp that is not earlier, a gas limit
    strictly within 1/1024 of the parent's (doubled at the London block), and under
    London the expected base fee. *)
Theorem header_regarding_parent_ok parent child s :
  let p := sh_header parent in
  let c := sh_header child in
  let limit := effective_parent_limit p c s in
  safe (validate_header_regarding_parent parent child s) /\
  (validate_header_regarding_parent parent child s = Ok tt ->
     (in_u 64 (number p + 1) -> number c = number p + 1) /\
     timestamp p <= timestamp c /\
     1024 * Z.abs (h_gas_limit c - limit) < limit /\
     (active_at_block (fork s London) (number c) = true ->
      exists fee, base_fee_per_gas c = Some fee /\
        if transitions_at_block (fork s London) (number c) then fee = EIP1559_INITIAL_BASE_FEE
        else exists pfee, base_fee_per_gas p = Some pfee /\
          calculate_next_block_base_fee (E := ConsensusError) (gas_used p) (h_gas_limit p) pfee = Ok fee)).
Proof.
  intros p c limit. unfold validate_header_regarding_parent. fold p c.
  change EIP1559_ELASTICITY_MULTIPLIER with 2. fold (effective_parent_limit p c s). fold limit. split.
  - do 2 (apply ensure_safe; intros _). apply check_gas_limit_safe. intros Hl.
    destruct (active_at_block _ _); [|done]. destruct (base_fee_per_gas c); [|done]. cbn [mbind outcome_bind ok_or].
    destruct (transitions_at_block _ _) eqn:Ht; cbn [mbind outcome_bind ok_or]; [by destruct (_ =? _)|].
    destruct (base_fee_per_gas p) as [pf|]; [|done]. cbn [mbind outcome_bind ok_or].
    assert (Hs : safe (calculate_next_block_base_fee (E := ConsensusError) (gas_used p) (h_gas_limit p) pf)).
    { apply calculate_safe. unfold limit, effective_parent_limit in Hl. rewrite Ht in Hl. lia. }
    destruct (calculate_next_block_base_fee _ _ _); cbn [mbind outcome_bind safe] in *; try done. by destruct (_ =? _).
  - rewrite !ensure_bind, bind_Ok. intros (Hn & Ht & u & Hl%check_gas_limit_Ok & Hf).
    apply Z.eqb_eq in Hn. apply Z.leb_le in Ht. split_and!; [|done|lia|].
    { intros Hr. by rewrite wadd_small in Hn. }
    intros Ha. rewrite Ha, bind_Ok in Hf. destruct Hf as (fee & Hc%ok_or_Ok & Hf). exists fee. split; [done|].
    rewrite bind_Ok in Hf. destruct Hf as (ex & He & ->%ensure_Ok%Z.eqb_eq).
    destruct (transitions_at_block _ _); [by injection He|].
    rewrite bind_Ok in He. destruct He as (pf & Hp%ok_or_Ok & He). by exists pf.
Qed.

(** ** Nonces and withdrawal indices *)

(** The list is [n], [n + 1], ... on 64 bits. *)
Fixpoint consecutive (n : Z) (l : list Z) : Prop :=
  match l with [] => True | x :: l => x = n /\ consecutive (wadd 64 n 1) l end.

Definition nonces_of (s : Z) (txs : list TransactionSignedEcRecovered) : list Z :=
  (fun t => t_nonce (ts_transaction (ec_signed t))) <$> filter (fun t => signer t = s) txs.

Lemma nonces_of_cons s t txs :
  nonces_of s (t :: txs) =
  if decide (signer t = s) then t_nonce (ts_transaction (ec_signed t)) :: nonces_of s txs else nonces_of s txs.
Proof. unfold nonces_of. rewrite filter_cons. by case_decide. Qed.

(** What the rest of a body must satisfy for a sender, given the nonce table. *)
Definition sender_ok {E} (provider : Provider E) (m : gmap Z Z) (txs : list TransactionSignedEcRecovered) (s : Z) : Prop :=
  match m !! s with
  | Some n => consecutive n (nonces_of s txs)
  | None =>
      nonces_of s txs = [] \/
      exists a, basic_account provider s = Ok a /\ has_bytecode (default default_account a) = false /\
        consecutive (acc_nonce (default default_account a)) (nonces_of s txs)
  end.

Definition tx_ok (header : Header) (chain_spec : ChainSpec) (t : TransactionSignedEcRecovered) : Prop :=
  validate_transaction_regarding_header (ts_transaction (ec_signed t)) chain_spec (number header)
    (base_fee_per_gas header) = Ok tt.

Lemma expect_nonce_Ok {E} (provider : Provider E) m t txs :
  (exists r, expect_nonce provider m (signer t) = Ok r /\
     t_nonce (ts_transaction (ec_signed t)) = r.1 /\ forall s, sender_ok provider r.2 txs s) <->
  (forall s, sender_ok provider m (t :: txs) s).
Proof.
  unfold expect_nonce. set (s0 := signer t). set (n0 := t_nonce _).
  assert (Hc : forall n, sender_ok provider (<[s0 := wadd 64 n 1]> m) txs s0 <->
                consecutive (wadd 64 n 1) (nonces_of s0 txs)).
  { intros n. unfold sender_ok. by rewrite lookup_insert_eq. }
  assert (Hne : forall n s, s0 <> s ->
     (sender_ok provider (<[s0 := n]> m) txs s <-> sender_ok provider m (t :: txs) s)).
  { intros n s Hs. unfold sender_ok. rewrite lookup_insert_ne, nonces_of_cons by done. by case_decide. }
  assert (Heq : nonces_of s0 (t :: txs) = n0 :: nonces_of s0 txs).
  { rewrite nonces_of_cons. by case_decide. }
  assert (Hall : forall n P, (P <-> n0 = n /\ sender_ok provider (<[s0 := wadd 64 n 1]> m) txs s0) ->
     (forall s, s = s0 -> (sender_ok provider m (t :: txs) s <-> P)) ->
     (n0 = n /\ (forall s, sender_ok provider (<[s0 := wadd 64 n 1]> m) txs s) <->
      forall s, sender_ok provider m (t :: txs) s)).
  { intros n P HP Hs. split.
    - intros [H1 H2] s. destruct (decide (s0 = s)) as [<-|]; [apply Hs, HP; auto|by apply (Hne (wadd 64 n 1))].
    - intros H. assert (P) as [? ?]%HP by (apply (Hs s0); auto). split; [done|].
      intros s. destruct (decide (s0 = s)) as [<-|]; [done|by apply Hne]. }
  destruct (m !! s0) as [n|] eqn:Em.
  - rewrite <- (Hall n (n0 = n /\ consecutive (wadd 64 n 1) (nonces_of s0 txs))).
    + split; [intros (r & [= <-] & ?)|intros ?; eexists; split; [done|]]; done.
    + by rewrite Hc.
    + intros s ->. unfold sender_ok. by rewrite Em, Heq.
  - destruct (basic_account provider s0) as [a| | |] eqn:Ea; cbn.
    2-4: split; [by intros (r & ? & _)|]; intros H; specialize (H s0); unfold sender_ok in H;
      rewrite Em, Heq in H; destruct H as [?|(a & ? & _)]; congruence.
    destruct (has_bytecode (default default_account a)) eqn:Eb.
    { split; [by intros (r & ? & _)|]. intros H; specialize (H s0); unfold sender_ok in H.
      rewrite Em, Heq in H; destruct H as [?|(a' & ? & ? & _)]; congruence. }
    set (n := acc_nonce (default default_account a)).
    rewrite <- (Hall n (n0 = n /\ consecutive (wadd 64 n 1) (nonces_of s0 txs))).
    + split; [intros (r & [= <-] & ?)|intros ?; eexists; split; [done|]]; done.
    + by rewrite Hc.
    + intros s ->. unfold sender_ok. rewrite Em, Heq. split.
      * intros [?|(a' & Ha' & _ & ?)]; [done|]. rewrite Ea in Ha'. by injection Ha' as <-.
      * intros ?. right. by exists a.
Qed.

Lemma validate_nonces_Ok {E} (provider : Provider E) header chain_spec txs m :
  validate_nonces m txs header provider chain_spec = Ok tt <->
  Forall (tx_ok header chain_spec) txs /\ forall s, sender_ok provider m txs s.
Proof.
  revert m. induction txs as [|t txs IH]; intros m; cbn.
  - split; [intros _; split; [constructor|]|done]. intros s. unfold sender_ok. cbn. case_match; [done|by left].
  - rewrite Forall_cons, <- expect_nonce_Ok, bind_Ok. unfold tx_ok at 1. split.
    + intros ([] & Ht%lift_consensus_Ok & H). apply bind_Ok in H as ([n m'] & He & [Hn%Z.eqb_eq Hr]%ensure_bind).
      apply IH in Hr as [Hf Hs]. split; [done|]. by exists (n, m').
    + intros [[Ht Hf] ([n m'] & He & Hn & Hs)]. exists tt. split; [by apply lift_consensus_Ok|].
      apply bind_Ok. exists (n, m'). split; [done|]. apply ensure_bind. split; [by apply Z.eqb_eq|].
      by apply IH.
Qed.

(** C29. The transactions of a block are accepted exactly when each is valid
    against the header and, for every sender that occurs, the provider returns an
    account without bytecode and the sender's nonces are the account's nonce and its
    successors, in the order of the block. *)
Theorem block_nonces_consecutive {E} (provider : Provider E) header chain_spec txs :
  validate_all_transaction_regarding_block_and_nonces txs header provider chain_spec = Ok tt <->
  Forall (fun t => validate_transaction_regarding_header (ts_transaction (ec_signed t)) chain_spec
                     (number header) (base_fee_per_gas header) = Ok tt) txs /\
  forall s, nonces_of s txs <> [] ->
    exists a, basic_account provider s = Ok a /\ has_bytecode (default default_account a) = false /\
      consecutive (acc_nonce (default default_account a)) (nonces_of s txs).
Proof.
  unfold validate_all_transaction_regarding_block_and_nonces. rewrite validate_nonces_Ok.
  unfold sender_ok, tx_ok. split; intros [Hf Hs]; (split; [done|]); intros s; specialize (Hs s);
    rewrite lookup_empty in *.
  - intros Hne. by destruct Hs as [?|].
  - destruct (nonces_of s txs); [by left|right; by apply Hs].
Qed.

Lemma check_indices_Ok prev ws u : check_indices prev ws = Ok u -> consecutive (wadd 64 prev 1) (w_index <$> ws).
Proof.
  revert prev. induction ws as [|w ws IH]; intros prev; cbn; [done|].
  rewrite ensure_bind. intros [<-%Z.eqb_eq Hr]. split; [done|]. by apply IH.
Qed.

(** A block that passes full validation is unknown, extends a known parent
    with the next number, and under Shanghai its withdrawal indices continue those of
    the chain without a gap: they start one after the provider's latest withdrawal
    (at 0 if there is none) and increase by one. *)
Theorem full_validation_ok {E} ommers_root tx_root w_root recover now block (provider : Provider E) s :
  full_validation ommers_root tx_root w_root recover now block provider s = Ok tt ->
  let h := sh_header (sb_header block) in
  is_known provider (sh_hash (sb_header block)) = Ok false /\
  (exists p, header_by_hash provider (parent_hash h) = Ok (Some p) /\ wadd 64 (number p) 1 = number h) /\
  (active_at_timestamp (fork s Shanghai) (timestamp h) = true ->
   exists ws, withdrawals block = Some ws /\ withdrawals_root h = Some (w_root ws) /\
     (ws <> [] -> exists latest, latest_withdrawal provider = Ok latest /\
        consecutive (match latest with Some w => wadd 64 (w_index w) 1 | None => 0 end) (w_index <$> ws))).
Proof.
  unfold full_validation. rewrite bind_Ok. intros (u0 & _ & Hf). apply bind_Ok in Hf as (u1 & Hb%lift_consensus_Ok & Hf).
  apply bind_Ok in Hf as (parent & Hc & Hf). apply bind_Ok in Hf as (u2 & Hp%lift_consensus_Ok & _). cbn zeta.
  unfold validate_block_regarding_chain in Hc. apply bind_Ok in Hc as ([] & Hk%lift_provider_Ok & Hc); [done|].
  apply bind_Ok in Hc as (op & Hh%lift_provider_Ok & Hc). apply bind_Ok in Hc as (p & ->%ok_or_Ok & Hc).
  apply bind_Ok in Hc as ([] & Hw & [= <-]).
  unfold validate_header_regarding_parent in Hp. apply ensure_bind in Hp as [Hn%Z.eqb_eq _]. cbn in Hn.
  split_and!; [done|by exists p|]. intros Hsh.
  unfold validate_block_standalone in Hb. apply ensure_bind in Hb as [_ Hb]. apply ensure_bind in Hb as [_ Hb].
  rewrite Hsh in Hb. apply bind_Ok in Hb as (ws & Hws%ok_or_Ok & Hb). apply bind_Ok in Hb as (r & Hr%ok_or_Ok & Hb).
  apply ensure_bind in Hb as [<-%Z.eqb_eq Hb]. exists ws. split_and!; [done|done|]. intros Hne.
  destruct ws as [|w ws]; [done|]. rewrite Hws in Hw. apply bind_Ok in Hw as (latest & Hl%lift_provider_Ok & Hw).
  apply ensure_Ok, Z.eqb_eq in Hw. exists latest. split; [done|]. cbn. split; [done|]. rewrite Hw.
  by eapply check_indices_Ok.
Qed.

(** Under Spurious Dragon no block with a replay-protected legacy transaction
    is accepted: one legacy transaction that carries a chain id, anywhere in the body
    and whatever its nonce and fees, makes the body invalid, although EIP-155 replay
    protection is what introduced the chain id. *)
Theorem legacy_chain_id_rejected {E} (provider : Provider E) header chain_spec txs t x :
  active_at_block (fork chain_spec SpuriousDragon) (number header) = true ->
  t ∈ txs -> ts_transaction (ec_signed t) = TLegacy x -> is_Some (lg_chain_id x) ->
  validate_all_transaction_regarding_block_and_nonces txs header provider chain_spec <> Ok tt.
Proof.
  intros Ha Ht Hx Hc [Hf _]%validate_nonces_Ok. rewrite Forall_forall in Hf. specialize (Hf t Ht).
  unfold tx_ok in Hf. rewrite Hx in Hf. cbn in Hf. rewrite Ha, bool_decide_true in Hf by done. done.
Qed.

(** ** Witnesses *)

Definition sample_header (n ts limit used fee : Z) (wroot : option Z) : Header :=
  mkHeader 1 2 3 4 5 6 wroot 7 0 n limit used ts 8 0 (Some fee) [].
Definition sepolia_spec : ChainSpec := mkChainSpec 11155111 None SEPOLIA_hardforks.
Definition sample_parent : SealedHeader :=
  mkSealedHeader (sample_header 100 1700000000 30000000 15000000 1000 None) 1.
Definition sample_child : SealedHeader :=
  mkSealedHeader (sample_header 101 1700000012 30000100 0 1000 (Some 9)) 10.

Lemma header_regarding_parent_ok_witness :
  safe (validate_header_regarding_parent sample_parent sample_child sepolia_spec) /\
  1024 * Z.abs (30000100 - 30000000) < 30000000.
Proof.
  destruct (header_regarding_parent_ok sample_parent sample_child sepolia_spec) as [Hs Hok].
  split; [exact Hs|]. destruct Hok as (_ & _ & Hl & _); [vm_compute; reflexivity|exact Hl].
Defined.

Definition sample_withdrawals : list Withdrawal := [mkWithdrawal 42 0 0 1; mkWithdrawal 43 0 0 1].
Definition sample_block : SealedBlock := mkSealedBlock sample_child [] [] (Some sample_withdrawals).
Definition sample_provider : Provider unit :=
  mkProvider unit (fun _ => Ok false) (fun _ => Ok (Some (sh_header sample_parent)))
    (Ok (Some (mkWithdrawal 41 0 0 1))) (fun _ => Ok None).

Lemma full_validation_ok_witness :
  is_known sample_provider 10 = Ok false /\
  (exists p, header_by_hash sample_provider 1 = Ok (Some p) /\ wadd 64 (number p) 1 = 101) /\
  exists ws, withdrawals sample_block = Some ws.
Proof.
  destruct (full_validation_ok (fun _ => 2) (fun _ => 5) (fun _ => 9) (fun _ => None) 1800000000
    sample_block sample_provider sepolia_spec) as (H1 & H2 & H3); [vm_compute; reflexivity|].
  split; [exact H1|]. split; [exact H2|]. destruct H3 as (ws & Hws & _); [vm_compute; reflexivity|]. by exists ws.
Defined.

Definition sample_legacy : TransactionSignedEcRecovered :=
  mkEcRecovered 7 (mkTransactionSigned 1 (mkSignature 0 0 false)
    (TLegacy (mkTxLegacy (Some 11155111) 0 1 21000 Create 0 []))).

Lemma legacy_chain_id_rejected_witness :
  validate_all_transaction_regarding_block_and_nonces [sample_legacy] (sh_header sample_child) sample_provider sepolia_spec
  <> Ok tt.
Proof.
  eapply (legacy_chain_id_rejected _ _ _ _ sample_legacy); [vm_compute; reflexivity|apply list_elem_of_here|reflexivity|by eexists].
Defined.
