(* ===== verification/SubState.v ===== *)
(** * Execution results and the substate of side chains

    crates/storage/provider/src/execution_result.rs and
    crates/executor/src/substate.rs: the change sets that block execution
    returns, their application to the database tables, and the in-memory substate
    that side chains apply them to and revert them from. *)
From S2P Require Import Prelude Bytes BTree PoolInner Primitives.

#[global] Instance Account_eq_dec : EqDecision Account.
Proof. solve_decision. Defined.
#[global] Instance Account_countable : Countable Account.
Proof.
  apply (inj_countable' (fun a => (acc_nonce a, acc_balance a, bytecode_hash a))
                        (fun '(n, b, h) => mkAccount n b h)). by intros [].
Defined.

(** keccak256 of the empty string *)
Definition KECCAK_EMPTY : Z := 0xc5d2460186f7233c927e7db2dcc703c0e500b653ca82273b7bfad8045d85a470.

Definition account_is_empty (a : Account) : bool :=
  (acc_nonce a =? 0) && (acc_balance a =? 0) &&
  match bytecode_hash a with None => true | Some h => h =? KECCAK_EMPTY end.

(** ** execution_result.rs *)

Inductive AccountInfoChangeSet :=
| Created (new : Account)
| Destroyed (old : Account)
| Changed (new old : Account)
| NoChange (is_empty : bool).

Definition AccountInfoChangeSet_new (old new : option Account) : AccountInfoChangeSet :=
  match old, new with
  | Some old, Some new => if decide (new = old) then NoChange true else Changed new old
  | None, Some new => Created new
  | Some old, None => Destroyed old
  | None, None => NoChange false
  end.

Record AccountChangeSet := mkAccountChangeSet {
  account : AccountInfoChangeSet;
  acs_storage : gmap Z (Z * Z);
  wipe_storage : bool
}.

Inductive TxType := TxLegacyType | TxEIP2930Type | TxEIP1559Type.

Record Log := mkLog { log_address : Z; topics : list Z; data : bytes }.

Record Receipt := mkReceipt {
  r_tx_type : TxType; success : bool; cumulative_gas_used : Z; bloom : Z; logs : list Log
}.

Record TransactionChangeSet := mkTransactionChangeSet {
  receipt : Receipt;
  changeset : gmap Z AccountChangeSet;
  new_bytecodes : gmap Z bytes
}.

Record ExecutionResult := mkExecutionResult {
  tx_changesets : list TransactionChangeSet;
  block_changesets : gmap Z AccountInfoChangeSet
}.

(** The two tables [apply_to_db] writes: plain accounts, and the account change
    sets, a table whose values for one key are a set. *)
Record AccountTables := mkAccountTables {
  PlainAccountState : gmap Z Account;
  AccountChangeSetTable : gset (Z * (Z * option Account))
}.

Definition apply_to_db (c : AccountInfoChangeSet) (address tx_index : Z) (has_state_clear_eip : bool)
    (t : AccountTables) : AccountTables :=
  match c with
  | Changed new old =>
      mkAccountTables (<[address := new]> (PlainAccountState t))
        ({[(tx_index, (address, Some old))]} ∪ AccountChangeSetTable t)
  | Created new =>
      if has_state_clear_eip && account_is_empty new then t
      else mkAccountTables (<[address := new]> (PlainAccountState t))
             ({[(tx_index, (address, None))]} ∪ AccountChangeSetTable t)
  | Destroyed old =>
      mkAccountTables (delete address (PlainAccountState t))
        ({[(tx_index, (address, Some old))]} ∪ AccountChangeSetTable t)
  | NoChange is_empty =>
      if has_state_clear_eip && is_empty
      then mkAccountTables (delete address (PlainAccountState t)) (AccountChangeSetTable t)
      else t
  end.

(** ** substate.rs *)

Record AccountSubState := mkAccountSubState {
  info : Account;
  storage_is_clear : option Z;
  sub_storage : gmap Z Z
}.

Definition empty_account : Account := mkAccount 0 0 None.
Definition default_substate : AccountSubState := mkAccountSubState empty_account None ∅.

Definition inc_storage_counter (a : AccountSubState) : AccountSubState :=
  mkAccountSubState (info a) (Some (wadd 32 (default 0 (storage_is_clear a)) 1)) (sub_storage a).

Definition decr_storage_counter (a : AccountSubState) : bool * AccountSubState :=
  match storage_is_clear a with
  | None => (false, a)
  | Some cnt => if cnt =? 1 then (true, mkAccountSubState (info a) None (sub_storage a)) else (false, a)
  end.

Definition created_account (i : Account) : AccountSubState := mkAccountSubState i (Some 1) ∅.

Definition ask_provider (a : AccountSubState) : bool := bool_decide (storage_is_clear a = None).

Definition set_info (i : Account) (a : AccountSubState) : AccountSubState :=
  mkAccountSubState i (storage_is_clear a) (sub_storage a).
Definition clear_storage (a : AccountSubState) : AccountSubState :=
  mkAccountSubState (info a) (storage_is_clear a) ∅.

Record SubStateData := mkSubStateData {
  accounts : gmap Z AccountSubState;
  bytecodes : gmap Z (Z * bytes)
}.

Definition empty_substate : SubStateData := mkSubStateData ∅ ∅.

(** [entry(address).or_default()] *)
Definition or_default (m : gmap Z AccountSubState) (address : Z) : AccountSubState :=
  default default_substate (m !! address).

Definition apply_account (address : Z) (change : AccountInfoChangeSet) (m : gmap Z AccountSubState)
    : gmap Z AccountSubState :=
  match change with
  | Created new =>
      match m !! address with
      | None => <[address := created_account new]> m
      | Some a => <[address := set_info new (inc_storage_counter a)]> m
      end
  | Destroyed _ =>
      <[address := clear_storage (set_info empty_account (inc_storage_counter (or_default m address)))]> m
  | Changed _ old => <[address := set_info old (or_default m address)]> m
  | NoChange is_empty => if (is_empty : bool) then <[address := or_default m address]> m else m
  end.

(** The insertion loops of [apply_storage] and [revert_storage]. *)
Definition insert_slots (slots : list (Z * Z)) (m : gmap Z Z) : gmap Z Z :=
  foldl (fun m kv => <[kv.1 := kv.2]> m) m slots.

Definition put_storage (pick : Z * Z -> Z) (address : Z) (storage : gmap Z (Z * Z)) (m : gmap Z AccountSubState)
    : gmap Z AccountSubState :=
  match m !! address with
  | None => m
  | Some a =>
      <[address := mkAccountSubState (info a) (storage_is_clear a)
          (insert_slots ((fun kv => (kv.1, pick kv.2)) <$> entries Z.le storage) (sub_storage a))]> m
  end.

Definition apply_storage := put_storage snd.
Definition revert_storage := put_storage fst.

Definition apply_bytecode (m : gmap Z (Z * bytes)) (e : Z * bytes) : gmap Z (Z * bytes) :=
  let '(cnt, b) := default (0, e.2) (m !! e.1) in <[e.1 := (wadd 32 cnt 1, b)]> m.

Definition apply_tx (s : SubStateData) (tx : TransactionChangeSet) : SubStateData :=
  mkSubStateData
    (foldl (fun m e => apply_storage e.1 (acs_storage e.2) (apply_account e.1 (account e.2) m))
       (accounts s) (entries Z.le (changeset tx)))
    (foldl apply_bytecode (bytecodes s) (entries Z.le (new_bytecodes tx))).

Definition apply_one (s : SubStateData) (cs : ExecutionResult) : SubStateData :=
  let s := foldl apply_tx s (tx_changesets cs) in
  mkSubStateData (foldl (fun m e => apply_account e.1 e.2 m) (accounts s) (entries Z.le (block_changesets cs)))
    (bytecodes s).

Definition apply_changesets (s : SubStateData) (css : list ExecutionResult) : SubStateData := foldl apply_one s css.

(** [revert_account]; [None] is one of its panics. *)
Definition revert_account (address : Z) (change : AccountInfoChangeSet) (m : gmap Z AccountSubState)
    : option (gmap Z AccountSubState) :=
  match change with
  | Created _ =>
      a ← m !! address;
      let '(gone, a) := decr_storage_counter a in
      if (gone : bool) then Some (delete address m)
      else Some (<[address := clear_storage (set_info empty_account a)]> m)
  | Destroyed old =>
      a ← m !! address;
      Some (<[address := set_info old (decr_storage_counter a).2]> m)
  | Changed _ old => Some (<[address := set_info old (or_default m address)]> m)
  | NoChange _ => Some m
  end.

Definition revert_bytecode (m : gmap Z (Z * bytes)) (h : Z) : option (gmap Z (Z * bytes)) :=
  '(cnt, b) ← m !! h;
  let cnt := wrap 32 (cnt - 1) in
  Some (if cnt =? 0 then delete h m else <[h := (cnt, b)]> m).

(** Left folds that may panic. *)
Fixpoint foldM {A S} (f : S -> A -> option S) (l : list A) (s : S) : option S :=
  match l with [] => Some s | x :: l => s' ← f s x; foldM f l s' end.

Definition revert_tx (s : SubStateData) (tx : TransactionChangeSet) : option SubStateData :=
  bs ← foldM revert_bytecode (entries Z.le (new_bytecodes tx)).*1 (bytecodes s);
  m ← foldM (fun m e => m' ← revert_account e.1 (account e.2) m; Some (revert_storage e.1 (acs_storage e.2) m'))
        (entries Z.le (changeset tx)) (accounts s);
  Some (mkSubStateData m bs).

Definition revert_one (s : SubStateData) (cs : ExecutionResult) : option SubStateData :=
  m ← foldM (fun m e => revert_account e.1 e.2 m) (entries Z.le (block_changesets cs)) (accounts s);
  foldM revert_tx (tx_changesets cs) (mkSubStateData m (bytecodes s)).

Definition revert (s : SubStateData) (css : list ExecutionResult) : option SubStateData :=
  foldM revert_one (reverse css) s.

(** ** [SubStateWithProvider] *)

Section WithProvider.
Context {E : Type} (substate : SubStateData) (tree_block_hash : Z -> E)
        (provider_account : Z -> outcome E (option Account))
        (provider_storage : Z -> Z -> outcome E (option Z))
        (provider_bytecode : Z -> outcome E (option bytes))
        (sidechain_block_hashes canonical_block_hashes : gmap Z Z).

(** [number] is a [U256]; its lowest limb is used. *)
Definition sp_block_hash (number : Z) : outcome E (option Z) :=
  let block_number := wrap 64 number in
  match sidechain_block_hashes !! block_number with
  | Some h => Ok (Some h)
  | None =>
      match canonical_block_hashes !! block_number with
      | Some h => Ok (Some h)
      | None => Err (tree_block_hash block_number)
      end
  end.

Definition sp_basic_account (address : Z) : outcome E (option Account) :=
  match accounts substate !! address with
  | Some a => Ok (Some (info a))
  | None => provider_account address
  end.

Definition sp_storage (address key : Z) : outcome E (option Z) :=
  match accounts substate !! address with
  | Some a =>
      match sub_storage a !! key with
      | Some v => Ok (Some v)
      | None => if negb (ask_provider a) then Ok (Some 0) else provider_storage address key
      end
  | None => provider_storage address key
  end.

Definition sp_bytecode_by_hash (code_hash : Z) : outcome E (option bytes) :=
  match bytecodes substate !! code_hash with
  | Some (_, b) => Ok (Some b)
  | None => provider_bytecode code_hash
  end.
End WithProvider.
