(* ===== verification/PrimitivesRlp.v ===== *)
(** * RLP of transactions, receipts, headers and blocks

    crates/primitives/src: transaction/mod.rs, transaction/signature.rs,
    transaction/access_list.rs, receipt.rs, log.rs, withdrawal.rs, header.rs,
    block.rs.  Derived codecs are built with [struct_codec]/[derive_codec]; the
    hand-written ones are translated statement by statement.  [keccak256] is a
    parameter: no theorem here needs a property of it. *)
From S2P Require Import Prelude Bytes Rlp RlpDerive Primitives SubState.

Declare Scope rlp_scope.
Infix "⊗" := fields_codec (at level 55, right associativity) : rlp_scope.
Open Scope rlp_scope.

Abbreviation u8_codec := (uint_codec 1).
Abbreviation u32_codec := (uint_codec 4).
Abbreviation u64_codec := (uint_codec 8).
Abbreviation u128_codec := (uint_codec 16).
Abbreviation U256_codec := (fixed_uint_codec 32).
Abbreviation H64_codec := (hash_codec 8).
Abbreviation address_codec := (hash_codec 20).
Abbreviation H256_codec := (hash_codec 32).
Abbreviation bloom_codec := (hash_codec 256).

(** ** Derived structs *)

Definition withdrawal_codec : Codec Withdrawal :=
  struct_codec (u64_codec ⊗ u64_codec ⊗ address_codec ⊗ u64_codec)
    (fun '(i, (v, (a, m))) => mkWithdrawal i v a m)
    (fun w => (w_index w, (validator_index w, (w_address w, amount w)))).

Definition log_codec : Codec Log :=
  struct_codec (address_codec ⊗ vec_codec H256_codec ⊗ bytes_codec)
    (fun '(a, (t, d)) => mkLog a t d)
    (fun l => (log_address l, (topics l, data l))).

Definition access_list_item_codec : Codec AccessListItem :=
  struct_codec (address_codec ⊗ vec_codec H256_codec)
    (fun '(a, k) => mkAccessListItem a k)
    (fun i => (ali_address i, storage_keys i)).

(** [AccessList], a wrapper of the list. *)
Definition access_list_codec : Codec (list AccessListItem) := vec_codec access_list_item_codec.

(** ** [TransactionKind] *)

Definition kind_encode (k : TransactionKind) (out : bytes) : bytes :=
  match k with
  | Call to => encode address_codec to out
  | Create => put_u8 EMPTY_STRING_CODE out
  end.

Definition kind_length (k : TransactionKind) : Z :=
  match k with Call to => encoded_length address_codec to | Create => 1 end.

Definition kind_decode : dec TransactionKind :=
  buf ← st_get;
  match buf with
  | first :: _ =>
      if first =? EMPTY_STRING_CODE then buf_advance 1;; mret Create
      else addr ← decode address_codec; mret (Call addr)
  | [] => st_throw InputTooShort
  end.

Definition kind_codec : Codec TransactionKind := mkCodec kind_encode kind_length kind_decode.

(** ** [Signature] *)

Definition parity_u64 (s : Signature) : Z := if odd_y_parity s then 1 else 0.

Definition sig_v (s : Signature) (chain_id : option Z) : Z :=
  match chain_id with
  | Some chain_id => wadd 64 (wadd 64 (parity_u64 s) (wrap 64 (chain_id * 2))) 35
  | None => parity_u64 s + 27
  end.

Definition payload_len_with_eip155_chain_id (s : Signature) (chain_id : option Z) : Z :=
  wadd 64 (wadd 64 (encoded_length u64_codec (sig_v s chain_id)) (encoded_length U256_codec (sig_r s)))
       (encoded_length U256_codec (sig_s s)).

Definition encode_with_eip155_chain_id (s : Signature) (out : bytes) (chain_id : option Z) : bytes :=
  let out := encode u64_codec (sig_v s chain_id) out in
  let out := encode U256_codec (sig_r s) out in
  encode U256_codec (sig_s s) out.

Definition decode_with_eip155_chain_id : dec (Signature * option Z) :=
  v ← decode u64_codec;
  r ← decode U256_codec;
  s ← decode U256_codec;
  if 35 <=? v then
    let odd_y_parity := negb ((v - 35) mod 2 =? 0) in
    let chain_id := Z.shiftr (v - 35) 1 in
    mret (mkSignature r s odd_y_parity, Some chain_id)
  else
    let odd_y_parity := negb (wrap 64 (v - 27) =? 0) in
    mret (mkSignature r s odd_y_parity, None).

Definition sig_payload_len (s : Signature) : Z :=
  wadd 64 (wadd 64 (encoded_length bool_codec (odd_y_parity s)) (encoded_length U256_codec (sig_r s)))
       (encoded_length U256_codec (sig_s s)).

Definition sig_encode (s : Signature) (out : bytes) : bytes :=
  let out := encode bool_codec (odd_y_parity s) out in
  let out := encode U256_codec (sig_r s) out in
  encode U256_codec (sig_s s) out.

Definition sig_decode : dec Signature :=
  odd_y_parity ← decode bool_codec;
  r ← decode U256_codec;
  s ← decode U256_codec;
  mret (mkSignature r s odd_y_parity).

(** ** [Transaction]: the fields in the order [encode_fields] writes them *)

Definition legacy_fields := u64_codec ⊗ u128_codec ⊗ u64_codec ⊗ kind_codec ⊗ u128_codec ⊗ bytes_codec.
Definition eip2930_fields :=
  u64_codec ⊗ u64_codec ⊗ u128_codec ⊗ u64_codec ⊗ kind_codec ⊗ u128_codec ⊗ bytes_codec ⊗ access_list_codec.
Definition eip1559_fields :=
  u64_codec ⊗ u64_codec ⊗ u128_codec ⊗ u128_codec ⊗ u64_codec ⊗ kind_codec ⊗ u128_codec ⊗ bytes_codec
    ⊗ access_list_codec.

Abbreviation legacy_tuple x :=
  (lg_nonce x, (lg_gas_price x, (lg_gas_limit x, (lg_to x, (lg_value x, lg_input x))))).
Abbreviation eip2930_tuple x :=
  (al_chain_id x, (al_nonce x, (al_gas_price x, (al_gas_limit x, (al_to x, (al_value x,
    (al_input x, al_access_list x))))))).
Abbreviation eip1559_tuple x :=
  (df_chain_id x, (df_nonce x, (df_max_priority_fee_per_gas x, (df_max_fee_per_gas x, (df_gas_limit x,
    (df_to x, (df_value x, (df_input x, df_access_list x)))))))).

Definition fields_len (t : Transaction) : Z :=
  match t with
  | TLegacy x => encoded_length legacy_fields (legacy_tuple x)
  | TEip2930 x => encoded_length eip2930_fields (eip2930_tuple x)
  | TEip1559 x => encoded_length eip1559_fields (eip1559_tuple x)
  end.

Definition encode_fields (t : Transaction) (out : bytes) : bytes :=
  match t with
  | TLegacy x => encode legacy_fields (legacy_tuple x) out
  | TEip2930 x => encode eip2930_fields (eip2930_tuple x) out
  | TEip1559 x => encode eip1559_fields (eip1559_tuple x) out
  end.

Definition encode_eip155_fields (t : Transaction) (out : bytes) : bytes :=
  match t with
  | TLegacy (mkTxLegacy (Some id) _ _ _ _ _ _) =>
      encode u8_codec 0 (encode u8_codec 0 (encode u64_codec id out))
  | _ => out
  end.

Definition eip155_fields_len (t : Transaction) : Z :=
  match t with
  | TLegacy (mkTxLegacy (Some id) _ _ _ _ _ _) => wadd 64 (encoded_length u64_codec id) 2
  | _ => 0
  end.

(** [tx_type() as u8] *)
Definition tx_type_byte (t : Transaction) : Z :=
  match t with TLegacy _ => 0 | TEip2930 _ => 1 | TEip1559 _ => 2 end.

Abbreviation list_header p := (Rlp.mkHeader true p).
Abbreviation string_header p := (Rlp.mkHeader false p).

(** [impl Encodable for Transaction]: what is signed. *)
Definition tx_encode (t : Transaction) (out : bytes) : bytes :=
  match t with
  | TLegacy _ =>
      let out := Header_encode (list_header (wadd 64 (fields_len t) (eip155_fields_len t))) out in
      encode_eip155_fields t (encode_fields t out)
  | _ =>
      let out := put_u8 (tx_type_byte t) out in
      let out := Header_encode (list_header (fields_len t)) out in
      encode_fields t out
  end.

Definition tx_length (t : Transaction) : Z :=
  match t with
  | TLegacy _ =>
      let payload_length := wadd 64 (fields_len t) (eip155_fields_len t) in
      wadd 64 (length_of_length payload_length) payload_length
  | _ =>
      let payload_length := fields_len t in
      wadd 64 (wadd 64 1 (length_of_length payload_length)) payload_length
  end.

(** ** [TransactionSigned] *)

Definition encode_inner (t : TransactionSigned) (out : bytes) (with_header : bool) : bytes :=
  let tx := ts_transaction t in
  match tx with
  | TLegacy x =>
      let payload_length :=
        wadd 64 (fields_len tx) (payload_len_with_eip155_chain_id (signature t) (lg_chain_id x)) in
      let out := Header_encode (list_header payload_length) out in
      let out := encode_fields tx out in
      encode_with_eip155_chain_id (signature t) out (lg_chain_id x)
  | _ =>
      let payload_length := wadd 64 (fields_len tx) (sig_payload_len (signature t)) in
      let out :=
        if with_header then
          Header_encode (string_header (wadd 64 (wadd 64 1 (length_of_length payload_length)) payload_length)) out
        else out in
      let out := put_u8 (tx_type_byte tx) out in
      let out := Header_encode (list_header payload_length) out in
      let out := encode_fields tx out in
      sig_encode (signature t) out
  end.

Definition payload_len_inner (t : TransactionSigned) : Z :=
  let tx := ts_transaction t in
  match tx with
  | TLegacy x =>
      let payload_length :=
        wadd 64 (fields_len tx) (payload_len_with_eip155_chain_id (signature t) (lg_chain_id x)) in
      wadd 64 (length_of_length payload_length) payload_length
  | _ =>
      let payload_length := wadd 64 (fields_len tx) (sig_payload_len (signature t)) in
      let len := wadd 64 (wadd 64 1 (length_of_length payload_length)) payload_length in
      wadd 64 (length_of_length len) len
  end.

(** [&data[..n]], which panics past the end. *)
Definition slice_to (n : Z) (data : bytes) : outcome DecodeError bytes :=
  if n <=? zlen data then Ok (take (Z.to_nat n) data) else Panic.

Abbreviation receipt_tuple r := (success r, (cumulative_gas_used r, (bloom r, logs r))).

Abbreviation header_tuple h :=
  (parent_hash h, (ommers_hash h, (beneficiary h, (state_root h, (transactions_root h, (receipts_root h,
    (logs_bloom h, (difficulty h, (number h, (h_gas_limit h, (gas_used h, (timestamp h, (extra_data h,
      (mix_hash h, h_nonce h)))))))))))))).

Section Keccak.
Context (keccak256 : bytes -> Z).

Definition recalculate_hash (t : TransactionSigned) : Z := keccak256 (encode_inner t [] false).

Definition from_transaction_and_signature (tx : Transaction) (s : Signature) : TransactionSigned :=
  let initial_tx := mkTransactionSigned 0 s tx in
  mkTransactionSigned (recalculate_hash initial_tx) s tx.

Definition decode_rlp_legacy_transaction : dec TransactionSigned :=
  original_encoding ← st_get;
  header ← Header_decode;
  '(nonce, (gas_price, (gas_limit, (to, (value, input))))) ← decode legacy_fields;
  let transaction := TLegacy (mkTxLegacy None nonce gas_price gas_limit to value input) in
  '(signature, extracted_id) ← decode_with_eip155_chain_id;
  let transaction :=
    match extracted_id with Some id => set_chain_id id transaction | None => transaction end in
  let tx_length := wadd 64 (payload_length header) (Header_length header) in
  encoded ← st_lift (slice_to tx_length original_encoding);
  mret (mkTransactionSigned (keccak256 encoded) signature transaction).

(** The fields of a typed transaction, by its type byte. *)
Definition decode_typed_fields (tx_type : Z) : dec Transaction :=
  if tx_type =? 1 then
    '(chain_id, (nonce, (gas_price, (gas_limit, (to, (value, (input, access_list))))))) ← decode eip2930_fields;
    mret (TEip2930 (mkTxEip2930 chain_id nonce gas_price gas_limit to value access_list input))
  else if tx_type =? 2 then
    '(chain_id, (nonce, (max_priority_fee_per_gas, (max_fee_per_gas, (gas_limit, (to, (value,
        (input, access_list)))))))) ← decode eip1559_fields;
    mret (TEip1559 (mkTxEip1559 chain_id nonce gas_limit max_fee_per_gas max_priority_fee_per_gas
                      to value access_list input))
  else st_throw (Custom "unsupported typed transaction type").

Definition decode_enveloped_typed_transaction : dec TransactionSigned :=
  original_encoding ← st_get;
  match original_encoding with
  | [] => st_throw InputTooShort
  | tx_type :: _ =>
      buf_advance 1;;
      header ← Header_decode;
      if negb (is_list header) then st_throw (Custom "typed tx fields must be encoded as a list") else
      let tx_length := wadd 64 (wadd 64 1 (Header_length header)) (payload_length header) in
      transaction ← decode_typed_fields tx_type;
      signature ← sig_decode;
      encoded ← st_lift (slice_to tx_length original_encoding);
      mret (mkTransactionSigned (keccak256 encoded) signature transaction)
  end.

(** [TransactionSigned::decode_enveloped]: what is left of the input is dropped. *)
Definition decode_enveloped (tx : bytes) : outcome DecodeError TransactionSigned :=
  match tx with
  | [] => Err InputTooShort
  | first :: _ =>
      fst ((if EMPTY_LIST_CODE <=? first then decode_rlp_legacy_transaction
            else decode_enveloped_typed_transaction) tx)
  end.

(** [impl Decodable for TransactionSigned] *)
Definition tx_signed_decode : dec TransactionSigned :=
  original_encoding ← st_get;
  header ← Header_decode;
  if negb (is_list header) then decode_enveloped_typed_transaction
  else
    match decode_rlp_legacy_transaction original_encoding with
    | (Ok tx, rest) => st_put rest;; mret tx
    | (r, _) => st_lift r
    end.

Definition tx_signed_codec : Codec TransactionSigned :=
  mkCodec (fun t out => encode_inner t out true) payload_len_inner tx_signed_decode.

(** ** [Receipt] *)

Definition receipt_fields := bool_codec ⊗ u64_codec ⊗ bloom_codec ⊗ vec_codec log_codec.

Definition receipt_rlp_header (r : Receipt) : Rlp.Header :=
  list_header (encoded_length receipt_fields (receipt_tuple r)).

Definition receipt_encode_fields (r : Receipt) (out : bytes) : bytes :=
  encode receipt_fields (receipt_tuple r) (Header_encode (receipt_rlp_header r) out).

Definition receipt_encode_inner (r : Receipt) (out : bytes) (with_header : bool) : bytes :=
  match r_tx_type r with
  | TxLegacyType => receipt_encode_fields r out
  | ty =>
      let payload := receipt_encode_fields r [] in
      let out :=
        if with_header then Header_encode (string_header (wadd 64 (zlen payload) 1)) out else out in
      let out := put_u8 (match ty with TxEIP2930Type => 1 | _ => 2 end) out in
      put_slice payload out
  end.

Definition receipt_length (r : Receipt) : Z :=
  let p := payload_length (receipt_rlp_header r) in
  let payload_len := wadd 64 (length_of_length p) p in
  match r_tx_type r with
  | TxLegacyType => payload_len
  | _ => let payload_len := wadd 64 payload_len 1 in
         wadd 64 payload_len (length_of_length payload_len)
  end.

Definition decode_receipt (ty : TxType) : dec Receipt :=
  on_copy (
    rlp_head ← Header_decode;
    if negb (is_list rlp_head) then st_throw UnexpectedString else
    b ← st_get;
    let started_len := zlen b in
    '(success, (cumulative_gas_used, (bloom, logs))) ← decode receipt_fields;
    let this := mkReceipt ty success cumulative_gas_used bloom logs in
    b ← st_get;
    let consumed := started_len - zlen b in
    if negb (consumed =? payload_length rlp_head)
    then st_throw (ListLengthMismatch (payload_length rlp_head) consumed) else
    mret this).

Definition receipt_decode : dec Receipt :=
  buf ← st_get;
  match buf with
  | [] => st_throw (Custom "cannot decode a receipt from empty bytes")
  | rlp_type :: _ =>
      if rlp_type <? EMPTY_LIST_CODE then
        Header_decode;;
        buf ← st_get;
        match buf with
        | [] => st_throw (Custom "typed receipt cannot be decoded from an empty slice")
        | receipt_type :: _ =>
            if receipt_type =? 1 then buf_advance 1;; decode_receipt TxEIP2930Type
            else if receipt_type =? 2 then buf_advance 1;; decode_receipt TxEIP1559Type
            else st_throw (Custom "invalid receipt type")
        end
      else if rlp_type =? EMPTY_LIST_CODE
      then st_throw (Custom "an empty list is not a valid receipt encoding")
      else decode_receipt TxLegacyType
  end.

Definition receipt_codec : Codec Receipt :=
  mkCodec (fun r out => receipt_encode_inner r out true) receipt_length receipt_decode.

(** ** [Header] *)

(** [U256::to::<u64>], which panics when the value does not fit. *)
Definition to_u64 (z : Z) : outcome DecodeError Z := if z <? 2 ^ 64 then Ok z else Panic.

(** The required fields in the order of the encoding; a [u64] that is written
    as a [U256] has its own reader. *)
Definition u256_u64_codec : Codec Z :=
  mkCodec (encode U256_codec) (encoded_length U256_codec) (z ← decode U256_codec; st_lift (to_u64 z)).

Definition header_fields :=
  H256_codec ⊗ H256_codec ⊗ address_codec ⊗ H256_codec ⊗ H256_codec ⊗ H256_codec ⊗ bloom_codec ⊗ U256_codec
    ⊗ u256_u64_codec ⊗ u256_u64_codec ⊗ u256_u64_codec ⊗ u64_codec ⊗ bytes_codec ⊗ H256_codec ⊗ H64_codec.

Definition header_payload_length (h : Header) : Z :=
  let length := encoded_length header_fields (header_tuple h) in
  let length := wadd 64 length
    match base_fee_per_gas h with
    | Some base_fee => encoded_length U256_codec base_fee
    | None => if decide (is_Some (withdrawals_root h)) then 1 else 0
    end in
  wadd 64 length match withdrawals_root h with Some root => encoded_length H256_codec root | None => 0 end.

Definition header_encode (h : Header) (out : bytes) : bytes :=
  let out := Header_encode (list_header (header_payload_length h)) out in
  let out := encode header_fields (header_tuple h) out in
  let out :=
    match base_fee_per_gas h with
    | Some base_fee => encode U256_codec base_fee out
    | None => if decide (is_Some (withdrawals_root h)) then put_u8 EMPTY_STRING_CODE out else out
    end in
  match withdrawals_root h with Some root => encode H256_codec root out | None => out end.

Definition header_length (h : Header) : Z :=
  let length := header_payload_length h in wadd 64 length (length_of_length length).

(** The optional base fee: an empty string stands for a missing one. *)
Definition base_fee_decode (started_len payload_length : Z) : dec (option Z) :=
  buf ← st_get;
  if started_len - zlen buf <? payload_length then
    if bool_decide (head buf = Some EMPTY_STRING_CODE) then buf_advance 1;; mret None
    else z ← decode U256_codec; base_fee ← st_lift (to_u64 z); mret (Some base_fee)
  else mret None.

Definition withdrawals_root_decode (started_len payload_length : Z) : dec (option Z) :=
  buf ← st_get;
  if started_len - zlen buf <? payload_length then root ← decode H256_codec; mret (Some root)
  else mret None.

Definition header_decode : dec Header :=
  rlp_head ← Header_decode;
  if negb (is_list rlp_head) then st_throw UnexpectedString else
  buf ← st_get;
  let started_len := zlen buf in
  '(parent_hash, (ommers_hash, (beneficiary, (state_root, (transactions_root, (receipts_root,
    (logs_bloom, (difficulty, (number, (gas_limit, (gas_used, (timestamp, (extra_data,
      (mix_hash, nonce)))))))))))))) ← decode header_fields;
  base_fee_per_gas ← base_fee_decode started_len (payload_length rlp_head);
  withdrawals_root ← withdrawals_root_decode started_len (payload_length rlp_head);
  buf ← st_get;
  let consumed := started_len - zlen buf in
  if negb (consumed =? payload_length rlp_head)
  then st_throw (ListLengthMismatch (payload_length rlp_head) consumed) else
  mret (mkHeader parent_hash ommers_hash beneficiary state_root transactions_root receipts_root
          withdrawals_root logs_bloom difficulty number gas_limit gas_used timestamp mix_hash nonce
          base_fee_per_gas extra_data).

Definition header_codec : Codec Header := mkCodec header_encode header_length header_decode.

Definition hash_slow (h : Header) : Z := keccak256 (header_encode h []).
Definition seal_slow (h : Header) : SealedHeader := mkSealedHeader h (hash_slow h).

(** [SealedHeader] is encoded as its header; the decoder hashes what it read. *)
Definition sealed_header_decode : dec SealedHeader :=
  on_copy (
    buf ← st_get;
    header ← header_decode;
    b ← st_get;
    let consumed := zlen buf - zlen b in
    hashed ← st_lift (slice_to consumed buf);
    mret (mkSealedHeader header (keccak256 hashed))).

Definition sealed_header_codec : Codec SealedHeader :=
  mkCodec (fun h out => header_encode (sh_header h) out) (fun h => zlen (header_encode (sh_header h) []))
          sealed_header_decode.

(** ** [Block] and [SealedBlock] *)

Record Block := mkBlock {
  b_header : Header;
  b_body : list TransactionSigned;
  b_ommers : list Header;
  b_withdrawals : option (list Withdrawal)
}.

Definition withdrawals_tail : Tail (option (list Withdrawal) * unit) :=
  tail_opt (vec_codec withdrawal_codec) tail_nil.

Definition block_codec : Codec Block :=
  map_codec (derive_codec (header_codec ⊗ vec_codec tx_signed_codec ⊗ vec_codec header_codec) withdrawals_tail)
    (fun '((h, (b, o)), (w, _)) => mkBlock h b o w)
    (fun b => ((b_header b, (b_body b, b_ommers b)), (b_withdrawals b, tt))).

Definition sealed_block_codec : Codec SealedBlock :=
  map_codec (derive_codec (sealed_header_codec ⊗ vec_codec tx_signed_codec ⊗ vec_codec sealed_header_codec)
               withdrawals_tail)
    (fun '((h, (b, o)), (w, _)) => mkSealedBlock h b o w)
    (fun b => ((sb_header b, (body b, ommers b)), (withdrawals b, tt))).

Definition block_seal_slow (b : Block) : SealedBlock :=
  mkSealedBlock (seal_slow (b_header b)) (b_body b) (seal_slow <$> b_ommers b) (b_withdrawals b).

Definition unseal (b : SealedBlock) : Block :=
  mkBlock (sh_header (sb_header b)) (body b) (sh_header <$> ommers b) (withdrawals b).

End Keccak.

(** ** [BlockHashOrNumber] and [HeadersDirection] *)

Inductive BlockHashOrNumber := BHash (h : Z) | BNumber (n : Z).

Definition bhn_encode (b : BlockHashOrNumber) (out : bytes) : bytes :=
  match b with BHash h => encode H256_codec h out | BNumber n => encode u64_codec n out end.

Definition bhn_length (b : BlockHashOrNumber) : Z :=
  match b with BHash h => encoded_length H256_codec h | BNumber n => encoded_length u64_codec n end.

Definition bhn_decode : dec BlockHashOrNumber :=
  buf ← st_get;
  match buf with
  | [] => st_throw InputTooShort
  | header :: _ =>
      if header =? 0xa0 then hash ← decode H256_codec; mret (BHash hash)
      else n ← decode u64_codec; mret (BNumber n)
  end.

Definition bhn_codec : Codec BlockHashOrNumber := mkCodec bhn_encode bhn_length bhn_decode.

Inductive HeadersDirection := Falling | Rising.

(** [true] is the [reverse] flag. *)
Definition direction_codec : Codec HeadersDirection :=
  map_codec bool_codec (fun reverse => if reverse : bool then Falling else Rising)
            (fun d => match d with Rising => false | Falling => true end).

#[global] Typeclasses Opaque withdrawal_codec log_codec access_list_item_codec access_list_codec kind_codec.
#[global] Typeclasses Opaque legacy_fields eip2930_fields eip1559_fields receipt_fields u256_u64_codec header_fields.
#[global] Typeclasses Opaque tx_signed_codec receipt_codec header_codec sealed_header_codec block_codec.
#[global] Typeclasses Opaque sealed_block_codec bhn_codec direction_codec.
