(* ===== verification/PrimitivesRlpProofs.v ===== *)
(** * RLP of transactions, receipts, headers and blocks: theorems

    Round trips of the network and of the raw ("enveloped") encodings, totality
    of the decoders that are total, and the encodings the decoders accept or
    reject against the specification. *)
From S2P Require Import Prelude Bytes Rlp RlpDerive Primitives SubState PrimitivesRlp.

(** ** The values a codec is meant for *)

Class CodecWf {A : Type} (c : Codec A) := codec_wf : A -> Prop.
Arguments codec_wf {A} c {_} _.

#[global] Instance uint_cwf n : CodecWf (uint_codec n) := wf_uint n.
#[global] Instance fixed_uint_cwf n : CodecWf (fixed_uint_codec n) := wf_uint n.
#[global] Instance hash_cwf n : CodecWf (hash_codec n) := wf_uint n.
#[global] Instance bool_cwf : CodecWf bool_codec := fun _ => True.
#[global] Instance bytes_cwf : CodecWf bytes_codec := is_slice.
#[global] Instance vec_cwf {A} (c : Codec A) `{!CodecWf c} : CodecWf (vec_codec c) := wf_vec c (codec_wf c).
#[global] Instance fields_cwf {A B} (c : Codec A) (d : Codec B) `{!CodecWf c, !CodecWf d} :
  CodecWf (c ⊗ d) := wf_fields c d (codec_wf c) (codec_wf d).
#[global] Instance struct_cwf {A B} (c : Codec A) (f : A -> B) g `{!CodecWf c} :
  CodecWf (struct_codec c f g) := wf_struct c (codec_wf c) g.
#[global] Instance withdrawal_cwf : CodecWf withdrawal_codec := struct_cwf _ _ _.
#[global] Instance log_cwf : CodecWf log_codec := struct_cwf _ _ _.
#[global] Instance access_list_item_cwf : CodecWf access_list_item_codec := struct_cwf _ _ _.
#[global] Instance access_list_cwf : CodecWf access_list_codec := vec_cwf _.

Abbreviation lawful c := (CodecOk c (codec_wf c)).
Abbreviation roundtrips c := (CodecRt c (codec_wf c)).

#[global] Instance u8_ok : lawful u8_codec.
Proof. apply uint_codec_ok. lia. Qed.
#[global] Instance u32_ok : lawful u32_codec.
Proof. apply uint_codec_ok. lia. Qed.
#[global] Instance u64_ok : lawful u64_codec.
Proof. apply uint_codec_ok. lia. Qed.
#[global] Instance u128_ok : lawful u128_codec.
Proof. apply uint_codec_ok. lia. Qed.
#[global] Instance U256_ok : lawful U256_codec.
Proof. apply fixed_uint_codec_ok. lia. Qed.
#[global] Instance H64_ok : lawful H64_codec.
Proof. by apply hash_codec_ok. Qed.
#[global] Instance address_ok : lawful address_codec.
Proof. by apply hash_codec_ok. Qed.
#[global] Instance H256_ok : lawful H256_codec.
Proof. by apply hash_codec_ok. Qed.
#[global] Instance bloom_ok : lawful bloom_codec.
Proof. by apply hash_codec_ok. Qed.
#[global] Instance bool_ok : lawful bool_codec := bool_codec_ok.
#[global] Instance bytes_ok : lawful bytes_codec := bytes_codec_ok.
#[global] Instance vec_lawful {A} (c : Codec A) `{!CodecWf c} : lawful c -> lawful (vec_codec c).
Proof. intros H. by apply vec_codec_ok. Qed.
#[global] Instance vec_roundtrips {A} (c : Codec A) `{!CodecWf c} : roundtrips c -> roundtrips (vec_codec c).
Proof. intros H. by apply vec_codec_rt. Qed.
#[global] Instance fields_lawful {A B} (c : Codec A) (d : Codec B) `{!CodecWf c, !CodecWf d} :
  lawful c -> lawful d -> lawful (c ⊗ d).
Proof. intros ??. by apply fields_codec_ok. Qed.
#[global] Instance fields_roundtrips {A B} (c : Codec A) (d : Codec B) `{!CodecWf c, !CodecWf d} :
  roundtrips c -> roundtrips d -> roundtrips (c ⊗ d).
Proof. intros ??. by apply fields_codec_rt. Qed.
#[global] Instance withdrawal_ok : lawful withdrawal_codec.
Proof. apply struct_codec_ok; [apply _|by intros []|by intros (?&?&?&?)]. Qed.
#[global] Instance log_ok : lawful log_codec.
Proof. apply struct_codec_ok; [apply _|by intros []|by intros (?&?&?)]. Qed.
#[global] Instance access_list_item_ok : lawful access_list_item_codec.
Proof. apply struct_codec_ok; [apply _|by intros []|by intros (?&?)]. Qed.
#[global] Instance access_list_ok : lawful access_list_codec.
Proof. by apply vec_lawful; apply _. Qed.

(** ** Recipients *)

#[global] Instance kind_cwf : CodecWf kind_codec :=
  fun k => match k with Create => True | Call to => wf_uint 20 to end.

(** The first byte of a hash of less than 56 bytes. *)
Lemma hash_head n v : (1 < n < 56)%nat ->
  exists l, encode (hash_codec n) v [] = (0x80 + Z.of_nat n) :: l.
Proof.
  intros Hn. cbn. unfold slice_encode, needs_header. rewrite length_be_bytes.
  replace (n =? 1)%nat with false by (symmetry; apply Nat.eqb_neq; lia). cbn [negb orb].
  unfold Header_encode. cbn [payload_length is_list]. zdec. unfold put_slice, put_u8.
  exists (be_bytes n v). cbn. f_equal. unfold wadd, wrap, EMPTY_STRING_CODE.
  rewrite (Z.mod_small (Z.of_nat n)) by lia. apply Z.mod_small. lia.
Qed.

#[global] Instance kind_ok : lawful kind_codec.
Proof.
  assert (Hcall : forall v s, kind_decode (encode address_codec v [] ++ s) =
    (addr ← decode address_codec; mret (Call addr) : dec _) (encode address_codec v [] ++ s)).
  { intros v s. destruct (hash_head 20 v ltac:(lia)) as [l ->]. done. }
  split; cbn [kind_codec encode encoded_length decode].
  - intros [|to] out; [done|apply rt_append].
  - intros [|to] Hk; [by repeat constructor|by apply (rt_wf to)].
  - intros [|to] Hk; [done|by apply (rt_nonempty to)].
  - intros [|to] Hk; [done|by apply (rt_length to)].
  - intros [|to] rest Hk; [exact (bind_ok _ _ _ _ _ (advance1 EMPTY_STRING_CODE rest))|].
    cbn [kind_encode]. rewrite Hcall. by erewrite bind_ok by (by apply rt_decode).
  - intros buf k rest Hb H. destruct buf as [|b buf]; [done|].
    unfold kind_decode in H. erewrite bind_ok in H by done. cbn beta iota in H.
    destruct (Z.eqb_spec b EMPTY_STRING_CODE) as [->|].
    + rewrite (bind_ok _ _ _ _ _ (advance1 _ _)) in H. by injection H as <- <-.
    + apply bind_inv in H as (a & s1 & H1 & H). injection H as <- ->.
      by apply decode_canonical in H1.
  - intros buf Hb. destruct buf as [|b buf]; [done|]. unfold kind_decode.
    erewrite bind_ok by done. cbn beta iota. destruct (b =? _); [by rewrite (bind_ok _ _ _ _ _ (advance1 _ _))|].
    apply bind_safe; [by apply decode_safe|done].
Qed.

#[global] Instance legacy_fields_cwf : CodecWf legacy_fields := fields_cwf _ _.
#[global] Instance eip2930_fields_cwf : CodecWf eip2930_fields := fields_cwf _ _.
#[global] Instance eip1559_fields_cwf : CodecWf eip1559_fields := fields_cwf _ _.
#[global] Instance receipt_fields_cwf : CodecWf receipt_fields := fields_cwf _ _.
#[global] Instance legacy_fields_ok : lawful legacy_fields.
Proof. apply fields_lawful; apply _. Qed.
#[global] Instance eip2930_fields_ok : lawful eip2930_fields.
Proof. apply fields_lawful; apply _. Qed.
#[global] Instance eip1559_fields_ok : lawful eip1559_fields.
Proof. apply fields_lawful; apply _. Qed.
#[global] Instance receipt_fields_ok : lawful receipt_fields.
Proof. apply fields_lawful; apply _. Qed.

(** ** Signatures *)

Lemma wadd_assoc a b c : wadd 64 (wadd 64 a b) c = wadd 64 a (wadd 64 b c).
Proof. unfold wadd, wrap. by rewrite Zplus_mod_idemp_l, Zplus_mod_idemp_r, Z.add_assoc. Qed.

Definition wf_signature (s : Signature) : Prop := wf_uint 32 (sig_r s) /\ wf_uint 32 (sig_s s).

(** A chain id whose [v] fits in a [u64]. *)
Definition wf_chain_id (c : option Z) : Prop :=
  match c with Some c => 0 <= c /\ c * 2 + 36 < 2 ^ 64 | None => True end.

(** The two signature schemes as field codecs. *)
Abbreviation sig_fields := (bool_codec ⊗ U256_codec ⊗ U256_codec).
Abbreviation vrs_fields := (u64_codec ⊗ U256_codec ⊗ U256_codec).

Lemma sig_encode_eq s out :
  sig_encode s out = encode sig_fields (odd_y_parity s, (sig_r s, sig_s s)) out.
Proof. done. Qed.

Lemma sig_payload_len_eq s :
  sig_payload_len s = encoded_length sig_fields (odd_y_parity s, (sig_r s, sig_s s)).
Proof. apply wadd_assoc. Qed.

Lemma vrs_encode_eq s c out :
  encode_with_eip155_chain_id s out c = encode vrs_fields (sig_v s c, (sig_r s, sig_s s)) out.
Proof. done. Qed.

Lemma vrs_len_eq s c :
  payload_len_with_eip155_chain_id s c = encoded_length vrs_fields (sig_v s c, (sig_r s, sig_s s)).
Proof. apply wadd_assoc. Qed.

Lemma sig_v_some s c : wf_chain_id (Some c) ->
  sig_v s (Some c) = parity_u64 s + c * 2 + 35 /\ wf_uint 8 (sig_v s (Some c)).
Proof.
  intros [H1 H2]. assert (0 <= parity_u64 s <= 1) by (unfold parity_u64; destruct (odd_y_parity s); lia).
  unfold sig_v, wadd. rewrite (wrap_small 64 (c * 2)), (wrap_small 64 (_ + c * 2)), wrap_small by (unfold in_u; lia).
  unfold wf_uint. change (256 ^ Z.of_nat 8) with (2 ^ 64). lia.
Qed.

Lemma sig_v_wf s c : wf_chain_id c -> wf_uint 8 (sig_v s c).
Proof.
  destruct c as [c|]; intros Hc; [by apply sig_v_some|].
  unfold sig_v, parity_u64, wf_uint. change (256 ^ Z.of_nat 8) with (2 ^ 64).
  destruct (odd_y_parity s); lia.
Qed.

Lemma sig_decode_encode s rest : wf_signature s -> sig_decode (sig_encode s [] ++ rest) = (Ok s, rest).
Proof.
  intros [Hr Hs]. rewrite sig_encode_eq. cbn [encode fields_codec fst snd].
  rewrite (rt_append (sig_s s)), (rt_append (sig_r s)), <- !app_assoc. unfold sig_decode.
  erewrite bind_ok by (by apply rt_decode). erewrite bind_ok by (by apply rt_decode).
  erewrite bind_ok by (by apply rt_decode). by destruct s.
Qed.

(** [v] tells the parity and the chain id back. *)
Lemma vrs_decode_encode s c rest :
  wf_signature s -> wf_chain_id c ->
  decode_with_eip155_chain_id (encode_with_eip155_chain_id s [] c ++ rest) = (Ok (s, c), rest).
Proof.
  intros [Hr Hs] Hc. rewrite vrs_encode_eq. cbn [encode fields_codec fst snd].
  rewrite (rt_append (sig_s s)), (rt_append (sig_r s)), <- !app_assoc.
  unfold decode_with_eip155_chain_id.
  erewrite bind_ok by (apply rt_decode, sig_v_wf, Hc). erewrite bind_ok by (by apply rt_decode).
  erewrite bind_ok by (by apply rt_decode). destruct c as [c|].
  - destruct (sig_v_some s c Hc) as [-> _]. destruct Hc as [Hc _]. unfold parity_u64.
    destruct s as [r s []]; cbn [odd_y_parity sig_r sig_s]; zdec; cbv zeta.
    + replace (1 + c * 2 + 35 - 35) with (1 + c * 2) by lia.
      rewrite Z_mod_plus_full, Z.shiftr_div_pow2, Z_div_plus_full by lia. done.
    + replace (0 + c * 2 + 35 - 35) with (0 + c * 2) by lia.
      rewrite Z_mod_plus_full, Z.shiftr_div_pow2, Z_div_plus_full by lia. done.
  - unfold sig_v, parity_u64. by destruct s as [r s []].
Qed.

(** ** Signed transactions *)

Definition wf_tx (t : Transaction) : Prop :=
  match t with
  | TLegacy x => codec_wf legacy_fields (legacy_tuple x) /\ wf_chain_id (lg_chain_id x)
  | TEip2930 x => codec_wf eip2930_fields (eip2930_tuple x)
  | TEip1559 x => codec_wf eip1559_fields (eip1559_tuple x)
  end.

Lemma encode_fields_append t out : encode_fields t out = out ++ encode_fields t [].
Proof. destruct t; apply rt_append. Qed.

Lemma encode_fields_wf t : wf_tx t -> wf_bytes (encode_fields t []).
Proof. destruct t; cbn [wf_tx encode_fields]; [intros [H _]|intros H..]; by apply rt_wf. Qed.

Lemma fields_len_ok t : wf_tx t -> fields_len t = zlen (encode_fields t []).
Proof. destruct t; cbn [wf_tx fields_len encode_fields]; [intros [H _]|intros H..]; by apply rt_length. Qed.

Lemma decode_typed_fields_ok t rest :
  wf_tx t -> tx_type_byte t <> 0 ->
  decode_typed_fields (tx_type_byte t) (encode_fields t [] ++ rest) = (Ok t, rest).
Proof.
  destruct t as [x|x|x]; intros Ht Hty; [done|..]; cbn [tx_type_byte encode_fields];
    unfold decode_typed_fields; cbn [Z.eqb Pos.eqb]; erewrite bind_ok by (by apply rt_decode);
    by destruct x.
Qed.

(** The signature as [encode_inner] writes it, and the whole list payload. *)
Definition sig_bytes (t : TransactionSigned) : bytes :=
  match ts_transaction t with
  | TLegacy x => encode_with_eip155_chain_id (signature t) [] (lg_chain_id x)
  | _ => sig_encode (signature t) []
  end.

Definition signed_payload (t : TransactionSigned) : bytes :=
  encode_fields (ts_transaction t) [] ++ sig_bytes t.

Definition wf_tx_signed (t : TransactionSigned) : Prop :=
  wf_tx (ts_transaction t) /\ wf_signature (signature t) /\ zlen (signed_payload t) < 2 ^ 62.

(** The raw encoding: the list, after its type byte for a typed transaction. *)
Definition raw_list (t : TransactionSigned) : bytes :=
  Header_encode (list_header (zlen (signed_payload t))) [] ++ signed_payload t.

Definition raw_encoding (t : TransactionSigned) : bytes :=
  match ts_transaction t with
  | TLegacy _ => raw_list t
  | _ => tx_type_byte (ts_transaction t) :: raw_list t
  end.

(** Three fields are well formed when each is and they fit in memory. *)
Lemma fields3_wf {A B C} (c : Codec A) (d : Codec B) (e : Codec C) `{!CodecWf c, !CodecWf d, !CodecWf e}
    `{!lawful c, !lawful d, !lawful e} x y z :
  codec_wf c x -> codec_wf d y -> codec_wf e z ->
  zlen (encode (c ⊗ d ⊗ e) (x, (y, z)) []) < 2 ^ 63 -> codec_wf (c ⊗ d ⊗ e) (x, (y, z)).
Proof.
  intros Hx Hy Hz Hl. split; [done|]. split; [|done]. split; [done|]. split; [done|]. cbn [snd].
  rewrite (fields_encode_eq c (d ⊗ e) (codec_wf c) (codec_wf (d ⊗ e))), length_app in Hl. cbn [snd] in Hl.
  lia.
Qed.

Section SignedTx.
Context (t : TransactionSigned) (Ht : wf_tx_signed t).

Lemma sig_bytes_len :
  zlen (sig_bytes t) = match ts_transaction t with
                       | TLegacy x => payload_len_with_eip155_chain_id (signature t) (lg_chain_id x)
                       | _ => sig_payload_len (signature t)
                       end /\ wf_bytes (sig_bytes t).
Proof.
  destruct Ht as (Htx & [Hr Hs] & Hl). unfold signed_payload in Hl. rewrite length_app in Hl.
  unfold sig_bytes in *. destruct (ts_transaction t) as [x|x|x].
  - destruct Htx as [_ Hc]. rewrite vrs_len_eq, vrs_encode_eq in *.
    assert (Hw : codec_wf vrs_fields (sig_v (signature t) (lg_chain_id x), (sig_r (signature t), sig_s (signature t))))
      by (apply fields3_wf; first [apply _|by apply sig_v_wf|done|lia]).
    split; [symmetry; by apply rt_length|by apply rt_wf].
  - rewrite sig_payload_len_eq, sig_encode_eq in *.
    assert (Hw : codec_wf sig_fields (odd_y_parity (signature t), (sig_r (signature t), sig_s (signature t))))
      by (apply fields3_wf; first [apply _|done|lia]).
    split; [symmetry; by apply rt_length|by apply rt_wf].
  - rewrite sig_payload_len_eq, sig_encode_eq in *.
    assert (Hw : codec_wf sig_fields (odd_y_parity (signature t), (sig_r (signature t), sig_s (signature t))))
      by (apply fields3_wf; first [apply _|done|lia]).
    split; [symmetry; by apply rt_length|by apply rt_wf].
Qed.

Lemma payload_len_ok :
  wadd 64 (fields_len (ts_transaction t)) (zlen (sig_bytes t)) = zlen (signed_payload t).
Proof.
  destruct Ht as (Htx & _ & Hl). rewrite fields_len_ok by done. unfold signed_payload in *.
  rewrite length_app in *. rewrite wadd_small; [lia|unfold in_u; lia].
Qed.

Lemma raw_header_wf : wf_header (list_header (zlen (signed_payload t))).
Proof. destruct Ht as (_ & _ & Hl). unfold wf_header. cbn. lia. Qed.

Lemma raw_list_length :
  wadd 64 (length_of_length (zlen (signed_payload t))) (zlen (signed_payload t)) = zlen (raw_list t) /\
  zlen (raw_list t) = Header_length (list_header (zlen (signed_payload t))) + zlen (signed_payload t) /\
  1 + zlen (signed_payload t) <= zlen (raw_list t) < 2 ^ 63 - 20.
Proof.
  pose proof raw_header_wf as Hh. pose proof (length_of_length_ok _ Hh) as L.
  pose proof (Header_length_bounds _ Hh) as B. destruct Ht as (_ & _ & Hl).
  cbn [payload_length] in L. rewrite L. unfold raw_list. rewrite length_app. unfold Header_length in *.
  rewrite wadd_small by (unfold in_u; lia). lia.
Qed.

(** The list of a transaction starts with a list header. *)
Lemma raw_list_cons : exists b l, raw_list t = b :: l /\ EMPTY_LIST_CODE < b.
Proof.
  unfold raw_list. rewrite Header_encode_eq by apply raw_header_wf. cbn [payload_length is_list].
  assert (Hpos : 0 < zlen (signed_payload t)).
  { unfold signed_payload. rewrite length_app. enough (0 < length (encode_fields (ts_transaction t) []))%nat by lia.
    destruct Ht as (Htx & _). destruct (ts_transaction t); cbn [wf_tx encode_fields] in *;
      [destruct Htx as [Htx _]|..]; by apply (encode_pos _ _ _ Htx). }
  unfold EMPTY_LIST_CODE. destruct (Z.ltb_spec (zlen (signed_payload t)) 56).
  - eexists _, _. split; [done|]. lia.
  - eexists _, _. split; [done|]. pose proof (length_code_range (zlen (signed_payload t))). lia.
Qed.

(** What [encode_inner] appends. *)
Definition network_header : bytes :=
  match ts_transaction t with
  | TLegacy _ => []
  | _ => Header_encode (string_header (zlen (raw_encoding t))) []
  end.

Lemma typed_length :
  wadd 64 (wadd 64 1 (length_of_length (zlen (signed_payload t)))) (zlen (signed_payload t))
  = 1 + zlen (raw_list t).
Proof.
  destruct raw_list_length as (L & _ & B). rewrite wadd_assoc, L. apply wadd_small. unfold in_u. lia.
Qed.

Lemma encode_inner_eq out with_header :
  encode_inner t out with_header =
  out ++ (if with_header then network_header else []) ++ raw_encoding t.
Proof.
  unfold encode_inner, network_header, raw_encoding. cbv zeta.
  pose proof (proj1 sig_bytes_len) as Hsig. pose proof payload_len_ok as Hp.
  pose proof typed_length as Hty. unfold raw_list, signed_payload, sig_bytes in *.
  destruct (ts_transaction t) as [x|x|x] eqn:E.
  - rewrite <- Hsig, Hp, vrs_encode_eq, rt_append, encode_fields_append, Header_encode_append.
    rewrite <- vrs_encode_eq. by destruct with_header; rewrite <- !app_assoc.
  - rewrite <- Hsig, Hp, sig_encode_eq, rt_append, encode_fields_append, Header_encode_append.
    rewrite <- sig_encode_eq, Hty. unfold put_u8. cbn [tx_type_byte length]. rewrite Nat2Z.inj_succ.
    rewrite Z.add_1_l. destruct with_header; [rewrite Header_encode_append|]; by rewrite <- !app_assoc.
  - rewrite <- Hsig, Hp, sig_encode_eq, rt_append, encode_fields_append, Header_encode_append.
    rewrite <- sig_encode_eq, Hty. unfold put_u8. cbn [tx_type_byte length]. rewrite Nat2Z.inj_succ.
    rewrite Z.add_1_l. destruct with_header; [rewrite Header_encode_append|]; by rewrite <- !app_assoc.
Qed.

Lemma raw_wf : wf_bytes (raw_encoding t).
Proof.
  assert (Hl : wf_bytes (raw_list t)).
  { unfold raw_list, signed_payload. apply Forall_app; split; [apply Header_encode_wf, raw_header_wf|].
    apply Forall_app; split; [apply encode_fields_wf, Ht|apply sig_bytes_len]. }
  unfold raw_encoding. destruct (ts_transaction t); [done|constructor; [done|done]..].
Qed.

(** ** Decoding what was encoded *)

Context (keccak256 : bytes -> Z).

Lemma slice_to_app a rest : slice_to (zlen a) (a ++ rest) = Ok a.
Proof.
  unfold slice_to. rewrite length_app. zdec. by rewrite Nat2Z.id, take_app_length.
Qed.

Lemma raw_header_decode rest :
  Header_decode (raw_list t ++ rest) = (Ok (list_header (zlen (signed_payload t))), signed_payload t ++ rest).
Proof.
  unfold raw_list. rewrite <- app_assoc. apply Header_decode_encode;
    [apply raw_header_wf|cbn [payload_length]; rewrite length_app; lia|by unfold header_guard].
Qed.

Lemma decode_legacy_ok x rest :
  ts_transaction t = TLegacy x ->
  decode_rlp_legacy_transaction keccak256 (raw_list t ++ rest)
  = (Ok (mkTransactionSigned (keccak256 (raw_list t)) (signature t) (ts_transaction t)), rest).
Proof.
  intros E. pose proof raw_list_length as (_ & L & B). destruct Ht as (Htx & Hsig & Hl).
  unfold decode_rlp_legacy_transaction. erewrite bind_ok by done.
  erewrite bind_ok by apply raw_header_decode. unfold signed_payload, sig_bytes. rewrite E in *.
  cbn [encode_fields]. destruct Htx as [Hx Hc]. rewrite <- app_assoc.
  erewrite bind_ok by (by apply rt_decode). cbn beta iota.
  erewrite bind_ok by (by apply vrs_decode_encode). cbn beta iota zeta. cbn [payload_length].
  replace (wadd 64 _ _) with (zlen (raw_list t)).
  - erewrite bind_ok by (unfold st_lift; by rewrite slice_to_app).
    destruct x as [[c|] n p g to v i]; done.
  - rewrite L. unfold signed_payload, sig_bytes. rewrite E. cbn [encode_fields].
    rewrite wadd_small; [lia|]. unfold in_u.
    unfold signed_payload, sig_bytes in L, B, Hl. rewrite E in L, B, Hl. cbn [encode_fields] in L, B, Hl. lia.
Qed.

Lemma decode_typed_ok rest :
  tx_type_byte (ts_transaction t) <> 0 ->
  decode_enveloped_typed_transaction keccak256 (raw_encoding t ++ rest)
  = (Ok (mkTransactionSigned (keccak256 (raw_encoding t)) (signature t) (ts_transaction t)), rest).
Proof.
  intros Hty. pose proof raw_list_length as (_ & L & B).
  assert (Hraw : raw_encoding t = tx_type_byte (ts_transaction t) :: raw_list t)
    by (unfold raw_encoding; by destruct (ts_transaction t)).
  assert (Hs : sig_bytes t = sig_encode (signature t) []) by (unfold sig_bytes; by destruct (ts_transaction t)).
  destruct Ht as (Htx & Hsig & Hl).
  unfold decode_enveloped_typed_transaction. erewrite bind_ok by done. rewrite Hraw. cbn [app].
  erewrite bind_ok by apply advance1. erewrite bind_ok by apply raw_header_decode.
  cbn [is_list negb]. cbv zeta.
  change (signed_payload t ++ rest) with ((encode_fields (ts_transaction t) [] ++ sig_bytes t) ++ rest).
  rewrite <- app_assoc.
  erewrite bind_ok by (by apply decode_typed_fields_ok). rewrite Hs.
  erewrite bind_ok by (by apply sig_decode_encode). cbn [payload_length].
  replace (wadd 64 _ _) with (zlen (raw_encoding t)).
  - erewrite bind_ok; [done|]. unfold st_lift. rewrite app_comm_cons, <- Hraw.
    by rewrite slice_to_app.
  - rewrite wadd_assoc, (wadd_small 64 (Header_length _)) by (unfold in_u; lia).
    rewrite <- L, wadd_small by (unfold in_u; lia). rewrite Hraw. cbn [length]. lia.
Qed.

(** The network encoding of a typed transaction is a byte string. *)
Lemma string_header_raw rest :
  tx_type_byte (ts_transaction t) <> 0 ->
  Header_decode (network_header ++ raw_encoding t ++ rest)
  = (Ok (string_header (zlen (raw_encoding t))), raw_encoding t ++ rest).
Proof.
  intros Hty. pose proof raw_list_length as (_ & _ & B).
  assert (Hh : network_header = Header_encode (string_header (zlen (raw_encoding t))) [])
    by (unfold network_header; by destruct (ts_transaction t)).
  assert (Hl : zlen (raw_encoding t) = 1 + zlen (raw_list t))
    by (unfold raw_encoding; destruct (ts_transaction t); cbn [length]; done || lia).
  rewrite Hh. apply Header_decode_encode.
  - unfold wf_header. cbn. lia.
  - cbn [payload_length]. rewrite length_app. lia.
  - unfold header_guard. cbn [payload_length]. lia.
Qed.

Lemma network_decode_ok rest :
  tx_signed_decode keccak256 (network_header ++ raw_encoding t ++ rest)
  = (Ok (mkTransactionSigned (keccak256 (raw_encoding t)) (signature t) (ts_transaction t)), rest).
Proof.
  unfold tx_signed_decode. erewrite bind_ok by done.
  destruct (Z.eq_dec (tx_type_byte (ts_transaction t)) 0) as [E|E].
  - destruct (ts_transaction t) as [x|x|x] eqn:Etx; try done.
    assert (Hr : raw_encoding t = raw_list t) by (unfold raw_encoding; by rewrite Etx).
    assert (Hn : network_header = []) by (unfold network_header; by rewrite Etx).
    rewrite Hn, Hr, app_nil_l. erewrite bind_ok by apply raw_header_decode. cbn [is_list negb].
    rewrite (decode_legacy_ok x rest Etx), Etx. by erewrite bind_ok by done.
  - erewrite bind_ok by (by apply string_header_raw). cbn [is_list negb]. by apply decode_typed_ok.
Qed.
End SignedTx.

#[global] Instance tx_signed_cwf keccak256 : CodecWf (tx_signed_codec keccak256) :=
  fun t => wf_tx_signed t /\ ts_hash t = recalculate_hash keccak256 t.

Lemma payload_len_inner_ok t : wf_tx_signed t -> payload_len_inner t = zlen (encode_inner t [] true).
Proof.
  intros Ht. rewrite (encode_inner_eq t Ht), app_nil_l. unfold payload_len_inner, network_header, raw_encoding.
  pose proof (proj1 (sig_bytes_len t Ht)) as Hsig. pose proof (payload_len_ok t Ht) as Hp.
  pose proof (typed_length t Ht) as Hty. pose proof (raw_list_length t Ht) as (Hr & _ & B).
  destruct (ts_transaction t) as [x|x|x]; rewrite <- Hsig, Hp; cbv zeta; [done|..].
  all: rewrite Hty, length_app; cbn [tx_type_byte length]; rewrite Nat2Z.inj_add, Nat2Z.inj_succ.
  all: replace (1 + zlen (raw_list t)) with (Z.succ (zlen (raw_list t))) by lia.
  all: pose proof (length_of_length_ok (string_header (Z.succ (zlen (raw_list t)))) ltac:(unfold wf_header; cbn; lia)) as L.
  all: pose proof (Header_length_bounds (string_header (Z.succ (zlen (raw_list t)))) ltac:(unfold wf_header; cbn; lia)) as B'.
  all: cbn [payload_length] in L; rewrite L; unfold Header_length in *; rewrite wadd_small; [lia|unfold in_u; lia].
Qed.

Lemma tx_header_wf t : wf_tx_signed t -> wf_bytes (network_header t).
Proof.
  intros Ht. pose proof (raw_list_length t Ht) as (_ & _ & B). unfold network_header, raw_encoding.
  destruct (ts_transaction t); [constructor|..]; apply Header_encode_wf; unfold wf_header; cbn [payload_length length]; lia.
Qed.

Lemma encode_inner_append t out with_header :
  encode_inner t out with_header = out ++ encode_inner t [] with_header.
Proof.
  unfold encode_inner. cbv zeta. destruct (ts_transaction t); unfold put_u8;
    [rewrite !vrs_encode_eq|rewrite !sig_encode_eq..];
    rewrite rt_append, encode_fields_append, Header_encode_append; symmetry;
    rewrite rt_append, encode_fields_append, Header_encode_append; symmetry;
    [|destruct with_header; [rewrite (Header_encode_append (string_header _) out)|]..];
    by rewrite ?app_nil_l, <- !app_assoc.
Qed.

#[global] Instance tx_signed_rt keccak256 : roundtrips (tx_signed_codec keccak256).
Proof.
  split; cbn [tx_signed_codec encode encoded_length decode].
  - intros t out. apply encode_inner_append.
  - intros t [Ht _]. rewrite (encode_inner_eq t Ht), app_nil_l.
    apply Forall_app; split; [by apply tx_header_wf|by apply raw_wf].
  - intros t [Ht _]. rewrite (encode_inner_eq t Ht), app_nil_l. intros E.
    apply app_eq_nil in E as [_ E]. unfold raw_encoding in E.
    destruct (raw_list_cons t Ht) as (b & l & El & _). rewrite El in E. by destruct (ts_transaction t).
  - intros t [Ht _]. by apply payload_len_inner_ok.
  - intros t rest [Ht Hh]. rewrite (encode_inner_eq t Ht), app_nil_l, <- app_assoc.
    rewrite (network_decode_ok t Ht). unfold recalculate_hash in Hh.
    rewrite (encode_inner_eq t Ht) in Hh. cbn [app] in Hh. rewrite <- Hh. by destruct t.
Qed.

(** ** Transaction decoding never panics *)

#[global] Instance sig_decode_dec : DecodeOk sig_decode.
Proof. apply bind_strong; [apply _|weak]. Qed.

#[global] Instance vrs_decode_dec : DecodeOk decode_with_eip155_chain_id.
Proof. apply bind_strong; [apply _|weak]. Qed.

(** The hashed slice lies within the input. *)
Lemma slice_to_safe n s : n <= zlen s -> safe (slice_to n s).
Proof. intros H. unfold slice_to. by zdec. Qed.

Lemma list_header_slice buf h s1 :
  is_slice buf -> Header_decode buf = (Ok h, s1) -> is_list h = true ->
  is_slice s1 /\ wadd 64 (payload_length h) (Header_length h) <= zlen buf /\
  exists pre, pre <> [] /\ buf = pre ++ s1.
Proof.
  intros Hb H Hl. pose proof (list_header_inv _ _ _ Hb H Hl) as (Hh & view & r & -> & Hp & _ & E).
  subst buf. pose proof Hb as [_ Hs]%is_slice_app. split; [done|].
  destruct Hb as [_ Hb]. rewrite !length_app in *. unfold wf_header in Hh.
  pose proof (Header_length_bounds h Hh). unfold Header_length in *. split.
  - rewrite wadd_small; [lia|unfold in_u; lia].
  - exists (Header_encode h []). split; [apply Header_encode_nonempty|done].
Qed.

Lemma decode_legacy_dec keccak256 buf h s1 :
  is_slice buf -> Header_decode buf = (Ok h, s1) -> is_list h = true ->
  safe (fst (decode_rlp_legacy_transaction keccak256 buf)) /\
  forall x rest, decode_rlp_legacy_transaction keccak256 buf = (Ok x, rest) ->
    exists pre, pre <> [] /\ buf = pre ++ rest.
Proof.
  intros Hb H Hl. destruct (list_header_slice _ _ _ Hb H Hl) as (Hs & Hn & pre & Hpre & Ebuf).
  assert (Hw : DecodeWeak (
    '(nonce, (gas_price, (gas_limit, (to, (value, input))))) ← decode legacy_fields;
    let transaction := TLegacy (mkTxLegacy None nonce gas_price gas_limit to value input) in
    '(signature, extracted_id) ← decode_with_eip155_chain_id;
    let transaction :=
      match extracted_id with Some id => set_chain_id id transaction | None => transaction end in
    let tx_length := wadd 64 (payload_length h) (Header_length h) in
    encoded ← st_lift (slice_to tx_length buf);
    mret (mkTransactionSigned (keccak256 encoded) signature transaction))).
  { weak. by apply slice_to_safe. }
  unfold decode_rlp_legacy_transaction. erewrite bind_ok by done. rewrite (bind_ok _ _ _ _ _ H).
  split; [by apply dw_safe|]. intros x rest H'. apply dw_suffix in H' as [pre' ->]; [|done].
  exists (pre ++ pre'). rewrite <- app_assoc. split; [|done]. intros E. by apply app_eq_nil in E as [-> _].
Qed.

#[global] Instance decode_typed_dec keccak256 : DecodeOk (decode_enveloped_typed_transaction keccak256).
Proof.
  assert (Hw : forall buf ty s h s1, is_slice buf -> buf = ty :: s -> Header_decode s = (Ok h, s1) ->
    is_list h = true -> DecodeWeak (
      let tx_length := wadd 64 (wadd 64 1 (Header_length h)) (payload_length h) in
      transaction ← decode_typed_fields ty;
      signature ← sig_decode;
      encoded ← st_lift (slice_to tx_length buf);
      mret (mkTransactionSigned (keccak256 encoded) signature transaction)) /\
    is_slice s1 /\ exists pre, s = pre ++ s1).
  { intros buf ty s h s1 Hb -> H Hl. assert (Hs : is_slice s) by apply (is_slice_app [ty] s Hb).
    destruct (list_header_slice _ _ _ Hs H Hl) as (Hs1 & Hn & pre & _ & E). split; [|eauto].
    cbv zeta. assert (Hsl : safe (slice_to (wadd 64 (wadd 64 1 (Header_length h)) (payload_length h)) (ty :: s))).
    { apply slice_to_safe. rewrite wadd_assoc. replace (wadd 64 (Header_length h) (payload_length h))
        with (wadd 64 (payload_length h) (Header_length h)) by (unfold wadd; f_equal; lia).
      destruct Hb as [_ Hb]. cbn [length] in *.
      pose proof (wrap_range 64 (payload_length h + Header_length h) ltac:(lia)) as R. fold (wadd 64 (payload_length h) (Header_length h)) in R.
      unfold in_u in R. rewrite wadd_small; [lia|unfold in_u; lia]. }
    unfold decode_typed_fields. weak. done. }
  split.
  - intros [|ty s] Hb; [done|]. unfold decode_enveloped_typed_transaction. erewrite bind_ok by done. cbn iota.
    erewrite bind_ok by apply advance1. apply bind_safe; [apply Header_decode_safe|]. intros h s1 H.
    destruct (is_list h) eqn:Hl; [|done]. cbn [negb].
    destruct (Hw _ _ _ _ _ Hb eq_refl H Hl) as (W & Hs1 & _). by apply (dw_safe (DecodeWeak := W)).
  - intros [|ty s] x rest Hb H0; [done|]. unfold decode_enveloped_typed_transaction in H0.
    erewrite bind_ok in H0 by done. cbn iota in H0. rewrite (bind_ok _ _ _ _ _ (advance1 _ _)) in H0.
    apply bind_inv in H0 as (h & s1 & H & H0). destruct (is_list h) eqn:Hl; [|done]. cbn [negb] in H0.
    destruct (Hw _ _ _ _ _ Hb eq_refl H Hl) as (W & Hs1 & pre & ->).
    apply (dw_suffix (DecodeWeak := W)) in H0 as [pre' ->]; [|done].
    exists (ty :: pre ++ pre'). split; [done|]. cbn. by rewrite <- app_assoc.
Qed.

#[global] Instance tx_signed_dec keccak256 : DecodeOk (tx_signed_decode keccak256).
Proof.
  split.
  - intros buf Hb. unfold tx_signed_decode. erewrite bind_ok by done.
    apply bind_safe; [apply Header_decode_safe|]. intros h s1 H. destruct (is_list h) eqn:Hl; cbn [negb].
    + pose proof (decode_legacy_dec keccak256 buf h s1 Hb H Hl) as [Hs _].
      by destruct (decode_rlp_legacy_transaction keccak256 buf) as [[]].
    + apply dw_suffix in H as [pre ->]; [|done]. apply is_slice_app in Hb as [_ Hb]. by apply dk_safe.
  - intros buf x rest Hb H0. unfold tx_signed_decode in H0. erewrite bind_ok in H0 by done.
    apply bind_inv in H0 as (h & s1 & H & H0). destruct (is_list h) eqn:Hl; cbn [negb] in H0.
    + pose proof (decode_legacy_dec keccak256 buf h s1 Hb H Hl) as [_ Hs].
      destruct (decode_rlp_legacy_transaction keccak256 buf) as [[y|e| |] s2]; try done.
      injection H0 as -> ->. by apply (Hs x).
    + apply dw_suffix in H as [pre ->]; [|done]. apply is_slice_app in Hb as [_ Hb].
      apply dk_consumes in H0 as (pre' & Hp & ->); [|done]. exists (pre ++ pre'). rewrite app_assoc.
      split; [|done]. intros E. by apply app_eq_nil in E as [_ ->].
Qed.

(** ** Receipts *)

#[global] Instance TxType_eq_dec : EqDecision TxType.
Proof. solve_decision. Defined.

Definition receipt_payload (r : Receipt) : bytes := encode receipt_fields (receipt_tuple r) [].

#[global] Instance receipt_cwf : CodecWf receipt_codec :=
  fun r => codec_wf receipt_fields (receipt_tuple r) /\ zlen (receipt_payload r) < 2 ^ 62.

Definition receipt_list (r : Receipt) : bytes :=
  Header_encode (list_header (zlen (receipt_payload r))) [] ++ receipt_payload r.

Definition receipt_reader (ty : TxType) (_ _ : Z) : dec Receipt :=
  x ← decode receipt_fields;
  mret (let '(success, (gas, (bloom, logs))) := x in mkReceipt ty success gas bloom logs).

Lemma decode_receipt_eq ty buf : decode_receipt ty buf = on_copy (payload_decode (receipt_reader ty)) buf.
Proof.
  unfold decode_receipt, payload_decode, receipt_reader, on_copy, mbind, st_bind, st_get, mret, st_ret.
  destruct (Header_decode buf) as [[h|e| |] s]; try done. destruct (negb (is_list h)); [done|].
  destruct (decode receipt_fields s) as [[(?&?&?&?)|e| |] s1]; try done.
Qed.

Section ReceiptRt.
Context (r : Receipt) (Hr : codec_wf receipt_codec r).

Lemma receipt_header_eq : receipt_rlp_header r = list_header (zlen (receipt_payload r)).
Proof. unfold receipt_rlp_header. f_equal. apply (rt_length (wf := codec_wf receipt_fields)), Hr. Qed.

Lemma receipt_encode_fields_eq out : receipt_encode_fields r out = out ++ receipt_list r.
Proof.
  unfold receipt_encode_fields, receipt_list, receipt_payload.
  by rewrite receipt_header_eq, rt_append, Header_encode_append, <- app_assoc.
Qed.

Lemma receipt_list_length :
  let p := payload_length (receipt_rlp_header r) in
  wadd 64 (length_of_length p) p = zlen (receipt_list r) /\ 1 <= zlen (receipt_list r) < 2 ^ 63 - 20.
Proof.
  cbv zeta. rewrite receipt_header_eq. destruct Hr as [_ Hl]. cbn [payload_length].
  assert (Hh : wf_header (list_header (zlen (receipt_payload r)))) by (unfold wf_header; cbn [payload_length]; lia).
  pose proof (length_of_length_ok _ Hh) as L. pose proof (Header_length_bounds _ Hh) as B.
  cbn [payload_length] in L. rewrite L. unfold receipt_list. rewrite length_app. unfold Header_length in *.
  rewrite wadd_small by (unfold in_u; lia). lia.
Qed.

Lemma receipt_list_wf : wf_bytes (receipt_list r).
Proof.
  destruct Hr as [Hw Hl]. apply Forall_app; split; [apply Header_encode_wf; unfold wf_header; cbn [payload_length]; lia|].
  by apply (rt_wf (wf := codec_wf receipt_fields)).
Qed.

Lemma decode_receipt_ok rest : decode_receipt (r_tx_type r) (receipt_list r ++ rest) = (Ok r, rest).
Proof.
  rewrite decode_receipt_eq. apply on_copy_ok. unfold receipt_list. rewrite <- app_assoc.
  destruct Hr as [Hw Hl]. apply payload_decode_encode; [lia|]. intros sl _. unfold receipt_reader.
  erewrite bind_ok by (by apply (rt_decode (wf := codec_wf receipt_fields))). by destruct r.
Qed.

Lemma receipt_list_cons : exists b l, receipt_list r = b :: l /\ EMPTY_LIST_CODE < b.
Proof.
  destruct Hr as [Hw Hl]. assert (Hh : wf_header (list_header (zlen (receipt_payload r)))) by (unfold wf_header; cbn [payload_length]; lia).
  unfold receipt_list. rewrite Header_encode_eq by done. cbn [payload_length is_list].
  pose proof (encode_pos _ _ _ Hw) as Hpos. fold (receipt_payload r) in Hpos. unfold EMPTY_LIST_CODE.
  destruct (Z.ltb_spec (zlen (receipt_payload r)) 56); eexists _, _; (split; [done|]); [lia|].
  pose proof (length_code_range (zlen (receipt_payload r))). lia.
Qed.

Definition receipt_byte : Z := match r_tx_type r with TxEIP2930Type => 1 | _ => 2 end.

(** A typed receipt is a string of its type byte and the list. *)
Lemma receipt_typed_eq out :
  r_tx_type r <> TxLegacyType ->
  receipt_encode_inner r out true =
  out ++ Header_encode (string_header (zlen (receipt_byte :: receipt_list r))) [] ++ receipt_byte :: receipt_list r.
Proof.
  intros Hty. pose proof receipt_list_length as [_ B]. unfold receipt_encode_inner, receipt_byte.
  rewrite !receipt_encode_fields_eq, app_nil_l.
  assert (E : wadd 64 (zlen (receipt_list r)) 1 = zlen (1 :: receipt_list r))
    by (cbn [length]; rewrite wadd_small; [lia|unfold in_u; lia]).
  destruct (r_tx_type r); [done|..]; cbn zeta; rewrite E; unfold put_slice, put_u8;
    rewrite Header_encode_append; cbn [length]; by rewrite <- !app_assoc.
Qed.

Lemma receipt_string_header rest :
  Header_decode (Header_encode (string_header (zlen (receipt_byte :: receipt_list r))) [] ++
    (receipt_byte :: receipt_list r) ++ rest)
  = (Ok (string_header (zlen (receipt_byte :: receipt_list r))), (receipt_byte :: receipt_list r) ++ rest).
Proof.
  pose proof receipt_list_length as [_ B]. cbn [length] in *. apply Header_decode_encode.
  - unfold wf_header. cbn [payload_length]. lia.
  - cbn [payload_length length app]. rewrite length_app. lia.
  - unfold header_guard. cbn [payload_length]. lia.
Qed.

(** The string header does not look like a list. *)
Lemma string_header_low p : 0 <= p < 2 ^ 64 ->
  exists b l, Header_encode (string_header p) [] = b :: l /\ b < EMPTY_LIST_CODE.
Proof.
  intros Hp. rewrite Header_encode_eq by done. cbn [payload_length is_list app]. unfold EMPTY_LIST_CODE.
  destruct (Z.ltb_spec p 56); eexists _, _; (split; [done|]); [lia|].
  pose proof (length_code_range p). lia.
Qed.

Lemma receipt_decode_string b l h s :
  b < EMPTY_LIST_CODE -> Header_decode (b :: l) = (Ok h, receipt_byte :: s) ->
  r_tx_type r <> TxLegacyType -> receipt_decode (b :: l) = decode_receipt (r_tx_type r) s.
Proof.
  intros Hb Hh Hty. unfold receipt_decode. erewrite bind_ok by done. cbn iota. zdec.
  rewrite (bind_ok _ _ _ _ _ Hh). erewrite bind_ok by done. cbn iota. unfold receipt_byte.
  by destruct (r_tx_type r); [done|..]; cbn [Z.eqb Pos.eqb]; erewrite bind_ok by apply advance1.
Qed.

Lemma receipt_decode_ok rest :
  receipt_decode (receipt_encode_inner r [] true ++ rest) = (Ok r, rest).
Proof.
  pose proof receipt_list_length as [_ B]. destruct (decide (r_tx_type r = TxLegacyType)) as [Ety|Ety].
  - unfold receipt_encode_inner. rewrite Ety, receipt_encode_fields_eq, app_nil_l.
    destruct receipt_list_cons as (b & l & E & Hb). unfold receipt_decode. erewrite bind_ok by done.
    rewrite E. cbn [app]. unfold EMPTY_LIST_CODE in *. zdec. rewrite app_comm_cons, <- E, <- Ety.
    apply decode_receipt_ok.
  - rewrite receipt_typed_eq, app_nil_l, <- app_assoc by done. pose proof (receipt_string_header rest) as Hh.
    destruct (string_header_low (zlen (receipt_byte :: receipt_list r)) ltac:(cbn [length]; lia)) as (b & l & E & Hb).
    rewrite E in *. cbn [app] in *. rewrite (receipt_decode_string _ _ _ _ Hb Hh Ety). apply decode_receipt_ok.
Qed.
End ReceiptRt.

Lemma receipt_append r out : receipt_encode_inner r out true = out ++ receipt_encode_inner r [] true.
Proof.
  unfold receipt_encode_inner, receipt_encode_fields, put_slice, put_u8.
  destruct (r_tx_type r); cbv zeta; rewrite rt_append, (Header_encode_append _ out); symmetry;
    rewrite rt_append; symmetry; by rewrite <- !app_assoc.
Qed.

#[global] Instance receipt_rt : roundtrips receipt_codec.
Proof.
  split; cbn [receipt_codec encode encoded_length decode].
  - apply receipt_append.
  - intros r Hr. pose proof (receipt_list_wf r Hr) as Hw. pose proof (receipt_list_length r Hr) as [_ B].
    destruct (decide (r_tx_type r = TxLegacyType)) as [Ety|Ety].
    + unfold receipt_encode_inner. by rewrite Ety, receipt_encode_fields_eq.
    + rewrite receipt_typed_eq, app_nil_l by done. cbn [length]. apply Forall_app; split.
      * apply Header_encode_wf. unfold wf_header. cbn [payload_length]. lia.
      * constructor; [|done]. unfold receipt_byte. by destruct (r_tx_type r).
  - intros r Hr E. destruct (decide (r_tx_type r = TxLegacyType)) as [Ety|Ety].
    + unfold receipt_encode_inner in E. rewrite Ety, receipt_encode_fields_eq in E by done.
      destruct (receipt_list_cons r Hr) as (b & l & E' & _). by rewrite E' in E.
    + rewrite receipt_typed_eq, app_nil_l in E by done. by apply app_eq_nil in E as [_ E].
  - intros r Hr. unfold receipt_length. pose proof (receipt_list_length r Hr) as [L B]. cbv zeta in *.
    destruct (decide (r_tx_type r = TxLegacyType)) as [Ety|Ety].
    + unfold receipt_encode_inner. by rewrite Ety, receipt_encode_fields_eq.
    + rewrite receipt_typed_eq, app_nil_l, length_app by done. cbn [length].
      replace (match r_tx_type r with TxLegacyType => _ | _ => _ end) with
        (wadd 64 (wadd 64 (zlen (receipt_list r)) 1) (length_of_length (wadd 64 (zlen (receipt_list r)) 1)))
        by (rewrite L; by destruct (r_tx_type r)).
      rewrite (wadd_small 64 _ 1) by (unfold in_u; lia). rewrite !Nat2Z.inj_add, !Nat2Z.inj_succ.
      pose proof (length_of_length_ok (string_header (zlen (receipt_list r) + 1)) ltac:(unfold wf_header; cbn [payload_length]; lia)) as L'.
      pose proof (Header_length_bounds (string_header (zlen (receipt_list r) + 1)) ltac:(unfold wf_header; cbn [payload_length]; lia)) as B'.
      cbn [payload_length] in L'. rewrite L'. unfold Header_length in *. rewrite <- Z.add_1_r.
      rewrite wadd_small; [lia|unfold in_u; lia].
  - intros r rest Hr. by apply receipt_decode_ok.
Qed.

#[global] Instance decode_receipt_dec ty : DecodeOk (decode_receipt ty).
Proof.
  assert (Hr : forall sl pl, DecodeWeak (receipt_reader ty sl pl)) by (intros; unfold receipt_reader; weak).
  split.
  - intros buf Hb. rewrite decode_receipt_eq. apply on_copy_safe, payload_decode_safe; [done|].
    intros sl pl s Hs. by apply dw_safe.
  - intros buf x rest Hb H. rewrite decode_receipt_eq, on_copy_ok in H.
    apply payload_decode_inv in H as (payload & _ & -> & _); [|done|intros sl pl s Hs H'; by eapply dw_suffix].
    exists (Header_encode (list_header (zlen payload)) [] ++ payload). rewrite <- app_assoc.
    split; [|done]. intros E. apply app_eq_nil in E as [E _]. exact (Header_encode_nonempty _ E).
Qed.

#[global] Instance receipt_dec : DecodeOk receipt_decode.
Proof.
  split.
  - intros [|b buf] Hb; [done|]. unfold receipt_decode. erewrite bind_ok by done. cbn iota.
    destruct (b <? _); [|destruct (b =? _); [done|by apply dk_safe]].
    apply bind_safe; [apply Header_decode_safe|]. intros h s1 H. apply dw_suffix in H as [pre E]; [|done].
    rewrite E in Hb. apply is_slice_app in Hb as [_ Hb]. erewrite bind_ok by done.
    destruct s1 as [|ty s1]; [done|]. apply (is_slice_app [ty]) in Hb as [_ Hb].
    destruct (ty =? 1); [|destruct (ty =? 2); [|done]]; erewrite bind_ok by apply advance1; by apply dk_safe.
  - intros [|b buf] x rest Hb H; [done|]. unfold receipt_decode in H. erewrite bind_ok in H by done. cbn iota in H.
    destruct (b <? _); [|destruct (b =? _); [done|by eapply dk_consumes]].
    apply bind_inv in H as (h & s1 & H1 & H). apply dw_suffix in H1 as [pre E]; [|done].
    rewrite E in Hb |- *. apply is_slice_app in Hb as [_ Hb]. erewrite bind_ok in H by done.
    destruct s1 as [|ty s1]; [done|]. apply (is_slice_app [ty]) in Hb as [_ Hb].
    destruct (ty =? 1); [|destruct (ty =? 2); [|done]]; erewrite bind_ok in H by apply advance1;
      apply dk_consumes in H as (pre' & _ & ->); try done; exists (pre ++ ty :: pre'); rewrite <- app_assoc;
      (split; [|done]); intros E'; by apply app_eq_nil in E' as [_ E'].
Qed.

(** ** Headers *)

#[global] Instance u256_u64_cwf : CodecWf u256_u64_codec := wf_uint 8.

Lemma wf_uint_8_32 v : wf_uint 8 v -> wf_uint 32 v.
Proof. unfold wf_uint. change (256 ^ Z.of_nat 8) with (2 ^ 64). change (256 ^ Z.of_nat 32) with (2 ^ 256). lia. Qed.

Lemma to_u64_ok v : wf_uint 8 v -> to_u64 v = Ok v.
Proof. unfold wf_uint, to_u64. change (256 ^ Z.of_nat 8) with (2 ^ 64). intros H. by zdec. Qed.

#[global] Instance u256_u64_rt : roundtrips u256_u64_codec.
Proof.
  split; cbn [u256_u64_codec encode encoded_length decode].
  - intros x out. apply (rt_append (c := U256_codec)).
  - intros x Hx%wf_uint_8_32. by apply (rt_wf (c := U256_codec)).
  - intros x Hx%wf_uint_8_32. by apply (rt_nonempty (c := U256_codec)).
  - intros x Hx%wf_uint_8_32. by apply (rt_length (c := U256_codec)).
  - intros x rest Hx. erewrite bind_ok by (apply (rt_decode (c := U256_codec)); by apply wf_uint_8_32).
    unfold st_lift. by rewrite to_u64_ok.
Qed.

#[global] Instance header_fields_cwf : CodecWf header_fields := fields_cwf _ _.
#[global] Instance header_fields_rt : roundtrips header_fields.
Proof. repeat (apply fields_roundtrips; [apply _|]). apply _. Qed.

(** The optional fields as they are written. *)
Definition base_fee_bytes (h : Header) : bytes :=
  match base_fee_per_gas h with
  | Some f => encode U256_codec f []
  | None => if decide (is_Some (withdrawals_root h)) then [EMPTY_STRING_CODE] else []
  end.

Definition root_bytes (h : Header) : bytes :=
  match withdrawals_root h with Some root => encode H256_codec root [] | None => [] end.

Definition header_payload (h : Header) : bytes :=
  encode header_fields (header_tuple h) [] ++ base_fee_bytes h ++ root_bytes h.

(** A base fee of zero is excluded: it does not survive the encoding. *)
#[global] Instance header_cwf : CodecWf header_codec := fun h =>
  codec_wf header_fields (header_tuple h) /\
  match base_fee_per_gas h with Some f => 0 < f < 2 ^ 64 | None => True end /\
  match withdrawals_root h with Some root => wf_uint 32 root | None => True end /\
  zlen (header_payload h) < 2 ^ 62.

Lemma header_encode_eq h out :
  header_encode h out = out ++ Header_encode (list_header (header_payload_length h)) [] ++ header_payload h.
Proof.
  unfold header_encode, header_payload, base_fee_bytes, root_bytes, put_u8. cbv zeta.
  rewrite (rt_append (c := header_fields)), Header_encode_append.
  destruct (base_fee_per_gas h) as [f|]; [rewrite (rt_append f)|];
    (destruct (withdrawals_root h) as [root|]; [rewrite (rt_append root)|]);
    repeat case_decide; by rewrite ?app_nil_l, ?app_nil_r, <- ?app_assoc.
Qed.

Section HeaderRt.
Context (h : Header) (Hh : codec_wf header_codec h).

Lemma base_fee_wf f : base_fee_per_gas h = Some f -> wf_uint 8 f /\ wf_uint 32 f /\ 0 < f.
Proof.
  destruct Hh as (_ & Hf & _). intros E. rewrite E in Hf.
  assert (wf_uint 8 f) by (unfold wf_uint; change (256 ^ Z.of_nat 8) with (2 ^ 64); lia).
  split; [done|]. split; [by apply wf_uint_8_32|lia].
Qed.

Lemma header_payload_length_ok : header_payload_length h = zlen (header_payload h).
Proof.
  pose proof base_fee_wf as Hbf. destruct Hh as (Hw & _ & Hroot & Hl). unfold header_payload_length. cbv zeta.
  unfold header_payload in *. rewrite !length_app in *. rewrite (rt_length (c := header_fields)) by done.
  replace (match base_fee_per_gas h with Some base_fee => _ | None => _ end) with (zlen (base_fee_bytes h)).
  2: { unfold base_fee_bytes. destruct (base_fee_per_gas h) as [f|]; [|by case_decide].
       symmetry. apply (rt_length (c := U256_codec)). by apply Hbf. }
  replace (match withdrawals_root h with Some root => _ | None => _ end) with (zlen (root_bytes h)).
  2: { unfold root_bytes. destruct (withdrawals_root h) as [root|]; [|done].
       symmetry. by apply (rt_length (c := H256_codec)). }
  rewrite (wadd_small 64 (zlen (encode _ _ _))), wadd_small by (unfold in_u; lia). lia.
Qed.

Lemma header_payload_wf : wf_bytes (header_payload h).
Proof.
  pose proof base_fee_wf as Hbf. destruct Hh as (Hw & _ & Hroot & _).
  apply Forall_app; split; [by apply (rt_wf (c := header_fields))|]. apply Forall_app; split.
  - unfold base_fee_bytes. destruct (base_fee_per_gas h); [by apply (rt_wf (c := U256_codec)), Hbf|].
    case_decide; by repeat constructor.
  - unfold root_bytes. destruct (withdrawals_root h); [by apply (rt_wf (c := H256_codec))|constructor].
Qed.

End HeaderRt.

Definition header_reader (started_len payload_length : Z) : dec Header :=
  x ← decode header_fields;
  base_fee ← base_fee_decode started_len payload_length;
  root ← withdrawals_root_decode started_len payload_length;
  mret (let '(ph, (oh, (bf, (sr, (tr, (rr, (lb, (d, (n, (gl, (gu, (ts, (ed, (mh, no)))))))))))))) := x in
        mkHeader ph oh bf sr tr rr root lb d n gl gu ts mh no base_fee ed).

Lemma header_decode_eq buf : header_decode buf = payload_decode header_reader buf.
Proof.
  unfold header_decode, payload_decode, header_reader, mbind, st_bind, st_get, mret, st_ret.
  destruct (Header_decode buf) as [[hd|e| |] s]; try done. destruct (negb (is_list hd)); [done|].
  destruct (decode header_fields s) as [[x|e| |] s1]; try done.
  destruct x as (?&?&?&?&?&?&?&?&?&?&?&?&?&?&?).
  destruct (base_fee_decode _ _ s1) as [[f|e| |] s2]; try done.
  destruct (withdrawals_root_decode _ _ s2) as [[r|e| |] s3]; try done.
Qed.

(** An integer's encoding starts with 0x80 only for zero. *)
Lemma U256_decode_empty s : decode U256_codec (EMPTY_STRING_CODE :: s) = (Ok 0, s).
Proof.
  pose proof (Header_decode_encode (string_header 0) s) as H. cbn in H |- *. unfold uint_decode.
  rewrite (bind_ok _ _ _ _ _ (H ltac:(done) ltac:(lia) ltac:(done))). cbn [is_list payload_length].
  zdec. erewrite bind_ok by done. by zdec.
Qed.

Lemma U256_head f s : wf_uint 32 f -> head (encode U256_codec f [] ++ s) = Some EMPTY_STRING_CODE -> f = 0.
Proof.
  intros Hf H. pose proof (rt_decode (c := U256_codec) f s Hf) as Hd.
  destruct (encode U256_codec f [] ++ s) as [|b l]; [done|]. injection H as ->.
  rewrite U256_decode_empty in Hd. by injection Hd.
Qed.

Section HeaderDecode.
Context (h : Header) (Hh : codec_wf header_codec h) (rest : bytes) (sl pl : Z).

Lemma root_decode_ok :
  sl - zlen rest = pl ->
  withdrawals_root_decode sl pl (root_bytes h ++ rest) = (Ok (withdrawals_root h), rest).
Proof.
  intros Hpl. destruct Hh as (_ & _ & Hroot & _). unfold withdrawals_root_decode, root_bytes in *.
  erewrite bind_ok by done. destruct (withdrawals_root h) as [root|].
  - pose proof (encode_pos H256_codec (codec_wf H256_codec) root Hroot) as Hpos. rewrite length_app. zdec.
    by erewrite bind_ok by (by apply (rt_decode (c := H256_codec))).
  - cbn [app]. by zdec.
Qed.

Lemma base_fee_decode_ok :
  sl - zlen rest = pl ->
  base_fee_decode sl pl (base_fee_bytes h ++ root_bytes h ++ rest) = (Ok (base_fee_per_gas h), root_bytes h ++ rest).
Proof.
  intros Hpl. pose proof (base_fee_wf h Hh) as Hbf. unfold base_fee_decode, base_fee_bytes.
  erewrite bind_ok by done. destruct (base_fee_per_gas h) as [f|].
  - destruct (Hbf f eq_refl) as (H8 & H32 & Hpos). pose proof (encode_pos U256_codec (codec_wf U256_codec) f H32) as Hlen.
    rewrite !length_app. zdec. rewrite bool_decide_false by (intros E; apply U256_head in E; [lia|done]).
    erewrite bind_ok by (by apply (rt_decode (c := U256_codec))).
    erewrite bind_ok by (unfold st_lift; by rewrite to_u64_ok). done.
  - unfold root_bytes. destruct (withdrawals_root h) as [root|]; case_decide as Hs.
    + cbn [app length]. rewrite length_app. zdec. rewrite bool_decide_true by done.
      by erewrite bind_ok by apply advance1.
    + by destruct Hs.
    + by destruct Hs.
    + cbn [app]. by zdec.
Qed.
End HeaderDecode.

#[global] Instance header_rt : roundtrips header_codec.
Proof.
  split; cbn [header_codec encode encoded_length decode].
  - intros h out. by rewrite (header_encode_eq h out), (header_encode_eq h []), app_nil_l.
  - intros h Hh. rewrite header_encode_eq, app_nil_l, header_payload_length_ok by done.
    apply Forall_app; split; [|by apply header_payload_wf].
    apply Header_encode_wf. destruct Hh as (_ & _ & _ & Hl). unfold wf_header. cbn [payload_length]. lia.
  - intros h _ E. rewrite header_encode_eq, app_nil_l in E. apply app_eq_nil in E as [E _].
    exact (Header_encode_nonempty _ E).
  - intros h Hh. rewrite header_encode_eq, app_nil_l. unfold header_length. cbv zeta.
    rewrite header_payload_length_ok, length_app by done. destruct Hh as (_ & _ & _ & Hl).
    assert (Hw : wf_header (list_header (zlen (header_payload h)))) by (unfold wf_header; cbn [payload_length]; lia).
    pose proof (length_of_length_ok _ Hw) as L. pose proof (Header_length_bounds _ Hw) as B.
    cbn [payload_length] in L. rewrite L. unfold Header_length in *. rewrite wadd_small; [lia|unfold in_u; lia].
  - intros h rest Hh. rewrite header_encode_eq, app_nil_l, header_payload_length_ok, <- app_assoc by done.
    rewrite header_decode_eq. apply payload_decode_encode; [destruct Hh as (_ & _ & _ & Hl); lia|].
    intros sl Hsl. assert (Hpl : sl - zlen rest = zlen (header_payload h)) by (rewrite Hsl, length_app; lia).
    unfold header_reader. replace (header_payload h ++ rest)
      with (encode header_fields (header_tuple h) [] ++ base_fee_bytes h ++ root_bytes h ++ rest)
      by (unfold header_payload; by rewrite <- !app_assoc).
    pose proof (rt_decode (c := header_fields) (header_tuple h) (base_fee_bytes h ++ root_bytes h ++ rest) (proj1 Hh)) as Hd.
    rewrite (bind_ok _ _ _ _ _ Hd), (bind_ok _ _ _ _ _ (base_fee_decode_ok h Hh rest sl _ Hpl)).
    rewrite (bind_ok _ _ _ _ _ (root_decode_ok h Hh rest sl _ Hpl)). by destruct h.
Qed.

(** ** Sealed headers and blocks *)

Abbreviation wf_wtail :=
  (wf_tail_opt (vec_codec withdrawal_codec) (codec_wf (vec_codec withdrawal_codec)) (fun _ : unit => True)).
Abbreviation block_fields keccak256 :=
  (header_codec ⊗ vec_codec (tx_signed_codec keccak256) ⊗ vec_codec header_codec).
Abbreviation sealed_fields keccak256 :=
  (sealed_header_codec keccak256 ⊗ vec_codec (tx_signed_codec keccak256) ⊗ vec_codec (sealed_header_codec keccak256)).

Section Blocks.
Context (keccak256 : bytes -> Z).

#[global] Instance sealed_header_cwf : CodecWf (sealed_header_codec keccak256) :=
  fun h => codec_wf header_codec (sh_header h) /\ sh_hash h = hash_slow keccak256 (sh_header h).

#[global] Instance sealed_header_rt : roundtrips (sealed_header_codec keccak256).
Proof.
  split; cbn [sealed_header_codec encode encoded_length decode].
  - intros h out. apply (rt_append (c := header_codec)).
  - intros h [Hh _]. by apply (rt_wf (c := header_codec)).
  - intros h [Hh _]. by apply (rt_nonempty (c := header_codec)).
  - done.
  - intros h rest [Hh E]. apply on_copy_ok. unfold hash_slow in E.
    pose proof (rt_decode (c := header_codec) (sh_header h) rest Hh) as Hd.
    cbn [header_codec encode decode] in Hd. erewrite bind_ok by done.
    rewrite (bind_ok _ _ _ _ _ Hd). erewrite bind_ok by done. cbv zeta.
    rewrite length_app. replace (_ - _) with (zlen (header_encode (sh_header h) [])) by lia.
    erewrite bind_ok by (unfold st_lift; by rewrite slice_to_app). rewrite <- E. by destruct h.
Qed.

(** A list is never mistaken for the placeholder of a missing field. *)
Lemma vec_not_placeholder {A} (c : Codec A) `{!CodecWf c, !roundtrips c} v :
  codec_wf (vec_codec c) v -> not_placeholder (vec_codec c) v.
Proof.
  intros Hv. unfold not_placeholder. cbn [vec_codec encode]. rewrite (encode_list_eq c (codec_wf c)) by done.
  destruct Hv as [_ Hl]. rewrite Header_encode_eq by (unfold wf_header; cbn [payload_length]; lia).
  cbn [payload_length is_list]. unfold EMPTY_STRING_CODE. destruct (Z.ltb_spec (zlen (items_encode c v)) 56); cbn.
  - intros [= E]. lia.
  - intros [= E]. lia.
Qed.

Definition wf_withdrawals (w : option (list Withdrawal)) : Prop :=
  match w with Some w => codec_wf (vec_codec withdrawal_codec) w | None => True end.


Lemma wf_withdrawals_tail w : wf_withdrawals w -> wf_wtail (w, tt).
Proof.
  intros Hw. split; [|done]. cbn. intros v ->. split; [done|]. by apply (vec_not_placeholder withdrawal_codec).
Qed.

#[global] Instance withdrawals_tail_rt : TailRt withdrawals_tail wf_wtail.
Proof. apply tail_opt_rt; apply _. Qed.

(** A struct with a trailing list of withdrawals. *)
Definition wf_with_withdrawals {A} (c : Codec A) `{!CodecWf c} (x : A) (w : option (list Withdrawal)) : Prop :=
  codec_wf c x /\ wf_withdrawals w /\ zlen (derive_payload c withdrawals_tail (x, (w, tt))) < 2 ^ 63.

Lemma with_withdrawals_rt {A B} (c : Codec A) `{!CodecWf c, !roundtrips c}
    (f : A * (option (list Withdrawal) * unit) -> B) (g : B -> A * (option (list Withdrawal) * unit)) :
  (forall b, f (g b) = b) ->
  CodecRt (map_codec (derive_codec c withdrawals_tail) f g)
          (fun b => wf_with_withdrawals c (fst (g b)) (fst (snd (g b)))).
Proof.
  intros Hfg. eapply map_codec_rt; [by apply derive_codec_rt, withdrawals_tail_rt|].
  intros b (Hx & Hw & Hl). split; [|apply Hfg]. destruct (g b) as [x [w []]]. cbn [fst snd] in *.
  split; [done|]. split; [by apply wf_withdrawals_tail|done].
Qed.


#[global] Instance block_cwf : CodecWf (block_codec keccak256) :=
  fun b => wf_with_withdrawals (block_fields keccak256) (b_header b, (b_body b, b_ommers b)) (b_withdrawals b).

#[global] Instance sealed_block_cwf : CodecWf (sealed_block_codec keccak256) :=
  fun b => wf_with_withdrawals (sealed_fields keccak256) (sb_header b, (body b, ommers b)) (withdrawals b).

#[global] Instance block_rt : roundtrips (block_codec keccak256).
Proof. apply (with_withdrawals_rt (block_fields keccak256)). by intros []. Qed.

#[global] Instance sealed_block_rt : roundtrips (sealed_block_codec keccak256).
Proof. apply (with_withdrawals_rt (sealed_fields keccak256)). by intros []. Qed.
End Blocks.

(** ** Block identifiers in requests *)

#[global] Instance bhn_cwf : CodecWf bhn_codec :=
  fun b => match b with BHash h => wf_uint 32 h | BNumber n => wf_uint 8 n end.

Lemma u64_head n s : wf_uint 8 n -> exists b l, encode u64_codec n [] ++ s = b :: l /\ b <> 0xa0.
Proof.
  intros Hn. cbn [uint_codec encode]. unfold uint_encode, EMPTY_STRING_CODE.
  destruct (Z.eqb_spec n 0); [by eexists _, _|]. destruct (Z.ltb_spec n 0x80); [exists n, s; split; [done|lia]|].
  eexists _, _. split; [done|]. unfold wadd, wrap.
  pose proof (length_zeroless (be_bytes 8 n)) as Hl. rewrite length_be_bytes in Hl.
  rewrite (Z.mod_small (zlen _)), Z.mod_small by lia. lia.
Qed.

#[global] Instance bhn_rt : roundtrips bhn_codec.
Proof.
  split; cbn [bhn_codec encode encoded_length decode].
  - intros [h|n] out; apply rt_append.
  - intros [h|n] H; [by apply (rt_wf (c := H256_codec))|by apply (rt_wf (c := u64_codec))].
  - intros [h|n] H; [by apply (rt_nonempty (c := H256_codec))|by apply (rt_nonempty (c := u64_codec))].
  - intros [h|n] H; [by apply (rt_length (c := H256_codec))|by apply (rt_length (c := u64_codec))].
  - intros [h|n] rest H; cbn [bhn_encode]; unfold bhn_decode; erewrite bind_ok by done.
    + pose proof (rt_decode (c := H256_codec) h rest H) as Hd.
      destruct (hash_head 32 h ltac:(lia)) as [l E]. rewrite E in Hd |- *. cbn [app] in Hd |- *.
      change (0x80 + Z.of_nat 32 =? 0xa0) with true. cbn iota. by rewrite (bind_ok _ _ _ _ _ Hd).
    + pose proof (rt_decode (c := u64_codec) n rest H) as Hd.
      destruct (u64_head n rest H) as (b & l & E & Hb). rewrite E in Hd |- *. zdec.
      by rewrite (bind_ok _ _ _ _ _ Hd).
Qed.

#[global] Instance direction_cwf : CodecWf direction_codec := fun _ => True.
#[global] Instance direction_ok : lawful direction_codec.
Proof. eapply map_codec_ok; [apply bool_codec_ok|by intros []|by intros []]. Qed.

(** ** A block and its sealed form have the same encoding *)

Section Seal.
Context (keccak256 : bytes -> Z).
Abbreviation sealed := (sealed_header_codec keccak256).

Lemma seal_wf h : codec_wf header_codec h -> codec_wf sealed (seal_slow keccak256 h).
Proof. by split. Qed.

Lemma seal_items l : items_encode sealed (seal_slow keccak256 <$> l) = items_encode header_codec l.
Proof. unfold items_encode. by rewrite <- list_fmap_compose. Qed.

Lemma seal_vec_wf l : codec_wf (vec_codec header_codec) l -> codec_wf (vec_codec sealed) (seal_slow keccak256 <$> l).
Proof.
  intros [Hl Hb]. split; [|by rewrite seal_items]. apply Forall_fmap. eapply Forall_impl; [exact Hl|].
  intros h Hh. by apply seal_wf.
Qed.

Lemma seal_vec_encode l : codec_wf (vec_codec header_codec) l ->
  encode (vec_codec sealed) (seal_slow keccak256 <$> l) [] = encode (vec_codec header_codec) l [].
Proof.
  intros Hl. cbn [vec_codec encode]. rewrite (encode_list_eq header_codec (codec_wf header_codec)) by done.
  rewrite (encode_list_eq sealed (codec_wf sealed)) by (by apply seal_vec_wf). by rewrite seal_items.
Qed.

(** The encoding of three fields. *)
Lemma fields3_encode {A B C} (c : Codec A) (d : Codec B) (e : Codec C) `{!CodecWf c, !CodecWf d, !CodecWf e}
    `{!roundtrips c, !roundtrips d, !roundtrips e} x y z :
  encode (c ⊗ d ⊗ e) (x, (y, z)) [] = encode c x [] ++ encode d y [] ++ encode e z [].
Proof.
  rewrite (fields_encode_eq c (d ⊗ e) (codec_wf c) (codec_wf (d ⊗ e))). cbn [fst snd].
  by rewrite (fields_encode_eq d e (codec_wf d) (codec_wf e)).
Qed.

Lemma seal_fields_encode h txs l : codec_wf (vec_codec header_codec) l ->
  encode (sealed_fields keccak256) (seal_slow keccak256 h, (txs, seal_slow keccak256 <$> l)) []
  = encode (block_fields keccak256) (h, (txs, l)) [].
Proof.
  intros Hl. rewrite (fields3_encode sealed (vec_codec (tx_signed_codec keccak256)) (vec_codec sealed)).
  rewrite (fields3_encode header_codec (vec_codec (tx_signed_codec keccak256)) (vec_codec header_codec)).
  by rewrite seal_vec_encode.
Qed.

Lemma seal_fields_wf h txs l :
  codec_wf (block_fields keccak256) (h, (txs, l)) ->
  codec_wf (sealed_fields keccak256) (seal_slow keccak256 h, (txs, seal_slow keccak256 <$> l)).
Proof.
  intros (Hh & (Htx & Hl & B') & B). cbn [fst snd] in *.
  assert (Hs : codec_wf (vec_codec sealed) (seal_slow keccak256 <$> l)) by (by apply seal_vec_wf).
  split; [by apply seal_wf|]. split.
  - split; [done|]. split; [done|]. cbn [fst snd].
    rewrite (fields_encode_eq _ _ (codec_wf (vec_codec (tx_signed_codec keccak256))) (codec_wf (vec_codec sealed))).
    rewrite (fields_encode_eq _ _ (codec_wf (vec_codec (tx_signed_codec keccak256))) (codec_wf (vec_codec header_codec))) in B'.
    cbn [fst snd] in *. by rewrite seal_vec_encode.
  - by rewrite seal_fields_encode.
Qed.

Lemma seal_block_wf b :
  codec_wf (block_codec keccak256) b -> codec_wf (sealed_block_codec keccak256) (block_seal_slow keccak256 b).
Proof.
  intros (Hf & Hw & B). split; [by apply seal_fields_wf|]. split; [done|].
  unfold derive_payload in *. cbn [fst snd block_seal_slow sb_header body ommers withdrawals] in *.
  rewrite seal_fields_encode; [done|apply Hf].
Qed.

Lemma seal_block_encode b :
  codec_wf (block_codec keccak256) b ->
  encode (sealed_block_codec keccak256) (block_seal_slow keccak256 b) [] = encode (block_codec keccak256) b [].
Proof.
  intros Hb. pose proof (seal_block_wf b Hb) as Hs. destruct Hb as (Hf & Hw & B), Hs as (Hf' & Hw' & B').
  cbn [block_codec sealed_block_codec map_codec derive_codec encode].
  cbn [block_seal_slow sb_header body ommers withdrawals] in *.
  rewrite (derive_encode_eq _ _ (codec_wf (sealed_fields keccak256)) wf_wtail).
  rewrite (derive_encode_eq _ _ (codec_wf (block_fields keccak256)) wf_wtail).
  rewrite (derive_header_eq _ _ (codec_wf (sealed_fields keccak256)) wf_wtail)
    by (split_and!; [done|by apply wf_withdrawals_tail|done]).
  rewrite (derive_header_eq _ _ (codec_wf (block_fields keccak256)) wf_wtail)
    by (split_and!; [done|by apply wf_withdrawals_tail|done]).
  unfold derive_payload. cbn [fst snd]. rewrite seal_fields_encode by apply Hf. done.
Qed.
End Seal.

(** ** Theorems *)

(** C8. Decoding the network encoding of a signed transaction gives the
    transaction back, of any type, with its hash recomputed from the bytes;
    [length] is the exact size of the encoding; and decoding the raw encoding
    gives it back too, whatever follows in the input. *)
Theorem transaction_roundtrip (keccak256 : bytes -> Z) (t : TransactionSigned) (rest : bytes) :
  wf_tx_signed t -> ts_hash t = recalculate_hash keccak256 t ->
  tx_signed_decode keccak256 (encode_inner t [] true ++ rest) = (Ok t, rest) /\
  payload_len_inner t = zlen (encode_inner t [] true) /\
  decode_enveloped keccak256 (encode_inner t [] false ++ rest) = Ok t.
Proof.
  intros Ht Hh. split; [by apply (rt_decode (c := tx_signed_codec keccak256))|].
  split; [by apply payload_len_inner_ok|].
  unfold recalculate_hash in Hh. rewrite (encode_inner_eq t Ht) in *. cbn [app] in *.
  assert (Et : mkTransactionSigned (keccak256 (raw_encoding t)) (signature t) (ts_transaction t) = t)
    by (rewrite <- Hh; by destruct t).
  destruct (Z.eq_dec (tx_type_byte (ts_transaction t)) 0) as [E|E].
  - destruct (ts_transaction t) as [x|x|x] eqn:Etx; try done.
    assert (Hr : raw_encoding t = raw_list t) by (unfold raw_encoding; by rewrite Etx).
    destruct (raw_list_cons t Ht) as (b & l & El & Hb).
    pose proof (decode_legacy_ok t Ht keccak256 x rest Etx) as Hd. rewrite Etx, <- Hr, Et, Hr, El in Hd.
    rewrite Hr, El. unfold decode_enveloped. cbn [app] in *. zdec. by rewrite Hd.
  - pose proof (decode_typed_ok t Ht keccak256 rest E) as Hd. rewrite Et in Hd.
    assert (Hr : raw_encoding t = tx_type_byte (ts_transaction t) :: raw_list t)
      by (unfold raw_encoding; by destruct (ts_transaction t)).
    rewrite Hr in *. unfold decode_enveloped. cbn [app] in *.
    replace (EMPTY_LIST_CODE <=? tx_type_byte (ts_transaction t)) with false
      by (by destruct (ts_transaction t)). by rewrite Hd.
Qed.

Definition example_tx : TransactionSigned :=
  mkTransactionSigned 7 (mkSignature 11 12 true)
    (TEip1559 (mkTxEip1559 1 2 21000 30 3 (Call 5) 6 [mkAccessListItem 9 [8; 4]] [1; 2; 255])).

(** Discharges the range conditions of a concrete value. *)
Ltac wf_eval := repeat first [split | constructor]; vm_compute; done || (intros; discriminate).

Lemma example_tx_wf : wf_tx_signed example_tx.
Proof. wf_eval. Qed.

Lemma transaction_roundtrip_witness :
  tx_signed_decode (fun _ => 7) (encode_inner example_tx [] true ++ [1; 2]) = (Ok example_tx, [1; 2]).
Proof.
  apply (transaction_roundtrip (fun _ => 7) example_tx [1; 2]); [exact example_tx_wf|reflexivity].
Defined.

(** The network decoders of transactions and of receipts return a value or
    an error on every input: no index or slice they take is out of bounds. *)
Theorem network_decode_total (keccak256 : bytes -> Z) (buf : bytes) :
  is_slice buf -> safe (fst (tx_signed_decode keccak256 buf)) /\ safe (fst (receipt_decode buf)).
Proof. intros Hb. split; by apply dk_safe. Qed.

Lemma network_decode_total_witness :
  safe (fst (tx_signed_decode (fun _ => 0) [0xc1; 0xf8])) /\ safe (fst (receipt_decode [0xb8])).
Proof.
  split; [apply (network_decode_total (fun _ => 0) [0xc1; 0xf8])|apply (network_decode_total (fun _ => 0) [0xb8])];
    (split; [repeat constructor; done|reflexivity]).
Defined.

(** A block encoded for the network is decoded by a peer into its sealed
    form: the same transactions, ommers and withdrawals, and the header sealed
    with the hash of exactly the bytes that were sent. *)
Theorem block_roundtrip_sealed (keccak256 : bytes -> Z) (b : Block) (rest : bytes) :
  codec_wf (block_codec keccak256) b ->
  decode (block_codec keccak256) (encode (block_codec keccak256) b [] ++ rest) = (Ok b, rest) /\
  decode (sealed_block_codec keccak256) (encode (block_codec keccak256) b [] ++ rest)
  = (Ok (block_seal_slow keccak256 b), rest) /\
  unseal (block_seal_slow keccak256 b) = b.
Proof.
  intros Hb. split; [by apply rt_decode|]. split.
  - rewrite <- seal_block_encode by done. by apply rt_decode, seal_block_wf.
  - destruct b as [h txs l w]. unfold unseal, block_seal_slow. cbn. f_equal.
    rewrite <- list_fmap_compose. apply list_fmap_id.
Qed.

Definition example_header : Header :=
  mkHeader 1 2 3 4 5 6 (Some 77) 0 0 100 30000000 21000 1700000000 9 0 (Some 7) [104; 105].

Definition example_block : Block :=
  mkBlock example_header [example_tx] [example_header] (Some [mkWithdrawal 1 2 3 4]).

Lemma block_roundtrip_sealed_witness :
  decode (sealed_block_codec (fun _ => 7)) (encode (block_codec (fun _ => 7)) example_block [] ++ [5])
  = (Ok (block_seal_slow (fun _ => 7) example_block), [5]).
Proof. apply (block_roundtrip_sealed (fun _ => 7) example_block [5]). wf_eval. Defined.

(** ** What the decoders do on other inputs *)

Definition with_base_fee (f : option Z) (h : Header) : Header :=
  mkHeader (parent_hash h) (ommers_hash h) (beneficiary h) (state_root h) (transactions_root h)
    (receipts_root h) (withdrawals_root h) (logs_bloom h) (difficulty h) (number h) (h_gas_limit h)
    (gas_used h) (timestamp h) (mix_hash h) (h_nonce h) f (extra_data h).

Section ZeroBaseFee.
Context (h : Header) (Hh : codec_wf header_codec (with_base_fee None h)).
Abbreviation h0 := (with_base_fee (Some 0) h).

Lemma zero_payload_length :
  header_payload_length h0 = zlen (header_payload h0) /\ zlen (header_payload h0) < 2 ^ 63.
Proof.
  destruct Hh as (Hw & _ & Hroot & Hl).
  change (header_payload (with_base_fee None h)) with
    (encode header_fields (header_tuple h) [] ++ base_fee_bytes (with_base_fee None h) ++ root_bytes h) in Hl.
  change (header_payload h0) with (encode header_fields (header_tuple h) [] ++ [EMPTY_STRING_CODE] ++ root_bytes h).
  change (header_payload_length h0) with
    (wadd 64 (wadd 64 (encoded_length header_fields (header_tuple h)) 1)
       match withdrawals_root h with Some root => encoded_length H256_codec root | None => 0 end).
  rewrite (rt_length (c := header_fields)) by done. unfold root_bytes in *.
  rewrite !length_app in *. cbn [length withdrawals_root with_base_fee] in *.
  destruct (withdrawals_root h) as [root|]; [rewrite (rt_length (c := H256_codec)) by done|]; cbn [length] in *;
    rewrite (wadd_small 64 (zlen (encode _ _ _)) 1), wadd_small by (unfold in_u; lia); lia.
Qed.

Lemma zero_decode rest :
  header_decode (header_encode h0 [] ++ rest) = (Ok (with_base_fee None h), rest).
Proof.
  destruct zero_payload_length as [Hp Hl]. rewrite header_encode_eq, app_nil_l, Hp, <- app_assoc, header_decode_eq.
  apply payload_decode_encode; [done|]. intros sl Hsl.
  assert (Hpl : sl - zlen rest = zlen (header_payload h0)) by (rewrite Hsl, length_app; lia).
  unfold header_reader. replace (header_payload h0 ++ rest)
    with (encode header_fields (header_tuple h) [] ++ EMPTY_STRING_CODE :: root_bytes h ++ rest)
    by (unfold header_payload; by rewrite <- !app_assoc).
  pose proof (rt_decode (c := header_fields) (header_tuple h) (EMPTY_STRING_CODE :: root_bytes h ++ rest) (proj1 Hh)) as Hd.
  rewrite (bind_ok _ _ _ _ _ Hd).
  assert (Hbf : base_fee_decode sl (zlen (header_payload h0)) (EMPTY_STRING_CODE :: root_bytes h ++ rest)
                = (Ok None, root_bytes h ++ rest)).
  { unfold base_fee_decode. erewrite bind_ok by done. cbn [length]. rewrite length_app. zdec.
    rewrite bool_decide_true by done. by erewrite bind_ok by apply advance1. }
  rewrite (bind_ok _ _ _ _ _ Hbf).
  rewrite (bind_ok _ _ _ _ _ (root_decode_ok (with_base_fee None h) Hh rest sl _ Hpl)). done.
Qed.
End ZeroBaseFee.

(** A base fee of zero does not survive the header's encoding: it is written
    as the empty string, which the decoder takes for a missing base fee. *)
Theorem header_zero_base_fee_lost (h : Header) (rest : bytes) :
  codec_wf header_codec (with_base_fee None h) ->
  decode header_codec (encode header_codec (with_base_fee (Some 0) h) [] ++ rest)
  = (Ok (with_base_fee None h), rest).
Proof. intros Hh. by apply zero_decode. Qed.

Lemma header_zero_base_fee_lost_witness :
  decode header_codec (encode header_codec (with_base_fee (Some 0) example_header) [] ++ [])
  = (Ok (with_base_fee None example_header), []).
Proof. apply header_zero_base_fee_lost. wf_eval. Defined.

(** One field that panics makes the whole sequence panic. *)
Definition panics {A} (d : Codec A) (y : A) (s : bytes) : Prop :=
  (forall x out, encode d x out = out ++ encode d x []) /\ fst (decode d (encode d y [] ++ s)) = Panic.

Lemma fields_append {A B} (c : Codec A) (d : Codec B) :
  (forall x out, encode c x out = out ++ encode c x []) -> (forall x out, encode d x out = out ++ encode d x []) ->
  forall y out, encode (c ⊗ d) y out = out ++ encode (c ⊗ d) y [].
Proof.
  intros Hc Hd y out. cbn. by rewrite Hd, (Hc _ out), (Hd _ (encode c _ [])), app_assoc.
Qed.

Lemma fields_panic {A B} (c : Codec A) (d : Codec B) wf (Hc : CodecRt c wf) x y s :
  wf x -> panics d y s -> panics (c ⊗ d) (x, y) s.
Proof.
  intros Hx [Happ Hd]. split; [apply fields_append; [apply rt_append|done]|].
  cbn [fields_codec encode decode fst snd]. rewrite Happ, <- app_assoc.
  pose proof (rt_decode x (encode d y [] ++ s) Hx) as Hr. rewrite (bind_ok _ _ _ _ _ Hr).
  unfold mbind, st_bind. destruct (decode d _) as [[]]; done.
Qed.

(** A number that does not fit in 64 bits panics in its reader. *)
Lemma u256_u64_panic {B} (d : Codec B) n y s :
  2 ^ 64 <= n < 2 ^ 256 -> (forall x out, encode d x out = out ++ encode d x []) ->
  panics (u256_u64_codec ⊗ d) (n, y) s.
Proof.
  intros Hn Hd. split; [apply fields_append; [apply rt_append|done]|].
  cbn [fields_codec u256_u64_codec encode decode fst snd]. rewrite Hd, <- app_assoc.
  assert (Hw : wf_uint 32 n) by (unfold wf_uint; change (256 ^ Z.of_nat 32) with (2 ^ 256); lia).
  pose proof (rt_decode (c := U256_codec) n (encode d y [] ++ s) Hw) as Hc.
  unfold mbind, st_bind in *. rewrite Hc. unfold st_lift, to_u64. by zdec.
Qed.

(** The header fields before the block number. *)
Definition wf_header_prefix (h : Header) : Prop :=
  wf_uint 32 (parent_hash h) /\ wf_uint 32 (ommers_hash h) /\ wf_uint 20 (beneficiary h) /\
  wf_uint 32 (state_root h) /\ wf_uint 32 (transactions_root h) /\ wf_uint 32 (receipts_root h) /\
  wf_uint 256 (logs_bloom h) /\ wf_uint 32 (difficulty h).

Lemma header_fields_panic h s :
  wf_header_prefix h -> 2 ^ 64 <= number h < 2 ^ 256 -> panics header_fields (header_tuple h) s.
Proof.
  intros (H1 & H2 & H3 & H4 & H5 & H6 & H7 & H8) Hn.
  apply (fields_panic _ _ _ (CodecOk_rt _ _ H256_ok) _ _ _ H1), (fields_panic _ _ _ (CodecOk_rt _ _ H256_ok) _ _ _ H2).
  apply (fields_panic _ _ _ (CodecOk_rt _ _ address_ok) _ _ _ H3), (fields_panic _ _ _ (CodecOk_rt _ _ H256_ok) _ _ _ H4).
  apply (fields_panic _ _ _ (CodecOk_rt _ _ H256_ok) _ _ _ H5), (fields_panic _ _ _ (CodecOk_rt _ _ H256_ok) _ _ _ H6).
  apply (fields_panic _ _ _ (CodecOk_rt _ _ bloom_ok) _ _ _ H7), (fields_panic _ _ _ (CodecOk_rt _ _ U256_ok) _ _ _ H8).
  apply (u256_u64_panic _ _ _ _ Hn).
  repeat (apply fields_append; [apply rt_append|]). apply rt_append.
Qed.

(** A header whose block number needs more than 64 bits makes the decoder
    panic instead of failing: a peer that sends one crashes the task that reads
    it. *)
Theorem header_number_panics (h : Header) (rest : bytes) :
  wf_header_prefix h -> 2 ^ 64 <= number h < 2 ^ 256 -> 0 <= header_payload_length h ->
  header_payload_length h <= zlen (header_payload h ++ rest) < 2 ^ 63 ->
  fst (decode header_codec (encode header_codec h [] ++ rest)) = Panic.
Proof.
  intros Hw Hn Hp0 Hp. cbn [header_codec encode decode].
  rewrite header_encode_eq, app_nil_l, <- app_assoc. unfold header_decode.
  erewrite bind_ok by (apply Header_decode_encode;
    [unfold wf_header; cbn [payload_length]; lia|cbn [payload_length]; lia|by unfold header_guard]).
  cbn [is_list negb]. erewrite bind_ok by done. cbv zeta. replace (header_payload h ++ rest)
    with (encode header_fields (header_tuple h) [] ++ base_fee_bytes h ++ root_bytes h ++ rest)
    by (unfold header_payload; by rewrite <- !app_assoc).
  pose proof (proj2 (header_fields_panic h (base_fee_bytes h ++ root_bytes h ++ rest) Hw Hn)) as H.
  unfold mbind, st_bind. destruct (decode header_fields _) as [o s']. cbn in H. by subst o.
Qed.

Definition huge_number_header : Header :=
  mkHeader 1 2 3 4 5 6 None 0 0 (2 ^ 64) 30000000 21000 1700000000 9 0 (Some 7) [].

Lemma header_number_panics_witness :
  fst (decode header_codec (encode header_codec huge_number_header [] ++ [])) = Panic.
Proof. apply header_number_panics; wf_eval. Defined.

(** The legacy decoder never compares the list header with what it reads, and
    hashes only the bytes the header covers: two different transactions, both
    accepted from the network, get the same hash, whatever the hash function. *)
Theorem legacy_hash_collision (keccak256 : bytes -> Z) :
  exists (b1 b2 : bytes) (t1 t2 : TransactionSigned),
    tx_signed_decode keccak256 b1 = (Ok t1, []) /\ tx_signed_decode keccak256 b2 = (Ok t2, []) /\
    ts_transaction t1 <> ts_transaction t2 /\ ts_hash t1 = ts_hash t2.
Proof.
  exists [0xc0; 0x80; 0x80; 0x80; 0x80; 0x80; 0x80; 27; 1; 1], [0xc0; 0x01; 0x80; 0x80; 0x80; 0x80; 0x80; 27; 1; 1].
  eexists _, _. split; [vm_compute; reflexivity|]. split; [vm_compute; reflexivity|]. by split.
Qed.

(** Below 35, every [v] other than 27 is read as odd parity: of the values 0
    to 34 only 27 and 28 are written, so 33 other encodings of a signature are
    accepted and re-encoded as 28. *)
Theorem legacy_v_accepts (v r s : Z) (rest : bytes) :
  0 <= v < 35 -> v <> 27 -> wf_uint 32 r -> wf_uint 32 s ->
  decode_with_eip155_chain_id (encode vrs_fields (v, (r, s)) [] ++ rest)
  = (Ok (mkSignature r s true, None), rest) /\
  sig_v (mkSignature r s true) None = 28.
Proof.
  intros Hv Hne Hr Hs. split; [|done]. cbn [encode fields_codec fst snd].
  rewrite (rt_append s), (rt_append r), <- !app_assoc. unfold decode_with_eip155_chain_id.
  assert (Hw : wf_uint 8 v) by (unfold wf_uint; change (256 ^ Z.of_nat 8) with (2 ^ 64); lia).
  erewrite bind_ok by (by apply rt_decode). erewrite bind_ok by (by apply rt_decode).
  erewrite bind_ok by (by apply rt_decode). zdec. cbv zeta.
  replace (wrap 64 (v - 27) =? 0) with false; [done|]. symmetry. apply Z.eqb_neq. unfold wrap.
  destruct (Z.lt_ge_cases v 27); [|rewrite Z.mod_small; lia].
  rewrite <- (Z_mod_plus_full _ 1), Z.mod_small; lia.
Qed.

Lemma legacy_v_accepts_witness :
  decode_with_eip155_chain_id (encode vrs_fields (3, (10, 11)) [] ++ [1]) = (Ok (mkSignature 10 11 true, None), [1]).
Proof. apply (legacy_v_accepts 3 10 11 [1]); unfold wf_uint; cbn; lia. Defined.
