(* ===== verification/EthWire.v ===== *)
(** * Messages of the eth and p2p protocols

    crates/net/eth-wire/src: types/{version,status,blocks,broadcast,receipts,
    state,transactions,message}.rs, errors/{eth,p2p}.rs, disconnect.rs,
    capability.rs, hello.rs and the messages of p2pstream.rs; crates/primitives/src/
    chain/mod.rs ([Chain]).  The named chains of the ethers crate are a parameter:
    the type [NamedChain] with its conversions from and to a [u64].  Strings are
    their UTF-8 bytes. *)
From S2P Require Import Prelude Bytes Rlp RlpDerive Primitives SubState ChainSpec PrimitivesRlp.

(** ** Versions and message ids *)

Inductive EthVersion := Eth66 | Eth67 | Eth68.

Definition version_u8 (v : EthVersion) : Z := match v with Eth66 => 66 | Eth67 => 67 | Eth68 => 68 end.

(** [TryFrom<u8> for EthVersion]; [None] is [ParseVersionError]. *)
Definition version_try_from (u : Z) : option EthVersion :=
  if u =? 66 then Some Eth66 else if u =? 67 then Some Eth67 else if u =? 68 then Some Eth68 else None.

Definition total_messages (v : EthVersion) : Z := match v with Eth66 => 15 | Eth67 | Eth68 => 13 end.

Inductive EthMessageID :=
| IdStatus | IdNewBlockHashes | IdTransactions | IdGetBlockHeaders | IdBlockHeaders | IdGetBlockBodies
| IdBlockBodies | IdNewBlock | IdNewPooledTransactionHashes | IdGetPooledTransactions | IdPooledTransactions
| IdGetNodeData | IdNodeData | IdGetReceipts | IdReceipts.

Definition message_id_u8 (id : EthMessageID) : Z :=
  match id with
  | IdStatus => 0x00 | IdNewBlockHashes => 0x01 | IdTransactions => 0x02 | IdGetBlockHeaders => 0x03
  | IdBlockHeaders => 0x04 | IdGetBlockBodies => 0x05 | IdBlockBodies => 0x06 | IdNewBlock => 0x07
  | IdNewPooledTransactionHashes => 0x08 | IdGetPooledTransactions => 0x09 | IdPooledTransactions => 0x0a
  | IdGetNodeData => 0x0d | IdNodeData => 0x0e | IdGetReceipts => 0x0f | IdReceipts => 0x10
  end.

Definition message_id_of (id : Z) : option EthMessageID :=
  match id with
  | 0x00 => Some IdStatus | 0x01 => Some IdNewBlockHashes | 0x02 => Some IdTransactions
  | 0x03 => Some IdGetBlockHeaders | 0x04 => Some IdBlockHeaders | 0x05 => Some IdGetBlockBodies
  | 0x06 => Some IdBlockBodies | 0x07 => Some IdNewBlock | 0x08 => Some IdNewPooledTransactionHashes
  | 0x09 => Some IdGetPooledTransactions | 0x0a => Some IdPooledTransactions | 0x0d => Some IdGetNodeData
  | 0x0e => Some IdNodeData | 0x0f => Some IdGetReceipts | 0x10 => Some IdReceipts
  | _ => None
  end.

(** [Encodable] and [Decodable] of [EthMessageID]: one raw byte. *)
Definition message_id_codec : Codec EthMessageID :=
  mkCodec (fun id out => put_u8 (message_id_u8 id) out) (fun _ => 1)
    (buf ← st_get;
     match buf with
     | [] => st_throw InputTooShort
     | id :: _ =>
         match message_id_of id with
         | None => st_throw (Custom "Invalid message ID")
         | Some id => buf_advance 1;; mret id
         end
     end).

(** ** Disconnect reasons *)

Inductive DisconnectReason :=
| DisconnectRequested | TcpSubsystemError | ProtocolBreach | UselessPeer | TooManyPeers | AlreadyConnected
| IncompatibleP2PProtocolVersion | NullNodeIdentity | ClientQuitting | UnexpectedHandshakeIdentity
| ConnectedToSelf | PingTimeout | SubprotocolSpecific.

Definition reason_u8 (r : DisconnectReason) : Z :=
  match r with
  | DisconnectRequested => 0x00 | TcpSubsystemError => 0x01 | ProtocolBreach => 0x02 | UselessPeer => 0x03
  | TooManyPeers => 0x04 | AlreadyConnected => 0x05 | IncompatibleP2PProtocolVersion => 0x06
  | NullNodeIdentity => 0x07 | ClientQuitting => 0x08 | UnexpectedHandshakeIdentity => 0x09
  | ConnectedToSelf => 0x0a | PingTimeout => 0x0b | SubprotocolSpecific => 0x10
  end.

(** [TryFrom<u8>]; [None] is [UnknownDisconnectReason]. *)
Definition reason_try_from (value : Z) : option DisconnectReason :=
  match value with
  | 0x00 => Some DisconnectRequested | 0x01 => Some TcpSubsystemError | 0x02 => Some ProtocolBreach
  | 0x03 => Some UselessPeer | 0x04 => Some TooManyPeers | 0x05 => Some AlreadyConnected
  | 0x06 => Some IncompatibleP2PProtocolVersion | 0x07 => Some NullNodeIdentity | 0x08 => Some ClientQuitting
  | 0x09 => Some UnexpectedHandshakeIdentity | 0x0a => Some ConnectedToSelf | 0x0b => Some PingTimeout
  | 0x10 => Some SubprotocolSpecific
  | _ => None
  end.

(** Written as a list of one byte; read as such a list or as the bare byte. *)
Definition reason_decode : dec DisconnectReason :=
  buf ← st_get;
  if is_empty buf then st_throw InputTooShort else
  if 2 <? zlen buf then st_throw Overflow else
  (if 1 <? zlen buf then
     header ← Header_decode;
     if negb (is_list header) then st_throw UnexpectedString else mret tt
   else mret tt : dec unit);;
  b ← buf_index0;
  if b =? 0x00 then buf_advance 1;; mret DisconnectRequested
  else
    v ← decode u8_codec;
    match reason_try_from v with
    | Some r => mret r
    | None => st_throw (Custom "unknown disconnect reason")
    end.

Definition reason_codec : Codec DisconnectReason :=
  mkCodec (fun r out => encode (vec_codec u8_codec) [reason_u8 r] out)
          (fun r => encoded_length (vec_codec u8_codec) [reason_u8 r])
          reason_decode.

(** ** Payloads *)

(** [primitives::Chain] over the named chains of ethers. *)
Inductive Chain (NamedChain : Type) := Named (c : NamedChain) | ChainId (id : Z).
Arguments Named {NamedChain} c.
Arguments ChainId {NamedChain} id.

Record Status (NamedChain : Type) := mkStatus {
  st_version : Z;
  st_chain : Chain NamedChain;
  st_total_difficulty : Z;
  st_blockhash : Z;
  st_genesis : Z;
  st_forkid : ForkId
}.
Arguments mkStatus {NamedChain} _ _ _ _ _ _.
Arguments st_version {NamedChain} _.
Arguments st_chain {NamedChain} _.
Arguments st_total_difficulty {NamedChain} _.
Arguments st_blockhash {NamedChain} _.
Arguments st_genesis {NamedChain} _.
Arguments st_forkid {NamedChain} _.

Record GetBlockHeaders := mkGetBlockHeaders {
  start_block : BlockHashOrNumber;
  limit : Z;
  skip : Z;
  direction : HeadersDirection
}.

Record BlockBody := mkBlockBody {
  bb_transactions : list TransactionSigned;
  bb_ommers : list Header;
  bb_withdrawals : option (list Withdrawal)
}.

Record BlockHashNumber := mkBlockHashNumber { bhn_hash : Z; bhn_number : Z }.

Record NewBlock := mkNewBlock { nb_block : Block; nb_td : Z }.

Record NewPooledTransactionHashes68 := mkHashes68 {
  h68_types : bytes;
  h68_sizes : list Z;
  h68_hashes : list Z
}.

Record RequestPair (A : Type) := mkRequestPair { request_id : Z; rp_message : A }.
Arguments mkRequestPair {A} _ _.
Arguments request_id {A} _.
Arguments rp_message {A} _.

Inductive EthMessage (NamedChain : Type) :=
| MStatus (s : Status NamedChain)
| MNewBlockHashes (l : list BlockHashNumber)
| MNewBlock (b : NewBlock)
| MTransactions (l : list TransactionSigned)
| MNewPooledTransactionHashes66 (l : list Z)
| MNewPooledTransactionHashes68 (h : NewPooledTransactionHashes68)
| MGetBlockHeaders (r : RequestPair GetBlockHeaders)
| MBlockHeaders (r : RequestPair (list Header))
| MGetBlockBodies (r : RequestPair (list Z))
| MBlockBodies (r : RequestPair (list BlockBody))
| MGetPooledTransactions (r : RequestPair (list Z))
| MPooledTransactions (r : RequestPair (list TransactionSigned))
| MGetNodeData (r : RequestPair (list Z))
| MNodeData (r : RequestPair (list bytes))
| MGetReceipts (r : RequestPair (list Z))
| MReceipts (r : RequestPair (list (list Receipt))).
Arguments MStatus {NamedChain} s.
Arguments MNewBlockHashes {NamedChain} l.
Arguments MNewBlock {NamedChain} b.
Arguments MTransactions {NamedChain} l.
Arguments MNewPooledTransactionHashes66 {NamedChain} l.
Arguments MNewPooledTransactionHashes68 {NamedChain} h.
Arguments MGetBlockHeaders {NamedChain} r.
Arguments MBlockHeaders {NamedChain} r.
Arguments MGetBlockBodies {NamedChain} r.
Arguments MBlockBodies {NamedChain} r.
Arguments MGetPooledTransactions {NamedChain} r.
Arguments MPooledTransactions {NamedChain} r.
Arguments MGetNodeData {NamedChain} r.
Arguments MNodeData {NamedChain} r.
Arguments MGetReceipts {NamedChain} r.
Arguments MReceipts {NamedChain} r.

Definition message_id {NamedChain} (m : EthMessage NamedChain) : EthMessageID :=
  match m with
  | MStatus _ => IdStatus
  | MNewBlockHashes _ => IdNewBlockHashes
  | MNewBlock _ => IdNewBlock
  | MTransactions _ => IdTransactions
  | MNewPooledTransactionHashes66 _ | MNewPooledTransactionHashes68 _ => IdNewPooledTransactionHashes
  | MGetBlockHeaders _ => IdGetBlockHeaders
  | MBlockHeaders _ => IdBlockHeaders
  | MGetBlockBodies _ => IdGetBlockBodies
  | MBlockBodies _ => IdBlockBodies
  | MGetPooledTransactions _ => IdGetPooledTransactions
  | MPooledTransactions _ => IdPooledTransactions
  | MGetNodeData _ => IdGetNodeData
  | MNodeData _ => IdNodeData
  | MGetReceipts _ => IdGetReceipts
  | MReceipts _ => IdReceipts
  end.

(** ** Errors *)

Inductive P2PHandshakeError :=
| HelloNotInHandshake | NonHelloMessageInHandshake | NoSharedCapabilities | P2PNoResponse | Timeout
| HandshakeDisconnected (r : DisconnectReason) | HandshakeDecodeError (e : DecodeError).

Inductive SharedCapabilityError := UnsupportedVersion (version : Z) | UnknownCapabilityError.

(** The kinds of [io::Error] the sources tell apart. *)
Inductive ErrorKind := ConnectionRefused | ConnectionReset | BrokenPipe | OtherKind (kind : Z).

(** [Snap] stands for the errors of the snap crate. *)
Inductive P2PStreamError :=
| Io (kind : ErrorKind) | RlpErr (e : DecodeError) | Snap
| HandshakeError (e : P2PHandshakeError)
| MessageTooBig (message_size max_size : Z)
| UnknownReservedMessageId (id : Z) | EmptyProtocolMessage | UnexpectedPong | PingTimeoutError
| CapabilityError (e : SharedCapabilityError)
| MismatchedP2PVersion (expected got : Z) | PingBeforeHandshake | SendBufferFull
| Disconnected (r : DisconnectReason) | UnknownDisconnectReason (r : Z).

Inductive EthHandshakeError (NamedChain : Type) :=
| StatusNotInHandshake | NonStatusMessageInHandshake | EthNoResponse
| InvalidFork (e : ValidationError)
| MismatchedGenesis (expected got : Z)
| MismatchedProtocolVersion (expected got : Z)
| MismatchedChain (expected got : Chain NamedChain)
| TotalDifficultyBitLenTooLarge (maximum got : Z).
Arguments StatusNotInHandshake {NamedChain}.
Arguments NonStatusMessageInHandshake {NamedChain}.
Arguments EthNoResponse {NamedChain}.
Arguments InvalidFork {NamedChain} e.
Arguments MismatchedGenesis {NamedChain} expected got.
Arguments MismatchedProtocolVersion {NamedChain} expected got.
Arguments MismatchedChain {NamedChain} expected got.
Arguments TotalDifficultyBitLenTooLarge {NamedChain} maximum got.

Inductive EthStreamError (NamedChain : Type) :=
| P2PErr (e : P2PStreamError)
| ParseVersionErr (version : Z)
| EthHandshakeErr (e : EthHandshakeError NamedChain)
| EthInvalidMessage (v : EthVersion) (id : EthMessageID)
| EthMessageTooBig (size : Z)
| TransactionHashesInvalidLen (hashes_len types_len sizes_len : Z).
Arguments P2PErr {NamedChain} e.
Arguments ParseVersionErr {NamedChain} version.
Arguments EthHandshakeErr {NamedChain} e.
Arguments EthInvalidMessage {NamedChain} v id.
Arguments EthMessageTooBig {NamedChain} size.
Arguments TransactionHashesInvalidLen {NamedChain} hashes_len types_len sizes_len.

(** [?] on a call whose error converts into the caller's. *)
Definition map_err {S E F A} (f : E -> F) (m : st S E A) : st S F A := fun s =>
  match m s with
  | (Ok a, s) => (Ok a, s)
  | (Err e, s) => (Err (f e), s)
  | (Panic, s) => (Panic, s)
  | (Diverge, s) => (Diverge, s)
  end.

(** ** Codecs of the payloads *)

Definition request_pair_codec {A} (c : Codec A) : Codec (RequestPair A) :=
  mkCodec
    (fun r out =>
       let header := Rlp.mkHeader true (wadd 64 (encoded_length u64_codec (request_id r)) (encoded_length c (rp_message r))) in
       let out := Header_encode header out in
       let out := encode u64_codec (request_id r) out in
       encode c (rp_message r) out)
    (fun r =>
       let length := wadd 64 (encoded_length u64_codec (request_id r)) (encoded_length c (rp_message r)) in
       wadd 64 length (length_of_length length))
    (_ ← Header_decode;
     request_id ← decode u64_codec;
     message ← decode c;
     mret (mkRequestPair request_id message)).

Definition fork_id_codec : Codec ForkId :=
  struct_codec (hash_codec 4 ⊗ u64_codec) (fun '(h, n) => mkForkId h n) (fun f => (fi_hash f, fi_next f)).

Definition get_block_headers_codec : Codec GetBlockHeaders :=
  struct_codec (bhn_codec ⊗ u64_codec ⊗ u32_codec ⊗ direction_codec)
    (fun '(b, (l, (s, d))) => mkGetBlockHeaders b l s d)
    (fun g => (start_block g, (limit g, (skip g, direction g)))).

Definition block_hash_number_codec : Codec BlockHashNumber :=
  struct_codec (H256_codec ⊗ u64_codec) (fun '(h, n) => mkBlockHashNumber h n) (fun b => (bhn_hash b, bhn_number b)).

(** [types] is written and read as one byte string. *)
Definition hashes68_codec : Codec NewPooledTransactionHashes68 :=
  struct_codec (bytes_codec ⊗ vec_codec u64_codec ⊗ vec_codec H256_codec)
    (fun '(t, (s, h)) => mkHashes68 t s h)
    (fun h => (h68_types h, (h68_sizes h, h68_hashes h))).

Section Messages.
Context {NamedChain : Type} (named_id : NamedChain -> Z) (named_try_from : Z -> option NamedChain).
Context (keccak256 : bytes -> Z).

(** [From<Chain> for u64] and [From<u64> for Chain] *)
Definition chain_id (c : Chain NamedChain) : Z := match c with Named c => named_id c | ChainId id => id end.

Definition chain_from (id : Z) : Chain NamedChain :=
  match named_try_from id with Some c => Named c | None => ChainId id end.

Definition chain_codec : Codec (Chain NamedChain) := map_codec u64_codec chain_from chain_id.

Definition status_codec : Codec (Status NamedChain) :=
  struct_codec (u8_codec ⊗ chain_codec ⊗ U256_codec ⊗ H256_codec ⊗ H256_codec ⊗ fork_id_codec)
    (fun '(v, (c, (d, (b, (g, f))))) => mkStatus v c d b g f)
    (fun s => (st_version s, (st_chain s, (st_total_difficulty s, (st_blockhash s, (st_genesis s, st_forkid s)))))).

Definition block_body_codec : Codec BlockBody :=
  map_codec (derive_codec (vec_codec (tx_signed_codec keccak256) ⊗ vec_codec header_codec) withdrawals_tail)
    (fun '((b, o), (w, _)) => mkBlockBody b o w)
    (fun b => ((bb_transactions b, bb_ommers b), (bb_withdrawals b, tt))).

Definition new_block_codec : Codec NewBlock :=
  struct_codec (block_codec keccak256 ⊗ fixed_uint_codec 16)
    (fun '(b, t) => mkNewBlock b t) (fun n => (nb_block n, nb_td n)).

Abbreviation hash_list := (vec_codec H256_codec).
Abbreviation tx_list := (vec_codec (tx_signed_codec keccak256)).

(** [Encodable for EthMessage]: [run] is [encode] or [length] of the payload. *)
Definition with_payload {R} (run : forall A, Codec A -> A -> R) (m : EthMessage NamedChain) : R :=
  match m with
  | MStatus s => run _ status_codec s
  | MNewBlockHashes l => run _ (vec_codec block_hash_number_codec) l
  | MNewBlock b => run _ new_block_codec b
  | MTransactions l => run _ tx_list l
  | MNewPooledTransactionHashes66 l => run _ hash_list l
  | MNewPooledTransactionHashes68 h => run _ hashes68_codec h
  | MGetBlockHeaders r => run _ (request_pair_codec get_block_headers_codec) r
  | MBlockHeaders r => run _ (request_pair_codec (vec_codec header_codec)) r
  | MGetBlockBodies r => run _ (request_pair_codec hash_list) r
  | MBlockBodies r => run _ (request_pair_codec (vec_codec block_body_codec)) r
  | MGetPooledTransactions r => run _ (request_pair_codec hash_list) r
  | MPooledTransactions r => run _ (request_pair_codec tx_list) r
  | MGetNodeData r => run _ (request_pair_codec hash_list) r
  | MNodeData r => run _ (request_pair_codec (vec_codec bytes_codec)) r
  | MGetReceipts r => run _ (request_pair_codec hash_list) r
  | MReceipts r => run _ (request_pair_codec (vec_codec (vec_codec receipt_codec))) r
  end.

(** [ProtocolMessage::from(message).encode(out)] and its [length]; the message
    type is the id of the message. *)
Definition protocol_encode (m : EthMessage NamedChain) (out : bytes) : bytes :=
  with_payload (fun _ c x => encode c x) m (encode message_id_codec (message_id m) out).

Definition protocol_length (m : EthMessage NamedChain) : Z :=
  wadd 64 (encoded_length message_id_codec (message_id m)) (with_payload (fun _ c x => encoded_length c x) m).

Record ProtocolMessage := mkProtocolMessage { message_type : EthMessageID; pm_message : EthMessage NamedChain }.

(** The arm of a message: decode the payload, wrap it. *)
Definition payload {A} (c : Codec A) (f : A -> EthMessage NamedChain) : st bytes (EthStreamError NamedChain) (EthMessage NamedChain) :=
  map_err (fun e => P2PErr (RlpErr e)) (x ← decode c; mret (f x)).

Definition decode_message (version : EthVersion) : st bytes (EthStreamError NamedChain) ProtocolMessage :=
  message_type ← map_err (fun e => P2PErr (RlpErr e)) (decode message_id_codec);
  message ←
    match message_type with
    | IdStatus => payload status_codec MStatus
    | IdNewBlockHashes => payload (vec_codec block_hash_number_codec) MNewBlockHashes
    | IdNewBlock => payload new_block_codec MNewBlock
    | IdTransactions => payload tx_list MTransactions
    | IdNewPooledTransactionHashes =>
        if version_u8 Eth68 <=? version_u8 version
        then payload hashes68_codec MNewPooledTransactionHashes68
        else payload hash_list MNewPooledTransactionHashes66
    | IdGetBlockHeaders => payload (request_pair_codec get_block_headers_codec) MGetBlockHeaders
    | IdBlockHeaders => payload (request_pair_codec (vec_codec header_codec)) MBlockHeaders
    | IdGetBlockBodies => payload (request_pair_codec hash_list) MGetBlockBodies
    | IdBlockBodies => payload (request_pair_codec (vec_codec block_body_codec)) MBlockBodies
    | IdGetPooledTransactions => payload (request_pair_codec hash_list) MGetPooledTransactions
    | IdPooledTransactions => payload (request_pair_codec tx_list) MPooledTransactions
    | IdGetNodeData =>
        if version_u8 Eth67 <=? version_u8 version
        then st_throw (EthInvalidMessage version IdGetNodeData)
        else payload (request_pair_codec hash_list) MGetNodeData
    | IdNodeData =>
        if version_u8 Eth67 <=? version_u8 version
        then st_throw (EthInvalidMessage version IdGetNodeData)
        else payload (request_pair_codec (vec_codec bytes_codec)) MNodeData
    | IdGetReceipts => payload (request_pair_codec hash_list) MGetReceipts
    | IdReceipts => payload (request_pair_codec (vec_codec (vec_codec receipt_codec))) MReceipts
    end;
  mret (mkProtocolMessage message_type message).
End Messages.

(** ** Strings *)

(** [String] and [SmolStr] *)
Definition string_codec : Codec bytes :=
  mkCodec (encode bytes_codec) (encoded_length bytes_codec)
    (to ← decode bytes_codec;
     if utf8_valid to then mret to else st_throw (Custom "invalid string")).

(** ** Capabilities and the p2p messages *)

Inductive ProtocolVersion := PV4 | PV5.

Definition protocol_version_u8 (v : ProtocolVersion) : Z := match v with PV4 => 4 | PV5 => 5 end.

Definition protocol_version_codec : Codec ProtocolVersion :=
  mkCodec (fun v => encode u8_codec (protocol_version_u8 v)) (fun v => encoded_length u8_codec (protocol_version_u8 v))
    (version ← decode u8_codec;
     if version =? 4 then mret PV4 else if version =? 5 then mret PV5
     else st_throw (Custom "unknown p2p protocol version")).

Record Capability := mkCapability { cap_name : bytes; cap_version : Z }.

#[global] Instance Capability_eq_dec : EqDecision Capability.
Proof. solve_decision. Defined.

Definition capability_codec : Codec Capability :=
  struct_codec (string_codec ⊗ u64_codec) (fun '(n, v) => mkCapability n v) (fun c => (cap_name c, cap_version c)).

Record HelloMessage := mkHello {
  protocol_version : ProtocolVersion;
  client_version : bytes;
  capabilities : list Capability;
  hello_port : Z;
  hello_id : Z
}.

Definition hello_codec : Codec HelloMessage :=
  struct_codec (protocol_version_codec ⊗ string_codec ⊗ vec_codec capability_codec ⊗ uint_codec 2 ⊗ hash_codec 64)
    (fun '(v, (c, (l, (p, i)))) => mkHello v c l p i)
    (fun h => (protocol_version h, (client_version h, (capabilities h, (hello_port h, hello_id h))))).

Inductive P2PMessage := Hello (h : HelloMessage) | Disconnect (r : DisconnectReason) | Ping | Pong.

Definition p2p_message_id (m : P2PMessage) : Z :=
  match m with Hello _ => 0x00 | Disconnect _ => 0x01 | Ping => 0x02 | Pong => 0x03 end.

(** The snappy form of an empty list. *)
Abbreviation ping_pong_payload := [0x01; 0x00; EMPTY_LIST_CODE].

Definition p2p_encode (m : P2PMessage) (out : bytes) : bytes :=
  let out := encode u8_codec (p2p_message_id m) out in
  match m with
  | Hello h => encode hello_codec h out
  | Disconnect r => encode reason_codec r out
  | Ping | Pong => put_slice ping_pong_payload out
  end.

Definition p2p_length (m : P2PMessage) : Z :=
  let payload_len :=
    match m with
    | Hello h => encoded_length hello_codec h
    | Disconnect r => encoded_length reason_codec r
    | Ping | Pong => 3
    end in
  wadd 64 payload_len 1.

Definition advance_snappy_ping_pong_payload : dec unit :=
  buf ← st_get;
  if zlen buf <? 3 then st_throw InputTooShort else
  if negb (bool_decide (take 3 buf = ping_pong_payload)) then st_throw (Custom "expected snappy payload") else
  buf_advance 3.

Definition p2p_decode : dec P2PMessage :=
  buf ← st_get;
  message_id ← st_lift (fst (decode u8_codec buf));
  if 0x03 <? message_id then st_throw (Custom "unknown p2p message id") else
  buf_advance 1;;
  match message_id with
  | 0x00 => h ← decode hello_codec; mret (Hello h)
  | 0x01 => r ← decode reason_codec; mret (Disconnect r)
  | 0x02 => advance_snappy_ping_pong_payload;; mret Ping
  | _ => advance_snappy_ping_pong_payload;; mret Pong
  end.

#[global] Typeclasses Opaque message_id_codec reason_codec request_pair_codec fork_id_codec get_block_headers_codec.
#[global] Typeclasses Opaque block_hash_number_codec hashes68_codec chain_codec status_codec block_body_codec new_block_codec.
#[global] Typeclasses Opaque string_codec protocol_version_codec capability_codec hello_codec.
