(* ===== verification/EthWireProofs.v ===== *)
(** * Messages of the eth and p2p protocols: theorems

    Every message an eth version allows survives its encoding; the decoder of
    messages is total except where it reads headers; disconnect reasons and p2p
    messages survive theirs. *)
From S2P Require Import Prelude Bytes Rlp RlpDerive Primitives SubState ChainSpec PrimitivesRlp PrimitivesRlpProofs EthWire.

(** ** Request pairs *)

Section RequestPair.
Context {A : Type} (c : Codec A) `{!CodecWf c}.

Abbreviation pair_struct :=
  (struct_codec (u64_codec ⊗ c) (fun '(i, m) => mkRequestPair i m) (fun r => (request_id r, rp_message r))).

#[global] Instance request_pair_cwf : CodecWf (request_pair_codec c) :=
  wf_struct (u64_codec ⊗ c) (codec_wf (u64_codec ⊗ c)) (fun r => (request_id r, rp_message r)).

Lemma wadd_0_r a b : wadd 64 (wadd 64 a b) 0 = wadd 64 a b.
Proof. unfold wadd, wrap. rewrite Z.add_0_r. apply Zmod_mod. Qed.

Lemma request_pair_encode_eq r out : encode (request_pair_codec c) r out = encode pair_struct r out.
Proof.
  cbn [request_pair_codec struct_codec map_codec derive_codec encode].
  unfold derive_encode, derive_header. cbn [fields_codec encode encoded_length tail_nil tl_encode tl_length fst snd].
  by rewrite wadd_0_r.
Qed.

Lemma request_pair_length_eq r : encoded_length (request_pair_codec c) r = encoded_length pair_struct r.
Proof.
  cbn [request_pair_codec struct_codec map_codec derive_codec encoded_length].
  unfold derive_header. cbn [fields_codec encoded_length tail_nil tl_length fst snd payload_length].
  rewrite wadd_0_r. cbv zeta. unfold wadd. by rewrite Z.add_comm.
Qed.

Lemma pair_struct_rt : roundtrips c -> CodecRt pair_struct (codec_wf (request_pair_codec c)).
Proof. intros Hc. apply struct_codec_rt; [apply _|by intros []]. Qed.

#[global] Instance request_pair_rt : roundtrips c -> roundtrips (request_pair_codec c).
Proof.
  intros Hc. pose proof (pair_struct_rt Hc) as Hs. split.
  - intros r out. rewrite !request_pair_encode_eq. apply rt_append.
  - intros r Hr. rewrite request_pair_encode_eq. by apply (rt_wf (c := pair_struct)).
  - intros r Hr. rewrite request_pair_encode_eq. by apply (rt_nonempty (c := pair_struct)).
  - intros r Hr. rewrite request_pair_encode_eq, request_pair_length_eq. by apply (rt_length (c := pair_struct)).
  - intros [i m] rest Hr. cbn [request_pair_codec encode decode request_id rp_message].
    destruct Hr as [(Hi & Hm & _) Hl]. cbn [fst snd request_id rp_message encode fields_codec] in *.
    rewrite (rt_append m) in Hl |- *. rewrite (rt_append i), <- !app_assoc.
    rewrite (rt_length (c := u64_codec) i Hi), (rt_length (c := c) m Hm). rewrite length_app in Hl.
    rewrite wadd_small by (unfold in_u; lia).
    erewrite bind_ok by (apply Header_decode_encode;
      [unfold wf_header; cbn [payload_length]; lia|cbn [payload_length]; rewrite !length_app; lia|by unfold header_guard]).
    erewrite bind_ok by (by apply rt_decode). pose proof (rt_decode (c := c) m rest Hm) as Hd.
    by rewrite (bind_ok _ _ _ _ _ Hd).
Qed.

#[global] Instance request_pair_dec : DecodeOk (decode c) -> DecodeOk (decode (request_pair_codec c)).
Proof.
  intros Hc. cbn [request_pair_codec decode]. pose proof (CodecOk_dec _ _ u64_ok) as Hu.
  set (tail := fun _ : Rlp.Header => i ← decode u64_codec; m ← decode c; mret (mkRequestPair i m) : dec _).
  assert (Hf : forall h, DecodeOk (tail h)).
  { intros h. apply bind_strong; [apply _|]. intros i. weak. }
  split.
  - intros buf Hb. apply bind_safe; [apply Header_decode_safe|]. intros h s1 H1.
    apply (dw_suffix (d := Header_decode)) in H1 as [pre ->]; [|done].
    apply is_slice_app in Hb as [_ Hb]. by apply (dk_safe (d := tail h)).
  - intros buf x rest Hb H. apply bind_inv in H as (h & s1 & H1 & H).
    apply (dw_suffix (d := Header_decode)) in H1 as [pre ->]; [|done]. apply is_slice_app in Hb as [_ Hb].
    apply (dk_consumes (d := tail h)) in H as (pre' & Hp & ->); [|done].
    exists (pre ++ pre'). rewrite app_assoc. split; [|done]. intros E. by apply app_eq_nil in E as [_ E].
Qed.
End RequestPair.

(** ** Payloads *)

#[global] Instance fork_id_cwf : CodecWf fork_id_codec := struct_cwf _ _ _.
#[global] Instance get_block_headers_cwf : CodecWf get_block_headers_codec := struct_cwf _ _ _.
#[global] Instance block_hash_number_cwf : CodecWf block_hash_number_codec := struct_cwf _ _ _.
#[global] Instance hashes68_cwf : CodecWf hashes68_codec := struct_cwf _ _ _.

#[global] Instance fork_hash_ok : lawful (hash_codec 4).
Proof. by apply hash_codec_ok. Qed.
#[global] Instance U128_ok : lawful (fixed_uint_codec 16).
Proof. apply fixed_uint_codec_ok. lia. Qed.
#[global] Instance fork_id_ok : lawful fork_id_codec.
Proof. apply struct_codec_ok; [apply _|by intros []|by intros (?&?)]. Qed.
#[global] Instance block_hash_number_ok : lawful block_hash_number_codec.
Proof. apply struct_codec_ok; [apply _|by intros []|by intros (?&?)]. Qed.
#[global] Instance hashes68_ok : lawful hashes68_codec.
Proof. apply struct_codec_ok; [apply _|by intros []|by intros (?&?&?)]. Qed.
#[global] Instance get_block_headers_rt : roundtrips get_block_headers_codec.
Proof. apply struct_codec_rt; [apply _|by intros []]. Qed.

#[global] Instance bhn_dec : DecodeOk (decode bhn_codec).
Proof.
  pose proof (map_decode_ok (decode H256_codec) BHash (CodecOk_dec _ _ H256_ok)) as Hh.
  pose proof (map_decode_ok (decode u64_codec) BNumber (CodecOk_dec _ _ u64_ok)) as Hn.
  split; intros buf; cbn [bhn_codec decode]; unfold bhn_decode; erewrite bind_ok by done.
  - intros Hb. destruct buf as [|b buf]; [done|]. destruct (b =? 0xa0); [by apply (dk_safe (d := h ← decode H256_codec; mret (BHash h)))|].
    by apply (dk_safe (d := n ← decode u64_codec; mret (BNumber n))).
  - intros x rest Hb H. destruct buf as [|b buf]; [done|]. destruct (b =? 0xa0).
    + by eapply (dk_consumes (d := h ← decode H256_codec; mret (BHash h))).
    + by eapply (dk_consumes (d := n ← decode u64_codec; mret (BNumber n))).
Qed.

#[global] Instance fields_dec {A B} (c : Codec A) (d : Codec B) :
  DecodeOk (decode c) -> DecodeOk (decode d) -> DecodeOk (decode (c ⊗ d)).
Proof. intros Hc Hd. cbn [fields_codec decode]. apply bind_strong; [apply _|]. weak. Qed.

#[global] Instance struct_dec {A B} (c : Codec A) (f : A -> B) g :
  DecodeOk (decode c) -> DecodeOk (decode (struct_codec c f g)).
Proof.
  intros Hc. apply (map_decode_ok (derive_decode c tail_nil)). apply derive_decode_ok; apply _.
Qed.

#[global] Instance vec_dec {A} (c : Codec A) : DecodeOk (decode c) -> DecodeOk (decode (vec_codec c)).
Proof. intros Hc. by apply vec_decode_ok. Qed.

#[global] Instance tx_codec_dec keccak256 : DecodeOk (decode (tx_signed_codec keccak256)) := tx_signed_dec keccak256.
#[global] Instance receipt_codec_dec : DecodeOk (decode receipt_codec) := receipt_dec.

#[global] Instance get_block_headers_dec : DecodeOk (decode get_block_headers_codec).
Proof. apply struct_dec, fields_dec; apply _. Qed.

#[global] Instance block_body_cwf keccak256 : CodecWf (block_body_codec keccak256) := fun b =>
  wf_with_withdrawals (vec_codec (tx_signed_codec keccak256) ⊗ vec_codec header_codec)
    (bb_transactions b, bb_ommers b) (bb_withdrawals b).

#[global] Instance block_body_rt keccak256 : roundtrips (block_body_codec keccak256).
Proof. apply (with_withdrawals_rt (vec_codec (tx_signed_codec keccak256) ⊗ vec_codec header_codec)). by intros []. Qed.

#[global] Instance new_block_cwf keccak256 : CodecWf (new_block_codec keccak256) := struct_cwf _ _ _.
#[global] Instance new_block_rt keccak256 : roundtrips (new_block_codec keccak256).
Proof. apply struct_codec_rt; [apply _|by intros []]. Qed.

(** ** eth messages *)

(** What the ethers crate promises of its table of named chains. *)
Definition named_chains_ok {NamedChain} (named_id : NamedChain -> Z) (named_try_from : Z -> option NamedChain) : Prop :=
  forall c, wf_uint 8 (named_id c) /\ named_try_from (named_id c) = Some c.

Section Messages.
Context {NamedChain : Type} (named_id : NamedChain -> Z) (named_try_from : Z -> option NamedChain).
Context (keccak256 : bytes -> Z).
Abbreviation chain_codec := (chain_codec named_id named_try_from).
Abbreviation status_codec := (status_codec named_id named_try_from).
Abbreviation protocol_encode := (protocol_encode named_id named_try_from keccak256).
Abbreviation decode_message := (decode_message named_id named_try_from keccak256).
Abbreviation hash_list := (vec_codec H256_codec).
Abbreviation tx_list := (vec_codec (tx_signed_codec keccak256)).

(** An id with a name is written back under its name. *)
#[global] Instance chain_cwf : CodecWf chain_codec := fun c =>
  match c with Named _ => True | ChainId id => wf_uint 8 id /\ named_try_from id = None end.
#[global] Instance status_cwf : CodecWf status_codec := struct_cwf _ _ _.

Definition message_wf : EthMessage NamedChain -> Prop := fun m =>
  match m with
  | MStatus s => codec_wf status_codec s
  | MNewBlockHashes l => codec_wf (vec_codec block_hash_number_codec) l
  | MNewBlock b => codec_wf (new_block_codec keccak256) b
  | MTransactions l => codec_wf tx_list l
  | MNewPooledTransactionHashes66 l => codec_wf hash_list l
  | MNewPooledTransactionHashes68 h => codec_wf hashes68_codec h
  | MGetBlockHeaders r => codec_wf (request_pair_codec get_block_headers_codec) r
  | MBlockHeaders r => codec_wf (request_pair_codec (vec_codec header_codec)) r
  | MGetBlockBodies r | MGetPooledTransactions r | MGetNodeData r | MGetReceipts r =>
      codec_wf (request_pair_codec hash_list) r
  | MBlockBodies r => codec_wf (request_pair_codec (vec_codec (block_body_codec keccak256))) r
  | MPooledTransactions r => codec_wf (request_pair_codec tx_list) r
  | MNodeData r => codec_wf (request_pair_codec (vec_codec bytes_codec)) r
  | MReceipts r => codec_wf (request_pair_codec (vec_codec (vec_codec receipt_codec))) r
  end.

(** The messages a version has. *)
Definition valid_for (v : EthVersion) (m : EthMessage NamedChain) : Prop :=
  match m with
  | MNewPooledTransactionHashes66 _ => v <> Eth68
  | MNewPooledTransactionHashes68 _ => v = Eth68
  | MGetNodeData _ | MNodeData _ => v = Eth66
  | _ => True
  end.

Lemma message_id_decode id rest :
  decode message_id_codec (message_id_u8 id :: rest) = (Ok id, rest).
Proof.
  cbn [message_id_codec decode]. erewrite bind_ok by done. destruct id; cbn [message_id_u8 message_id_of];
    by rewrite (bind_ok _ _ _ _ _ (advance1 _ _)).
Qed.

Lemma map_err_ok {S E F A} (f : E -> F) (m : st S E A) s a s' : m s = (Ok a, s') -> map_err f m s = (Ok a, s').
Proof. unfold map_err. by intros ->. Qed.

Lemma map_err_safe {S E F A} (f : E -> F) (m : st S E A) s : safe (fst (m s)) -> safe (fst (map_err f m s)).
Proof. unfold map_err. by destruct (m s) as [[]]. Qed.

Lemma payload_ok {A} (c : Codec A) wf (Hc : CodecRt c wf) (f : A -> EthMessage NamedChain) x rest :
  wf x -> payload c f (encode c x [] ++ rest) = (Ok (f x), rest).
Proof.
  intros Hx. apply map_err_ok. pose proof (rt_decode (c := c) x rest Hx) as Hd. by rewrite (bind_ok _ _ _ _ _ Hd).
Qed.

Lemma payload_safe {A} (c : Codec A) (f : A -> EthMessage NamedChain) buf :
  DecodeOk (decode c) -> is_slice buf -> safe (fst (payload c f buf)).
Proof. intros Hc Hb. apply map_err_safe, bind_safe; [by apply dk_safe|done]. Qed.

Section Roundtrip.
Hypothesis named_ok : named_chains_ok named_id named_try_from.

#[export] Instance chain_rt : roundtrips chain_codec.
Proof.
  eapply map_codec_rt; [apply (CodecOk_rt _ _ u64_ok)|]. unfold inverse_on, chain_from.
  intros [c|id] Hc; cbn [chain_id]; [by destruct (named_ok c) as [? ->]|by destruct Hc as [? ->]].
Qed.

#[export] Instance status_rt : roundtrips status_codec.
Proof. apply struct_codec_rt; [apply fields_roundtrips; apply _|by intros []]. Qed.

(** The payload of a message as its codec writes it. *)
Lemma protocol_encode_eq m out :
  protocol_encode m out = out ++ message_id_u8 (message_id m) ::
    with_payload named_id named_try_from keccak256 (fun _ c x => encode c x []) m.
Proof.
  unfold EthWire.protocol_encode. cbn [message_id_codec encode]. unfold put_u8.
  destruct m; cbn [with_payload]; rewrite rt_append, <- app_assoc; done.
Qed.

Lemma payload_length_ok m : message_wf m ->
  with_payload named_id named_try_from keccak256 (fun _ c x => encoded_length c x) m
  = zlen (with_payload named_id named_try_from keccak256 (fun _ c x => encode c x []) m).
Proof. destruct m; cbn [message_wf with_payload]; intros Hm; by apply rt_length. Qed.
End Roundtrip.

Lemma decode_message_ok v m rest :
  named_chains_ok named_id named_try_from -> valid_for v m -> message_wf m ->
  decode_message v (protocol_encode m [] ++ rest) = (Ok (mkProtocolMessage (message_id m) m), rest).
Proof.
  intros Hn Hv Hm. rewrite protocol_encode_eq, app_nil_l by done. cbn [app]. unfold EthWire.decode_message.
  erewrite bind_ok by (apply map_err_ok, message_id_decode).
  assert (Hrt := status_rt Hn).
  destruct m; cbn [message_id with_payload message_wf valid_for] in *;
    try (by erewrite bind_ok by (eapply payload_ok; [apply _|done]));
    destruct v; try done; cbn [version_u8]; (by erewrite bind_ok by (eapply payload_ok; [apply _|done])).
Qed.

(** C24. A well-formed message that a version of the eth protocol has is read back as it
    was written, up to the bytes that follow it, and its announced length is the
    number of bytes written.  In a well-formed message numbers are of their machine
    types, lengths below 2^62, and the hash of a transaction is that of its encoding;
    two values that do not come back as they were are left out: a header whose base fee
    is zero, and a chain given by the number of one that has a name. *)
Theorem eth_message_roundtrip (v : EthVersion) (m : EthMessage NamedChain) (rest : bytes) :
  named_chains_ok named_id named_try_from -> valid_for v m -> message_wf m ->
  zlen (protocol_encode m []) < 2 ^ 64 ->
  decode_message v (protocol_encode m [] ++ rest) = (Ok (mkProtocolMessage (message_id m) m), rest) /\
  protocol_length named_id named_try_from keccak256 m = zlen (protocol_encode m []).
Proof.
  intros Hn Hv Hm Hl. split; [by apply decode_message_ok|].
  unfold protocol_length. rewrite payload_length_ok by done. rewrite protocol_encode_eq in * by done.
  rewrite app_nil_l in *. cbn [length message_id_codec encoded_length] in *.
  rewrite wadd_small; [lia|unfold in_u; lia].
Qed.

(** The messages whose payload contains block headers. *)
Definition reads_headers (b : Z) : bool := (b =? 0x04) || (b =? 0x06) || (b =? 0x07).

#[global] Instance status_dec : DecodeOk (decode status_codec).
Proof.
  apply struct_dec, fields_dec; [apply _|]. apply fields_dec; [apply map_decode_ok|]; apply _.
Qed.

Lemma message_id_inv b buf id s :
  decode message_id_codec (b :: buf) = (Ok id, s) -> message_id_of b = Some id /\ s = buf.
Proof.
  cbn [message_id_codec decode]. erewrite bind_ok by done. cbn beta iota. destruct (message_id_of b) as [id'|]; [|done].
  rewrite (bind_ok _ _ _ _ _ (advance1 _ _)). by intros [= -> ->].
Qed.

Lemma reads_headers_id b id :
  message_id_of b = Some id -> reads_headers b = false ->
  id <> IdBlockHeaders /\ id <> IdBlockBodies /\ id <> IdNewBlock.
Proof. intros E H. split_and!; intros ->; destruct b as [|p|p]; try done; do 5 (destruct p as [p|p|]; try done). Qed.

(** C36. Whatever bytes a peer sends, the decoder of eth messages returns a message
    or an error, for every message that carries no block header: it does not
    panic, loop or read out of range. *)
Theorem decode_message_total (v : EthVersion) (buf : bytes) :
  is_slice buf -> (forall b, head buf = Some b -> reads_headers b = false) ->
  safe (fst (decode_message v buf)).
Proof.
  intros Hb Hh. apply bind_safe.
  { apply map_err_safe. destruct buf as [|b buf]; [done|]. cbn [message_id_codec decode].
    erewrite bind_ok by done. cbn beta iota. destruct (message_id_of b); [|done]. by rewrite (bind_ok _ _ _ _ _ (advance1 _ _)). }
  intros id s1 H1. destruct buf as [|b buf]; [done|]. unfold map_err in H1.
  destruct (decode message_id_codec (b :: buf)) as [[id'| | |] s'] eqn:E; try done. injection H1 as -> ->.
  apply message_id_inv in E as [E ->]. apply (is_slice_app [b]) in Hb as [_ Hb].
  destruct (reads_headers_id b id E (Hh b eq_refl)) as (H1 & H2 & H3).
  apply bind_safe; [|done].
  destruct id; try done; try (apply payload_safe; [apply _|done]); destruct v; cbn [version_u8];
    done || (apply payload_safe; [apply _|done]).
Qed.
End Messages.

(** A message of the three kinds left out can panic, in every version: one block
    header with a number above 64 bits is enough. *)
Example decode_message_panics (v : EthVersion) (keccak256 : bytes -> Z) :
  fst (decode_message (fun c : unit => 1) (fun _ => None) keccak256 v
    (protocol_encode (fun c : unit => 1) (fun _ => None) keccak256
      (MBlockHeaders (mkRequestPair 1 [huge_number_header])) [])) = Panic.
Proof. destruct v; vm_compute; reflexivity. Qed.

(** The chains of the ethers table used by the examples. *)
Definition example_named (c : bool) : Z := if c then 1 else 5.
Definition example_try_from (id : Z) : option bool :=
  if id =? 1 then Some true else if id =? 5 then Some false else None.

Lemma example_named_ok : named_chains_ok example_named example_try_from.
Proof. intros []; split; [done..|]; done. Qed.

Definition example_request : EthMessage bool :=
  MGetBlockHeaders (mkRequestPair 7 (mkGetBlockHeaders (BNumber 1000) 10 0 Falling)).

Lemma eth_message_roundtrip_witness :
  decode_message example_named example_try_from (fun _ => 0) Eth67
    (protocol_encode example_named example_try_from (fun _ => 0) example_request [] ++ [1; 2])
  = (Ok (mkProtocolMessage IdGetBlockHeaders example_request), [1; 2]).
Proof.
  apply (eth_message_roundtrip example_named example_try_from (fun _ => 0) Eth67 example_request [1; 2]).
  - exact example_named_ok.
  - done.
  - wf_eval.
  - vm_compute. done.
Defined.

Lemma decode_message_total_witness :
  safe (fst (decode_message example_named example_try_from (fun _ => 0) Eth66 [0x0d; 0xf9; 0xff; 0xff])).
Proof.
  apply (decode_message_total example_named example_try_from (fun _ => 0) Eth66).
  - wf_eval.
  - by intros b [= <-].
Defined.

(** ** Disconnect reasons *)

#[global] Instance reason_decode_weak : DecodeWeak reason_decode.
Proof.
  assert (H : forall buf, is_slice buf -> safe (fst (reason_decode buf)) /\
    forall r rest, reason_decode buf = (Ok r, rest) -> exists pre, buf = pre ++ rest); [|by split; intros; eapply H].
  assert (Hone : forall b buf, is_slice (b :: buf) ->
    let d := (if b =? 0 then buf_advance 1;; mret DisconnectRequested
              else v ← decode u8_codec; match reason_try_from v with Some r => mret r
                   | None => st_throw (Custom "unknown disconnect reason") end) : dec DisconnectReason in
    safe (fst (d (b :: buf))) /\ forall r rest, d (b :: buf) = (Ok r, rest) -> exists pre, b :: buf = pre ++ rest).
  { intros b buf Hb d. subst d. destruct (b =? 0).
    - rewrite (bind_ok _ _ _ _ _ (advance1 b buf)). split; [done|]. intros r rest [= _ ->]. by exists [b].
    - pose proof (CodecOk_dec _ _ u8_ok) as Hu.
      assert (Hw : DecodeWeak (v ← decode u8_codec; match reason_try_from v with Some r => mret r
                   | None => st_throw (Custom "unknown disconnect reason") end : dec DisconnectReason)) by weak.
      split; [by apply dw_safe|]. intros r rest H. by eapply dw_suffix. }
  intros buf Hb. destruct buf as [|b [|b' [|b'' buf]]]; [done|by apply (Hone b [])| |].
  - assert (Hs : forall h s1, Header_decode [b; b'] = (Ok h, s1) -> is_list h = true -> s1 = [b']).
    { intros h s1 H1 Hl. apply list_header_inv in H1 as (Hh & view & r & -> & Hp & _ & E); [|done..].
      destruct (view ++ r) as [|x l] eqn:Ev.
      - apply app_eq_nil in Ev as [-> ->]. rewrite Header_encode_eq in E by done. rewrite Hp in E. done.
      - destruct (Header_encode h []) as [|y [|z t]] eqn:Eh; [by apply Header_encode_nonempty in Eh| |].
        + by injection E as _ <- <-.
        + injection E as _ _ E. by destruct t. }
    unfold reason_decode. erewrite bind_ok by done. cbn [is_empty length Z.of_nat]. split.
    + apply bind_safe.
      { apply bind_safe; [apply Header_decode_safe|]. intros h s1 _. by destruct (is_list h). }
      intros u s1 H. apply bind_inv in H as (h & s2 & H1 & H). destruct (is_list h) eqn:Hl; [|done].
      injection H as _ ->. rewrite (Hs _ _ H1 Hl) in *. apply (is_slice_app [b]) in Hb as [_ Hb].
      by apply (Hone b' []).
    + intros r rest H. apply bind_inv in H as (u & s1 & H & H2). apply bind_inv in H as (h & s2 & H1 & H).
      destruct (is_list h) eqn:Hl; [|done]. injection H as _ ->. rewrite (Hs _ _ H1 Hl) in *.
      apply (is_slice_app [b]) in Hb as [_ Hb]. apply (Hone b' [] Hb) in H2 as [pre ->]. by exists (b :: pre).
  - unfold reason_decode. erewrite bind_ok by done. cbn [is_empty length]. zdec. by split.
Qed.

Lemma reason_roundtrip r : decode reason_codec (encode reason_codec r []) = (Ok r, []).
Proof. by destruct r; vm_compute. Qed.

(** ** p2p messages *)

(** A codec that refuses some of the values it reads. *)
Lemma refine_codec_ok {A B} (c : Codec A) wf wf' (f : A -> option B) (g : B -> A) e :
  CodecOk c wf -> (forall b, wf' b -> wf (g b) /\ f (g b) = Some b) ->
  (forall a b, wf a -> f a = Some b -> wf' b /\ g b = a) ->
  forall d : dec B, (forall buf, d buf = (a ← decode c; match f a with Some b => mret b | None => st_throw e end) buf) ->
  CodecOk (mkCodec (fun b => encode c (g b)) (fun b => encoded_length c (g b)) d) wf'.
Proof.
  intros Hc Hg Hf d Hd. split; cbn [encode encoded_length decode].
  - intros x out. apply rt_append.
  - intros x Hx. apply rt_wf, Hg, Hx.
  - intros x Hx. apply rt_nonempty, Hg, Hx.
  - intros x Hx. apply rt_length, Hg, Hx.
  - intros x rest Hx. apply Hg in Hx as [Hx E]. rewrite Hd. erewrite bind_ok by (by apply rt_decode). by rewrite E.
  - intros buf x rest Hb H. rewrite Hd in H. apply bind_inv in H as (a & s1 & H1 & H).
    destruct (f a) as [b|] eqn:E; [|done]. injection H as <- <-.
    apply decode_canonical in H1 as [Ha ->]; [|done]. by destruct (Hf a b Ha E) as [? ->].
  - intros buf Hb. rewrite Hd. apply bind_safe; [by apply decode_safe|]. intros a s1 _. by destruct (f a).
Qed.

#[global] Instance string_cwf : CodecWf string_codec := fun s => is_slice s /\ utf8_valid s = true.
#[global] Instance string_ok : lawful string_codec.
Proof.
  apply (refine_codec_ok bytes_codec is_slice _ (fun s => if utf8_valid s then Some s else None) id (Custom "invalid string")).
  - apply bytes_codec_ok.
  - intros s [Hs E]. unfold id. by rewrite E.
  - intros a b Ha. by destruct (utf8_valid a) eqn:E; intros [= <-].
  - intros buf. unfold mbind, st_bind. destruct (decode bytes_codec buf) as [[s|e| |] s1]; try done.
    by destruct (utf8_valid s).
Qed.

#[global] Instance protocol_version_cwf : CodecWf protocol_version_codec := fun _ => True.
#[global] Instance protocol_version_ok : lawful protocol_version_codec.
Proof.
  apply (refine_codec_ok u8_codec (wf_uint 1) _
    (fun v => if v =? 4 then Some PV4 else if v =? 5 then Some PV5 else None) _ (Custom "unknown p2p protocol version")).
  - apply u8_ok.
  - by intros [] _.
  - intros a b _. zcase; intros [= <-]; by subst.
  - intros buf. unfold mbind, st_bind. destruct (decode u8_codec buf) as [[v|e| |] s1]; try done. by zcase.
Qed.

#[global] Instance u16_ok : lawful (uint_codec 2).
Proof. apply uint_codec_ok. lia. Qed.
#[global] Instance H512_ok : lawful (hash_codec 64).
Proof. by apply hash_codec_ok. Qed.
#[global] Instance capability_cwf : CodecWf capability_codec := struct_cwf _ _ _.
#[global] Instance capability_ok : lawful capability_codec.
Proof. apply struct_codec_ok; [apply _|by intros []|by intros (?&?)]. Qed.
#[global] Instance hello_cwf : CodecWf hello_codec := struct_cwf _ _ _.
#[global] Instance hello_ok : lawful hello_codec.
Proof. apply struct_codec_ok; [apply fields_lawful; apply _|by intros []|by intros (?&?&?&?&?)]. Qed.

Definition p2p_wf (m : P2PMessage) : Prop := match m with Hello h => codec_wf hello_codec h | _ => True end.

Lemma p2p_id_decode m rest :
  encode u8_codec (p2p_message_id m) [] = [if p2p_message_id m =? 0 then EMPTY_STRING_CODE else p2p_message_id m] /\
  fst (decode u8_codec (encode u8_codec (p2p_message_id m) [] ++ rest)) = Ok (p2p_message_id m).
Proof.
  split; [by destruct m|]. rewrite (rt_decode (c := u8_codec)); [done|]. by destruct m.
Qed.

Lemma snappy_payload_ok rest : advance_snappy_ping_pong_payload (ping_pong_payload ++ rest) = (Ok tt, rest).
Proof.
  unfold advance_snappy_ping_pong_payload. erewrite bind_ok by done. cbn [app length].
  zdec. cbn [take]. rewrite bool_decide_eq_true_2 by done. apply (buf_advance_app ping_pong_payload rest).
Qed.

Lemma p2p_decode_payload m payload :
  p2p_decode (encode u8_codec (p2p_message_id m) [] ++ payload) =
  match p2p_message_id m with
  | 0x00 => h ← decode hello_codec; mret (Hello h)
  | 0x01 => r ← decode reason_codec; mret (Disconnect r)
  | 0x02 => advance_snappy_ping_pong_payload;; mret Ping
  | _ => advance_snappy_ping_pong_payload;; mret Pong
  end payload.
Proof.
  destruct (p2p_id_decode m payload) as [Hb Hi]. unfold p2p_decode. erewrite bind_ok by done.
  cbn beta. erewrite bind_ok by (unfold st_lift; by rewrite Hi). rewrite Hb. cbn [app].
  replace (3 <? p2p_message_id m) with false by (by destruct m).
  by rewrite (bind_ok _ _ _ _ _ (advance1 _ _)).
Qed.

Lemma p2p_encode_hello h out : p2p_encode (Hello h) out = out ++ encode u8_codec 0 [] ++ encode hello_codec h [].
Proof.
  unfold p2p_encode. cbv zeta. cbn [p2p_message_id]. rewrite (rt_append (c := hello_codec)).
  by rewrite (rt_append (c := u8_codec)), app_assoc.
Qed.

Lemma p2p_decode_encode m rest :
  p2p_wf m -> (forall r, m = Disconnect r -> rest = []) -> p2p_decode (p2p_encode m [] ++ rest) = (Ok m, rest).
Proof.
  intros Hm Hr. destruct m as [h|r| |].
  - rewrite p2p_encode_hello, app_nil_l, <- app_assoc, (p2p_decode_payload (Hello h)). cbn [p2p_message_id].
    pose proof (rt_decode (c := hello_codec) h rest Hm) as Hh. by rewrite (bind_ok _ _ _ _ _ Hh).
  - rewrite (Hr r eq_refl), app_nil_r. by destruct r; vm_compute.
  - unfold p2p_encode, put_slice. cbv zeta. rewrite <- app_assoc, (p2p_decode_payload Ping). cbn [p2p_message_id].
    by rewrite (bind_ok _ _ _ _ _ (snappy_payload_ok rest)).
  - unfold p2p_encode, put_slice. cbv zeta. rewrite <- app_assoc, (p2p_decode_payload Pong). cbn [p2p_message_id].
    by rewrite (bind_ok _ _ _ _ _ (snappy_payload_ok rest)).
Qed.

Lemma p2p_length_ok m :
  p2p_wf m -> zlen (p2p_encode m []) < 2 ^ 64 -> p2p_length m = zlen (p2p_encode m []).
Proof.
  intros Hm Hl. destruct m as [h|r| |]; [|by destruct r; vm_compute|done..].
  rewrite p2p_encode_hello, app_nil_l, length_app in *. unfold p2p_length.
  rewrite (rt_length (c := hello_codec)) by done. change (length (encode u8_codec 0 [])) with 1%nat in *.
  rewrite wadd_small; [lia|unfold in_u; lia].
Qed.

(** A p2p message is read back as it was written (a disconnect message when
    nothing follows it, as in a frame of its own), and its announced length is
    exact. *)
Theorem p2p_message_roundtrip (m : P2PMessage) (rest : bytes) :
  p2p_wf m -> (forall r, m = Disconnect r -> rest = []) -> zlen (p2p_encode m []) < 2 ^ 64 ->
  p2p_decode (p2p_encode m [] ++ rest) = (Ok m, rest) /\ p2p_length m = zlen (p2p_encode m []).
Proof. intros Hm Hr Hl. split; [by apply p2p_decode_encode|by apply p2p_length_ok]. Qed.

Definition example_hello : HelloMessage :=
  mkHello PV5 [114; 101; 116; 104] [mkCapability [101; 116; 104] 68; mkCapability [101; 116; 104] 67] 30303 12345.

Lemma p2p_message_roundtrip_witness :
  p2p_decode (p2p_encode (Hello example_hello) [] ++ [7]) = (Ok (Hello example_hello), [7]).
Proof. apply (p2p_message_roundtrip (Hello example_hello) [7]); [wf_eval|done|vm_compute; done]. Defined.

#[global] Instance snappy_payload_weak : DecodeWeak advance_snappy_ping_pong_payload.
Proof.
  assert (H : forall buf, 3 <= zlen buf -> buf_advance 3 buf = (Ok tt, drop 3 buf)).
  { intros buf Hb. unfold buf_advance. by zdec. }
  split; intros buf; unfold advance_snappy_ping_pong_payload; erewrite bind_ok by done; cbn beta.
  - intros Hb. destruct (Z.ltb_spec (zlen buf) 3); [done|]. destruct (negb _); [done|]. by rewrite H.
  - intros x rest Hb. destruct (Z.ltb_spec (zlen buf) 3); [done|]. destruct (negb _); [done|].
    rewrite H by done. intros [= _ <-]. exists (take 3 buf). by rewrite take_drop.
Qed.

(** The decoder of the first message of a handshake never panics. *)
Lemma p2p_decode_safe buf : is_slice buf -> safe (fst (p2p_decode buf)).
Proof.
  intros Hb. unfold p2p_decode. erewrite bind_ok by done. cbn beta.
  pose proof (CodecOk_dec _ _ u8_ok) as Hu. pose proof (CodecOk_dec _ _ hello_ok) as Hh.
  apply bind_safe; [by apply (dk_safe (d := decode u8_codec))|]. unfold st_lift. intros id s1 [= E <-].
  destruct buf as [|b buf]; [done|]. destruct (3 <? id); [done|].
  rewrite (bind_ok _ _ _ _ _ (advance1 b buf)). apply (is_slice_app [b]) in Hb as [_ Hb].
  assert (Hm : forall m, DecodeWeak (advance_snappy_ping_pong_payload;; mret m : dec P2PMessage)) by weak.
  assert (H0 : DecodeWeak (h ← decode hello_codec; mret (Hello h))) by weak.
  assert (H1 : DecodeWeak (r ← decode reason_codec; mret (Disconnect r))).
  { apply bind_weak; [apply reason_decode_weak|weak]. }
  destruct id as [|[p|[p|p|]|]|p]; by apply dw_safe.
Qed.
