(* ===== verification/P2PStream.v ===== *)
(** * The p2p and eth streams

    crates/net/eth-wire/src: capability.rs ([SharedCapability]), p2pstream.rs
    (capability negotiation, handshake, [P2PStream]), pinger.rs and ethstream.rs
    (handshake, [EthStream]).  The transport under a stream is a class of sink
    operations and a queue of received items; snappy is a pair of parameters; the
    answers of tokio's timers are arguments. *)
From S2P Require Import Prelude Bytes Rlp BTree RlpDerive Primitives SubState ChainSpec PrimitivesRlp EthWire.

Abbreviation MAX_PAYLOAD_SIZE := (16 * 1024 * 1024).
Abbreviation MAX_RESERVED_MESSAGE_ID := 0x0f.
Abbreviation MAX_P2P_MESSAGE_ID := 0x03.
Abbreviation MAX_P2P_CAPACITY := 64.
Abbreviation MAX_MESSAGE_SIZE := (10 * 1024 * 1024).

(** ** Negotiation of capabilities *)

Inductive SharedCapability :=
| SEth (version : EthVersion) (offset : Z)
| SUnknown (name : bytes) (version offset : Z).

(** The string of three letters naming the eth protocol. *)
Abbreviation eth_name := [101; 116; 104].

Definition SharedCapability_new (name : bytes) (version offset : Z) : outcome P2PStreamError SharedCapability :=
  if bool_decide (name = eth_name) then
    match version_try_from version with
    | Some v => Ok (SEth v offset)
    | None => Err (CapabilityError (UnsupportedVersion version))
    end
  else Ok (SUnknown name version offset).

Definition cap_offset (c : SharedCapability) : Z := match c with SEth _ o | SUnknown _ _ o => o end.

(** [Ord for str]: lexicographic on the bytes. *)
Fixpoint name_leb (a b : bytes) : bool :=
  match a, b with
  | [], _ => true
  | _ :: _, [] => false
  | x :: a, y :: b => (x <? y) || ((x =? y) && name_leb a b)
  end.
Definition name_le (a b : bytes) : Prop := name_leb a b = true.
#[global] Instance name_le_dec : RelDecision name_le.
Proof. intros a b. unfold name_le. apply _. Defined.

(** The loop over the peer's capabilities: the highest shared version of a name. *)
Fixpoint shared_loop (ours peers : list Capability) (shared : gmap bytes Z) (names : gmap bytes unit)
    : gmap bytes Z * gmap bytes unit :=
  match peers with
  | [] => (shared, names)
  | c :: peers =>
      let better := match shared !! cap_name c with None => true | Some version => version <? cap_version c end in
      if bool_decide (c ∈ ours) && better
      then shared_loop ours peers (<[cap_name c := cap_version c]> shared) (<[cap_name c := tt]> names)
      else shared_loop ours peers shared names
  end.

(** The loop that hands out message ids. *)
Fixpoint offset_loop (shared : gmap bytes Z) (names : list bytes) (offset : Z) (acc : list SharedCapability)
    : outcome P2PStreamError (list SharedCapability) :=
  match names with
  | [] => Ok acc
  | name :: names =>
      match shared !! name with
      | None => Panic
      | Some version =>
          shared_capability ← SharedCapability_new name (wrap 8 version) offset;
          match shared_capability with
          | SUnknown _ _ _ => offset_loop shared names offset acc
          | SEth v _ => offset_loop shared names (wadd 8 offset (total_messages v)) (acc ++ [shared_capability])
          end
      end
  end.

Definition set_capability_offsets (local peer : list Capability) : outcome P2PStreamError SharedCapability :=
  let '(shared, names) := shared_loop local peer ∅ ∅ in
  if bool_decide (shared = ∅) then Err (HandshakeError NoSharedCapabilities) else
  shared_with_offsets ← offset_loop shared (entries name_le names).*1 (MAX_RESERVED_MESSAGE_ID + 1) [];
  match shared_with_offsets with
  | c :: _ => Ok c
  | [] => Err (HandshakeError NoSharedCapabilities)
  end.

(** ** The transport under a stream *)

Inductive Poll (A : Type) := Pending | Ready (a : A).
Arguments Pending {A}.
Arguments Ready {A} a.

(** What the inner stream yields: a frame, an error, or its end. *)
Inductive InnerItem := Frame (b : bytes) | IoError (kind : ErrorKind) | Closed.

(** The [Sink<Bytes>] operations of the inner stream; errors are [io::Error]s. *)
Class InnerSink (S : Type) := {
  sink_poll_ready : S -> outcome ErrorKind (Poll unit) * S;
  sink_poll_flush : S -> outcome ErrorKind (Poll unit) * S;
  sink_start_send : bytes -> S -> outcome ErrorKind unit * S;
  (** [SinkExt::send]: feed the item and flush to the end *)
  sink_send : bytes -> S -> outcome ErrorKind unit * S
}.

(** ** The p2p handshake *)

Section Handshake.
Context {S : Type} `{!InnerSink S}.

Definition send_p2p (m : P2PMessage) : st S P2PStreamError unit :=
  map_err Io (sink_send (p2p_encode m [])).

(** [UnauthedP2PStream::handshake]; [first] is the first item of the inner stream
    and [None] the elapsed [HANDSHAKE_TIMEOUT]. *)
Definition p2p_handshake (hello : HelloMessage) (first : option InnerItem)
    : st S P2PStreamError (SharedCapability * HelloMessage) :=
  send_p2p (Hello hello);;
  first_message_bytes ←
    match first with
    | None => st_throw (HandshakeError Timeout)
    | Some Closed => st_throw (HandshakeError P2PNoResponse)
    | Some (IoError kind) => st_throw (Io kind)
    | Some (Frame b) => mret b
    end;
  if MAX_PAYLOAD_SIZE <? zlen first_message_bytes
  then st_throw (MessageTooBig (zlen first_message_bytes) MAX_PAYLOAD_SIZE) else
  their_hello ←
    match fst (p2p_decode first_message_bytes) with
    | Ok (Hello hello) => mret hello
    | Ok (Disconnect reason) => st_throw (HandshakeError (HandshakeDisconnected reason))
    | Ok _ => st_throw (HandshakeError NonHelloMessageInHandshake)
    | Err err => st_throw (HandshakeError (HandshakeDecodeError err))
    | Panic => st_panic
    | Diverge => st_lift Diverge
    end;
  if negb (protocol_version_u8 (protocol_version hello) =? protocol_version_u8 (protocol_version their_hello)) then
    send_p2p (Disconnect IncompatibleP2PProtocolVersion);;
    st_throw (MismatchedP2PVersion (protocol_version_u8 (protocol_version hello))
                                   (protocol_version_u8 (protocol_version their_hello)))
  else
  shared_capability ←
    match set_capability_offsets (capabilities hello) (capabilities their_hello) with
    | Err err => send_p2p (Disconnect UselessPeer);; st_throw err
    | res => st_lift res
    end;
  mret (shared_capability, their_hello).
End Handshake.

(** ** The pinger *)

Inductive PingState := PingReady | WaitingForPong | TimedOut.

Inductive PingerEvent := EvPing | EvTimeout.

Definition on_pong (s : PingState) : outcome P2PStreamError PingState :=
  match s with PingReady => Err UnexpectedPong | WaitingForPong | TimedOut => Ok PingReady end.

(** [poll_ping]: [tick] is the answer of the interval timer, [elapsed] of the
    timeout timer. *)
Definition poll_ping (tick elapsed : bool) (s : PingState) : Poll PingerEvent * PingState :=
  match s with
  | PingReady => if tick then (Ready EvPing, WaitingForPong) else (Pending, s)
  | WaitingForPong => if elapsed then (Ready EvTimeout, TimedOut) else (Pending, s)
  | TimedOut => (Pending, s)
  end.

(** ** [P2PStream] *)

Record P2PStream := mkP2PStream {
  pinger : PingState;
  shared_capability : SharedCapability;
  outgoing_messages : list bytes;
  disconnecting : bool
}.

Definition P2PStream_new (capability : SharedCapability) : P2PStream :=
  mkP2PStream PingReady capability [] false.

Definition queue (l : list bytes) (s : P2PStream) : P2PStream :=
  mkP2PStream (pinger s) (shared_capability s) l (disconnecting s).

Definition with_pinger (p : PingState) (s : P2PStream) : P2PStream :=
  mkP2PStream p (shared_capability s) (outgoing_messages s) (disconnecting s).

(** [send_ping] and [send_pong] *)
Definition queue_p2p (m : P2PMessage) (s : P2PStream) : P2PStream :=
  queue (outgoing_messages s ++ [p2p_encode m []]) s.

Section Stream.
(** snappy: compression, the announced length of a compressed block, and
    decompression; [None] is [snap::Error]. *)
Context (compress : bytes -> option bytes) (decompress_len : bytes -> option Z).
Context (decompress : bytes -> option bytes).

(** The compressed form of a message under the id [id]; slicing [[1..]] of an
    empty message panics. *)
Definition compressed (item : bytes) (id : Z -> Z) : outcome P2PStreamError bytes :=
  match item with
  | [] => Panic
  | b :: body => match compress body with Some c => Ok (id b :: c) | None => Err Snap end
  end.

Definition start_disconnect (reason : DisconnectReason) : st P2PStream P2PStreamError unit :=
  s ← st_get;
  st_put (queue [] s);;
  c ← st_lift (compressed (p2p_encode (Disconnect reason) []) id);
  st_put (mkP2PStream (pinger s) (shared_capability s) [c] true).

(** [Sink::start_send] *)
Definition p2p_start_send (item : bytes) : st P2PStream P2PStreamError unit :=
  s ← st_get;
  if MAX_P2P_CAPACITY <=? zlen (outgoing_messages s) then st_throw SendBufferFull else
  c ← st_lift (compressed item (fun b => wadd 8 b (cap_offset (shared_capability s))));
  st_put (queue (outgoing_messages s ++ [c]) s).

(** One received frame, as the body of the loop of [poll_next] handles it:
    [None] continues the loop, [Some b] yields the message [b]. *)
Definition on_frame (b : bytes) : st P2PStream P2PStreamError (option bytes) :=
  match b with
  | [] => st_panic
  | id :: body =>
      match decompress_len body with
      | None => st_throw Snap
      | Some decompressed_len =>
          if MAX_PAYLOAD_SIZE <? decompressed_len
          then st_throw (MessageTooBig decompressed_len MAX_PAYLOAD_SIZE) else
          match decompress body with
          | None => st_throw Snap
          | Some decompress_buf =>
              s ← st_get;
              if id =? 0x02 then
                if MAX_P2P_CAPACITY <? zlen (outgoing_messages s) then st_throw SendBufferFull
                else st_put (queue_p2p Pong s);; mret None
              else if id =? 0x01 then
                match fst (reason_decode decompress_buf) with
                | Ok reason => st_throw (Disconnected reason)
                | Err e => st_throw (RlpErr e)
                | Panic => st_panic
                | Diverge => st_lift Diverge
                end
              else if id =? 0x00 then st_throw (HandshakeError HelloNotInHandshake)
              else if id =? 0x03 then
                p ← st_lift (on_pong (pinger s));
                st_put (with_pinger p s);; mret None
              else if (MAX_P2P_MESSAGE_ID <? id) && (id <=? MAX_RESERVED_MESSAGE_ID)
              then st_throw (UnknownReservedMessageId id)
              else mret (Some (wrap 8 (id - cap_offset (shared_capability s)) :: decompress_buf))
          end
      end
  end.

(** The loop of [Stream::poll_next]; [inner] holds the items the inner stream has
    ready, and the rest is left for the next call. *)
Fixpoint poll_loop (inner : list InnerItem) : st P2PStream P2PStreamError (Poll (option bytes) * list InnerItem) :=
  match inner with
  | [] => mret (Pending, [])
  | IoError kind :: _ => st_throw (Io kind)
  | Closed :: inner => mret (Ready None, inner)
  | Frame b :: inner =>
      r ← on_frame b;
      match r with
      | Some m => mret (Ready (Some m), inner)
      | None => poll_loop inner
      end
  end.

Definition p2p_poll_next (inner : list InnerItem) : st P2PStream P2PStreamError (Poll (option bytes) * list InnerItem) :=
  s ← st_get;
  if disconnecting s then mret (Ready None, inner) else poll_loop inner.

Section Sink.
Context {S : Type} `{!InnerSink S}.

(** The loop of [poll_flush]. *)
Fixpoint flush_loop (outgoing : list bytes) (inner : S) : outcome P2PStreamError (Poll unit) * list bytes * S :=
  match sink_poll_flush inner with
  | (Ok Pending, inner) => (Ok Pending, outgoing, inner)
  | (Ok (Ready _), inner) =>
      match outgoing with
      | [] => (Ok (Ready tt), [], inner)
      | message :: outgoing =>
          match sink_start_send message inner with
          | (Ok _, inner) => flush_loop outgoing inner
          | (Err e, inner) => (Err (Io e), outgoing, inner)
          | (Panic, inner) => (Panic, outgoing, inner)
          | (Diverge, inner) => (Diverge, outgoing, inner)
          end
      end
  | (Err e, inner) => (Err (Io e), outgoing, inner)
  | (Panic, inner) => (Panic, outgoing, inner)
  | (Diverge, inner) => (Diverge, outgoing, inner)
  end.

Definition p2p_poll_flush (s : P2PStream) (inner : S) : outcome P2PStreamError (Poll unit) * P2PStream * S :=
  let '(r, outgoing, inner) := flush_loop (outgoing_messages s) inner in (r, queue outgoing s, inner).

Definition p2p_poll_ready (tick elapsed : bool) (s : P2PStream) (inner : S)
    : outcome P2PStreamError (Poll unit) * P2PStream * S :=
  let '(event, p) := poll_ping tick elapsed (pinger s) in
  let s := with_pinger p s in
  let send s :=
    let room s : outcome P2PStreamError (Poll unit) :=
      if zlen (outgoing_messages s) <? MAX_P2P_CAPACITY then Ok (Ready tt) else Ok Pending in
    match sink_poll_ready inner with
    | (Ok Pending, inner) => (room s, s, inner)
    | (Ok (Ready _), inner) =>
        match p2p_poll_flush s inner with
        | (Ok Pending, s, inner) => (room s, s, inner)
        | (r, s, inner) => (r, s, inner)
        end
    | (Err e, inner) => (Err (Io e), s, inner)
    | (Panic, inner) => (Panic, s, inner)
    | (Diverge, inner) => (Diverge, s, inner)
    end in
  match event with
  | Pending => send s
  | Ready EvPing => send (queue_p2p Ping s)
  | Ready EvTimeout =>
      let '(r, s) := start_disconnect PingTimeout s in
      (_ ← r; Ok (Ready tt), s, inner)
  end.
End Sink.
End Stream.

(** ** The eth handshake and [EthStream] *)

Section Eth.
Context {NamedChain : Type} `{!EqDecision NamedChain}.
Context (named_id : NamedChain -> Z) (named_try_from : Z -> option NamedChain) (keccak256 : bytes -> Z).
Abbreviation error := (EthStreamError NamedChain).
Abbreviation protocol_bytes m := (protocol_encode named_id named_try_from keccak256 m []).
Abbreviation decode_message := (decode_message named_id named_try_from keccak256).

#[global] Instance Chain_eq_dec : EqDecision (Chain NamedChain).
Proof. solve_decision. Defined.

(** [Uint::bit_len] *)
Definition bit_len (v : Z) : Z := if v =? 0 then 0 else Z.log2 v + 1.

Section Handshake.
(** The inner stream: [send] and [CanDisconnect::disconnect]. *)
Context {S : Type} (inner_send : bytes -> st S P2PStreamError unit).
Context (inner_disconnect : DisconnectReason -> st S P2PStreamError unit).

(** Disconnect with a reason, then fail. *)
Definition abort {A} (reason : DisconnectReason) (e : error) : st S error A :=
  map_err P2PErr (inner_disconnect reason);; st_throw e.

(** [UnauthedEthStream::handshake]; [next] is the next item of the inner stream. *)
Definition eth_handshake (status : Status NamedChain) (fork_filter : ForkFilter)
    (next : option (outcome P2PStreamError bytes)) : st S error (EthVersion * Status NamedChain) :=
  map_err P2PErr (inner_send (protocol_bytes (MStatus status)));;
  match next with
  | None => abort DisconnectRequested (EthHandshakeErr EthNoResponse)
  | Some their_msg =>
  their_msg ← map_err P2PErr (st_lift their_msg);
  if MAX_MESSAGE_SIZE <? zlen their_msg then abort ProtocolBreach (EthMessageTooBig (zlen their_msg)) else
  match version_try_from (st_version status) with
  | None => st_throw (ParseVersionErr (st_version status))
  | Some version =>
  msg ←
    match fst (decode_message version their_msg) with
    | Err err => abort DisconnectRequested err
    | res => st_lift res
    end;
  match pm_message msg with
  | MStatus resp =>
      if negb (st_genesis status =? st_genesis resp)
      then abort ProtocolBreach (EthHandshakeErr (MismatchedGenesis (st_genesis status) (st_genesis resp))) else
      if negb (st_version status =? st_version resp)
      then abort ProtocolBreach (EthHandshakeErr (MismatchedProtocolVersion (st_version status) (st_version resp))) else
      if bool_decide (st_chain status <> st_chain resp)
      then abort ProtocolBreach (EthHandshakeErr (MismatchedChain (st_chain status) (st_chain resp))) else
      if 100 <? bit_len (st_total_difficulty status)
      then abort ProtocolBreach
             (EthHandshakeErr (TotalDifficultyBitLenTooLarge 100 (bit_len (st_total_difficulty status)))) else
      match validate fork_filter (st_forkid resp) with
      | Err err => abort ProtocolBreach (EthHandshakeErr (InvalidFork err))
      | Ok _ => mret (version, resp)
      | Panic => st_panic
      | Diverge => st_lift Diverge
      end
  | _ => abort ProtocolBreach (EthHandshakeErr NonStatusMessageInHandshake)
  end
  end
  end.
End Handshake.

(** [Stream for EthStream]: an item of the inner stream. *)
Definition eth_on_bytes (version : EthVersion) (b : bytes) : outcome error (EthMessage NamedChain) :=
  if MAX_MESSAGE_SIZE <? zlen b then Err (EthMessageTooBig (zlen b)) else
  msg ← fst (decode_message version b);
  match pm_message msg with
  | MStatus _ => Err (EthHandshakeErr StatusNotInHandshake)
  | m => Ok m
  end.

Section EthStream.
Context (compress : bytes -> option bytes) (decompress_len : bytes -> option Z).
Context (decompress : bytes -> option bytes).

(** [EthStream::poll_next] over a [P2PStream] *)
Definition eth_poll_next (version : EthVersion) (inner : list InnerItem)
    : st P2PStream error (Poll (option (EthMessage NamedChain)) * list InnerItem) :=
  r ← map_err P2PErr (p2p_poll_next decompress_len decompress inner);
  match r with
  | (Ready (Some b), inner) => m ← st_lift (eth_on_bytes version b); mret (Ready (Some m), inner)
  | (Ready None, inner) => mret (Ready None, inner)
  | (Pending, inner) => mret (Pending, inner)
  end.

(** [EthStream::start_send] over a [P2PStream] *)
Definition eth_start_send (item : EthMessage NamedChain) : st P2PStream error unit :=
  match item with
  | MStatus _ => st_throw (EthHandshakeErr StatusNotInHandshake)
  | _ => map_err P2PErr (p2p_start_send compress (protocol_bytes item))
  end.
End EthStream.
End Eth.
