(* ===== verification/P2PStreamProofs.v ===== *)
(** * The p2p and eth streams: theorems

    Both sides of a connection negotiate the same capability and end the p2p
    handshake alike; what one side sends on an eth stream is what the other side
    receives, in order; when the eth handshake accepts a peer. *)
From S2P Require Import Prelude Bytes Rlp BTree RlpDerive Primitives SubState ChainSpec PrimitivesRlp PrimitivesRlpProofs EthWire EthWireProofs P2PStream.

(** ** Negotiation of capabilities *)

(** [s] holds the highest version of each name among the capabilities in [P]. *)
Definition highest_of (P : bytes -> Z -> Prop) (s : gmap bytes Z) : Prop :=
  (forall n v, s !! n = Some v -> P n v) /\ (forall n v, P n v -> exists v', s !! n = Some v' /\ v <= v').

Lemma highest_unique P s s' : highest_of P s -> highest_of P s' -> s = s'.
Proof.
  intros [H1 H2] [H1' H2']. apply map_eq. intros n. destruct (s !! n) as [v|] eqn:E.
  - destruct (H2' n v (H1 n v E)) as (v' & E' & Hv). destruct (H2 n v' (H1' n v' E')) as (w & Ew & Hw).
    rewrite E in Ew. injection Ew as <-. rewrite E'. f_equal. lia.
  - destruct (s' !! n) as [v|] eqn:E'; [|done]. destruct (H2 n v (H1' n v E')) as (w & Ew & _). congruence.
Qed.

Abbreviation cap n v := (mkCapability n v).
Definition shared_by (local seen : list Capability) (n : bytes) (v : Z) : Prop := cap n v ∈ local /\ cap n v ∈ seen.

Lemma shared_loop_spec ours peers : forall seen s names,
  highest_of (shared_by ours seen) s -> (forall n, is_Some (names !! n) <-> is_Some (s !! n)) ->
  let '(s', names') := shared_loop ours peers s names in
  highest_of (shared_by ours (seen ++ peers)) s' /\ (forall n, is_Some (names' !! n) <-> is_Some (s' !! n)).
Proof.
  induction peers as [|c peers IH]; intros seen s names [H1 H2] Hn; cbn [shared_loop].
  { by rewrite app_nil_r. }
  replace (seen ++ c :: peers) with ((seen ++ [c]) ++ peers) by (by rewrite <- app_assoc).
  destruct c as [n v]. cbn [cap_name cap_version].
  destruct (bool_decide_reflect (cap n v ∈ ours)) as [Ho|Ho]; cbn [andb].
  - destruct (match s !! n with None => true | Some w => w <? v end) eqn:Hb; apply IH; [| |split|done].
    + split.
      * intros n' v'. destruct (decide (n' = n)) as [->|Hne].
        -- rewrite lookup_insert_eq. intros [= <-]. split; [done|]. set_solver.
        -- rewrite lookup_insert_ne by done. intros [??]%H1. split; [done|]. set_solver.
      * intros n' v' [Ho' [Hs|[= -> ->]%list_elem_of_singleton]%elem_of_app].
        -- destruct (H2 n' v') as (w & Hw & Hle); [done|]. destruct (decide (n' = n)) as [->|Hne].
           ++ exists v. rewrite lookup_insert_eq. rewrite Hw in Hb. split; [done|]. zcase_in Hb; [lia|done].
           ++ exists w. by rewrite lookup_insert_ne.
        -- exists v. by rewrite lookup_insert_eq.
    + intros n'. destruct (decide (n' = n)) as [->|Hne]; [by rewrite !lookup_insert_eq|by rewrite !lookup_insert_ne].
    + intros n' v' [??]%H1. split; [done|]. set_solver.
    + intros n' v' [Ho' [Hs|[= -> ->]%list_elem_of_singleton]%elem_of_app]; [by apply H2|].
      destruct (s !! n) as [w|]; [|done]. exists w. split; [done|]. zcase_in Hb; [done|lia].
  - apply IH; [split|done].
    + intros n' v' [??]%H1. split; [done|]. set_solver.
    + intros n' v' [Ho' [Hs|[= -> ->]%list_elem_of_singleton]%elem_of_app]; [by apply H2|done].
Qed.

Lemma offset_loop_keep sh names :
  (forall n, n ∈ names -> is_Some (sh !! n)) ->
  (forall n, sh !! eth_name = Some n -> is_Some (version_try_from (wrap 8 n))) ->
  forall o c acc, exists l, offset_loop sh names o (c :: acc) = Ok (c :: l).
Proof.
  intros Hd Hv. induction names as [|n names IH]; intros o c acc; cbn [offset_loop]; [by exists acc|].
  destruct (Hd n) as [v E]; [set_solver|]. rewrite E. unfold SharedCapability_new.
  assert (IH' := fun o acc => IH (fun n Hn => Hd n ltac:(set_solver)) o c acc).
  destruct (bool_decide_reflect (n = eth_name)) as [->|]; [|apply IH'].
  destruct (Hv v E) as [w ->]. cbn [mbind outcome_bind app]. apply IH'.
Qed.

(** The outcome of the loop that hands out ids: only the eth capability counts. *)
Definition eth_outcome (version : option Z) (o : Z) (r : outcome P2PStreamError (list SharedCapability)) : Prop :=
  match version with
  | None => r = Ok []
  | Some n =>
      match version_try_from (wrap 8 n) with
      | Some v => exists l, r = Ok (SEth v o :: l)
      | None => r = Err (CapabilityError (UnsupportedVersion (wrap 8 n)))
      end
  end.

Lemma offset_loop_spec sh names o :
  (forall n, n ∈ names -> is_Some (sh !! n)) ->
  eth_outcome (if bool_decide (eth_name ∈ names) then sh !! eth_name else None) o (offset_loop sh names o []).
Proof.
  induction names as [|n names IH]; intros Hd; cbn [offset_loop]; [done|].
  destruct (Hd n) as [v E]; [set_solver|]. rewrite E. unfold SharedCapability_new.
  assert (Hd' : forall n, n ∈ names -> is_Some (sh !! n)) by set_solver.
  destruct (bool_decide_reflect (n = eth_name)) as [->|Hne].
  - rewrite bool_decide_eq_true_2 by set_solver. rewrite E. unfold eth_outcome.
    destruct (version_try_from (wrap 8 v)) as [w|] eqn:Ew; [|done]. cbn [mbind outcome_bind app].
    apply offset_loop_keep; [done|]. intros n'. rewrite E. intros [= <-]. by rewrite Ew.
  - cbn [mbind outcome_bind]. replace (bool_decide (eth_name ∈ n :: names)) with (bool_decide (eth_name ∈ names)); [by apply IH|].
    apply bool_decide_ext. set_solver.
Qed.

(** [n] is the highest version of the eth protocol both lists announce. *)
Definition highest_shared_eth (l p : list Capability) (n : Z) : Prop :=
  shared_by l p eth_name n /\ forall n', shared_by l p eth_name n' -> n' <= n.

Lemma negotiated_map l p :
  exists s, highest_of (shared_by l p) s /\
    set_capability_offsets l p =
      match s !! eth_name with
      | None => Err (HandshakeError NoSharedCapabilities)
      | Some n =>
          match version_try_from (wrap 8 n) with
          | Some v => Ok (SEth v 0x10)
          | None => Err (CapabilityError (UnsupportedVersion (wrap 8 n)))
          end
      end.
Proof.
  pose proof (shared_loop_spec l p [] ∅ ∅) as H. unfold set_capability_offsets.
  destruct (shared_loop l p ∅ ∅) as [s names]. cbn [app] in H. destruct H as [Hs Hn].
  { split; [done|]. intros n v [_ H]. by apply not_elem_of_nil in H. }
  { intros n. rewrite !lookup_empty. split; by intros []. }
  exists s. split; [done|]. destruct (bool_decide_reflect (s = ∅)) as [->|_]; [done|].
  assert (Hd : forall n, n ∈ (entries name_le names).*1 <-> is_Some (s !! n)).
  { intros n. rewrite <- Hn. split.
    - intros ([n' u] & -> & Hu)%list_elem_of_fmap. apply elem_of_entries in Hu. by exists u.
    - intros [u Hu]. apply list_elem_of_fmap. exists (n, u). split; [done|]. by apply elem_of_entries. }
  pose proof (offset_loop_spec s (entries name_le names).*1 (MAX_RESERVED_MESSAGE_ID + 1) (fun n Hn => proj1 (Hd n) Hn)) as H.
  change (MAX_RESERVED_MESSAGE_ID + 1) with 0x10 in *. revert H.
  destruct (bool_decide_reflect (eth_name ∈ (entries name_le names).*1)) as [He|He]; rewrite Hd in He.
  - destruct He as [n ->]. unfold eth_outcome. destruct (version_try_from (wrap 8 n)); [by intros [? ->]|by intros ->].
  - apply eq_None_not_Some in He. rewrite He. by intros ->.
Qed.

Lemma negotiated_sym local peer :
  set_capability_offsets peer local = set_capability_offsets local peer /\ safe (set_capability_offsets local peer).
Proof.
  destruct (negotiated_map local peer) as (s & Hs & ->). destruct (negotiated_map peer local) as (s' & [H1 H2] & ->).
  rewrite (highest_unique (shared_by local peer) s s'); [|done|].
  - split; [done|]. destruct (s' !! eth_name) as [n|]; [|done]. by destruct (version_try_from (wrap 8 n)).
  - split; [intros n v [??]%H1; by split|intros n v [??]; by apply H2].
Qed.

(** C32. The two sides of a connection negotiate the same capability, or fail with
    the same error, whatever the order and the repetitions in their lists.  What
    they agree on is the highest eth version both announce, under the message id
    offset 16. *)
Theorem capability_negotiation (local peer : list Capability) :
  set_capability_offsets local peer = set_capability_offsets peer local /\
  forall c, set_capability_offsets local peer = Ok c <->
    exists n v, highest_shared_eth local peer n /\ version_try_from (wrap 8 n) = Some v /\ c = SEth v 0x10.
Proof.
  split; [symmetry; apply negotiated_sym|]. intros c.
  destruct (negotiated_map local peer) as (s & [H1 H2] & ->).
  assert (Hmax : forall n, highest_shared_eth local peer n <-> s !! eth_name = Some n).
  { intros n. split.
    - intros [Hn Hm]. destruct (H2 _ _ Hn) as (v & Ev & Hle). rewrite Ev. f_equal.
      pose proof (Hm v (H1 _ _ Ev)). lia.
    - intros En. split; [by apply H1|]. intros n' (v & Ev & Hle)%H2. congruence. }
  setoid_rewrite Hmax. split.
  - destruct (s !! eth_name) as [n|]; [|done]. destruct (version_try_from (wrap 8 n)) as [v|] eqn:Ev; [|done].
    intros [= <-]. by exists n, v.
  - by intros (n & v & -> & -> & ->).
Qed.

(** ** The p2p handshake *)

(** A transport that accepts everything: the frames handed to it, in order. *)
#[global] Instance reliable_sink : InnerSink (list bytes) := {|
  sink_poll_ready s := (Ok (Ready tt), s);
  sink_poll_flush s := (Ok (Ready tt), s);
  sink_start_send b s := (Ok tt, s ++ [b]);
  sink_send b s := (Ok tt, s ++ [b])
|}.

Definition hello_wf (h : HelloMessage) : Prop :=
  codec_wf hello_codec h /\ zlen (p2p_encode (Hello h) []) <= MAX_PAYLOAD_SIZE.

Lemma hello_decode h : hello_wf h -> fst (p2p_decode (p2p_encode (Hello h) [])) = Ok (Hello h).
Proof. intros [Hh _]. rewrite <- (app_nil_r (p2p_encode _ _)), p2p_decode_encode; done. Qed.

(** One side's handshake when the other sends its hello. *)
Lemma handshake_eq (h h' : HelloMessage) :
  hello_wf h' ->
  p2p_handshake h (Some (Frame (p2p_encode (Hello h') []))) [] =
  if negb (protocol_version_u8 (protocol_version h) =? protocol_version_u8 (protocol_version h')) then
    (Err (MismatchedP2PVersion (protocol_version_u8 (protocol_version h)) (protocol_version_u8 (protocol_version h'))),
     [p2p_encode (Hello h) []; p2p_encode (Disconnect IncompatibleP2PProtocolVersion) []])
  else match set_capability_offsets (capabilities h) (capabilities h') with
       | Ok c => (Ok (c, h'), [p2p_encode (Hello h) []])
       | Err e => (Err e, [p2p_encode (Hello h) []; p2p_encode (Disconnect UselessPeer) []])
       | Panic => (Panic, [p2p_encode (Hello h) []])
       | Diverge => (Diverge, [p2p_encode (Hello h) []])
       end.
Proof.
  intros Hh. pose proof (hello_decode h' Hh) as Hd. destruct Hh as [_ Hl]. unfold p2p_handshake.
  erewrite bind_ok by (by apply map_err_ok). erewrite bind_ok by done.
  replace (MAX_PAYLOAD_SIZE <? _) with false by (symmetry; apply Z.ltb_ge; lia).
  rewrite Hd. erewrite bind_ok by done. destruct (negb _); [done|].
  by destruct (set_capability_offsets _ _).
Qed.

(** C31. Two nodes that send each other their hello end the p2p handshake alike:
    both succeed, with the same shared capability and the other's hello, or both
    fail and send the same disconnect reason.  Neither panics. *)
Theorem p2p_handshake_agreement (h h' : HelloMessage) :
  hello_wf h -> hello_wf h' ->
  let r := p2p_handshake h (Some (Frame (p2p_encode (Hello h') []))) [] in
  let r' := p2p_handshake h' (Some (Frame (p2p_encode (Hello h) []))) [] in
  (exists c, r = (Ok (c, h'), [p2p_encode (Hello h) []]) /\ r' = (Ok (c, h), [p2p_encode (Hello h') []])) \/
  (exists e e' reason, r = (Err e, [p2p_encode (Hello h) []; p2p_encode (Disconnect reason) []]) /\
     r' = (Err e', [p2p_encode (Hello h') []; p2p_encode (Disconnect reason) []])).
Proof.
  intros Hh Hh'. cbv zeta. rewrite (handshake_eq h h' Hh'), (handshake_eq h' h Hh).
  rewrite (Z.eqb_sym (protocol_version_u8 (protocol_version h'))).
  destruct (negb _); [right; eauto 6|]. 
  destruct (negotiated_sym (capabilities h) (capabilities h')) as [-> Hs].
  destruct (set_capability_offsets (capabilities h) (capabilities h')) as [c|e| |]; [left|right|..]; eauto 6; done.
Qed.

Lemma example_hello_wf : hello_wf example_hello.
Proof. split; [wf_eval|vm_compute; done]. Qed.

Lemma p2p_handshake_agreement_witness :
  exists c, p2p_handshake example_hello (Some (Frame (p2p_encode (Hello example_hello) []))) [] =
    (Ok (c, example_hello), [p2p_encode (Hello example_hello) []]).
Proof.
  destruct (p2p_handshake_agreement example_hello example_hello example_hello_wf example_hello_wf)
    as [(c & H & _)|(e & e' & reason & H & _)]; [by exists c|].
  apply (f_equal fst) in H. rewrite (handshake_eq _ _ example_hello_wf) in H. vm_compute in H. done.
Defined.

(** ** Delivery of eth messages *)

(** What the streams rely on of snappy. *)
Definition snappy_ok (compress : bytes -> option bytes) (decompress_len : bytes -> option Z)
    (decompress : bytes -> option bytes) : Prop :=
  (forall x, zlen x <= MAX_PAYLOAD_SIZE -> is_Some (compress x)) /\
  (forall x c, compress x = Some c -> decompress_len c = Some (zlen x) /\ decompress c = Some x).

Section Delivery.
Context {NamedChain : Type} (named_id : NamedChain -> Z) (named_try_from : Z -> option NamedChain).
Context (keccak256 : bytes -> Z).
Context (compress : bytes -> option bytes) (decompress_len : bytes -> option Z).
Context (decompress : bytes -> option bytes).
Abbreviation protocol_bytes m := (protocol_encode named_id named_try_from keccak256 m []).
Abbreviation start_send := (eth_start_send named_id named_try_from keccak256 compress).
Abbreviation poll_next := (eth_poll_next named_id named_try_from keccak256 decompress_len decompress).

(** A client that sends the messages one after the other. *)
Fixpoint send_all (ms : list (EthMessage NamedChain)) : st P2PStream (EthStreamError NamedChain) unit :=
  match ms with [] => mret tt | m :: ms => start_send m;; send_all ms end.

(** A client that polls until nothing is ready. *)
Fixpoint receive_all (v : EthVersion) (fuel : nat) (inner : list InnerItem)
    : st P2PStream (EthStreamError NamedChain) (list (EthMessage NamedChain)) :=
  match fuel with
  | O => st_lift Diverge
  | S fuel =>
      r ← poll_next v inner;
      match r with
      | (Ready (Some m), inner) => ms ← receive_all v fuel inner; mret (m :: ms)
      | _ => mret []
      end
  end.

(** The messages of version [v] a session exchanges. *)
Definition deliverable (v : EthVersion) (m : EthMessage NamedChain) : Prop :=
  (forall s, m <> MStatus s) /\ valid_for v m /\ message_wf named_id named_try_from keccak256 m /\
  zlen (protocol_bytes m) <= MAX_MESSAGE_SIZE.

(** The frame of a message under the offset 16. *)
Definition frame_of (m : EthMessage NamedChain) (f : bytes) : Prop :=
  exists c, f = (message_id_u8 (message_id m) + 0x10) :: c /\
    compress (with_payload named_id named_try_from keccak256 (fun _ c x => encode c x []) m) = Some c.

Hypothesis named_ok : named_chains_ok named_id named_try_from.
Hypothesis snap_ok : snappy_ok compress decompress_len decompress.

Lemma protocol_bytes_eq m : protocol_bytes m =
  message_id_u8 (message_id m) :: with_payload named_id named_try_from keccak256 (fun _ c x => encode c x []) m.
Proof. by rewrite protocol_encode_eq. Qed.

Lemma message_id_range id : 0 <= message_id_u8 id <= 0x10.
Proof. by destruct id. Qed.

Lemma send_ok v m s :
  deliverable v m -> shared_capability s = SEth v 0x10 -> zlen (outgoing_messages s) < MAX_P2P_CAPACITY ->
  exists f, frame_of m f /\ start_send m s = (Ok tt, queue (outgoing_messages s ++ [f]) s).
Proof.
  intros (Hst & _ & _ & Hl) Hc Hq. rewrite protocol_bytes_eq in Hl. cbn [length] in Hl.
  destruct (proj1 snap_ok (with_payload named_id named_try_from keccak256 (fun _ c x => encode c x []) m)) as [c Hz]; [lia|].
  exists ((message_id_u8 (message_id m) + 0x10) :: c). split; [by exists c|].
  assert (E : start_send m s = map_err P2PErr (p2p_start_send compress (protocol_bytes m)) s).
  { destruct m; try done. by destruct (Hst s0). }
  rewrite E. apply map_err_ok. unfold p2p_start_send. erewrite bind_ok by done. cbn beta. zdec.
  rewrite protocol_bytes_eq. unfold st_lift, compressed. rewrite Hz, Hc. cbn [cap_offset].
  pose proof (message_id_range (message_id m)). rewrite wadd_small by (unfold in_u; lia).
  by erewrite bind_ok by done.
Qed.

Lemma poll_ok v m f inner r :
  deliverable v m -> frame_of m f -> shared_capability r = SEth v 0x10 -> disconnecting r = false ->
  poll_next v (Frame f :: inner) r = (Ok (Ready (Some m), inner), r).
Proof.
  intros (Hst & Hv & Hw & Hl) (c & -> & Hz) Hc Hd. destruct (proj2 snap_ok _ _ Hz) as [E1 E2].
  pose proof (message_id_range (message_id m)) as Hid. unfold eth_poll_next.
  assert (Hf : on_frame decompress_len decompress ((message_id_u8 (message_id m) + 0x10) :: c) r
               = (Ok (Some (protocol_bytes m)), r)).
  { unfold on_frame. rewrite E1. rewrite protocol_bytes_eq in Hl |- *. cbn [length] in Hl.
    replace (MAX_PAYLOAD_SIZE <? _) with false by (symmetry; apply Z.ltb_ge; lia).
    rewrite E2. erewrite bind_ok by done. zdec. cbn [andb]. rewrite Hc. cbn [cap_offset].
    replace (_ + 0x10 - 0x10) with (message_id_u8 (message_id m)) by lia. by rewrite wrap_small by (unfold in_u; lia). }
  assert (Hp : p2p_poll_next decompress_len decompress (Frame ((message_id_u8 (message_id m) + 0x10) :: c) :: inner) r
               = (Ok (Ready (Some (protocol_bytes m)), inner), r)).
  { unfold p2p_poll_next. erewrite bind_ok by done. rewrite Hd. cbn [poll_loop].
    by rewrite (bind_ok _ _ _ _ _ Hf). }
  erewrite bind_ok by (by apply map_err_ok). cbn beta iota.
  assert (Hb : eth_on_bytes named_id named_try_from keccak256 v (protocol_bytes m) = Ok m).
  { unfold eth_on_bytes. replace (MAX_MESSAGE_SIZE <? _) with false by (symmetry; apply Z.ltb_ge; lia).
    pose proof (decode_message_ok named_id named_try_from keccak256 v m [] named_ok Hv Hw) as Hm.
    rewrite app_nil_r in Hm. rewrite Hm. cbn. destruct m; try done. by destruct (Hst s). }
  unfold st_lift. by erewrite bind_ok by (by rewrite Hb).
Qed.

Lemma queue_queue l l' s : queue l (queue l' s) = queue l s.
Proof. done. Qed.

Lemma send_all_ok v ms : forall s,
  Forall (deliverable v) ms -> shared_capability s = SEth v 0x10 ->
  zlen (outgoing_messages s) + zlen ms <= MAX_P2P_CAPACITY ->
  exists fs, Forall2 frame_of ms fs /\ send_all ms s = (Ok tt, queue (outgoing_messages s ++ fs) s).
Proof.
  induction ms as [|m ms IH]; intros s Hms Hc Hq; cbn [send_all length] in *.
  { exists []. split; [constructor|]. rewrite app_nil_r. by destruct s. }
  apply Forall_cons in Hms as [Hm Hms]. destruct (send_ok v m s) as (f & Hf & E); [done..|lia|].
  destruct (IH (queue (outgoing_messages s ++ [f]) s)) as (fs & Hfs & E2); [done..| |].
  { cbn [queue outgoing_messages]. rewrite length_app. cbn [length]. lia. }
  exists (f :: fs). split; [by constructor|]. rewrite (bind_ok _ _ _ _ _ E), E2. cbn [queue outgoing_messages].
  by rewrite queue_queue, <- app_assoc.
Qed.

Lemma receive_all_ok v ms fs r :
  Forall (deliverable v) ms -> Forall2 frame_of ms fs -> shared_capability r = SEth v 0x10 ->
  disconnecting r = false ->
  receive_all v (S (length ms)) (Frame <$> fs) r = (Ok ms, r).
Proof.
  intros Hms Hfs Hc Hd. induction Hfs as [|m f ms fs Hf _ IH].
  - cbn. unfold eth_poll_next, p2p_poll_next, map_err, mbind, st_bind, st_get. by rewrite Hd.
  - apply Forall_cons in Hms as [Hm Hms]. cbn [length fmap list_fmap].
    change (receive_all v (S ?n) ?l) with
      (r ← poll_next v l; match r with
        | (Ready (Some m), inner) => ms ← receive_all v n inner; mret (m :: ms)
        | _ => mret [] end).
    rewrite (bind_ok _ _ _ _ _ (poll_ok v m f _ r Hm Hf Hc Hd)).
    by rewrite (bind_ok _ _ _ _ _ (IH Hms)).
Qed.
End Delivery.

Lemma flush_reliable l : forall inner : list bytes, flush_loop l inner = (Ok (Ready tt), [], inner ++ l).
Proof.
  induction l as [|m l IH]; intros inner; cbn; [by rewrite app_nil_r|]. rewrite IH. by rewrite <- app_assoc.
Qed.

(** C7. What one side of a session sends is what the other side receives: up to 64
    messages handed to an eth stream over a p2p stream are queued, written to the
    transport by a flush, and polled from the frames by the peer, all of them, in
    order and unchanged, when both sides hold the capability they negotiated. *)
Theorem eth_stream_delivery {NamedChain : Type} (named_id : NamedChain -> Z) named_try_from keccak256
    compress decompress_len decompress (v : EthVersion) (ms : list (EthMessage NamedChain)) (sender receiver : P2PStream) :
  named_chains_ok named_id named_try_from -> snappy_ok compress decompress_len decompress ->
  Forall (deliverable named_id named_try_from keccak256 v) ms -> zlen ms <= MAX_P2P_CAPACITY ->
  shared_capability sender = SEth v 0x10 -> outgoing_messages sender = [] ->
  shared_capability receiver = SEth v 0x10 -> disconnecting receiver = false ->
  exists sender' frames,
    send_all named_id named_try_from keccak256 compress ms sender = (Ok tt, sender') /\
    p2p_poll_flush sender' [] = (Ok (Ready tt), sender, frames) /\
    receive_all named_id named_try_from keccak256 decompress_len decompress v (S (length ms)) (Frame <$> frames) receiver
    = (Ok ms, receiver).
Proof.
  intros Hn Hs Hms Hl Hc Hq Hc' Hd.
  destruct (send_all_ok named_id named_try_from keccak256 compress decompress_len decompress Hn Hs v ms sender)
    as (fs & Hfs & E); [done..|rewrite Hq; cbn [length]; lia|].
  exists (queue (outgoing_messages sender ++ fs) sender), fs. split; [done|]. rewrite Hq, app_nil_l. split.
  - unfold p2p_poll_flush. cbn [queue outgoing_messages]. rewrite flush_reliable. rewrite queue_queue.
    destruct sender. cbn in Hq |- *. by subst.
  - by apply (receive_all_ok _ _ _ compress).
Qed.

Lemma eth_stream_delivery_witness :
  exists sender' frames,
    send_all example_named example_try_from (fun _ => 0) Some [example_request; example_request]
      (P2PStream_new (SEth Eth67 0x10)) = (Ok tt, sender') /\
    p2p_poll_flush sender' [] = (Ok (Ready tt), P2PStream_new (SEth Eth67 0x10), frames) /\
    receive_all example_named example_try_from (fun _ => 0) (fun l => Some (zlen l)) Some Eth67 3 (Frame <$> frames)
      (P2PStream_new (SEth Eth67 0x10)) = (Ok [example_request; example_request], P2PStream_new (SEth Eth67 0x10)).
Proof.
  apply (eth_stream_delivery example_named example_try_from (fun _ => 0) Some (fun l => Some (zlen l)) Some
    Eth67 [example_request; example_request]); try done.
  - exact example_named_ok.
  - split; [by eexists|]. by intros x c [= <-].
  - assert (H : deliverable example_named example_try_from (fun _ => 0) Eth67 example_request).
    { split_and!; [by intros s|done|wf_eval|vm_compute; done]. }
    by repeat constructor.
Defined.

(** ** The eth handshake *)

Section EthHandshake.
Context {NamedChain : Type} `{!EqDecision NamedChain} (named_id : NamedChain -> Z).
Context (named_try_from : Z -> option NamedChain) (keccak256 : bytes -> Z).
Abbreviation status_bytes s := (protocol_encode named_id named_try_from keccak256 (MStatus s) []).

(** An inner stream that writes what it is given; a disconnect is a marked frame. *)
Definition write_frame (b : bytes) : st (list (bytes + DisconnectReason)) P2PStreamError unit :=
  fun s => (Ok tt, s ++ [inl b]).
Definition write_disconnect (r : DisconnectReason) : st (list (bytes + DisconnectReason)) P2PStreamError unit :=
  fun s => (Ok tt, s ++ [inr r]).

Abbreviation handshake := (eth_handshake named_id named_try_from keccak256 write_frame write_disconnect).

(** A status that fits in a message. *)
Definition status_wf (s : Status NamedChain) : Prop :=
  codec_wf (status_codec named_id named_try_from) s /\ zlen (status_bytes s) <= MAX_MESSAGE_SIZE.

(** What the handshake checks of the peer's status. *)
Definition handshake_checks (status resp : Status NamedChain) (f : ForkFilter) : Prop :=
  st_genesis status = st_genesis resp /\ st_version status = st_version resp /\ st_chain status = st_chain resp /\
  bit_len (st_total_difficulty status) <= 100 /\ validate f (st_forkid resp) = Ok tt.

Lemma handshake_eq_checks status resp f v :
  named_chains_ok named_id named_try_from -> status_wf resp -> version_try_from (st_version status) = Some v ->
  (handshake_checks status resp f /\
   handshake status f (Some (Ok (status_bytes resp))) [] = (Ok (v, resp), [inl (status_bytes status)])) \/
  (~ handshake_checks status resp f /\ exists e,
   handshake status f (Some (Ok (status_bytes resp))) [] =
   (Err e, [inl (status_bytes status); inr ProtocolBreach])).
Proof.
  intros Hn [Hw Hl] Hv. unfold eth_handshake. erewrite bind_ok by done. erewrite bind_ok by done.
  replace (MAX_MESSAGE_SIZE <? _) with false by (symmetry; apply Z.ltb_ge; lia).
  rewrite Hv. pose proof (decode_message_ok named_id named_try_from keccak256 v (MStatus resp) [] Hn I Hw) as Hd.
  rewrite app_nil_r in Hd. rewrite Hd. cbn [fst]. erewrite bind_ok by done. cbn [pm_message].
  unfold handshake_checks. destruct (Z.eqb_spec (st_genesis status) (st_genesis resp)); cbn [negb].
  2: { right. split; [tauto|]. by eexists. }
  destruct (Z.eqb_spec (st_version status) (st_version resp)); cbn [negb].
  2: { right. split; [tauto|]. by eexists. }
  destruct (bool_decide_reflect (st_chain status <> st_chain resp)) as [Hc|Hc].
  { right. split; [tauto|]. by eexists. }
  destruct (Z.ltb_spec 100 (bit_len (st_total_difficulty status))).
  { right. split; [lia|]. by eexists. }
  destruct (validate f (st_forkid resp)) as [[]|err| |] eqn:Ef.
  - left. split; [|done]. split_and!; try done. by apply dec_stable.
  - right. split; [naive_solver|]. by eexists.
  - exfalso. revert Ef. unfold validate. repeat case_match; done.
  - exfalso. revert Ef. unfold validate. repeat case_match; done.
Qed.
End EthHandshake.

(** C37. The eth handshake, for a local status of a supported version and a peer's status
    whose chain is not the number of a named one.  It accepts the peer's status exactly
    when genesis, version and chain agree, the fork id passes the filter and the LOCAL
    total difficulty has at most 100 bits: nothing is asked of the total difficulty the
    peer announces.  Otherwise it sends a disconnect for breach of protocol and fails. *)
Theorem eth_handshake_accepts {NamedChain : Type} `{!EqDecision NamedChain} (named_id : NamedChain -> Z)
    named_try_from keccak256 (status resp : Status NamedChain) (f : ForkFilter) (v : EthVersion) :
  named_chains_ok named_id named_try_from -> status_wf named_id named_try_from keccak256 resp ->
  version_try_from (st_version status) = Some v ->
  let frame s := protocol_encode named_id named_try_from keccak256 (MStatus s) [] in
  let r := eth_handshake named_id named_try_from keccak256 write_frame write_disconnect status f
             (Some (Ok (frame resp))) [] in
  (r = (Ok (v, resp), [inl (frame status)]) <-> handshake_checks status resp f) /\
  (~ handshake_checks status resp f -> exists e, r = (Err e, [inl (frame status); inr ProtocolBreach])).
Proof.
  intros Hn Hw Hv frame r. subst frame r. cbv beta.
  destruct (handshake_eq_checks named_id named_try_from keccak256 status resp f v Hn Hw Hv) as [[Hc ->]|[Hc [e ->]]].
  - split; [by split|done].
  - split; [by split|by eexists].
Qed.

Definition example_filter : ForkFilter :=
  mkForkFilter {[FkBlock 0 := 11]} (mkHead 0 0 0 0 0) (mkCache (FkBlock 0) None [(FkBlock 0, 11)] [] (mkForkId 11 0)).

Definition example_status (td : Z) : Status bool := mkStatus 68 (Named true) td 5 6 (mkForkId 11 0).

(** The peer announces a total difficulty of 256 bits and is accepted. *)
Lemma eth_handshake_accepts_witness :
  let frame s := protocol_encode example_named example_try_from (fun _ => 0) (MStatus s) [] in
  eth_handshake example_named example_try_from (fun _ => 0) write_frame write_disconnect (example_status 7) example_filter
    (Some (Ok (frame (example_status (2 ^ 256 - 1))))) []
  = (Ok (Eth68, example_status (2 ^ 256 - 1)), [inl (frame (example_status 7))]).
Proof.
  apply (eth_handshake_accepts example_named example_try_from (fun _ => 0)
           (example_status 7) (example_status (2 ^ 256 - 1)) example_filter Eth68).
  - exact example_named_ok.
  - split; [wf_eval|vm_compute; done].
  - done.
  - split_and!; [done..|vm_compute; done|done].
Defined.

(** A chain written as a number although it has a name: the status comes back with
    the name, so two nodes configured alike refuse each other. *)
Lemma numeric_chain_refused {NamedChain : Type} `{!EqDecision NamedChain} (named_id : NamedChain -> Z)
    named_try_from keccak256 (s : Status NamedChain) (c : NamedChain) (f : ForkFilter) (v : EthVersion) :
  named_chains_ok named_id named_try_from -> version_try_from (st_version s) = Some v ->
  st_chain s = ChainId (named_id c) ->
  let s' := mkStatus (st_version s) (Named c) (st_total_difficulty s) (st_blockhash s) (st_genesis s) (st_forkid s) in
  status_wf named_id named_try_from keccak256 s' ->
  exists e, fst (eth_handshake named_id named_try_from keccak256 write_frame write_disconnect s f
    (Some (Ok (protocol_encode named_id named_try_from keccak256 (MStatus s) []))) []) = Err e.
Proof.
  intros Hn Hv Hc s' Hw.
  replace (protocol_encode named_id named_try_from keccak256 (MStatus s) [])
    with (protocol_encode named_id named_try_from keccak256 (MStatus s') []).
  - destruct (handshake_eq_checks named_id named_try_from keccak256 s s' f v Hn Hw Hv) as [[Hk _]|[_ [e ->]]].
    + destruct Hk as (_ & _ & Hk & _). rewrite Hc in Hk. done.
    + by exists e.
  - subst s'. destruct s as [ver ch td bh g fid]. cbn in Hc. subst ch. done.
Qed.

(** ** Receiving arbitrary frames *)

(** What is decompressed is a Rust buffer. *)
Definition decompress_wf (decompress : bytes -> option bytes) : Prop :=
  forall b d, decompress b = Some d -> is_slice d.

Lemma on_frame_safe decompress_len decompress b s :
  decompress_wf decompress -> b <> [] -> safe (fst (on_frame decompress_len decompress b s)).
Proof.
  intros Hd Hb. destruct b as [|id body]; [done|]. unfold on_frame.
  destruct (decompress_len body) as [n|]; [|done]. destruct (_ <? n); [done|].
  destruct (decompress body) as [d|] eqn:E; [|done]. apply Hd in E. erewrite bind_ok by done.
  destruct (id =? 2); [by destruct (_ <? _)|]. destruct (id =? 1).
  { pose proof (dw_safe (d := reason_decode) d E) as H. by destruct (reason_decode d) as [[]]. }
  destruct (id =? 0); [done|]. destruct (id =? 3); [by destruct (pinger s)|]. by destruct (_ && _).
Qed.

(** Whatever frames a peer sends after the handshake, the p2p stream yields a
    message, waits, ends or fails with an error, provided no frame is empty; an
    empty frame makes it panic, before the check for empty messages is reached. *)
Theorem p2p_poll_next_safety decompress_len decompress (inner : list InnerItem) (s : P2PStream) :
  decompress_wf decompress ->
  (Frame [] ∉ inner -> safe (fst (p2p_poll_next decompress_len decompress inner s))) /\
  (disconnecting s = false -> fst (p2p_poll_next decompress_len decompress (Frame [] :: inner) s) = Panic).
Proof.
  intros Hd. split.
  - intros Hin. unfold p2p_poll_next. erewrite bind_ok by done. cbn beta. destruct (disconnecting s); [done|].
    revert s. induction inner as [|i inner IH]; intros s; [done|]. cbn [poll_loop].
    apply not_elem_of_cons in Hin as [Hi Hin]. destruct i as [b|k|]; [|done..].
    apply bind_safe; [apply on_frame_safe; [done|congruence]|]. intros [m|] s1 _; [done|]. by apply IH.
  - intros Hs. unfold p2p_poll_next. erewrite bind_ok by done. cbn beta. by rewrite Hs.
Qed.

Lemma p2p_poll_next_safety_witness :
  safe (fst (p2p_poll_next (fun _ => Some 2) (fun _ => Some [0xc1; 4]) [Frame [2; 7]; Frame [1; 7]]
    (P2PStream_new (SEth Eth68 0x10)))).
Proof.
  apply (p2p_poll_next_safety (fun _ => Some 2) (fun _ => Some [0xc1; 4]) [Frame [2; 7]; Frame [1; 7]]).
  - intros b d [= <-]. wf_eval.
  - intros [?|[?|[]%elem_of_nil]%elem_of_cons]%elem_of_cons; done.
Defined.
