(* ===== verification/Peers.v ===== *)
(** * The peers manager

    crates/net/network/src: peers/manager.rs ([PeersManager]), peers/reputation.rs
    and error.rs ([SessionError]); crates/net/common/src/ban_list.rs and
    crates/net/network-api/src/reputation.rs.  A handler is a function on the
    manager's state; the time is an argument in nanoseconds; the iteration order
    of the hash maps is a parameter.  Logging, metrics and the channels of
    [PeersHandle] are left out: a command arrives as an argument of [poll]. *)
From S2P Require Import Prelude Bytes Rlp BTree Primitives SubState ChainSpec PrimitivesRlp EthWire.

(** ** Errors of sessions *)

Inductive BackoffKind := BackoffLow | BackoffMedium | BackoffHigh.

(** The trait [SessionError]. *)
Class SessionError (E : Type) := {
  merits_discovery_ban : E -> bool;
  is_fatal_protocol_error : E -> bool;
  should_backoff : E -> option BackoffKind
}.

Definition io_should_backoff (kind : ErrorKind) : option BackoffKind :=
  match kind with
  | ConnectionRefused | ConnectionReset | BrokenPipe => Some BackoffLow
  | OtherKind _ => Some BackoffMedium
  end.

#[global] Instance io_session_error : SessionError ErrorKind := {|
  merits_discovery_ban _ := false;
  is_fatal_protocol_error _ := false;
  should_backoff := io_should_backoff
|}.

Section EthErrors.
Context {NamedChain : Type}.
Implicit Types e : EthStreamError NamedChain.

Definition as_disconnected e : option DisconnectReason :=
  match e with
  | P2PErr (HandshakeError (HandshakeDisconnected reason)) | P2PErr (Disconnected reason) => Some reason
  | _ => None
  end.

Definition as_io e : option ErrorKind := match e with P2PErr (Io kind) => Some kind | _ => None end.

Definition eth_merits_discovery_ban e : bool :=
  match e with
  | P2PErr (HandshakeError HelloNotInHandshake) | P2PErr (HandshakeError NonHelloMessageInHandshake) => true
  | EthHandshakeErr EthNoResponse => false
  | EthHandshakeErr _ => true
  | _ => false
  end.

Definition eth_is_fatal e : bool :=
  match e with
  | P2PErr err =>
      match err with
      | HandshakeError NoSharedCapabilities | HandshakeError HelloNotInHandshake
      | HandshakeError NonHelloMessageInHandshake
      | HandshakeError (HandshakeDisconnected (UselessPeer | IncompatibleP2PProtocolVersion | ProtocolBreach))
      | UnknownReservedMessageId _ | EmptyProtocolMessage | CapabilityError _
      | Disconnected (UselessPeer | IncompatibleP2PProtocolVersion | ProtocolBreach)
      | MismatchedP2PVersion _ _ => true
      | _ => false
      end
  | EthHandshakeErr EthNoResponse => false
  | EthHandshakeErr _ => true
  | _ => false
  end.

Definition eth_should_backoff e : option BackoffKind :=
  match as_io e with
  | Some kind => io_should_backoff kind
  | None =>
  match as_disconnected e with
  | Some (TooManyPeers | AlreadyConnected | TcpSubsystemError) => Some BackoffLow
  | Some _ => Some BackoffHigh
  | None =>
  match e with
  | EthHandshakeErr EthNoResponse | P2PErr (HandshakeError P2PNoResponse) | P2PErr PingTimeoutError => Some BackoffLow
  | P2PErr (RlpErr _) | P2PErr (UnknownReservedMessageId _) | P2PErr (UnknownDisconnectReason _)
  | P2PErr (MessageTooBig _ _) | P2PErr EmptyProtocolMessage | P2PErr UnexpectedPong | P2PErr Snap => Some BackoffMedium
  | _ => None
  end
  end
  end.

#[global] Instance eth_session_error : SessionError (EthStreamError NamedChain) := {|
  merits_discovery_ban := eth_merits_discovery_ban;
  is_fatal_protocol_error := eth_is_fatal;
  should_backoff := eth_should_backoff
|}.

(** [PendingSessionHandshakeError]; the errors of the ecies crate are one value. *)
Inductive PendingSessionHandshakeError := PendingEth (e : EthStreamError NamedChain) | PendingEcies.

#[global] Instance pending_session_error : SessionError PendingSessionHandshakeError := {|
  merits_discovery_ban p := match p with PendingEth e => merits_discovery_ban e | PendingEcies => true end;
  is_fatal_protocol_error p := match p with PendingEth e => is_fatal_protocol_error e | PendingEcies => true end;
  should_backoff p := match p with PendingEth e => should_backoff e | PendingEcies => Some BackoffLow end
|}.
End EthErrors.
Arguments PendingSessionHandshakeError NamedChain : clear implicits.

(** ** Reputation *)

Inductive ReputationChangeKind :=
| BadMessage | BadBlock | BadTransactions | RepTimeout | BadProtocol | FailedToConnect | Dropped | Other (r : Z).

Record ReputationChangeWeights := mkWeights {
  bad_message : Z; bad_block : Z; bad_transactions : Z; timeout : Z; bad_protocol : Z;
  failed_to_connect : Z; dropped : Z
}.

Definition change (w : ReputationChangeWeights) (kind : ReputationChangeKind) : Z :=
  match kind with
  | BadMessage => bad_message w
  | BadBlock => bad_block w
  | BadTransactions => bad_transactions w
  | RepTimeout => timeout w
  | BadProtocol => bad_protocol w
  | FailedToConnect => failed_to_connect w
  | Dropped => dropped w
  | Other r => r
  end.

Abbreviation DEFAULT_REPUTATION := 0.
Abbreviation REPUTATION_UNIT := (-1024).
Abbreviation i32_min := (- 2 ^ 31).
Abbreviation i32_max := (2 ^ 31 - 1).
Abbreviation BACKOFF_REPUTATION_CHANGE := i32_min.

Definition BANNED_REPUTATION : Z := 50 * REPUTATION_UNIT.

Definition is_banned_reputation (reputation : Z) : bool := reputation <? BANNED_REPUTATION.

(** [i32::saturating_add] *)
Definition saturating_add_i32 (a b : Z) : Z := Z.max i32_min (Z.min i32_max (a + b)).

Definition default_weights : ReputationChangeWeights :=
  mkWeights (16 * REPUTATION_UNIT) (16 * REPUTATION_UNIT) (16 * REPUTATION_UNIT) (4 * REPUTATION_UNIT)
            i32_min (25 * REPUTATION_UNIT) (4 * REPUTATION_UNIT).

(** ** Ban list *)

Record SocketAddr := mkSocketAddr { addr_ip : IpAddr; addr_port : Z }.

#[global] Instance IpAddr_eq_dec : EqDecision IpAddr.
Proof. solve_decision. Defined.
#[global] Instance IpAddr_countable : Countable IpAddr.
Proof.
  apply (inj_countable' (fun a => match a with V4 o => inl o | V6 o => inr o end)
           (fun x => match x with inl o => V4 o | inr o => V6 o end)). by intros [].
Defined.
#[global] Instance SocketAddr_eq_dec : EqDecision SocketAddr.
Proof. solve_decision. Defined.

(** [is_global]: not unspecified, loopback, private or link-local. *)
Definition is_global (ip : IpAddr) : bool :=
  match ip with
  | V4 o =>
      match o with
      | [a; b; c; d] =>
          negb ((a =? 0) && (b =? 0) && (c =? 0) && (d =? 0)) && negb (a =? 127)
          && negb ((a =? 10) || ((a =? 172) && (16 <=? b) && (b <=? 31)) || ((a =? 192) && (b =? 168)))
          && negb ((a =? 169) && (b =? 254))
      | _ => true
      end
  | V6 o => negb (be_value o =? 0) && negb (be_value o =? 1)
  end.

(** An entry without an instant never expires. *)
Record BanList := mkBanList {
  banned_ips : gmap IpAddr (option Z);
  banned_peers : gmap Z (option Z)
}.

Definition is_banned_ip (b : BanList) (ip : IpAddr) : bool := bool_decide (is_Some (banned_ips b !! ip)).
Definition is_banned_peer (b : BanList) (p : Z) : bool := bool_decide (is_Some (banned_peers b !! p)).

Definition ban_ip_with (ip : IpAddr) (until : option Z) (b : BanList) : BanList :=
  if is_global ip then mkBanList (<[ip := until]> (banned_ips b)) (banned_peers b) else b.
Definition ban_peer_with (p : Z) (until : option Z) (b : BanList) : BanList :=
  mkBanList (banned_ips b) (<[p := until]> (banned_peers b)).
Definition list_unban_peer (p : Z) (b : BanList) : BanList := mkBanList (banned_ips b) (delete p (banned_peers b)).

(** The test of [retain] in [evict_ips] and [evict_peers]. *)
Definition still_banned (now : Z) (until : option Z) : bool :=
  match until with Some until => negb (until <? now) | None => true end.

(** ** The manager *)

Inductive PeerKind := Basic | Trusted.
Inductive PeerConnectionState := Idle | DisconnectingIn | DisconnectingOut | In | Out.

#[global] Instance PeerConnectionState_eq_dec : EqDecision PeerConnectionState.
Proof. solve_decision. Defined.

Record Peer := mkPeer {
  p_addr : SocketAddr;
  p_reputation : Z;
  p_state : PeerConnectionState;
  p_fork_id : option ForkId;
  remove_after_disconnect : bool;
  p_kind : PeerKind;
  backoff_counter : Z
}.

Record ConnectionInfo := mkConnectionInfo {
  num_outbound : Z; num_inbound : Z; max_outbound : Z; max_inbound : Z
}.

Record PeerBackoffDurations := mkBackoffDurations { low : Z; medium : Z; high : Z }.

Inductive PeerAction :=
| Connect (peer_id : Z) (remote_addr : SocketAddr)
| ActDisconnect (peer_id : Z) (reason : option DisconnectReason)
| DisconnectBannedIncoming (peer_id : Z)
| DiscoveryBanPeerId (peer_id : Z) (ip_addr : IpAddr)
| DiscoveryBanIp (ip_addr : IpAddr)
| BanPeer (peer_id : Z)
| UnBanPeer (peer_id : Z)
| PeerAdded (peer_id : Z)
| PeerRemoved (peer_id : Z).

Inductive InboundConnectionError := ExceedsLimit (limit : Z) | IpBanned.

Record PeersManager := mkManager {
  peers : gmap Z Peer;
  queued_actions : list PeerAction;
  reputation_weights : ReputationChangeWeights;
  connection_info : ConnectionInfo;
  ban_list : BanList;
  ban_duration : Z;
  backoff_durations : PeerBackoffDurations;
  connect_trusted_nodes_only : bool
}.

Definition set_peers (p : gmap Z Peer) (m : PeersManager) : PeersManager :=
  mkManager p (queued_actions m) (reputation_weights m) (connection_info m) (ban_list m) (ban_duration m)
    (backoff_durations m) (connect_trusted_nodes_only m).
Definition set_info (i : ConnectionInfo) (m : PeersManager) : PeersManager :=
  mkManager (peers m) (queued_actions m) (reputation_weights m) i (ban_list m) (ban_duration m)
    (backoff_durations m) (connect_trusted_nodes_only m).
Definition set_ban_list (b : BanList) (m : PeersManager) : PeersManager :=
  mkManager (peers m) (queued_actions m) (reputation_weights m) (connection_info m) b (ban_duration m)
    (backoff_durations m) (connect_trusted_nodes_only m).
Definition set_actions (l : list PeerAction) (m : PeersManager) : PeersManager :=
  mkManager (peers m) l (reputation_weights m) (connection_info m) (ban_list m) (ban_duration m)
    (backoff_durations m) (connect_trusted_nodes_only m).
Definition push_action (a : PeerAction) (m : PeersManager) : PeersManager := set_actions (queued_actions m ++ [a]) m.

(** ** Counters and peers *)

(** [ConnectionInfo]: the counters are [usize]; [decr] of zero wraps. *)
Definition add_out (d : Z) (i : ConnectionInfo) : ConnectionInfo :=
  mkConnectionInfo (wrap 64 (num_outbound i + d)) (num_inbound i) (max_outbound i) (max_inbound i).
Definition add_in (d : Z) (i : ConnectionInfo) : ConnectionInfo :=
  mkConnectionInfo (num_outbound i) (wrap 64 (num_inbound i + d)) (max_outbound i) (max_inbound i).
Abbreviation decr_out := (add_out (-1)).
Abbreviation decr_in := (add_in (-1)).

Definition has_out_capacity (i : ConnectionInfo) : bool := num_outbound i <? max_outbound i.
Definition has_in_capacity (i : ConnectionInfo) : bool := num_inbound i <? max_inbound i.

Definition decr_state (s : PeerConnectionState) (i : ConnectionInfo) : ConnectionInfo :=
  match s with
  | Idle => i
  | DisconnectingIn | In => decr_in i
  | DisconnectingOut | Out => decr_out i
  end.

Definition state_disconnect (s : PeerConnectionState) : PeerConnectionState :=
  match s with In => DisconnectingIn | Out => DisconnectingOut | s => s end.
Definition is_connected (s : PeerConnectionState) : bool := match s with In | Out => true | _ => false end.

Definition peer_with (addr : SocketAddr) (s : PeerConnectionState) (kind : PeerKind) (fork_id : option ForkId) : Peer :=
  mkPeer addr DEFAULT_REPUTATION s fork_id false kind 0.

Definition set_state (s : PeerConnectionState) (p : Peer) : Peer :=
  mkPeer (p_addr p) (p_reputation p) s (p_fork_id p) (remove_after_disconnect p) (p_kind p) (backoff_counter p).
Definition set_reputation (r : Z) (p : Peer) : Peer :=
  mkPeer (p_addr p) r (p_state p) (p_fork_id p) (remove_after_disconnect p) (p_kind p) (backoff_counter p).
Definition set_backoff (b : Z) (p : Peer) : Peer :=
  mkPeer (p_addr p) (p_reputation p) (p_state p) (p_fork_id p) (remove_after_disconnect p) (p_kind p) b.

Abbreviation peer_is_banned p := (is_banned_reputation (p_reputation p)).
Definition is_trusted (p : Peer) : bool := match p_kind p with Trusted => true | Basic => false end.

Inductive ReputationChangeOutcome := NoOutcome | Ban | DisconnectAndBan | Unban.

Definition apply_reputation (r : Z) (p : Peer) : ReputationChangeOutcome * Peer :=
  let previous := p_reputation p in
  let p := set_reputation (saturating_add_i32 previous r) p in
  if is_connected (p_state p) && peer_is_banned p then
    (DisconnectAndBan, set_state (state_disconnect (p_state p)) p)
  else if peer_is_banned p && negb (is_banned_reputation previous) then (Ban, p)
  else if negb (peer_is_banned p) && is_banned_reputation previous then (Unban, p)
  else (NoOutcome, p).

(** ** Filling the outbound slots *)

Section Manager.
(** The order in which a hash map keyed by peer ids is iterated. *)
Context (iter : forall V, gmap Z V -> list (Z * V)).

Definition eligible (trusted_only : bool) (p : Peer) : bool :=
  bool_decide (p_state p = Idle) && negb (peer_is_banned p) && (negb trusted_only || is_trusted p).

(** The loop of [best_unconnected] over the remaining candidates. *)
Fixpoint best_loop (best : Z * Peer) (l : list (Z * Peer)) : Z * Peer :=
  match l with
  | [] => best
  | c :: l =>
      if is_trusted c.2 then c else
      match p_fork_id c.2, p_fork_id best.2 with
      | Some _, Some _ | None, None =>
          if p_reputation best.2 <? p_reputation c.2 then best_loop c l else best_loop best l
      | Some _, None => best_loop c l
      | None, Some _ => best_loop best l
      end
  end.

Definition best_unconnected (m : PeersManager) : option (Z * Peer) :=
  match filter (fun c => eligible (connect_trusted_nodes_only m) c.2 = true) (iter _ (peers m)) with
  | [] => None
  | best :: rest => if is_trusted best.2 then Some best else Some (best_loop best rest)
  end.

(** The [while] loop; [None] runs out of fuel. *)
Fixpoint fill_loop (fuel : nat) (m : PeersManager) : option PeersManager :=
  if has_out_capacity (connection_info m) then
    match best_unconnected m with
    | None => Some m
    | Some (peer_id, peer) =>
        if peer_is_banned peer then Some m else
        match fuel with
        | O => None
        | S fuel =>
            let m := set_peers (<[peer_id := set_state Out peer]> (peers m)) m in
            let m := set_info (add_out 1 (connection_info m)) m in
            fill_loop fuel (push_action (Connect peer_id (p_addr peer)) m)
        end
    end
  else Some m.

(** Every iteration connects one more peer, so the number of peers bounds them. *)
Definition fill_outbound_slots (m : PeersManager) : PeersManager := default m (fill_loop (size (peers m)) m).

(** ** Handlers *)

Definition on_incoming_pending_session (addr : IpAddr) (m : PeersManager)
    : outcome InboundConnectionError unit * PeersManager :=
  if is_banned_ip (ban_list m) addr then (Err IpBanned, m) else
  if negb (has_in_capacity (connection_info m)) then (Err (ExceedsLimit (max_inbound (connection_info m))), m) else
  (Ok tt, set_info (add_in 1 (connection_info m)) m).

(** [on_incoming_pending_session_rejected_internally] and
    [on_incoming_pending_session_gracefully_closed] *)
Definition free_in (m : PeersManager) : PeersManager := set_info (decr_in (connection_info m)) m.

Definition ban_peer (now : Z) (peer_id : Z) (m : PeersManager) : PeersManager :=
  push_action (BanPeer peer_id) (set_ban_list (ban_peer_with peer_id (Some (now + ban_duration m)) (ban_list m)) m).

Definition on_incoming_pending_session_dropped {E} `{!SessionError E} (now : Z) (remote_addr : SocketAddr) (err : E)
    (m : PeersManager) : PeersManager :=
  let m :=
    if is_fatal_protocol_error err then
      let m := set_ban_list (ban_ip_with (addr_ip remote_addr) (Some (now + ban_duration m)) (ban_list m)) m in
      if merits_discovery_ban err then push_action (DiscoveryBanIp (addr_ip remote_addr)) m else m
    else m in
  free_in m.

Definition on_active_inbound_session (peer_id : Z) (addr : SocketAddr) (m : PeersManager) : PeersManager :=
  if is_banned_peer (ban_list m) peer_id then push_action (DisconnectBannedIncoming peer_id) m else
  match peers m !! peer_id with
  | Some value =>
      if peer_is_banned value then push_action (DisconnectBannedIncoming peer_id) m
      else set_peers (<[peer_id := set_state In value]> (peers m)) m
  | None =>
      push_action (PeerAdded peer_id) (set_peers (<[peer_id := peer_with addr In Basic None]> (peers m)) m)
  end.

Definition apply_reputation_change (now : Z) (peer_id : Z) (rep : ReputationChangeKind) (m : PeersManager) : PeersManager :=
  match peers m !! peer_id with
  | None => m
  | Some peer =>
      let '(o, peer) := apply_reputation (change (reputation_weights m) rep) peer in
      let m := set_peers (<[peer_id := peer]> (peers m)) m in
      match o with
      | NoOutcome => m
      | Ban => ban_peer now peer_id m
      | Unban => push_action (UnBanPeer peer_id) (set_ban_list (list_unban_peer peer_id (ban_list m)) m)
      | DisconnectAndBan => ban_peer now peer_id (push_action (ActDisconnect peer_id (Some DisconnectRequested)) m)
      end
  end.

Definition on_pending_session_gracefully_closed (peer_id : Z) (m : PeersManager) : PeersManager :=
  match peers m !! peer_id with
  | None => m
  | Some peer =>
      let m := set_peers (<[peer_id := set_state Idle peer]> (peers m)) m in
      set_info (decr_out (connection_info m)) m
  end.

Definition on_active_session_gracefully_closed (peer_id : Z) (m : PeersManager) : PeersManager :=
  match peers m !! peer_id with
  | None => m
  | Some peer =>
      let m := set_info (decr_state (p_state peer) (connection_info m)) m in
      if remove_after_disconnect peer && negb (is_trusted peer) then
        fill_outbound_slots (push_action (PeerRemoved peer_id) (set_peers (delete peer_id (peers m)) m))
      else set_peers (<[peer_id := set_state Idle (set_backoff 0 peer)]> (peers m)) m
  end.

Definition backoff (d : PeerBackoffDurations) (kind : BackoffKind) : Z :=
  match kind with BackoffLow => low d | BackoffMedium => medium d | BackoffHigh => high d end.

Definition backoff_until (d : PeerBackoffDurations) (now : Z) (kind : BackoffKind) (backoff_counter : Z) : Z :=
  now + backoff d kind * backoff_counter.

(** The arm of [on_connection_failure] for errors that are not fatal. *)
Definition penalize (now : Z) (peer_id : Z) (kind : option BackoffKind) (rep : ReputationChangeKind) (m : PeersManager)
    : PeersManager :=
  match peers m !! peer_id with
  | None => m
  | Some peer =>
      let '(reputation_change, peer, m) :=
        match kind with
        | Some kind =>
            let peer := set_backoff (wadd 32 (backoff_counter peer) 1) peer in
            (BACKOFF_REPUTATION_CHANGE, peer,
             set_ban_list (ban_peer_with peer_id
               (Some (backoff_until (backoff_durations m) now kind (backoff_counter peer))) (ban_list m)) m)
        | None => (change (reputation_weights m) rep, peer, m)
        end in
      let m := set_info (decr_state (p_state peer) (connection_info m)) m in
      let peer := set_state Idle peer in
      let peer := set_reputation (saturating_add_i32 (p_reputation peer) reputation_change) peer in
      set_peers (<[peer_id := peer]> (peers m)) m
  end.

(** [on_connection_failure], which [on_pending_session_dropped],
    [on_active_session_dropped] and [on_outgoing_connection_failure] call. *)
Definition on_connection_failure {E} `{!SessionError E} (now : Z) (remote_addr : SocketAddr) (peer_id : Z) (err : E)
    (rep : ReputationChangeKind) (m : PeersManager) : PeersManager :=
  fill_outbound_slots (
    if is_fatal_protocol_error err then
      let m :=
        match peers m !! peer_id with
        | Some peer =>
            push_action (PeerRemoved peer_id)
              (set_info (decr_state (p_state peer) (connection_info m)) (set_peers (delete peer_id (peers m)) m))
        | None => m
        end in
      let m := ban_peer now peer_id m in
      if merits_discovery_ban err then push_action (DiscoveryBanPeerId peer_id (addr_ip remote_addr)) m else m
    else penalize now peer_id (should_backoff err) rep m).

Inductive Direction := Incoming | Outgoing (peer_id : Z).

Definition on_already_connected (direction : Direction) (m : PeersManager) : PeersManager :=
  match direction with
  | Incoming => m
  | Outgoing _ => set_info (decr_out (connection_info m)) m
  end.

Definition set_discovered_fork_id (peer_id : Z) (fork_id : ForkId) (m : PeersManager) : PeersManager :=
  match peers m !! peer_id with
  | None => m
  | Some p =>
      set_peers (<[peer_id := mkPeer (p_addr p) (p_reputation p) (p_state p) (Some fork_id) (remove_after_disconnect p)
                                (p_kind p) (backoff_counter p)]> (peers m)) m
  end.

Definition add_peer_kind (peer_id : Z) (kind : PeerKind) (addr : SocketAddr) (fork_id : option ForkId) (m : PeersManager)
    : PeersManager :=
  if is_banned_peer (ban_list m) peer_id || is_banned_ip (ban_list m) (addr_ip addr) then m else
  match peers m !! peer_id with
  | Some p =>
      set_peers (<[peer_id := mkPeer addr (p_reputation p) (p_state p) fork_id (remove_after_disconnect p) kind
                                (backoff_counter p)]> (peers m)) m
  | None =>
      fill_outbound_slots
        (push_action (PeerAdded peer_id) (set_peers (<[peer_id := peer_with addr Idle kind fork_id]> (peers m)) m))
  end.

Definition remove_peer (peer_id : Z) (m : PeersManager) : PeersManager :=
  match peers m !! peer_id with
  | None => m
  | Some peer =>
      if is_trusted peer then m else
      let m := push_action (PeerRemoved peer_id) (set_peers (delete peer_id (peers m)) m) in
      if is_connected (p_state peer) then
        let peer := mkPeer (p_addr peer) (p_reputation peer) (state_disconnect (p_state peer)) (p_fork_id peer) true
                      (p_kind peer) (backoff_counter peer) in
        push_action (ActDisconnect peer_id (Some DisconnectRequested)) (set_peers (<[peer_id := peer]> (peers m)) m)
      else m
  end.

Definition remove_peer_from_trusted_set (peer_id : Z) (m : PeersManager) : PeersManager :=
  match peers m !! peer_id with
  | None => m
  | Some p =>
      if negb (is_trusted p) then m else
      set_peers (<[peer_id := mkPeer (p_addr p) (p_reputation p) (p_state p) (p_fork_id p) (remove_after_disconnect p)
                                Basic (backoff_counter p)]> (peers m)) m
  end.

(** ** Polling *)

Inductive PeerCommand :=
| CmdAdd (peer_id : Z) (addr : SocketAddr)
| CmdRemove (peer_id : Z)
| CmdReputationChange (peer_id : Z) (rep : ReputationChangeKind)
| CmdGetPeer (peer_id : Z)
| CmdGetPeers.

(** A command; the answers to [CmdGetPeer] and [CmdGetPeers] leave the state alone. *)
Definition on_command (now : Z) (cmd : PeerCommand) (m : PeersManager) : PeersManager :=
  match cmd with
  | CmdAdd peer_id addr => add_peer_kind peer_id Basic addr None m
  | CmdRemove peer_id => remove_peer peer_id m
  | CmdReputationChange peer_id rep => apply_reputation_change now peer_id rep m
  | CmdGetPeer _ | CmdGetPeers => m
  end.

(** The unban tick: expired entries leave the ban list, and the peers among them
    get their reputation back. *)
Definition unban_one (peer_id : Z) (m : PeersManager) : PeersManager :=
  match peers m !! peer_id with
  | None => m
  | Some peer =>
      push_action (UnBanPeer peer_id) (set_peers (<[peer_id := set_reputation DEFAULT_REPUTATION peer]> (peers m)) m)
  end.

Definition on_unban_tick (now : Z) (m : PeersManager) : PeersManager :=
  let b := ban_list m in
  let evicted := (filter (fun e => still_banned now e.2 = false) (iter _ (banned_peers b))).*1 in
  let b := mkBanList (filter (fun e => still_banned now e.2 = true) (banned_ips b))
             (filter (fun e => still_banned now e.2 = true) (banned_peers b)) in
  foldl (fun m peer_id => unban_one peer_id m) (set_ban_list b m) evicted.

(** One turn of the loop of [poll] when no action is queued: the pending commands,
    then the ticks of the two intervals. *)
Definition poll_turn (now : Z) (cmds : list PeerCommand) (unban_tick refill_tick : bool) (m : PeersManager) : PeersManager :=
  let m := foldl (fun m cmd => on_command now cmd m) m cmds in
  let m := if unban_tick then on_unban_tick now m else m in
  if refill_tick then fill_outbound_slots m else m.

(** [poll]: the next action, if the turn queues one. *)
Definition poll (now : Z) (cmds : list PeerCommand) (unban_tick refill_tick : bool) (m : PeersManager)
    : option PeerAction * PeersManager :=
  match queued_actions m with
  | a :: l => (Some a, set_actions l m)
  | [] =>
      let m := poll_turn now cmds unban_tick refill_tick m in
      match queued_actions m with
      | a :: l => (Some a, set_actions l m)
      | [] => (None, m)
      end
  end.
End Manager.

(** A configured node: [or_insert_with]. *)
Definition insert_node (kind : PeerKind) (m : gmap Z Peer) (n : Z * SocketAddr) : gmap Z Peer :=
  match m !! n.1 with Some _ => m | None => <[n.1 := peer_with n.2 Idle kind None]> m end.

(** [PeersManager::new] *)
Definition PeersManager_new (trusted_nodes basic_nodes : list (Z * SocketAddr)) (w : ReputationChangeWeights)
    (info : ConnectionInfo) (b : BanList) (ban_duration : Z) (d : PeerBackoffDurations) (trusted_only : bool) : PeersManager :=
  mkManager (foldl (insert_node Basic) (foldl (insert_node Trusted) ∅ trusted_nodes) basic_nodes)
    [] w info b ban_duration d trusted_only.
