(* ===== verification/PeersProofs.v ===== *)
(** * The peers manager: theorems

    The best candidate for a connection, the loop that fills the outbound slots,
    the machine ranges every event keeps, and what a ban means over any sequence
    of events. *)
From S2P Require Import Prelude Bytes Rlp BTree Primitives SubState ChainSpec PrimitivesRlp EthWire Peers.

(** Errors that ban a peer from discovery are fatal. *)
Lemma discovery_ban_fatal {NamedChain} (e : PendingSessionHandshakeError NamedChain) :
  merits_discovery_ban e = true -> is_fatal_protocol_error e = true.
Proof.
  destruct e as [[[]| | | | |]|]; cbn; try done; repeat case_match; done.
Qed.

(** ** The best candidate *)

Implicit Types m : PeersManager.

Definition candidate m (i : Z) (p : Peer) : Prop :=
  peers m !! i = Some p /\ eligible (connect_trusted_nodes_only m) p = true.

(** [q] is not a better choice than [p]: trusted peers first, then peers with a
    fork id, then the reputation. *)
Definition no_better (p q : Peer) : Prop :=
  (is_trusted q = true -> is_trusted p = true) /\
  (is_trusted p = false ->
   (is_Some (p_fork_id q) -> is_Some (p_fork_id p)) /\
   ((is_Some (p_fork_id p) <-> is_Some (p_fork_id q)) -> p_reputation q <= p_reputation p)).

Lemma best_loop_spec l : forall best,
  is_trusted best.2 = false ->
  let r := best_loop best l in
  (r = best \/ r ∈ l) /\ no_better r.2 best.2 /\ forall c, c ∈ l -> no_better r.2 c.2.
Proof.
  assert (Hrefl : forall p, no_better p p) by (intros p; split; [done|]; intros _; split; [done|lia]).
  assert (Htrust : forall p q, is_trusted p = true -> no_better p q) by (intros p q Hp; split; congruence).
  induction l as [|c l IH]; intros best Hb r; subst r; cbn [best_loop].
  { split; [by left|]. split; [apply Hrefl|]. intros c Hc. by apply not_elem_of_nil in Hc. }
  destruct (is_trusted c.2) eqn:Hc.
  { split; [right; set_solver|]. split; [by apply Htrust|]. intros d _. by apply Htrust. }
  assert (Hstep : forall w, (w = best \/ w = c) -> is_trusted w.2 = false -> no_better w.2 best.2 -> no_better w.2 c.2 ->
    (best_loop w l = best \/ best_loop w l ∈ c :: l) /\ no_better (best_loop w l).2 best.2 /\
    forall d, d ∈ c :: l -> no_better (best_loop w l).2 d.2).
  { intros w Hw Hwt Hwb Hwc. destruct (IH w Hwt) as (H1 & H2 & H3).
    assert (Htrans : forall q, no_better w.2 q -> no_better (best_loop w l).2 q).
    { intros q [Q1 Q2]. destruct H2 as [P1 P2]. split; [tauto|]. intros Ht.
      destruct (P2 Ht) as [P3 P4]. destruct (Q2 Hwt) as [Q3 Q4]. split; [tauto|]. intros Hq.
      assert (is_Some (p_fork_id (best_loop w l).2) <-> is_Some (p_fork_id w.2)) as Hf.
      { split; [|tauto]. intros Hs. destruct (p_fork_id w.2) as [x|] eqn:E; [by eexists|]. tauto. }
      specialize (P4 Hf). rewrite Hf in Hq. specialize (Q4 Hq). lia. }
    split; [|split; [by apply Htrans|]].
    - destruct H1 as [H1|H1]; [rewrite H1; set_solver|set_solver].
    - intros d [->|Hd]%elem_of_cons; [by apply Htrans|by apply H3]. }
  destruct (p_fork_id c.2) as [fc|] eqn:Ec, (p_fork_id best.2) as [fb|] eqn:Eb;
    [destruct (Z.ltb_spec (p_reputation best.2) (p_reputation c.2))| | |destruct (Z.ltb_spec (p_reputation best.2) (p_reputation c.2))];
    apply Hstep; auto; (split; [congruence|]); intros _; rewrite Ec, Eb; (split; [done|]); try lia.
  - intros H. exfalso. destruct (proj1 H) as [x Hx]; [by eexists|done].
  - intros H. exfalso. destruct (proj1 H) as [x Hx]; [by eexists|done].
Qed.

Section Best.
Context (iter : forall V, gmap Z V -> list (Z * V)) (Hiter : iter_ok iter).

Lemma elem_of_iter {V} (h : gmap Z V) i v : (i, v) ∈ iter V h <-> h !! i = Some v.
Proof. by rewrite (Hiter V h), elem_of_map_to_list. Qed.

Lemma best_unconnected_spec m :
  match best_unconnected iter m with
  | None => forall i p, ~ candidate m i p
  | Some (i, p) => candidate m i p /\ forall j q, candidate m j q -> no_better p q
  end.
Proof.
  unfold best_unconnected.
  assert (Hc : forall i p, (i, p) ∈ filter (fun c => eligible (connect_trusted_nodes_only m) c.2 = true) (iter _ (peers m))
    <-> candidate m i p).
  { intros i p. rewrite list_elem_of_filter, elem_of_iter. unfold candidate. cbn. tauto. }
  destruct (filter _ _) as [|[i p] l].
  { intros i p H%Hc. by apply not_elem_of_nil in H. }
  destruct (is_trusted (i, p).2) eqn:Ht.
  { split; [apply Hc; set_solver|]. intros j q _. split; cbn in Ht; congruence. }
  destruct (best_loop_spec l (i, p) Ht) as (H1 & H2 & H3).
  destruct (best_loop (i, p) l) as [j q]. split.
  - apply Hc. destruct H1 as [->|H1]; set_solver.
  - intros k r [[= -> ->]|Hk]%Hc%elem_of_cons; [done|by apply (H3 (k, r))].
Qed.

End Best.

(** ** Filling the outbound slots *)

(** The manager after the peers [l] have been scheduled. *)
Definition connect_one (m : PeersManager) (c : Z * Peer) : PeersManager :=
  push_action (Connect c.1 (p_addr c.2))
    (set_info (add_out 1 (connection_info m)) (set_peers (<[c.1 := set_state Out c.2]> (peers m)) m)).

Lemma candidate_idle m i p : candidate m i p -> p_state p = Idle /\ peer_is_banned p = false.
Proof. intros [_ H]. unfold eligible in H. apply andb_prop in H as [H _]. apply andb_prop in H as [H1 H2].
  apply bool_decide_eq_true in H1. by destruct (peer_is_banned p). Qed.

Lemma connect_one_idle m i p :
  peers m !! i = Some p -> p_state p = Idle ->
  S (size (filter (fun e => p_state e.2 = Idle) (peers (connect_one m (i, p))))) =
  size (filter (fun e => p_state e.2 = Idle) (peers m)).
Proof.
  intros Hi Hp. cbn [connect_one push_action set_actions set_info set_peers peers fst snd].
  rewrite map_filter_insert_False by done.
  rewrite map_filter_delete.
  rewrite map_size_delete_Some.
  - assert (size (filter (fun e : Z * Peer => p_state e.2 = Idle) (peers m)) <> 0%nat); [|lia].
    apply map_size_ne_0_lookup. exists i, p. by apply map_lookup_filter_Some.
  - exists p. by apply map_lookup_filter_Some.
Qed.

(** The peers the loop schedules, in order, each the best candidate when chosen. *)
Inductive filled : PeersManager -> list (Z * Peer) -> PeersManager -> Prop :=
| filled_stop m :
    has_out_capacity (connection_info m) = false \/ (forall i p, ~ candidate m i p) -> filled m [] m
| filled_step m i p l m' :
    has_out_capacity (connection_info m) = true -> candidate m i p ->
    (forall j q, candidate m j q -> no_better p q) ->
    filled (connect_one m (i, p)) l m' -> filled m ((i, p) :: l) m'.

Section Fill.
Context (iter : forall V, gmap Z V -> list (Z * V)) (Hiter : iter_ok iter).

Lemma fill_loop_filled fuel : forall m,
  (size (filter (fun e => p_state e.2 = Idle) (peers m)) <= fuel)%nat ->
  exists l m', fill_loop iter fuel m = Some m' /\ filled m l m'.
Proof.
  induction fuel as [|fuel IH]; intros m Hs; cbn [fill_loop];
    (destruct (has_out_capacity (connection_info m)) eqn:Hc; [|exists [], m; split; [done|]; constructor; by left]);
    pose proof (best_unconnected_spec iter Hiter m) as Hb; destruct (best_unconnected iter m) as [[i p]|];
    try (exists [], m; split; [done|]; constructor; by right).
  - exfalso. destruct Hb as [Hb _]. destruct (candidate_idle _ _ _ Hb) as [Hi _]. destruct Hb as [Hb _].
    assert (size (filter (fun e : Z * Peer => p_state e.2 = Idle) (peers m)) <> 0%nat); [|lia].
    apply map_size_ne_0_lookup. exists i, p. by apply map_lookup_filter_Some.
  - destruct Hb as [Hb Hbest]. destruct (candidate_idle _ _ _ Hb) as [Hi ->].
    destruct (IH (connect_one m (i, p))) as (l & m' & E & Hf).
    { pose proof (connect_one_idle m i p (proj1 Hb) Hi). lia. }
    exists ((i, p) :: l), m'. split; [done|]. by constructor.
Qed.

Lemma fill_outbound_filled m : exists l, filled m l (fill_outbound_slots iter m).
Proof.
  destruct (fill_loop_filled (size (peers m)) m) as (l & m' & E & Hf).
  { apply map_subseteq_size, map_filter_subseteq. }
  exists l. unfold fill_outbound_slots. by rewrite E.
Qed.

End Fill.

(** What the loop leaves of the other fields, and of each peer. *)
Lemma filled_frame m l m' : filled m l m' ->
  ban_list m' = ban_list m /\ ban_duration m' = ban_duration m /\ reputation_weights m' = reputation_weights m /\
  queued_actions m' = queued_actions m ++ ((fun c => Connect c.1 (p_addr c.2)) <$> l) /\
  (forall i, ((i ∉ l.*1) /\ peers m' !! i = peers m !! i) \/
     exists p, (i, p) ∈ l /\ peers m !! i = Some p /\ p_state p = Idle /\ peer_is_banned p = false /\
       peers m' !! i = Some (set_state Out p)).
Proof.
  induction 1 as [m _|m i p l m' Hc Hp Hb _ IH].
  - rewrite app_nil_r. split_and!; try done. intros i. left. split; [apply not_elem_of_nil|done].
  - destruct IH as (H1 & H2 & H3 & H4 & H5). split_and!; [done..| |].
    + rewrite H4. cbn. by rewrite <- app_assoc.
    + destruct (candidate_idle _ _ _ Hp) as [Hi Hn]. intros j. cbn [fmap list_fmap fst].
      destruct (decide (j = i)) as [->|Hne].
      * right. exists p. split; [set_solver|]. split; [apply Hp|]. split_and!; [done..|].
        destruct (H5 i) as [[_ E]|(q & _ & E & Hq & _)]; cbn in E; rewrite lookup_insert_eq in E; [done|].
        injection E as <-. done.
      * destruct (H5 j) as [[Hj E]|(q & Hq & E & Hs & Hbn & E')]; cbn in E; rewrite lookup_insert_ne in E by done.
        -- left. split; [|done]. intros [->|?]%elem_of_cons; done.
        -- right. exists q. split; [set_solver|]. done.
Qed.

Lemma filled_counters m l m' : filled m l m' ->
  in_u 64 (num_outbound (connection_info m)) -> in_u 64 (max_outbound (connection_info m)) ->
  num_inbound (connection_info m') = num_inbound (connection_info m) /\
  max_outbound (connection_info m') = max_outbound (connection_info m) /\
  max_inbound (connection_info m') = max_inbound (connection_info m) /\
  num_outbound (connection_info m') = num_outbound (connection_info m) + zlen l /\
  (l <> [] -> num_outbound (connection_info m') <= max_outbound (connection_info m)).
Proof.
  induction 1 as [m _|m i p l m' Hc Hp Hb _ IH]; intros Hn Hm; [split_and!; done || (cbn; lia)|].
  unfold has_out_capacity in Hc. apply Z.ltb_lt in Hc. unfold in_u in *.
  cbn [connect_one push_action set_actions set_info set_peers connection_info] in *.
  set (info := add_out 1 (connection_info m)) in *.
  assert (E : num_outbound info = num_outbound (connection_info m) + 1).
  { subst info. cbn. apply wrap_small. unfold in_u. lia. }
  destruct IH as (-> & -> & -> & IH4 & IH5); [rewrite E; lia|done|].
  change (max_outbound info) with (max_outbound (connection_info m)) in *.
  split_and!; [done..| |]; rewrite IH4, E; cbn [length]; [lia|]. intros _.
  destruct l; [cbn; lia|]. rewrite IH4, E in IH5. pose proof (IH5 ltac:(done)). cbn [length] in *. lia.
Qed.

Lemma filled_done m l m' : filled m l m' ->
  has_out_capacity (connection_info m') = false \/ (forall i p, ~ candidate m' i p).
Proof. by induction 1. Qed.

(** C25. The loop that fills the outbound slots ends after at most one turn per known
    peer, and leaves no free slot while some peer could be dialled: it schedules a
    connection to each peer it marks as outbound, and to no other; the counter
    grows by that number, without passing the limit; nothing else changes. *)
Theorem fill_outbound_slots_spec (iter : forall V, gmap Z V -> list (Z * V)) (m : PeersManager) :
  iter_ok iter -> in_u 64 (num_outbound (connection_info m)) -> in_u 64 (max_outbound (connection_info m)) ->
  let m' := fill_outbound_slots iter m in
  fill_loop iter (size (peers m)) m = Some m' /\
  (has_out_capacity (connection_info m') = false \/ forall i p, ~ candidate m' i p) /\
  exists l, queued_actions m' = queued_actions m ++ ((fun c => Connect c.1 (p_addr c.2)) <$> l) /\
    num_outbound (connection_info m') = num_outbound (connection_info m) + zlen l /\
    (l <> [] -> num_outbound (connection_info m') <= max_outbound (connection_info m)) /\
    forall i, ((i ∉ l.*1) /\ peers m' !! i = peers m !! i) \/
      exists p, (i, p) ∈ l /\ peers m !! i = Some p /\ p_state p = Idle /\ peer_is_banned p = false /\
        peers m' !! i = Some (set_state Out p).
Proof.
  intros Hi Hn Hm m'. subst m'.
  destruct (fill_loop_filled iter Hi (size (peers m)) m) as (l & m' & E & Hf).
  { apply map_subseteq_size, map_filter_subseteq. }
  unfold fill_outbound_slots. rewrite E. cbn [default]. split; [done|]. split; [by eapply filled_done|].
  pose proof Hf as (_ & _ & _ & H1 & H2)%filled_frame. apply filled_counters in Hf as (_ & _ & _ & H3 & H4); [|done..].
  by exists l.
Qed.

(** The peer the manager dials next is the best of the idle, unbanned ones,
    whatever the order in which the hash map is walked: a trusted peer if there is
    one, otherwise one with a fork id if there is one, with the highest reputation
    among those. *)
Theorem best_unconnected_best (iter : forall V, gmap Z V -> list (Z * V)) (m : PeersManager) :
  iter_ok iter ->
  match best_unconnected iter m with
  | None => forall i p, ~ candidate m i p
  | Some (i, p) => candidate m i p /\ forall j q, candidate m j q -> no_better p q
  end.
Proof. intros Hi. by apply best_unconnected_spec. Qed.

(** ** Events *)

(** The calls the network makes to the manager, at time [now]. *)
Inductive peers_step (iter : forall V, gmap Z V -> list (Z * V)) (now : Z) : relation PeersManager :=
| step_incoming addr m : peers_step iter now m (snd (on_incoming_pending_session addr m))
| step_free_in m : peers_step iter now m (free_in m)
| step_incoming_dropped {E} `{!SessionError E} addr (err : E) m :
    peers_step iter now m (on_incoming_pending_session_dropped now addr err m)
| step_active_inbound p addr m : peers_step iter now m (on_active_inbound_session p addr m)
| step_reputation p rep m : peers_step iter now m (apply_reputation_change now p rep m)
| step_pending_closed p m : peers_step iter now m (on_pending_session_gracefully_closed p m)
| step_active_closed p m : peers_step iter now m (on_active_session_gracefully_closed iter p m)
| step_failure {E} `{!SessionError E} addr p (err : E) rep m :
    peers_step iter now m (on_connection_failure iter now addr p err rep m)
| step_already_connected d m : peers_step iter now m (on_already_connected d m)
| step_fork_id p f m : peers_step iter now m (set_discovered_fork_id p f m)
| step_add p kind addr f m : peers_step iter now m (add_peer_kind iter p kind addr f m)
| step_remove p m : peers_step iter now m (remove_peer p m)
| step_untrust p m : peers_step iter now m (remove_peer_from_trusted_set p m)
| step_poll cmds t1 t2 m : peers_step iter now m (snd (poll iter now cmds t1 t2 m)).

(** Any sequence of calls between the times [t0] and [t1]. *)
Definition peers_run iter (t0 t1 : Z) : relation PeersManager :=
  rtc (fun m m' => exists now, t0 <= now <= t1 /\ peers_step iter now m m').

(** Values in the ranges of their machine types. *)
Definition wf_peer (p : Peer) : Prop := i32_min <= p_reputation p <= i32_max /\ in_u 32 (backoff_counter p).

(** The elementary updates the handlers are made of. *)
Inductive micro (iter : forall V, gmap Z V -> list (Z * V)) (now : Z) : relation PeersManager :=
| micro_in d m : micro iter now m (set_info (add_in d (connection_info m)) m)
| micro_out d m : micro iter now m (set_info (add_out d (connection_info m)) m)
| micro_push a m : (forall p addr, a <> Connect p addr) -> micro iter now m (push_action a m)
| micro_pop a l m : queued_actions m = a :: l -> micro iter now m (set_actions l m)
| micro_update p q q' m : peers m !! p = Some q -> (wf_peer q -> wf_peer q') ->
    micro iter now m (set_peers (<[p := q']> (peers m)) m)
| micro_insert p q m : peers m !! p = None -> banned_peers (ban_list m) !! p = None -> wf_peer q ->
    micro iter now m (set_peers (<[p := q]> (peers m)) m)
| micro_delete p m : micro iter now m (set_peers (delete p (peers m)) m)
| micro_ban_peer p m :
    micro iter now m (set_ban_list (ban_peer_with p (Some (now + ban_duration m)) (ban_list m)) m)
| micro_backoff p q until m : peers m !! p = Some q ->
    micro iter now m (set_ban_list (ban_peer_with p until (ban_list m)) m)
| micro_unban p q m : peers m !! p = Some q ->
    micro iter now m (set_ban_list (list_unban_peer p (ban_list m)) m)
| micro_ban_ip ip until m : micro iter now m (set_ban_list (ban_ip_with ip until (ban_list m)) m)
| micro_evict m : micro iter now m
    (set_ban_list (mkBanList (filter (fun e => still_banned now e.2 = true) (banned_ips (ban_list m)))
                     (filter (fun e => still_banned now e.2 = true) (banned_peers (ban_list m)))) m)
| micro_fill m : micro iter now m (fill_outbound_slots iter m).

Section Micro.
Context (iter : forall V, gmap Z V -> list (Z * V)) (now : Z).
Abbreviation micros := (rtc (micro iter now)).

Lemma micro_then m m' m'' : micro iter now m m' -> micros m' m'' -> micros m m''.
Proof. apply rtc_l. Qed.

Lemma micros_push a m m' : (forall p addr, a <> Connect p addr) -> micros m m' -> micros m (push_action a m').
Proof. intros Ha Hm. eapply rtc_r; [done|]. by constructor. Qed.

Lemma micros_decr_state s m m' : micros m m' -> micros m (set_info (decr_state s (connection_info m')) m').
Proof.
  intros Hm. destruct s; cbn [decr_state]; try (eapply rtc_r; [done|constructor]).
  by destruct m'.
Qed.

Lemma micros_update p q q' m m' :
  micros m m' -> peers m' !! p = Some q -> (wf_peer q -> wf_peer q') -> micros m (set_peers (<[p := q']> (peers m')) m').
Proof. intros Hm Hp Hq. eapply rtc_r; [done|]. by eapply micro_update. Qed.

Lemma micros_ban_peer p m m' : micros m m' -> micros m (ban_peer now p m').
Proof. intros Hm. apply micros_push; [done|]. eapply rtc_r; [done|]. constructor. Qed.

Lemma saturating_range a b : i32_min <= saturating_add_i32 a b <= i32_max.
Proof. unfold saturating_add_i32. lia. Qed.

Lemma apply_reputation_wf r p : wf_peer p -> wf_peer (snd (apply_reputation r p)).
Proof.
  intros [_ Hb]. pose proof (saturating_range (p_reputation p) r).
  unfold apply_reputation. repeat case_match; done.
Qed.

Lemma penalize_micros p kind rep m : micros m (penalize now p kind rep m).
Proof.
  unfold penalize. destruct (peers m !! p) as [q|] eqn:Hq; [|done].
  destruct kind as [kind|].
  - eapply micros_update; [|exact Hq|].
    + apply micros_decr_state, rtc_once. by eapply micro_backoff.
    + intros _. split; [apply saturating_range|]. cbn. apply wrap_range. lia.
  - eapply micros_update; [|exact Hq|].
    + by apply micros_decr_state.
    + intros [_ Hb]. split; [apply saturating_range|done].
Qed.

Lemma reputation_micros p rep m : micros m (apply_reputation_change now p rep m).
Proof.
  unfold apply_reputation_change. destruct (peers m !! p) as [q|] eqn:Hq; [|done].
  destruct (apply_reputation (change (reputation_weights m) rep) q) as [o q'] eqn:E.
  assert (Hu : micros m (set_peers (<[p := q']> (peers m)) m)).
  { eapply micros_update; [done|exact Hq|]. intros Hw. replace q' with (snd (apply_reputation (change (reputation_weights m) rep) q)) by (by rewrite E). by apply apply_reputation_wf. }
  destruct o; [done|by apply micros_ban_peer|by apply micros_ban_peer, micros_push|].
  apply micros_push; [done|]. eapply rtc_r; [done|]. eapply micro_unban. cbn. apply lookup_insert_eq.
Qed.

Lemma micros_fill m m' : micros m m' -> micros m (fill_outbound_slots iter m').
Proof. intros Hm. eapply rtc_r; [done|constructor]. Qed.

Lemma failure_micros {E} `{!SessionError E} addr p (err : E) rep m :
  micros m (on_connection_failure iter now addr p err rep m).
Proof.
  apply micros_fill. destruct (is_fatal_protocol_error err); [|apply penalize_micros].
  assert (Hb : micros m (ban_peer now p (match peers m !! p with
    | Some peer => push_action (PeerRemoved p)
        (set_info (decr_state (p_state peer) (connection_info m)) (set_peers (delete p (peers m)) m))
    | None => m end))).
  { apply micros_ban_peer. destruct (peers m !! p) as [q|]; [|done]. apply micros_push; [done|].
    apply (micros_decr_state (p_state q) m (set_peers (delete p (peers m)) m)), rtc_once. constructor. }
  destruct (merits_discovery_ban err); [by apply micros_push|done].
Qed.

Lemma default_wf addr s kind f : wf_peer (peer_with addr s kind f).
Proof. split; cbn; unfold in_u; lia. Qed.

Lemma banned_peer_false b p : is_banned_peer b p = false -> banned_peers b !! p = None.
Proof. unfold is_banned_peer. rewrite bool_decide_eq_false. apply eq_None_not_Some. Qed.

Lemma active_inbound_micros p addr m : micros m (on_active_inbound_session p addr m).
Proof.
  unfold on_active_inbound_session. destruct (is_banned_peer (ban_list m) p) eqn:Hb; [by apply micros_push|].
  destruct (peers m !! p) as [q|] eqn:Hq.
  - destruct (peer_is_banned q); [by apply micros_push|]. by eapply micros_update.
  - apply micros_push; [done|]. apply rtc_once. constructor; [done|by apply banned_peer_false|apply default_wf].
Qed.

Lemma add_peer_micros p kind addr f m : micros m (add_peer_kind iter p kind addr f m).
Proof.
  unfold add_peer_kind. destruct (is_banned_peer (ban_list m) p) eqn:Hb; [done|]. cbn [orb].
  destruct (is_banned_ip _ _); [done|]. destruct (peers m !! p) as [q|] eqn:Hq; [by eapply micros_update|].
  apply micros_fill, micros_push; [done|]. apply rtc_once.
  constructor; [done|by apply banned_peer_false|apply default_wf].
Qed.

Lemma remove_peer_micros p m : micros m (remove_peer p m).
Proof.
  unfold remove_peer. destruct (peers m !! p) as [q|] eqn:Hq; [|done]. destruct (is_trusted q); [done|].
  destruct (is_connected (p_state q)).
  - apply micros_push; [done|].
    set (q' := mkPeer _ _ _ _ _ _ _). change (peers (push_action _ _)) with (delete p (peers m)).
    rewrite insert_delete_eq.
    change (micros m (push_action (PeerRemoved p) (set_peers (<[p := q']> (peers m)) m))).
    apply micros_push; [done|]. by eapply micros_update.
  - apply micros_push; [done|]. apply rtc_once. constructor.
Qed.

Lemma command_micros cmd m : micros m (on_command iter now cmd m).
Proof. destruct cmd; [apply add_peer_micros|apply remove_peer_micros|apply reputation_micros|done..]. Qed.

Lemma unban_one_micros p m : micros m (unban_one p m).
Proof.
  unfold unban_one. destruct (peers m !! p) as [q|] eqn:Hq; [|done]. apply micros_push; [done|].
  eapply micros_update; [done..|]. intros [_ Hb]. split; [cbn; lia|done].
Qed.

Lemma micros_foldl {A} (f : PeersManager -> A -> PeersManager) (l : list A) m :
  (forall m a, micros m (f m a)) -> micros m (foldl f m l).
Proof.
  intros Hf. revert m. induction l as [|a l IH]; intros m; [done|]. cbn [foldl].
  etransitivity; [apply Hf|apply IH].
Qed.

Lemma poll_micros cmds t1 t2 m : micros m (snd (poll iter now cmds t1 t2 m)).
Proof.
  assert (Ht : micros m (poll_turn iter now cmds t1 t2 m)).
  { unfold poll_turn.
    assert (H1 : micros m (foldl (fun m cmd => on_command iter now cmd m) m cmds)).
    { apply micros_foldl. intros m' c. apply command_micros. }
    set (m1 := foldl _ m cmds) in *.
    assert (H2 : micros m (if t1 then on_unban_tick iter now m1 else m1)).
    { destruct t1; [|done]. etransitivity; [done|]. unfold on_unban_tick.
      eapply rtc_l; [apply micro_evict|]. apply micros_foldl. intros m' q. apply unban_one_micros. }
    destruct t2; [by apply micros_fill|done]. }
  unfold poll. destruct (queued_actions m) as [|a l] eqn:Hq; [|by apply rtc_once, (micro_pop iter now a)].
  destruct (queued_actions (poll_turn iter now cmds t1 t2 m)) as [|a l] eqn:Hq2; [done|].
  eapply rtc_r; [done|]. by apply (micro_pop iter now a).
Qed.

(** Every call is a sequence of elementary updates. *)
Lemma step_micros m m' : peers_step iter now m m' -> micros m m'.
Proof.
  destruct 1.
  - unfold on_incoming_pending_session. repeat case_match; try done. apply rtc_once. constructor.
  - apply rtc_once. constructor.
  - unfold on_incoming_pending_session_dropped, free_in. eapply rtc_r; [|apply micro_in].
    destruct (is_fatal_protocol_error err); [|done]. destruct (merits_discovery_ban err);
      [apply micros_push; [done|]|]; apply rtc_once; constructor.
  - apply active_inbound_micros.
  - apply reputation_micros.
  - unfold on_pending_session_gracefully_closed. destruct (peers m !! p) as [q|] eqn:Hq; [|done].
    apply (rtc_r _ (set_peers (<[p := set_state Idle q]> (peers m)) m)); [by eapply micros_update|apply micro_out].
  - unfold on_active_session_gracefully_closed. destruct (peers m !! p) as [q|] eqn:Hq; [|done].
    destruct (remove_after_disconnect q && negb (is_trusted q)).
    + apply micros_fill, micros_push; [done|]. eapply rtc_r; [by apply micros_decr_state|]. constructor.
    + eapply micros_update; [by apply micros_decr_state|done|]. intros [Hr _]. split; [done|]. cbn. unfold in_u. lia.
  - apply failure_micros.
  - destruct d; [done|]. apply rtc_once. constructor.
  - unfold set_discovered_fork_id. destruct (peers m !! p) eqn:Hq; [|done]. by eapply micros_update.
  - apply add_peer_micros.
  - apply remove_peer_micros.
  - unfold remove_peer_from_trusted_set. destruct (peers m !! p) eqn:Hq; [|done].
    destruct (negb _); [done|]. by eapply micros_update.
  - apply poll_micros.
Qed.
End Micro.

Lemma run_ind iter t0 t1 (J : PeersManager -> Prop) m m' :
  (forall now m m', t0 <= now <= t1 -> micro iter now m m' -> J m -> J m') ->
  J m -> peers_run iter t0 t1 m m' -> J m'.
Proof.
  intros HJ Hm Hr. induction Hr as [|m m1 m2 (now & Ht & Hs) _ IH]; [done|]. apply IH.
  apply step_micros in Hs. clear IH. induction Hs as [|m m' m'' H _ IH']; [done|]. apply IH'. by eapply HJ.
Qed.

(** ** Bans *)

(** The peer is unknown, on the ban list at least until [t], and no connection to it
    is scheduled beyond those in [old]. *)
Definition kept_out (p t d : Z) (old : list PeerAction) (m : PeersManager) : Prop :=
  peers m !! p = None /\ ban_duration m = d /\
  (exists u, banned_peers (ban_list m) !! p = Some u /\ forall x, u = Some x -> t <= x) /\
  forall addr, Connect p addr ∈ queued_actions m -> Connect p addr ∈ old.

Lemma fill_kept_out iter p t d old m : iter_ok iter ->
  kept_out p t d old m -> kept_out p t d old (fill_outbound_slots iter m).
Proof.
  intros Hi (Hp & Hd & Hb & Hq). destruct (fill_outbound_filled iter Hi m) as [l Hf].
  apply filled_frame in Hf as (E1 & E2 & _ & E3 & E4). unfold kept_out. rewrite E1, E2, E3.
  assert (Hl : forall q, (p, q) ∉ l).
  { intros q Hq'. destruct (E4 p) as [[Hn _]|(q' & _ & Hq'' & _)]; [|congruence].
    apply Hn, list_elem_of_fmap. by exists (p, q). }
  split_and!; [|done..|].
  - destruct (E4 p) as [[_ E]|(q & Hq' & _)]; [congruence|by apply Hl in Hq'].
  - intros addr [Ha|Ha]%elem_of_app; [by apply Hq|].
    apply list_elem_of_fmap in Ha as ([i q] & [= <- _] & Hin). by apply Hl in Hin.
Qed.

Lemma micro_kept_out iter now p t d old m m' :
  iter_ok iter -> now <= t <= now + d -> micro iter now m m' -> kept_out p t d old m -> kept_out p t d old m'.
Proof.
  intros Hi Ht Hs H. destruct Hs as [d' m|d' m|a m Ha|a l m El|p' q q' m Hq' Hw|p' q m Hn Hbn|p' m|p' m|p' q u m Hq'|p' q m Hq'|ip u m|m|m];
    [..|by apply fill_kept_out]; destruct H as (Hp & Hd & (u0 & Hu & Hx) & Hq); split_and!; try done;
    cbn [set_info set_peers set_ban_list set_actions push_action peers ban_list queued_actions banned_peers
         ban_peer_with list_unban_peer ban_duration] in *.
  all: try (exists u0; by split).
  - intros addr [Hin|Hin%list_elem_of_singleton]%elem_of_app; [by apply Hq|]. by destruct (Ha p addr).
  - intros addr Hin. apply Hq. rewrite El. by apply list_elem_of_further.
  - rewrite lookup_insert_ne by congruence. done.
  - rewrite lookup_insert_ne by congruence. done.
  - destruct (decide (p' = p)) as [->|]; [by rewrite lookup_delete_eq|by rewrite lookup_delete_ne].
  - destruct (decide (p' = p)) as [->|]; [|exists u0; by rewrite lookup_insert_ne].
    rewrite lookup_insert_eq. eexists. split; [done|]. intros x [= <-]. lia.
  - exists u0. by rewrite lookup_insert_ne by congruence.
  - exists u0. by rewrite lookup_delete_ne by congruence.
  - unfold ban_ip_with. destruct (is_global ip); exists u0; done.
  - exists u0. split; [|done]. apply map_lookup_filter_Some. split; [done|]. cbn.
    destruct u0 as [x|]; [|done]. cbn. pose proof (Hx x eq_refl). apply negb_true_iff, Z.ltb_ge. lia.
Qed.

(** C9. A peer that fails with a fatal protocol error is kept out for the whole ban:
    whatever happens until the ban duration has passed — discovery finds it again,
    it connects to us, commands, ticks, other failures — it is not in the peer set,
    it stays on the ban list, and no new connection to it is scheduled. *)
Theorem fatal_error_keeps_out iter {E} `{!SessionError E} (t0 : Z) addr p (err : E) rep (m m' : PeersManager) :
  iter_ok iter -> 0 <= ban_duration m -> is_fatal_protocol_error err = true ->
  peers_run iter t0 (t0 + ban_duration m) (on_connection_failure iter t0 addr p err rep m) m' ->
  peers m' !! p = None /\ is_banned_peer (ban_list m') p = true /\
  forall addr', Connect p addr' ∈ queued_actions m' -> Connect p addr' ∈ queued_actions m.
Proof.
  intros Hi Hd Hf Hr.
  assert (Hk : kept_out p (t0 + ban_duration m) (ban_duration m) (queued_actions m) m').
  { revert Hr. apply run_ind.
    - intros now m1 m2 Ht Hs. apply (micro_kept_out iter now); [done|lia|done].
    - unfold on_connection_failure. rewrite Hf. apply fill_kept_out; [done|].
      assert (Hin : forall a l addr', (forall q b, a <> Connect q b) -> Connect p addr' ∈ l ++ [a] -> Connect p addr' ∈ l).
      { intros a l addr' Ha [? | Heq%list_elem_of_singleton]%elem_of_app; [done|]. by destruct (Ha p addr'). }
      destruct (peers m !! p) as [q|] eqn:Hq, (merits_discovery_ban err); split_and!; try done; cbn.
      all: try (by apply lookup_delete_eq).
      all: try (rewrite lookup_insert_eq; eexists; split; [done|]; intros x [= <-]; done).
      all: intros addr' Ha; repeat (apply Hin in Ha; [|done]); done. }
  destruct Hk as (Hp & _ & (u & Hu & _) & Hq). split_and!; [done| |done].
  apply bool_decide_eq_true. by exists u.
Qed.

(** ** A ban nobody lifts *)

Definition rep_of (m : PeersManager) (p : Z) : option Z := p_reputation <$> peers m !! p.

Lemma fill_rep iter m p : iter_ok iter ->
  rep_of (fill_outbound_slots iter m) p = rep_of m p /\ ban_list (fill_outbound_slots iter m) = ban_list m /\
  reputation_weights (fill_outbound_slots iter m) = reputation_weights m.
Proof.
  intros Hi. destruct (fill_outbound_filled iter Hi m) as [l Hf].
  apply filled_frame in Hf as (-> & _ & -> & _ & H). split_and!; [|done..].
  unfold rep_of. destruct (H p) as [[_ ->]|(q & _ & -> & _ & _ & ->)]; done.
Qed.

(** A failure that is neither fatal nor backed off only lowers the reputation. *)
Lemma failure_rep iter {E} `{!SessionError E} now addr p (err : E) rep m r :
  iter_ok iter -> is_fatal_protocol_error err = false -> should_backoff err = None -> rep_of m p = Some r ->
  let m' := on_connection_failure iter now addr p err rep m in
  rep_of m' p = Some (saturating_add_i32 r (change (reputation_weights m) rep)) /\
  ban_list m' = ban_list m /\ reputation_weights m' = reputation_weights m.
Proof.
  intros Hi Hf Hb Hr m'. subst m'. unfold on_connection_failure. rewrite Hf, Hb.
  destruct (fill_rep iter (penalize now p None rep m) p Hi) as (-> & -> & ->).
  unfold rep_of, penalize in *. destruct (peers m !! p) as [q|] eqn:Hq; [|done]. injection Hr as <-.
  cbn. by rewrite lookup_insert_eq.
Qed.

Lemma unban_tick_rep iter now m p : iter_ok iter ->
  banned_peers (ban_list m) !! p = None ->
  rep_of (on_unban_tick iter now m) p = rep_of m p /\ banned_peers (ban_list (on_unban_tick iter now m)) !! p = None.
Proof.
  intros Hi Hb. unfold on_unban_tick. set (l := (filter _ _).*1). set (m0 := set_ban_list _ m).
  assert (Hl : p ∉ l).
  { intros ([i u] & -> & [_ Hin]%list_elem_of_filter)%list_elem_of_fmap. apply elem_of_iter in Hin; [|done]. cbn in *. congruence. }
  assert (H0 : rep_of m0 p = rep_of m p /\ banned_peers (ban_list m0) !! p = None).
  { split; [done|]. cbn. apply map_lookup_filter_None. by left. }
  clearbody m0 l. revert m0 H0. induction l as [|i l IH]; intros m0 H0; [done|].
  apply not_elem_of_cons in Hl as [Hne Hl]. cbn [foldl]. apply IH; [done|]. unfold unban_one.
  destruct (peers m0 !! i) as [q|] eqn:Hq; [|done]. destruct H0 as [H1 H2]. split; [|done].
  rewrite <- H1. unfold rep_of. cbn. by rewrite lookup_insert_ne.
Qed.

(** A poll without commands keeps the reputation of a peer that has no entry. *)
Lemma poll_rep iter now unban refill m p : iter_ok iter ->
  banned_peers (ban_list m) !! p = None ->
  let m' := snd (poll iter now [] unban refill m) in
  rep_of m' p = rep_of m p /\ banned_peers (ban_list m') !! p = None.
Proof.
  intros Hi Hb m'. subst m'. unfold poll. destruct (queued_actions m); [|done].
  enough (H : rep_of (poll_turn iter now [] unban refill m) p = rep_of m p /\
    banned_peers (ban_list (poll_turn iter now [] unban refill m)) !! p = None) by (by destruct (queued_actions _)).
  unfold poll_turn. cbn [foldl]. set (m1 := if unban then _ else _).
  assert (H1 : rep_of m1 p = rep_of m p /\ banned_peers (ban_list m1) !! p = None).
  { subst m1. destruct unban; [by apply unban_tick_rep|done]. }
  destruct refill; [|done]. by destruct (fill_rep iter m1 p Hi) as (-> & -> & _).
Qed.

(** The error of a p2p handshake that ran into its timeout. *)
Abbreviation handshake_timeout := (PendingEth (P2PErr (HandshakeError Timeout))).

(** Three p2p handshakes that run into their timeout, with the default weights,
    put a peer below the ban threshold without an entry on the ban list; as only
    expired entries of that list restore a reputation, no later poll does, however
    long one waits, and the peer is never dialled again. *)
Theorem timeouts_ban_for_good iter (NamedChain : Type) (t1 t2 t3 : Z) addr p r (m m' : PeersManager) :
  iter_ok iter -> reputation_weights m = default_weights -> banned_peers (ban_list m) !! p = None ->
  rep_of m p = Some r -> i32_min + 76800 <= r <= 0 ->
  let fail t m := on_connection_failure iter t addr p (handshake_timeout : PendingSessionHandshakeError NamedChain) FailedToConnect m in
  rtc (fun m m' => exists now unban refill, m' = snd (poll iter now [] unban refill m)) (fail t3 (fail t2 (fail t1 m))) m' ->
  rep_of m' p = Some (r - 76800) /\ (forall q, ~ candidate m' p q).
Proof.
  intros Hi Hw Hb Hr Hrange fail Hrun.
  assert (Hstep : forall t m r, reputation_weights m = default_weights -> rep_of m p = Some r -> i32_min + 25600 <= r <= 0 ->
    rep_of (fail t m) p = Some (r - 25600) /\ ban_list (fail t m) = ban_list m /\ reputation_weights (fail t m) = default_weights).
  { intros t m1 r1 Hw1 Hr1 Hrg. unfold fail. destruct (failure_rep iter t addr p
      (handshake_timeout : PendingSessionHandshakeError NamedChain) FailedToConnect m1 r1) as (-> & -> & ->); [done..|].
    rewrite Hw1. split_and!; try done. f_equal. cbn. unfold saturating_add_i32. lia. }
  destruct (Hstep t1 m r) as (R1 & B1 & W1); [done..|lia|].
  destruct (Hstep t2 _ _ W1 R1) as (R2 & B2 & W2); [lia|].
  destruct (Hstep t3 _ _ W2 R2) as (R3 & B3 & W3); [lia|].
  assert (H : rep_of m' p = Some (r - 76800) /\ banned_peers (ban_list m') !! p = None).
  { assert (H3 : rep_of (fail t3 (fail t2 (fail t1 m))) p = Some (r - 76800) /\
      banned_peers (ban_list (fail t3 (fail t2 (fail t1 m)))) !! p = None).
    { rewrite R3, B3, B2, B1. split; [f_equal; lia|done]. }
    clear - Hi Hrun H3. induction Hrun as [|m3 m4 m5 (now & unban & refill & ->) _ IH]; [done|]. apply IH.
    destruct H3 as [<- H3]. by apply poll_rep. }
  destruct H as [H _]. split; [done|]. intros q [Hq He]. unfold rep_of in H. rewrite Hq in H. injection H as Hrep.
  destruct (candidate_idle m' p q (conj Hq He)) as [_ Hn]. revert Hn. unfold is_banned_reputation, BANNED_REPUTATION.
  rewrite Z.ltb_ge. lia.
Qed.

(** ** Slots that are never freed *)

(** A peer that is connected already opens another connection: the inbound session
    is accepted, then found to be a duplicate once its handshake is over. *)
Definition duplicate_incoming (ip : IpAddr) (m : PeersManager) : PeersManager :=
  on_already_connected Incoming (snd (on_incoming_pending_session ip m)).

Lemma duplicate_incoming_eq ip m :
  is_banned_ip (ban_list m) ip = false -> num_inbound (connection_info m) < max_inbound (connection_info m) ->
  in_u 64 (num_inbound (connection_info m)) -> in_u 64 (max_inbound (connection_info m)) ->
  let i := connection_info m in
  duplicate_incoming ip m = set_info (mkConnectionInfo (num_outbound i) (num_inbound i + 1) (max_outbound i) (max_inbound i)) m.
Proof.
  intros Hb Hc Hn Hm i. unfold duplicate_incoming, on_incoming_pending_session, has_in_capacity.
  rewrite Hb. zdec. cbn. unfold add_in. rewrite wrap_small; [done|]. unfold in_u in *. lia.
Qed.

(** A duplicate inbound connection is never given its slot back: as many of them
    as there are free inbound slots, one after the other and each closed before the
    next, make the manager refuse every further inbound connection, from any
    address. *)
Theorem duplicate_connections_exhaust (ip : IpAddr) (k : nat) (m : PeersManager) :
  is_banned_ip (ban_list m) ip = false ->
  in_u 64 (num_inbound (connection_info m)) -> in_u 64 (max_inbound (connection_info m)) ->
  Z.of_nat k = max_inbound (connection_info m) - num_inbound (connection_info m) ->
  let m' := Nat.iter k (duplicate_incoming ip) m in
  forall ip', is_banned_ip (ban_list m') ip' = false ->
    on_incoming_pending_session ip' m' = (Err (ExceedsLimit (max_inbound (connection_info m))), m').
Proof.
  intros Hb Hn Hm Hk m'.
  assert (Hi : forall j, (j <= k)%nat -> Nat.iter j (duplicate_incoming ip) m =
    set_info (mkConnectionInfo (num_outbound (connection_info m)) (num_inbound (connection_info m) + Z.of_nat j)
      (max_outbound (connection_info m)) (max_inbound (connection_info m))) m).
  { induction j as [|j IH]; intros Hj.
    - rewrite Z.add_0_r. by destruct m as [? ? ? []].
    - change (Nat.iter (S j) ?f ?x) with (f (Nat.iter j f x)). rewrite IH by lia. unfold in_u in *.
      rewrite duplicate_incoming_eq by (cbn; done || (unfold in_u; lia)). cbn [set_info connection_info].
      replace (Z.of_nat (S j)) with (Z.of_nat j + 1) by lia. by rewrite Z.add_assoc. }
  intros ip'. subst m'. rewrite Hi by lia. cbn [set_info ban_list]. intros Hb'.
  unfold on_incoming_pending_session, has_in_capacity. cbn [set_info ban_list connection_info num_inbound max_inbound].
  rewrite Hb'. by zdec.
Qed.

(** ** Examples *)

Definition example_addr : SocketAddr := mkSocketAddr (V4 [8; 8; 8; 8]) 30303.

(** Two basic nodes and a trusted one, two outbound and two inbound slots. *)
Definition example_manager : PeersManager :=
  PeersManager_new [(3, example_addr)] [(1, example_addr); (2, example_addr)] default_weights
    (mkConnectionInfo 0 0 2 2) (mkBanList ∅ ∅) 43200 (mkBackoffDurations 30 180 900) false.

Lemma fill_outbound_slots_spec_witness :
  let m' := fill_outbound_slots example_iter example_manager in
  fill_loop example_iter (size (peers example_manager)) example_manager = Some m' /\
  num_outbound (connection_info m') = 2.
Proof.
  destruct (fill_outbound_slots_spec example_iter example_manager example_iter_ok) as (H1 & _ & l & _ & H2 & _);
    [by vm_compute..|]. split; [exact H1|]. vm_compute. done.
Defined.

Lemma best_unconnected_best_witness :
  exists p, best_unconnected example_iter example_manager = Some (3, p) /\ candidate example_manager 3 p.
Proof.
  pose proof (best_unconnected_best example_iter example_manager example_iter_ok) as H.
  destruct (best_unconnected example_iter example_manager) as [[i p]|] eqn:E.
  - vm_compute in E. injection E as <- <-. eexists. split; [reflexivity|apply H].
  - vm_compute in E. discriminate E.
Defined.

Lemma fatal_error_keeps_out_witness :
  peers (add_peer_kind example_iter 1 Basic example_addr None
    (on_connection_failure example_iter 0 example_addr 1 (P2PErr EmptyProtocolMessage : EthStreamError unit) Dropped
      example_manager)) !! 1 = None.
Proof.
  apply (fatal_error_keeps_out example_iter 0 example_addr 1 (P2PErr EmptyProtocolMessage : EthStreamError unit) Dropped
    example_manager).
  - exact example_iter_ok.
  - done.
  - done.
  - apply rtc_once. exists 1000. split; [vm_compute; done|]. constructor.
Defined.

Lemma timeouts_ban_for_good_witness :
  let fail t m := on_connection_failure example_iter t example_addr 1
    (handshake_timeout : PendingSessionHandshakeError unit) FailedToConnect m in
  rep_of (snd (poll example_iter (10 ^ 18) [] true true (fail 3 (fail 2 (fail 1 example_manager))))) 1 = Some (-76800).
Proof.
  apply (timeouts_ban_for_good example_iter unit 1 2 3 example_addr 1 0 example_manager).
  - exact example_iter_ok.
  - done.
  - done.
  - done.
  - lia.
  - apply rtc_once. by eexists _, _, _.
Defined.

Lemma duplicate_connections_exhaust_witness :
  on_incoming_pending_session (V4 [9; 9; 9; 9]) (Nat.iter 2 (duplicate_incoming (V4 [8; 8; 8; 8])) example_manager) =
  (Err (ExceedsLimit 2), Nat.iter 2 (duplicate_incoming (V4 [8; 8; 8; 8])) example_manager).
Proof. by apply (duplicate_connections_exhaust (V4 [8; 8; 8; 8]) 2 example_manager). Defined.

(** The outbound counter is decremented twice for one connection: a node dials peer
    1, which dials back and loses its reputation meanwhile; the inbound session is
    refused as banned without touching the state of the peer, the dialled one ends
    as a duplicate, and the close of the first counts the outbound slot again.  The
    counter wraps, and no peer is ever dialled again. *)
Example outbound_counter_underflow :
  let m := PeersManager_new [] [(1, example_addr)] default_weights
    (mkConnectionInfo 0 0 1 2) (mkBanList ∅ ∅) 43200 (mkBackoffDurations 30 180 900) false in
  let m := fill_outbound_slots example_iter m in
  let m := snd (on_incoming_pending_session (V4 [8; 8; 8; 8]) m) in
  let m := apply_reputation_change 1 1 BadProtocol m in
  let m := on_active_inbound_session 1 example_addr m in
  let m := on_already_connected (Outgoing 1) m in
  let m := on_active_session_gracefully_closed example_iter 1 m in
  num_outbound (connection_info m) = 2 ^ 64 - 1 /\ has_out_capacity (connection_info m) = false.
Proof. by vm_compute. Qed.
