(* ===== verification/SubStateProofs.v ===== *)
(** * Theorems about the substate of side chains

    The reference counts of new bytecodes survive an apply and revert round trip;
    the account part does not, for the reasons the last theorems make precise. *)
From S2P Require Import Prelude Bytes BTree PoolInner Primitives SubState.

(** ** Bytecode reference counts *)

(** How many transactions of the list deploy the bytecode. *)
Definition occurrences (h : Z) (l : list Z) : Z := zlen (filter (fun x => x = h) l).

Lemma occurrences_cons h x l :
  occurrences h (x :: l) = (if decide (x = h) then 1 else 0) + occurrences h l.
Proof. unfold occurrences. rewrite filter_cons. repeat case_decide; cbn [length]; (done || lia). Qed.

Lemma occurrences_nonneg h l : 0 <= occurrences h l.
Proof. unfold occurrences. lia. Qed.

Lemma foldM_app {A S} (f : S -> A -> option S) l1 l2 s :
  foldM f (l1 ++ l2) s = (s' ← foldM f l1 s; foldM f l2 s').
Proof. revert s. induction l1 as [|x l1 IH]; intros s; cbn; [done|]. destruct (f s x); cbn; [apply IH|done]. Qed.

Definition count (m : gmap Z (Z * bytes)) (h : Z) : Z := default 0 (fst <$> m !! h).

Lemma apply_bytecodes_lookup l m h :
  (forall x, 0 <= count m x /\ count m x + occurrences x l.*1 < 2 ^ 32) ->
  count (foldl apply_bytecode m l) h = count m h + occurrences h l.*1 /\
  (is_Some (m !! h) -> snd <$> foldl apply_bytecode m l !! h = snd <$> m !! h) /\
  (occurrences h l.*1 = 0 -> foldl apply_bytecode m l !! h = m !! h).
Proof.
  revert m. induction l as [|[x b] l IH]; intros m Hm; cbn [foldl fmap list_fmap fst].
  { split_and!; [change (occurrences h []) with 0; lia|done|done]. }
  set (m' := apply_bytecode m (x, b)).
  assert (Hx : m' !! x = Some (count m x + 1, default b (snd <$> m !! x))).
  { unfold m', apply_bytecode, count. destruct (Hm x) as [H0 H1]. cbn [fmap list_fmap fst] in H1.
    rewrite occurrences_cons, decide_True in H1 by done. pose proof (occurrences_nonneg x l.*1).
    unfold count in H0, H1. cbn [fst snd]. destruct (m !! x) as [[c b']|];
      cbn [from_option fmap option_fmap option_map fst snd id] in *;
      rewrite lookup_insert_eq, wadd_small; auto; unfold in_u; lia. }
  assert (Hne : forall y, x <> y -> m' !! y = m !! y).
  { intros y Hy. unfold m', apply_bytecode. cbn [fst snd]. destruct (default (0, b) (m !! x)).
    by rewrite lookup_insert_ne. }
  assert (Hc : forall y, count m' y = count m y + (if decide (x = y) then 1 else 0)).
  { intros y. unfold count at 1. case_decide as Hy; [subst; by rewrite Hx|].
    rewrite Hne by done. unfold count. lia. }
  destruct (IH m') as (I1 & I2 & I3).
  { intros y. rewrite Hc. destruct (Hm y) as [? H1]. cbn [fmap list_fmap fst] in H1. rewrite occurrences_cons in H1.
    case_decide; lia. }
  rewrite occurrences_cons. split_and!.
  - rewrite I1, Hc. lia.
  - intros Hs. destruct (decide (x = h)) as [->|Hy].
    + rewrite I2 by (rewrite Hx; eauto). rewrite Hx. destruct Hs as [[c b'] ->]. done.
    + rewrite I2; rewrite Hne by done; done.
  - pose proof (occurrences_nonneg h l.*1). case_decide as Hy; [lia|]. intros ?. rewrite I3 by lia. by apply Hne.
Qed.

Lemma revert_bytecodes_lookup l m :
  (forall x, count m x < 2 ^ 32 /\ occurrences x l <= count m x) ->
  exists m', foldM revert_bytecode l m = Some m' /\
    forall h, m' !! h = if decide (occurrences h l = 0) then m !! h
                        else if decide (occurrences h l = count m h) then None
                        else (fun e => (e.1 - occurrences h l, e.2)) <$> m !! h.
Proof.
  revert m. induction l as [|x l IH]; intros m Hm.
  { exists m. split; [done|]. intros h. by rewrite decide_True. }
  destruct (Hm x) as [Hb Hx]. rewrite occurrences_cons, decide_True in Hx by done.
  pose proof (occurrences_nonneg x l) as Hp.
  destruct (m !! x) as [[c b]|] eqn:Ex; [|unfold count in Hx; rewrite Ex in Hx; cbn in Hx; lia].
  assert (Hcx : count m x = c) by (unfold count; by rewrite Ex). rewrite Hcx in *.
  set (m1 := if c - 1 =? 0 then delete x m else <[x := (c - 1, b)]> m).
  assert (E1 : revert_bytecode m x = Some m1).
  { unfold revert_bytecode. rewrite Ex. cbn. rewrite wrap_small by (unfold in_u; lia). done. }
  assert (Hx1 : m1 !! x = if decide (c = 1) then None else Some (c - 1, b)).
  { unfold m1. destruct (Z.eqb_spec (c - 1) 0); case_decide; try lia;
      [apply lookup_delete_eq|apply lookup_insert_eq]. }
  assert (Hne : forall y, x <> y -> m1 !! y = m !! y).
  { intros y Hy. unfold m1. destruct (_ =? _); [by rewrite lookup_delete_ne|by rewrite lookup_insert_ne]. }
  assert (Hc1 : count m1 x = c - 1) by (unfold count; rewrite Hx1; case_decide; cbn; lia).
  destruct (IH m1) as (m' & E & Hl).
  { intros y. destruct (decide (x = y)) as [<-|Hy]; [rewrite Hc1; lia|].
    destruct (Hm y) as [? Hy']. rewrite occurrences_cons, decide_False in Hy' by done.
    unfold count in *. rewrite Hne by done. lia. }
  exists m'. split; [cbn; rewrite E1; exact E|]. intros h. rewrite Hl, occurrences_cons.
  destruct (decide (x = h)) as [<-|Hy].
  - rewrite (decide_False (P := 1 + _ = 0)) by lia. rewrite Hc1, Hcx, Hx1, Ex.
    repeat case_decide; try lia; cbn; try done; f_equal; f_equal; lia.
  - assert (count m1 h = count m h) as -> by (unfold count; by rewrite Hne).
    rewrite Hne, Z.add_0_l by done. done.
Qed.

(** The bytecodes that one change set deploys, transaction by transaction. *)
Definition deployed (cs : ExecutionResult) : list (Z * bytes) :=
  mjoin ((fun tx => entries Z.le (new_bytecodes tx)) <$> tx_changesets cs).

Lemma apply_one_bytecodes s cs : bytecodes (apply_one s cs) = foldl apply_bytecode (bytecodes s) (deployed cs).
Proof.
  unfold apply_one, deployed. cbn. generalize (tx_changesets cs) as txs. intros txs. revert s.
  induction txs as [|tx txs IH]; intros s; cbn; [done|]. rewrite foldl_app, IH. done.
Qed.

(** The bytecode loop of [revert] over all the transactions of a change set. *)
Definition revert_deployed (cs : ExecutionResult) (m : gmap Z (Z * bytes)) : option (gmap Z (Z * bytes)) :=
  foldM (fun m tx => foldM revert_bytecode (entries Z.le (new_bytecodes tx)).*1 m) (tx_changesets cs) m.

Lemma revert_deployed_flat cs m : revert_deployed cs m = foldM revert_bytecode (deployed cs).*1 m.
Proof.
  unfold revert_deployed, deployed. generalize (tx_changesets cs) as txs. intros txs. revert m.
  induction txs as [|tx txs IH]; intros m; cbn; [done|]. rewrite fmap_app, foldM_app.
  destruct (foldM revert_bytecode _ m); cbn; [apply IH|done].
Qed.

(** Reference counts are positive and small enough to be incremented. *)
Definition counts_ok (m : gmap Z (Z * bytes)) (cs : ExecutionResult) : Prop :=
  map_Forall (fun _ e => 1 <= e.1) m /\ forall h, count m h + occurrences h (deployed cs).*1 < 2 ^ 32.

(** Bytecode reference counting: reverting a change set after applying it
    finds every bytecode it deployed, so the bytecode loop does not panic, and it
    restores the bytecode table exactly, although transactions are reverted in the
    order in which they were applied. *)
Theorem bytecodes_apply_revert s cs :
  counts_ok (bytecodes s) cs ->
  revert_deployed cs (bytecodes (apply_one s cs)) = Some (bytecodes s).
Proof.
  intros [Hpos Hmax]. set (m := bytecodes s) in *. set (l := deployed cs) in *.
  assert (Hc : forall x, 0 <= count m x).
  { intros x. unfold count. destruct (m !! x) as [e|] eqn:E; cbn; [|lia]. specialize (Hpos _ _ E). cbn in Hpos. lia. }
  assert (Ha := fun h => apply_bytecodes_lookup l m h (fun x => conj (Hc x) (Hmax x))).
  rewrite revert_deployed_flat, apply_one_bytecodes. fold m l. set (m1 := foldl apply_bytecode m l) in *.
  destruct (revert_bytecodes_lookup l.*1 m1) as (m' & -> & Hl).
  { intros x. destruct (Ha x) as (-> & _). specialize (Hc x). specialize (Hmax x). lia. }
  f_equal. apply map_eq. intros h. rewrite Hl. destruct (Ha h) as (Hn & Hsnd & Hz).
  case_decide as Ho; [by apply Hz|]. rewrite Hn. unfold count in *. case_decide as Hd.
  - destruct (m !! h) as [e|] eqn:E; [|done]. specialize (Hpos _ _ E). cbn in Hpos, Hd. lia.
  - destruct (m !! h) as [[c b]|] eqn:E; [|cbn in Hd; lia]. cbn in Hn, Hsnd.
    specialize (Hsnd (ex_intro _ _ eq_refl)). destruct (m1 !! h) as [[c1 b1]|]; [|done].
    cbn in *. injection Hsnd as ->. f_equal. f_equal. lia.
Qed.

(** ** The account part *)

Lemma entries_singleton {V} (a : Z) (v : V) : entries Z.le {[a := v]} = [(a, v)].
Proof.
  apply (entries_unique Z.le); [repeat constructor|]. intros k w.
  rewrite list_elem_of_singleton, lookup_singleton_Some. split; [intros [= -> ->]; done|intros [-> ->]; done].
Qed.

Definition block_change (a : Z) (c : AccountInfoChangeSet) : ExecutionResult := mkExecutionResult [] {[a := c]}.

(** Applying a change from [old] to [new] stores [old]: after a block whose
    only effect is to change an account, the side chain still reads the account's
    value from before the block, whatever the substate and the provider held. *)
Theorem apply_changed_reads_old {E} s a new old (provider_account : Z -> outcome E (option Account)) :
  sp_basic_account (apply_one s (block_change a (Changed new old))) provider_account a = Ok (Some old).
Proof.
  unfold sp_basic_account, apply_one. cbn.
  rewrite entries_singleton. cbn. by rewrite lookup_insert_eq.
Qed.

Definition tx_change (a : Z) (c : AccountInfoChangeSet) : TransactionChangeSet :=
  mkTransactionChangeSet (mkReceipt TxLegacyType true 0 0 []) {[a := mkAccountChangeSet c ∅ false]} ∅.

Lemma put_storage_empty pick a m : put_storage pick a ∅ m = m.
Proof.
  unfold put_storage. destruct (m !! a) as [[i c st]|] eqn:E; [|done]. cbn. by apply insert_id.
Qed.

Lemma apply_tx_change s a c :
  apply_tx s (tx_change a c) = mkSubStateData (apply_account a c (accounts s)) (bytecodes s).
Proof.
  unfold apply_tx, tx_change. cbn [changeset new_bytecodes]. rewrite entries_singleton. cbn [foldl fst snd acs_storage account].
  unfold apply_storage. by rewrite put_storage_empty.
Qed.

Lemma revert_tx_change s a c :
  revert_tx s (tx_change a c) = (m ← revert_account a c (accounts s); Some (mkSubStateData m (bytecodes s))).
Proof.
  unfold revert_tx, tx_change. cbn [changeset new_bytecodes]. rewrite entries_singleton.
  change (entries Z.le (∅ : gmap Z bytes)) with (@nil (Z * bytes)). cbn.
  destruct (revert_account a c (accounts s)); cbn; [|done]. unfold revert_storage. by rewrite put_storage_empty.
Qed.

(** A block that creates an account in one transaction and changes it in a
    later one is not undone by [revert], which walks the transactions forwards: the
    account was absent from the substate before the block, and after applying and
    reverting the block it is present with the value the first transaction created. *)
Theorem revert_keeps_created_account s a new1 new2 :
  accounts s !! a = None ->
  let block := mkExecutionResult [tx_change a (Created new1); tx_change a (Changed new2 new1)] ∅ in
  exists s', revert (apply_one s block) [block] = Some s' /\
    accounts s' !! a = Some (mkAccountSubState new1 None ∅).
Proof.
  intros Ha. cbn zeta. unfold revert, apply_one, revert_one. cbn [reverse rev_append tx_changesets block_changesets foldl].
  change (entries Z.le (∅ : gmap Z AccountInfoChangeSet)) with (@nil (Z * AccountInfoChangeSet)).
  rewrite !apply_tx_change. cbn [accounts bytecodes apply_account foldl foldM mbind option_bind].
  rewrite Ha. unfold or_default. rewrite lookup_insert_eq, insert_insert_eq. cbn [from_option id].
  unfold reverse. cbn [rev_append foldM mbind option_bind tx_changesets block_changesets].
  change (entries Z.le (∅ : gmap Z AccountInfoChangeSet)) with (@nil (Z * AccountInfoChangeSet)).
  cbn [foldM mbind option_bind]. rewrite revert_tx_change. cbn [accounts bytecodes revert_account].
  rewrite lookup_insert_eq. cbn. rewrite revert_tx_change. cbn. eexists. split; [done|]. cbn.
  rewrite lookup_insert_eq. unfold or_default. rewrite lookup_delete_eq. done.
Qed.

(** ** Witnesses *)

Lemma bytecodes_apply_revert_witness :
  let s := mkSubStateData ∅ {[7 := (1, [0; 1])]} in
  let tx := mkTransactionChangeSet (mkReceipt TxLegacyType true 0 0 []) ∅ (list_to_map [(7, [0; 1]); (9, [2])]) in
  let cs := mkExecutionResult [tx; tx] ∅ in
  revert_deployed cs (bytecodes (apply_one s cs)) = Some (bytecodes s).
Proof.
  apply bytecodes_apply_revert. split; [apply (bool_decide_unpack _); vm_compute; exact I|].
  intros h. cbn [bytecodes]. unfold count.
  assert (E : (deployed (mkExecutionResult [mkTransactionChangeSet (mkReceipt TxLegacyType true 0 0 []) ∅
     (list_to_map [(7, [0; 1]); (9, [2])]); mkTransactionChangeSet (mkReceipt TxLegacyType true 0 0 []) ∅
     (list_to_map [(7, [0; 1]); (9, [2])])] ∅)).*1 = [7; 9; 7; 9]) by (vm_compute; reflexivity).
  rewrite E. rewrite !occurrences_cons. change (occurrences h []) with 0.
  destruct (decide (7 = h)) as [<-|]; [vm_compute; reflexivity|]. rewrite lookup_singleton_ne by done.
  destruct (decide (9 = h)); cbn; lia.
Defined.

Lemma revert_keeps_created_account_witness :
  exists s', revert (apply_one empty_substate
      (mkExecutionResult [tx_change 5 (Created (mkAccount 0 10 None)); tx_change 5 (Changed (mkAccount 1 9 None) (mkAccount 0 10 None))] ∅))
      [mkExecutionResult [tx_change 5 (Created (mkAccount 0 10 None)); tx_change 5 (Changed (mkAccount 1 9 None) (mkAccount 0 10 None))] ∅] = Some s' /\
    accounts s' !! 5 = Some (mkAccountSubState (mkAccount 0 10 None) None ∅).
Proof. apply (revert_keeps_created_account empty_substate). reflexivity. Defined.
