(* ===== verification/Chain.v ===== *)
(** * Side chains and block indices

    crates/executor/src/blockchain_tree: chain.rs ([Chain]: append, split, fork)
    and block_indices.rs ([BlockIndices]).  Consensus checks, the block executor
    and state providers are the trait parameters of the source. *)
From S2P Require Import Prelude Bytes BTree PoolInner Primitives Consensus SubState.

Record SealedBlockWithSenders := mkBlockWithSenders { sbs_block : SealedBlock; senders : list Z }.

Definition b_header (b : SealedBlockWithSenders) : SealedHeader := sb_header (sbs_block b).
Definition b_number (b : SealedBlockWithSenders) : Z := number (sh_header (b_header b)).
Definition b_hash (b : SealedBlockWithSenders) : Z := sh_hash (b_header b).
Definition b_parent_hash (b : SealedBlockWithSenders) : Z := parent_hash (sh_header (b_header b)).

(** The errors the tree raises itself, and those of its externals. *)
Inductive ExecError (E : Type) :=
| BlockNumberNotFoundInChain (block_number : Z)
| AppendChainDoesntConnect (chain_tip other_chain_fork : Z * Z)
| BlockChainIdConsistency (chain_id : Z)
| CanonicalChain (block_hash : Z)
| PendingBlockIsFinalized (block_number block_hash last_finalized : Z)
| PendingBlockIsInFuture (block_number block_hash last_finalized : Z)
| BlockHashNotFoundInChain (block_hash : Z)
| SenderRecoveryError
| External (e : E).
Arguments BlockNumberNotFoundInChain {E} _.
Arguments AppendChainDoesntConnect {E} _ _.
Arguments BlockChainIdConsistency {E} _.
Arguments CanonicalChain {E} _.
Arguments PendingBlockIsFinalized {E} _ _ _.
Arguments PendingBlockIsInFuture {E} _ _ _.
Arguments BlockHashNotFoundInChain {E} _.
Arguments SenderRecoveryError {E}.
Arguments External {E} _.

Definition external {E A} (o : outcome E A) : outcome (ExecError E) A :=
  match o with Ok a => Ok a | Err e => Err (External e) | Panic => Panic | Diverge => Diverge end.

(** ** chain.rs *)

Abbreviation BlockChainId := Z.

Record Chain := mkChain {
  substate : SubStateData;
  changesets : list ExecutionResult;
  blocks : gmap Z SealedBlockWithSenders
}.

Record ForkBlock := mkForkBlock { fb_number : Z; fb_hash : Z }.

Definition num_hash (f : ForkBlock) : Z * Z := (fb_number f, fb_hash f).

(** [first] and [tip]; [None] is the failed [expect]. *)
Definition first (c : Chain) : option SealedBlockWithSenders := snd <$> first_key_value Z.le (blocks c).
Definition tip (c : Chain) : option SealedBlockWithSenders := snd <$> last_key_value Z.le (blocks c).

Definition fork_block (c : Chain) : option ForkBlock :=
  b ← first c;
  Some (mkForkBlock (saturating_sub (b_number b) 1) (b_parent_hash b)).

Definition Chain_new (bs : list (SealedBlockWithSenders * ExecutionResult)) : Chain :=
  let changesets := bs.*2 in
  (* a later block of the same number replaces an earlier one *)
  let blocks := foldl (fun m b => <[b_number b := b]> m) ∅ bs.*1 in
  mkChain (apply_changesets empty_substate changesets) changesets blocks.

Definition or_panic {E A} (o : option A) : outcome E A :=
  match o with Some a => Ok a | None => Panic end.

(** The trait [Consensus], and the executor that [ExecutorFactory::with_sp] builds
    on a substate, a provider and the known block hashes. *)
Record Executor (SP E : Type) := mkExecutor {
  ex_validate_header : SealedHeader -> Z -> outcome E unit;
  ex_pre_validate_header : SealedHeader -> SealedHeader -> outcome E unit;
  ex_pre_validate_block : SealedBlock -> outcome E unit;
  execute_and_verify_receipt :
    SubStateData -> SP -> gmap Z Z -> gmap Z Z -> SealedBlock -> Z -> list Z -> outcome E ExecutionResult
}.
Arguments ex_validate_header {SP E} _ _ _.
Arguments ex_pre_validate_header {SP E} _ _ _.
Arguments ex_pre_validate_block {SP E} _ _.
Arguments execute_and_verify_receipt {SP E} _ _ _ _ _ _ _ _.

Definition U256_MAX : Z := 2 ^ 256 - 1.

Section Execute.
Context {SP E : Type} (ex : Executor SP E).

Definition validate_and_execute (block : SealedBlockWithSenders) (parent_block : SealedHeader)
    (s : SubStateData) (provider : SP) (side canonical : gmap Z Z) : outcome (ExecError E) ExecutionResult :=
  external (ex_validate_header ex (b_header block) U256_MAX);;
  external (ex_pre_validate_header ex (b_header block) parent_block);;
  external (ex_pre_validate_block ex (sbs_block block));;
  external (execute_and_verify_receipt ex s provider side canonical (sbs_block block) U256_MAX (senders block)).

Definition new_canonical_fork (block : SealedBlockWithSenders) (parent_header : SealedHeader)
    (canonical_block_hashes : gmap Z Z) (provider : SP) : outcome (ExecError E) Chain :=
  changeset ← validate_and_execute block parent_header empty_substate provider ∅ canonical_block_hashes;
  Ok (Chain_new [(block, changeset)]).

Definition new_chain_fork (c : Chain) (block : SealedBlockWithSenders)
    (side_chain_block_hashes canonical_block_hashes : gmap Z Z) (provider : SP) : outcome (ExecError E) Chain :=
  let parent_number := wrap 64 (b_number block - 1) in
  parent ← ok_or (blocks c !! parent_number) (BlockNumberNotFoundInChain parent_number);
  t ← or_panic (tip c);
  (* usize arithmetic; slicing past the end panics *)
  let revert_from := wrap 64 (zlen (changesets c) - wrap 64 (b_number t - b_number parent)) in
  if zlen (changesets c) <? revert_from then Panic
  else
    s ← or_panic (revert (substate c) (drop (Z.to_nat revert_from) (changesets c)));
    changeset ← validate_and_execute block (b_header parent) s provider side_chain_block_hashes canonical_block_hashes;
    Ok (mkChain (apply_one s changeset) [changeset] {[b_number block := block]}).

Definition append_block (c : Chain) (block : SealedBlockWithSenders)
    (side_chain_block_hashes canonical_block_hashes : gmap Z Z) (provider : SP) : outcome (ExecError E) Chain :=
  parent_block ← or_panic (tip c);
  changeset ← validate_and_execute block (b_header parent_block) (substate c) provider
                side_chain_block_hashes canonical_block_hashes;
  Ok (mkChain (apply_one (substate c) changeset) (changesets c ++ [changeset]) (<[b_number block := block]> (blocks c))).
End Execute.

Definition append_chain {E} (self chain : Chain) : outcome (ExecError E) Chain :=
  chain_tip ← or_panic (tip self);
  fork ← or_panic (fork_block chain);
  if negb (b_hash chain_tip =? fb_hash fork) then
    Err (AppendChainDoesntConnect (b_number chain_tip, b_hash chain_tip) (num_hash fork))
  else Ok (mkChain (substate chain) (changesets self ++ changesets chain) (blocks chain ∪ blocks self)).

Inductive SplitAt := SplitNumber (n : Z) | SplitHash (h : Z).

Inductive ChainSplit :=
| NoSplitPending (c : Chain)
| NoSplitCanonical (c : Chain)
| Split (canonical pending : Chain).

(** Where a chain is cut: before everything, after everything, or after a number.
    [None] is a panic on an empty chain. *)
Inductive cut := CutPending | CutCanonical | CutAt (n : Z).

Definition find_cut (c : Chain) (split_at : SplitAt) : option cut :=
  '(chain_tip, _) ← last_key_value Z.le (blocks c);
  match split_at with
  | SplitHash block_hash =>
      match list_find (fun e => b_hash e.2 = block_hash) (entries Z.le (blocks c)) with
      | None => Some CutPending
      | Some (_, (block_number, _)) => Some (if block_number =? chain_tip then CutCanonical else CutAt block_number)
      end
  | SplitNumber block_number =>
      if chain_tip <=? block_number then Some CutCanonical
      else
        '(first_number, _) ← first_key_value Z.le (blocks c);
        Some (if block_number <? first_number then CutPending else CutAt block_number)
  end.

(** [BTreeMap::split_off]: the keys that stay, and those that are returned. *)
Definition lower (c : Chain) (k : Z) : gmap Z SealedBlockWithSenders := filter (fun e => e.1 < k) (blocks c).
Definition higher (c : Chain) (k : Z) : gmap Z SealedBlockWithSenders := filter (fun e => ~ e.1 < k) (blocks c).

(** [split]; [None] is a panic, on an empty chain or from [slice::split_at]. *)
Definition split (c : Chain) (split_at : SplitAt) : option ChainSplit :=
  k ← find_cut c split_at;
  match k with
  | CutPending => Some (NoSplitPending c)
  | CutCanonical => Some (NoSplitCanonical c)
  | CutAt block_number =>
      let at_ := wadd 64 block_number 1 in
      let mid := size (lower c at_) in
      if (length (changesets c) <? mid)%nat then None
      else Some (Split (mkChain empty_substate (take mid (changesets c)) (lower c at_))
                       (mkChain (substate c) (drop mid (changesets c)) (higher c at_)))
  end.

(** ** block_indices.rs *)

Record BlockIndices := mkBlockIndices {
  last_finalized_block : Z;
  num_of_additional_canonical_block_hashes : Z;
  canonical_chain : gmap Z Z;
  fork_to_child : gmap Z (gset Z);
  blocks_to_chain : gmap Z BlockChainId;
  index_number_to_block : gmap Z (gset Z)
}.

Definition BlockIndices_new (last_finalized num_additional : Z) (canonical : gmap Z Z) : BlockIndices :=
  mkBlockIndices last_finalized num_additional canonical ∅ ∅ ∅.

Definition contains_pending_block_hash (i : BlockIndices) (h : Z) : bool :=
  bool_decide (is_Some (blocks_to_chain i !! h)).

Definition is_block_hash_canonical (i : BlockIndices) (h : Z) : bool :=
  existsb (fun e => (last_finalized_block i <=? e.1) && (e.2 =? h)) (entries Z.le (canonical_chain i)).

(** [entry(k).or_default().insert(h)] and the removal that drops an empty set. *)
Definition multi_insert (k h : Z) (m : gmap Z (gset Z)) : gmap Z (gset Z) :=
  <[k := {[h]} ∪ default ∅ (m !! k)]> m.
Definition multi_remove (k h : Z) (m : gmap Z (gset Z)) : gmap Z (gset Z) :=
  match m !! k with
  | None => m
  | Some s => if decide (s ∖ {[h]} = ∅) then delete k m else <[k := s ∖ {[h]}]> m
  end.

Definition insert_non_fork_block (block_number block_hash : Z) (chain_id : BlockChainId) (i : BlockIndices)
    : BlockIndices :=
  mkBlockIndices (last_finalized_block i) (num_of_additional_canonical_block_hashes i) (canonical_chain i)
    (fork_to_child i) (<[block_hash := chain_id]> (blocks_to_chain i))
    (multi_insert block_number block_hash (index_number_to_block i)).

Definition add_fork_child (parent child : Z) (i : BlockIndices) : BlockIndices :=
  mkBlockIndices (last_finalized_block i) (num_of_additional_canonical_block_hashes i) (canonical_chain i)
    (multi_insert parent child (fork_to_child i)) (blocks_to_chain i) (index_number_to_block i).

(** [insert_chain]; [None] is the [expect] on an empty chain. *)
Definition indices_insert_chain (chain_id : BlockChainId) (chain : Chain) (i : BlockIndices) : option BlockIndices :=
  let i := foldl (fun i e => insert_non_fork_block e.1 (b_hash e.2) chain_id i) i (entries Z.le (blocks chain)) in
  f ← first chain;
  Some (add_fork_child (b_parent_hash f) (b_hash f) i).

Definition get_blocks_chain_id (i : BlockIndices) (h : Z) : option BlockChainId := blocks_to_chain i !! h.

(** The two-pointer loop of [update_block_hashes]. *)
Fixpoint mismatches (new_hashes : list (Z * Z)) : list (Z * Z) -> list (Z * Z) :=
  fix go old_hashes :=
    match old_hashes with
    | [] => []
    | old :: old_rest =>
        match new_hashes with
        | [] => old_hashes
        | new :: new_rest =>
            if new.1 <? old.1 then mismatches new_rest old_hashes
            else if new.1 =? old.1 then
              (if negb (new.2 =? old.2) then [old] else []) ++ mismatches new_rest old_rest
            else old :: go old_rest
        end
    end.

(** The chains of the fork children, which leave the block index. *)
Definition take_children (children : gset Z) (m : gmap Z BlockChainId) : gset BlockChainId * gmap Z BlockChainId :=
  (set_omap (fun c => m !! c) children, filter (fun e => e.1 ∉ children) m).

Definition remove_block (block_number block_hash : Z) (i : BlockIndices) : gset BlockChainId * BlockIndices :=
  let '(lose, b2c) := take_children (default ∅ (fork_to_child i !! block_hash)) (delete block_hash (blocks_to_chain i)) in
  (lose, mkBlockIndices (last_finalized_block i) (num_of_additional_canonical_block_hashes i) (canonical_chain i)
     (delete block_hash (fork_to_child i)) b2c (multi_remove block_number block_hash (index_number_to_block i))).

Definition remove_blocks (l : list (Z * Z)) (i : BlockIndices) : gset BlockChainId * BlockIndices :=
  foldl (fun '(lose, i) e => let '(lose', i) := remove_block e.1 e.2 i in (lose ∪ lose', i)) (∅, i) l.

Definition update_block_hashes (hashes : gmap Z Z) (i : BlockIndices) : gset BlockChainId * BlockIndices :=
  let remove := mismatches (entries Z.le hashes) (entries Z.le (canonical_chain i)) in
  remove_blocks remove
    (mkBlockIndices (last_finalized_block i) (num_of_additional_canonical_block_hashes i) hashes
       (fork_to_child i) (blocks_to_chain i) (index_number_to_block i)).

Definition remove_chain (chain : Chain) (i : BlockIndices) : gset BlockChainId * BlockIndices :=
  remove_blocks ((fun e => (e.1, b_hash e.2)) <$> entries Z.le (blocks chain)) i.

Definition canonicalize_one (i : BlockIndices) (b : SealedBlockWithSenders) : BlockIndices :=
  mkBlockIndices (last_finalized_block i) (num_of_additional_canonical_block_hashes i) (canonical_chain i)
    (multi_remove (b_parent_hash b) (b_hash b) (fork_to_child i))
    (delete (b_hash b) (blocks_to_chain i))
    (multi_remove (b_number b) (b_hash b) (index_number_to_block i)).

Definition set_canonical (m : gmap Z Z) (i : BlockIndices) : BlockIndices :=
  mkBlockIndices (last_finalized_block i) (num_of_additional_canonical_block_hashes i) m
    (fork_to_child i) (blocks_to_chain i) (index_number_to_block i).

Definition canonicalize_blocks (bs : gmap Z SealedBlockWithSenders) (i : BlockIndices) : BlockIndices :=
  match first_key_value Z.le bs with
  | None => i
  | Some (first_number, _) =>
      let i := set_canonical (filter (fun e => e.1 < first_number) (canonical_chain i)) i in
      let i := foldl canonicalize_one i (entries Z.le bs).*2 in
      set_canonical ((b_hash <$> bs) ∪ canonical_chain i) i
  end.

(** The chains lost to one finalized block. *)
Definition finalize_one (acc : gset BlockChainId * BlockIndices) (block_hash : Z) : gset BlockChainId * BlockIndices :=
  let '(lose, i) := acc in
  match fork_to_child i !! block_hash with
  | None => (lose, i)
  | Some fork_blocks =>
      let '(lose', b2c) := take_children fork_blocks (blocks_to_chain i) in
      (lose ∪ lose', mkBlockIndices (last_finalized_block i) (num_of_additional_canonical_block_hashes i)
         (canonical_chain i) (delete block_hash (fork_to_child i)) b2c (index_number_to_block i))
  end.

Definition finalize_canonical_blocks (finalized_block : Z) (i : BlockIndices) : gset BlockChainId * BlockIndices :=
  let finalized_blocks :=
    (filter (fun e => last_finalized_block i <= e.1 < finalized_block) (entries Z.le (canonical_chain i))).*2 in
  let remove_until := saturating_sub finalized_block (num_of_additional_canonical_block_hashes i) in
  let i := set_canonical (filter (fun e => remove_until <= e.1) (canonical_chain i)) i in
  let '(lose, i) := foldl finalize_one (∅, i) finalized_blocks in
  (lose, mkBlockIndices finalized_block (num_of_additional_canonical_block_hashes i) (canonical_chain i)
           (fork_to_child i) (blocks_to_chain i) (index_number_to_block i)).

Definition canonical_hash (i : BlockIndices) (block_number : Z) : option Z := canonical_chain i !! block_number.

Definition canonical_tip (i : BlockIndices) : option ForkBlock :=
  (fun e => mkForkBlock e.1 e.2) <$> last_key_value Z.le (canonical_chain i).
