(* ===== verification/ChainProofs.v ===== *)
(** * Theorems about side chains and block indices

    The comparison loop of [update_block_hashes] against its specification, and
    the round trip between splitting a chain and appending the parts. *)
From S2P Require Import Prelude Bytes BTree PoolInner Primitives Consensus SubState Chain.

(** ** [update_block_hashes] *)

Definition ascending (l : list (Z * Z)) : Prop := StronglySorted (fun x y => strict Z.le x.1 y.1) l.

Lemma ascending_not_in (x : Z * Z) (l : list (Z * Z)) : Forall (fun y => strict Z.le x.1 y.1) l -> forall y, y.1 <= x.1 -> y ∉ l.
Proof. intros Hx y Hy Hin. rewrite Forall_forall in Hx. specialize (Hx _ Hin). unfold strict in Hx. lia. Qed.

Lemma mismatches_cons n new o old :
  mismatches (n :: new) (o :: old) =
  if n.1 <? o.1 then mismatches new (o :: old)
  else if n.1 =? o.1 then (if negb (n.2 =? o.2) then [o] else []) ++ mismatches new old
  else o :: mismatches (n :: new) old.
Proof. reflexivity. Qed.

Lemma mismatches_filter new old :
  ascending new -> ascending old -> mismatches new old = filter (fun e => e ∉ new) old.
Proof.
  intros Hn. revert old. induction Hn as [|n new Hn IHn Hall]; intros old Ho.
  { rewrite filter_all; [by destruct old|]. apply Forall_forall. intros e _. apply not_elem_of_nil. }
  induction Ho as [|o old Ho IHo Hold]; [done|].
  assert (Hgt : forall e, e ∈ old -> o.1 < e.1).
  { intros e He. rewrite Forall_forall in Hold. specialize (Hold _ He). unfold strict in Hold. lia. }
  rewrite mismatches_cons. destruct (Z.ltb_spec n.1 o.1) as [Hlt|Hge].
  - rewrite IHn by (by constructor). apply filter_ext_in. intros e He.
    rewrite not_elem_of_cons. enough (e <> n) by tauto. intros ->.
    apply elem_of_cons in He as [->|He%Hgt]; lia.
  - destruct (Z.eqb_spec n.1 o.1) as [Heq|Hne].
    + rewrite IHn by done. rewrite filter_cons.
      assert (Hno : o ∉ new) by (apply (ascending_not_in n); [done|lia]).
      assert (Hrest : filter (fun e => e ∉ new) old = filter (fun e => e ∉ n :: new) old).
      { apply filter_ext_in. intros e He%Hgt. rewrite not_elem_of_cons. enough (e <> n) by tauto. intros ->. lia. }
      rewrite Hrest. destruct n as [n1 n2], o as [o1 o2]. cbn in *. subst o1.
      destruct (Z.eqb_spec n2 o2) as [->|Hd]; cbn; case_decide as Hc; try done; exfalso.
      * apply Hc. apply list_elem_of_here.
      * apply elem_of_cons in Hc as [[= ?]|?]; [by subst|done].
    + rewrite filter_cons, decide_True; [by rewrite <- IHo|]. apply not_elem_of_cons.
      split; [intros ->; lia|]. apply (ascending_not_in n); [done|lia].
Qed.

(** The two-pointer comparison of [update_block_hashes] finds exactly the old
    canonical entries that the new canonical hashes do not confirm, whatever the two
    ranges of block numbers are. *)
Theorem update_hashes_mismatches (new old : gmap Z Z) :
  mismatches (entries Z.le new) (entries Z.le old) =
  filter (fun e => new !! e.1 <> Some e.2) (entries Z.le old).
Proof.
  rewrite mismatches_filter by apply (entries_strict Z.le).
  apply filter_ext_in. intros [n h] _. cbn. by rewrite (elem_of_entries Z.le).
Qed.

(** ** [split] and [append_chain] *)

(** The blocks of a chain: numbered by their keys, without gaps, each the parent
    of the next, with one change set per block. *)
Record chain_wf (c : Chain) : Prop := {
  wf_nonempty : blocks c <> ∅;
  wf_number : forall n b, blocks c !! n = Some b -> b_number b = n /\ 0 < n < 2 ^ 64 - 1;
  wf_contiguous : forall n m k, is_Some (blocks c !! n) -> is_Some (blocks c !! m) -> n <= k <= m -> is_Some (blocks c !! k);
  wf_linked : forall n b b', blocks c !! n = Some b -> blocks c !! (n + 1) = Some b' -> b_parent_hash b' = b_hash b;
  wf_changesets : length (changesets c) = size (blocks c)
}.

Lemma first_key_unique {V} (m : gmap Z V) k v :
  m !! k = Some v -> (forall k', is_Some (m !! k') -> k <= k') -> first_key_value Z.le m = Some (k, v).
Proof.
  intros Hk Hmin. destruct (first_key_value Z.le m) as [[k0 v0]|] eqn:E.
  - apply (first_key_value_Some Z.le) in E as [H0 Hle]. assert (k = k0) as ->; [|congruence].
    apply Z.le_antisymm; [by apply Hmin; eexists|by eapply Hle].
  - apply (first_key_value_None Z.le) in E. by rewrite E in Hk.
Qed.

Lemma last_key_unique {V} (m : gmap Z V) k v :
  m !! k = Some v -> (forall k', is_Some (m !! k') -> k' <= k) -> last_key_value Z.le m = Some (k, v).
Proof.
  intros Hk Hmax. destruct (last_key_value Z.le m) as [[k0 v0]|] eqn:E.
  - apply (last_key_value_Some Z.le) in E as [H0 Hle]. assert (k = k0) as ->; [|congruence].
    apply Z.le_antisymm; [by eapply Hle|by apply Hmax; eexists].
  - apply (last_key_value_None Z.le) in E. by rewrite E in Hk.
Qed.

(** A cut lies strictly inside the chain. *)
Lemma find_cut_inside c at_ k :
  chain_wf c -> find_cut c at_ = Some (CutAt k) -> is_Some (blocks c !! k) /\ is_Some (blocks c !! (k + 1)).
Proof.
  intros Hc Hf. unfold find_cut in Hf. destruct (last_key_value Z.le (blocks c)) as [[t bt]|] eqn:Et; [|done].
  apply (last_key_value_Some Z.le) in Et as [Ht Hmax]. cbn in Hf. destruct at_ as [n|h].
  - destruct (Z.leb_spec t n); [done|]. destruct (first_key_value Z.le (blocks c)) as [[f bf]|] eqn:Ef; [|done].
    apply (first_key_value_Some Z.le) in Ef as [Hff _]. cbn in Hf. destruct (Z.ltb_spec n f); simplify_eq.
    split; apply (wf_contiguous c Hc f t); try (by eexists); lia.
  - destruct (list_find _ _) as [[i [n b]]|] eqn:El; [|done]. apply list_find_Some in El as (El & _).
    apply list_elem_of_lookup_2, (elem_of_entries Z.le) in El. destruct (Z.eqb_spec n t) as [|Hne]; simplify_eq.
    split; [by eexists|]. pose proof (Hmax _ _ El). apply (wf_contiguous c Hc k t); try (by eexists); lia.
Qed.

Lemma find_cut_total c at_ : blocks c <> ∅ -> is_Some (find_cut c at_).
Proof.
  intros Hne. unfold find_cut.
  destruct (last_key_value Z.le (blocks c)) as [[t bt]|] eqn:Et; [|by apply (last_key_value_None Z.le) in Et].
  destruct (first_key_value Z.le (blocks c)) as [[f bf]|] eqn:Ef; [|by apply (first_key_value_None Z.le) in Ef].
  cbn. destruct at_ as [n|h]; [by case_match|]. by repeat case_match.
Qed.

Lemma lower_lookup c k n b : lower c k !! n = Some b <-> blocks c !! n = Some b /\ n < k.
Proof. unfold lower. by rewrite map_lookup_filter_Some. Qed.
Lemma higher_lookup c k n b : higher c k !! n = Some b <-> blocks c !! n = Some b /\ k <= n.
Proof. unfold higher. rewrite map_lookup_filter_Some. cbn. rewrite Z.nlt_ge. done. Qed.

Lemma split_union c k : higher c k ∪ lower c k = blocks c.
Proof.
  apply map_eq. intros n. destruct (blocks c !! n) as [b|] eqn:E.
  - destruct (Z_lt_le_dec n k) as [Hlt|Hge].
    + rewrite lookup_union_r; [by apply lower_lookup|]. apply eq_None_not_Some. intros [b' [_ ?]%higher_lookup]. lia.
    + apply lookup_union_Some_l. by apply higher_lookup.
  - apply lookup_union_None. split; apply eq_None_not_Some; [intros [b' [? _]%higher_lookup]|intros [b' [? _]%lower_lookup]]; congruence.
Qed.

Lemma lower_tip c k b : chain_wf c -> blocks c !! k = Some b -> last_key_value Z.le (lower c (k + 1)) = Some (k, b).
Proof.
  intros Hc Hk. apply last_key_unique; [apply lower_lookup; split; [done|lia]|].
  intros n [b' [_ ?]%lower_lookup]. lia.
Qed.

Lemma higher_first c k b :
  chain_wf c -> blocks c !! (k + 1) = Some b -> first_key_value Z.le (higher c (k + 1)) = Some (k + 1, b).
Proof.
  intros Hc Hk. apply first_key_unique; [apply higher_lookup; split; [done|lia]|].
  intros n [b' [_ ?]%higher_lookup]. lia.
Qed.

(** Splitting a well-formed chain never panics and loses nothing: either the
    whole chain is returned, or two parts are, the first holding the lower numbers,
    and [append_chain] of the second to the first accepts the link and gives back the
    chain, with its blocks, its change sets and its substate. *)
Theorem split_append_roundtrip {E} c at_ :
  chain_wf c ->
  exists r, split c at_ = Some r /\
    match r with
    | NoSplitPending c' | NoSplitCanonical c' => c' = c
    | Split canonical pending =>
        append_chain (E := E) canonical pending = Ok c /\
        forall n m, is_Some (blocks canonical !! n) -> is_Some (blocks pending !! m) -> n < m
    end.
Proof.
  intros Hc. destruct (find_cut_total c at_ (wf_nonempty c Hc)) as [cu Hcu]. unfold split. rewrite Hcu. cbn [mbind option_bind].
  destruct cu as [| |k]; [by eexists..|]. destruct (find_cut_inside c at_ k Hc Hcu) as [[b Hb] [b' Hb']].
  destruct (wf_number c Hc _ _ Hb) as [_ Hr]. rewrite wadd_small by (unfold in_u; lia).
  assert (Hsz : (size (lower c (k + 1)) <= length (changesets c))%nat).
  { rewrite (wf_changesets c Hc). apply map_subseteq_size, map_filter_subseteq. }
  destruct (Nat.ltb_spec (length (changesets c)) (size (lower c (k + 1)))); [lia|]. eexists. split; [done|]. split.
  - unfold append_chain, tip, fork_block, first. cbn [blocks changesets substate].
    rewrite (lower_tip c k b Hc Hb), (higher_first c k b' Hc Hb'). cbn.
    rewrite (wf_linked c Hc _ _ _ Hb Hb'), Z.eqb_refl. cbn. rewrite take_drop, split_union. by destruct c.
  - cbn. intros n m [? [_ ?]%lower_lookup] [? [_ ?]%higher_lookup]. lia.
Qed.

(** ** Witness *)

Definition sample_chain_block (n hash parent : Z) : SealedBlockWithSenders :=
  mkBlockWithSenders (mkSealedBlock (mkSealedHeader
    (mkHeader parent 0 0 0 0 0 None 0 0 n 0 0 0 0 0 None []) hash) [] [] None) [].
Definition sample_chain : Chain :=
  mkChain empty_substate [mkExecutionResult [] ∅; mkExecutionResult [] ∅]
    {[1 := sample_chain_block 1 11 10; 2 := sample_chain_block 2 12 11]}.

Lemma sample_chain_lookup n b :
  blocks sample_chain !! n = Some b <->
  (n = 1 /\ b = sample_chain_block 1 11 10) \/ (n = 2 /\ b = sample_chain_block 2 12 11).
Proof.
  cbn. rewrite lookup_insert_Some, lookup_singleton_Some. split; [|intros [[-> ->]|[-> ->]]; [by left|by right]].
  intros [[<- <-]|[_ [<- <-]]]; auto.
Qed.

Lemma sample_chain_wf : chain_wf sample_chain.
Proof.
  split.
  - done.
  - intros n b [[-> ->]|[-> ->]]%sample_chain_lookup; (split; [done|lia]).
  - intros n m k [b Hn] [b' Hm] Hk. apply sample_chain_lookup in Hn, Hm.
    assert (k = 1 \/ k = 2) as [-> | ->] by lia; by eexists.
  - intros n b b' Hn Hn'. apply sample_chain_lookup in Hn, Hn'. destruct Hn as [[-> ->]|[-> ->]], Hn' as [[? ->]|[? ->]]; try lia. done.
  - reflexivity.
Qed.

Lemma split_append_roundtrip_witness :
  exists r, split sample_chain (SplitHash 11) = Some r /\
    match r with
    | NoSplitPending c' | NoSplitCanonical c' => c' = sample_chain
    | Split canonical pending =>
        append_chain (E := unit) canonical pending = Ok sample_chain /\
        forall n m, is_Some (blocks canonical !! n) -> is_Some (blocks pending !! m) -> n < m
    end.
Proof. apply (split_append_roundtrip (E := unit)). apply sample_chain_wf. Defined.
