(* ===== verification/Tree.v ===== *)
(** * The blockchain tree

    crates/executor/src/blockchain_tree/mod.rs: inserting blocks, finalization,
    canonical hash updates and reorganisations.  The database is the parameter
    record [Db]; its transactions work on a copy that [tx_commit] installs.  The
    [while] loops of the source run on fuel and [Diverge] when it is spent. *)
From S2P Require Import Prelude Bytes BTree PoolInner Primitives Consensus SubState Chain.

(** What the tree uses of the database. *)
Record Db (D SP E : Type) := mkDb {
  db_header : D -> Z -> outcome E (option Header);
  db_latest : D -> outcome E SP;
  db_history_by_block_number : D -> Z -> outcome E SP;
  (* the last [n] canonical hashes, from the tip down *)
  db_last_canonical : D -> Z -> outcome E (list (Z * Z));
  tx_insert_block : D -> SealedBlockWithSenders -> ExecutionResult -> outcome E D;
  tx_update_pipeline_stages : D -> Z -> outcome E D;
  tx_take_range : D -> Z -> outcome E (list (SealedBlockWithSenders * ExecutionResult) * D);
  tx_commit : D -> outcome E D
}.
Arguments db_header {D SP E} _ _ _.
Arguments db_latest {D SP E} _ _.
Arguments db_history_by_block_number {D SP E} _ _ _.
Arguments db_last_canonical {D SP E} _ _ _.
Arguments tx_insert_block {D SP E} _ _ _ _.
Arguments tx_update_pipeline_stages {D SP E} _ _ _.
Arguments tx_take_range {D SP E} _ _ _.
Arguments tx_commit {D SP E} _ _.

Record BlockchainTree (D : Type) := mkTree {
  chains : gmap BlockChainId Chain;
  block_chain_id_generator : Z;
  block_indices : BlockIndices;
  max_blocks_in_chain : Z;
  max_reorg_depth : Z;
  db : D
}.
Arguments mkTree {D} _ _ _ _ _ _.
Arguments chains {D} _.
Arguments block_chain_id_generator {D} _.
Arguments block_indices {D} _.
Arguments max_blocks_in_chain {D} _.
Arguments max_reorg_depth {D} _.
Arguments db {D} _.

(** [BTreeMap::from_iter] *)
Definition from_iter {V} (l : list (Z * V)) : gmap Z V := foldl (fun m e => <[e.1 := e.2]> m) ∅ l.

Section Tree.
Context {D SP E : Type} (dbi : Db D SP E) (ex : Executor SP E).
Implicit Types t : BlockchainTree D.

Definition set_chains (c : gmap BlockChainId Chain) t : BlockchainTree D :=
  mkTree c (block_chain_id_generator t) (block_indices t) (max_blocks_in_chain t) (max_reorg_depth t) (db t).
Definition set_indices (i : BlockIndices) t : BlockchainTree D :=
  mkTree (chains t) (block_chain_id_generator t) i (max_blocks_in_chain t) (max_reorg_depth t) (db t).
Definition set_db (d : D) t : BlockchainTree D :=
  mkTree (chains t) (block_chain_id_generator t) (block_indices t) (max_blocks_in_chain t) (max_reorg_depth t) d.

(** [BlockchainTree::new] *)
Definition tree_new (d : D) (max_reorg_depth max_blocks_in_chain num_additional : Z)
    : outcome (ExecError E) (BlockchainTree D) :=
  if max_blocks_in_chain <? max_reorg_depth then Panic
  else
    last_canonical_hashes ← external (db_last_canonical dbi d (wadd 64 max_reorg_depth num_additional));
    let last_finalized_block_number :=
      if max_reorg_depth <? zlen last_canonical_hashes
      then default 0 (fst <$> last_canonical_hashes !! Z.to_nat max_reorg_depth)
      else default 0 (fst <$> last last_canonical_hashes) in
    Ok (mkTree ∅ 0 (BlockIndices_new last_finalized_block_number num_additional (from_iter last_canonical_hashes))
          max_blocks_in_chain max_reorg_depth d).

(** [all_chain_hashes]; later chains overwrite, as [extend] does. *)
Fixpoint all_chain_hashes (fuel : nat) t (chain_id : BlockChainId) (hashes : gmap Z Z)
    : outcome (ExecError E) (gmap Z Z) :=
  match fuel with
  | O => Diverge
  | S fuel =>
      match chains t !! chain_id with
      | None => Ok hashes
      | Some chain =>
          let hashes := foldl (fun m e => <[b_number e.2 := b_hash e.2]> m) hashes (entries Z.le (blocks chain)) in
          fork ← or_panic (fork_block chain);
          match get_blocks_chain_id (block_indices t) (fb_hash fork) with
          | Some next_chain_id => all_chain_hashes fuel t next_chain_id hashes
          | None => Ok hashes
          end
      end
  end.

Fixpoint canonical_fork (fuel : nat) t (chain_id : BlockChainId) : outcome (ExecError E) (option ForkBlock) :=
  match fuel with
  | O => Diverge
  | S fuel =>
      match chains t !! chain_id with
      | None => Ok None
      | Some chain =>
          fork ← or_panic (fork_block chain);
          match get_blocks_chain_id (block_indices t) (fb_hash fork) with
          | Some fork_chain_id => canonical_fork fuel t fork_chain_id
          | None =>
              Ok (if decide (canonical_hash (block_indices t) (fb_number fork) = Some (fb_hash fork))
                  then Some fork else None)
          end
      end
  end.

(** [insert_chain] *)
Definition insert_chain (chain : Chain) : st (BlockchainTree D) (ExecError E) BlockChainId :=
  t ← st_get;
  let chain_id := block_chain_id_generator t in
  i ← st_lift (or_panic (indices_insert_chain chain_id chain (block_indices t)));
  st_put (mkTree (<[chain_id := chain]> (chains t)) (wadd 64 chain_id 1) i
            (max_blocks_in_chain t) (max_reorg_depth t) (db t));;
  mret chain_id.

(** The latest state, or the historical one at [number]. *)
Definition state_at (latest : bool) (d : D) (number : Z) : outcome (ExecError E) SP :=
  if latest then external (db_latest dbi d) else external (db_history_by_block_number dbi d number).

Definition canonical_tip_hash (i : BlockIndices) : Z :=
  default 0 (snd <$> last_key_value Z.le (canonical_chain i)).

Definition fork_side_chain (fuel : nat) (block : SealedBlockWithSenders) (chain_id : BlockChainId)
    : st (BlockchainTree D) (ExecError E) unit :=
  t ← st_get;
  let i := block_indices t in
  block_hashes ← st_lift (all_chain_hashes fuel t chain_id ∅);
  fork ← st_lift (canonical_fork fuel t chain_id);
  fork ← st_lift (ok_or fork (BlockChainIdConsistency chain_id));
  parent_chain ← st_lift (ok_or (chains t !! chain_id) (BlockChainIdConsistency chain_id));
  chain_tip ← st_lift (or_panic (tip parent_chain));
  provider ← st_lift (state_at (fb_hash fork =? canonical_tip_hash i) (db t) (fb_number fork));
  if b_hash chain_tip =? b_parent_hash block then
    c ← st_lift (append_block ex parent_chain block block_hashes (canonical_chain i) provider);
    st_put (set_indices (insert_non_fork_block (b_number block) (b_hash block) chain_id i)
              (set_chains (<[chain_id := c]> (chains t)) t))
  else
    c ← st_lift (new_chain_fork ex parent_chain block block_hashes (canonical_chain i) provider);
    insert_chain c;;
    mret tt.

Definition fork_canonical_chain (block : SealedBlockWithSenders) : st (BlockchainTree D) (ExecError E) unit :=
  t ← st_get;
  let i := block_indices t in
  parent_header ← st_lift (external (db_header dbi (db t) (b_parent_hash block)));
  parent_header ← st_lift (ok_or parent_header (CanonicalChain (b_parent_hash block)));
  provider ← st_lift (state_at (b_parent_hash block =? canonical_tip_hash i) (db t) (wrap 64 (b_number block - 1)));
  c ← st_lift (new_canonical_fork ex block (mkSealedHeader parent_header (b_parent_hash block))
                 (canonical_chain i) provider);
  insert_chain c;;
  mret tt.

Definition insert_block_with_senders (fuel : nat) (block : SealedBlockWithSenders)
    : st (BlockchainTree D) (ExecError E) bool :=
  t ← st_get;
  let i := block_indices t in
  let last := last_finalized_block i in
  if b_number block <=? last then
    st_throw (PendingBlockIsFinalized (b_number block) (b_hash block) last)
  else if wadd 64 last (max_blocks_in_chain t) <? b_number block then
    st_throw (PendingBlockIsInFuture (b_number block) (b_hash block) last)
  else if contains_pending_block_hash i (b_hash block) then mret true
  else if decide (canonical_hash i (b_number block) = Some (b_hash block)) then mret true
  else
    match get_blocks_chain_id i (b_parent_hash block) with
    | Some parent_chain => fork_side_chain fuel block parent_chain;; mret true
    | None =>
        if decide (Some (b_parent_hash block) = canonical_hash i (wrap 64 (b_number block - 1)))
        then fork_canonical_chain block;; mret true
        else mret false
    end.

(** [insert_block]; signature recovery of the body is external. *)
Definition insert_block (recover : SealedBlock -> option (list Z)) (fuel : nat) (block : SealedBlock)
    : st (BlockchainTree D) (ExecError E) bool :=
  ss ← st_lift (ok_or (recover block) SenderRecoveryError);
  insert_block_with_senders fuel (mkBlockWithSenders block ss).

(** One turn of the removal loops: drop the chain, collect its dependants. *)
Definition drop_chain (chain_id : BlockChainId) (t : BlockchainTree D) : gset BlockChainId * BlockchainTree D :=
  match chains t !! chain_id with
  | None => (∅, t)
  | Some chain =>
      let '(lose, i) := remove_chain chain (block_indices t) in
      (lose, set_indices i (set_chains (delete chain_id (chains t)) t))
  end.

(** The smallest element of a [BTreeSet] of chain ids. *)
Definition set_first (s : gset BlockChainId) : option BlockChainId := List.head (merge_sort Z.le (elements s)).

(** The loop of [finalize_block], which pops the id it removes. *)
Fixpoint pop_chains (fuel : nat) (remove_chains : gset BlockChainId) (t : BlockchainTree D)
    : outcome (ExecError E) (BlockchainTree D) :=
  match fuel with
  | O => Diverge
  | S fuel =>
      match set_first remove_chains with
      | None => Ok t
      | Some chain_id =>
          let '(lose, t) := drop_chain chain_id t in
          pop_chains fuel ((remove_chains ∖ {[chain_id]}) ∪ lose) t
      end
  end.

(** [finalize_block] on the tree as a value. *)
Definition finalize_tree (fuel : nat) (finalized_block : Z) (t : BlockchainTree D)
    : outcome (ExecError E) (BlockchainTree D) :=
  let '(remove_chains, i) := finalize_canonical_blocks finalized_block (block_indices t) in
  pop_chains fuel remove_chains (set_indices i t).

Definition finalize_block (fuel : nat) (finalized_block : Z) : st (BlockchainTree D) (ExecError E) unit :=
  t ← st_get;
  t' ← st_lift (finalize_tree fuel finalized_block t);
  st_put t'.

(** The loop of [update_canonical_hashes], which reads the first id without
    removing it from the set. *)
Fixpoint peek_chains (fuel : nat) (remove_chains : gset BlockChainId) (t : BlockchainTree D)
    : outcome (ExecError E) (BlockchainTree D) :=
  match fuel with
  | O => Diverge
  | S fuel =>
      match set_first remove_chains with
      | None => Ok t
      | Some chain_id =>
          let '(lose, t) := drop_chain chain_id t in
          peek_chains fuel (remove_chains ∪ lose) t
      end
  end.

Definition update_canonical_hashes (fuel : nat) (last_finalized_block : Z) : st (BlockchainTree D) (ExecError E) unit :=
  finalize_block fuel last_finalized_block;;
  t ← st_get;
  hashes ← st_lift (external (db_last_canonical dbi (db t)
              (wadd 64 (max_reorg_depth t) (num_of_additional_canonical_block_hashes (block_indices t)))));
  let '(remove_chains, i) := update_block_hashes (from_iter hashes) (block_indices t) in
  t' ← st_lift (peek_chains fuel remove_chains (set_indices i t));
  st_put t'.

Definition split_chain (chain_id : BlockChainId) (chain : Chain) (split_at : SplitAt)
    : st (BlockchainTree D) (ExecError E) Chain :=
  r ← st_lift (or_panic (split chain split_at));
  match r with
  | Split canonical pending =>
      t ← st_get;
      i ← st_lift (or_panic (indices_insert_chain chain_id pending (block_indices t)));
      st_put (set_indices i (set_chains (<[chain_id := pending]> (chains t)) t));;
      mret canonical
  | NoSplitCanonical canonical => mret canonical
  | NoSplitPending _ => st_panic
  end.

(** [self.chains.remove(&chain_id).expect(..)] *)
Definition take_chain (chain_id : BlockChainId) : st (BlockchainTree D) (ExecError E) Chain :=
  t ← st_get;
  chain ← st_lift (or_panic (chains t !! chain_id));
  st_put (set_chains (delete chain_id (chains t)) t);;
  mret chain.

(** The loop of [make_canonical] that collects the chains below, the lowest last. *)
Fixpoint promote (fuel : nat) (block_fork : ForkBlock) (block_fork_number : Z) (chains_to_promote : list Chain)
    : st (BlockchainTree D) (ExecError E) (list Chain) :=
  match fuel with
  | O => st_lift Diverge
  | S fuel =>
      t ← st_get;
      match get_blocks_chain_id (block_indices t) (fb_hash block_fork) with
      | None => mret chains_to_promote
      | Some chain_id =>
          chain ← take_chain chain_id;
          block_fork ← st_lift (or_panic (fork_block chain));
          canonical ← split_chain chain_id chain (SplitNumber block_fork_number);
          f ← st_lift (or_panic (fork_block canonical));
          promote fuel block_fork (fb_number f) (chains_to_promote ++ [canonical])
      end
  end.

(** Appending the collected chains, the [expect] turning an error into a panic. *)
Fixpoint append_all (acc : Chain) (cs : list Chain) : outcome (ExecError E) Chain :=
  match cs with
  | [] => Ok acc
  | c :: cs =>
      match append_chain (E := E) acc c with
      | Ok acc => append_all acc cs
      | Err _ => Panic
      | Panic => Panic
      | Diverge => Diverge
      end
  end.

Fixpoint tx_insert_blocks (d : D) (items : list (SealedBlockWithSenders * ExecutionResult)) : outcome E D :=
  match items with
  | [] => Ok d
  | (b, c) :: items => d ← tx_insert_block dbi d b c; tx_insert_blocks d items
  end.

Definition commit_canonical (chain : Chain) : st (BlockchainTree D) (ExecError E) unit :=
  t ← st_get;
  new_tip ← st_lift (or_panic (tip chain));
  d ← st_lift (external (tx_insert_blocks (db t) (zip (entries Z.le (blocks chain)).*2 (changesets chain))));
  d ← st_lift (external (tx_update_pipeline_stages dbi d (b_number new_tip)));
  d ← st_lift (external (tx_commit dbi d));
  st_put (set_db d t).

Definition revert_canonical (revert_until : Z) : st (BlockchainTree D) (ExecError E) Chain :=
  t ← st_get;
  '(blocks_and_execution, d) ← st_lift (external (tx_take_range dbi (db t) (wadd 64 revert_until 1)));
  d ← st_lift (external (tx_update_pipeline_stages dbi d revert_until));
  d ← st_lift (external (tx_commit dbi d));
  st_put (set_db d t);;
  mret (Chain_new blocks_and_execution).

(** The second half of [make_canonical]: index the merged chain as canonical, then
    append it to the database, or unwind the old canonical blocks first and keep them
    as a side chain. *)
Definition install_canonical (old_tip : ForkBlock) (new_canon_chain : Chain)
    : st (BlockchainTree D) (ExecError E) unit :=
  t ← st_get;
  st_put (set_indices (canonicalize_blocks (blocks new_canon_chain) (block_indices t)) t);;
  canon_fork ← st_lift (or_panic (fork_block new_canon_chain));
  if fb_hash canon_fork =? fb_hash old_tip then commit_canonical new_canon_chain
  else
    t ← st_get;
    if decide (canonical_hash (block_indices t) (fb_number canon_fork) = Some (fb_hash canon_fork)) then
      old_canon_chain ← revert_canonical (fb_number canon_fork);
      commit_canonical new_canon_chain;;
      insert_chain old_canon_chain;;
      mret tt
    else st_panic.

Definition make_canonical (fuel : nat) (block_hash : Z) : st (BlockchainTree D) (ExecError E) unit :=
  t ← st_get;
  match get_blocks_chain_id (block_indices t) block_hash with
  | None =>
      if is_block_hash_canonical (block_indices t) block_hash then mret tt
      else st_throw (BlockHashNotFoundInChain block_hash)
  | Some chain_id =>
      chain ← take_chain chain_id;
      canonical ← split_chain chain_id chain (SplitHash block_hash);
      block_fork ← st_lift (or_panic (fork_block canonical));
      chains_to_promote ← promote fuel block_fork (fb_number block_fork) [canonical];
      t ← st_get;
      old_tip ← st_lift (or_panic (canonical_tip (block_indices t)));
      new_canon_chain ←
        match reverse chains_to_promote with
        | [] => st_panic
        | lowest :: rest => st_lift (append_all lowest rest)
        end;
      install_canonical old_tip new_canon_chain
  end.
End Tree.
