(* ===== verification/TreeProofs.v ===== *)
(** * The index invariant of the blockchain tree

    Every hash of the block index leads to a chain of the tree that contains the
    block, which is what the [expect]s of [make_canonical] rely on; every operation
    preserves it, and finalization terminates. *)
From S2P Require Import Prelude Bytes BTree PoolInner Primitives Consensus SubState Chain ChainProofs Tree.

(** ** What the externals promise *)

(** A header that passes pre-validation has its parent's successor number. *)
Class ExecutorOk {SP E} (ex : Executor SP E) := {
  ok_pre_validate h p u :
    ex_pre_validate_header ex h p = Ok u -> number (sh_header h) = wadd 64 (number (sh_header p)) 1
}.

(** The database returns blocks of the range it was asked for. *)
Class DbOk {D SP E} (dbi : Db D SP E) := {
  ok_take_range d n bs d' :
    tx_take_range dbi d n = Ok (bs, d') -> Forall (fun x => n <= b_number x.1 < 2 ^ 64) bs
}.

(** ** The invariant *)

Definition chain_has (c : Chain) (h : Z) : Prop := exists n b, blocks c !! n = Some b /\ b_hash b = h.

Definition numbered (m : gmap Z SealedBlockWithSenders) : Prop :=
  forall n b, m !! n = Some b -> b_number b = n /\ 1 <= n < 2 ^ 64.

Definition chain_ok (c : Chain) : Prop := blocks c <> ∅ /\ numbered (blocks c).

(** The invariant up to hashes in [P], which belong to chains being moved. *)
Record tree_inv_but {D} (P : Z -> Prop) (t : BlockchainTree D) : Prop := {
  ti_index : forall h id, blocks_to_chain (block_indices t) !! h = Some id ->
    (exists c, chains t !! id = Some c /\ chain_has c h) \/ P h;
  ti_fresh : forall id, is_Some (chains t !! id) -> id < block_chain_id_generator t;
  ti_chains : map_Forall (fun _ c => chain_ok c) (chains t);
  ti_final : 0 <= last_finalized_block (block_indices t);
  ti_generator : 0 <= block_chain_id_generator t
}.

Definition tree_inv {D} (t : BlockchainTree D) : Prop := tree_inv_but (fun _ => False) t.

Lemma tree_inv_weaken {D} (P Q : Z -> Prop) (t : BlockchainTree D) :
  (forall h, P h -> Q h) -> tree_inv_but P t -> tree_inv_but Q t.
Proof. intros H []. split; auto. intros h id Hh. destruct (ti_index0 h id Hh); auto. Qed.

(** ** Index operations *)

(** The block index only shrinks. *)
Definition shrinks (i i' : BlockIndices) : Prop :=
  blocks_to_chain i' ⊆ blocks_to_chain i.

#[global] Instance shrinks_preorder : PreOrder shrinks.
Proof.
  split; [by intros i; unfold shrinks|]. intros i1 i2 i3 H1 H2. unfold shrinks in *. by transitivity (blocks_to_chain i2).
Qed.

Lemma take_children_subseteq ch m : (take_children ch m).2 ⊆ m.
Proof. apply map_filter_subseteq. Qed.

Lemma remove_block_shrinks n h i lose i' :
  remove_block n h i = (lose, i') ->
  shrinks i i' /\ blocks_to_chain i' !! h = None /\ last_finalized_block i' = last_finalized_block i.
Proof.
  unfold remove_block, take_children, shrinks. cbn. intros [= <- <-]. cbn. split_and!; [| |done].
  - transitivity (delete h (blocks_to_chain i)); [apply map_filter_subseteq|apply delete_subseteq].
  - apply map_lookup_filter_None. left. apply lookup_delete_eq.
Qed.

Lemma remove_blocks_shrinks l i lose0 lose i' :
  foldl (fun '(lose, i) e => let '(lose', i) := remove_block e.1 e.2 i in (lose ∪ lose', i)) (lose0, i) l = (lose, i') ->
  shrinks i i' /\ Forall (fun e => blocks_to_chain i' !! e.2 = None) l /\
  last_finalized_block i' = last_finalized_block i.
Proof.
  revert i lose0. induction l as [|[n h] l IH]; intros i lose0; cbn [foldl fst snd].
  { intros [= <- <-]. split_and!; [done|constructor|done]. }
  destruct (remove_block n h i) as [l1 i1] eqn:E. intros Hf.
  apply remove_block_shrinks in E as (S1 & N1 & F1). apply IH in Hf as (S2 & N2 & F2).
  split_and!; [exact (transitivity S1 S2)| |congruence]. constructor; [|done]. cbn.
  eapply lookup_weaken_None; [exact N1|done].
Qed.

Lemma remove_chain_shrinks c i lose i' :
  remove_chain c i = (lose, i') ->
  shrinks i i' /\ (forall h, chain_has c h -> blocks_to_chain i' !! h = None) /\
  last_finalized_block i' = last_finalized_block i.
Proof.
  intros (S & N & F)%remove_blocks_shrinks. split_and!; [done| |done].
  intros h (n & b & Hn & <-). rewrite Forall_forall in N. apply (N (n, b_hash b)).
  apply list_elem_of_fmap. exists (n, b). split; [done|]. by apply (elem_of_entries Z.le).
Qed.

Lemma finalize_one_shrinks l lose0 i lose i' :
  foldl finalize_one (lose0, i) l = (lose, i') -> shrinks i i'.
Proof.
  revert lose0 i. induction l as [|h l IH]; intros lose0 i; cbn; [intros [= <- <-]; done|].
  destruct (fork_to_child i !! h) as [ch|]; [|apply IH]. cbn. intros Hf%IH.
  etransitivity; [|exact Hf]. apply map_filter_subseteq.
Qed.

Lemma finalize_canonical_blocks_shrinks f i lose i' :
  finalize_canonical_blocks f i = (lose, i') -> shrinks i i' /\ last_finalized_block i' = f.
Proof.
  unfold finalize_canonical_blocks. destruct (foldl finalize_one _ _) as [l1 i1] eqn:E.
  intros [= <- <-]. apply finalize_one_shrinks in E. done.
Qed.

Lemma update_block_hashes_shrinks hashes i lose i' :
  update_block_hashes hashes i = (lose, i') -> shrinks i i' /\ last_finalized_block i' = last_finalized_block i.
Proof. intros (S & _ & F)%remove_blocks_shrinks. done. Qed.

Lemma canonicalize_one_shrinks l i :
  let i' := foldl canonicalize_one i l in
  shrinks i i' /\ Forall (fun b => blocks_to_chain i' !! b_hash b = None) l /\
  last_finalized_block i' = last_finalized_block i.
Proof.
  revert i. induction l as [|b l IH]; intros i; cbn; [split_and!; [done|constructor|done]|].
  destruct (IH (canonicalize_one i b)) as (S & N & F). cbn in F. split_and!; [| |done].
  - etransitivity; [|exact S]. apply delete_subseteq.
  - constructor; [|done]. eapply lookup_weaken_None; [|exact S]. apply lookup_delete_eq.
Qed.

Lemma canonicalize_blocks_shrinks bs i :
  let i' := canonicalize_blocks bs i in
  shrinks i i' /\ (forall n b, bs !! n = Some b -> blocks_to_chain i' !! b_hash b = None) /\
  last_finalized_block i' = last_finalized_block i.
Proof.
  unfold canonicalize_blocks. destruct (first_key_value Z.le bs) as [[f b0]|] eqn:E.
  - destruct (canonicalize_one_shrinks (entries Z.le bs).*2
      (set_canonical (filter (fun e => e.1 < f) (canonical_chain i)) i)) as (S & N & F).
    split_and!; [exact S| |exact F]. intros n b Hb. rewrite Forall_forall in N. apply N.
    apply list_elem_of_fmap. exists (n, b). split; [done|]. by apply (elem_of_entries Z.le).
  - apply (first_key_value_None Z.le) in E as ->. split_and!; [done| |done]. intros n b Hb. by rewrite lookup_empty in Hb.
Qed.

Lemma insert_non_fork_blocks_lookup id l i h id' :
  blocks_to_chain (foldl (fun i e => insert_non_fork_block e.1 (b_hash e.2) id i) i l) !! h = Some id' ->
  (id' = id /\ Exists (fun e => b_hash e.2 = h) l) \/ blocks_to_chain i !! h = Some id'.
Proof.
  revert i. induction l as [|[n b] l IH]; intros i; cbn; [by right|].
  intros [[-> ?]|Hh]%IH; [left; split; [done|by right]|]. cbn in Hh.
  apply lookup_insert_Some in Hh as [[<- <-]|[_ ?]]; [left; split; [done|by left]|by right].
Qed.

Lemma insert_non_fork_blocks_has id l i h :
  Exists (fun e => b_hash e.2 = h) l \/ blocks_to_chain i !! h = Some id ->
  blocks_to_chain (foldl (fun i e => insert_non_fork_block e.1 (b_hash e.2) id i) i l) !! h = Some id.
Proof.
  revert i. induction l as [|[n b] l IH]; intros i H; cbn; [destruct H as [H|]; [inversion H|done]|].
  apply IH. cbn. destruct H as [[Hh|Hh]%Exists_cons|Hh]; [|by left|].
  - right. cbn in Hh. rewrite Hh. apply lookup_insert_eq.
  - right. destruct (decide (b_hash b = h)) as [->|]; [apply lookup_insert_eq|by rewrite lookup_insert_ne].
Qed.

Lemma insert_non_fork_blocks_final id l i :
  last_finalized_block (foldl (fun i e => insert_non_fork_block e.1 (b_hash e.2) id i) i l) = last_finalized_block i.
Proof. revert i. induction l as [|e l IH]; intros i; cbn; [done|]. by rewrite IH. Qed.

Lemma indices_insert_chain_spec id c i i' :
  indices_insert_chain id c i = Some i' ->
  blocks c <> ∅ /\ last_finalized_block i' = last_finalized_block i /\
  (forall h id', blocks_to_chain i' !! h = Some id' -> (id' = id /\ chain_has c h) \/ blocks_to_chain i !! h = Some id') /\
  (forall h, chain_has c h -> blocks_to_chain i' !! h = Some id).
Proof.
  unfold indices_insert_chain. destruct (first c) as [f|] eqn:Ef; [|done]. intros [= <-]. cbn.
  rewrite insert_non_fork_blocks_final. split_and!; [|done| |].
  - intros E. unfold first in Ef. by rewrite E in Ef.
  - intros h id' [[-> He]|?]%insert_non_fork_blocks_lookup; [left; split; [done|]|by right].
    apply Exists_exists in He as ([n b] & Hin%(elem_of_entries Z.le) & <-). by exists n, b.
  - intros h (n & b & Hb & Hh). apply insert_non_fork_blocks_has. left. apply Exists_exists.
    exists (n, b). split; [by apply (elem_of_entries Z.le)|done].
Qed.

(** ** Removal loops *)

Lemma set_first_Some s x : set_first s = Some x -> x ∈ s.
Proof.
  unfold set_first. destruct (merge_sort Z.le (elements s)) as [|y l] eqn:E; [done|]. intros [= <-].
  apply elem_of_elements. rewrite <- (merge_sort_Permutation Z.le), E. apply list_elem_of_here.
Qed.

Lemma set_first_None s : set_first s = None -> s = ∅.
Proof.
  unfold set_first. destruct (merge_sort Z.le (elements s)) as [|y l] eqn:E; [|done]. intros _.
  apply leibniz_equiv, elements_empty_iff, Permutation_nil. by rewrite <- E, merge_sort_Permutation.
Qed.

Section Loops.
Context {D SP E : Type} (dbi : Db D SP E) (ex : Executor SP E).
Implicit Types t tk : BlockchainTree D.

Lemma set_indices_inv P t i :
  tree_inv_but P t -> shrinks (block_indices t) i -> 0 <= last_finalized_block i -> tree_inv_but P (set_indices i t).
Proof.
  intros [] Hs Hl. split; auto. intros h id Hh. apply ti_index0. eapply lookup_weaken; [exact Hh|exact Hs].
Qed.

Lemma drop_chain_inv P t id lose t' :
  tree_inv_but P t -> drop_chain id t = (lose, t') -> tree_inv_but P t'.
Proof.
  intros Hi. unfold drop_chain. destruct (chains t !! id) as [c|] eqn:Ec; [|by intros [= <- <-]].
  destruct (remove_chain c (block_indices t)) as [l i] eqn:Er. intros [= <- <-].
  apply remove_chain_shrinks in Er as (S & N & F). destruct Hi. split; cbn.
  - intros h id' Hh. destruct (ti_index0 h id') as [(c' & Hc' & Hh')|]; [by eapply lookup_weaken|left|by right].
    exists c'. split; [|done]. rewrite lookup_delete_ne; [done|]. intros <-.
    rewrite Ec in Hc'. injection Hc' as <-. rewrite (N h Hh') in Hh. done.
  - intros id' [c' [_ Hc']%lookup_delete_Some]. apply ti_fresh0. by eexists.
  - by apply map_Forall_delete.
  - lia.
  - done.
Qed.

Lemma drop_chain_chains t id lose t' :
  drop_chain id t = (lose, t') -> chains t' = delete id (chains t).
Proof.
  unfold drop_chain. destruct (chains t !! id) as [c|] eqn:Ec; [|intros [= <- <-]; by rewrite delete_id].
  destruct (remove_chain c (block_indices t)). by intros [= <- <-].
Qed.

Lemma drop_chain_final t id lose t' :
  drop_chain id t = (lose, t') -> last_finalized_block (block_indices t') = last_finalized_block (block_indices t).
Proof.
  unfold drop_chain. destruct (chains t !! id) as [c|]; [|by intros [= <- <-]].
  destruct (remove_chain c (block_indices t)) eqn:Er. intros [= <- <-]. by apply remove_chain_shrinks in Er as (_ & _ & ?).
Qed.

(** What the popping loop guarantees of the tree it returns. *)
Definition popped (P : Z -> Prop) (s : gset BlockChainId) t t' : Prop :=
  tree_inv_but P t' /\ chains t' ⊆ chains t /\ (forall id, id ∈ s -> chains t' !! id = None) /\
  last_finalized_block (block_indices t') = last_finalized_block (block_indices t).

Lemma popped_step P s x t t1 t' lose :
  drop_chain x t = (lose, t1) -> popped P ((s ∖ {[x]}) ∪ lose) t1 t' -> popped P s t t'.
Proof.
  intros Ed (H1 & H2 & H3 & H4). pose proof (drop_chain_chains _ _ _ _ Ed) as Hc.
  split_and!; [done| | |by rewrite H4, (drop_chain_final _ _ _ _ Ed)].
  - etransitivity; [exact H2|]. rewrite Hc. apply delete_subseteq.
  - intros id Hid. destruct (decide (id = x)) as [->|Hne].
    + eapply lookup_weaken_None; [|exact H2]. rewrite Hc. apply lookup_delete_eq.
    + apply H3. set_solver.
Qed.

Lemma pop_chains_total P t s :
  tree_inv_but P t ->
  exists n t', (forall fuel, (n <= fuel)%nat -> pop_chains (E := E) fuel s t = Ok t') /\ popped P s t t'.
Proof.
  remember (size (chains t)) as k eqn:Ek. revert t s Ek. induction k as [k IHk] using lt_wf_ind. intros t s ->.
  remember (size s) as j eqn:Ej. revert s Ej. induction j as [j IHj] using lt_wf_ind. intros s -> Hi.
  assert (Hstep : forall x lose t1, set_first s = Some x -> drop_chain x t = (lose, t1) ->
    (exists n t', (forall fuel, (n <= fuel)%nat -> pop_chains (E := E) fuel ((s ∖ {[x]}) ∪ lose) t1 = Ok t') /\
       popped P ((s ∖ {[x]}) ∪ lose) t1 t') ->
    exists n t', (forall fuel, (n <= fuel)%nat -> pop_chains (E := E) fuel s t = Ok t') /\ popped P s t t').
  { intros x lose t1 Es Ed (n & t' & Hn & Hp). exists (S n), t'. split; [|by eapply popped_step].
    intros [|fuel] Hf; [lia|]. cbn. rewrite Es, Ed. apply Hn. lia. }
  destruct (set_first s) as [x|] eqn:Es.
  - destruct (drop_chain x t) as [lose t1] eqn:Ed. apply (Hstep x lose t1); [done|done|].
    pose proof (drop_chain_inv _ _ _ _ _ Hi Ed) as Hi1. pose proof (drop_chain_chains _ _ _ _ Ed) as Hc.
    destruct (chains t !! x) as [c|] eqn:Ex.
    + eapply IHk; [|done|done]. rewrite Hc. by eapply map_size_delete_lt.
    + unfold drop_chain in Ed. rewrite Ex in Ed. injection Ed as <- <-. eapply IHj; [|done|done].
      rewrite union_empty_r_L. apply set_first_Some in Es. apply subset_size. set_solver.
  - exists 1%nat, t. split; [intros [|fuel] Hf; [lia|]; cbn; by rewrite Es|].
    apply set_first_None in Es as ->. split_and!; [done|done| |done]. intros id Hid. set_solver.
Qed.

(** The peeking loop never ends on a non-empty set. *)
Lemma peek_chains_diverges t s fuel : s <> ∅ -> peek_chains (E := E) fuel s t = Diverge.
Proof.
  revert t s. induction fuel as [|fuel IH]; intros t s Hs; [done|]. cbn.
  destruct (set_first s) as [x|] eqn:Ef; [|by apply set_first_None in Ef].
  destruct (drop_chain x t) as [lose t1]. apply IH. set_solver.
Qed.

Lemma finalize_tree_total t f :
  tree_inv t -> 0 <= f ->
  exists n t', (forall fuel, (n <= fuel)%nat -> finalize_tree (E := E) fuel f t = Ok t') /\
    tree_inv t' /\ chains t' ⊆ chains t /\
    (forall id, id ∈ (finalize_canonical_blocks f (block_indices t)).1 -> chains t' !! id = None) /\
    last_finalized_block (block_indices t') = f.
Proof.
  intros Hi Hf. unfold finalize_tree. destruct (finalize_canonical_blocks f (block_indices t)) as [s i] eqn:Ef.
  apply finalize_canonical_blocks_shrinks in Ef as [Hs Hl].
  destruct (pop_chains_total (fun _ => False) (set_indices i t) s) as (n & t' & Hn & H1 & H2 & H3 & H4).
  { apply set_indices_inv; [done|done|lia]. }
  exists n, t'. split_and!; [done|done|done|done|]. by rewrite H4.
Qed.

(** A run that returns agrees with every run on more fuel. *)
Lemma pop_chains_mono fuel fuel' s t t' :
  pop_chains (E := E) fuel s t = Ok t' -> (fuel <= fuel')%nat -> pop_chains (E := E) fuel' s t = Ok t'.
Proof.
  revert fuel' s t. induction fuel as [|fuel IH]; intros [|fuel'] s t H Hle; try done; [lia|].
  cbn in *. destruct (set_first s) as [x|]; [|done]. destruct (drop_chain x t). apply IH; [done|lia].
Qed.

Lemma pop_chains_outcome fuel s t : pop_chains (E := E) fuel s t = Diverge \/ exists t', pop_chains (E := E) fuel s t = Ok t'.
Proof.
  revert s t. induction fuel as [|fuel IH]; intros s t; [by left|]. cbn.
  destruct (set_first s) as [x|]; [|right; by eexists]. destruct (drop_chain x t). apply IH.
Qed.

Lemma finalize_tree_inv t f fuel t' :
  tree_inv t -> 0 <= f -> finalize_tree (E := E) fuel f t = Ok t' -> tree_inv t'.
Proof.
  intros Hi Hf H. destruct (finalize_tree_total t f Hi Hf) as (n & t1 & Hn & Ht1 & _).
  specialize (Hn (max n fuel) ltac:(lia)). unfold finalize_tree in *.
  destruct (finalize_canonical_blocks f (block_indices t)) as [s i].
  apply (pop_chains_mono _ (max n fuel)) in H; [|lia]. rewrite Hn in H. by injection H as <-.
Qed.

(** *** Which chains finalization discards *)

(** Chain [id] forks off the block with hash [h]: the index has its first block as a
    child of [h]. *)
Definition forks_off_by (i : BlockIndices) (h c : Z) (id : BlockChainId) : Prop :=
  exists children, fork_to_child i !! h = Some children /\ c ∈ children /\ blocks_to_chain i !! c = Some id.
Definition forks_off (i : BlockIndices) (h : Z) (id : BlockChainId) : Prop := exists c, forks_off_by i h c id.

(** The chains that fork off a canonical block from the last finalized one up to the
    new one, which is excluded, and those that fork off such chains. *)
Inductive pruned t (f : Z) : BlockChainId -> Prop :=
| pruned_fork n h id : canonical_chain (block_indices t) !! n = Some h -> last_finalized_block (block_indices t) <= n < f ->
    forks_off (block_indices t) h id -> pruned t f id
| pruned_child id c h id' : pruned t f id -> chains t !! id = Some c -> chain_has c h ->
    forks_off (block_indices t) h id' -> pruned t f id'.

(** No block of a chain is indexed under another chain. *)
Definition indexed_once t : Prop :=
  forall id c h id', chains t !! id = Some c -> chain_has c h -> blocks_to_chain (block_indices t) !! h = Some id' -> id' = id.

Definition forks_shrink (i i' : BlockIndices) : Prop :=
  blocks_to_chain i' ⊆ blocks_to_chain i /\ fork_to_child i' ⊆ fork_to_child i.

Lemma forks_off_weaken i i' h c id : forks_shrink i i' -> forks_off_by i' h c id -> forks_off_by i h c id.
Proof. intros [Hb Hf] (ch & H1 & H2 & H3). exists ch. split_and!; [by eapply lookup_weaken|done|by eapply lookup_weaken]. Qed.

Lemma take_children_kept (ch : gset Z) (m : gmap Z BlockChainId) c id : m !! c = Some id ->
  (take_children ch m).2 !! c = Some id \/ id ∈ (take_children ch m).1.
Proof.
  intros Hc. cbn. destruct (decide (c ∈ ch)) as [Hin|Hin].
  - right. apply elem_of_set_omap. by exists c.
  - left. by apply map_lookup_filter_Some.
Qed.

(** One finalized block: its forks are lost, the other ones stay or are lost too. *)
Lemma finalize_one_forks lose i h : let '(lose', i') := finalize_one (lose, i) h in
  forks_shrink i i' /\ canonical_chain i' = canonical_chain i /\ last_finalized_block i' = last_finalized_block i /\ lose ⊆ lose' /\
  (forall id, id ∈ lose' -> id ∈ lose \/ forks_off i h id) /\ (forall id, forks_off i h id -> id ∈ lose') /\
  (forall h' c id, forks_off_by i h' c id -> forks_off_by i' h' c id \/ id ∈ lose').
Proof.
  cbn [finalize_one]. destruct (fork_to_child i !! h) as [ch|] eqn:Eh.
  - cbn. split_and!; [split; cbn; [apply map_filter_subseteq|apply delete_subseteq]|done|done|set_solver| | |].
    + intros id [Hid|(c & Hc & Hi)%elem_of_set_omap]%elem_of_union; [by left|]. right. exists c, ch. done.
    + intros id (c & ch' & Hh & Hc & Hi). assert (ch' = ch) as -> by congruence. apply elem_of_union_r, elem_of_set_omap. by exists c.
    + intros h' c id (ch' & Hh & Hc & Hi). destruct (take_children_kept ch (blocks_to_chain i) c id Hi) as [Hk|Hl]; [|right; set_solver].
      destruct (decide (h' = h)) as [->|Hne]; [|left; exists ch'; cbn; by rewrite lookup_delete_ne].
      right. assert (ch' = ch) as -> by congruence. apply elem_of_union_r, elem_of_set_omap. by exists c.
  - split_and!; [done|done|done|done|by left| |by left]. intros id (c & ch & Hh & _). congruence.
Qed.

Lemma finalize_loop_forks l lose i lose' i' : foldl finalize_one (lose, i) l = (lose', i') ->
  forks_shrink i i' /\ lose ⊆ lose' /\ (forall id, id ∈ lose' -> id ∈ lose \/ exists h, h ∈ l /\ forks_off i h id) /\
  (forall h id, h ∈ l -> forks_off i h id -> id ∈ lose') /\
  (forall h' c id, forks_off_by i h' c id -> forks_off_by i' h' c id \/ id ∈ lose').
Proof.
  revert lose i. induction l as [|h l IH]; intros lose i; cbn [foldl].
  { intros [= <- <-]. split_and!; [done|done|by left| |by left]. by intros h id ?%not_elem_of_nil. }
  pose proof (finalize_one_forks lose i h) as H1. destruct (finalize_one (lose, i) h) as [lose1 i1].
  destruct H1 as (S1 & _ & _ & L1 & A1 & B1 & C1). intros H2%IH. destruct H2 as (S2 & L2 & A2 & B2 & C2).
  split_and!; [split; [by transitivity (blocks_to_chain i1); [apply S2|apply S1]|by transitivity (fork_to_child i1); [apply S2|apply S1] ]|set_solver| | |].
  - intros id [[Hid|Hid]%A1|(h' & Hh' & c & Hid)]%A2; [by left|right; exists h; split; [left|done]|].
    right. exists h'. split; [by right|]. exists c. by eapply forks_off_weaken.
  - intros h' id [->|Hh']%elem_of_cons Hid; [by apply L2, B1|]. destruct Hid as [c Hid]. destruct (C1 h' c id Hid) as [Hid'|]; [|by apply L2].
    apply (B2 h'); [done|by exists c].
  - intros h' c id Hid. destruct (C1 h' c id Hid) as [Hid'|]; [by apply C2|right; by apply L2].
Qed.

(** What finalizing the canonical blocks loses is what forks off the finalized ones. *)
Lemma finalize_canonical_forks f i lose i' : finalize_canonical_blocks f i = (lose, i') ->
  forks_shrink i i' /\
  (forall id, id ∈ lose <-> exists n h, canonical_chain i !! n = Some h /\ last_finalized_block i <= n < f /\ forks_off i h id) /\
  (forall h c id, forks_off_by i h c id -> forks_off_by i' h c id \/ id ∈ lose).
Proof.
  unfold finalize_canonical_blocks. set (l := (filter _ _).*2). cbv zeta.
  destruct (foldl finalize_one _ l) as [lose1 i1] eqn:El. intros [= <- <-]. apply finalize_loop_forks in El as (S & _ & A & B & C).
  assert (Hl : forall h, h ∈ l <-> exists n, canonical_chain i !! n = Some h /\ last_finalized_block i <= n < f).
  { intros h. unfold l. rewrite list_elem_of_fmap. split.
    - intros ([n h'] & -> & [Hn Hin]%list_elem_of_filter). exists n. split; [by apply elem_of_entries in Hin|done].
    - intros (n & Hn & Hr). exists (n, h). split; [done|]. apply list_elem_of_filter. split; [done|by apply elem_of_entries]. }
  split_and!; [done| |done]. intros id. split.
  - intros [?%not_elem_of_empty|(h & (n & Hn & Hr)%Hl & Hid)]%A; [done|]. by exists n, h.
  - intros (n & h & Hn & Hr & Hid). apply (B h); [apply Hl; by exists n|done].
Qed.

Lemma remove_block_forks n h i lose i' : remove_block n h i = (lose, i') ->
  forks_shrink i i' /\ fork_to_child i' !! h = None /\ (forall id, id ∈ lose -> forks_off i h id) /\
  (forall h' c id, forks_off_by i h' c id -> forks_off_by i' h' c id \/ id ∈ lose \/ c = h).
Proof.
  unfold remove_block. cbn. intros [= <- <-]. cbn. split_and!.
  - split; cbn; [|apply delete_subseteq]. transitivity (delete h (blocks_to_chain i)); [apply map_filter_subseteq|apply delete_subseteq].
  - apply lookup_delete_eq.
  - intros id (c & Hc & [_ Hi]%lookup_delete_Some)%elem_of_set_omap. destruct (fork_to_child i !! h) as [ch|] eqn:Eh; [|by apply not_elem_of_empty in Hc].
    by exists c, ch.
  - intros h' c id (ch & Hh & Hc & Hi). destruct (decide (c = h)) as [->|Hne]; [by right; right|].
    destruct (take_children_kept (default ∅ (fork_to_child i !! h)) (delete h (blocks_to_chain i)) c id) as [Hk|Hl]; [by rewrite lookup_delete_ne| |by right; left].
    destruct (decide (h' = h)) as [->|Hh']; [|left; exists ch; cbn in *; by rewrite lookup_delete_ne].
    right. left. rewrite Hh. apply elem_of_set_omap. exists c. split; [done|]. by rewrite lookup_delete_ne.
Qed.

Lemma remove_blocks_forks l lose0 i lose i' :
  foldl (fun '(lose, i) e => let '(lose', i) := remove_block e.1 e.2 i in (lose ∪ lose', i)) (lose0, i) l = (lose, i') ->
  forks_shrink i i' /\ lose0 ⊆ lose /\ Forall (fun e => fork_to_child i' !! e.2 = None) l /\
  (forall id, id ∈ lose -> id ∈ lose0 \/ exists e, e ∈ l /\ forks_off i e.2 id) /\
  (forall h c id, forks_off_by i h c id -> forks_off_by i' h c id \/ id ∈ lose \/ c ∈ l.*2).
Proof.
  revert lose0 i. induction l as [|[n h] l IH]; intros lose0 i; cbn [foldl fst snd].
  { intros [= <- <-]. split_and!; [done|done|constructor|by left|by left]. }
  destruct (remove_block n h i) as [lose1 i1] eqn:E1. apply remove_block_forks in E1 as (S1 & N1 & A1 & C1).
  intros (S2 & L2 & N2 & A2 & C2)%IH. split_and!.
  - split; [by transitivity (blocks_to_chain i1); [apply S2|apply S1]|by transitivity (fork_to_child i1); [apply S2|apply S1] ].
  - set_solver.
  - constructor; [|done]. eapply lookup_weaken_None; [exact N1|apply S2].
  - intros id [[Hid|Hid]%elem_of_union|(e & He & c & Hid)]%A2; [by left|right; exists (n, h); split; [left|by apply A1]|].
    right. exists e. split; [by right|]. exists c. by eapply forks_off_weaken.
  - intros h' c id Hid. cbn. destruct (C1 h' c id Hid) as [Hid'|[Hl| ->] ]; [|right; left; set_solver|right; right; left].
    destruct (C2 h' c id Hid') as [?|[?|?] ]; [by left|by right; left|right; right; by right].
Qed.

Lemma remove_chain_forks c i lose i' : remove_chain c i = (lose, i') ->
  forks_shrink i i' /\ (forall h, chain_has c h -> fork_to_child i' !! h = None) /\
  (forall id, id ∈ lose -> exists h, chain_has c h /\ forks_off i h id) /\
  (forall h x id, forks_off_by i h x id -> forks_off_by i' h x id \/ id ∈ lose \/ chain_has c x).
Proof.
  intros (S & _ & N & A & C)%remove_blocks_forks. rewrite Forall_forall in N.
  assert (Hin : forall e, e ∈ (fun e : Z * SealedBlockWithSenders => (e.1, b_hash e.2)) <$> entries Z.le (blocks c) -> chain_has c e.2).
  { intros e ([n b] & -> & Hb%elem_of_entries)%list_elem_of_fmap. by exists n, b. }
  split_and!; [done| | |].
  - intros h (n & b & Hb & <-). apply (N (n, b_hash b)), list_elem_of_fmap. exists (n, b). split; [done|]. by apply (elem_of_entries Z.le).
  - intros id [?%not_elem_of_empty|(e & He & Hid)]%A; [done|]. exists e.2. split; [by apply Hin|done].
  - intros h x id Hid. destruct (C h x id Hid) as [?|[?|(e & -> & He)%list_elem_of_fmap] ]; [by left|by right; left|right; right; by apply Hin].
Qed.

(** The state of the loop that removes the lost chains [s] from [t]. *)
Record finalizing t (f : Z) (s : gset BlockChainId) tk : Prop := {
  fz_indices : forks_shrink (block_indices t) (block_indices tk);
  fz_chains : chains tk ⊆ chains t;
  fz_sound id : id ∈ s -> pruned t f id;
  fz_removed id : is_Some (chains t !! id) -> chains tk !! id = None -> pruned t f id;
  fz_forks h c id : forks_off_by (block_indices t) h c id ->
    forks_off_by (block_indices tk) h c id \/ id ∈ s \/ chains tk !! id = None \/ ~ indexed_once t;
  fz_done id c h : chains t !! id = Some c -> chains tk !! id = None -> chain_has c h -> fork_to_child (block_indices tk) !! h = None
}.

Lemma finalizing_step t f s tk x lose tk' : finalizing t f s tk -> x ∈ s -> drop_chain x tk = (lose, tk') ->
  finalizing t f ((s ∖ {[x]}) ∪ lose) tk'.
Proof.
  intros [I Hc A R F Hdone] Hx. unfold drop_chain. destruct (chains tk !! x) as [c|] eqn:Ex.
  2:{ intros [= <- <-]. split; try done; [intros id Hid; apply A; set_solver|]. intros h c id Hid.
      destruct (F h c id Hid) as [?|[Hs|?] ]; [by left| |by right; right]. destruct (decide (id = x)) as [->|]; [by right; right; left|right; left; set_solver]. }
  destruct (remove_chain c (block_indices tk)) as [l i] eqn:Er. intros [= <- <-]. apply remove_chain_forks in Er as (S & N & L & K).
  assert (Ex0 : chains t !! x = Some c) by (by eapply lookup_weaken).
  split; cbn [chains set_chains set_indices block_indices].
  - split; [by transitivity (blocks_to_chain (block_indices tk)); [apply S|apply I]|by transitivity (fork_to_child (block_indices tk)); [apply S|apply I] ].
  - transitivity (chains tk); [apply delete_subseteq|done].
  - intros id [Hid|(h & Hh & y & Hid)%L]%elem_of_union; [apply A; set_solver|].
    apply (pruned_child t f x c h id); [by apply A|done|done|]. exists y. by eapply forks_off_weaken.
  - intros id Hs [<-|Hid]%lookup_delete_None; [by apply A|by apply R].
  - intros h y id Hid. destruct (decide (id = x)) as [->|Hne]; [right; right; left; apply lookup_delete_eq|].
    rewrite lookup_delete_ne by done. destruct (F h y id Hid) as [Hk|[Hs|?] ]; [|right; left; set_solver|by right; right].
    destruct (K h y id Hk) as [?|[?|Hy] ]; [by left|right; left; set_solver|]. right. right. right. intros Hu. apply Hne.
    destruct Hid as (ch & _ & _ & Hb). by eapply Hu.
  - intros id c' h Hid [<-|Hn]%lookup_delete_None Hh; [assert (c' = c) as -> by congruence; by apply N|].
    eapply lookup_weaken_None; [by eapply Hdone|apply S].
Qed.

Lemma pop_chains_finalizing fuel t f s tk t' : finalizing t f s tk -> pop_chains (E := E) fuel s tk = Ok t' -> finalizing t f ∅ t'.
Proof.
  revert s tk. induction fuel as [|fuel IH]; intros s tk Hf; [done|]. cbn. destruct (set_first s) as [x|] eqn:Es.
  - destruct (drop_chain x tk) as [lose tk'] eqn:Ed. apply IH. eapply finalizing_step; [done|by apply set_first_Some|done].
  - intros [= <-]. by apply set_first_None in Es as ->.
Qed.

Lemma finalize_tree_finalizing fuel t f t' : finalize_tree (E := E) fuel f t = Ok t' -> finalizing t f ∅ t'.
Proof.
  unfold finalize_tree. destruct (finalize_canonical_blocks f (block_indices t)) as [s i] eqn:Ef.
  apply finalize_canonical_forks in Ef as (S & A & C). apply pop_chains_finalizing. split; cbn; try done.
  - intros id (n & h & Hn & Hr & Hid)%A. by eapply pruned_fork.
  - intros id [c Hc]. by rewrite Hc.
  - intros h c id Hid. destruct (C h c id Hid); [by left|by right; left].
  - intros id c h Hc. by rewrite Hc.
Qed.

Lemma finalizing_end t f t' id : finalizing t f ∅ t' -> indexed_once t -> pruned t f id -> (forall n h id',
  canonical_chain (block_indices t) !! n = Some h -> last_finalized_block (block_indices t) <= n < f ->
  forks_off (block_indices t) h id' -> chains t' !! id' = None) -> chains t' !! id = None.
Proof.
  intros [I Hc A R F Hdone] Hu Hd Hfork. induction Hd as [n h id Hn Hr Hid|id c h id' _ IH Hid Hh [x Hid'] ]; [by eapply Hfork|].
  destruct (F h x id' Hid') as [(ch & Hk & _)|[?%not_elem_of_empty|[?|?] ]]; [|done|done|done].
  by rewrite (Hdone id c h Hid IH Hh) in Hk.
Qed.

(** C33. Finalization terminates and cleans up: on a tree with a sound index there is a
    fuel from which every run gives the same tree, with a sound index, chains of the
    old tree and the new finalized number.  Every chain that forks off a canonical block
    from the last finalized number up to, and without, the new one is gone; a chain is
    gone only if it is one of these or forks, directly or not, off one of these; and
    all of those are gone when no block is indexed under two chains. *)
Theorem finalize_block_total t f :
  tree_inv t -> 0 <= f ->
  exists n t', (forall fuel, (n <= fuel)%nat -> finalize_block (E := E) fuel f t = (Ok tt, t')) /\
    tree_inv t' /\ chains t' ⊆ chains t /\ last_finalized_block (block_indices t') = f /\
    (forall m h id, canonical_chain (block_indices t) !! m = Some h -> last_finalized_block (block_indices t) <= m < f ->
       forks_off (block_indices t) h id -> chains t' !! id = None) /\
    (forall id, is_Some (chains t !! id) -> chains t' !! id = None -> pruned t f id) /\
    (indexed_once t -> forall id, pruned t f id -> chains t' !! id = None).
Proof.
  intros Hi Hf. destruct (finalize_tree_total t f Hi Hf) as (n & t' & Hn & H1 & H2 & H3 & H4).
  pose proof (finalize_tree_finalizing n t f t' (Hn n (le_n _))) as Hz.
  assert (Hfork : forall m h id, canonical_chain (block_indices t) !! m = Some h -> last_finalized_block (block_indices t) <= m < f ->
    forks_off (block_indices t) h id -> chains t' !! id = None).
  { intros m h id Hm Hr Hid. apply H3. destruct (finalize_canonical_blocks f (block_indices t)) as [s i] eqn:Ef.
    apply finalize_canonical_forks in Ef as (_ & A & _). apply A. by exists m, h. }
  exists n, t'. split_and!; [|done|done|done|done|apply Hz|intros Hu id Hid; by eapply finalizing_end].
  intros fuel Hle. unfold finalize_block, mbind, st_bind, st_get, st_lift, st_put. by rewrite (Hn fuel Hle).
Qed.

(** Updating the canonical hashes never returns when a chain has to be
    discarded: the loop reads the first identifier of the set without removing it, so
    it runs out of every fuel. *)
Theorem update_canonical_hashes_diverges t f fuel t1 hashes :
  finalize_tree (E := E) fuel f t = Ok t1 ->
  db_last_canonical dbi (db t1)
    (wadd 64 (max_reorg_depth t1) (num_of_additional_canonical_block_hashes (block_indices t1))) = Ok hashes ->
  (update_block_hashes (from_iter hashes) (block_indices t1)).1 <> ∅ ->
  (update_canonical_hashes dbi fuel f t).1 = Diverge.
Proof.
  intros Hf Hh Hne. unfold update_canonical_hashes, finalize_block, mbind, st_bind, st_get, st_lift, st_put.
  rewrite Hf, Hh. cbn [external]. destruct (update_block_hashes (from_iter hashes) (block_indices t1)) as [s i].
  by rewrite peek_chains_diverges.
Qed.
End Loops.
