(* ===== verification/TreeReach.v ===== *)
(** * Every operation of the blockchain tree keeps its index sound

    Preservation of [tree_inv] by block insertion, finalization, canonical hash
    updates and reorganisations, and reachability from a new tree. *)
From S2P Require Import Prelude Bytes BTree PoolInner Primitives ChainSpec Consensus ConsensusProofs SubState Chain ChainProofs.
From S2P Require Import Tree TreeProofs.

(** ** Running state-passing code *)

Lemma st_bind_inv {S E A B} (m : st S E A) (k : A -> st S E B) s r s' :
  (x ← m; k x) s = (r, s') ->
  (exists a s1, m s = (Ok a, s1) /\ k a s1 = (r, s')) \/ ((forall a, (m s).1 <> Ok a) /\ s' = (m s).2).
Proof.
  unfold mbind, st_bind. destruct (m s) as [[a| | |] s1] eqn:Em; intros H; [left; by exists a, s1|right..];
    injection H as <- <-; done.
Qed.

Lemma st_lift_inv {S E A B} (o : outcome E A) (k : A -> st S E B) s r s' :
  (x ← st_lift o; k x) s = (r, s') -> (exists a, o = Ok a /\ k a s = (r, s')) \/ s' = s.
Proof. intros [(a & s1 & [= -> ->] & H)|[_ ->]]%st_bind_inv; [left; by exists a|by right]. Qed.

Lemma st_get_inv {S E B} (k : S -> st S E B) s r s' :
  (x ← st_get; k x) s = (r, s') -> k s s = (r, s').
Proof. done. Qed.

Lemma st_put_inv {S E B} (s1 : S) (k : st S E B) s r s' :
  (st_put s1;; k) s = (r, s') -> k s1 = (r, s').
Proof. done. Qed.

(** Run the next lifted call of [H]; a failing call leaves the state unchanged. *)
Ltac lifted H a Ha :=
  apply st_lift_inv in H as [(a & Ha & H)| ->]; [|done].

Section Ops.
Context {D SP E : Type} (dbi : Db D SP E) (ex : Executor SP E) `{!ExecutorOk ex, !DbOk dbi}.
Implicit Types t : BlockchainTree D.

Definition generator_ok t : Prop := in_u 64 (block_chain_id_generator t + 1).

(** ** Insertion *)

Lemma insert_chain_inv c t r t' :
  tree_inv t -> generator_ok t -> numbered (blocks c) ->
  insert_chain (E := E) c t = (r, t') -> tree_inv t'.
Proof.
  intros Hi Hg Hc H. unfold insert_chain in H. apply st_get_inv in H. lifted H i Hins.
  unfold or_panic in Hins. destruct (indices_insert_chain _ _ _) as [i'|] eqn:Ei; [|done]. injection Hins as ->.
  injection H as _ <-. apply indices_insert_chain_spec in Ei as (Hne & Hf & Hl & _).
  destruct Hi as [Hidx Hfr Hch Hfin Hgen]. unfold generator_ok in Hg. split; cbn [chains block_indices block_chain_id_generator].
  - intros h id' [[-> Hh]|Hh]%Hl; left; [exists c; by rewrite lookup_insert_eq|].
    destruct (Hidx h id' Hh) as [(c' & Hc' & ?)|[]]. exists c'. split; [|done].
    rewrite lookup_insert_ne; [done|]. intros <-. specialize (Hfr _ (ex_intro _ _ Hc')). lia.
  - intros id' [c' [[<- _]|[_ Hc']]%lookup_insert_Some]; rewrite wadd_small by done; [lia|].
    specialize (Hfr id' (ex_intro _ _ Hc')). lia.
  - apply map_Forall_insert_2; [by split|done].
  - lia.
  - rewrite wadd_small by done. lia.
Qed.

Lemma validate_and_execute_number block parent s sp side can r :
  validate_and_execute ex block parent s sp side can = Ok r -> b_number block = wadd 64 (number (sh_header parent)) 1.
Proof.
  unfold validate_and_execute. intros (u & _ & H)%bind_Ok. apply bind_Ok in H as (u' & H & _).
  destruct (ex_pre_validate_header ex (b_header block) parent) eqn:Ep; try done.
  by apply ok_pre_validate in Ep.
Qed.

Lemma tip_max c b : chain_ok c -> tip c = Some b ->
  blocks c !! b_number b = Some b /\ forall n, is_Some (blocks c !! n) -> n <= b_number b.
Proof.
  intros [_ Hn]. unfold tip. destruct (last_key_value Z.le (blocks c)) as [[k b0]|] eqn:Ek; [|done]. intros [= <-].
  apply (last_key_value_Some Z.le) in Ek as [Hk Hmax]. destruct (Hn _ _ Hk) as [-> _]. split; [done|].
  intros n [b' Hb']. by eapply Hmax.
Qed.

(** Appending keeps the chain's blocks and adds the new one. *)
Lemma append_block_ok c block side can sp c' :
  chain_ok c -> 1 <= b_number block < 2 ^ 64 -> append_block ex c block side can sp = Ok c' ->
  chain_ok c' /\ blocks c' !! b_number block = Some block /\ (forall h, chain_has c h -> chain_has c' h).
Proof.
  intros Hc Hb H. apply bind_Ok in H as (tp & Ht & H). apply bind_Ok in H as (cs & Hv%validate_and_execute_number & H).
  injection H as <-. unfold or_panic in Ht. destruct (tip c) as [tp'|] eqn:Et; [|done]. injection Ht as ->.
  destruct (tip_max _ _ Hc Et) as [Htp Hmax]. destruct (proj2 Hc _ _ Htp) as [_ Hr].
  assert (Hfresh : blocks c !! b_number block = None).
  { apply eq_None_not_Some. intros Hs%Hmax. fold (b_number tp) in Hv. unfold wadd, wrap in Hv.
    destruct (decide (b_number tp + 1 = 2 ^ 64)) as [E1|Hne]; [rewrite E1, Z.mod_same in Hv by lia; lia|].
    rewrite Z.mod_small in Hv by lia. lia. }
  split; [split; [apply insert_non_empty|]|split; [apply lookup_insert_eq|]].
  - cbn. intros n b [[<- <-]|[_ Hn]]%lookup_insert_Some; [done|by apply Hc].
  - intros h (n & b & Hn & Hh). exists n, b. split; [|done]. cbn. rewrite lookup_insert_ne; [done|]. congruence.
Qed.

Lemma fork_side_chain_inv fuel block id t r t' :
  tree_inv t -> generator_ok t -> 1 <= b_number block < 2 ^ 64 ->
  fork_side_chain dbi ex fuel block id t = (r, t') -> tree_inv t'.
Proof.
  intros Hi Hg Hb H. unfold fork_side_chain in H. apply st_get_inv in H.
  lifted H hs Hhs. lifted H fo Hfo. lifted H fk Hfk. lifted H pc Hpc. lifted H tp Htp. lifted H pr Hpr.
  apply ok_or_Ok in Hpc. destruct (b_hash tp =? b_parent_hash block).
  - lifted H c Hap. injection H as _ <-. destruct Hi as [Hidx Hfr Hch Hfin Hgen].
    destruct (append_block_ok _ _ _ _ _ _ (Hch _ _ Hpc) Hb Hap) as (Hco & Hnew & Hkeep).
    split; cbn [chains block_indices block_chain_id_generator set_indices set_chains insert_non_fork_block blocks_to_chain last_finalized_block].
    + intros h id' [[<- <-]|[_ Hh]]%lookup_insert_Some; left.
      { exists c. rewrite lookup_insert_eq. split; [done|]. by eexists _, _. }
      destruct (Hidx h id' Hh) as [(c' & Hc' & ?)|[]]. destruct (decide (id = id')) as [<-|].
      * exists c. rewrite lookup_insert_eq. split; [done|]. apply Hkeep. congruence.
      * exists c'. by rewrite lookup_insert_ne.
    + intros id' [c' [[<- _]|[_ Hc']]%lookup_insert_Some]; apply Hfr; by eexists.
    + by apply map_Forall_insert_2.
    + done.
    + done.
  - lifted H c Hnf. apply st_bind_inv in H as [(a & t1 & Hins & [= _ <-])|[_ ->]];
      [|destruct (insert_chain c t) eqn:Hins]; eapply (insert_chain_inv c t); try done.
    all: apply bind_Ok in Hnf as (pa & _ & Hnf); apply bind_Ok in Hnf as (tp' & _ & Hnf);
      destruct (_ <? _); [done|]; apply bind_Ok in Hnf as (s & _ & Hnf); apply bind_Ok in Hnf as (cs & _ & [= <-]);
      cbn; intros n0 b0 [<- <-]%lookup_singleton_Some; done.
Qed.

Lemma fork_canonical_chain_inv block t r t' :
  tree_inv t -> generator_ok t -> 1 <= b_number block < 2 ^ 64 ->
  fork_canonical_chain dbi ex block t = (r, t') -> tree_inv t'.
Proof.
  intros Hi Hg Hb H. unfold fork_canonical_chain in H. apply st_get_inv in H.
  lifted H ph Hph. lifted H ph' Hph'. lifted H pr Hpr. lifted H c Hc.
  assert (Hn : numbered (blocks c)).
  { apply bind_Ok in Hc as (cs & _ & [= <-]). intros n b. cbn. by intros [[<- <-]|[_ ?]]%lookup_insert_Some. }
  apply st_bind_inv in H as [(a & t1 & Hins & [= _ <-])|[_ ->]];
    [|destruct (insert_chain c t) eqn:Hins]; by eapply (insert_chain_inv c t).
Qed.

Lemma insert_block_with_senders_inv fuel block t r t' :
  tree_inv t -> generator_ok t -> in_u 64 (b_number block) ->
  insert_block_with_senders dbi ex fuel block t = (r, t') -> tree_inv t'.
Proof.
  intros Hi Hg Hb H. unfold insert_block_with_senders in H. apply st_get_inv in H.
  destruct (Z.leb_spec (b_number block) (last_finalized_block (block_indices t))) as [|Hlt]; [by injection H as _ <-|].
  assert (Hb1 : 1 <= b_number block < 2 ^ 64) by (unfold in_u in Hb; pose proof (ti_final _ _ Hi); lia).
  repeat (case_match; try (by injection H as _ <-)).
  - apply st_bind_inv in H as [(a & t1 & H & [= _ <-])|[_ ->]]; [|destruct (fork_side_chain _ _ _ _ _ t) eqn:H];
      by eapply fork_side_chain_inv.
  - apply st_bind_inv in H as [(a & t1 & H & [= _ <-])|[_ ->]]; [|destruct (fork_canonical_chain _ _ _ t) eqn:H];
      by eapply fork_canonical_chain_inv.
Qed.

(** ** Splitting chains *)

Lemma cut_bounds c at_ k :
  find_cut c at_ = Some (CutAt k) ->
  (exists f l, is_Some (blocks c !! f) /\ is_Some (blocks c !! l) /\ f <= k < l) /\
  (forall n, at_ = SplitNumber n -> k = n).
Proof.
  intros Hf. unfold find_cut in Hf. destruct (last_key_value Z.le (blocks c)) as [[t bt]|] eqn:Et; [|done].
  apply (last_key_value_Some Z.le) in Et as [Ht Hmax]. cbn in Hf. destruct at_ as [n|h].
  - destruct (Z.leb_spec t n); [done|]. destruct (first_key_value Z.le (blocks c)) as [[f bf]|] eqn:Ef; [|done].
    apply (first_key_value_Some Z.le) in Ef as [Hff _]. cbn in Hf. destruct (Z.ltb_spec n f); [done|]. injection Hf as <-.
    split; [|by intros ? [= <-]]. exists f, t. split_and!; try (by eexists); lia.
  - destruct (list_find _ _) as [[i [n b]]|] eqn:El; [|done]. apply list_find_Some in El as (El & _).
    apply list_elem_of_lookup_2, (elem_of_entries Z.le) in El. destruct (Z.eqb_spec n t) as [|Hne]; [done|]. injection Hf as <-.
    split; [|done]. exists n, t. pose proof (Hmax _ _ El). split_and!; try (by eexists); lia.
Qed.

Lemma cut_canonical c n :
  find_cut c (SplitNumber n) = Some CutCanonical -> forall k, is_Some (blocks c !! k) -> k <= n.
Proof.
  unfold find_cut. destruct (last_key_value Z.le (blocks c)) as [[t bt]|] eqn:Et; [|done].
  apply (last_key_value_Some Z.le) in Et as [Ht Hmax]. cbn. intros Hf k [b Hb]. specialize (Hmax _ _ Hb).
  destruct (Z.leb_spec t n); [lia|]. destruct (first_key_value Z.le (blocks c)) as [[f bf]|]; [|done].
  cbn in Hf. by destruct (_ <? _).
Qed.

(** The parts of a split: both well numbered, together all the blocks. *)
Lemma split_parts c at_ r :
  chain_ok c -> split c at_ = Some r ->
  match r with
  | NoSplitPending _ => True
  | NoSplitCanonical can => can = c /\ forall n, at_ = SplitNumber n -> forall k, is_Some (blocks can !! k) -> k <= n
  | Split can pend =>
      chain_ok can /\ chain_ok pend /\ (forall h, chain_has c h -> chain_has can h \/ chain_has pend h) /\
      forall n, at_ = SplitNumber n -> forall k, is_Some (blocks can !! k) -> k <= n
  end.
Proof.
  intros [Hne Hn] Hs. unfold split in Hs. destruct (find_cut c at_) as [[| |k]|] eqn:Ec; cbn [mbind option_bind] in Hs; [| | |done].
  - by injection Hs as <-.
  - injection Hs as <-. split; [done|]. intros n ->. by apply cut_canonical.
  - destruct (cut_bounds _ _ _ Ec) as ((f & l & [bf Hf] & [bl Hl] & Hk) & Hat). destruct (Hn _ _ Hl) as [_ Hl64], (Hn _ _ Hf) as [_ Hf1].
    rewrite wadd_small in Hs by (unfold in_u; lia). case_match; [done|]. injection Hs as <-.
    split_and!.
    + split; cbn; [|by intros n b [? _]%lower_lookup; apply Hn].
      intros E0. assert (lower c (k + 1) !! f = Some bf) as Hx by (apply lower_lookup; split; [done|lia]). by rewrite E0 in Hx.
    + split; cbn; [|by intros n b [? _]%higher_lookup; apply Hn].
      intros E0. assert (higher c (k + 1) !! l = Some bl) as Hx by (apply higher_lookup; split; [done|lia]). by rewrite E0 in Hx.
    + intros h (n & b & Hb & Hh). destruct (Z_lt_le_dec n (k + 1)); [left|right]; exists n, b; cbn;
        rewrite ?lower_lookup, ?higher_lookup; done.
    + intros n ->%Hat k' [b [_ ?]%lower_lookup]. lia.
Qed.

(** A safe run cannot have panicked in a lifted [expect]. *)
Lemma or_panic_inv {A B} (o : option A) (k : A -> st (BlockchainTree D) (ExecError E) B) t r t' :
  (x ← st_lift (or_panic o); k x) t = (r, t') -> safe r -> exists a, o = Some a /\ k a t = (r, t').
Proof.
  destruct o as [a|]; [intros H _; by exists a|]. intros [= <- <-] [].
Qed.

Lemma st_bind_safe {A B} (m : st (BlockchainTree D) (ExecError E) A) (k : A -> st (BlockchainTree D) (ExecError E) B) t r t' :
  (x ← m; k x) t = (r, t') -> safe r ->
  exists o t1, m t = (o, t1) /\ safe o /\ ((exists a, o = Ok a /\ k a t1 = (r, t')) \/ (t' = t1 /\ exists e, o = Err e)).
Proof.
  unfold mbind, st_bind. destruct (m t) as [o t1]. intros H Hs. exists o, t1. split; [done|].
  destruct o; [| |injection H as <- <-; by destruct Hs..].
  - split; [done|]. left. by eexists.
  - injection H as <- <-. split; [done|]. right. by eauto.
Qed.

Lemma take_chain_spec P id t r t' :
  tree_inv_but P t -> take_chain (E := E) id t = (r, t') -> safe r ->
  exists c, r = Ok c /\ chain_ok c /\ chains t' !! id = None /\ id < block_chain_id_generator t' /\
    tree_inv_but (fun h => P h \/ chain_has c h) t' /\ block_chain_id_generator t' = block_chain_id_generator t.
Proof.
  intros [Hidx Hfr Hch Hfin Hgen] H Hs. unfold take_chain in H. apply st_get_inv in H.
  apply or_panic_inv in H as (c & Hc & H); [|done]. injection H as <- <-. exists c. cbn [set_chains chains block_chain_id_generator].
  split_and!; [done|by apply (Hch id)|apply lookup_delete_eq|apply Hfr; by eexists| |done].
  split; cbn [set_chains chains block_chain_id_generator block_indices]; [| | |done|done].
  - intros h id' Hh. destruct (Hidx h id' Hh) as [(c' & Hc' & ?)|]; [|auto].
    destruct (decide (id = id')) as [<-|]; [right; right; congruence|left; exists c'; by rewrite lookup_delete_ne].
  - intros id' [c' [_ Hc']%lookup_delete_Some]. apply Hfr. by eexists.
  - by apply map_Forall_delete.
Qed.

Lemma split_chain_spec P id c at_ t r t' :
  tree_inv_but (fun h => P h \/ chain_has c h) t -> chain_ok c -> chains t !! id = None ->
  id < block_chain_id_generator t -> split_chain (E := E) id c at_ t = (r, t') -> safe r ->
  exists can, r = Ok can /\ chain_ok can /\ tree_inv_but (fun h => P h \/ chain_has can h) t' /\
    block_chain_id_generator t' = block_chain_id_generator t /\
    (forall n, at_ = SplitNumber n -> forall k, is_Some (blocks can !! k) -> k <= n).
Proof.
  intros Hi Hc Hid Hlt H Hs. unfold split_chain in H. apply or_panic_inv in H as (s & Hsp & H); [|done].
  apply split_parts in Hsp; [|done]. destruct s as [p|can|can pend]; [by injection H as <- <-|..].
  - injection H as <- <-. destruct Hsp as [-> Hk]. by exists c.
  - destruct Hsp as (Hcan & Hpend & Hhas & Hk). apply st_get_inv in H. apply or_panic_inv in H as (i & Hins & H); [|done].
    injection H as <- <-. exists can. apply indices_insert_chain_spec in Hins as (_ & Hf & Hl & Hset).
    destruct Hi as [Hidx Hfr Hch Hfin Hgen]. split_and!; [done|done| |done|done].
    split; cbn [set_chains set_indices chains block_chain_id_generator block_indices]; [| | |lia|done].
    + intros h id' Hb2c. destruct (Hl h id' Hb2c) as [[-> Hh]|Hh]; [left; exists pend; by rewrite lookup_insert_eq|].
      destruct (Hidx h id' Hh) as [(c' & Hc' & ?)|[?|[?|?]%Hhas]].
      * left. exists c'. rewrite lookup_insert_ne; [done|]. congruence.
      * auto.
      * auto.
      * left. exists pend. rewrite (Hset h) in Hb2c by done. injection Hb2c as <-. by rewrite lookup_insert_eq.
    + intros id' [c' [[<- _]|[_ Hc']]%lookup_insert_Some]; [done|]. apply Hfr. by eexists.
    + by apply map_Forall_insert_2.
Qed.

(** ** Reorganisations *)

Definition promoted_has (cs : list Chain) (h : Z) : Prop := Exists (fun c => chain_has c h) cs.

Definition key_lt (c1 c2 : Chain) : Prop :=
  forall n1 n2, is_Some (blocks c1 !! n1) -> is_Some (blocks c2 !! n2) -> n1 < n2.

(** The chains collected so far: well numbered, each below the previous ones, and
    all above [n]. *)
Definition promoting (n : Z) (cs : list Chain) : Prop :=
  Forall chain_ok cs /\ StronglySorted key_lt (reverse cs) /\
  Forall (fun c => forall k, is_Some (blocks c !! k) -> n < k) cs.

Lemma fork_block_below c f :
  chain_ok c -> fork_block c = Some f -> 0 <= fb_number f < 2 ^ 64 - 1 /\ forall k, is_Some (blocks c !! k) -> fb_number f < k.
Proof.
  intros [_ Hn] Hf. unfold fork_block, first in Hf.
  destruct (first_key_value Z.le (blocks c)) as [[k0 b0]|] eqn:Ef; [|done]. injection Hf as <-.
  apply (first_key_value_Some Z.le) in Ef as [Hk0 Hmin]. destruct (Hn _ _ Hk0) as [Hnum Hr]. cbn in *. rewrite Hnum.
  unfold saturating_sub. zdec. split; [lia|]. intros k [b Hb]. specialize (Hmin _ _ Hb). lia.
Qed.

Lemma promoting_snoc n cs c f :
  promoting n cs -> chain_ok c -> (forall k, is_Some (blocks c !! k) -> k <= n) -> fork_block c = Some f ->
  promoting (fb_number f) (cs ++ [c]).
Proof.
  intros (H1 & H2 & H3) Hc Hle Hf. destruct (fork_block_below _ _ Hc Hf) as [Hr Hlt].
  destruct (map_choose (blocks c) (proj1 Hc)) as (k & b & Hb).
  assert (Hfn : fb_number f < n) by (specialize (Hlt k (ex_intro _ _ Hb)); specialize (Hle k (ex_intro _ _ Hb)); lia).
  split_and!.
  - apply Forall_app. split; [done|]. apply Forall_singleton. done.
  - rewrite reverse_snoc. constructor; [done|]. apply Forall_reverse. eapply Forall_impl; [exact H3|].
    intros c' Hc' n1 n2 Hn1%Hle Hn2%Hc'. lia.
  - apply Forall_app. split; [|by apply Forall_singleton]. eapply Forall_impl; [exact H3|]. intros c' Hc' k' Hk'%Hc'. lia.
Qed.

Lemma promote_spec fuel bf n cs t r t' :
  tree_inv_but (promoted_has cs) t -> promoting n cs ->
  promote (E := E) fuel bf n cs t = (r, t') -> safe r ->
  exists n' cs', r = Ok cs' /\ cs ⊆ cs' /\ promoting n' cs' /\ tree_inv_but (promoted_has cs') t' /\
    block_chain_id_generator t' = block_chain_id_generator t.
Proof.
  revert bf n cs t. induction fuel as [|fuel IH]; intros bf n cs t Hi Hp H Hs; [by injection H as <- <-|].
  cbn [promote] in H. apply st_get_inv in H. destruct (get_blocks_chain_id _ _) as [id|].
  2: { injection H as <- <-. by exists n, cs. }
  apply st_bind_safe in H as (o1 & t1 & H1 & Ho1 & H); [|done].
  destruct (take_chain_spec _ _ _ _ _ Hi H1 Ho1) as (c & -> & Hc & Hid & Hlt & Hi1 & Hg1).
  destruct H as [(? & [= <-] & H)|(_ & e & ?)]; [|done].
  apply or_panic_inv in H as (bf' & _ & H); [|done]. apply st_bind_safe in H as (o2 & t2 & H2 & Ho2 & H); [|done].
  destruct (split_chain_spec _ _ _ _ _ _ _ Hi1 Hc Hid Hlt H2 Ho2) as (can & -> & Hcan & Hi2 & Hg2 & Hle).
  destruct H as [(? & [= <-] & H)|(_ & e & ?)]; [|done]. apply or_panic_inv in H as (f & Hf & H); [|done].
  apply IH in H as (n' & cs' & -> & Hsub & Hp' & Hi' & Hg'); [|  | |done].
  - exists n', cs'. split_and!; [done| |done|done|congruence]. set_solver.
  - eapply tree_inv_weaken; [|exact Hi2]. intros h Hh. apply Exists_app. destruct Hh; [by left|right; by constructor].
  - eapply promoting_snoc; [exact Hp|done| |done]. by apply Hle.
Qed.

(** Merging the collected chains, lowest first, keeps every block. *)
Lemma append_all_spec acc cs r :
  StronglySorted key_lt (acc :: cs) -> Forall chain_ok (acc :: cs) -> append_all (E := E) acc cs = Ok r ->
  chain_ok r /\ Forall (fun c => blocks c ⊆ blocks r) (acc :: cs).
Proof.
  revert acc. induction cs as [|c cs IH]; intros acc Hs Hok H; cbn in H.
  { injection H as <-. split; [by inversion Hok|by repeat constructor]. }
  destruct (append_chain (E := E) acc c) as [acc'| | |] eqn:Ea; try done.
  apply bind_Ok in Ea as (tp & _ & Ea). apply bind_Ok in Ea as (fk & _ & Ea). case_match; [done|]. injection Ea as <-.
  apply StronglySorted_inv in Hs as [Hs Hacc]. apply Forall_cons in Hok as [Hok1 Hok]. apply Forall_cons in Hok as [Hok2 Hok].
  apply Forall_cons in Hacc as [Hac Hacc]. apply StronglySorted_inv in Hs as [Hs Hcs].
  assert (Hdisj : blocks c ##ₘ blocks acc).
  { apply map_disjoint_spec. intros k b1 b2 Hb1 Hb2. specialize (Hac k k). rewrite Hb1, Hb2 in Hac.
    specialize (Hac ltac:(eauto) ltac:(eauto)). lia. }
  apply IH in H as [Hr Hsub].
  - split; [done|]. apply Forall_cons in Hsub as [Hsub Hrest]. cbn in Hsub. repeat constructor; [| |done].
    + etransitivity; [|exact Hsub]. by apply map_union_subseteq_r.
    + etransitivity; [|exact Hsub]. apply map_union_subseteq_l.
  - constructor; [done|]. apply Forall_forall. intros c' Hc' n1 n2 [b Hb] Hn2. cbn in Hb.
    rewrite Forall_forall in Hacc, Hcs. apply lookup_union_Some_raw in Hb as [Hb|[_ Hb]].
    + by apply (Hcs c' Hc'); [eexists|].
    + by apply (Hacc c' Hc'); [eexists|].
  - constructor; [|done]. split; cbn.
    + intros E0. destruct (map_choose _ (proj1 Hok2)) as (k & b & Hb).
      apply (lookup_union_Some_l _ (blocks acc)) in Hb. by rewrite E0 in Hb.
    + intros n b [?|[_ ?]]%lookup_union_Some_raw; [by apply Hok2|by apply Hok1].
Qed.

Lemma set_db_inv P d t : tree_inv_but P t -> tree_inv_but P (set_db d t).
Proof. by intros []. Qed.

Lemma commit_canonical_inv c t r t' :
  tree_inv t -> commit_canonical dbi c t = (r, t') ->
  tree_inv t' /\ block_chain_id_generator t' = block_chain_id_generator t.
Proof.
  intros Hi H. unfold commit_canonical in H. apply st_get_inv in H.
  lifted H tp Htp. lifted H d1 Hd1. lifted H d2 Hd2. lifted H d3 Hd3. injection H as _ <-. split; [by apply set_db_inv|done].
Qed.

Lemma Chain_new_numbered bs :
  Forall (fun x => 1 <= b_number x.1 < 2 ^ 64) bs -> numbered (blocks (Chain_new bs)).
Proof.
  intros Hbs. cbn. assert (H0 : numbered ∅) by (intros n b; by rewrite lookup_empty). revert H0.
  generalize (∅ : gmap Z SealedBlockWithSenders) as m. induction Hbs as [|[b cs] bs Hb _ IH]; intros m Hm; cbn; [done|].
  apply IH. intros n b' [[<- <-]|[_ ?]]%lookup_insert_Some; [done|by apply Hm].
Qed.

Lemma revert_canonical_inv n t r t' :
  tree_inv t -> 0 <= n < 2 ^ 64 - 1 -> revert_canonical dbi n t = (r, t') ->
  tree_inv t' /\ block_chain_id_generator t' = block_chain_id_generator t /\
  forall c, r = Ok c -> numbered (blocks c).
Proof.
  intros Hi Hn H. unfold revert_canonical in H. apply st_get_inv in H.
  unfold mbind, st_bind, st_lift in H.
  destruct (tx_take_range dbi (db t) (wadd 64 n 1)) as [[bs d]| | |] eqn:Et; cbn in H; [|by injection H as <- <-..].
  destruct (tx_update_pipeline_stages dbi d n) as [d2| | |]; cbn in H; [|by injection H as <- <-..].
  destruct (tx_commit dbi d2) as [d3| | |]; cbn in H; [|by injection H as <- <-..].
  injection H as <- <-. split_and!; [by apply set_db_inv|done|]. intros c [= <-]. apply Chain_new_numbered.
  apply ok_take_range in Et. rewrite wadd_small in Et by (unfold in_u; lia).
  eapply Forall_impl; [exact Et|]. intros x. cbn. lia.
Qed.

Lemma canonicalized_inv bs t (P : Z -> Prop) :
  tree_inv_but P t -> (forall h, P h -> exists n b, bs !! n = Some b /\ b_hash b = h) ->
  tree_inv (set_indices (canonicalize_blocks bs (block_indices t)) t).
Proof.
  intros [Hidx Hfr Hch Hfin Hgen] HP. destruct (canonicalize_blocks_shrinks bs (block_indices t)) as (S & N & F).
  split; cbn [set_indices chains block_indices block_chain_id_generator]; [|done|done|lia|done].
  intros h id Hh. destruct (Hidx h id) as [?|(n & b & Hb & <-)%HP]; [by eapply lookup_weaken|by left|].
  rewrite (N n b Hb) in Hh. done.
Qed.

Lemma install_canonical_inv P ot nc t r t' :
  tree_inv_but P t -> generator_ok t -> chain_ok nc ->
  (forall h, P h -> chain_has nc h) -> install_canonical dbi ot nc t = (r, t') -> safe r -> tree_inv t'.
Proof.
  intros Hi Hg Hnc HP H Hs. unfold install_canonical in H. apply st_get_inv, st_put_inv in H.
  pose proof (canonicalized_inv (blocks nc) t P Hi HP) as Hi1.
  set (t1 := set_indices (canonicalize_blocks (blocks nc) (block_indices t)) t) in *.
  apply or_panic_inv in H as (fk & Hfk & H); [|done]. destruct (fork_block_below _ _ Hnc Hfk) as [Hr _].
  destruct (_ =? _); [by apply commit_canonical_inv in H as [? _]|].
  apply st_get_inv in H. case_decide; [|by injection H as <- <-].
  apply st_bind_safe in H as (o2 & t2 & H2 & _ & H); [|done].
  apply revert_canonical_inv in H2 as (Hi2 & Hg2 & Hnum); [|done|done].
  destruct H as [(oc & Ho & H)|[-> _]]; [|done]. apply st_bind_safe in H as (o3 & t3 & H3 & _ & H); [|done].
  apply commit_canonical_inv in H3 as [Hi3 Hg3]; [|done]. destruct H as [(u & _ & H)|[-> _]]; [|done].
  assert (Hg' : generator_ok t3) by (unfold generator_ok in *; rewrite Hg3, Hg2; exact Hg).
  apply st_bind_safe in H as (o4 & t4 & H4 & _ & H); [|done].
  apply insert_chain_inv in H4; [|done|done|by apply Hnum]. destruct H as [(a & _ & [= _ <-])|[-> _]]; done.
Qed.

Lemma make_canonical_inv fuel h t r t' :
  tree_inv t -> generator_ok t -> make_canonical dbi fuel h t = (r, t') -> safe r -> tree_inv t'.
Proof.
  intros Hi Hg H Hs. unfold make_canonical in H. apply st_get_inv in H.
  destruct (get_blocks_chain_id _ _) as [id|]; [|case_match; by injection H as _ <-].
  apply st_bind_safe in H as (o1 & t1 & H1 & Ho1 & H); [|done].
  destruct (take_chain_spec _ _ _ _ _ Hi H1 Ho1) as (c & -> & Hc & Hid & Hlt & Hi1 & Hg1).
  destruct H as [(? & [= <-] & H)|(_ & e & ?)]; [|done].
  apply st_bind_safe in H as (o2 & t2 & H2 & Ho2 & H); [|done].
  destruct (split_chain_spec _ _ _ _ _ _ _ Hi1 Hc Hid Hlt H2 Ho2) as (can & -> & Hcan & Hi2 & Hg2 & _).
  destruct H as [(? & [= <-] & H)|(_ & e & ?)]; [|done]. apply or_panic_inv in H as (bf & Hbf & H); [|done].
  destruct (fork_block_below _ _ Hcan Hbf) as [_ Hbelow].
  apply st_bind_safe in H as (o3 & t3 & H3 & Ho3 & H); [|done].
  apply promote_spec in H3 as (n' & cs & -> & Hsub & (Hok & Hsort & _) & Hi3 & Hg3); [| | |done].
  2: { eapply tree_inv_weaken; [|exact Hi2]. intros h' [[]|?]. by constructor. }
  2: { split_and!; [by apply Forall_singleton|repeat constructor|by apply Forall_singleton]. }
  destruct H as [(? & [= <-] & H)|(_ & e & ?)]; [|done].
  apply st_get_inv in H. apply or_panic_inv in H as (ot & _ & H); [|done].
  destruct (reverse cs) as [|low rest] eqn:Er; [by injection H as <- <-|].
  apply st_bind_safe in H as (o4 & t4 & H4 & Ho4 & H); [|done]. injection H4 as <- <-.
  assert (Hall : exists nc, append_all (E := E) low rest = Ok nc).
  { clear -Ho4. revert low Ho4. induction rest as [|c rest IH]; intros low; cbn; [by eexists|]. case_match; try done. apply IH. }
  destruct Hall as [nc Hnc]. rewrite Hnc in H. destruct H as [(? & [= <-] & H)|(_ & e & ?)]; [|done].
  apply append_all_spec in Hnc as [Hnck Hblocks]; [|done|rewrite <- Er; by apply Forall_reverse].
  eapply install_canonical_inv; [exact Hi3|unfold generator_ok in *; congruence|done| |exact H|done].
  intros h' Hh'. unfold promoted_has in Hh'. apply Exists_exists in Hh' as (c' & Hin & n & b & Hb & Hh').
  exists n, b. split; [|done]. rewrite Forall_forall in Hblocks. eapply lookup_weaken; [exact Hb|].
  apply Hblocks. rewrite <- Er. by apply elem_of_reverse.
Qed.

(** ** Finalization and canonical hash updates *)

Lemma finalize_block_inv fuel f t r t' :
  tree_inv t -> 0 <= f -> finalize_block (E := E) fuel f t = (r, t') -> tree_inv t'.
Proof.
  intros Hi Hf H. unfold finalize_block in H. apply st_get_inv in H. lifted H t1 Ht1. injection H as _ <-.
  by eapply (finalize_tree_inv (E := E)).
Qed.

Lemma peek_chains_inv fuel s t t' :
  tree_inv t -> peek_chains (E := E) fuel s t = Ok t' -> tree_inv t'.
Proof.
  revert s t. induction fuel as [|fuel IH]; intros s t Hi H; [done|]. cbn in H.
  destruct (set_first s) as [x|]; [|by injection H as <-]. destruct (drop_chain x t) as [lose t1] eqn:Ed.
  eapply IH; [|exact H]. by eapply drop_chain_inv.
Qed.

Lemma update_canonical_hashes_inv fuel f t r t' :
  tree_inv t -> 0 <= f -> update_canonical_hashes dbi fuel f t = (r, t') -> tree_inv t'.
Proof.
  intros Hi Hf H. unfold update_canonical_hashes in H.
  apply st_bind_inv in H as [(u & t1 & H1 & H)|[_ ->]].
  - apply finalize_block_inv in H1; [|done|done]. apply st_get_inv in H. lifted H hs Hhs.
    destruct (update_block_hashes _ _) as [s i] eqn:Eu. lifted H t2 Ht2. injection H as _ <-.
    apply update_block_hashes_shrinks in Eu as [Hs Hl]. eapply peek_chains_inv; [|exact Ht2].
    apply set_indices_inv; [done|done|]. rewrite Hl. apply H1.
  - destruct (finalize_block fuel f t) eqn:Ef. by eapply finalize_block_inv.
Qed.

(** ** Reachable trees *)

Inductive tree_op :=
| OpInsert (block : SealedBlockWithSenders)
| OpFinalize (finalized_block : Z)
| OpUpdateHashes (last_finalized_block : Z)
| OpMakeCanonical (block_hash : Z).

(** Numbers are unsigned 64-bit integers. *)
Definition op_ok (o : tree_op) : Prop :=
  match o with
  | OpInsert b => in_u 64 (b_number b)
  | OpFinalize f | OpUpdateHashes f => in_u 64 f
  | OpMakeCanonical _ => True
  end.

Definition tree_run (fuel : nat) (o : tree_op) : st (BlockchainTree D) (ExecError E) unit :=
  match o with
  | OpInsert b => insert_block_with_senders dbi ex fuel b;; mret tt
  | OpFinalize f => finalize_block fuel f
  | OpUpdateHashes f => update_canonical_hashes dbi fuel f
  | OpMakeCanonical h => make_canonical dbi fuel h
  end.

(** A tree as [BlockchainTree::new] builds it, then any operations that return,
    with a result or an error. *)
Inductive tree_reachable : BlockchainTree D -> Prop :=
| reach_new d depth max_blocks additional t :
    Forall (fun e => 0 <= e.1) (match db_last_canonical dbi d (wadd 64 depth additional) with Ok l => l | _ => [] end) ->
    tree_new dbi d depth max_blocks additional = Ok t -> tree_reachable t
| reach_op fuel o t r t' :
    tree_reachable t -> generator_ok t -> op_ok o -> tree_run fuel o t = (r, t') -> safe r -> tree_reachable t'.

Lemma tree_new_inv d depth max_blocks additional t :
  Forall (fun e => 0 <= e.1) (match db_last_canonical dbi d (wadd 64 depth additional) with Ok l => l | _ => [] end) ->
  tree_new dbi d depth max_blocks additional = Ok t -> tree_inv t.
Proof.
  intros Hl H. unfold tree_new in H. case_match; [done|].
  destruct (db_last_canonical dbi d (wadd 64 depth additional)) as [l| | |]; try done. injection H as <-.
  split; cbn; [done|intros id [c Hc]; by rewrite lookup_empty in Hc|apply map_Forall_empty| |done].
  assert (Hd : forall o : option (Z * Z), (forall e, o = Some e -> e ∈ l) -> 0 <= default 0 (fst <$> o)).
  { intros [e|] Ho; cbn; [|lia]. rewrite Forall_forall in Hl. by apply Hl, Ho. }
  case_match; apply Hd; intros e He; [by eapply list_elem_of_lookup_2|by apply last_Some_elem_of].
Qed.

(** C4. In every reachable tree the block index is sound: each hash it maps to a
    chain id belongs to a block of a chain the tree has under that id, chain ids are
    below the generator, and every chain is non-empty with blocks stored under their
    own numbers.  So the lookups that [make_canonical] unwraps succeed. *)
Theorem tree_reachable_inv t : tree_reachable t -> tree_inv t.
Proof.
  induction 1 as [d depth mb ad t Hl Hn|fuel o t r t' _ IH Hg Ho Hrun Hs]; [by eapply tree_new_inv|].
  destruct o as [b|f|f|h]; cbn in Hrun, Ho.
  - apply st_bind_inv in Hrun as [(a & t1 & H & [= _ <-])|[_ ->]];
      [|destruct (insert_block_with_senders _ _ _ _ t) eqn:H]; by eapply insert_block_with_senders_inv.
  - eapply finalize_block_inv; [done| |exact Hrun]. apply Ho.
  - eapply update_canonical_hashes_inv; [done| |exact Hrun]. apply Ho.
  - by eapply make_canonical_inv.
Qed.
End Ops.

(** ** The beacon consensus as the tree's consensus *)

Section Beacon.
Context {SP : Type} (now : Z) (spec : ChainSpec) (pre_block : SealedBlock -> outcome ConsensusError unit)
        (run : SubStateData -> SP -> gmap Z Z -> gmap Z Z -> SealedBlock -> Z -> list Z -> outcome ConsensusError ExecutionResult).

Definition beacon_executor : Executor SP ConsensusError :=
  mkExecutor SP ConsensusError (validate_header spec) (pre_validate_header now spec) pre_block run.

(** [BeaconConsensus] keeps the promise the tree relies on. *)
#[global] Instance beacon_executor_ok : ExecutorOk beacon_executor.
Proof.
  split. intros h p u H. cbn in H. unfold pre_validate_header in H. apply bind_Ok in H as (u' & _ & H).
  unfold validate_header_regarding_parent in H. apply ensure_bind in H as [H%Z.eqb_eq _]. done.
Qed.
End Beacon.

(** ** Witnesses *)

Definition sample_tree_header (n hash parent : Z) : SealedHeader :=
  mkSealedHeader (mkHeader parent 0 0 0 0 0 None 0 0 n 2048 0 n 0 0 None []) hash.
Definition sample_db (hashes : list (Z * Z)) : Db unit unit ConsensusError :=
  mkDb unit unit ConsensusError (fun _ _ => Ok (Some (sh_header (sample_tree_header 1 10 9)))) (fun _ => Ok tt)
    (fun _ _ => Ok tt) (fun _ _ => Ok hashes) (fun d _ _ => Ok d) (fun d _ => Ok d) (fun d _ => Ok ([], d)) Ok.
#[global] Instance sample_db_ok hashes : DbOk (sample_db hashes).
Proof. split. intros d n bs d' [= <- _]. constructor. Qed.

Definition sample_executor : Executor unit ConsensusError :=
  beacon_executor 100 (mkChainSpec 1 None ∅) (fun _ => Ok tt) (fun _ _ _ _ _ _ _ => Ok (mkExecutionResult [] ∅)).
Definition sample_tree_block : SealedBlockWithSenders :=
  mkBlockWithSenders (mkSealedBlock (sample_tree_header 2 20 10) [] [] None) [].

(** A new tree on canonical block 1, and the same after inserting block 2. *)
Definition sample_tree : BlockchainTree unit := mkTree ∅ 0 (BlockIndices_new 1 0 {[1 := 10]}) 64 1 tt.
Definition sample_tree2 : BlockchainTree unit :=
  (insert_block_with_senders (sample_db [(1, 10)]) sample_executor 5 sample_tree_block sample_tree).2.

Lemma sample_tree_new : tree_new (sample_db [(1, 10)]) tt 1 64 0 = Ok sample_tree.
Proof. vm_compute. reflexivity. Qed.

Lemma sample_tree2_inv : tree_inv sample_tree2.
Proof.
  eapply (insert_block_with_senders_inv (sample_db [(1, 10)]) sample_executor 5 sample_tree_block sample_tree (Ok true)).
  - eapply (tree_new_inv (sample_db [(1, 10)])); [|exact sample_tree_new]. repeat constructor; cbn; lia.
  - split; vm_compute; [discriminate|reflexivity].
  - split; vm_compute; [discriminate|reflexivity].
  - vm_compute. reflexivity.
Qed.

Lemma tree_reachable_inv_witness : chains sample_tree2 <> ∅ /\ tree_inv sample_tree2.
Proof.
  split; [vm_compute; discriminate|]. apply (tree_reachable_inv (sample_db [(1, 10)]) sample_executor).
  apply (reach_op (sample_db [(1, 10)]) sample_executor 5 (OpInsert sample_tree_block) sample_tree (Ok tt) sample_tree2).
  - eapply (reach_new (sample_db [(1, 10)]) sample_executor tt 1 64 0); [repeat constructor; cbn; lia|exact sample_tree_new].
  - split; vm_compute; [discriminate|reflexivity].
  - split; vm_compute; [discriminate|reflexivity].
  - vm_compute. reflexivity.
  - exact I.
Defined.

(** Block 2 forks off block 1, which finalizing 5 passes. *)
Lemma finalize_block_total_witness : is_Some (chains sample_tree2 !! 0) /\
  exists n t', (forall fuel, (n <= fuel)%nat -> finalize_block (E := unit) fuel 5 sample_tree2 = (Ok tt, t')) /\ chains t' !! 0 = None.
Proof.
  split; [vm_compute; by eexists|].
  destruct (finalize_block_total (E := unit) sample_tree2 5) as (n & t' & Hn & _ & _ & _ & Hfork & _); [exact sample_tree2_inv|lia|].
  exists n, t'. split; [exact Hn|]. apply (Hfork 1 10 0); [by vm_compute|by vm_compute|]. exists 20, {[20]}. by vm_compute.
Defined.

Lemma update_canonical_hashes_diverges_witness :
  (update_canonical_hashes (sample_db [(1, 99)]) 50 0 sample_tree2).1 = Diverge.
Proof.
  eapply (update_canonical_hashes_diverges (sample_db [(1, 99)]) sample_tree2 0 50).
  - vm_compute. reflexivity.
  - reflexivity.
  - vm_compute. discriminate.
Defined.
