(* ===== verification/Pipeline.v ===== *)
(** * The staged sync pipeline

    crates/stages/src: stage.rs, id.rs, error.rs, util.rs, pipeline/{mod, ctrl, event,
    set, builder}.rs and sets.rs.  A stage is a pair of operations on the current
    database transaction and on the rest of the world, which holds the state of the
    stages themselves.  The database is a record of operations, each of which may
    fail.  Listeners are the list of the events sent so far; metrics are left out.
    Loops take fuel and end in [Diverge] without it. *)
From S2P Require Import Prelude.

Abbreviation StageId := string (only parsing).

(** ** stage.rs *)
Record ExecInput := mkExecInput { previous_stage : option (StageId * Z); ei_stage_progress : option Z }.
Record UnwindInput := mkUnwindInput { ui_stage_progress : Z; unwind_to : Z; ui_bad_block : option Z }.
Record ExecOutput := mkExecOutput { eo_stage_progress : Z; done_ : bool }.
Record UnwindOutput := mkUnwindOutput { uo_stage_progress : Z }.

Inductive ExecAction :=
| Run (first last : Z) (capped : bool)
| Done (stage_progress target : Z).

Definition previous_stage_progress (i : ExecInput) : Z := default 0 (snd <$> previous_stage i).

Definition next_action (i : ExecInput) (max_threshold : option Z) : ExecAction :=
  let stage_progress := default 0 (ei_stage_progress i) in
  let previous_stage_progress := previous_stage_progress i in
  let start_block := wadd 64 stage_progress 1 in
  let end_block :=
    match max_threshold with
    | Some threshold => previous_stage_progress `min` wadd 64 stage_progress threshold
    | None => previous_stage_progress
    end in
  let capped := end_block <? previous_stage_progress in
  if start_block <=? end_block then Run start_block end_block capped
  else Done stage_progress end_block.

(** ** error.rs, without the payloads that no code of the pipeline reads;
    [Fatal] holds a stage error, [FatalOther] an error of another type *)
Inductive StageError :=
| Validation (block : Z)
| Database
| ExecutionError (block : Z)
| StageProgress (block : Z)
| ChannelClosed
| DatabaseIntegrity
| TransactionError
| Download
| Recoverable
| Fatal (cause : StageError)
| FatalOther.

Definition is_fatal (e : StageError) : bool :=
  match e with
  | Database | Download | DatabaseIntegrity | StageProgress _ | ExecutionError _ | ChannelClosed | Fatal _ | FatalOther => true
  | Validation _ | TransactionError | Recoverable => false
  end.

(** ** id.rs *)
Definition HEADERS : StageId := "Headers".
Definition BODIES : StageId := "Bodies".

Definition is_downloading_stage (s : StageId) : bool := bool_decide (s = HEADERS) || bool_decide (s = BODIES).

(** ** util.rs *)
Definition opt_max (a : option Z) (b : Z) : option Z := match a with None => Some b | Some v => Some (v `max` b) end.
Definition opt_min (a : option Z) (b : Z) : option Z := match a with None => Some b | Some v => Some (v `min` b) end.

(** ** pipeline/ctrl.rs, pipeline/event.rs and the sync states *)
Inductive ControlFlow :=
| Unwind (target : Z) (bad_block : option Z)
| Continue (progress : Z)
| NoProgress (stage_progress : option Z).

Definition should_continue (c : ControlFlow) : bool := match c with Unwind _ _ => false | _ => true end.

Inductive PipelineEvent :=
| Running (stage_id : StageId) (stage_progress : option Z)
| Ran (stage_id : StageId) (result : ExecOutput)
| Unwinding (stage_id : StageId) (input : UnwindInput)
| Unwound (stage_id : StageId) (result : UnwindOutput)
| ErrorEvent (stage_id : StageId)
| Skipped (stage_id : StageId).

Inductive SyncState := IdleState | Downloading (target_block : Z) | Executing (target_block : Z).

(** ** PipelineProgress *)
Record PipelineProgress := mkProgress {
  progress : option Z;
  maximum_progress : option Z;
  minimum_progress : option Z }.

Definition progress_update (b : Z) (p : PipelineProgress) : PipelineProgress :=
  mkProgress (Some b) (opt_max (maximum_progress p) b) (opt_min (minimum_progress p) b).

Definition current_sync_state (downloading : bool) (p : PipelineProgress) : SyncState :=
  match progress p with
  | Some b => if downloading then Downloading b else Executing b
  | None => IdleState
  end.

Definition next_ctrl (p : PipelineProgress) : ControlFlow :=
  match progress p with Some b => Continue b | None => NoProgress None end.

Section Pipeline.
(** [Tx] is an open write transaction, [W] the rest of the world: the committed
    database, the stages, the network. *)
Context {DbError Tx W : Type}.

Inductive PipelineError :=
| PStage (e : StageError)
| PDatabase (e : DbError)
| PChannel
| PInternal.

(** The operations of the database that the pipeline calls: [tx_mut] and [view] of
    the environment, [commit], and [get] and [put] on the table [SyncStage]. *)
Record Env := mkEnv {
  tx_mut : st W DbError Tx;
  tx_commit : Tx -> st W DbError bool;
  tx_get : StageId -> Tx -> outcome DbError (option Z);
  tx_put : StageId -> Z -> Tx -> outcome DbError Tx;
  db_view : StageId -> st W DbError (option Z) }.

Record Stage := mkStage {
  stage_id : StageId;
  execute : ExecInput -> st (Tx * W) StageError ExecOutput;
  unwind_stage : UnwindInput -> st (Tx * W) StageError UnwindOutput }.

Record Pipeline := mkPipeline {
  stages : list Stage;
  max_block : option Z;
  listeners : list PipelineEvent;
  sync_state_updater : option (list SyncState);
  pl_progress : PipelineProgress }.

Definition pipeline_default : Pipeline := mkPipeline [] None [] None (mkProgress None None None).

Variable env : Env.

Abbreviation pl := (st (Pipeline * W) PipelineError).

Definition db_result {A} (o : outcome DbError A) : outcome PipelineError A :=
  match o with Ok a => Ok a | Err e => Err (PDatabase e) | Panic => Panic | Diverge => Diverge end.

Definition on_world {A} (m : st W DbError A) : pl A := fun '(p, w) =>
  let '(o, w) := m w in (db_result o, (p, w)).

Definition on_pipeline (f : Pipeline -> Pipeline) : pl unit := fun '(p, w) => (Ok tt, (f p, w)).
Definition get_pipeline : pl Pipeline := fun '(p, w) => (Ok p, (p, w)).

(** A call of a stage: its errors are values, its panics are not caught. *)
Definition call_stage {A} (m : st (Tx * W) StageError A) (tx : Tx) : pl ((StageError + A) * Tx) := fun '(p, w) =>
  let '(o, (tx, w)) := m (tx, w) in
  (match o with
   | Ok a => Ok (inr a, tx)
   | Err e => Ok (inl e, tx)
   | Panic => Panic
   | Diverge => Diverge
   end, (p, w)).

Definition notify (e : PipelineEvent) : pl unit :=
  on_pipeline (fun p => mkPipeline (stages p) (max_block p) (listeners p ++ [e]) (sync_state_updater p) (pl_progress p)).

Definition update_sync_state (f : Pipeline -> SyncState) : pl unit :=
  on_pipeline (fun p => mkPipeline (stages p) (max_block p) (listeners p)
    ((fun l => l ++ [f p]) <$> sync_state_updater p) (pl_progress p)).

Definition update_progress (b : Z) : pl unit :=
  on_pipeline (fun p => mkPipeline (stages p) (max_block p) (listeners p) (sync_state_updater p)
    (progress_update b (pl_progress p))).

(** [Transaction::commit] of the provider commits and opens the next transaction. *)
Definition transaction_commit (tx : Tx) : pl unit :=
  _ ← on_world (tx_commit env tx);
  _ ← on_world (tx_mut env);
  mret tt.

Definition get_progress (s : StageId) (tx : Tx) : pl (option Z) := st_lift (db_result (tx_get env s tx)).
Definition save_progress (s : StageId) (b : Z) (tx : Tx) : pl Tx := st_lift (db_result (tx_put env s b tx)).

(** [zip(a, b).map_or(false, |(a, b)| a >= b)] *)
Definition reached (a b : option Z) : bool := match a, b with Some a, Some b => b <=? a | _, _ => false end.

(** ** Pipeline::execute_stage_to_completion *)
Fixpoint execute_loop (fuel : nat) (previous_stage : option (StageId * Z)) (stage : Stage) (made_progress : bool)
    : pl ControlFlow :=
  match fuel with
  | O => st_lift Diverge
  | S fuel =>
      tx ← on_world (tx_mut env);
      prev_progress ← get_progress (stage_id stage) tx;
      p ← get_pipeline;
      if reached prev_progress (max_block p) then
        notify (Skipped (stage_id stage));;
        mret (NoProgress prev_progress)
      else
        notify (Running (stage_id stage) prev_progress);;
        r ← call_stage (execute stage (mkExecInput previous_stage prev_progress)) tx;
        match r with
        | (inr out, tx) =>
            let made_progress := made_progress || negb (eo_stage_progress out =? default 0 prev_progress) in
            tx ← save_progress (stage_id stage) (eo_stage_progress out) tx;
            notify (Ran (stage_id stage) out);;
            transaction_commit tx;;
            if done_ out then
              mret (if made_progress then Continue (eo_stage_progress out)
                    else NoProgress (Some (eo_stage_progress out)))
            else execute_loop fuel previous_stage stage made_progress
        | (inl err, _) =>
            notify (ErrorEvent (stage_id stage));;
            match err with
            | Validation block => mret (Unwind (default 0 prev_progress) (Some block))
            | _ =>
                if is_fatal err then st_throw (PStage err)
                else execute_loop fuel previous_stage stage made_progress
            end
        end
  end.

Definition execute_stage_to_completion (fuel : nat) (previous_stage : option (StageId * Z)) (stage : Stage) : pl ControlFlow :=
  execute_loop fuel previous_stage stage false.

(** ** Pipeline::unwind *)
Fixpoint unwind_loop (fuel : nat) (stage : Stage) (to : Z) (bad_block : option Z) (stage_progress : Z) (tx : Tx) : pl Tx :=
  if to <? stage_progress then
    match fuel with
    | O => st_lift Diverge
    | S fuel =>
        let input := mkUnwindInput stage_progress to bad_block in
        notify (Unwinding (stage_id stage) input);;
        r ← call_stage (unwind_stage stage input) tx;
        match r with
        | (inr out, tx) =>
            tx ← save_progress (stage_id stage) (uo_stage_progress out) tx;
            notify (Unwound (stage_id stage) out);;
            unwind_loop fuel stage to bad_block (uo_stage_progress out) tx
        | (inl err, _) =>
            notify (ErrorEvent (stage_id stage));;
            st_throw (PStage (Fatal err))
        end
    end
  else mret tx.

(** The loop over the stages; [None] is the early return, which drops [tx]. *)
Fixpoint unwind_stages (fuel : nat) (l : list Stage) (to : Z) (bad_block : option Z) (tx : Tx) : pl (option Tx) :=
  match l with
  | [] => mret (Some tx)
  | stage :: l =>
      p ← get_progress (stage_id stage) tx;
      let stage_progress := default 0 p in
      if stage_progress <? to then
        notify (Skipped (stage_id stage));;
        mret None
      else
        tx ← unwind_loop fuel stage to bad_block stage_progress tx;
        unwind_stages fuel l to bad_block tx
  end.

Definition pipeline_unwind (fuel : nat) (to : Z) (bad_block : option Z) : pl unit :=
  p ← get_pipeline;
  tx ← on_world (tx_mut env);
  r ← unwind_stages fuel (reverse (stages p)) to bad_block tx;
  match r with
  | None => mret tt
  | Some tx => transaction_commit tx
  end.

(** ** Pipeline::run_loop *)
Fixpoint run_stages (fuel : nat) (previous_stage : option (StageId * Z)) (l : list Stage) : pl ControlFlow :=
  match l with
  | [] =>
      p ← get_pipeline;
      mret (next_ctrl (pl_progress p))
  | stage :: l =>
      update_sync_state (fun p => current_sync_state (is_downloading_stage (stage_id stage)) (pl_progress p));;
      next ← execute_stage_to_completion fuel previous_stage stage;
      let go_on :=
        p ← on_world (db_view env (stage_id stage));
        run_stages fuel (Some (stage_id stage, default 0 p)) l in
      match next with
      | NoProgress (Some b) => update_progress b;; go_on
      | NoProgress None => go_on
      | Continue b => update_progress b;; go_on
      | Unwind target bad_block =>
          update_sync_state (fun _ => Downloading target);;
          pipeline_unwind fuel target bad_block;;
          mret (Unwind target bad_block)
      end
  end.

Definition run_loop (fuel : nat) : pl ControlFlow :=
  p ← get_pipeline;
  run_stages fuel None (stages p).

(** ** Pipeline::run: [turns] bounds the passes, [fuel] the loops inside one *)
Fixpoint run (turns fuel : nat) : pl unit :=
  match turns with
  | O => st_lift Diverge
  | S turns =>
      next_action ← run_loop fuel;
      p ← get_pipeline;
      if should_continue next_action && reached (minimum_progress (pl_progress p)) (max_block p)
      then mret tt
      else run turns fuel
  end.

(** ** pipeline/set.rs *)
Record StageEntry := mkStageEntry { se_stage : Stage; enabled : bool }.
Record StageSetBuilder := mkStageSetBuilder { set_stages : gmap StageId StageEntry; order : list StageId }.

Definition set_default : StageSetBuilder := mkStageSetBuilder ∅ [].

(** [iter().position(..)]; [None] is the panic of [index_of]. *)
Definition index_of (s : StageId) (b : StageSetBuilder) : option nat := fst <$> list_find (eq s) (order b).

(** [find(|(i, id)| *i != added_at_index && **id == stage_id)] *)
Fixpoint find_other (s : StageId) (skip : nat) (l : list StageId) : option nat :=
  match l with
  | [] => None
  | id :: l =>
      match skip with
      | O => S <$> (fst <$> list_find (eq s) l)
      | S skip => if decide (id = s) then Some O else S <$> find_other s skip l
      end
  end.

Definition upsert_stage_state (stage : Stage) (added_at_index : nat) (b : StageSetBuilder) : StageSetBuilder :=
  let m := <[stage_id stage := mkStageEntry stage true]> (set_stages b) in
  match set_stages b !! stage_id stage with
  | Some _ =>
      match find_other (stage_id stage) added_at_index (order b) with
      | Some to_remove => mkStageSetBuilder m (delete to_remove (order b))
      | None => mkStageSetBuilder m (order b)
      end
  | None => mkStageSetBuilder m (order b)
  end.

Definition vec_insert (i : nat) (s : StageId) (l : list StageId) : list StageId := take i l ++ s :: drop i l.

Definition insert_order (i : nat) (s : StageId) (b : StageSetBuilder) : StageSetBuilder :=
  mkStageSetBuilder (set_stages b) (vec_insert i s (order b)).

Definition set_set (stage : Stage) (b : StageSetBuilder) : option StageSetBuilder :=
  match set_stages b !! stage_id stage with
  | None => None
  | Some e => Some (mkStageSetBuilder (<[stage_id stage := mkStageEntry stage (enabled e)]> (set_stages b)) (order b))
  end.

Definition add_stage (stage : Stage) (b : StageSetBuilder) : StageSetBuilder :=
  let target_index := length (order b) in
  upsert_stage_state stage target_index (insert_order target_index (stage_id stage) b).

Definition add_before (stage : Stage) (before : StageId) (b : StageSetBuilder) : option StageSetBuilder :=
  target_index ← index_of before b;
  Some (upsert_stage_state stage target_index (insert_order target_index (stage_id stage) b)).

Definition add_after (stage : Stage) (after : StageId) (b : StageSetBuilder) : option StageSetBuilder :=
  i ← index_of after b;
  let target_index := S i in
  Some (upsert_stage_state stage target_index (insert_order target_index (stage_id stage) b)).

Definition set_enabled (v : bool) (s : StageId) (b : StageSetBuilder) : option StageSetBuilder :=
  match set_stages b !! s with
  | None => None
  | Some e => Some (mkStageSetBuilder (<[s := mkStageEntry (se_stage e) v]> (set_stages b)) (order b))
  end.
Definition enable : StageId -> StageSetBuilder -> option StageSetBuilder := set_enabled true.
Definition disable : StageId -> StageSetBuilder -> option StageSetBuilder := set_enabled false.

Fixpoint build_loop (l : list StageId) (m : gmap StageId StageEntry) : list Stage :=
  match l with
  | [] => []
  | id :: l =>
      match m !! id with
      | Some e => (if enabled e then [se_stage e] else []) ++ build_loop l (delete id m)
      | None => build_loop l m
      end
  end.

Definition set_build (b : StageSetBuilder) : list Stage := build_loop (order b) (set_stages b).

Definition add_set (set : StageSetBuilder) (b : StageSetBuilder) : StageSetBuilder :=
  foldl (fun b stage => add_stage stage b) b (set_build set).

(** ** pipeline/builder.rs *)
Definition builder_add_stage (stage : Stage) (p : Pipeline) : Pipeline :=
  mkPipeline (stages p ++ [stage]) (max_block p) (listeners p) (sync_state_updater p) (pl_progress p).
Definition add_stages (set : StageSetBuilder) (p : Pipeline) : Pipeline :=
  foldl (fun p stage => builder_add_stage stage p) p (set_build set).
Definition with_max_block (block : Z) (p : Pipeline) : Pipeline :=
  mkPipeline (stages p) (Some block) (listeners p) (sync_state_updater p) (pl_progress p).
Definition with_sync_state_updater (p : Pipeline) : Pipeline :=
  mkPipeline (stages p) (max_block p) (listeners p) (Some []) (pl_progress p).

(** ** sets.rs, over the stages of each set *)
Definition online_stages (header total_difficulty body : Stage) : StageSetBuilder :=
  add_stage body (add_stage total_difficulty (add_stage header set_default)).
Definition execution_stages (sender_recovery execution : Stage) : StageSetBuilder :=
  add_stage execution (add_stage sender_recovery set_default).
Definition hashing_stages (merkle_unwind account_hashing storage_hashing merkle_execution : Stage) : StageSetBuilder :=
  add_stage merkle_execution (add_stage storage_hashing (add_stage account_hashing (add_stage merkle_unwind set_default))).
Definition history_indexing_stages (tx_lookup index_storage index_account : Stage) : StageSetBuilder :=
  add_stage index_account (add_stage index_storage (add_stage tx_lookup set_default)).
Definition offline_stages (execution hashing history : StageSetBuilder) : StageSetBuilder :=
  add_set history (add_set hashing execution).
Definition default_stages (online offline : StageSetBuilder) (finish : Stage) : StageSetBuilder :=
  add_stage finish (add_set offline online).
End Pipeline.
Arguments Env : clear implicits.
Arguments Stage : clear implicits.
Arguments Pipeline : clear implicits.
Arguments PipelineError : clear implicits.
Arguments StageSetBuilder : clear implicits.
