(* ===== verification/PipelineProofs.v ===== *)
(** * Correctness of the staged sync pipeline

    What the pipeline does with checkpoints, for any stages: when [run] stops, what an
    unwind commits, how the checkpoints follow from the events, and how a stage set is
    ordered. *)
From S2P Require Import Prelude Pipeline.

(** ** What every run of a computation preserves *)
Section Always.
Context {S E : Type}.
Implicit Types R : relation S.

Definition always {A} R (m : st S E A) : Prop := forall s, R s (snd (m s)).

Lemma always_bind {A B} R `{!Transitive R} (m : st S E A) (f : A -> st S E B) :
  always R m -> (forall a, always R (f a)) -> always R (m ≫= f).
Proof.
  intros Hm Hf s. specialize (Hm s). unfold mbind, st_bind.
  destruct (m s) as [[a|e| |] s1]; try done. by etrans; [apply Hm|apply Hf].
Qed.

Lemma always_ret {A} R `{!Reflexive R} (a : A) : always R (mret a : st S E A).
Proof. intros s. apply reflexivity. Qed.

Lemma always_throw {A} R `{!Reflexive R} e : always R (st_throw e : st S E A).
Proof. intros s. apply reflexivity. Qed.

Lemma always_lift {A} R `{!Reflexive R} o : always R (st_lift o : st S E A).
Proof. intros s. apply reflexivity. Qed.
End Always.

Create HintDb pipeline.
#[global] Hint Resolve always_ret always_throw always_lift : pipeline.

(** Walk through a monadic program, one bind or one case at a time. *)
Ltac walk :=
  repeat first
    [ progress intros
    | solve [eauto with pipeline typeclass_instances]
    | apply always_bind; [apply _| |]
    | match goal with
      | |- always _ (let _ := _ in _) => cbv zeta
      | |- always _ (if ?b then _ else _) => destruct b
      | |- always _ (match ?x with _ => _ end) => destruct x
      end ].

(** ** The smallest progress ever seen *)
Section Minimum.
Context {DbError Tx W : Type} (env : Env DbError Tx W).
Abbreviation pw := (Pipeline Tx W * W)%type.
Abbreviation pl := (st pw (PipelineError DbError)).

Definition min_le (p p' : Pipeline Tx W) : Prop :=
  forall m, minimum_progress (pl_progress p) = Some m ->
  exists m', minimum_progress (pl_progress p') = Some m' /\ m' <= m.

(** The configuration is fixed, and the minimum only falls. *)
Definition narrows (s s' : pw) : Prop :=
  stages s'.1 = stages s.1 /\ max_block s'.1 = max_block s.1 /\ min_le s.1 s'.1.

#[local] Instance narrows_pre : PreOrder narrows.
Proof.
  split.
  - intros s. repeat split; try done. intros m Hm. exists m. split; [done|lia].
  - intros s1 s2 s3 (E1 & E2 & E3) (F1 & F2 & F3). split_and!; [congruence..|].
    intros m (m' & Hm' & ?)%E3. apply F3 in Hm' as (m'' & Hm'' & ?). exists m''. split; [done|lia].
Qed.

Lemma world_narrows {A} (m : st W DbError A) : always narrows (on_world (Tx := Tx) m).
Proof. intros [p w]. unfold on_world. destruct (m w) as [o w']. apply (reflexivity (R := narrows) (p, w)). Qed.

Lemma get_narrows : always narrows (get_pipeline (DbError := DbError) (Tx := Tx) (W := W)).
Proof. intros [p w]. apply (reflexivity (R := narrows) (p, w)). Qed.

Lemma call_narrows {A} (m : st (Tx * W) StageError A) tx : always narrows (call_stage (DbError := DbError) m tx).
Proof.
  intros [p w]. unfold call_stage. destruct (m (tx, w)) as [o [tx' w']]. apply (reflexivity (R := narrows) (p, w)).
Qed.

Lemma notify_narrows e : always narrows (notify (DbError := DbError) (Tx := Tx) (W := W) e).
Proof. intros [p w]. apply (reflexivity (R := narrows) (p, w)). Qed.

Lemma sync_narrows f : always narrows (update_sync_state (DbError := DbError) (Tx := Tx) (W := W) f).
Proof. intros [p w]. apply (reflexivity (R := narrows) (p, w)). Qed.

Lemma progress_narrows b : always narrows (update_progress (DbError := DbError) (Tx := Tx) (W := W) b).
Proof.
  intros [p w]. repeat split. intros m Hm. cbn in *. rewrite Hm. cbn. eexists. split; [done|]. lia.
Qed.
#[local] Hint Resolve world_narrows get_narrows call_narrows notify_narrows sync_narrows progress_narrows : pipeline.

Lemma commit_narrows tx : always narrows (transaction_commit env tx).
Proof. unfold transaction_commit. walk. Qed.
#[local] Hint Resolve commit_narrows : pipeline.

Lemma execute_narrows fuel prev stage mp : always narrows (execute_loop env fuel prev stage mp).
Proof. revert mp. induction fuel as [|fuel IH]; intros mp; cbn [execute_loop]; unfold get_progress, save_progress; walk. Qed.

Lemma unwind_loop_narrows fuel stage to bad sp tx : always narrows (unwind_loop env fuel stage to bad sp tx).
Proof. revert sp tx. induction fuel as [|fuel IH]; intros sp tx; cbn [unwind_loop]; unfold save_progress; walk. Qed.
#[local] Hint Resolve execute_narrows unwind_loop_narrows : pipeline.

Lemma unwind_narrows fuel to bad : always narrows (pipeline_unwind env fuel to bad).
Proof.
  assert (H : forall l tx, always narrows (unwind_stages env fuel l to bad tx)).
  { induction l as [|stage l IH]; intros tx; cbn [unwind_stages]; unfold get_progress; walk. }
  unfold pipeline_unwind. walk.
Qed.
#[local] Hint Resolve unwind_narrows : pipeline.

Lemma run_loop_narrows fuel : always narrows (run_loop env fuel).
Proof.
  assert (H : forall l prev, always narrows (run_stages env fuel prev l)).
  { induction l as [|stage l IH]; intros prev; cbn [run_stages]; unfold execute_stage_to_completion; walk. }
  unfold run_loop. walk.
Qed.

(** The block a pipeline is told to stop at is compared with the smallest progress
    any stage ever reported: once one stage has reported less, [run] never returns
    successfully, whatever the stages reach later. *)
Theorem run_never_stops turns fuel (p : Pipeline Tx W) (w : W) (seen target : Z) :
  minimum_progress (pl_progress p) = Some seen -> max_block p = Some target -> seen < target ->
  fst (run env turns fuel (p, w)) <> Ok tt.
Proof.
  revert p w seen. induction turns as [|turns IH]; intros p w seen Hs Ht Hlt; [done|]. cbn [run].
  pose proof (run_loop_narrows fuel (p, w)) as (_ & Hm & Hn). unfold mbind at 1, st_bind at 1.
  destruct (run_loop env fuel (p, w)) as [[a|e| |] [p' w']]; try done. cbn in Hm, Hn.
  apply Hn in Hs as (m' & Hs' & ?). erewrite bind_ok by done. rewrite Hm, Ht, Hs'. cbn [reached].
  rewrite (proj2 (Z.leb_gt _ _)) by lia. rewrite andb_false_r. apply (IH _ _ m'); [done|by rewrite Hm|lia].
Qed.
End Minimum.

(** ** What the pipeline relies on

    [committed] is the table of checkpoints in the database, [pending] the one that an
    open transaction sees.  A transaction starts from what is committed, sees its own
    writes, and nobody else does before the commit. *)
Class Checkpoints {DbError Tx W} (env : Env DbError Tx W) (committed : W -> gmap string Z)
    (pending : Tx -> gmap string Z) : Prop := {
  cp_begin w o w' : tx_mut env w = (o, w') ->
    committed w' = committed w /\ forall tx, o = Ok tx -> pending tx = committed w;
  cp_get s tx p : tx_get env s tx = Ok p -> p = pending tx !! s;
  cp_put s b tx tx' : tx_put env s b tx = Ok tx' -> pending tx' = <[s := b]> (pending tx);
  cp_commit tx w b w' : tx_commit env tx w = (Ok b, w') -> committed w' = pending tx;
  cp_view s w p w' : db_view env s w = (Ok p, w') -> committed w' = committed w /\ p = committed w !! s }.

(** A database that is up. *)
Class Available {DbError Tx W} (env : Env DbError Tx W) : Prop := {
  av_begin w : exists tx w', tx_mut env w = (Ok tx, w');
  av_get s tx : exists p, tx_get env s tx = Ok p;
  av_put s b tx : exists tx', tx_put env s b tx = Ok tx';
  av_commit tx w : exists b w', tx_commit env tx w = (Ok b, w');
  av_view s w : exists p w', db_view env s w = (Ok p, w') }.

(** A stage leaves the checkpoints to the pipeline.  It may commit what it has done
    while it executes, when no checkpoint is pending; while it unwinds, as the merkle
    stage does, a commit also writes the checkpoints that are pending. *)
Record leaves_checkpoints {Tx W} (committed : W -> gmap string Z) (pending : Tx -> gmap string Z) (stage : Stage Tx W)
    : Prop := {
  lc_execute i tx w o tx' w' : pending tx = committed w -> execute stage i (tx, w) = (o, (tx', w')) ->
    pending tx' = pending tx /\ committed w' = committed w;
  lc_unwind i tx w o tx' w' : unwind_stage stage i (tx, w) = (o, (tx', w')) ->
    pending tx' = pending tx /\ (committed w' = committed w \/ committed w' = pending tx) }.

(** Unwinding fails or gets closer to its target, without passing it. *)
Definition unwinds {Tx W} (stage : Stage Tx W) : Prop :=
  forall i tx w, unwind_to i < ui_stage_progress i ->
  match fst (unwind_stage stage i (tx, w)) with
  | Ok out => unwind_to i <= uo_stage_progress out < ui_stage_progress i
  | Err _ => True
  | _ => False
  end.
Definition unwind_succeeds {Tx W} (stage : Stage Tx W) : Prop :=
  forall i tx w, exists out, fst (unwind_stage stage i (tx, w)) = Ok out.
Definition unwind_commits_nothing {Tx W} (committed : W -> gmap string Z) (stage : Stage Tx W) : Prop :=
  forall i tx w, committed (snd (snd (unwind_stage stage i (tx, w)))) = committed w.

Abbreviation checkpoint m s := (default 0 ((m : gmap string Z) !! s)).

(** The stages [ids] are brought back to [to], the others are as before. *)
Definition unwound (to : Z) (ids : list string) (m m' : gmap string Z) : Prop :=
  forall s, m' !! s = if bool_decide (s ∈ ids) && (to <? checkpoint m s) then Some to else m !! s.

(** Checkpoints of the stages [ids] may have been lowered, not below [to]. *)
Definition lowered (to : Z) (ids : list string) (m m' : gmap string Z) : Prop :=
  forall s, m' !! s = m !! s \/ (s ∈ ids /\ exists b, m' !! s = Some b /\ to <= b < checkpoint m s).

Section Unwind.
Context {DbError Tx W : Type} (env : Env DbError Tx W) (committed : W -> gmap string Z) (pending : Tx -> gmap string Z).
Context `{!Checkpoints env committed pending, !Available env}.

Lemma save_ok s b tx (pw : Pipeline Tx W * W) :
  exists tx', save_progress env s b tx pw = (Ok tx', pw) /\ pending tx' = <[s := b]> (pending tx).
Proof.
  destruct (av_put s b tx) as [tx' E]. exists tx'. unfold save_progress, st_lift. rewrite E.
  split; [done|]. by apply cp_put.
Qed.

Lemma get_ok s tx (pw : Pipeline Tx W * W) : get_progress env s tx pw = (Ok (pending tx !! s), pw).
Proof.
  destruct (av_get s tx) as [p E]. unfold get_progress, st_lift. rewrite E. cbn. by rewrite (cp_get _ _ _ E).
Qed.

Lemma begin_ok (p : Pipeline Tx W) w :
  exists tx w', on_world (tx_mut env) (p, w) = (Ok tx, (p, w')) /\ committed w' = committed w /\ pending tx = committed w.
Proof.
  destruct (av_begin w) as (tx & w' & E). destruct (cp_begin _ _ _ E) as [Hc Hp].
  exists tx, w'. unfold on_world. rewrite E. split_and!; [done..|]. by apply Hp.
Qed.

Lemma commit_ok tx (p : Pipeline Tx W) w :
  exists w', transaction_commit env tx (p, w) = (Ok tt, (p, w')) /\ committed w' = pending tx.
Proof.
  destruct (av_commit tx w) as (b & w1 & E). destruct (begin_ok p w1) as (tx' & w' & E' & Hc & _).
  exists w'. unfold transaction_commit. rewrite (bind_ok _ _ (p, w) b (p, w1)) by (unfold on_world; by rewrite E).
  erewrite bind_ok by exact E'. split; [done|]. rewrite Hc. by apply (cp_commit _ _ _ _ E).
Qed.

Lemma unwind_loop_steps fuel : forall stage to bad sp tx p w,
  leaves_checkpoints committed pending stage -> unwinds stage -> to <= sp <= to + Z.of_nat fuel ->
  exists o p' w', unwind_loop env fuel stage to bad sp tx (p, w) = (o, (p', w')) /\
    match o with
    | Ok tx' => pending tx' = if to <? sp then <[stage_id stage := to]> (pending tx) else pending tx
    | Err e => exists e', e = PStage (Fatal e')
    | _ => False
    end /\
    (unwind_succeeds stage -> exists tx', o = Ok tx') /\
    (unwind_commits_nothing committed stage -> committed w' = committed w) /\
    (committed w' = committed w \/ committed w' = pending tx \/
     exists b, committed w' = <[stage_id stage := b]> (pending tx) /\ to <= b < sp).
Proof.
  induction fuel as [|fuel IH]; intros stage to bad sp tx p w Hk Hu Hf; cbn [unwind_loop].
  { zdec. exists (Ok tx), p, w. split_and!; [done|done|by eexists|done|by left]. }
  destruct (Z.ltb_spec to sp) as [Hlt|]; [|exists (Ok tx), p, w; split_and!; [done|done|by eexists|done|by left] ].
  erewrite bind_ok by done. pose proof (Hu (mkUnwindInput sp to bad) tx w Hlt) as Ho.
  destruct (unwind_stage stage (mkUnwindInput sp to bad) (tx, w)) as [o [tx1 w1]] eqn:Eu.
  destruct (lc_unwind _ _ _ Hk _ _ _ _ _ _ Eu) as [Hp1 Hc1].
  assert (Hcall : call_stage (DbError := DbError) (unwind_stage stage (mkUnwindInput sp to bad)) tx
      (mkPipeline (stages p) (max_block p) (listeners p ++ [Unwinding (stage_id stage) (mkUnwindInput sp to bad)])
         (sync_state_updater p) (pl_progress p), w) =
    (match o with Ok a => Ok (inr a, tx1) | Err e => Ok (inl e, tx1) | Panic => Panic | Diverge => Diverge end,
      (mkPipeline (stages p) (max_block p) (listeners p ++ [Unwinding (stage_id stage) (mkUnwindInput sp to bad)])
         (sync_state_updater p) (pl_progress p), w1))) by (unfold call_stage; by rewrite Eu).
  destruct o as [out|e| |]; try done; cbn [fst unwind_to ui_stage_progress] in Ho; erewrite bind_ok by exact Hcall.
  - edestruct (save_ok (stage_id stage) (uo_stage_progress out) tx1) as (tx2 & E2 & Hp2).
    erewrite bind_ok by exact E2. erewrite bind_ok by done.
    edestruct (IH stage to bad (uo_stage_progress out) tx2) as (o & p3 & w3 & E3 & H1 & H2 & H3 & H4); [done|done|lia|].
    exists o, p3, w3. split; [exact E3|]. rewrite Hp2, Hp1 in H1, H4. split_and!.
    + destruct o as [tx3|e| |]; try done. rewrite H1, insert_insert_eq.
      destruct (Z.ltb_spec to (uo_stage_progress out)); [done|]. by replace (uo_stage_progress out) with to by lia.
    + done.
    + intros Hn. rewrite H3 by done. specialize (Hn (mkUnwindInput sp to bad) tx w). by rewrite Eu in Hn.
    + destruct H4 as [->|[->|(b & -> & Hb)] ]; [destruct Hc1 as [->| ->]; auto|right; right..].
      * exists (uo_stage_progress out). split; [done|lia].
      * exists b. rewrite insert_insert_eq. split; [done|lia].
  - eexists (Err (PStage (Fatal e))), _, w1. split; [reflexivity|]. split_and!; [by eexists| | |].
    + intros Hs. destruct (Hs (mkUnwindInput sp to bad) tx w) as [out Hout]. rewrite Eu in Hout. done.
    + intros Hn. specialize (Hn (mkUnwindInput sp to bad) tx w). by rewrite Eu in Hn.
    + destruct Hc1 as [->| ->]; auto.
Qed.

Lemma unwound_cons to s ids m m1 m' :
  s ∉ ids -> m1 = (if to <? checkpoint m s then <[s := to]> m else m) -> unwound to ids m1 m' -> unwound to (s :: ids) m m'.
Proof.
  intros Hs -> H t. rewrite H. destruct (decide (t = s)) as [->|Hne].
  - rewrite (bool_decide_eq_false_2 (s ∈ ids)) by done. rewrite bool_decide_eq_true_2 by set_solver. cbn.
    destruct (to <? checkpoint m s) eqn:E; [by rewrite lookup_insert_eq|done].
  - rewrite (bool_decide_ext (t ∈ s :: ids) (t ∈ ids)) by set_solver.
    destruct (to <? checkpoint m s); [by rewrite lookup_insert_ne by done|done].
Qed.

Lemma lowered_insert to ids m m1 s b : lowered to ids m m1 -> s ∉ ids -> to <= b < checkpoint m s -> lowered to (s :: ids) m (<[s := b]> m1).
Proof.
  intros H Hs Hb t. destruct (decide (t = s)) as [->|Hne].
  - right. split; [apply list_elem_of_here|]. exists b. by rewrite lookup_insert_eq.
  - rewrite lookup_insert_ne by done. destruct (H t) as [?|[Ht ?] ]; [by left|right]. split; [by right|done].
Qed.

Lemma lowered_more to ids s m m1 : lowered to ids m m1 -> lowered to (s :: ids) m m1.
Proof. intros H t. destruct (H t) as [?|[Ht ?] ]; [by left|right]. split; [by right|done]. Qed.

(** The loop over the stages, from the checkpoints [m] before the unwind. *)
Lemma unwind_stages_steps fuel (m : gmap string Z) l : forall seen to bad tx p w,
  Forall (leaves_checkpoints committed pending) l -> Forall unwinds l -> NoDup (stage_id <$> l) ->
  (forall s, s ∈ l -> stage_id s ∉ seen) -> lowered to seen m (pending tx) -> lowered to seen m (committed w) ->
  Forall (fun s => checkpoint m (stage_id s) <= to + Z.of_nat fuel) l ->
  exists o p' w', unwind_stages env fuel l to bad tx (p, w) = (o, (p', w')) /\
    match o with
    | Ok (Some tx') => Forall (fun s => to <= checkpoint m (stage_id s)) l /\
        unwound to (stage_id <$> l) (pending tx) (pending tx') /\ exists seen', lowered to seen' m (pending tx') /\ seen' ⊆ (stage_id <$> l) ++ seen
    | Ok None => Exists (fun s => checkpoint m (stage_id s) < to) l
    | Err e => exists e', e = PStage (Fatal e')
    | _ => False
    end /\
    (Forall unwind_succeeds l -> exists r, o = Ok r) /\
    (Forall (unwind_commits_nothing committed) l -> committed w' = committed w) /\
    exists seen', lowered to seen' m (committed w') /\ seen' ⊆ (stage_id <$> l) ++ seen.
Proof.
  induction l as [|stage l IH]; intros seen to bad tx p w Hk Hu Hnd Hseen Hp Hc Hf.
  { exists (Ok (Some tx)), p, w. split_and!; [done|constructor| |by exists seen|by eexists|done|by exists seen].
    intros s. cbn [fmap list_fmap]. by rewrite bool_decide_eq_false_2 by set_solver. }
  apply Forall_cons in Hk as [Hk1 Hk], Hu as [Hu1 Hu], Hf as [Hf1 Hf]. rewrite fmap_cons in Hnd. apply NoDup_cons in Hnd as [Hni Hnd].
  cbn [unwind_stages]. rewrite (bind_ok _ _ _ _ _ (get_ok (stage_id stage) tx (p, w))). cbv zeta.
  assert (Hfirst : pending tx !! stage_id stage = m !! stage_id stage).
  { destruct (Hp (stage_id stage)) as [?|[Hin _] ]; [done|]. by destruct (Hseen stage (list_elem_of_here _ _)). }
  rewrite Hfirst. destruct (Z.ltb_spec (checkpoint m (stage_id stage)) to) as [Hlt|Hge].
  { eexists (Ok None), _, w. split; [reflexivity|]. split_and!; [by constructor|by eexists|done|]. exists seen. split; [done|set_solver]. }
  destruct (unwind_loop_steps fuel stage to bad (checkpoint m (stage_id stage)) tx p w)
    as (o1 & p1 & w1 & E1 & H1 & H2 & H3 & H4); [done..|].
  assert (Hc1 : lowered to (stage_id stage :: seen) m (committed w1)).
  { destruct H4 as [->|[->|(b & -> & Hb)] ]; [by apply lowered_more..|].
    apply lowered_insert; [done|by apply Hseen, list_elem_of_here|lia]. }
  destruct o1 as [tx1|e| |]; try done.
  2:{ exists (Err e), p1, w1. unfold mbind, st_bind. rewrite E1. split; [done|]. split_and!; [done| | |].
      - intros [Hs1 _]%Forall_cons. by destruct (H2 Hs1).
      - intros [Hn1 _]%Forall_cons. by apply H3.
      - eexists. split; [exact Hc1|set_solver]. }
  erewrite bind_ok by exact E1. cbn beta in *.
  assert (Hp1 : lowered to (stage_id stage :: seen) m (pending tx1)).
  { rewrite H1. destruct (Z.ltb_spec to (checkpoint m (stage_id stage))); [|by apply lowered_more].
    apply lowered_insert; [done|by apply Hseen, list_elem_of_here|lia]. }
  destruct (IH (stage_id stage :: seen) to bad tx1 p1 w1) as (o & p2 & w2 & E2 & G1 & G2 & G3 & (seen2 & G4 & G5)); [done..| |done|done|done|].
  { intros s Hs [E|Hin]%elem_of_cons; [|by apply (Hseen s); [right|] ]. apply Hni. rewrite <- E. by apply list_elem_of_fmap_2. }
  assert (Hin : forall x, x ∈ (stage_id <$> l) ++ stage_id stage :: seen -> x ∈ (stage_id <$> stage :: l) ++ seen) by (cbn; set_solver).
  exists o, p2, w2. split; [exact E2|]. split_and!.
  - destruct o as [[tx2|]|e| |]; try done; [|by right]. destruct G1 as (Ha & Hun & seen' & Hl & Hs). split; [by constructor|]. split.
    + apply (unwound_cons to _ _ _ (pending tx1)); [done| |done]. by rewrite Hfirst.
    + exists seen'. split; [done|]. intros x Hx. by apply Hin, Hs.
  - intros [_ Hs]%Forall_cons. by apply G2.
  - intros [Hn1 Hn]%Forall_cons. rewrite G3 by done. by apply H3.
  - exists seen2. split; [done|]. intros x Hx. by apply Hin, G5.
Qed.
End Unwind.

(** C38. What an unwind does on a database that is up, when the unwind of a stage either
    fails or gets closer to the target.  It returns, successfully when every stage's
    unwind succeeds, and with the fatal error of a stage otherwise.  When it succeeds and
    every stage had reached the target, each of them ends exactly there and no other
    checkpoint changes.  When a single stage is below the target, or one fails, nothing
    is committed, and the stages above the target keep the blocks they were to remove,
    unless a stage commits inside its unwind, as the merkle stage may: then checkpoints
    of stages may have been lowered, though never below the target. *)
Theorem unwind_outcome {DbError Tx W} (env : Env DbError Tx W) committed pending fuel to bad (p : Pipeline Tx W) (w : W) :
  Checkpoints env committed pending -> Available env ->
  Forall (leaves_checkpoints committed pending) (stages p) -> Forall unwinds (stages p) ->
  NoDup (stage_id <$> stages p) ->
  Forall (fun s => checkpoint (committed w) (stage_id s) <= to + Z.of_nat fuel) (stages p) ->
  exists o p' w', pipeline_unwind env fuel to bad (p, w) = (o, (p', w')) /\
    (o = Ok tt \/ exists e, o = Err (PStage (Fatal e))) /\
    (Forall unwind_succeeds (stages p) -> o = Ok tt) /\
    (o = Ok tt -> Forall (fun s => to <= checkpoint (committed w) (stage_id s)) (stages p) ->
       unwound to (stage_id <$> stages p) (committed w) (committed w')) /\
    (Exists (fun s => checkpoint (committed w) (stage_id s) < to) (stages p) \/ o <> Ok tt ->
       Forall (unwind_commits_nothing committed) (stages p) -> committed w' = committed w) /\
    lowered to (stage_id <$> stages p) (committed w) (committed w').
Proof.
  intros Hcp Hav Hk Hu Hnd Hf. unfold pipeline_unwind. erewrite bind_ok by done.
  destruct (begin_ok env committed pending p w) as (tx & w1 & E1 & Hc1 & Hp1). erewrite bind_ok by exact E1.
  destruct (unwind_stages_steps env committed pending fuel (committed w) (reverse (stages p)) [] to bad tx p w1)
    as (o & p2 & w2 & E2 & H1 & H2 & H3 & (seen & H4 & H5)).
  { by apply Forall_reverse. } { by apply Forall_reverse. } { rewrite fmap_reverse. by rewrite reverse_Permutation. }
  { set_solver. } { intros s. left. by rewrite Hp1. } { intros s. left. by rewrite Hc1. } { by apply Forall_reverse. }
  assert (Hlow : forall seen m, seen ⊆ (stage_id <$> reverse (stages p)) ++ [] -> lowered to seen (committed w) m ->
    lowered to (stage_id <$> stages p) (committed w) m).
  { intros l m' Hl Hm t. destruct (Hm t) as [?|[Ht ?] ]; [by left|right]. split; [|done]. apply Hl in Ht.
    rewrite app_nil_r, fmap_reverse in Ht. by apply elem_of_reverse. }
  assert (Hsucc : Forall unwind_succeeds (stages p) -> exists r, o = Ok r) by (intros ?; apply H2; by apply Forall_reverse).
  destruct o as [[tx2|]|e| |]; try done.
  - destruct H1 as (Ha & Hun & seen' & Hl & Hs). destruct (commit_ok env committed pending tx2 p2 w2) as (w3 & E3 & Hc3).
    apply (proj1 (Forall_reverse _ _)) in Ha. exists (Ok tt), p2, w3. split; [by erewrite bind_ok by exact E2|].
    split_and!; [by left|done| | |].
    + intros _ _ s. rewrite Hc3, Hun, Hp1, fmap_reverse. by rewrite (bool_decide_ext _ (s ∈ stage_id <$> stages p)) by apply elem_of_reverse.
    + intros [(s & Hin & Hlt)%Exists_exists|?]; [|done]. apply (proj1 (Forall_forall _ _) Ha) in Hin. lia.
    + rewrite Hc3. by apply (Hlow seen').
  - exists (Ok tt), p2, w2. split; [by erewrite bind_ok by exact E2|]. split_and!; [by left|done| | |by apply (Hlow seen)].
    + intros _ Ha. apply Exists_exists in H1 as (s & Hs & Hlt). apply elem_of_reverse, (proj1 (Forall_forall _ _) Ha) in Hs. lia.
    + intros _ Hn. rewrite H3, Hc1; [done|by apply Forall_reverse].
  - destruct H1 as [e' ->]. exists (Err (PStage (Fatal e'))), p2, w2. split; [unfold mbind, st_bind; by rewrite E2|].
    split_and!; [right; by eexists| |done| |by apply (Hlow seen)].
    + intros [r [=] ]%Hsucc.
    + intros _ Hn. rewrite H3, Hc1; [done|by apply Forall_reverse].
Qed.

(** ** Checkpoints and events *)

(** The checkpoints that the events of a run announce. *)
Definition replay (l : list PipelineEvent) (m : gmap string Z) : gmap string Z :=
  foldl (fun m e => match e with Ran s out => <[s := eo_stage_progress out]> m | _ => m end) m l.

(** The stages that were completed or skipped, in order. *)
Definition completions (l : list PipelineEvent) : list string :=
  omap (fun e => match e with Ran s out => if done_ out then Some s else None | Skipped s => Some s | _ => None end) l.

Definition is_unwind (c : ControlFlow) : bool := negb (should_continue c).

Section Replay.
Context {DbError Tx W : Type} (env : Env DbError Tx W) (committed : W -> gmap string Z) (pending : Tx -> gmap string Z).
Context `{!Checkpoints env committed pending}.
Implicit Types (p : Pipeline Tx W) (w : W).

(** The events [l] were sent between the states, and the checkpoints follow them. *)
Definition told (l : list PipelineEvent) (s s' : Pipeline Tx W * W) : Prop :=
  listeners s'.1 = listeners s.1 ++ l /\ committed s'.2 = replay l (committed s.2).

Lemma told_nil s p' w' : listeners p' = listeners s.1 -> committed w' = committed s.2 -> told [] s (p', w').
Proof. intros Hl Hc. split; cbn; [by rewrite Hl, app_nil_r|done]. Qed.

Lemma told_trans l1 l2 s1 s2 s3 : told l1 s1 s2 -> told l2 s2 s3 -> told (l1 ++ l2) s1 s3.
Proof. intros [L1 C1] [L2 C2]. split; [by rewrite L2, L1, app_assoc|]. unfold replay. by rewrite foldl_app, C2, C1. Qed.

Lemma begin_inv p w tx s : on_world (tx_mut env) (p, w) = (Ok tx, s) ->
  exists w', s = (p, w') /\ committed w' = committed w /\ pending tx = committed w.
Proof.
  unfold on_world. destruct (tx_mut env w) as [o w'] eqn:E. destruct (cp_begin _ _ _ E) as [Hc Hp].
  intros [= Ho <-]. destruct o; try done. injection Ho as <-. exists w'. split_and!; [done..|]. by apply Hp.
Qed.

Lemma get_inv s tx (pw : Pipeline Tx W * W) b pw' : get_progress env s tx pw = (Ok b, pw') -> pw' = pw /\ b = pending tx !! s.
Proof. unfold get_progress, st_lift. destruct (tx_get env s tx) eqn:E; intros [= <- <-]. split; [done|]. by apply cp_get. Qed.

Lemma save_inv s b tx (pw : Pipeline Tx W * W) tx' pw' :
  save_progress env s b tx pw = (Ok tx', pw') -> pw' = pw /\ pending tx' = <[s := b]> (pending tx).
Proof. unfold save_progress, st_lift. destruct (tx_put env s b tx) eqn:E; intros [= <- <-]. split; [done|]. by apply cp_put. Qed.

Lemma commit_inv tx p w u s : transaction_commit env tx (p, w) = (Ok u, s) -> exists w', s = (p, w') /\ committed w' = pending tx.
Proof.
  unfold transaction_commit. intros (b & s1 & E1 & (tx' & s2 & E2 & [= _ <-])%bind_inv)%bind_inv.
  unfold on_world in E1. destruct (tx_commit env tx w) as [o w1] eqn:Ec. destruct o; try done. injection E1 as -> <-.
  apply begin_inv in E2 as (w' & -> & Hc & _). exists w'. split; [done|]. rewrite Hc. by apply (cp_commit _ _ _ _ Ec).
Qed.

Lemma call_inv {A} (m : st (Tx * W) StageError A) tx p w r s :
  call_stage (DbError := DbError) m tx (p, w) = (Ok r, s) ->
  exists o w', m (tx, w) = (o, (r.2, w')) /\ s = (p, w') /\
    match r.1 with inr a => o = Ok a | inl e => o = Err e end.
Proof.
  unfold call_stage. destruct (m (tx, w)) as [o [tx' w']]. destruct o; intros [= <- <-]; eexists _, w'; by split_and!.
Qed.

Lemma execute_told fuel prev stage : forall mp p w c s,
  leaves_checkpoints committed pending stage -> execute_loop env fuel prev stage mp (p, w) = (Ok c, s) ->
  stages s.1 = stages p /\ exists l, told l (p, w) s /\ completions l = if is_unwind c then [] else [stage_id stage].
Proof.
  induction fuel as [|fuel IH]; intros mp p w c s Hk; [done|]. cbn [execute_loop].
  intros (tx & s1 & (w1 & -> & Hc1 & Hp1)%begin_inv & (b & s2 & [-> ->]%get_inv & (q & s3 & [= <- <-] & H)%bind_inv)%bind_inv)%bind_inv.
  assert (Hret : forall mp p' w' l, told l (p, w) (p', w') -> completions l = [] -> stages p' = stages p ->
    execute_loop env fuel prev stage mp (p', w') = (Ok c, s) ->
    stages s.1 = stages p /\ exists l, told l (p, w) s /\ completions l = if is_unwind c then [] else [stage_id stage]).
  { intros mp' p' w' l Hl Hcl Hst E. apply IH in E as (E1 & l' & E2 & E3); [|done].
    split; [congruence|]. exists (l ++ l'). split; [by eapply told_trans|]. unfold completions in *.
    by rewrite omap_app, Hcl, E3. }
  destruct (reached _ _).
  { apply bind_inv in H as ([] & s2 & [= <-] & [= <- <-]). split; [done|].
    exists [Skipped (stage_id stage)]. split; [by split|done]. }
  apply bind_inv in H as ([] & s2 & [= <-] & H). apply bind_inv in H as ([[e|out] tx2] & s4 & E & H).
  all: apply call_inv in E as (o & w2 & E & -> & ->); cbn in E.
  all: destruct (lc_execute _ _ _ Hk _ _ _ _ _ _ (eq_trans Hp1 (eq_sym Hc1)) E) as [Hp2 Hc2].
  - apply bind_inv in H as ([] & s5 & [= <-] & H).
    assert (Ht : forall q, listeners q = listeners p ++ [Running (stage_id stage) (pending tx !! stage_id stage); ErrorEvent (stage_id stage)] ->
      told [Running (stage_id stage) (pending tx !! stage_id stage); ErrorEvent (stage_id stage)] (p, w) (q, w2)).
    { intros q Hq. split; [done|]. cbn. congruence. }
    destruct e; cbn [is_fatal] in H; try done.
    + injection H as <- <-. split; [done|]. eexists. split; [apply Ht; cbn; by rewrite <- app_assoc|done].
    + eapply Hret; [..|exact H]; [apply Ht; cbn; by rewrite <- app_assoc|done..].
    + eapply Hret; [..|exact H]; [apply Ht; cbn; by rewrite <- app_assoc|done..].
  - apply bind_inv in H as (tx3 & s5 & [-> Hp3]%save_inv & H). apply bind_inv in H as ([] & s6 & [= <-] & H).
    apply bind_inv in H as ([] & s7 & (w3 & -> & Hc3)%commit_inv & H).
    assert (Ht : told [Running (stage_id stage) (pending tx !! stage_id stage); Ran (stage_id stage) out] (p, w)
      (mkPipeline (stages p) (max_block p) ((listeners p ++ [Running (stage_id stage) (pending tx !! stage_id stage)]) ++
        [Ran (stage_id stage) out]) (sync_state_updater p) (pl_progress p), w3)).
    { split; [cbn; by rewrite <- app_assoc|]. cbn. rewrite Hc3, Hp3, Hp2. by rewrite Hp1. }
    destruct (done_ out) eqn:Ed.
    + injection H as <- <-. split; [done|]. eexists. split; [exact Ht|]. cbn. rewrite Ed. by destruct (mp || _).
    + eapply Hret; [exact Ht|cbn; by rewrite Ed|done|exact H].
Qed.

Lemma view_inv s p w b pw : on_world (db_view env s) (p, w) = (Ok b, pw) ->
  exists w', pw = (p, w') /\ committed w' = committed w /\ b = committed w !! s.
Proof.
  unfold on_world. destruct (db_view env s w) as [o w'] eqn:E. destruct o; intros [= <- <-].
  exists w'. split; [done|]. by eapply cp_view.
Qed.

Lemma run_stages_told fuel l : forall prev p w c s,
  Forall (leaves_checkpoints committed pending) l -> run_stages env fuel prev l (p, w) = (Ok c, s) -> should_continue c = true ->
  exists evs, told evs (p, w) s /\ completions evs = stage_id <$> l.
Proof.
  induction l as [|stage l IH]; intros prev p w c s Hk H Hc; cbn [run_stages] in H.
  { apply bind_inv in H as (q & s1 & [= <- <-] & [= <- <-]). exists []. split; [by apply told_nil|done]. }
  apply Forall_cons in Hk as [Hk1 Hk]. apply bind_inv in H as ([] & s1 & [= <-] & H).
  apply bind_inv in H as (next & [p2 w2] & (_ & l1 & [T1 T2] & Hl1)%execute_told & H); [|done]. cbn in T1, T2.
  assert (Hgo : forall p', listeners p' = listeners p2 -> is_unwind next = false ->
    (b ← on_world (db_view env (stage_id stage)); run_stages env fuel (Some (stage_id stage, default 0 b)) l) (p', w2) = (Ok c, s) ->
    exists evs, told evs (p, w) s /\ completions evs = stage_id <$> stage :: l).
  { intros p' Hp' Hn (b & s2 & (w3 & -> & Hw3 & _)%view_inv & (l2 & T3 & Hl2)%IH)%bind_inv; [|done..].
    exists (l1 ++ l2). split.
    - apply (told_trans _ _ _ (p', w3)); [|done]. split; cbn; [by rewrite Hp'|by rewrite Hw3].
    - unfold completions in *. by rewrite omap_app, Hl1, Hl2, Hn. }
  destruct next as [target bad|b|[b|]].
  - apply bind_inv in H as ([] & s2 & [= <-] & H). apply bind_inv in H as ([] & s3 & _ & [= <- _]). done.
  - apply bind_inv in H as ([] & s2 & [= <-] & H). by eapply Hgo; [| |exact H].
  - apply bind_inv in H as ([] & s2 & [= <-] & H). by eapply Hgo; [| |exact H].
  - by eapply Hgo; [| |exact H].
Qed.
End Replay.

(** C10. A pass that ends without an unwind completes or skips every stage, once and in
    the order of the pipeline, and the checkpoints in the database are exactly those
    that its events announced, whatever errors were retried on the way. *)
Theorem run_loop_replay {DbError Tx W} (env : Env DbError Tx W) committed pending fuel (p p' : Pipeline Tx W) (w w' : W) c :
  Checkpoints env committed pending -> Forall (leaves_checkpoints committed pending) (stages p) ->
  run_loop env fuel (p, w) = (Ok c, (p', w')) -> should_continue c = true ->
  exists events, listeners p' = listeners p ++ events /\ committed w' = replay events (committed w) /\
    completions events = stage_id <$> stages p.
Proof.
  intros Hcp Hk H Hc. unfold run_loop in H. apply bind_inv in H as (q & s & [= <- <-] & H).
  eapply run_stages_told in H as (evs & [H1 H2] & H3); [|done..]. by exists evs.
Qed.

(** ** Reaching the target *)

(** The first stage, below the target: it succeeds and is done at or above the target,
    or it makes progress.  Progress stays within [limit]. *)
Definition reaches {Tx W} (target limit : Z) (stage : Stage Tx W) : Prop :=
  forall sp tx w, 0 <= default 0 sp < target ->
  exists out s, execute stage (mkExecInput None sp) (tx, w) = (Ok out, s) /\ eo_stage_progress out <= limit /\
    if done_ out then target <= eo_stage_progress out else default 0 sp < eo_stage_progress out.

(** A later stage, behind the one before it: it succeeds and is done when it has
    caught up with that one, or it makes progress. *)
Definition catches_up {Tx W} (limit : Z) (stage : Stage Tx W) : Prop :=
  forall id q sp tx w, 0 <= default 0 sp < q -> q <= limit ->
  exists out s, execute stage (mkExecInput (Some (id, q)) sp) (tx, w) = (Ok out, s) /\ eo_stage_progress out <= limit /\
    if done_ out then q <= eo_stage_progress out else default 0 sp < eo_stage_progress out.

(** A stage that works through the batches of [next_action], as the stages of the
    pipeline do, catches up. *)
Definition by_batches {Tx W} (threshold : Z) (stage : Stage Tx W) : Prop :=
  forall i tx w, exists s, execute stage i (tx, w) =
    (Ok match next_action i (Some threshold) with
        | Run _ last capped => mkExecOutput last (negb capped)
        | Done stage_progress _ => mkExecOutput stage_progress true
        end, s).

Lemma batches_catch_up {Tx W} threshold limit (stage : Stage Tx W) :
  0 < threshold -> limit + threshold < 2 ^ 64 -> by_batches threshold stage -> catches_up limit stage.
Proof.
  intros Ht Hl Hb id q sp tx w Hsp Hq. destruct (Hb (mkExecInput (Some (id, q)) sp) tx w) as [s E]. eexists _, s. split; [exact E|].
  unfold next_action, previous_stage_progress. cbn [ei_stage_progress previous_stage fmap option_fmap option_map default from_option snd].
  set (x := default 0 sp) in *. unfold Datatypes.id.
  assert (in_u 64 (x + 1) /\ in_u 64 (x + threshold)) as [H1 H2] by (unfold in_u; lia).
  rewrite (wadd_small 64 x 1 H1), (wadd_small 64 x threshold H2). clearbody x. clear E Hb.
  zcase; cbn; zcase; cbn; lia.
Qed.

Section Reach.
Context {DbError Tx W : Type} (env : Env DbError Tx W) (committed : W -> gmap string Z) (pending : Tx -> gmap string Z).
Context `{!Checkpoints env committed pending, !Available env}.
Context (target limit : Z) (Htarget : 0 < target <= limit).
Implicit Types (p : Pipeline Tx W) (w : W).

(** The stage to run next, after [prev]. *)
Definition ready (prev : option (string * Z)) (stage : Stage Tx W) : Prop :=
  match prev with None => reaches target limit stage | Some (_, q) => target <= q <= limit /\ catches_up limit stage end.

Definition same_config p p' : Prop :=
  stages p' = stages p /\ max_block p' = max_block p /\ pl_progress p' = pl_progress p.

(** [s] has reached the target with [b], nothing else has changed. *)
Definition advanced (s : string) (b : Z) (m m' : gmap string Z) : Prop :=
  m' !! s = Some b /\ target <= b <= limit /\ forall t, t <> s -> m' !! t = m !! t.

Lemma reached_spec (b : option Z) : if reached b (Some target) then exists x, b = Some x /\ target <= x else default 0 b < target.
Proof. destruct b as [x|]; cbn; [|lia]. destruct (Z.leb_spec target x); [by exists x|done]. Qed.

Lemma ready_runs prev stage sp tx w : ready prev stage -> 0 <= default 0 sp < target ->
  exists out s, execute stage (mkExecInput prev sp) (tx, w) = (Ok out, s) /\ eo_stage_progress out <= limit /\
    if done_ out then target <= eo_stage_progress out else default 0 sp < eo_stage_progress out.
Proof.
  destruct prev as [[id q]|]; [|by intros H; apply H]. intros [Hq Hc] Hsp.
  destruct (Hc id q sp tx w ltac:(lia) ltac:(lia)) as (out & s & E & Hl & Ho). exists out, s. split_and!; [done..|].
  destruct (done_ out); lia.
Qed.

Lemma execute_reaches fuel prev stage : forall mp p w,
  leaves_checkpoints committed pending stage -> ready prev stage -> max_block p = Some target ->
  0 <= checkpoint (committed w) (stage_id stage) <= limit ->
  target - checkpoint (committed w) (stage_id stage) < Z.of_nat fuel -> 0 < Z.of_nat fuel ->
  exists c b p' w', execute_loop env fuel prev stage mp (p, w) = (Ok c, (p', w')) /\
    (c = Continue b \/ c = NoProgress (Some b)) /\ advanced (stage_id stage) b (committed w) (committed w') /\ same_config p p'.
Proof.
  induction fuel as [|fuel IH]; intros mp p w Hk Hr Hm Hl Hf Hf0; [lia|]. cbn [execute_loop].
  destruct (begin_ok env committed pending p w) as (tx & w1 & E1 & Hc1 & Hp1). erewrite bind_ok by exact E1.
  rewrite (bind_ok _ _ _ _ _ (get_ok env committed pending (stage_id stage) tx (p, w1))). erewrite bind_ok by done.
  rewrite Hm, Hp1. pose proof (reached_spec (committed w !! stage_id stage)) as Hsp. destruct (reached _ _).
  { destruct Hsp as (b & Hb & Hle). eexists _, b, _, w1. split; [reflexivity|]. rewrite Hb. split; [by right|].
    split; [|done]. rewrite Hc1. rewrite Hb in Hl. cbn in Hl. split; [done|]. split; [lia|done]. }
  erewrite bind_ok by done.
  destruct (ready_runs prev stage (committed w !! stage_id stage) tx w1 Hr (conj (proj1 Hl) Hsp)) as (out & [tx2 w2] & E2 & Hlim & Hout).
  destruct (lc_execute _ _ _ Hk _ _ _ _ _ _ (eq_trans Hp1 (eq_sym Hc1)) E2) as [Hp2 Hc2].
  rewrite (bind_ok _ _ _ (inr out, tx2) (mkPipeline (stages p) (max_block p) (listeners p ++ [Running (stage_id stage)
    (committed w !! stage_id stage)]) (sync_state_updater p) (pl_progress p), w2)) by (unfold call_stage; by rewrite E2).
  edestruct (save_ok env committed pending (stage_id stage) (eo_stage_progress out) tx2) as (tx3 & E3 & Hp3).
  cbv zeta. erewrite bind_ok by exact E3. erewrite bind_ok by done.
  edestruct (commit_ok env committed pending tx3) as (w4 & E4 & Hc4). erewrite bind_ok by exact E4.
  rewrite Hp3, Hp2, Hp1 in Hc4. destruct (done_ out).
  - eexists _, (eo_stage_progress out), _, w4. split; [reflexivity|]. split; [destruct (mp || _); auto|].
    split; [|done]. rewrite Hc4. split_and!; [by apply lookup_insert_eq|lia|lia|]. intros t Ht. by apply lookup_insert_ne.
  - edestruct (IH (mp || negb (eo_stage_progress out =? default 0 (committed w !! stage_id stage)))) with (w := w4)
      as (c & b & p' & w' & E5 & Hc & (Ha & Hb & Ho) & Hs); [done|done| |..|eexists c, b, p', w'; split; [exact E5|]]; [exact Hm|..].
    + rewrite Hc4, lookup_insert_eq. clear -Hl Hout Hlim. change (0 <= eo_stage_progress out <= limit). pose proof (proj1 Hl). lia.
    + rewrite Hc4, lookup_insert_eq. cbn. lia.
    + destruct (Z.ltb_spec target (checkpoint (committed w) (stage_id stage))); lia.
    + split; [done|]. split; [|done]. split; [done|]. split; [done|]. intros t Ht. rewrite Ho, Hc4 by done. by apply lookup_insert_ne.
Qed.

Definition min_ok p : Prop := forall m, minimum_progress (pl_progress p) = Some m -> target <= m.

Lemma view_ok s p w : exists w', on_world (db_view env s) (p, w) = (Ok (committed w !! s), (p, w')) /\ committed w' = committed w.
Proof.
  destruct (av_view s w) as (b & w' & E). destruct (cp_view _ _ _ _ E) as [Hc ->]. exists w'. unfold on_world. by rewrite E.
Qed.

Lemma update_min_ok b p w : target <= b -> min_ok p ->
  exists p', update_progress (DbError := DbError) b (p, w) = (Ok tt, (p', w)) /\ stages p' = stages p /\ max_block p' = max_block p /\
    min_ok p' /\ is_Some (minimum_progress (pl_progress p')).
Proof.
  intros Hb Hm. eexists. split; [reflexivity|]. split_and!; [done..| |].
  - intros m. cbn. destruct (minimum_progress (pl_progress p)) as [m0|] eqn:E; intros [= <-]; [|done]. apply Hm in E. lia.
  - cbn. by destruct (minimum_progress (pl_progress p)).
Qed.

Lemma run_stages_reaches fuel l : forall prev p w,
  Forall (leaves_checkpoints committed pending) l ->
  match l with [] => True | stage :: l => ready prev stage /\ Forall (catches_up limit) l end -> NoDup (stage_id <$> l) ->
  max_block p = Some target -> min_ok p -> target < Z.of_nat fuel ->
  Forall (fun s => 0 <= checkpoint (committed w) (stage_id s) <= limit) l ->
  exists c p' w', run_stages env fuel prev l (p, w) = (Ok c, (p', w')) /\ should_continue c = true /\
    max_block p' = max_block p /\ min_ok p' /\ (l <> [] \/ is_Some (minimum_progress (pl_progress p)) ->
      is_Some (minimum_progress (pl_progress p'))) /\
    Forall (fun s => target <= checkpoint (committed w') (stage_id s)) l /\
    forall t, t ∉ stage_id <$> l -> committed w' !! t = committed w !! t.
Proof.
  induction l as [|stage l IH]; intros prev p w Hk Hr Hnd Hm Hmin Hf0 Hf; cbn [run_stages].
  { eexists _, p, w. split; [reflexivity|]. split; [unfold next_ctrl; by destruct (progress _)|].
    split_and!; [done..| |done|done]. by intros [?|?]. }
  apply Forall_cons in Hk as [Hk1 Hk], Hf as [Hf1 Hf]. destruct Hr as [Hr1 Hr].
  rewrite fmap_cons in Hnd. apply NoDup_cons in Hnd as [Hni Hnd]. erewrite bind_ok by done.
  match goal with |- exists _ _ _, (_ ≫= _) (?q, _) = _ /\ _ => set (p1 := q) end.
  destruct (execute_reaches fuel prev stage false p1 w)
    as (c & b & p2 & w2 & E2 & Hc & (A1 & A2 & A3) & (S1 & S2 & S3)); [done..|lia|lia|].
  unfold execute_stage_to_completion. erewrite bind_ok by exact E2. cbn in S2, S3.
  destruct (update_min_ok b p2 w2) as (p3 & E3 & U1 & U2 & U3 & U4); [lia|unfold min_ok; by rewrite S3|].
  destruct (view_ok (stage_id stage) p3 w2) as (w3 & E4 & Hw3).
  assert (Hne : forall s, s ∈ l -> stage_id s <> stage_id stage).
  { intros s Hs E. apply Hni. rewrite <- E. by apply list_elem_of_fmap_2. }
  destruct (IH (Some (stage_id stage, checkpoint (committed w2) (stage_id stage))) p3 w3)
    as (c' & p' & w' & E5 & R1 & R2 & R3 & R4 & R5 & R6); [done| |done|congruence|done|done| |].
  { destruct l; [done|]. apply Forall_cons in Hr as [Hr2 Hr]. split; [|done]. cbn. rewrite A1. cbn. done. }
  { apply Forall_forall. intros s Hs. rewrite Hw3, A3 by (by apply Hne). by apply (proj1 (Forall_forall _ _) Hf). }
  exists c', p', w'. split; [|split_and!].
  - destruct Hc as [-> | ->]; erewrite bind_ok by exact E3; erewrite bind_ok by exact E4; exact E5.
  - done.
  - congruence.
  - done.
  - intros _. apply R4. by right.
  - constructor; [|done]. rewrite R6, Hw3, A1 by done. cbn. lia.
  - intros t [Ht Ht']%not_elem_of_cons. by rewrite R6, Hw3, A3.
Qed.
End Reach.

(** C27. A pipeline reaches its target when its first stage does and the others catch
    up.  Suppose that the first stage, below the target, succeeds and is done only at or
    above it, and that every later stage, behind the one before it, succeeds and is done
    only when it has caught up; a stage that is not done makes progress.  Suppose that
    the database is up and no stage has reported less than the target before, as in a
    new pipeline.  Then [run] returns after one pass, every stage has a checkpoint at or
    above the target, and no other checkpoint changes.  Fuel above the target is enough
    for the batches of a stage. *)
Theorem run_reaches_target {DbError Tx W} (env : Env DbError Tx W) committed pending turns fuel target limit (p : Pipeline Tx W) (w : W) first rest :
  Checkpoints env committed pending -> Available env ->
  stages p = first :: rest -> reaches target limit first -> Forall (catches_up limit) rest ->
  Forall (leaves_checkpoints committed pending) (stages p) ->
  NoDup (stage_id <$> stages p) -> max_block p = Some target -> 0 < target <= limit ->
  (forall m, minimum_progress (pl_progress p) = Some m -> target <= m) ->
  Forall (fun s => 0 <= checkpoint (committed w) (stage_id s) <= limit) (stages p) -> target < Z.of_nat fuel ->
  exists p' w', run env (S turns) fuel (p, w) = (Ok tt, (p', w')) /\
    Forall (fun s => target <= checkpoint (committed w') (stage_id s)) (stages p) /\
    forall t, t ∉ stage_id <$> stages p -> committed w' !! t = committed w !! t.
Proof.
  intros Hcp Hav Hst Hr1 Hr Hk Hnd Hm Ht Hmin H0 Hf.
  destruct (run_stages_reaches env committed pending target limit Ht fuel (stages p) None p w)
    as (c & p' & w' & E & Hc & M1 & M2 & M3 & M4 & M5); try done.
  { by rewrite Hst. }
  exists p', w'. split; [|done]. cbn [run]. unfold run_loop. erewrite bind_ok by (erewrite bind_ok by done; exact E).
  erewrite bind_ok by done. rewrite Hc, M1, Hm. destruct M3 as [m Em]; [left; by rewrite Hst|]. rewrite Em. cbn [reached andb].
  apply M2 in Em. by rewrite (proj2 (Z.leb_le _ _)).
Qed.

(** ** Stage sets *)

(** The order lists each stage of the set once. *)
Record set_inv {Tx W} (b : StageSetBuilder Tx W) : Prop := {
  si_nodup : NoDup (order b);
  si_dom s : s ∈ order b <-> is_Some (set_stages b !! s);
  si_id s e : set_stages b !! s = Some e -> stage_id (se_stage e) = s }.

Abbreviation others s l := (filter (fun t : string => t <> s) (l : list string)).

Lemma others_id s l : s ∉ l -> others s l = l.
Proof.
  induction l as [|t l IH]; intros H; [done|]. apply not_elem_of_cons in H as [Ht H].
  rewrite filter_cons_True by congruence. by rewrite IH.
Qed.

Lemma list_find_ne (s : string) l : s ∉ l -> list_find (eq s) l = None.
Proof. intros H. apply list_find_None, Forall_forall. by intros x Hx <-. Qed.

Lemma list_find_here (s : string) l l' : s ∉ l -> list_find (eq s) (l ++ s :: l') = Some (length l, s).
Proof.
  intros H. rewrite list_find_app_r by (by apply list_find_ne). cbn. by rewrite decide_True by done.
Qed.

Lemma find_other_right s l l' : s ∉ l -> find_other s (length l) (l ++ s :: l') = (fun i => S (length l + i)) ∘ fst <$> list_find (eq s) l'.
Proof.
  induction l as [|t l IH]; intros H; cbn.
  - by destruct (list_find (eq s) l') as [[]|].
  - apply not_elem_of_cons in H as [Ht H]. rewrite decide_False by congruence. rewrite IH by done.
    by destruct (list_find (eq s) l') as [[]|].
Qed.

Lemma find_other_left s l1 l2 l' : s ∉ l1 -> find_other s (length (l1 ++ s :: l2)) ((l1 ++ s :: l2) ++ l') = Some (length l1).
Proof.
  induction l1 as [|t l IH]; intros H; cbn; [by rewrite decide_True by done|].
  apply not_elem_of_cons in H as [Ht H]. rewrite decide_False by congruence. by rewrite IH.
Qed.

Lemma delete_here {A} (l l' : list A) x : delete (length l) (l ++ x :: l') = l ++ l'.
Proof. induction l as [|y l IH]; cbn; [done|]. f_equal. apply IH. Qed.

Section StageSets.
Context {Tx W : Type}.
Implicit Types (b : StageSetBuilder Tx W) (stage : Stage Tx W).

(** The stage goes where it was inserted, and leaves its former place. *)
Lemma upsert_order b stage l1 l2 : set_inv b -> order b = l1 ++ l2 ->
  let s := stage_id stage in
  let b' := upsert_stage_state stage (length l1) (insert_order (length l1) s b) in
  order b' = others s l1 ++ s :: others s l2 /\ set_inv b'.
Proof.
  intros [Hnd Hdom Hid] Ho s. unfold insert_order, vec_insert. rewrite Ho, take_app_length, drop_app_length. rewrite Ho in Hnd, Hdom.
  unfold upsert_stage_state. cbn [set_stages order].
  fold s. set (m := <[s := mkStageEntry stage true]> (set_stages b)).
  assert (Hm : forall l, l = others s l1 ++ s :: others s l2 -> order (mkStageSetBuilder m l) = others s l1 ++ s :: others s l2 /\
    set_inv (mkStageSetBuilder m l)).
  { intros l ->. split; [done|]. split; cbn [order set_stages].
    - rewrite <- Permutation_middle, <- filter_app. apply NoDup_cons. split; [|by apply NoDup_filter].
      by intros [? _]%list_elem_of_filter.
    - intros t. rewrite <- Permutation_middle, <- filter_app. rewrite elem_of_cons, list_elem_of_filter, Hdom. subst m.
      destruct (decide (t = s)) as [->|Hne]; [rewrite lookup_insert_eq; naive_solver|].
      rewrite lookup_insert_ne by done. naive_solver.
    - intros t e. subst m. intros [[<- <-]|[_ He]]%lookup_insert_Some; [done|by apply Hid]. }
  apply NoDup_app in Hnd as (Hn1 & Hd & Hn2).
  destruct (set_stages b !! s) as [e|] eqn:Es.
  - assert (Hin : s ∈ l1 ++ l2) by (apply Hdom; by rewrite Es). apply elem_of_app in Hin as [Hin|Hin].
    + pose proof Hin as (a & c & ->)%list_elem_of_split. apply NoDup_app in Hn1 as (_ & Ha & [Hc _]%NoDup_cons).
      assert (Hsa : s ∉ a) by (intros H; by apply (Ha s H); left).
      rewrite find_other_left by done. apply Hm. rewrite <- app_assoc. cbn [app]. rewrite delete_here.
      rewrite filter_app, filter_cons_False by auto. rewrite !others_id; [by rewrite <- app_assoc|..]; try done.
      by apply Hd, elem_of_app; right; left.
    + assert (H1 : s ∉ l1) by (intros H; by apply (Hd s H)).
      pose proof Hin as (a & c & ->)%list_elem_of_split. apply NoDup_app in Hn2 as (_ & Ha & [Hc _]%NoDup_cons).
      assert (Hsa : s ∉ a) by (intros H; by apply (Ha s H); left).
      rewrite find_other_right, list_find_here by done. cbn. apply Hm.
      replace (l1 ++ s :: a ++ s :: c) with ((l1 ++ s :: a) ++ s :: c) by (by rewrite <- app_assoc).
      replace (S (length l1 + length a)) with (length (l1 ++ s :: a)) by (rewrite length_app; cbn; lia).
      rewrite delete_here, filter_app, filter_cons_False by auto. rewrite !others_id by done. by rewrite <- app_assoc.
  - apply Hm. assert (Hn : s ∉ l1 ++ l2) by (intros H; apply Hdom in H as [? H]; congruence).
    apply not_elem_of_app in Hn as [H1 H2]. by rewrite !others_id.
Qed.

Lemma index_split b s i : index_of s b = Some i -> exists l1 l2, order b = l1 ++ s :: l2 /\ length l1 = i.
Proof.
  unfold index_of. intros ([j x] & (Hx & <- & _)%list_find_Some & ->)%fmap_Some. cbn.
  exists (take j (order b)), (drop (S j) (order b)). split; [by rewrite take_drop_middle|].
  rewrite length_take_le; [done|]. apply lookup_lt_Some in Hx. lia.
Qed.

Lemma set_default_inv : set_inv (set_default (Tx := Tx) (W := W)).
Proof.
  split; [by apply NoDup_nil|..]; intros s.
  - cbn. rewrite lookup_empty. split; [by intros []%elem_of_nil|by intros []].
  - intros e. cbn. by rewrite lookup_empty.
Qed.

(** Where a stage ends up in a stage set: at the end, directly before or directly
    after the named stage, taken out of any former place; the other stages keep their
    relative order, and every stage is listed once. *)
Theorem stage_set_order b stage t : set_inv b -> t <> stage_id stage ->
  let s := stage_id stage in
  (set_inv (add_stage stage b) /\ order (add_stage stage b) = others s (order b) ++ [s]) /\
  (forall b', add_before stage t b = Some b' ->
    set_inv b' /\ exists l1 l2, order b' = l1 ++ s :: t :: l2 /\ l1 ++ t :: l2 = others s (order b)) /\
  (forall b', add_after stage t b = Some b' ->
    set_inv b' /\ exists l1 l2, order b' = l1 ++ t :: s :: l2 /\ l1 ++ t :: l2 = others s (order b)).
Proof.
  intros Hb Ht s. split; [|split].
  - destruct (upsert_order b stage (order b) []) as [H1 H2]; [done|by rewrite app_nil_r|]. by split.
  - intros b' (i & (l1 & l2 & Ho & <-)%index_split & [= <-])%bind_Some.
    destruct (upsert_order b stage l1 (t :: l2) Hb Ho) as [H1 H2]. split; [done|].
    exists (others s l1), (others s l2). rewrite H1, filter_cons_True by done. split; [done|].
    by rewrite Ho, filter_app, filter_cons_True by done.
  - intros b' (i & (l1 & l2 & Ho & <-)%index_split & [= <-])%bind_Some.
    destruct (upsert_order b stage (l1 ++ [t]) l2 Hb) as [H1 H2]; [by rewrite <- app_assoc|].
    rewrite length_app, Nat.add_comm in H1, H2. cbn [length Nat.add] in H1, H2. split; [done|].
    exists (others s l1), (others s l2). rewrite H1, filter_app, filter_cons_True by done. split; [by rewrite <- app_assoc|].
    by rewrite Ho, filter_app, filter_cons_True by done.
Qed.

(** [build] gives the enabled stages in that order. *)
Lemma set_build_eq b : set_inv b ->
  set_build b = omap (fun s => e ← set_stages b !! s; if enabled e then Some (se_stage e) else None) (order b).
Proof.
  intros [Hnd Hdom _]. unfold set_build.
  assert (H : forall m, (forall s, s ∈ order b -> m !! s = set_stages b !! s) ->
    build_loop (order b) m = omap (fun s => e ← set_stages b !! s; if enabled e then Some (se_stage e) else None) (order b)).
  { clear Hdom. induction (order b) as [|s l IH]; intros m Hm; [done|]. apply NoDup_cons in Hnd as [Hs Hnd]. cbn.
    rewrite Hm by (by left). destruct (set_stages b !! s) as [e|] eqn:E.
    - cbn. rewrite IH; [|done|].
      + by destruct (enabled e).
      + intros t Ht. rewrite lookup_delete_ne by congruence. apply Hm. by right.
    - cbn. apply IH; [done|]. intros t Ht. apply Hm. by right. }
  by apply H.
Qed.
End StageSets.

(** ** Batches of blocks *)

(** The ranges a stage works through when it moves its checkpoint to the end of each
    range, and whether it gets to [Done]. *)
Fixpoint batches (fuel : nat) (threshold previous progress : Z) : list (Z * Z) * bool :=
  match next_action (mkExecInput (Some ("", previous)) (Some progress)) (Some threshold) with
  | Done _ _ => ([], true)
  | Run first last _ =>
      match fuel with
      | O => ([], false)
      | S fuel => let '(l, d) := batches fuel threshold previous last in ((first, last) :: l, d)
      end
  end.

(** Batches cover the missing blocks, each once and in order, and end at the progress
    of the previous stage. *)
Theorem batches_cover fuel threshold previous progress :
  0 < threshold -> 0 <= progress <= previous -> previous + threshold < 2 ^ 64 -> previous - progress <= Z.of_nat fuel ->
  exists l, batches fuel threshold previous progress = (l, true) /\
    concat ((fun r => seqZ r.1 (r.2 - r.1 + 1)) <$> l) = seqZ (progress + 1) (previous - progress).
Proof.
  intros Ht. revert progress. induction fuel as [|fuel IH]; intros progress Hp Hb Hf; cbn [batches].
  all: unfold next_action, previous_stage_progress; cbn -[wadd Z.add Z.min Z.leb Z.ltb].
  all: rewrite !wadd_small by (unfold in_u; lia).
  - zdec. exists []. split; [done|]. by replace (previous - progress) with 0 by lia.
  - destruct (Z.leb_spec (progress + 1) (previous `min` (progress + threshold))).
    + destruct (IH (previous `min` (progress + threshold))) as (l & -> & Hl); [lia..|].
      eexists. split; [reflexivity|]. rewrite fmap_cons. cbn [concat fst snd]. rewrite Hl.
      set (e := previous `min` (progress + threshold)) in *.
      replace (e - (progress + 1) + 1) with (e - progress) by lia.
      replace (previous - progress) with ((e - progress) + (previous - e)) by lia.
      rewrite (seqZ_app _ (e - progress) (previous - e)) by lia. do 2 f_equal. lia.
    + exists []. split; [done|]. by replace (previous - progress) with 0 by lia.
Qed.

Lemma batches_cover_witness :
  exists l, batches 10 4 10 1 = (l, true) /\ concat ((fun r => seqZ r.1 (r.2 - r.1 + 1)) <$> l) = seqZ 2 9.
Proof. apply (batches_cover 10 4 10 1); lia. Defined.

(** ** A database in memory *)

Definition mem_env : Env unit (gmap string Z) (gmap string Z) := {|
  tx_mut := fun w => (Ok w, w);
  tx_commit := fun tx _ => (Ok true, tx);
  tx_get := fun s tx => Ok (tx !! s);
  tx_put := fun s b tx => Ok (<[s := b]> tx);
  db_view := fun s w => (Ok (w !! s), w) |}.

#[local] Instance mem_checkpoints : Checkpoints mem_env id id.
Proof.
  split.
  - intros w o w' [= <- <-]. split; [done|]. by intros tx [= <-].
  - by intros s tx p [= <-].
  - by intros s b tx tx' [= <-].
  - by intros tx w b w' [= _ <-].
  - intros s w p w' [= <- <-]. done.
Qed.

#[local] Instance mem_available : Available mem_env.
Proof. split; intros; repeat eexists. Qed.

(** A stage that goes [k] blocks further at each call, and unwinds one block. *)
Definition step_stage (s : string) (k : Z) : Stage (gmap string Z) (gmap string Z) := {|
  stage_id := s;
  execute := fun i x => (Ok (mkExecOutput (default 0 (ei_stage_progress i) + k) true), x);
  unwind_stage := fun i x => (Ok (mkUnwindOutput (ui_stage_progress i - 1)), x) |}.

Lemma step_leaves s k : leaves_checkpoints id id (step_stage s k).
Proof. split; [intros i tx w o tx' w' _ [= _ <- <-]|intros i tx w o tx' w' [= _ <- <-]]; auto. Qed.

Lemma step_unwinds s k : unwinds (step_stage s k).
Proof. intros i tx w Hi. cbn. lia. Qed.
Lemma step_succeeds s k : unwind_succeeds (step_stage s k) /\ unwind_commits_nothing id (step_stage s k).
Proof. split; [intros i tx w; by eexists|done]. Qed.

Definition two_stages (target : Z) : Pipeline (gmap string Z) (gmap string Z) :=
  with_max_block target (builder_add_stage (step_stage "B" 5) (builder_add_stage (step_stage "A" 10) pipeline_default)).

Lemma two_stages_leave target : Forall (leaves_checkpoints id id) (stages (two_stages target)).
Proof. cbn. by repeat (apply Forall_cons_2; [apply step_leaves|]). Qed.

Lemma run_never_stops_witness :
  let p := (run_loop mem_env 5 (two_stages 10, ∅)).2 in
  minimum_progress (pl_progress p.1) = Some 5 /\ (run_loop mem_env 5 p).2.2 !! "B" = Some 10 /\
  fst (run mem_env 100 5 (p.1, p.2)) <> Ok tt.
Proof.
  intros p.
  assert (Hp : minimum_progress (pl_progress p.1) = Some 5) by (vm_compute; reflexivity).
  assert (Hm : max_block p.1 = Some 10) by (vm_compute; reflexivity).
  split; [exact Hp|]. split; [vm_compute; reflexivity|].
  exact (run_never_stops mem_env 100 5 p.1 p.2 5 10 Hp Hm eq_refl).
Defined.

Lemma unwind_outcome_witness :
  (exists p' w', pipeline_unwind mem_env 10 4 (Some 5) (two_stages 10, {["A" := 10; "B" := 5]}) = (Ok tt, (p', w')) /\
     w' !! "A" = Some 4 /\ w' !! "B" = Some 4) /\
  exists p' w', pipeline_unwind mem_env 10 4 (Some 5) (two_stages 10, {["A" := 10]}) = (Ok tt, (p', w')) /\ w' = {["A" := 10]}.
Proof.
  assert (Hu : Forall unwinds (stages (two_stages 10))) by (cbn; by repeat (apply Forall_cons_2; [apply step_unwinds|])).
  assert (Hs : Forall unwind_succeeds (stages (two_stages 10)) /\ Forall (unwind_commits_nothing id) (stages (two_stages 10)))
    by (split; cbn; by repeat (apply Forall_cons_2; [apply step_succeeds|])).
  assert (Hn : NoDup (stage_id <$> stages (two_stages 10))) by (apply (bool_decide_unpack _); vm_compute; done).
  split.
  - destruct (unwind_outcome mem_env id id 10 4 (Some 5) (two_stages 10) {["A" := 10; "B" := 5]}) as (o & p' & w' & E & _ & Ho & H & _);
      [apply _|apply _|apply two_stages_leave|done|done|repeat constructor; vm_compute; congruence|].
    assert (o = Ok tt) as -> by (apply Ho; apply Hs).
    exists p', w'. split; [exact E|]. assert (Hall : unwound 4 ["A"; "B"] {["A" := 10; "B" := 5]} w').
    { apply H; [done|]. repeat constructor; vm_compute; congruence. }
    split; rewrite (Hall _); vm_compute; reflexivity.
  - destruct (unwind_outcome mem_env id id 10 4 (Some 5) (two_stages 10) {["A" := 10]}) as (o & p' & w' & E & _ & Ho & _ & H & _);
      [apply _|apply _|apply two_stages_leave|done|done|repeat constructor; vm_compute; congruence|].
    assert (o = Ok tt) as -> by (apply Ho; apply Hs).
    exists p', w'. split; [exact E|]. apply H; [|apply Hs]. left. right. left. vm_compute. done.
Defined.

(** A stage that commits inside its unwind: stage C is unwound, then stage B, which
    commits, then A is found below the target. *)
Definition committing_stage : Stage (gmap string Z) (gmap string Z) := {|
  stage_id := "B";
  execute := fun i x => (Ok (mkExecOutput (default 0 (ei_stage_progress i)) true), x);
  unwind_stage := fun i '(tx, _) => (Ok (mkUnwindOutput (unwind_to i)), (tx, tx)) |}.

Example merkle_like_commit :
  let p := builder_add_stage (step_stage "C" 1) (builder_add_stage committing_stage (builder_add_stage (step_stage "A" 1) pipeline_default)) in
  let '(o, (_, w)) := pipeline_unwind mem_env 10 4 None (p, {["A" := 2; "B" := 6; "C" := 6]}) in
  o = Ok tt /\ w = {["A" := 2; "B" := 6; "C" := 4]}.
Proof. vm_compute. done. Qed.

Lemma run_loop_replay_witness :
  exists p' w' events, run_loop mem_env 5 (two_stages 10, {["B" := 10]}) = (Ok (Continue 10), (p', w')) /\
    w' = replay events {["B" := 10]} /\ completions events = ["A"; "B"].
Proof.
  destruct (run_loop mem_env 5 (two_stages 10, {["B" := 10]})) as [o [p' w']] eqn:E.
  assert (Ho : o = Ok (Continue 10)) by (apply (f_equal fst) in E; vm_compute in E; by subst o). subst o.
  destruct (run_loop_replay mem_env id id 5 (two_stages 10) p' {["B" := 10]} w' (Continue 10)) as (l & _ & H2 & H3);
    [apply _|apply two_stages_leave|exact E|done|]. by exists p', w', l.
Defined.

(** A stage that goes to block [k] in steps of at most [d]. *)
Definition goal_stage (s : string) (k d : Z) : Stage (gmap string Z) (gmap string Z) := {|
  stage_id := s;
  execute := fun i x =>
    let next := default 0 (ei_stage_progress i) + d in
    (Ok (if k <=? next then mkExecOutput k true else mkExecOutput next false), x);
  unwind_stage := fun i x => (Ok (mkUnwindOutput (unwind_to i)), x) |}.

Lemma goal_reaches s k d : 0 < d -> reaches k k (goal_stage s k d).
Proof.
  intros Hd sp tx w Hi. eexists _, _. split; [reflexivity|]. cbn.
  destruct (Z.leb_spec k (default 0 sp + d)); cbn; lia.
Qed.

Lemma goal_leaves s k d : leaves_checkpoints id id (goal_stage s k d).
Proof. split; [intros i tx w o tx' w' _ [= _ <- <-]|intros i tx w o tx' w' [= _ <- <-]]; auto. Qed.

(** A stage that works in batches of [d] blocks behind the stage before it. *)
Definition batch_stage (s : string) (d : Z) : Stage (gmap string Z) (gmap string Z) := {|
  stage_id := s;
  execute := fun i x =>
    (Ok match next_action i (Some d) with
        | Run _ last capped => mkExecOutput last (negb capped)
        | Done stage_progress _ => mkExecOutput stage_progress true
        end, x);
  unwind_stage := fun i x => (Ok (mkUnwindOutput (unwind_to i)), x) |}.

Lemma batch_leaves s d : leaves_checkpoints id id (batch_stage s d).
Proof. split; [intros i tx w o tx' w' _ [= _ <- <-]|intros i tx w o tx' w' [= _ <- <-]]; auto. Qed.

Definition two_goals : Pipeline (gmap string Z) (gmap string Z) :=
  with_max_block 7 (builder_add_stage (batch_stage "B" 3) (builder_add_stage (goal_stage "A" 7 2) pipeline_default)).

Lemma run_reaches_target_witness :
  exists p' w', run mem_env 1 10 (two_goals, ∅) = (Ok tt, (p', w')) /\
    7 <= checkpoint w' "A" /\ 7 <= checkpoint w' "B".
Proof.
  destruct (run_reaches_target mem_env id id 0 10 7 7 two_goals ∅ (goal_stage "A" 7 2) [batch_stage "B" 3]) as (p' & w' & E & H & _);
    [apply _|apply _|..|exists p', w'; split; [exact E|by apply Forall_cons in H as [H1 [H2 _]%Forall_cons]]].
  - done.
  - by apply goal_reaches.
  - apply Forall_singleton, (batches_catch_up 3); [lia|lia|]. intros i tx w. by eexists.
  - cbn. apply Forall_cons_2; [apply goal_leaves|]. apply Forall_singleton, batch_leaves.
  - apply (bool_decide_unpack _). vm_compute. done.
  - done.
  - lia.
  - done.
  - repeat constructor; vm_compute; congruence.
  - lia.
Defined.

Lemma stage_set_order_witness :
  order (add_stage (step_stage "A" 1) (add_stage (step_stage "B" 1) (add_stage (step_stage "A" 2) set_default))) = ["B"; "A"].
Proof.
  rewrite (proj2 (proj1 (stage_set_order _ (step_stage "A" 1) "B"
    (proj1 (proj1 (stage_set_order _ (step_stage "B" 1) "A" (proj1 (proj1 (stage_set_order set_default (step_stage "A" 2) "B"
      set_default_inv ltac:(done)))) ltac:(done)))) ltac:(done)))).
  reflexivity.
Defined.

(** The stages of a full sync, in order. *)
Example default_stages_order :
  let s n := step_stage n 1 in
  stage_id <$> set_build (default_stages (online_stages (s "Headers") (s "TotalDifficulty") (s "Bodies"))
    (offline_stages (execution_stages (s "SenderRecovery") (s "Execution"))
       (hashing_stages (s "MerkleUnwind") (s "AccountHashing") (s "StorageHashing") (s "MerkleExecute"))
       (history_indexing_stages (s "TransactionLookup") (s "IndexStorageHistory") (s "IndexAccountHistory")))
    (s "Finish")) =
  ["Headers"; "TotalDifficulty"; "Bodies"; "SenderRecovery"; "Execution"; "MerkleUnwind"; "AccountHashing";
   "StorageHashing"; "MerkleExecute"; "TransactionLookup"; "IndexStorageHistory"; "IndexAccountHistory"; "Finish"].
Proof. vm_compute. reflexivity. Qed.
