(* ===== verification/Compact.v ===== *)
(** * The Compact codec of the database (crates/storage/codecs)

    The trait [Compact], its implementations for the basic types
    (storage/codecs/src/lib.rs), what the derive macro generates for a structure or
    an enumeration (storage/codecs/derive/src/compact), the derived and the
    hand-written codecs of the types kept in tables (primitives/src,
    storage/db/src/tables), and the table compression built on them.

    A codec does not delimit its own output: a field's length goes to a bit field at
    the front of the structure when its type is a flag type, other fields are given
    the rest of the buffer.  The bit field is laid out by the package
    modular-bitfield, a parameter ([Bitfield]).  The attribute [maybe_zero], which no
    type carries, is left out. *)
From S2P Require Import Prelude Bytes Primitives PoolInner SubState.

(** ** Reading buffers: [None] is a panic *)

(** [copy_to_bytes], [&buf[..n]] with [advance], [get(..n).expect(..)] *)
Definition split_at (n : Z) (buf : bytes) : option (bytes * bytes) :=
  if (0 <=? n) && (n <=? zlen buf) then Some (take (Z.to_nat n) buf, drop (Z.to_nat n) buf) else None.

Definition get_uint (n : nat) (buf : bytes) : option (Z * bytes) :=
  '(d, buf) ← split_at (Z.of_nat n) buf; Some (be_value d, buf).

(** [put_u16(len as u16)]: the low 16 bits. *)
Definition put_u16 (len : Z) : bytes := be_bytes 2 len.

(** ** The trait

    [to_compact] gives the bytes it writes and the length it returns; [from_compact]
    takes the buffer and a length, and gives the value and the rest of the buffer. *)
Record Compact (A : Type) := mkCompact {
  to_compact : A -> option (bytes * Z);
  from_compact : bytes -> Z -> option (A * bytes);
  specialized_to_compact : A -> option (bytes * Z);
  specialized_from_compact : bytes -> Z -> option (A * bytes)
}.
Arguments mkCompact {A} _ _ _ _.
Arguments to_compact {A} c _ : rename.
Arguments from_compact {A} c _ _ : rename.
Arguments specialized_to_compact {A} c _ : rename.
Arguments specialized_from_compact {A} c _ _ : rename.

(** The default methods. *)
Definition plain_compact {A} (to : A -> option (bytes * Z)) (from : bytes -> Z -> option (A * bytes)) : Compact A :=
  mkCompact to from to from.

(** ** Basic types *)

(** [impl_uint_compact], for an integer of [n] bytes. *)
Definition uint_to_compact (n : nat) (v : Z) : option (bytes * Z) :=
  let leading := leading_zeros (8 * Z.of_nat n) v / 8 in
  Some (drop (Z.to_nat leading) (be_bytes n v), Z.of_nat n - leading).

Definition uint_from_compact (n : nat) (buf : bytes) (len : Z) : option (Z * bytes) :=
  if 0 <? len then
    if Z.of_nat n <? len then None else
    '(d, buf) ← split_at len buf;
    Some (be_value (replicate (n - Z.to_nat len) 0 ++ d), buf)
  else Some (0, buf).

Definition uint_compact (n : nat) : Compact Z := plain_compact (uint_to_compact n) (uint_from_compact n).

Definition u256_to_compact (v : Z) : option (bytes * Z) :=
  let inner := be_bytes 32 v in
  let size := 32 - leading_zeros 256 v / 8 in
  Some (drop (Z.to_nat (32 - size)) inner, size).

Definition u256_from_compact (buf : bytes) (len : Z) : option (Z * bytes) :=
  if 0 <? len then
    if 32 <? len then None else
    '(d, buf) ← split_at len buf;
    Some (be_value (replicate (32 - Z.to_nat len) 0 ++ d), buf)
  else Some (0, buf).

Definition u256_compact : Compact Z := plain_compact u256_to_compact u256_from_compact.

(** [Vec<T>]: two bytes for the number of elements, two before each element; in the
    specialized version the elements follow each other. *)
Section Vec.
Context {A : Type} (T : Compact A).

Fixpoint vec_put (l : list A) : option bytes :=
  match l with
  | [] => Some []
  | element :: l =>
      '(inner, len) ← to_compact T element;
      rest ← vec_put l;
      Some (put_u16 len ++ inner ++ rest)
  end.

Definition vec_to_compact (l : list A) : option (bytes * Z) :=
  b ← vec_put l; Some (put_u16 (zlen l) ++ b, 0).

Fixpoint vec_get (k : nat) (buf : bytes) : option (list A * bytes) :=
  match k with
  | O => Some ([], buf)
  | S k =>
      '(len, buf) ← get_uint 2 buf;
      '(inner, buf) ← split_at len buf;
      '(element, _) ← from_compact T inner len;
      '(list, buf) ← vec_get k buf;
      Some (element :: list, buf)
  end.

Definition vec_from_compact (buf : bytes) (_ : Z) : option (list A * bytes) :=
  '(length, buf) ← get_uint 2 buf; vec_get (Z.to_nat length) buf.

Fixpoint vec_specialized_put (l : list A) : option bytes :=
  match l with
  | [] => Some []
  | element :: l =>
      '(inner, _) ← to_compact T element;
      rest ← vec_specialized_put l;
      Some (inner ++ rest)
  end.

Definition vec_specialized_to_compact (l : list A) : option (bytes * Z) :=
  b ← vec_specialized_put l; Some (put_u16 (zlen l) ++ b, 0).

Fixpoint vec_specialized_get (k : nat) (buf : bytes) (len : Z) : option (list A * bytes) :=
  match k with
  | O => Some ([], buf)
  | S k =>
      '(element, buf) ← from_compact T buf len;
      '(list, buf) ← vec_specialized_get k buf len;
      Some (element :: list, buf)
  end.

Definition vec_specialized_from_compact (buf : bytes) (len : Z) : option (list A * bytes) :=
  '(length, buf) ← get_uint 2 buf; vec_specialized_get (Z.to_nat length) buf len.

Definition vec_compact : Compact (list A) :=
  mkCompact vec_to_compact vec_from_compact vec_specialized_to_compact vec_specialized_from_compact.

(** [Option<T>]: the presence is the returned length. *)
Definition option_to_compact (o : option A) : option (bytes * Z) :=
  match o with
  | Some element =>
      '(inner, len) ← to_compact T element; Some (put_u16 len ++ inner, 1)
  | None => Some ([], 0)
  end.

Definition option_from_compact (buf : bytes) (len : Z) : option (option A * bytes) :=
  if len =? 0 then Some (None, buf) else
  '(len, buf) ← get_uint 2 buf;
  '(inner, buf) ← split_at len buf;
  '(element, _) ← from_compact T inner len;
  Some (Some element, buf).

Definition option_specialized_to_compact (o : option A) : option (bytes * Z) :=
  match o with
  | Some element => '(inner, _) ← to_compact T element; Some (inner, 1)
  | None => Some ([], 0)
  end.

Definition option_specialized_from_compact (buf : bytes) (len : Z) : option (option A * bytes) :=
  if len =? 0 then Some (None, buf) else
  '(element, buf) ← from_compact T buf len; Some (Some element, buf).

Definition option_compact : Compact (option A) :=
  mkCompact option_to_compact option_from_compact option_specialized_to_compact option_specialized_from_compact.
End Vec.

Definition bytes_compact : Compact bytes :=
  plain_compact (fun b => Some (b, zlen b)) (fun buf len => split_at len buf).

(** [impl_hash_compact], for a hash of [n] bytes. *)
Definition hash_compact (n : nat) : Compact Z :=
  plain_compact (fun v => Some (be_bytes n v, Z.of_nat n))
    (fun buf len => if len =? 0 then Some (0, buf) else
       '(d, buf) ← split_at (Z.of_nat n) buf; Some (be_value d, buf)).

Definition bool_compact : Compact bool :=
  plain_compact (fun b => Some ([], if b : bool then 1 else 0)) (fun buf len => Some (negb (len =? 0), buf)).

(** primitives/src/transaction/tx_type.rs *)
Definition tx_type_compact : Compact TxType :=
  plain_compact
    (fun t => Some ([], match t with TxLegacyType => 0 | TxEIP2930Type => 1 | TxEIP1559Type => 2 end))
    (fun buf identifier =>
       Some (if identifier =? 0 then TxLegacyType else if identifier =? 1 then TxEIP2930Type else TxEIP1559Type, buf)).

(** ** The derive macro (storage/codecs/derive/src/compact) *)

(** [#[bitfield]] of modular-bitfield: [into_bytes] lays out fields given as (width,
    value), the setters panicking on a value that does not fit; [from_bytes] reads the
    fields of the given widths. *)
Record Bitfield := mkBitfield {
  into_bytes : list (Z * Z) -> option bytes;
  from_bytes : list Z -> bytes -> list Z
}.

Definition get_bit_size (ftype : string) : Z :=
  if bool_decide (ftype ∈ ["bool"; "Option"]) then 1
  else if bool_decide (ftype = "TxType") then 2
  else if bool_decide (ftype ∈ ["u64"; "BlockNumber"; "TxNumber"; "ChainId"]) then 4
  else if bool_decide (ftype = "u128") then 5
  else if bool_decide (ftype ∈ ["U256"; "TxHash"]) then 6
  else 0.

Definition is_flag_type (ftype : string) : bool := 0 <? get_bit_size ftype.

Definition should_use_alt_impl (ftype arg : string) : bool :=
  bool_decide (ftype ∈ ["Vec"; "Option"]) && bool_decide (arg ∈ ["H256"; "H160"; "Address"; "Bloom"]).

(** A field: the name of its type, the name of the type's argument, its codec. *)
Record Field (A : Type) := mkField { f_type : string; f_arg : string; f_codec : Compact A }.
Arguments mkField {A} _ _ _.
Arguments f_type {A} f : rename.
Arguments f_arg {A} f : rename.
Arguments f_codec {A} f : rename.

(** The fields of a structure whose values are nested pairs. *)
Inductive FieldList : Type -> Type :=
| FNil : FieldList unit
| FCons {A B} (f : Field A) (l : FieldList B) : FieldList (A * B).

Declare Scope compact_scope.
Delimit Scope compact_scope with compact.
Notation "f &: l" := (FCons f l) (at level 60, right associativity) : compact_scope.

Definition use_alt_impl {A} (f : Field A) : bool := should_use_alt_impl (f_type f) (f_arg f).
Definition field_to {A} (f : Field A) : A -> option (bytes * Z) :=
  if use_alt_impl f then specialized_to_compact (f_codec f) else to_compact (f_codec f).
Definition field_from {A} (f : Field A) : bytes -> Z -> option (A * bytes) :=
  if use_alt_impl f then specialized_from_compact (f_codec f) else from_compact (f_codec f).

Definition known_types : list string :=
  ["H256"; "H160"; "Address"; "Bloom"; "Vec"; "TransactionKind"; "AccessList"; "Signature"].

Definition is_last {A} (l : FieldList A) : bool := match l with FNil => true | FCons _ _ => false end.

(** The assertion of [StructHandler::from], made when the macro is expanded. *)
Fixpoint derive_accepts {A} (l : FieldList A) : bool :=
  match l with
  | FNil => true
  | FCons f l =>
      (bool_decide (f_type f ∈ known_types) || is_flag_type (f_type f) || is_last l) && derive_accepts l
  end.

(** [build_struct_field_flags] *)
Fixpoint build_struct_field_flags {A} (l : FieldList A) : list Z :=
  match l with
  | FNil => []
  | FCons f l =>
      (if is_flag_type (f_type f) then [get_bit_size (f_type f)] else []) ++ build_struct_field_flags l
  end.

Definition sum_bits (l : list Z) : Z := foldr Z.add 0 l.

(** The width of the unused field, or none. *)
Definition pad_flag_struct (total_bits : Z) : list Z :=
  let remaining := 8 - total_bits mod 8 in if remaining =? 8 then [] else [remaining].

Section Derive.
Context (BF : Bitfield).

(** [generate_flag_struct]: without flags the generated type is a placeholder. *)
Definition flags_into_bytes (flags : list (Z * Z)) : option bytes :=
  let total_bits := sum_bits (fst <$> flags) in
  if total_bits =? 0 then Some [] else
  into_bytes BF (flags ++ ((fun w => (w, 0)) <$> pad_flag_struct total_bits)).

Definition flags_from (widths : list Z) (buf : bytes) : option (list Z * bytes) :=
  let total_bits := sum_bits widths in
  if total_bits =? 0 then Some ([], buf) else
  let widths := widths ++ pad_flag_struct total_bits in
  '(b, buf) ← split_at (sum_bits widths / 8) buf;
  Some (from_bytes BF widths b, buf).

(** [StructHandler::to] on the fields: the flags set and the buffer written. *)
Fixpoint fields_to {A} (l : FieldList A) : A -> option (list (Z * Z) * bytes) :=
  match l with
  | FNil => fun _ => Some ([], [])
  | FCons f l => fun x =>
      '(b, len) ← field_to f (fst x);
      '(flags, buffer) ← fields_to l (snd x);
      Some ((if is_flag_type (f_type f) then [(get_bit_size (f_type f), wrap 8 len)] else []) ++ flags, b ++ buffer)
  end.

(** [StructHandler::from] on the fields *)
Fixpoint fields_from {A} (l : FieldList A) : list Z -> bytes -> option (A * bytes) :=
  match l with
  | FNil => fun _ buf => Some (tt, buf)
  | FCons f l => fun flags buf =>
      if is_flag_type (f_type f) then
        match flags with
        | len :: flags =>
            '(a, buf) ← field_from f buf len;
            '(x, buf) ← fields_from l flags buf;
            Some ((a, x), buf)
        | [] => None
        end
      else
        '(a, buf) ← field_from f buf (zlen buf);
        '(x, buf) ← fields_from l flags buf;
        Some ((a, x), buf)
  end.

(** [generate_to_compact] and [generate_from_compact] of a structure [B] *)
Definition struct_to_compact {A B} (l : FieldList A) (g : B -> A) (v : B) : option (bytes * Z) :=
  '(flags, buffer) ← fields_to l (g v);
  flags ← flags_into_bytes flags;
  Some (flags ++ buffer, zlen flags + zlen buffer).

Definition struct_from_compact {A B} (l : FieldList A) (f : A -> B) (buf : bytes) (_ : Z) : option (B * bytes) :=
  '(flags, buf) ← flags_from (build_struct_field_flags l) buf;
  '(x, buf) ← fields_from l flags buf;
  Some (f x, buf).

Definition struct_compact {A B} (l : FieldList A) (f : A -> B) (g : B -> A) : Compact B :=
  plain_compact (struct_to_compact l g) (struct_from_compact l f).

(** The same of an enumeration: the index of the variant, and its field. *)
Definition enum_to_compact {B} (to_variant : B -> Z * option bytes) (v : B) : option (bytes * Z) :=
  buffer ← snd (to_variant v);
  flags ← flags_into_bytes [(8, fst (to_variant v))];
  Some (flags ++ buffer, zlen flags + zlen buffer).

Definition enum_from_compact {B} (from_variant : Z -> bytes -> option (B * bytes)) (buf : bytes) (_ : Z) : option (B * bytes) :=
  '(flags, buf) ← flags_from [8] buf;
  match flags with variant :: _ => from_variant variant buf | [] => None end.

Definition enum_compact {B} to_variant from_variant : Compact B :=
  plain_compact (enum_to_compact to_variant) (enum_from_compact from_variant).

(** The field of a variant is given the rest of the buffer. *)
Definition variant_to {A} (T : Compact A) (a : A) : option bytes := fst <$> to_compact T a.
Definition variant_from {A B} (T : Compact A) (f : A -> B) (buf : bytes) : option (B * bytes) :=
  '(inner, buf) ← from_compact T buf (zlen buf); Some (f inner, buf).

(** ** Derived codecs of primitives/src *)
Open Scope compact_scope.

Definition u64_field : Field Z := mkField "u64" "" (uint_compact 8).
Definition u128_field : Field Z := mkField "u128" "" (uint_compact 16).
Definition U256_field : Field Z := mkField "U256" "" u256_compact.
Definition H256_field : Field Z := mkField "H256" "" (hash_compact 32).
Definition Address_field : Field Z := mkField "Address" "" (hash_compact 20).
Definition opt_H256_field : Field (option Z) := mkField "Option" "H256" (option_compact (hash_compact 32)).
Definition Bytes_field : Field bytes := mkField "Bytes" "" bytes_compact.

Definition account_fields := u64_field &: U256_field &: opt_H256_field &: FNil.
Definition account_compact : Compact Account :=
  struct_compact account_fields (fun '(n, (b, (h, tt))) => mkAccount n b h)
    (fun a => (acc_nonce a, (acc_balance a, (bytecode_hash a, tt)))).

Definition header_compact_fields :=
  H256_field &: H256_field &: mkField "H160" "" (hash_compact 20) &: H256_field &: H256_field &: H256_field &:
  opt_H256_field &: mkField "Bloom" "" (hash_compact 256) &: U256_field &: mkField "BlockNumber" "" (uint_compact 8) &:
  u64_field &: u64_field &: u64_field &: H256_field &: u64_field &:
  mkField "Option" "u64" (option_compact (uint_compact 8)) &: Bytes_field &: FNil.
Definition header_compact : Compact Header :=
  struct_compact header_compact_fields
    (fun '(p, (o, (b, (s, (t, (r, (w, (lb, (d, (n, (gl, (gu, (ts, (m, (no, (f, (e, tt))))))))))))))))) =>
       mkHeader p o b s t r w lb d n gl gu ts m no f e)
    (fun h => (parent_hash h, (ommers_hash h, (beneficiary h, (state_root h, (transactions_root h, (receipts_root h,
      (withdrawals_root h, (logs_bloom h, (difficulty h, (number h, (h_gas_limit h, (gas_used h, (timestamp h,
      (mix_hash h, (h_nonce h, (base_fee_per_gas h, (extra_data h, tt)))))))))))))))))).

Definition withdrawal_compact : Compact Withdrawal :=
  struct_compact (u64_field &: u64_field &: Address_field &: u64_field &: FNil)
    (fun '(i, (v, (a, (m, tt)))) => mkWithdrawal i v a m)
    (fun w => (w_index w, (validator_index w, (w_address w, (amount w, tt))))).

Definition log_compact : Compact Log :=
  struct_compact (Address_field &: mkField "Vec" "H256" (vec_compact (hash_compact 32)) &: Bytes_field &: FNil)
    (fun '(a, (t, (d, tt))) => mkLog a t d) (fun l => (log_address l, (topics l, (data l, tt)))).

Definition receipt_compact_fields :=
  mkField "TxType" "" tx_type_compact &: mkField "bool" "" bool_compact &: u64_field &:
  mkField "Bloom" "" (hash_compact 256) &: mkField "Vec" "Log" (vec_compact log_compact) &: FNil.
Definition receipt_compact : Compact Receipt :=
  struct_compact receipt_compact_fields
    (fun '(t, (s, (g, (b, (l, tt))))) => mkReceipt t s g b l)
    (fun r => (r_tx_type r, (success r, (cumulative_gas_used r, (bloom r, (logs r, tt)))))).

Definition access_list_item_compact : Compact AccessListItem :=
  struct_compact (Address_field &: mkField "Vec" "H256" (vec_compact (hash_compact 32)) &: FNil)
    (fun '(a, (k, tt)) => mkAccessListItem a k) (fun i => (ali_address i, (storage_keys i, tt))).

Definition access_list_compact : Compact (list AccessListItem) :=
  struct_compact (mkField "Vec" "AccessListItem" (vec_compact access_list_item_compact) &: FNil)
    fst (fun l => (l, tt)).

Definition kind_compact : Compact TransactionKind :=
  enum_compact
    (fun k => match k with
              | Create => (0, Some [])
              | Call a => (1, variant_to (hash_compact 20) a)
              end)
    (fun variant buf =>
       if variant =? 0 then Some (Create, buf)
       else if variant =? 1 then variant_from (hash_compact 20) Call buf
       else None).

Definition kind_field : Field TransactionKind := mkField "TransactionKind" "" kind_compact.
Definition access_list_field : Field (list AccessListItem) := mkField "AccessList" "" access_list_compact.

Definition tx_legacy_compact : Compact TxLegacy :=
  struct_compact
    (mkField "Option" "ChainId" (option_compact (uint_compact 8)) &: u64_field &: u128_field &: u64_field &:
     kind_field &: u128_field &: Bytes_field &: FNil)
    (fun '(c, (n, (p, (g, (t, (v, (i, tt))))))) => mkTxLegacy c n p g t v i)
    (fun x => (lg_chain_id x, (lg_nonce x, (lg_gas_price x, (lg_gas_limit x, (lg_to x, (lg_value x, (lg_input x, tt)))))))).

Definition tx_eip2930_compact : Compact TxEip2930 :=
  struct_compact
    (mkField "ChainId" "" (uint_compact 8) &: u64_field &: u128_field &: u64_field &:
     kind_field &: u128_field &: access_list_field &: Bytes_field &: FNil)
    (fun '(c, (n, (p, (g, (t, (v, (a, (i, tt)))))))) => mkTxEip2930 c n p g t v a i)
    (fun x => (al_chain_id x, (al_nonce x, (al_gas_price x, (al_gas_limit x, (al_to x, (al_value x,
      (al_access_list x, (al_input x, tt))))))))).

Definition tx_eip1559_compact : Compact TxEip1559 :=
  struct_compact
    (u64_field &: u64_field &: u64_field &: u128_field &: u128_field &:
     kind_field &: u128_field &: access_list_field &: Bytes_field &: FNil)
    (fun '(c, (n, (g, (f, (p, (t, (v, (a, (i, tt))))))))) => mkTxEip1559 c n g f p t v a i)
    (fun x => (df_chain_id x, (df_nonce x, (df_gas_limit x, (df_max_fee_per_gas x, (df_max_priority_fee_per_gas x,
      (df_to x, (df_value x, (df_access_list x, (df_input x, tt)))))))))).

Definition transaction_compact : Compact Transaction :=
  enum_compact
    (fun t => match t with
              | TLegacy x => (0, variant_to tx_legacy_compact x)
              | TEip2930 x => (1, variant_to tx_eip2930_compact x)
              | TEip1559 x => (2, variant_to tx_eip1559_compact x)
              end)
    (fun variant buf =>
       if variant =? 0 then variant_from tx_legacy_compact TLegacy buf
       else if variant =? 1 then variant_from tx_eip2930_compact TEip2930 buf
       else if variant =? 2 then variant_from tx_eip1559_compact TEip1559 buf
       else None).

Definition signature_compact : Compact Signature :=
  struct_compact (U256_field &: U256_field &: mkField "bool" "" bool_compact &: FNil)
    (fun '(r, (s, (o, tt))) => mkSignature r s o) (fun s => (sig_r s, (sig_s s, (odd_y_parity s, tt)))).

Definition transaction_signed_compact : Compact TransactionSigned :=
  struct_compact
    (mkField "TxHash" "" (hash_compact 32) &: mkField "Signature" "" signature_compact &:
     mkField "Transaction" "" transaction_compact &: FNil)
    (fun '(h, (s, (t, tt))) => mkTransactionSigned h s t)
    (fun t => (ts_hash t, (signature t, (ts_transaction t, tt)))).

Definition transaction_signed_ec_recovered_compact : Compact TransactionSignedEcRecovered :=
  struct_compact (Address_field &: mkField "TransactionSigned" "" transaction_signed_compact &: FNil)
    (fun '(a, (t, tt)) => mkEcRecovered a t) (fun t => (signer t, (ec_signed t, tt))).

(** checkpoints.rs *)
Record ProofCheckpoint := mkProofCheckpoint {
  hashed_address : option Z; pc_storage_key : option Z; account_root : option Z; storage_root : option Z
}.
Definition proof_checkpoint_compact : Compact ProofCheckpoint :=
  struct_compact (opt_H256_field &: opt_H256_field &: opt_H256_field &: opt_H256_field &: FNil)
    (fun '(a, (k, (r, (s, tt)))) => mkProofCheckpoint a k r s)
    (fun c => (hashed_address c, (pc_storage_key c, (account_root c, (storage_root c, tt))))).

Record AccountHashingCheckpoint := mkAccountHashingCheckpoint { ah_address : option Z; ah_from : Z; ah_to : Z }.
Definition account_hashing_checkpoint_compact : Compact AccountHashingCheckpoint :=
  struct_compact (mkField "Option" "Address" (option_compact (hash_compact 20)) &: u64_field &: u64_field &: FNil)
    (fun '(a, (f, (t, tt))) => mkAccountHashingCheckpoint a f t) (fun c => (ah_address c, (ah_from c, (ah_to c, tt)))).

Record StorageHashingCheckpoint := mkStorageHashingCheckpoint {
  sh_address : option Z; sh_storage : option Z; sh_from : Z; sh_to : Z
}.
Definition storage_hashing_checkpoint_compact : Compact StorageHashingCheckpoint :=
  struct_compact
    (mkField "Option" "Address" (option_compact (hash_compact 20)) &: opt_H256_field &: u64_field &: u64_field &: FNil)
    (fun '(a, (s, (f, (t, tt)))) => mkStorageHashingCheckpoint a s f t)
    (fun c => (sh_address c, (sh_storage c, (sh_from c, (sh_to c, tt))))).

(** storage/db/src/tables/models/blocks.rs *)
Record StoredBlockBody := mkStoredBlockBody { start_tx_id : Z; tx_count : Z }.
Definition stored_block_body_compact : Compact StoredBlockBody :=
  struct_compact (mkField "TxNumber" "" (uint_compact 8) &: mkField "NumTransactions" "" (uint_compact 8) &: FNil)
    (fun '(s, (c, tt)) => mkStoredBlockBody s c) (fun b => (start_tx_id b, (tx_count b, tt))).

Definition stored_block_ommers_compact : Compact (list Header) :=
  struct_compact (mkField "Vec" "Header" (vec_compact header_compact) &: FNil) fst (fun l => (l, tt)).
Definition stored_block_withdrawals_compact : Compact (list Withdrawal) :=
  struct_compact (mkField "Vec" "Withdrawal" (vec_compact withdrawal_compact) &: FNil) fst (fun l => (l, tt)).

(** [add_wrapper_struct] *)
Definition CompactU256_compact : Compact Z := struct_compact (U256_field &: FNil) fst (fun v => (v, tt)).
Definition CompactU64_compact : Compact Z := struct_compact (u64_field &: FNil) fst (fun v => (v, tt)).

(** ** Hand-written codecs *)

(** primitives/src/storage.rs; [len - 32] wraps below 32. *)
Record StorageEntry := mkStorageEntry { se_key : Z; se_value : Z }.
Definition storage_entry_compact : Compact StorageEntry :=
  plain_compact
    (fun e => '(b, n) ← to_compact u256_compact (se_value e); Some (be_bytes 32 (se_key e) ++ b, n + 32))
    (fun buf len =>
       '(k, buf) ← split_at 32 buf;
       '(value, out) ← from_compact u256_compact buf (wrap 64 (len - 32));
       Some (mkStorageEntry (be_value k) value, out)).

Record StorageTrieEntry := mkStorageTrieEntry { ste_hash : Z; node : bytes }.
Definition storage_trie_entry_compact : Compact StorageTrieEntry :=
  plain_compact
    (fun e => Some (be_bytes 32 (ste_hash e) ++ node e, zlen (node e) + 32))
    (fun buf len =>
       '(k, _) ← split_at 32 buf;
       '(b, out) ← split_at len buf;
       if len <? 32 then None else Some (mkStorageTrieEntry (be_value k) (drop 32 b), out)).

(** tables/models/accounts.rs *)
Record AccountBeforeTx := mkAccountBeforeTx { abt_address : Z; abt_info : option Account }.
Definition account_before_tx_compact : Compact AccountBeforeTx :=
  plain_compact
    (fun a => '(b, n) ← to_compact (option_compact account_compact) (abt_info a);
              Some (be_bytes 20 (abt_address a) ++ b, n + 32))
    (fun buf len =>
       '(a, buf) ← split_at 20 buf;
       '(info, out) ← from_compact (option_compact account_compact) buf (wrap 64 (len - 20));
       Some (mkAccountBeforeTx (be_value a) info, out)).
End Derive.

(** primitives/src/account.rs, over the bytecode type of revm. *)
Section Bytecode.
Context {JumpMap : Type} (as_slice : JumpMap -> bytes) (from_slice : bytes -> JumpMap).

Inductive BytecodeState := Raw | Checked (len : Z) | Analysed (len : Z) (jump_map : JumpMap).
Record Bytecode := mkBytecode { bytecode : bytes; bc_hash : Z; state : BytecodeState }.

Context (new_raw : bytes -> Bytecode) (new_checked : bytes -> Z -> option Z -> Bytecode).

Definition bytecode_to_compact (c : Bytecode) : option (bytes * Z) :=
  let '(b, len) :=
    match state c with
    | Raw => ([0], 1)
    | Checked len => (1 :: be_bytes 8 len, 9)
    | Analysed len jump_map =>
        let map := as_slice jump_map in (2 :: be_bytes 8 len ++ map, 9 + zlen map)
    end in
  Some (be_bytes 4 (zlen (bytecode c)) ++ bytecode c ++ b, len + zlen (bytecode c) + 4).

Definition bytecode_from_compact (buf : bytes) (_ : Z) : option (Bytecode * bytes) :=
  '(len, buf) ← get_uint 4 buf;
  '(b, buf) ← split_at len buf;
  '(variant, buf) ← get_uint 1 buf;
  decoded ←
    (if variant =? 0 then Some (new_raw b)
     else if variant =? 1 then '(len, _) ← get_uint 8 buf; Some (new_checked b len None)
     else if variant =? 2 then '(len, buf) ← get_uint 8 buf; Some (mkBytecode b KECCAK_EMPTY (Analysed len (from_slice buf)))
     else None);
  Some (decoded, []).

Definition bytecode_compact : Compact Bytecode := plain_compact bytecode_to_compact bytecode_from_compact.
End Bytecode.

(** ** Table values (storage/db/src/tables/codecs/compact.rs) *)
Definition compress {A} (T : Compact A) (v : A) : option bytes := fst <$> to_compact T v.
Definition decompress {A} (T : Compact A) (value : bytes) : option A := fst <$> from_compact T value (zlen value).
