(* ===== verification/CompactProofs.v ===== *)
(** * Round trips of the Compact codec

    A codec is correct in one of three ways, by how its reader learns where the value
    ends ([Mode]).  The derive macro turns correct fields into a correct structure as
    long as its own check on the placement of the fields passes
    ([derive_roundtrip]), and every type kept in a table is covered by it. *)
From S2P Require Import Prelude Bytes Primitives PoolInner SubState Compact.

Open Scope compact_scope.

(** [Sized n]: the returned length fits [n] bits and is what the reader needs.
    [Delim]: the value is followed by other data, the reader gets the whole buffer.
    [Final]: the buffer ends with the value.  [Elem]: so it does, and the length
    returned by the writer is the number of bytes written. *)
Inductive Mode := Sized (bits : Z) | Delim | Final | Elem.

Section Holds.
Context {A : Type}.
Implicit Types (wf : A -> Prop) (to : A -> option (bytes * Z)) (from : bytes -> Z -> option (A * bytes)).

Definition holds (m : Mode) wf to from : Prop :=
  forall a, wf a -> exists b n, to a = Some (b, n) /\
    match m with
    | Sized bits => 0 <= n < 2 ^ bits /\ forall rest, from (b ++ rest) n = Some (a, rest)
    | Delim => forall rest, from (b ++ rest) (zlen (b ++ rest)) = Some (a, rest)
    | Final => from b (zlen b) = Some (a, [])
    | Elem => n = zlen b /\ from b (zlen b) = Some (a, [])
    end.

Lemma holds_final m wf to from : m = Delim \/ m = Elem -> holds m wf to from -> holds Final wf to from.
Proof.
  intros Hm H a Ha. destruct (H a Ha) as (b & n & E & R). exists b, n. split; [done|].
  destruct Hm as [-> | ->]; [|apply R]. specialize (R []). by rewrite app_nil_r in R.
Qed.

Lemma holds_weaken m wf wf' to from :
  holds m wf to from -> (forall a, wf' a -> wf a) -> holds m wf' to from.
Proof. intros H Hw a Ha. by apply H, Hw. Qed.
End Holds.

(** A codec in a mode, for the values that satisfy [wf]. *)
Class CompactOk {A} (m : Mode) (wf : A -> Prop) (C : Compact A) : Prop :=
  compact_ok : holds m wf (to_compact C) (from_compact C).
(** The length given to the reader does not matter, unless it is zero. *)
Class CompactFixed {A} (wf : A -> Prop) (C : Compact A) : Prop :=
  compact_fixed a : wf a -> exists b n, to_compact C a = Some (b, n) /\ b <> [] /\
    forall rest len, len <> 0 -> from_compact C (b ++ rest) len = Some (a, rest).

(** ** Buffers *)
Lemma split_at_app b rest : split_at (zlen b) (b ++ rest) = Some (b, rest).
Proof.
  unfold split_at. rewrite (proj2 (Z.leb_le 0 _)), (proj2 (Z.leb_le _ _)) by (rewrite ?length_app; lia).
  cbn [andb]. by rewrite Nat2Z.id, take_app_length, drop_app_length.
Qed.

Lemma split_at_len n b rest : zlen b = n -> split_at n (b ++ rest) = Some (b, rest).
Proof. intros <-. apply split_at_app. Qed.

Lemma get_uint_app n v rest : get_uint n (be_bytes n v ++ rest) = Some (v mod 256 ^ Z.of_nat n, rest).
Proof.
  unfold get_uint. rewrite split_at_len by (by rewrite length_be_bytes). cbn [mbind option_bind].
  by rewrite be_value_be_bytes.
Qed.

Lemma get_u16_app v rest : 0 <= v < 2 ^ 16 -> get_uint 2 (put_u16 v ++ rest) = Some (v, rest).
Proof. intros Hv. unfold put_u16. rewrite get_uint_app. by rewrite Z.mod_small. Qed.

Lemma zlen_nonneg {A} (l : list A) : 0 <= zlen l.
Proof. lia. Qed.

(** ** Basic types *)
Abbreviation bytes_of n := (fun v => 0 <= v < 256 ^ Z.of_nat n).

Lemma uint_to_eq n v : 0 <= v < 256 ^ Z.of_nat n ->
  uint_to_compact n v = Some (zeroless_view (be_bytes n v), zlen (zeroless_view (be_bytes n v))).
Proof.
  intros Hv. unfold uint_to_compact. rewrite drop_leading_zeros, leading_zeros_byte_width by done.
  do 2 f_equal. unfold byte_width. lia.
Qed.

Lemma uint_from_eq n v rest : 0 <= v < 256 ^ Z.of_nat n ->
  let b := zeroless_view (be_bytes n v) in uint_from_compact n (b ++ rest) (zlen b) = Some (v, rest).
Proof.
  intros Hv b. unfold uint_from_compact.
  assert (Hval : be_value b = v) by (unfold b; rewrite be_value_zeroless, be_value_be_bytes; by apply Z.mod_small).
  assert (Hl : (length b <= n)%nat) by (unfold b; rewrite <- (length_be_bytes n v) at 2; apply length_zeroless).
  destruct (Z.ltb_spec 0 (zlen b)).
  - rewrite (proj2 (Z.ltb_ge _ _)) by lia. rewrite split_at_app. cbn [mbind option_bind].
    by rewrite be_value_app, be_value_replicate_0, Hval.
  - destruct b; [by rewrite <- Hval|cbn in *; lia].
Qed.

#[global] Instance uint_sized n bits : TCEq (Z.of_nat n <? 2 ^ bits) true ->
  CompactOk (Sized bits) (bytes_of n) (uint_compact n).
Proof.
  intros Hb%TCEq_eq%Z.ltb_lt v Hv. cbn [to_compact uint_compact plain_compact].
  rewrite uint_to_eq by done. do 2 eexists. split; [done|]. split; [|intros; by apply uint_from_eq].
  pose proof (length_zeroless (be_bytes n v)) as Hl. rewrite length_be_bytes in Hl. lia.
Qed.

#[global] Instance uint_elem n : CompactOk Elem (bytes_of n) (uint_compact n).
Proof.
  intros v Hv. cbn [to_compact uint_compact plain_compact]. rewrite uint_to_eq by done.
  do 2 eexists. split; [done|]. split; [done|].
  pose proof (uint_from_eq n v [] Hv) as E. cbv zeta in E. by rewrite app_nil_r in E.
Qed.

Lemma u256_to_eq v : u256_to_compact v = uint_to_compact 32 v.
Proof.
  unfold u256_to_compact, uint_to_compact. cbv zeta.
  by replace (32 - (32 - leading_zeros 256 v / 8)) with (leading_zeros 256 v / 8) by lia.
Qed.

#[global] Instance u256_ok m : CompactOk m (bytes_of 32) (uint_compact 32) -> CompactOk m (bytes_of 32) u256_compact.
Proof.
  intros H v Hv. destruct (H v Hv) as (b & n & E & R). exists b, n. split; [|exact R].
  cbn [to_compact u256_compact plain_compact]. by rewrite u256_to_eq.
Qed.

#[global] Instance hash_fixed n : TCEq (n =? 0)%nat false -> CompactFixed (bytes_of n) (hash_compact n).
Proof.
  intros Hn%TCEq_eq%Nat.eqb_neq v Hv. exists (be_bytes n v), (Z.of_nat n). cbn [to_compact from_compact hash_compact plain_compact].
  split; [done|]. split; [intros E%(f_equal length); by rewrite length_be_bytes in E|].
  intros rest len Hlen%Z.eqb_neq. rewrite Hlen, split_at_len by (by rewrite length_be_bytes). cbn [mbind option_bind].
  by rewrite be_value_be_bytes, Z.mod_small.
Qed.

#[global] Instance hash_sized n bits : TCEq (n =? 0)%nat false -> TCEq (Z.of_nat n <? 2 ^ bits) true ->
  CompactOk (Sized bits) (bytes_of n) (hash_compact n).
Proof.
  intros Hn Hb%TCEq_eq%Z.ltb_lt v Hv. destruct (hash_fixed n Hn v Hv) as (b & k & E & _ & R). exists b, k.
  split; [done|]. injection E as <- <-. split; [lia|]. intros rest. apply R. apply TCEq_eq, Nat.eqb_neq in Hn. lia.
Qed.

(** A codec that does not depend on the length delimits itself. *)
Lemma fixed_delim {A} wf (C : Compact A) : CompactFixed wf C -> CompactOk Delim wf C.
Proof.
  intros H v Hv. destruct (H v Hv) as (b & n & E & Hne & R). exists b, n. split; [done|].
  intros rest. apply R. destruct b; [done|]. cbn. lia.
Qed.
#[global] Hint Extern 4 (CompactOk Delim _ (hash_compact _)) => apply fixed_delim : typeclass_instances.

#[global] Instance bytes_elem : CompactOk Elem (fun _ => True) bytes_compact.
Proof.
  intros b _. exists b, (zlen b). split; [done|]. split; [done|].
  pose proof (split_at_app b []) as E. by rewrite app_nil_r in E.
Qed.

#[global] Instance bool_sized : CompactOk (Sized 1) (fun _ => True) bool_compact.
Proof. intros [] _; do 2 eexists; (split; [done|]); split; done || lia. Qed.

#[global] Instance tx_type_sized : CompactOk (Sized 2) (fun _ => True) tx_type_compact.
Proof. intros [] _; do 2 eexists; (split; [done|]); split; done || lia. Qed.

(** ** Vectors and options *)
Section Vec.
Context {A : Type} (wf : A -> Prop) (T : Compact A).

(** Two bytes are kept for a length. *)
Definition fits_u16 (a : A) : Prop := forall b n, to_compact T a = Some (b, n) -> zlen b < 2 ^ 16.
Definition wf_elem (a : A) : Prop := wf a /\ fits_u16 a.
Definition wf_vec (l : list A) : Prop := zlen l < 2 ^ 16 /\ Forall wf_elem l.
Definition wf_opt (o : option A) : Prop := from_option wf_elem True o.

(** An element behind its length, as [Vec] and [Option] write it. *)
Lemma elem_rt a : CompactOk Elem wf T -> wf_elem a -> exists b,
  to_compact T a = Some (b, zlen b) /\
  forall rest, (get_uint 2 (put_u16 (zlen b) ++ b ++ rest) = Some (zlen b, b ++ rest)) /\
    split_at (zlen b) (b ++ rest) = Some (b, rest) /\ from_compact T b (zlen b) = Some (a, []).
Proof.
  intros H [Ha Hf]. destruct (H a Ha) as (b & n & E & -> & R). exists b. split; [done|]. intros rest.
  split; [|split; [apply split_at_app|done]]. apply get_u16_app. specialize (Hf _ _ E). lia.
Qed.

Lemma vec_put_get l : CompactOk Elem wf T -> Forall wf_elem l -> exists b, vec_put T l = Some b /\
  forall rest, vec_get T (length l) (b ++ rest) = Some (l, rest).
Proof.
  intros HT. induction 1 as [|a l Ha _ (b & E & R)]; [by exists []|].
  destruct (elem_rt a HT Ha) as (i & Ei & Ri). exists (put_u16 (zlen i) ++ i ++ b). cbn [vec_put length vec_get].
  rewrite Ei. cbn [mbind option_bind]. rewrite E. cbn [mbind option_bind]. split; [done|].
  intros rest. rewrite <- !app_assoc. destruct (Ri (b ++ rest)) as (-> & E2 & E3). cbn [mbind option_bind].
  rewrite E2. cbn [mbind option_bind]. rewrite E3. cbn [mbind option_bind]. by rewrite R.
Qed.

#[global] Instance vec_delim : CompactOk Elem wf T -> CompactOk Delim wf_vec (vec_compact T).
Proof.
  intros HT l [Hl Hw]. destruct (vec_put_get l HT Hw) as (b & E & R). exists (put_u16 (zlen l) ++ b), 0.
  cbn [to_compact vec_compact]. unfold vec_to_compact. rewrite E. split; [done|]. intros rest.
  cbn [from_compact vec_compact]. unfold vec_from_compact. rewrite <- app_assoc, get_u16_app by lia.
  cbn [mbind option_bind]. by rewrite Nat2Z.id.
Qed.

Lemma vec_specialized_put_get l len : CompactFixed wf T -> len <> 0 -> Forall wf l ->
  exists b, vec_specialized_put T l = Some b /\
  forall rest, vec_specialized_get T (length l) (b ++ rest) len = Some (l, rest).
Proof.
  intros HT Hlen. induction 1 as [|a l Ha _ (b & E & R)]; [by exists []|].
  destruct (HT a Ha) as (i & n & Ei & _ & Ri). exists (i ++ b). cbn [vec_specialized_put length vec_specialized_get].
  rewrite Ei. cbn [mbind option_bind]. rewrite E. cbn [mbind option_bind]. split; [done|].
  intros rest. rewrite <- app_assoc, Ri by done. cbn [mbind option_bind]. by rewrite R.
Qed.

Lemma vec_specialized_delim : CompactFixed wf T ->
  holds Delim (fun l => zlen l < 2 ^ 16 /\ Forall wf l) (vec_specialized_to_compact T) (vec_specialized_from_compact T).
Proof.
  intros HT l [Hl Hw]. destruct (vec_specialized_put_get l 1 HT ltac:(done) Hw) as (b & E & _).
  exists (put_u16 (zlen l) ++ b), 0. unfold vec_specialized_to_compact. rewrite E. split; [done|]. intros rest.
  unfold vec_specialized_from_compact. set (len := zlen ((put_u16 (zlen l) ++ b) ++ rest)).
  assert (Hlen : len <> 0) by (unfold len, put_u16; rewrite !length_app, length_be_bytes; lia).
  destruct (vec_specialized_put_get l len HT Hlen Hw) as (b' & E' & R). rewrite E in E'. injection E' as <-.
  rewrite <- app_assoc, get_u16_app by lia. cbn [mbind option_bind]. by rewrite Nat2Z.id.
Qed.

#[global] Instance option_sized bits : CompactOk Elem wf T -> TCEq (1 <? 2 ^ bits) true ->
  CompactOk (Sized bits) wf_opt (option_compact T).
Proof.
  intros HT Hb%TCEq_eq%Z.ltb_lt [a|] Ho; [|exists [], 0; split; [done|]; split; [lia|done]].
  destruct (elem_rt a HT Ho) as (i & Ei & Ri). exists (put_u16 (zlen i) ++ i), 1.
  cbn [to_compact option_compact option_to_compact]. rewrite Ei. split; [done|]. split; [lia|]. intros rest.
  cbn [from_compact option_compact]. unfold option_from_compact. cbn [Z.eqb]. rewrite <- app_assoc.
  destruct (Ri rest) as (-> & E2 & E3). cbn [mbind option_bind]. rewrite E2. cbn [mbind option_bind]. by rewrite E3.
Qed.

Lemma option_specialized_sized bits : CompactFixed wf T -> 1 < 2 ^ bits ->
  holds (Sized bits) (from_option wf True) (option_specialized_to_compact T) (option_specialized_from_compact T).
Proof.
  intros HT Hb [a|] Ho; [|exists [], 0; split; [done|]; split; [lia|done]].
  destruct (HT a Ho) as (i & n & Ei & _ & Ri). exists i, 1. cbn [option_specialized_to_compact]. rewrite Ei.
  split; [done|]. split; [lia|]. intros rest. unfold option_specialized_from_compact. cbn [Z.eqb]. by rewrite Ri.
Qed.
End Vec.

(** ** Derived structures *)

(** A bit field whose width is a whole number of bytes gives back the values set. *)
Class BitfieldOk (BF : Bitfield) : Prop :=
  bitfield_ok fs : Forall (fun '(w, v) => 0 < w /\ 0 <= v < 2 ^ w) fs -> sum_bits (fst <$> fs) mod 8 = 0 ->
    exists b, into_bytes BF fs = Some b /\ zlen b = sum_bits (fst <$> fs) / 8 /\ from_bytes BF (fst <$> fs) b = snd <$> fs.

(** How a field has to behave, by the name of its type. *)
Definition field_mode {A} (f : Field A) : Mode :=
  if is_flag_type (f_type f) then Sized (get_bit_size (f_type f))
  else if bool_decide (f_type f ∈ known_types) then Delim else Final.

Class FieldOk {A} (wf : A -> Prop) (f : Field A) : Prop :=
  field_ok : holds (field_mode f) wf (field_to f) (field_from f).

Inductive FieldsOk : forall {A}, (A -> Prop) -> FieldList A -> Prop :=
| fields_nil : FieldsOk (fun _ : unit => True) FNil
| fields_cons {A B} (wf : A -> Prop) (wfl : B -> Prop) f l :
    FieldOk wf f -> FieldsOk wfl l -> FieldsOk (fun x => wf (fst x) /\ wfl (snd x)) (f &: l).

(** No field takes the rest of the buffer. *)
Fixpoint self_delimiting {A} (l : FieldList A) : bool :=
  match l with
  | FNil => true
  | FCons f l => (bool_decide (f_type f ∈ known_types) || is_flag_type (f_type f)) && self_delimiting l
  end.

Lemma bit_size_bound ftype : 0 <= get_bit_size ftype <= 6.
Proof. unfold get_bit_size. by repeat case_bool_decide. Qed.

Lemma sum_bits_app l k : sum_bits (l ++ k) = sum_bits l + sum_bits k.
Proof. unfold sum_bits. induction l as [|w l IH]; cbn [app foldr]; [done|]. rewrite IH. lia. Qed.

Lemma pad_sum total : 0 <= total -> (total + sum_bits (pad_flag_struct total)) mod 8 = 0.
Proof.
  intros Ht. unfold pad_flag_struct. destruct (Z.eqb_spec (8 - total mod 8) 8); cbn.
  - rewrite Z.add_0_r. lia.
  - replace (total + (8 - total mod 8 + 0)) with ((total / 8 + 1) * 8) by (pose proof (Z.div_mod total 8 ltac:(done)); lia).
    apply Z_mod_mult.
Qed.

Lemma pad_positive total : Forall (fun w => 0 < w) (pad_flag_struct total).
Proof. unfold pad_flag_struct. case_match; repeat constructor. pose proof (Z.mod_pos_bound total 8 eq_refl). lia. Qed.

Section Derived.
Context (BF : Bitfield) `{!BitfieldOk BF}.

Lemma sum_bits_nonneg (fs : list (Z * Z)) :
  Forall (fun '(w, v) => 0 < w /\ 0 <= v < 2 ^ w) fs -> 0 <= sum_bits (fst <$> fs) /\ (sum_bits (fst <$> fs) = 0 -> fs = []).
Proof.
  induction 1 as [|[w v] fs Hw _ [IH _]]; [done|].
  change (sum_bits (fst <$> (w, v) :: fs)) with (w + sum_bits (fst <$> fs)). split; lia.
Qed.

(** The bytes of the generated bit field. *)
Definition flag_bytes (widths : list Z) : Z :=
  if sum_bits widths =? 0 then 0 else sum_bits (widths ++ pad_flag_struct (sum_bits widths)) / 8.

Lemma flags_rt fs : Forall (fun '(w, v) => 0 < w /\ 0 <= v < 2 ^ w) fs ->
  exists b, flags_into_bytes BF fs = Some b /\ zlen b = flag_bytes (fst <$> fs) /\
    forall rest, exists extra, flags_from BF (fst <$> fs) (b ++ rest) = Some ((snd <$> fs) ++ extra, rest).
Proof.
  intros Hf. pose proof (sum_bits_nonneg fs Hf) as [H0 Hnil]. unfold flags_into_bytes, flags_from, flag_bytes.
  destruct (Z.eqb_spec (sum_bits (fst <$> fs)) 0) as [E|E].
  - apply Hnil in E as ->. exists []. split; [done|]. split; [done|]. intros rest. by exists [].
  - set (total := sum_bits (fst <$> fs)) in *. set (pad := (fun w => (w, 0)) <$> pad_flag_struct total).
    assert (Hw : fst <$> (fs ++ pad) = (fst <$> fs) ++ pad_flag_struct total).
    { rewrite fmap_app. f_equal. unfold pad. rewrite <- list_fmap_compose. apply list_fmap_id. }
    destruct (bitfield_ok (fs ++ pad)) as (b & Eb & Lb & Rb).
    { apply Forall_app. split; [done|]. apply Forall_fmap. eapply Forall_impl; [apply pad_positive|]. cbn. intros w Hw'.
      split; [done|]. split; [done|]. apply Z.pow_pos_nonneg; lia. }
    { rewrite Hw, sum_bits_app. by apply pad_sum. }
    exists b. split; [done|]. rewrite <- Hw. split; [done|]. intros rest. exists (snd <$> pad).
    rewrite split_at_len by done. cbn [mbind option_bind]. by rewrite Rb, fmap_app.
Qed.

(** The fields of a structure that the macro accepts. *)
Lemma fields_rt {A} (wf : A -> Prop) (l : FieldList A) : FieldsOk wf l -> derive_accepts l = true ->
  forall x, wf x -> exists flags buffer, fields_to l x = Some (flags, buffer) /\
    fst <$> flags = build_struct_field_flags l /\ Forall (fun '(w, v) => 0 < w /\ 0 <= v < 2 ^ w) flags /\
    forall rest extra, rest = [] \/ self_delimiting l = true ->
      fields_from l ((snd <$> flags) ++ extra) (buffer ++ rest) = Some (x, rest).
Proof.
  induction 1 as [|A B wf wfl f l Hf _ IH]; intros Hd x Hx.
  { exists [], []. repeat split; [by constructor|]. intros rest extra _. by destruct x. }
  destruct x as [a x], Hx as [Ha Hx]. cbn [derive_accepts] in Hd. apply andb_true_iff in Hd as [Hp Hd].
  destruct (IH Hd x Hx) as (flags & buffer & E & Ew & Hw & R). destruct (Hf a Ha) as (b & n & Ea & Ra).
  cbn [fields_to build_struct_field_flags fields_from self_delimiting fst snd]. rewrite Ea. cbn [mbind option_bind].
  rewrite E. cbn [mbind option_bind]. unfold field_mode in Ra. pose proof (bit_size_bound (f_type f)) as Hb.
  destruct (is_flag_type (f_type f)) eqn:Eflag.
  - destruct Ra as [Hn Ra]. assert (2 ^ get_bit_size (f_type f) <= 2 ^ 8) by (apply Z.pow_le_mono_r; lia).
    eexists _, _. split; [done|]. assert (En : wrap 8 n = n) by (apply Z.mod_small; lia). rewrite En.
    split; [cbn; by rewrite Ew|]. split; [constructor; [|done]; unfold is_flag_type in Eflag; lia|].
    intros rest extra Hr. cbn [fmap list_fmap app snd]. rewrite <- app_assoc, Ra. cbn [mbind option_bind].
    change (list_fmap _ _ snd flags) with (snd <$> flags). rewrite R; [done|].
    destruct Hr as [|Hr]; [by left|right]. by apply andb_true_iff in Hr as [].
  - eexists _, _. split; [done|]. split; [done|]. split; [done|]. intros rest extra Hr. cbn [app]. rewrite <- app_assoc.
    case_bool_decide.
    + rewrite Ra. cbn [mbind option_bind]. rewrite R; [done|]. destruct Hr as [|Hr]; [by left|by right].
    + cbn [orb] in Hp, Hr. destruct Hr as [-> |]; [|done].
      destruct l as [|? ? g l]; [|done]. destruct x. injection E as <- <-. cbn [app]. rewrite app_nil_r, Ra. done.
Qed.

Section Struct.
Context {A B : Type} (wf : A -> Prop) (l : FieldList A) (f : A -> B) (g : B -> A).
Context (Hl : FieldsOk wf l) (Ha : derive_accepts l = true).

Lemma struct_rt v : wf (g v) -> f (g v) = v -> exists b, to_compact (struct_compact BF l f g) v = Some (b, zlen b) /\
  (exists flags buffer, fields_to l (g v) = Some (flags, buffer) /\
     zlen b = flag_bytes (build_struct_field_flags l) + zlen buffer) /\
  forall rest len, rest = [] \/ self_delimiting l = true -> from_compact (struct_compact BF l f g) (b ++ rest) len = Some (v, rest).
Proof.
  intros Hv Hfg. destruct (fields_rt wf l Hl Ha (g v) Hv) as (flags & buffer & E & Ew & Hw & R).
  destruct (flags_rt flags Hw) as (b & Eb & Lb & Rb). exists (b ++ buffer).
  cbn [to_compact from_compact struct_compact plain_compact]. unfold struct_to_compact, struct_from_compact.
  rewrite E. cbn [mbind option_bind]. rewrite Eb. cbn [mbind option_bind].
  split; [by rewrite length_app, Nat2Z.inj_add|]. split; [exists flags, buffer; rewrite <- Ew, <- Lb, length_app; split; [done|lia]|].
  intros rest len Hr. rewrite <- app_assoc, <- Ew. destruct (Rb (buffer ++ rest)) as [extra ->]. cbn [mbind option_bind].
  rewrite R by done. cbn [mbind option_bind]. by rewrite Hfg.
Qed.

Lemma struct_elem : CompactOk Elem (fun v => wf (g v) /\ f (g v) = v) (struct_compact BF l f g).
Proof.
  intros v [Hv Hfg]. destruct (struct_rt v Hv Hfg) as (b & E & _ & R). exists b, (zlen b). split; [done|].
  split; [done|]. specialize (R [] (zlen b) (or_introl eq_refl)). by rewrite app_nil_r in R.
Qed.

Lemma struct_delim : self_delimiting l = true ->
  CompactOk Delim (fun v => wf (g v) /\ f (g v) = v) (struct_compact BF l f g).
Proof.
  intros Hd v [Hv Hfg]. destruct (struct_rt v Hv Hfg) as (b & E & _ & R). exists b, (zlen b). split; [done|].
  intros rest. by apply R; right.
Qed.
End Struct.

(** C11. The derive macro is correct: when its check on the placement of the fields
    passes, and each field behaves as the name of its type promises, the codec of the
    structure reads back what it wrote, returns the length it wrote, and delimits its
    value when no field takes the rest of the buffer. *)
Theorem derive_roundtrip {A B} (wf : A -> Prop) (l : FieldList A) (f : A -> B) (g : B -> A) (v : B) :
  FieldsOk wf l -> derive_accepts l = true -> wf (g v) -> f (g v) = v ->
  exists b, to_compact (struct_compact BF l f g) v = Some (b, zlen b) /\
    from_compact (struct_compact BF l f g) b (zlen b) = Some (v, []) /\
    (self_delimiting l = true -> forall rest len, from_compact (struct_compact BF l f g) (b ++ rest) len = Some (v, rest)).
Proof.
  intros Hl Ha Hv Hfg. destruct (struct_rt wf l f g Hl Ha v Hv Hfg) as (b & E & _ & R). exists b. split; [done|].
  split; [|intros; apply R; by right]. specialize (R [] (zlen b) (or_introl eq_refl)). by rewrite app_nil_r in R.
Qed.

(** ** Derived enumerations *)
Lemma variant_flags i : 0 <= i < 256 -> exists b, flags_into_bytes BF [(8, i)] = Some b /\
  forall rest, exists extra, flags_from BF [8] (b ++ rest) = Some (i :: extra, rest).
Proof.
  intros Hi. destruct (flags_rt [(8, i)]) as (b & E & _ & R); [by apply Forall_singleton|]. by exists b.
Qed.

Lemma enum_elem {B} to_variant from_variant (v : B) i b : to_variant v = (i, Some b) -> 0 <= i < 256 ->
  from_variant i b = Some (v, []) ->
  exists b', to_compact (enum_compact BF to_variant from_variant) v = Some (b', zlen b') /\
    from_compact (enum_compact BF to_variant from_variant) b' (zlen b') = Some (v, []).
Proof.
  intros E Hi R. destruct (variant_flags i Hi) as (fb & Ef & Rf). exists (fb ++ b).
  cbn [to_compact from_compact enum_compact plain_compact]. unfold enum_to_compact, enum_from_compact. rewrite E.
  cbn [mbind option_bind fst snd]. rewrite Ef. cbn [mbind option_bind]. split; [by rewrite length_app, Nat2Z.inj_add|].
  destruct (Rf b) as [extra ->]. cbn [mbind option_bind]. done.
Qed.

Lemma enum_delim {B} to_variant from_variant (v : B) i b : to_variant v = (i, Some b) -> 0 <= i < 256 ->
  (forall rest, from_variant i (b ++ rest) = Some (v, rest)) ->
  exists b' n, to_compact (enum_compact BF to_variant from_variant) v = Some (b', n) /\
    forall rest, from_compact (enum_compact BF to_variant from_variant) (b' ++ rest) (zlen (b' ++ rest)) = Some (v, rest).
Proof.
  intros E Hi R. destruct (variant_flags i Hi) as (fb & Ef & Rf). do 2 eexists.
  cbn [to_compact from_compact enum_compact plain_compact]. unfold enum_to_compact, enum_from_compact. rewrite E.
  cbn [mbind option_bind fst snd]. rewrite Ef. cbn [mbind option_bind]. split; [done|].
  intros rest. rewrite <- app_assoc. destruct (Rf (b ++ rest)) as [extra ->]. cbn [mbind option_bind]. done.
Qed.
End Derived.
