(* ===== verification/CompactTables.v ===== *)
(** * Round trips of the values kept in tables

    The codecs of [Compact] for headers, accounts, transactions, receipts and the
    other table values, and the values they cannot store: two bytes are not enough for
    the length of every element of a vector. *)
From S2P Require Import Prelude Bytes Primitives PoolInner SubState Compact CompactProofs.

Open Scope compact_scope.

(** ** Fields *)
Lemma field_plain {A} wf (f : Field A) m :
  use_alt_impl f = false -> field_mode f = m -> CompactOk m wf (f_codec f) -> FieldOk wf f.
Proof. intros Ha Hm H. unfold FieldOk, field_to, field_from. by rewrite Ha, Hm. Qed.

Lemma field_alt {A} wf (f : Field A) m : use_alt_impl f = true -> field_mode f = m ->
  holds m wf (specialized_to_compact (f_codec f)) (specialized_from_compact (f_codec f)) -> FieldOk wf f.
Proof. intros Ha Hm H. unfold FieldOk, field_to, field_from. by rewrite Ha, Hm. Qed.

#[global] Instance elem_final {A} wf (C : Compact A) : CompactOk Elem wf C -> CompactOk Final wf C | 10.
Proof. apply holds_final. by right. Qed.

#[global] Hint Extern 5 (FieldOk _ _) =>
  (eapply field_plain; [reflexivity|vm_compute; reflexivity|cbn [f_codec]]) : typeclass_instances.
#[global] Hint Extern 4 (FieldOk _ (mkField "Option" _ (option_compact (hash_compact _)))) =>
  (eapply field_alt; [reflexivity|vm_compute; reflexivity|apply option_specialized_sized; [apply _|done]]) : typeclass_instances.
#[global] Hint Extern 4 (FieldOk _ (mkField "Vec" _ (vec_compact (hash_compact _)))) =>
  (eapply field_alt; [reflexivity|vm_compute; reflexivity|apply vec_specialized_delim; apply _]) : typeclass_instances.

Ltac fields_ok :=
  repeat lazymatch goal with
  | |- FieldsOk _ (FCons ?f _) => eapply fields_cons; [try unfold f; apply _|]
  | |- FieldsOk _ FNil => apply fields_nil
  | |- FieldsOk _ ?l => unfold l
  end.

(** ** Sizes *)
Definition size_le {A} (to : A -> option (bytes * Z)) (s : A -> Z) : Prop :=
  forall a b n, to a = Some (b, n) -> zlen b <= s a.

Inductive FieldsSize : forall {A}, (A -> Z) -> FieldList A -> Prop :=
| size_nil : FieldsSize (fun _ : unit => 0) FNil
| size_cons {A B} (s : A -> Z) (sl : B -> Z) f l :
    size_le (field_to f) s -> FieldsSize sl l -> FieldsSize (fun x => s (fst x) + sl (snd x)) (f &: l).

Lemma fields_size {A} (s : A -> Z) l : FieldsSize s l -> forall x flags buffer,
  fields_to l x = Some (flags, buffer) -> zlen buffer <= s x.
Proof.
  induction 1 as [|A B s sl f l Hf _ IH]; intros x flags buffer E; [by injection E as <- <-|].
  cbn [fields_to] in E. apply bind_Some in E as ([b n] & E1 & E). apply bind_Some in E as ([fl bu] & E2 & E).
  injection E as <- <-. apply Hf in E1. apply IH in E2. rewrite length_app. lia.
Qed.

Lemma struct_fits {A B} BF `{!BitfieldOk BF} (wf : A -> Prop) s l (f : A -> B) g v :
  FieldsOk wf l -> derive_accepts l = true -> wf (g v) -> f (g v) = v -> FieldsSize s l ->
  flag_bytes (build_struct_field_flags l) + s (g v) < 2 ^ 16 -> fits_u16 (struct_compact BF l f g) v.
Proof.
  intros Hl Ha Hv Hfg Hs Hlt b n E. destruct (struct_rt BF wf l f g Hl Ha v Hv Hfg) as (b' & E' & (fl & bu & Ef & L) & _).
  rewrite E in E'. injection E' as <- _. apply (fields_size _ _ Hs) in Ef. lia.
Qed.

Lemma uint_size n : size_le (uint_to_compact n) (fun _ => Z.of_nat n).
Proof. intros v b k [= <- <-]. rewrite length_drop, length_be_bytes. lia. Qed.

Lemma u256_size : size_le u256_to_compact (fun _ => 32).
Proof. intros v b k. rewrite u256_to_eq. apply uint_size. Qed.

Lemma hash_size n : size_le (to_compact (hash_compact n)) (fun _ => Z.of_nat n).
Proof. intros v b k [= <- <-]. by rewrite length_be_bytes. Qed.

Lemma bytes_size : size_le (to_compact bytes_compact) (fun b => zlen b).
Proof. by intros v b k [= <- <-]. Qed.

Lemma option_hash_size n :
  size_le (specialized_to_compact (option_compact (hash_compact n))) (fun _ => Z.of_nat n).
Proof. intros [v|] b k [= <- <-]; [by rewrite length_be_bytes|cbn; lia]. Qed.

Lemma option_uint_size n :
  size_le (to_compact (option_compact (uint_compact n))) (fun _ => 2 + Z.of_nat n).
Proof.
  intros [v|] b k E; [|injection E as <- <-; cbn; lia]. apply bind_Some in E as ([i m] & Ei & E).
  assert (b = put_u16 m ++ i) as -> by congruence. apply uint_size in Ei. rewrite length_app.
  unfold put_u16. rewrite length_be_bytes. lia.
Qed.

Lemma vec_hash_size n :
  size_le (specialized_to_compact (vec_compact (hash_compact n))) (fun l => 2 + Z.of_nat n * zlen l).
Proof.
  intros l b k E. cbn in E. unfold vec_specialized_to_compact in E. apply bind_Some in E as (d & E & Eb).
  assert (b = put_u16 (zlen l) ++ d) as -> by congruence. clear Eb. rewrite length_app. unfold put_u16. rewrite length_be_bytes.
  enough (zlen d = Z.of_nat n * zlen l) by lia. revert d E.
  induction l as [|a l IH]; intros d E; [injection E as <-; cbn; lia|]. cbn in E.
  apply bind_Some in E as (r & E & Ed). injection Ed as <-. apply IH in E. rewrite length_app, length_be_bytes. cbn [length]. lia.
Qed.

Ltac fields_size :=
  repeat lazymatch goal with
  | |- FieldsSize _ (FCons _ _) =>
      eapply size_cons; [first [apply uint_size|apply u256_size|apply hash_size|apply bytes_size
                               |apply option_hash_size|apply option_uint_size|apply vec_hash_size]|]
  | |- FieldsSize _ FNil => apply size_nil
  | |- FieldsSize _ ?l => unfold l
  end.

(** An integer behind a two-byte length always fits. *)
Lemma uint_fits n v : Z.of_nat n < 2 ^ 16 -> fits_u16 (uint_compact n) v.
Proof. intros Hn b k E%uint_size. lia. Qed.

#[global] Create HintDb compact.

Section Types.
Context (BF : Bitfield) `{!BitfieldOk BF}.

Definition opt_in (w : Z) (o : option Z) : Prop := from_option (in_u w) True o.

Lemma opt_in_wf n o : Z.of_nat n < 2 ^ 16 -> opt_in (8 * Z.of_nat n) o -> wf_opt (bytes_of n) (uint_compact n) o.
Proof.
  intros Hn. destruct o as [v|]; [|done]. cbn. unfold in_u. rewrite <- pow256 by lia. intros Hv.
  split; [done|by apply uint_fits].
Qed.

(** Prove a structure's codec correct for an explicit condition on its fields. *)
Ltac wf_fields :=
  intros []; cbn; intros ?; destruct_and?; split; [|reflexivity]; repeat first [assumption|exact I|by apply opt_in_wf|by eauto with compact|split].
Ltac elem_ok := eapply holds_weaken; [eapply struct_elem; [apply _|fields_ok|reflexivity]|wf_fields].
Ltac delim_ok := eapply holds_weaken; [eapply struct_delim; [apply _|fields_ok|reflexivity|reflexivity]|wf_fields].

Definition wf_account (a : Account) : Prop :=
  in_u 64 (acc_nonce a) /\ in_u 256 (acc_balance a) /\ opt_in 256 (bytecode_hash a).

#[global] Instance account_elem : CompactOk Elem wf_account (account_compact BF).
Proof. unfold account_compact, wf_account. elem_ok. Qed.

Definition wf_header (h : Header) : Prop :=
  in_u 256 (parent_hash h) /\ in_u 256 (ommers_hash h) /\ in_u 160 (beneficiary h) /\ in_u 256 (state_root h) /\
  in_u 256 (transactions_root h) /\ in_u 256 (receipts_root h) /\ opt_in 256 (withdrawals_root h) /\
  in_u 2048 (logs_bloom h) /\ in_u 256 (difficulty h) /\ in_u 64 (number h) /\ in_u 64 (h_gas_limit h) /\
  in_u 64 (gas_used h) /\ in_u 64 (timestamp h) /\ in_u 256 (mix_hash h) /\ in_u 64 (h_nonce h) /\
  opt_in 64 (base_fee_per_gas h).

#[global] Instance header_elem : CompactOk Elem wf_header (header_compact BF).
Proof. unfold header_compact, wf_header. elem_ok. Qed.

Definition wf_withdrawal (w : Withdrawal) : Prop :=
  in_u 64 (w_index w) /\ in_u 64 (validator_index w) /\ in_u 160 (w_address w) /\ in_u 64 (amount w).

#[global] Instance withdrawal_elem : CompactOk Elem wf_withdrawal (withdrawal_compact BF).
Proof. unfold withdrawal_compact, wf_withdrawal. elem_ok. Qed.

Definition wf_log (l : Log) : Prop :=
  in_u 160 (log_address l) /\ zlen (topics l) < 2 ^ 16 /\ Forall (in_u 256) (topics l).

#[global] Instance log_elem : CompactOk Elem wf_log (log_compact BF).
Proof. unfold log_compact, wf_log. elem_ok. Qed.

Definition wf_access_list_item (i : AccessListItem) : Prop :=
  in_u 160 (ali_address i) /\ zlen (storage_keys i) < 2 ^ 16 /\ Forall (in_u 256) (storage_keys i).

#[global] Instance access_list_item_elem : CompactOk Elem wf_access_list_item (access_list_item_compact BF).
Proof. unfold access_list_item_compact, wf_access_list_item. elem_ok. Qed.

(** The elements of the stored vectors whose length two bytes can hold. *)
Definition small_log (l : Log) : Prop := 22 + 32 * zlen (topics l) + zlen (data l) < 2 ^ 16.
#[global] Instance small_log_dec l : Decision (small_log l).
Proof. unfold small_log. apply _. Defined.
Definition small_item (i : AccessListItem) : Prop := 22 + 32 * zlen (storage_keys i) < 2 ^ 16.
Definition small_header (h : Header) : Prop := zlen (extra_data h) < 2 ^ 15.

Ltac small_size :=
  lazymatch goal with |- flag_bytes ?x + _ < _ => let v := eval vm_compute in (flag_bytes x) in change (flag_bytes x) with v end;
  cbn; lia.
Ltac elem_fits :=
  intros [Hwf Hs]; split; [exact Hwf|];
  eapply struct_fits; [apply _|fields_ok|reflexivity| |by lazymatch goal with v : _ |- _ = ?v => destruct v end|fields_size|];
  [cbn; destruct_and?;
   repeat first [assumption|exact I|by apply opt_in_wf|split]
  |revert Hs; unfold small_log, small_item, small_header; intros Hs; small_size].

Lemma log_fits l : wf_log l /\ small_log l -> wf_elem wf_log (log_compact BF) l.
Proof. unfold wf_log, log_compact. elem_fits. Qed.

Lemma access_list_item_fits i : wf_access_list_item i /\ small_item i ->
  wf_elem wf_access_list_item (access_list_item_compact BF) i.
Proof. unfold wf_access_list_item, access_list_item_compact. elem_fits. Qed.

Lemma header_fits h : wf_header h /\ small_header h -> wf_elem wf_header (header_compact BF) h.
Proof. unfold wf_header, header_compact. elem_fits. Qed.

Lemma withdrawal_fits w : wf_withdrawal w -> wf_elem wf_withdrawal (withdrawal_compact BF) w.
Proof. intros H. cut (wf_withdrawal w /\ True); [|done]. unfold wf_withdrawal, withdrawal_compact. elem_fits. Qed.

Lemma account_fits a : wf_account a -> wf_elem wf_account (account_compact BF) a.
Proof. intros H. cut (wf_account a /\ True); [|done]. unfold wf_account, account_compact. elem_fits. Qed.

(** A vector of small elements. *)
Definition wf_list {A} (P : A -> Prop) (l : list A) : Prop := zlen l < 2 ^ 16 /\ Forall P l.

Lemma wf_list_vec {A} (P wf : A -> Prop) C l : wf_list P l -> (forall a, P a -> wf_elem wf C a) -> wf_vec wf C l.
Proof. intros [Hl Hp] H. split; [done|]. by eapply Forall_impl. Qed.
#[local] Hint Resolve wf_list_vec log_fits access_list_item_fits header_fits withdrawal_fits account_fits : compact.

Definition wf_receipt (r : Receipt) : Prop :=
  in_u 64 (cumulative_gas_used r) /\ in_u 2048 (bloom r) /\ wf_list (fun l => wf_log l /\ small_log l) (logs r).

#[global] Instance receipt_elem : CompactOk Elem wf_receipt (receipt_compact BF).
Proof. unfold receipt_compact, receipt_compact_fields, wf_receipt. elem_ok. Qed.

Definition wf_access_list : list AccessListItem -> Prop := wf_list (fun i => wf_access_list_item i /\ small_item i).

#[global] Instance access_list_delim : CompactOk Delim wf_access_list (access_list_compact BF).
Proof.
  eapply holds_weaken; [eapply struct_delim; [apply _|fields_ok|reflexivity|reflexivity]|].
  intros l Hl. split; [|done]. split; [|done]. by eauto with compact.
Qed.

Definition wf_kind (k : TransactionKind) : Prop := match k with Create => True | Call a => in_u 160 a end.

#[global] Instance kind_delim : CompactOk Delim wf_kind (kind_compact BF).
Proof.
  intros [|a] Hk.
  - by apply (enum_delim BF _ _ Create 0 []).
  - apply (enum_delim BF _ _ (Call a) 1 (be_bytes 20 a)); [done|done|]. intros rest. cbn [Z.eqb]. unfold variant_from.
    destruct (fixed_delim _ (hash_compact 20) ltac:(apply _) a Hk) as (b & n & [= <- <-] & R). by rewrite R.
Qed.

Definition wf_transaction (t : Transaction) : Prop :=
  match t with
  | TLegacy x => opt_in 64 (lg_chain_id x) /\ in_u 64 (lg_nonce x) /\ in_u 128 (lg_gas_price x) /\
      in_u 64 (lg_gas_limit x) /\ wf_kind (lg_to x) /\ in_u 128 (lg_value x)
  | TEip2930 x => in_u 64 (al_chain_id x) /\ in_u 64 (al_nonce x) /\ in_u 128 (al_gas_price x) /\
      in_u 64 (al_gas_limit x) /\ wf_kind (al_to x) /\ in_u 128 (al_value x) /\ wf_access_list (al_access_list x)
  | TEip1559 x => in_u 64 (df_chain_id x) /\ in_u 64 (df_nonce x) /\ in_u 64 (df_gas_limit x) /\
      in_u 128 (df_max_fee_per_gas x) /\ in_u 128 (df_max_priority_fee_per_gas x) /\ wf_kind (df_to x) /\
      in_u 128 (df_value x) /\ wf_access_list (df_access_list x)
  end.

Lemma tx_legacy_elem : CompactOk Elem (fun x => wf_transaction (TLegacy x)) (tx_legacy_compact BF).
Proof. unfold tx_legacy_compact, wf_transaction. elem_ok. Qed.
Lemma tx_eip2930_elem : CompactOk Elem (fun x => wf_transaction (TEip2930 x)) (tx_eip2930_compact BF).
Proof. unfold tx_eip2930_compact, wf_transaction. elem_ok. Qed.
Lemma tx_eip1559_elem : CompactOk Elem (fun x => wf_transaction (TEip1559 x)) (tx_eip1559_compact BF).
Proof. unfold tx_eip1559_compact, wf_transaction. elem_ok. Qed.

Lemma variant_elem {A B} (C : Compact A) (wf : A -> Prop) (f : A -> B) to_variant from_variant (a : A) i :
  CompactOk Elem wf C -> wf a -> to_variant (f a) = (i, variant_to C a) -> 0 <= i < 256 ->
  (forall buf, from_variant i buf = variant_from C f buf) ->
  exists b n, to_compact (enum_compact BF to_variant from_variant) (f a) = Some (b, n) /\ n = zlen b /\
    from_compact (enum_compact BF to_variant from_variant) b (zlen b) = Some (f a, []).
Proof.
  intros HC Ha Et Hi Ef. destruct (HC a Ha) as (b & n & E & _ & R).
  destruct (enum_elem BF to_variant from_variant (f a) i b) as (b' & E' & R'); [|done| |by exists b', (zlen b')].
  - rewrite Et. unfold variant_to. by rewrite E.
  - rewrite Ef. unfold variant_from. by rewrite R.
Qed.

#[global] Instance transaction_elem : CompactOk Elem wf_transaction (transaction_compact BF).
Proof.
  intros [x|x|x] Hx.
  - by apply (variant_elem _ _ TLegacy _ _ x 0 tx_legacy_elem).
  - by apply (variant_elem _ _ TEip2930 _ _ x 1 tx_eip2930_elem).
  - by apply (variant_elem _ _ TEip1559 _ _ x 2 tx_eip1559_elem).
Qed.

Definition wf_signature (s : Signature) : Prop := in_u 256 (sig_r s) /\ in_u 256 (sig_s s).

#[global] Instance signature_delim : CompactOk Delim wf_signature (signature_compact BF).
Proof. unfold signature_compact, wf_signature. delim_ok. Qed.

Definition wf_transaction_signed (t : TransactionSigned) : Prop :=
  in_u 256 (ts_hash t) /\ wf_signature (signature t) /\ wf_transaction (ts_transaction t).

#[global] Instance transaction_signed_elem : CompactOk Elem wf_transaction_signed (transaction_signed_compact BF).
Proof. unfold transaction_signed_compact, wf_transaction_signed. elem_ok. Qed.

#[global] Instance transaction_signed_ec_recovered_elem :
  CompactOk Elem (fun t => in_u 160 (signer t) /\ wf_transaction_signed (ec_signed t)) (transaction_signed_ec_recovered_compact BF).
Proof. unfold transaction_signed_ec_recovered_compact. elem_ok. Qed.

#[global] Instance proof_checkpoint_elem :
  CompactOk Elem (fun c => opt_in 256 (hashed_address c) /\ opt_in 256 (pc_storage_key c) /\ opt_in 256 (account_root c) /\
    opt_in 256 (storage_root c)) (proof_checkpoint_compact BF).
Proof. unfold proof_checkpoint_compact. elem_ok. Qed.

#[global] Instance account_hashing_checkpoint_elem :
  CompactOk Elem (fun c => opt_in 160 (ah_address c) /\ in_u 64 (ah_from c) /\ in_u 64 (ah_to c)) (account_hashing_checkpoint_compact BF).
Proof. unfold account_hashing_checkpoint_compact. elem_ok. Qed.

#[global] Instance storage_hashing_checkpoint_elem :
  CompactOk Elem (fun c => opt_in 160 (sh_address c) /\ opt_in 256 (sh_storage c) /\ in_u 64 (sh_from c) /\ in_u 64 (sh_to c))
    (storage_hashing_checkpoint_compact BF).
Proof. unfold storage_hashing_checkpoint_compact. elem_ok. Qed.

Definition wf_stored_block_body (b : StoredBlockBody) : Prop := in_u 64 (start_tx_id b) /\ in_u 64 (tx_count b).

#[global] Instance stored_block_body_elem : CompactOk Elem wf_stored_block_body (stored_block_body_compact BF).
Proof. unfold stored_block_body_compact, wf_stored_block_body. elem_ok. Qed.

Ltac wrapper_ok :=
  eapply holds_weaken; [eapply struct_elem; [apply _|fields_ok|reflexivity]|];
  let v := fresh in let Hv := fresh in
  intros v Hv; split; [|done]; split; [|done]; first [exact Hv|by eauto with compact].

#[global] Instance stored_block_ommers_elem :
  CompactOk Elem (wf_list (fun h => wf_header h /\ small_header h)) (stored_block_ommers_compact BF).
Proof. wrapper_ok. Qed.
#[global] Instance stored_block_withdrawals_elem :
  CompactOk Elem (wf_list wf_withdrawal) (stored_block_withdrawals_compact BF).
Proof. wrapper_ok. Qed.
#[global] Instance CompactU256_elem : CompactOk Elem (in_u 256) (CompactU256_compact BF).
Proof. wrapper_ok. Qed.
#[global] Instance CompactU64_elem : CompactOk Elem (in_u 64) (CompactU64_compact BF).
Proof. wrapper_ok. Qed.

(** ** Hand-written codecs *)
Lemma prefix_rt n v rest : 0 <= v < 256 ^ Z.of_nat n -> split_at (Z.of_nat n) (be_bytes n v ++ rest) = Some (be_bytes n v, rest) /\
  be_value (be_bytes n v) = v.
Proof.
  intros Hv. split; [apply split_at_len; by rewrite length_be_bytes|]. by rewrite be_value_be_bytes, Z.mod_small.
Qed.

Definition wf_storage_entry (e : StorageEntry) : Prop := in_u 256 (se_key e) /\ in_u 256 (se_value e).

#[global] Instance storage_entry_elem : CompactOk Elem wf_storage_entry storage_entry_compact.
Proof.
  intros [k v] [Hk Hv]. cbn in Hk, Hv. destruct (u256_ok Elem ltac:(apply _) v Hv) as (b & n & E & -> & R).
  assert (Hn : zlen b <= 32) by by apply u256_size in E.
  exists (be_bytes 32 k ++ b), (zlen b + 32). cbn [to_compact storage_entry_compact plain_compact se_key se_value].
  rewrite E. cbn [mbind option_bind]. split; [done|]. assert (L : zlen (be_bytes 32 k ++ b) = zlen b + 32) by (rewrite length_app, length_be_bytes; lia).
  split; [by rewrite L|]. rewrite L. cbn [from_compact storage_entry_compact plain_compact].
  destruct (prefix_rt 32 k b Hk) as [E1 E2]. change (Z.of_nat 32) with 32 in E1. rewrite E1. cbn [mbind option_bind].
  replace (wrap 64 (zlen b + 32 - 32)) with (zlen b) by (unfold wrap; rewrite Z.mod_small; lia). rewrite R. cbn [mbind option_bind].
  by rewrite E2.
Qed.

#[global] Instance storage_trie_entry_elem : CompactOk Elem (fun e => in_u 256 (ste_hash e)) storage_trie_entry_compact.
Proof.
  intros [k v] Hk. cbn in Hk. exists (be_bytes 32 k ++ v), (zlen v + 32). split; [done|].
  assert (L : zlen (be_bytes 32 k ++ v) = zlen v + 32) by (rewrite length_app, length_be_bytes; lia).
  split; [by rewrite L|]. cbn [from_compact storage_trie_entry_compact plain_compact].
  destruct (prefix_rt 32 k v Hk) as [E1 E2]. change (Z.of_nat 32) with 32 in E1. rewrite E1. cbn [mbind option_bind].
  pose proof (split_at_app (be_bytes 32 k ++ v) []) as E3. rewrite app_nil_r in E3. rewrite E3. cbn [mbind option_bind].
  rewrite (proj2 (Z.ltb_ge _ _)) by lia. rewrite E2, drop_app_length' by by rewrite length_be_bytes. done.
Qed.

Definition wf_account_before_tx (a : AccountBeforeTx) : Prop :=
  in_u 160 (abt_address a) /\ from_option wf_account True (abt_info a).

(** The presence of the account is the presence of more bytes. *)
#[global] Instance account_before_tx_final : CompactOk Final wf_account_before_tx (account_before_tx_compact BF).
Proof.
  intros [a o] [Ha Ho]. cbn in Ha, Ho. change (from_compact (account_before_tx_compact BF)) with
    (fun buf len => '(d, buf) ← split_at 20 buf;
       '(info, out) ← from_compact (option_compact (account_compact BF)) buf (wrap 64 (len - 20));
       Some (mkAccountBeforeTx (be_value d) info, out)).
  cbn [to_compact account_before_tx_compact plain_compact abt_address abt_info]. destruct o as [x|].
  - destruct (elem_rt wf_account (account_compact BF) x ltac:(apply _) (account_fits x Ho)) as (i & Ei & Ri).
    destruct (account_fits x Ho) as [_ Hi]. specialize (Hi _ _ Ei). destruct (Ri []) as (R1 & R2 & R3). rewrite app_nil_r in R1, R2.
    exists (be_bytes 20 a ++ put_u16 (zlen i) ++ i), 33. cbn [to_compact option_compact option_to_compact]. rewrite Ei.
    split; [done|]. destruct (prefix_rt 20 a (put_u16 (zlen i) ++ i) Ha) as [E1 E2]. change (Z.of_nat 20) with 20 in E1.
    cbn beta. rewrite E1. cbn [mbind option_bind]. cbn [from_compact option_compact]. unfold option_from_compact.
    rewrite (proj2 (Z.eqb_neq _ _)) by (unfold wrap, put_u16; rewrite !length_app, !length_be_bytes; rewrite Z.mod_small; lia).
    rewrite R1. cbn [mbind option_bind]. rewrite R2. cbn [mbind option_bind]. rewrite R3. cbn [mbind option_bind]. by rewrite E2.
  - exists (be_bytes 20 a), 32. destruct (prefix_rt 20 a [] Ha) as [E1 E2]. change (Z.of_nat 20) with 20 in E1.
    rewrite app_nil_r in E1. cbn [to_compact option_compact option_to_compact mbind option_bind]. split; [by rewrite app_nil_r|].
    rewrite E1. cbn [mbind option_bind]. rewrite length_be_bytes. cbn [from_compact option_compact]. rewrite E2. done.
Qed.
End Types.

(** ** Bytecodes *)
Section BytecodeProofs.
Context {JumpMap : Type} (as_slice : JumpMap -> bytes) (from_slice : bytes -> JumpMap).
Context (new_raw : bytes -> @Bytecode JumpMap) (new_checked : bytes -> Z -> option Z -> @Bytecode JumpMap).
Context (Hraw : forall b, bytecode (new_raw b) = b /\ state (new_raw b) = Raw).
Context (Hchecked : forall b n h, bytecode (new_checked b n h) = b /\ state (new_checked b n h) = Checked n).
Context (Hslice : forall b, as_slice (from_slice b) = b).

Definition same_code (c d : @Bytecode JumpMap) : Prop :=
  bytecode c = bytecode d /\
  match state c, state d with
  | Raw, Raw => True
  | Checked n, Checked m => n = m
  | Analysed n j, Analysed m k => n = m /\ as_slice j = as_slice k
  | _, _ => False
  end.

Lemma bytecode_from_eq code t len : zlen code < 2 ^ 32 ->
  bytecode_from_compact from_slice new_raw new_checked (be_bytes 4 (zlen code) ++ code ++ t) len =
  ('(variant, buf) ← get_uint 1 t;
   decoded ←
     (if variant =? 0 then Some (new_raw code)
      else if variant =? 1 then '(len, _) ← get_uint 8 buf; Some (new_checked code len None)
      else if variant =? 2 then '(len, buf) ← get_uint 8 buf; Some (mkBytecode code KECCAK_EMPTY (Analysed len (from_slice buf)))
      else None);
   Some (decoded, [])).
Proof.
  intros Hlen. unfold bytecode_from_compact. rewrite get_uint_app. cbn [mbind option_bind].
  by rewrite Z.mod_small, split_at_app by lia.
Qed.

Lemma get_u8_cons v t : get_uint 1 (v :: t) = Some (v, t).
Proof. unfold get_uint. change (v :: t) with ([v] ++ t). by rewrite split_at_len. Qed.

(** A stored bytecode keeps its code and its state; the hash of an analysed one is
    replaced by the hash of the empty code. *)
Lemma bytecode_rt (c : @Bytecode JumpMap) :
  zlen (bytecode c) < 2 ^ 32 -> match state c with Raw => True | Checked n | Analysed n _ => in_u 64 n end ->
  let C := bytecode_compact as_slice from_slice new_raw new_checked in
  exists b d, compress C c = Some b /\ decompress C b = Some d /\ same_code c d /\
    (forall n j, state c = Analysed n j -> bc_hash d = KECCAK_EMPTY).
Proof.
  intros Hlen Hst C. unfold compress, decompress, C, bytecode_compact, plain_compact. cbn [to_compact from_compact].
  unfold bytecode_to_compact, same_code.
  destruct (Hraw (bytecode c)) as [Hr1 Hr2]. destruct (state c) as [|n|n j]; cbn beta iota zeta.
  - exists (be_bytes 4 (zlen (bytecode c)) ++ bytecode c ++ [0]). eexists. split; [reflexivity|].
    rewrite bytecode_from_eq by done. rewrite get_u8_cons.
    split; [reflexivity|]. cbn. by rewrite Hr1, Hr2.
  - destruct (Hchecked (bytecode c) n None) as [Hc1 Hc2].
    exists (be_bytes 4 (zlen (bytecode c)) ++ bytecode c ++ (1 :: be_bytes 8 n)). eexists. split; [reflexivity|].
    rewrite bytecode_from_eq by done. rewrite get_u8_cons.
    cbn [mbind option_bind Z.eqb]. rewrite <- (app_nil_r (be_bytes 8 n)), get_uint_app. rewrite Z.mod_small by exact Hst.
    split; [reflexivity|]. cbn. by rewrite Hc1, Hc2.
  - exists (be_bytes 4 (zlen (bytecode c)) ++ bytecode c ++ (2 :: be_bytes 8 n ++ as_slice j)). eexists. split; [reflexivity|].
    rewrite bytecode_from_eq by done. rewrite get_u8_cons.
    cbn [mbind option_bind Z.eqb]. rewrite get_uint_app. rewrite Z.mod_small by exact Hst.
    split; [reflexivity|]. cbn. by rewrite Hslice.
Qed.
End BytecodeProofs.

(** ** A bit field: the first field in the lowest bits, bytes in little-endian order *)
Module LowBitsFirst.
Fixpoint pack (fs : list (Z * Z)) : Z :=
  match fs with [] => 0 | (w, v) :: fs => v + 2 ^ w * pack fs end.
Fixpoint unpack (widths : list Z) (z : Z) : list Z :=
  match widths with [] => [] | w :: widths => z mod 2 ^ w :: unpack widths (z / 2 ^ w) end.

Definition bitfield : Bitfield := mkBitfield
  (fun fs => if forallb (fun '(w, v) => (0 <=? v) && (v <? 2 ^ w)) fs
             then Some (reverse (be_bytes (Z.to_nat (sum_bits (fst <$> fs) / 8)) (pack fs))) else None)
  (fun widths b => unpack widths (be_value (reverse b))).

Lemma pack_range fs : Forall (fun '(w, v) => 0 < w /\ 0 <= v < 2 ^ w) fs ->
  0 <= sum_bits (fst <$> fs) /\ 0 <= pack fs < 2 ^ sum_bits (fst <$> fs) /\ unpack (fst <$> fs) (pack fs) = snd <$> fs.
Proof.
  induction 1 as [|[w v] fs [Hw Hv] _ (Hs & Hp & Hu)]; [done|]. rewrite !fmap_cons. cbn [fst snd pack unpack].
  change (sum_bits (w :: (fst <$> fs))) with (w + sum_bits (fst <$> fs)).
  rewrite Z.pow_add_r by lia. rewrite (Z.mul_comm (2 ^ w) (pack fs)), Z_mod_plus_full, Z.mod_small, Z.div_add, Z.div_small by lia.
  split; [lia|]. split; [nia|]. f_equal. exact Hu.
Qed.

#[global] Instance bitfield_lawful : BitfieldOk bitfield.
Proof.
  intros fs Hf Hm. destruct (pack_range fs Hf) as (Hs & Hp & Hu). cbn [into_bytes from_bytes bitfield].
  assert (forallb (fun '(w, v) => (0 <=? v) && (v <? 2 ^ w)) fs = true) as ->.
  { apply forallb_forall. intros [w v] Hin%list_elem_of_In. apply (proj1 (Forall_forall _ _) Hf) in Hin. cbn in Hin.
    apply andb_true_iff. split; lia. }
  eexists. split; [done|]. rewrite length_reverse, length_be_bytes, reverse_involutive, be_value_be_bytes.
  assert (Hd : sum_bits (fst <$> fs) = 8 * (sum_bits (fst <$> fs) / 8)) by (pose proof (Z.div_mod (sum_bits (fst <$> fs)) 8); lia).
  split; [lia|]. rewrite Z.mod_small; [done|]. by rewrite Z2Nat.id, pow256, <- Hd by lia.
Qed.
End LowBitsFirst.

(** ** Table values *)

(** Every value that satisfies [wf] is read back from the table as it was written. *)
Definition stores {A} (wf : A -> Prop) (C : Compact A) : Prop :=
  forall v, wf v -> exists b, compress C v = Some b /\ decompress C b = Some v.

Lemma final_stores {A} wf (C : Compact A) : CompactOk Final wf C -> stores wf C.
Proof. intros H v Hv. destruct (H v Hv) as (b & n & E & R). exists b. unfold compress, decompress. by rewrite E, R. Qed.

(** C16. The values of the tables are read back as they were written: headers, bodies,
    ommers, withdrawals, signed transactions, receipts, accounts, storage entries, change
    sets, difficulties, hashes and checkpoints, for numbers of the machine types and
    vectors that the two bytes of a stored length can describe.  A vector has at most
    65535 elements, a log of a receipt takes at most 65535 bytes (22, 32 for a topic, and
    its data), an item of an access list has fewer than 2048 keys, and the extra data of
    an ommer has fewer than 32768 bytes.  A larger log is not read back
    ([receipt_roundtrip_iff]). *)
Theorem table_values_roundtrip BF : BitfieldOk BF ->
  stores wf_header (header_compact BF) /\ stores wf_stored_block_body (stored_block_body_compact BF) /\
  stores (wf_list (fun h => wf_header h /\ small_header h)) (stored_block_ommers_compact BF) /\
  stores (wf_list wf_withdrawal) (stored_block_withdrawals_compact BF) /\
  stores wf_transaction_signed (transaction_signed_compact BF) /\ stores wf_receipt (receipt_compact BF) /\
  stores wf_account (account_compact BF) /\ stores wf_storage_entry storage_entry_compact /\
  stores wf_account_before_tx (account_before_tx_compact BF) /\ stores (in_u 256) (CompactU256_compact BF) /\
  stores (in_u 256) (hash_compact 32) /\ stores (in_u 160) (hash_compact 20) /\
  stores (fun e => in_u 256 (ste_hash e)) storage_trie_entry_compact /\
  stores (fun c => opt_in 256 (hashed_address c) /\ opt_in 256 (pc_storage_key c) /\ opt_in 256 (account_root c) /\
    opt_in 256 (storage_root c)) (proof_checkpoint_compact BF).
Proof.
  intros HB. split_and!; apply final_stores; try apply _; (eapply holds_final; [by left|]).
  - exact (fixed_delim (bytes_of 32) (hash_compact 32) _).
  - exact (fixed_delim (bytes_of 20) (hash_compact 20) _).
Qed.

(** ** What does not fit *)
Section Lossy.
Context {A : Type} (wf : A -> Prop) (T : Compact A) `{!CompactOk Elem wf T}.
Context (Hread : forall a b n c r, wf a -> to_compact T a = Some (b, n) -> from_compact T c (zlen c) = Some (a, r) -> zlen b <= zlen c).

Lemma vec_lossy l : Forall wf l -> ~ Forall (fits_u16 T) l ->
  forall b rest r, vec_put T l = Some b -> vec_get T (length l) (b ++ rest) <> Some (l, r).
Proof.
  induction 1 as [|a l Ha _ IH]; intros Hnf b rest r E Hg; [by apply Hnf|]. cbn [vec_put length vec_get] in E, Hg.
  destruct (CompactOk0 a Ha) as (i & n & Ei & -> & Ri). rewrite Ei in E. cbn [mbind option_bind] in E.
  apply bind_Some in E as (b' & E & Eb). assert (b = put_u16 (zlen i) ++ i ++ b') as -> by congruence. clear Eb.
  rewrite <- !app_assoc in Hg. unfold put_u16 in Hg. rewrite get_uint_app in Hg.
  cbn [mbind option_bind] in Hg. set (m := zlen i mod 256 ^ Z.of_nat 2) in Hg.
  apply bind_Some in Hg as ([c buf] & Ec & Hg). apply bind_Some in Hg as ([a' ?] & Ea & Hg).
  apply bind_Some in Hg as ([l' buf'] & El & [= -> -> ->]).
  assert (Hc : zlen c = m).
  { unfold split_at in Ec. destruct (_ && _) eqn:Eb; [|done]. apply andb_true_iff in Eb as [B1%Z.leb_le B2%Z.leb_le].
    injection Ec as <- <-. rewrite length_take. lia. }
  rewrite <- Hc in Ea. pose proof (Hread _ _ _ _ _ Ha Ei Ea) as Hle. pose proof (Z.mod_pos_bound (zlen i) (256 ^ 2) eq_refl) as Hm.
  change (256 ^ Z.of_nat 2) with (256 ^ 2) in m. assert (Hfit : zlen i < 2 ^ 16) by (unfold m in Hc; change (256 ^ 2) with (2 ^ 16) in *; lia).
  assert (Em : m = zlen i) by (unfold m; rewrite Z.mod_small; [done|]; change (256 ^ 2) with (2 ^ 16); lia).
  rewrite Em, split_at_app in Ec. injection Ec as <- <-. apply (IH) in El; [done| |done].
  intros Hall. apply Hnf. constructor; [|done]. intros b n En. rewrite Ei in En. by injection En as <- <-.
Qed.
End Lossy.

Lemma split_at_inv n buf d r : split_at n buf = Some (d, r) -> 0 <= n /\ zlen d = n /\ zlen buf = n + zlen r.
Proof.
  unfold split_at. destruct (_ && _) eqn:E; [|done]. apply andb_true_iff in E as [H1%Z.leb_le H2%Z.leb_le].
  intros [= <- <-]. rewrite length_take, length_drop. lia.
Qed.

Lemma get_uint_inv n buf v r : get_uint n buf = Some (v, r) -> zlen buf = Z.of_nat n + zlen r.
Proof. unfold get_uint. intros ([d r'] & E & [= _ <-])%bind_Some. apply split_at_inv in E. lia. Qed.

Lemma hash_from_inv n buf len v r : from_compact (hash_compact n) buf len = Some (v, r) -> len <> 0 ->
  zlen buf = Z.of_nat n + zlen r.
Proof.
  cbn. intros H Hl%Z.eqb_neq. rewrite Hl in H. apply bind_Some in H as ([d r'] & E & [= _ <-]). apply split_at_inv in E. lia.
Qed.

Lemma vec_hash_from_inv n k buf len l r : vec_specialized_get (hash_compact n) k buf len = Some (l, r) -> len <> 0 ->
  zlen buf = Z.of_nat n * zlen l + zlen r.
Proof.
  revert buf l. induction k as [|k IH]; intros buf l H Hl; [injection H as <- <-; cbn; lia|]. cbn [vec_specialized_get] in H.
  apply bind_Some in H as ([v b1] & E1 & H). apply bind_Some in H as ([l1 b2] & E2 & H). injection H as <- <-.
  apply hash_from_inv in E1; [|done]. apply IH in E2; [|done]. cbn [length]. lia.
Qed.

(** An address and a list of hashes, the start of a log and of an access list item. *)
Lemma address_topics_inv c (a : Z) (ts : list Z) b1 b2 :
  from_compact (hash_compact 20) c (zlen c) = Some (a, b1) ->
  vec_specialized_from_compact (hash_compact 32) b1 (zlen b1) = Some (ts, b2) ->
  zlen c = 22 + 32 * zlen ts + zlen b2.
Proof.
  intros E1 E2. unfold vec_specialized_from_compact in E2. apply bind_Some in E2 as ([k b] & Ek & E2).
  apply get_uint_inv in Ek. apply vec_hash_from_inv in E2; [|lia].
  destruct (Z.eq_dec (zlen c) 0) as [E0|E0].
  - cbn in E1. rewrite E0 in E1. cbn in E1. injection E1 as _ <-. lia.
  - apply hash_from_inv in E1; [|done]. lia.
Qed.

(** A structure without flags is its fields. *)
Lemma no_flags_from {A B} BF (l : FieldList A) (f : A -> B) g c len v r : build_struct_field_flags l = [] ->
  from_compact (struct_compact BF l f g) c len = Some (v, r) -> exists x, fields_from l [] c = Some (x, r) /\ f x = v.
Proof.
  intros Hl. cbn [from_compact struct_compact plain_compact]. unfold struct_from_compact. rewrite Hl. cbn.
  intros ([x b] & E & [= <- <-])%bind_Some. eauto.
Qed.

Lemma log_from_size BF (l : Log) c r : from_compact (log_compact BF) c (zlen c) = Some (l, r) ->
  zlen c = 22 + 32 * zlen (topics l) + zlen (data l) + zlen r.
Proof.
  intros Ef. apply no_flags_from in Ef as ([a [ts [d []]]] & Ef & <-); [|reflexivity].
  apply bind_Some in Ef as ([a' b1] & E1 & Ef). apply bind_Some in Ef as ([x b2] & Ef & [= -> -> ->]).
  apply bind_Some in Ef as ([ts' b3] & E2 & Ef). apply bind_Some in Ef as ([y b4] & Ef & [= -> -> ->]).
  apply bind_Some in Ef as ([d' b5] & E3 & [= -> <-]).
  pose proof (address_topics_inv c a ts b1 b3 E1 E2). apply split_at_inv in E3. cbn. lia.
Qed.

Lemma access_list_item_from_size BF (i : AccessListItem) c r : from_compact (access_list_item_compact BF) c (zlen c) = Some (i, r) ->
  zlen c = 22 + 32 * zlen (storage_keys i) + zlen r.
Proof.
  intros Ef. apply no_flags_from in Ef as ([a [ts []]] & Ef & <-); [|reflexivity].
  apply bind_Some in Ef as ([a' b1] & E1 & Ef). apply bind_Some in Ef as ([x b2] & Ef & [= -> -> ->]).
  apply bind_Some in Ef as ([ts' b3] & E2 & [= -> ->]). by pose proof (address_topics_inv c a ts b1 _ E1 E2).
Qed.

Lemma vec_put_some {A} wf (T : Compact A) l : CompactOk Elem wf T -> Forall wf l -> exists d, vec_put T l = Some d.
Proof.
  intros HT. induction 1 as [|a l Ha _ [d E]]; [by exists []|]. destruct (HT a Ha) as (b & n & Eb & _).
  cbn [vec_put]. rewrite Eb. cbn [mbind option_bind]. rewrite E. by eexists.
Qed.

Section Receipts.
Context (BF : Bitfield) `{!BitfieldOk BF}.

Lemma log_fits_iff l : wf_log l -> fits_u16 (log_compact BF) l <-> small_log l.
Proof.
  intros Hl. destruct (log_elem BF l Hl) as (b & n & E & _ & R). apply log_from_size in R. unfold small_log. split.
  - intros H. specialize (H b n E). cbn in R. lia.
  - intros H b' n' E'. rewrite E in E'. injection E' as <- <-. cbn in R. lia.
Qed.

Lemma fields_to_step {A B} (f : Field A) (l : FieldList B) a x b n fl bu :
  field_to f a = Some (b, n) -> fields_to l x = Some (fl, bu) ->
  fields_to (f &: l) (a, x) =
    Some ((if is_flag_type (f_type f) then [(get_bit_size (f_type f), wrap 8 n)] else []) ++ fl, b ++ bu).
Proof. intros E1 E2. cbn [fields_to fst snd]. rewrite E1. cbn [mbind option_bind]. by rewrite E2. Qed.

Lemma fields_from_flag {A B} (f : Field A) (l : FieldList B) len flags buf a buf' :
  is_flag_type (f_type f) = true -> field_from f buf len = Some (a, buf') ->
  fields_from (f &: l) (len :: flags) buf = ('(x, r) ← fields_from l flags buf'; Some ((a, x), r)).
Proof. intros Hf E. cbn [fields_from]. by rewrite Hf, E. Qed.

Lemma fields_from_plain {A B} (f : Field A) (l : FieldList B) flags buf a buf' :
  is_flag_type (f_type f) = false -> field_from f buf (zlen buf) = Some (a, buf') ->
  fields_from (f &: l) flags buf = ('(x, r) ← fields_from l flags buf'; Some ((a, x), r)).
Proof. intros Hf E. cbn [fields_from]. by rewrite Hf, E. Qed.

(** The decoder of a receipt reads the fields before the logs back. *)
Lemma receipt_trace (r : Receipt) d : in_u 64 (cumulative_gas_used r) -> in_u 2048 (bloom r) ->
  vec_put (log_compact BF) (logs r) = Some d ->
  exists b, compress (receipt_compact BF) r = Some b /\
    decompress (receipt_compact BF) b =
      ('(l, _) ← vec_from_compact (log_compact BF) (put_u16 (zlen (logs r)) ++ d) 0;
       Some (mkReceipt (r_tx_type r) (success r) (cumulative_gas_used r) (bloom r) l)).
Proof.
  intros Hg Hb Ed. destruct r as [t ok g bl ls]. cbn in Hg, Hb, Ed. cbn [r_tx_type success cumulative_gas_used bloom logs].
  set (gb := zeroless_view (be_bytes 8 g)). set (tail := put_u16 (zlen ls) ++ d).
  set (tb := match t with TxLegacyType => 0 | TxEIP2930Type => 1 | TxEIP1559Type => 2 end).
  assert (Hgl : zlen gb <= 8) by (pose proof (length_zeroless (be_bytes 8 g)) as L; rewrite length_be_bytes in L; unfold gb; lia).
  assert (Et : fields_to (receipt_compact_fields BF) (t, (ok, (g, (bl, (ls, tt))))) =
               Some ([(2, wrap 8 tb); (1, wrap 8 (if ok then 1 else 0)); (4, wrap 8 (zlen gb))], gb ++ be_bytes 256 bl ++ tail ++ [])).
  { assert (E5 : fields_to (mkField "Vec" "Log" (vec_compact (log_compact BF)) &: FNil) (ls, tt) = Some ([], tail ++ [])).
    { apply (fields_to_step (mkField "Vec" "Log" (vec_compact (log_compact BF))) FNil ls tt tail 0 [] []); [|done].
      change (vec_to_compact (log_compact BF) ls = Some (tail, 0)). unfold vec_to_compact. by rewrite Ed. }
    exact (fields_to_step (mkField "TxType" "" tx_type_compact) _ t _ [] tb _ _ eq_refl
      (fields_to_step (mkField "bool" "" bool_compact) _ ok _ [] _ _ _ eq_refl
      (fields_to_step u64_field _ g _ gb _ _ _ (uint_to_eq 8 g Hg)
      (fields_to_step (mkField "Bloom" "" (hash_compact 256)) _ bl _ _ _ _ _ eq_refl E5)))). }
  assert (Hw : wrap 8 (zlen gb) = zlen gb) by (apply Z.mod_small; lia). rewrite Hw in Et.
  destruct (flags_rt BF [(2, wrap 8 tb); (1, wrap 8 (if ok then 1 else 0)); (4, zlen gb)]) as (fb & Ef & _ & Rf).
  { repeat constructor; try done; try lia; try (by destruct t); try (by destruct ok). }
  exists (fb ++ gb ++ be_bytes 256 bl ++ tail). unfold compress, decompress. split.
  - change (to_compact (receipt_compact BF) (mkReceipt t ok g bl ls)) with
      ('(flags, buffer) ← fields_to (receipt_compact_fields BF) (t, (ok, (g, (bl, (ls, tt)))));
       flags ← flags_into_bytes BF flags; Some (flags ++ buffer, zlen flags + zlen buffer)).
    rewrite Et. cbn [mbind option_bind]. rewrite Ef. cbn. by rewrite app_nil_r.
  - change (from_compact (receipt_compact BF)) with
      (fun buf (_ : Z) => '(flags, buf) ← flags_from BF [2; 1; 4] buf;
         '(x, buf) ← fields_from (receipt_compact_fields BF) flags buf;
         Some ((fun '(t, (s, (g, (b, (l, tt))))) => mkReceipt t s g b l) x, buf)).
    cbn beta. destruct (Rf (gb ++ be_bytes 256 bl ++ tail)) as [extra R]. cbn [fmap list_fmap fst snd app] in R. rewrite R.
    cbn [mbind option_bind]. unfold receipt_compact_fields.
    erewrite fields_from_flag; [|reflexivity|reflexivity]. erewrite fields_from_flag; [|reflexivity|reflexivity].
    erewrite fields_from_flag; [|reflexivity|by apply uint_from_eq].
    erewrite fields_from_plain; [|reflexivity|]; last first.
    { destruct (hash_fixed 256 ltac:(constructor) bl Hb) as (b & n & [= <- <-] & Hne & Rh). apply Rh. rewrite length_app, length_be_bytes. lia. }
    change (fields_from (mkField "Vec" "Log" (vec_compact (log_compact BF)) &: FNil) extra tail) with
      ('(l, buf) ← vec_from_compact (log_compact BF) tail 0; Some ((l, tt), buf)).
    destruct (vec_from_compact (log_compact BF) tail 0) as [[l b]|]; [|done]. cbn. by destruct t, ok.
Qed.

(** Which receipts survive the database: exactly those whose logs all take fewer
    than 65536 bytes.  The length of a log is cut to 16 bits, so that a longer one is
    read back as another log, or the reader panics. *)
Theorem receipt_roundtrip_iff (r : Receipt) : in_u 64 (cumulative_gas_used r) -> in_u 2048 (bloom r) ->
  zlen (logs r) < 2 ^ 16 -> Forall wf_log (logs r) ->
  exists b, compress (receipt_compact BF) r = Some b /\
    (decompress (receipt_compact BF) b = Some r <-> Forall small_log (logs r)).
Proof.
  intros Hg Hb Hn Hl. destruct (vec_put_some _ _ _ (log_elem BF) Hl) as [d Ed].
  destruct (receipt_trace r d Hg Hb Ed) as (b & Ec & Er). exists b. split; [done|]. rewrite Er. clear Er.
  unfold vec_from_compact. rewrite get_u16_app by lia. cbn [mbind option_bind]. rewrite Nat2Z.id. split.
  - intros E. apply bind_Some in E as ([l rest] & E & Eq). destruct (decide (Forall small_log (logs r))) as [|Hf]; [done|].
    assert (l = logs r) as -> by (destruct r; by injection Eq as ->). exfalso. rewrite <- (app_nil_r d) in E. revert E.
    eapply vec_lossy; [apply log_elem; apply _| |done| |done].
    + intros a b' n c rst Ha Et Ef. apply log_from_size in Ef. destruct (log_elem BF a Ha) as (b2 & n2 & E2 & _ & R2).
      rewrite Et in E2. injection E2 as <- <-. apply log_from_size in R2. cbn in R2. lia.
    + intros Hall. apply Hf. rewrite Forall_forall in Hl, Hall |- *. intros x Hx.
      apply (log_fits_iff x); [by apply Hl|by apply Hall].
  - intros Hs. destruct (vec_put_get wf_log (log_compact BF) (logs r) ltac:(apply _)) as (d' & Ed' & R).
    { rewrite Forall_forall in Hl, Hs |- *. intros x Hx.
      exact (log_fits BF x (conj (Hl x Hx) (Hs x Hx))). }
    rewrite Ed in Ed'. injection Ed' as <-. specialize (R []). rewrite app_nil_r in R. rewrite R. by destruct r.
Qed.
End Receipts.

(** A transaction whose access list names 2048 slots of one account is a valid
    transaction, but its stored form cannot be read back. *)
Example access_list_2048_lost :
  let item := mkAccessListItem 7 (replicate 2048 1) in
  let t := mkTransactionSigned 5 (mkSignature 1 2 true) (TEip2930 (mkTxEip2930 1 0 1 21000 Create 0 [item] [])) in
  wf_access_list_item item /\
  forall b, compress (transaction_signed_compact LowBitsFirst.bitfield) t = Some b ->
    decompress (transaction_signed_compact LowBitsFirst.bitfield) b <> Some t.
Proof.
  split; [split; [by vm_compute|]; split; [by vm_compute|by apply Forall_replicate]|].
  intros b Hb. assert (E : (compress (transaction_signed_compact LowBitsFirst.bitfield)
    (mkTransactionSigned 5 (mkSignature 1 2 true) (TEip2930 (mkTxEip2930 1 0 1 21000 Create 0 [mkAccessListItem 7 (replicate 2048 1)] []))) ≫=
    decompress (transaction_signed_compact LowBitsFirst.bitfield)) = None) by (vm_compute; reflexivity).
  cbv zeta in Hb. rewrite Hb in E. cbn [mbind option_bind] in E. by rewrite E.
Qed.

(** The type of a transaction is only a length, which a table value does not have. *)
Example tx_type_lost : (compress tx_type_compact TxEIP1559Type ≫= decompress tx_type_compact) = Some TxLegacyType.
Proof. reflexivity. Qed.

(** ** Witnesses *)
Lemma derive_roundtrip_witness :
  let v := mkAccount 3 (10 ^ 20) (Some 77) in
  exists b, to_compact (account_compact LowBitsFirst.bitfield) v = Some (b, zlen b) /\
    forall rest len, from_compact (account_compact LowBitsFirst.bitfield) (b ++ rest) len = Some (v, rest).
Proof.
  assert (exists wf, FieldsOk wf account_fields /\ wf (3, (10 ^ 20, (Some 77, tt)))) as (wf & Hl & Hw).
  { eexists. split; [fields_ok|]. cbn. repeat first [exact I|split]; vm_compute; done. }
  destruct (derive_roundtrip LowBitsFirst.bitfield wf account_fields (fun '(n, (b, (h, tt))) => mkAccount n b h)
    (fun a => (acc_nonce a, (acc_balance a, (bytecode_hash a, tt)))) (mkAccount 3 (10 ^ 20) (Some 77)))
    as (b & E & _ & R); [exact Hl|reflexivity|exact Hw|reflexivity|].
  exists b. split; [exact E|]. apply R. reflexivity.
Defined.

Module SampleTables.
Definition header : Header :=
  mkHeader 1 2 3 4 5 6 (Some 7) (2 ^ 2000) (10 ^ 16) 17000000 30000000 21000 1680000000 8 9 (Some 7) [1; 2; 3].
Definition transaction : TransactionSigned :=
  mkTransactionSigned 77 (mkSignature 5 6 true)
    (TEip1559 (mkTxEip1559 1 3 21000 100 2 (Call 9) (10 ^ 18) [mkAccessListItem 4 [1; 2 ^ 255]; mkAccessListItem 5 []] [0xa9; 0x05])).
Definition receipt : Receipt := mkReceipt TxEIP1559Type true 42000 (2 ^ 100) [mkLog 9 [1; 2; 2 ^ 250] (replicate 40 3)].
End SampleTables.

Lemma table_values_roundtrip_witness :
  let reads {A} (C : Compact A) v := exists b, compress C v = Some b /\ decompress C b = Some v in
  let BF := LowBitsFirst.bitfield in
  reads (header_compact BF) SampleTables.header /\ reads (stored_block_ommers_compact BF) [SampleTables.header] /\
  reads (stored_block_withdrawals_compact BF) [mkWithdrawal 1 2 3 4; mkWithdrawal 5 6 7 0] /\
  reads (transaction_signed_compact BF) SampleTables.transaction /\ reads (receipt_compact BF) SampleTables.receipt /\
  reads (account_before_tx_compact BF) (mkAccountBeforeTx 5 (Some (mkAccount 1 (10 ^ 20) None))) /\
  reads (CompactU256_compact BF) (2 ^ 200).
Proof.
  destruct (table_values_roundtrip LowBitsFirst.bitfield LowBitsFirst.bitfield_lawful)
    as (H1 & _ & H3 & H4 & H5 & H6 & _ & _ & H9 & H10 & _).
  split; [|split; [|split; [|split; [|split; [|split] ] ] ] ].
  - apply H1. unfold wf_header. split_and!; by vm_compute.
  - apply H3. split; [by vm_compute|]. apply Forall_singleton. unfold wf_header. split_and!; by vm_compute.
  - apply H4. split; [by vm_compute|]. repeat constructor; by vm_compute.
  - apply H5. unfold wf_transaction_signed, wf_signature. cbn. unfold wf_access_list, wf_list, wf_access_list_item, small_item.
    repeat first [split|constructor]; by vm_compute.
  - apply H6. unfold wf_receipt, wf_list, wf_log, small_log. repeat first [split|constructor]; by vm_compute.
  - apply H9. unfold wf_account_before_tx, wf_account. repeat first [split|constructor]; by vm_compute.
  - apply H10. by vm_compute.
Defined.

Lemma receipt_roundtrip_iff_witness :
  let r n := mkReceipt TxEIP1559Type true 21000 0 [mkLog 1 [2; 3] (replicate n 7)] in
  (exists b, compress (receipt_compact LowBitsFirst.bitfield) (r 100%nat) = Some b /\
     decompress (receipt_compact LowBitsFirst.bitfield) b = Some (r 100%nat)) /\
  exists b, compress (receipt_compact LowBitsFirst.bitfield) (r (Z.to_nat 65450)) = Some b /\
     decompress (receipt_compact LowBitsFirst.bitfield) b <> Some (r (Z.to_nat 65450)).
Proof.
  intros r.
  assert (Hwf : forall n, Forall wf_log (logs (r n))).
  { intros n. repeat constructor; done. }
  split.
  - destruct (receipt_roundtrip_iff LowBitsFirst.bitfield (r 100%nat)) as (b & E & R); [done|done|done|apply Hwf|].
    exists b. split; [exact E|]. apply R. by repeat constructor.
  - destruct (receipt_roundtrip_iff LowBitsFirst.bitfield (r (Z.to_nat 65450))) as (b & E & R); [done|done|done|apply Hwf|].
    exists b. split; [exact E|]. rewrite R. intros [H _]%Forall_cons. unfold small_log in H. cbn [topics data r] in H.
    rewrite length_replicate in H. cbn [length] in H. lia.
Defined.
