(* ===== verification/DbKeys.v ===== *)
(** * Keys of the database tables (crates/storage/db/src/tables/models)

    [Encode] and [Decode] of the types used as keys and subkeys.  The engine compares
    keys as byte strings; that the encoded order is the order of the keys themselves is
    what range walks and seeks over the tables rely on. *)
From S2P Require Import Prelude Bytes.

(** ** Codecs

    [decode] panics where [from_slice] or a slice index would, and returns
    [Error::DecodeError] as [Err tt]. *)
Record KeyCodec (K : Type) := mkKeyCodec {
  key_encode : K -> bytes;
  key_decode : bytes -> outcome unit K
}.
Arguments mkKeyCodec {K} _ _.
Arguments key_encode {K} c _ : rename.
Arguments key_decode {K} c _ : rename.

(** [impl_uints], for an integer of [n] bytes *)
Definition uint_key (n : nat) : KeyCodec Z :=
  mkKeyCodec (be_bytes n) (fun value => if (length value =? n)%nat then Ok (be_value value) else Err tt).

(** [Address] and [H256]: [from_slice] asserts the length. *)
Definition hash_key (n : nat) : KeyCodec Z :=
  mkKeyCodec (be_bytes n) (fun value => if (length value =? n)%nat then Ok (be_value value) else Panic).

Definition bytes_key : KeyCodec bytes := mkKeyCodec id Ok.

(** A [String] is its bytes, which are UTF-8. *)
Definition string_key : KeyCodec bytes := mkKeyCodec id (fun value => if utf8_valid value then Ok value else Err tt).

(** [BlockNumHash] and [TransitionIdAddress]: a number and a hash of [n] bytes *)
Definition num_hash_key (n : nat) : KeyCodec (Z * Z) :=
  mkKeyCodec (fun k => be_bytes 8 k.1 ++ be_bytes n k.2)
    (fun value =>
       if (length value <? 8)%nat then Panic else
       if (length (drop 8 value) =? n)%nat then Ok (be_value (take 8 value), be_value (drop 8 value)) else Panic).
Definition block_num_hash_key : KeyCodec (Z * Z) := num_hash_key 32.
Definition transition_id_address_key : KeyCodec (Z * Z) := num_hash_key 20.

(** sharded_key.rs; a value shorter than eight bytes makes [value.len() - 8] wrap, and
    the slice then panics. *)
Record ShardedKey (T : Type) := mkShardedKey { sk_key : T; highest_transition_id : Z }.
Arguments mkShardedKey {T} _ _.
Arguments sk_key {T} s : rename.
Arguments highest_transition_id {T} s : rename.

Definition sharded_key {T} (c : KeyCodec T) : KeyCodec (ShardedKey T) :=
  mkKeyCodec (fun k => key_encode c (sk_key k) ++ be_bytes 8 (highest_transition_id k))
    (fun value =>
       if (length value <? 8)%nat then Panic else
       let tx_num_index := (length value - 8)%nat in
       key ← key_decode c (take tx_num_index value);
       Ok (mkShardedKey key (be_value (drop tx_num_index value)))).

(** storage_sharded_key.rs *)
Record StorageShardedKey := mkStorageShardedKey { ssk_address : Z; ssk_sharded_key : ShardedKey Z }.

Definition storage_sharded_key : KeyCodec StorageShardedKey :=
  mkKeyCodec (fun k => be_bytes 20 (ssk_address k) ++ be_bytes 32 (sk_key (ssk_sharded_key k)) ++
                       be_bytes 8 (highest_transition_id (ssk_sharded_key k)))
    (fun value =>
       if (length value <? 8)%nat then Panic else
       let tx_num_index := (length value - 8)%nat in
       let highest := be_value (drop tx_num_index value) in
       if (length value <? 52)%nat then Panic else
       address ← key_decode (hash_key 20) (take 20 value);
       storage_key ← key_decode (hash_key 32) (take 32 (drop 20 value));
       Ok (mkStorageShardedKey address (mkShardedKey storage_key highest))).

(** ** The order of the engine: byte strings, a prefix before its extensions *)
Fixpoint bytes_cmp (a b : bytes) : comparison :=
  match a, b with
  | [], [] => Eq
  | [], _ => Lt
  | _, [] => Gt
  | x :: a, y :: b => match x ?= y with Eq => bytes_cmp a b | c => c end
  end.

(** The derived [Ord] of a structure: the fields one after the other. *)
Definition then_cmp (c d : comparison) : comparison := match c with Eq => d | _ => c end.

Definition pair_cmp (a b : Z * Z) : comparison := then_cmp (a.1 ?= b.1) (a.2 ?= b.2).
Definition sharded_cmp {T} (cmp : T -> T -> comparison) (a b : ShardedKey T) : comparison :=
  then_cmp (cmp (sk_key a) (sk_key b)) (highest_transition_id a ?= highest_transition_id b).
Definition storage_sharded_cmp (a b : StorageShardedKey) : comparison :=
  then_cmp (ssk_address a ?= ssk_address b) (sharded_cmp Z.compare (ssk_sharded_key a) (ssk_sharded_key b)).

(** ** Laws *)

(** A key codec whose bytes have a fixed length, read back as the key, and compared as
    the keys are. *)
Record KeyOk {K} (n : nat) (wf : K -> Prop) (cmp : K -> K -> comparison) (c : KeyCodec K) : Prop := {
  key_length k : wf k -> length (key_encode c k) = n;
  key_roundtrip k : wf k -> key_decode c (key_encode c k) = Ok k;
  key_order a b : wf a -> wf b -> bytes_cmp (key_encode c a) (key_encode c b) = cmp a b
}.

Lemma bytes_cmp_app a b c d : length a = length c ->
  bytes_cmp (a ++ b) (c ++ d) = then_cmp (bytes_cmp a c) (bytes_cmp b d).
Proof.
  revert c. induction a as [|x a IH]; intros [|y c] Hl; try done. cbn. injection Hl as Hl. rewrite IH by done.
  by destruct (x ?= y).
Qed.

Lemma bytes_cmp_value l k : wf_bytes l -> wf_bytes k -> length l = length k ->
  bytes_cmp l k = (be_value l ?= be_value k).
Proof.
  intros Hl. revert k. induction Hl as [|x l Hx Hl IH]; intros [|y k] Hk Hlen; try done.
  apply Forall_cons in Hk as [Hy Hk]. injection Hlen as Hlen. cbn [bytes_cmp]. rewrite IH by done.
  pose proof (be_value_range _ Hl) as R1. pose proof (be_value_range _ Hk) as R2. rewrite !be_value_cons, Hlen in *.
  destruct (Z.compare_spec x y) as [->|H|H].
  - by rewrite Zcompare_plus_compat.
  - symmetry. apply Z.compare_lt_iff. nia.
  - symmetry. apply Z.compare_gt_iff. nia.
Qed.

Lemma be_bytes_cmp n a b : 0 <= a < 256 ^ Z.of_nat n -> 0 <= b < 256 ^ Z.of_nat n ->
  bytes_cmp (be_bytes n a) (be_bytes n b) = (a ?= b).
Proof.
  intros Ha Hb. rewrite bytes_cmp_value by (try apply be_bytes_wf; by rewrite !length_be_bytes).
  by rewrite !be_value_be_bytes, !Z.mod_small.
Qed.

Lemma be_roundtrip n a : 0 <= a < 256 ^ Z.of_nat n -> be_value (be_bytes n a) = a.
Proof. intros Ha. by rewrite be_value_be_bytes, Z.mod_small. Qed.

Abbreviation fixed n := (fun v => 0 <= v < 256 ^ Z.of_nat n).

Lemma uint_key_ok n : KeyOk n (fixed n) Z.compare (uint_key n).
Proof.
  split; cbn; intros.
  - apply length_be_bytes.
  - by rewrite length_be_bytes, Nat.eqb_refl, be_roundtrip.
  - by apply be_bytes_cmp.
Qed.

Lemma hash_key_ok n : KeyOk n (fixed n) Z.compare (hash_key n).
Proof.
  split; cbn; intros.
  - apply length_be_bytes.
  - by rewrite length_be_bytes, Nat.eqb_refl, be_roundtrip.
  - by apply be_bytes_cmp.
Qed.

Lemma num_hash_key_ok n :
  KeyOk (8 + n) (fun k => fixed 8 k.1 /\ fixed n k.2) pair_cmp (num_hash_key n).
Proof.
  split; cbn [num_hash_key key_encode key_decode].
  - intros k _. by rewrite length_app, !length_be_bytes.
  - intros [a h] [Ha Hh]. cbn [fst snd] in *. rewrite length_app, !length_be_bytes.
    rewrite (proj2 (Nat.ltb_ge _ _)) by lia. rewrite take_app_length', drop_app_length' by by rewrite length_be_bytes.
    by rewrite length_be_bytes, Nat.eqb_refl, !be_roundtrip.
  - intros [a h] [b i] [Ha Hh] [Hb Hi]. cbn [fst snd] in *. rewrite bytes_cmp_app by by rewrite !length_be_bytes.
    unfold pair_cmp. by rewrite !be_bytes_cmp.
Qed.

Lemma sharded_key_ok {T} n (wf : T -> Prop) cmp (c : KeyCodec T) : KeyOk n wf cmp c ->
  KeyOk (n + 8) (fun k => wf (sk_key k) /\ fixed 8 (highest_transition_id k)) (sharded_cmp cmp) (sharded_key c).
Proof.
  intros [Hlen Hrt Hord]. split; cbn [sharded_key key_encode key_decode].
  - intros k [Hk _]. by rewrite length_app, length_be_bytes, Hlen.
  - intros [k h] [Hk Hh]. cbn [sk_key highest_transition_id] in *. rewrite length_app, length_be_bytes, Hlen by done.
    rewrite (proj2 (Nat.ltb_ge _ _)) by lia. replace (n + 8 - 8)%nat with n by lia.
    rewrite take_app_length', drop_app_length' by by rewrite Hlen. rewrite Hrt by done. cbn [mbind outcome_bind].
    by rewrite be_roundtrip.
  - intros [k h] [j i] [Hk Hh] [Hj Hi]. cbn [sk_key highest_transition_id] in *.
    rewrite bytes_cmp_app by by rewrite !Hlen. unfold sharded_cmp. cbn [sk_key highest_transition_id].
    by rewrite Hord, be_bytes_cmp.
Qed.

Definition wf_storage_sharded (k : StorageShardedKey) : Prop :=
  fixed 20 (ssk_address k) /\ fixed 32 (sk_key (ssk_sharded_key k)) /\ fixed 8 (highest_transition_id (ssk_sharded_key k)).

Lemma storage_sharded_key_ok : KeyOk 60 wf_storage_sharded storage_sharded_cmp storage_sharded_key.
Proof.
  split; cbn [storage_sharded_key key_encode key_decode].
  - intros k _. by rewrite !length_app, !length_be_bytes.
  - intros [a [s h]] (Ha & Hs & Hh). cbn [ssk_address ssk_sharded_key sk_key highest_transition_id] in *.
    rewrite !length_app, !length_be_bytes. change ((20 + (32 + 8) <? 8)%nat) with false. change ((20 + (32 + 8) <? 52)%nat) with false.
    cbn iota zeta. replace (drop (20 + (32 + 8) - 8) (be_bytes 20 a ++ be_bytes 32 s ++ be_bytes 8 h)) with (be_bytes 8 h).
    2: { rewrite app_assoc, drop_app_length'; [done|]. by rewrite length_app, !length_be_bytes. }
    rewrite take_app_length' by by rewrite length_be_bytes. rewrite drop_app_length' by by rewrite length_be_bytes.
    rewrite take_app_length' by by rewrite length_be_bytes. cbn [hash_key key_decode].
    rewrite !length_be_bytes. cbn [Nat.eqb mbind outcome_bind]. by rewrite !be_roundtrip.
  - intros [a [s h]] [b [t i]] (Ha & Hs & Hh) (Hb & Ht & Hi). cbn [ssk_address ssk_sharded_key sk_key highest_transition_id] in *.
    rewrite !bytes_cmp_app by by rewrite !length_be_bytes. unfold storage_sharded_cmp, sharded_cmp.
    cbn [ssk_address ssk_sharded_key sk_key highest_transition_id]. by rewrite !be_bytes_cmp.
Qed.

(** C23. The keys and subkeys of a fixed length: block, transaction and transition
    numbers, addresses, hashes, numbered hashes, and the sharded keys of the account and
    storage histories.  Their encodings have that length, are read back, and compare as
    byte strings the way the keys compare: a table that the engine keeps in byte order is
    in the order of its keys, and sharded keys sort by address, then by slot, then by
    highest transition.  The stage ids that are the keys of SyncStage and
    SyncStageProgress are strings of any length: they are read back, and bytes that are
    not UTF-8 are a decode error. *)
Theorem key_encoding_order :
  KeyOk 8 (in_u 64) Z.compare (uint_key 8) /\ KeyOk 20 (in_u 160) Z.compare (hash_key 20) /\
  KeyOk 32 (in_u 256) Z.compare (hash_key 32) /\
  KeyOk 40 (fun k => in_u 64 k.1 /\ in_u 256 k.2) pair_cmp block_num_hash_key /\
  KeyOk 28 (fun k => in_u 64 k.1 /\ in_u 160 k.2) pair_cmp transition_id_address_key /\
  KeyOk 28 (fun k => in_u 160 (sk_key k) /\ in_u 64 (highest_transition_id k)) (sharded_cmp Z.compare) (sharded_key (hash_key 20)) /\
  KeyOk 60 wf_storage_sharded storage_sharded_cmp storage_sharded_key /\
  (forall k, utf8_valid k = true -> key_decode string_key (key_encode string_key k) = Ok k) /\
  (forall v, utf8_valid v = false -> key_decode string_key v = Err tt).
Proof.
  split; [exact (uint_key_ok 8)|]. split; [exact (hash_key_ok 20)|]. split; [exact (hash_key_ok 32)|].
  split; [exact (num_hash_key_ok 32)|]. split; [exact (num_hash_key_ok 20)|].
  split; [exact (sharded_key_ok 20 _ _ _ (hash_key_ok 20))|]. split; [exact storage_sharded_key_ok|].
  split; intros v Hv; cbn; by rewrite Hv.
Qed.
