(* ===== verification/Tables.v ===== *)
(** * Tables and cursors of the database

    The tables of storage/db/src/tables/mod.rs as the provider uses them, and the
    walkers of storage/db/src/abstraction/cursor.rs and
    storage/db/src/implementation/mdbx/cursor.rs.

    A table is what the engine keeps: an ordered map, or for a [DUPSORT] table an
    ordered set of rows.  A cursor moves over the rows in order, so that [seek] finds
    the first row at or after a key, and a walk is the list of the rows from there on.
    Failures of the engine itself are not modelled. *)
From S2P Require Import Prelude Bytes BTree Primitives PoolInner SubState Compact.

Inductive DbError := ReadError (code : Z) | WriteError (code : Z) | DeleteError (code : Z) | DecodeError.
#[global] Instance DbError_eq_dec : EqDecision DbError.
Proof. solve_decision. Defined.

(** ** Ranges *)
Inductive Bound (K : Type) := Included (k : K) | Excluded (k : K) | Unbounded.
Arguments Included {K} k.
Arguments Excluded {K} k.
Arguments Unbounded {K}.

Record Range (K : Type) := mkRange { start_bound : Bound K; end_bound : Bound K }.
Arguments mkRange {K} _ _.
Arguments start_bound {K} r : rename.
Arguments end_bound {K} r : rename.

(** [a..b] and [a..=b] *)
Definition range {K} (a b : K) : Range K := mkRange (Included a) (Excluded b).
Definition range_incl {K} (a b : K) : Range K := mkRange (Included a) (Included b).

Fixpoint take_while {A} (P : A -> bool) (l : list A) : list A :=
  match l with
  | [] => []
  | x :: l => if P x then x :: take_while P l else []
  end.

Section Cursors.
Context {K : Type} (le : relation K) `{!RelDecision le} `{!EqDecision K}.
Context {V : Type}.
Implicit Types (rows : list (K * V)).

Definition key_le (a b : K) : bool := bool_decide (le a b).
Definition key_lt (a b : K) : bool := bool_decide (strict le a b).

(** [seek]: the first row at or after the key. *)
Definition rows_from (k : K) rows : list (K * V) := filter (fun r => le k r.1) rows.
Definition seek (k : K) rows : option (K * V) := head (rows_from k rows).
Definition seek_exact (k : K) rows : option (K * V) := head (filter (fun r => r.1 = k) rows).
(** [prev] from a row that was at [k]. *)
Definition prev_row (k : K) rows : option (K * V) := last (filter (fun r => strict le r.1 k) rows).

(** [walk(Some(start))] *)
Definition walk (start : K) rows : list (K * V) := rows_from start rows.

Definition end_before (e : Bound K) (k : K) : bool :=
  match e with Included e | Excluded e => key_lt e k | Unbounded => false end.
Definition within (e : Bound K) (k : K) : bool :=
  match e with Included e => key_le k e | Excluded e => key_lt k e | Unbounded => true end.

(** [walk_range] and the iterator [RangeWalker]: the row the walk starts at is returned
    without a look at the end of the range. *)
Definition walk_range (r : Range K) rows : outcome DbError (list (K * V)) :=
  match start_bound r with
  | Included k =>
      if end_before (end_bound r) k then Err (ReadError 2)
      else match rows_from k rows with
           | [] => Ok []
           | first :: rest => Ok (first :: take_while (fun x => within (end_bound r) x.1) rest)
           end
  | Excluded _ => Panic
  | Unbounded =>
      match rows with
      | [] => Ok []
      | first :: rest => Ok (first :: take_while (fun x => within (end_bound r) x.1) rest)
      end
  end.
End Cursors.

(** ** DUPSORT tables *)
Section Dup.
Context {K S W : Type} `{Countable K, Countable S, Countable W}.
Context (kle : relation K) (sle : relation S) (wle : relation W).
Context `{!RelDecision kle, !RelDecision sle, !RelDecision wle}.

(** Rows in order: by key, then by subkey, then by the rest of the value. *)
Definition dup_rows (t : gset (K * (S * W))) : list (K * (S * W)) :=
  merge_sort (lex_le kle (lex_le sle wle)) (elements t).

(** [seek_by_key_subkey]: the first value of the key at or after the subkey. *)
Definition seek_by_key_subkey (k : K) (s : S) (t : gset (K * (S * W))) : option (S * W) :=
  snd <$> head (filter (fun r => r.1 = k /\ sle s r.2.1) (dup_rows t)).

(** [delete(key, None)] and [delete(key, Some(value))] *)
Definition delete_key (k : K) (t : gset (K * (S * W))) : gset (K * (S * W)) := filter (fun r => r.1 <> k) t.
Definition delete_value (k : K) (v : S * W) (t : gset (K * (S * W))) : gset (K * (S * W)) := t ∖ {[(k, v)]}.
End Dup.
