(* ===== verification/History.v ===== *)
(** * History indices and historical state

    The tables AccountHistory and StorageHistory keep, for each account or slot, the
    transitions that changed it, in shards of at most 100: the last shard has the key
    [u64::MAX], the others the highest transition they hold.  Modelled here are their
    maintenance (storage/provider/src/transaction.rs: [insert_account_history_index],
    [unwind_account_history_indices] and the storage versions) and their use
    (storage/provider/src/providers/state/historical.rs).

    The account and the storage functions differ in the type of the key only, so the
    index is a section over that type.  A list of transitions is stored by the package
    sucds as an Elias-Fano sequence, a parameter. *)
From S2P Require Import Prelude Bytes BTree Primitives PoolInner SubState Compact Tables.

(** primitives/src/integer_list.rs, over [sucds::EliasFano]; [None] is the error that
    the callers [expect] not to happen. *)
Class EliasFano (IL : Type) := {
  from_ints : list Z -> option IL;
  ef_iter : IL -> list Z;
  successor : IL -> Z -> option Z
}.

Class EliasFanoOk (IL : Type) `{EliasFano IL} : Prop := {
  ef_from_ints l : l <> [] -> StronglySorted Z.le l -> exists il, from_ints l = Some il /\ ef_iter il = l;
  ef_successor il t : successor il t = head (filter (fun i => t <= i) (ef_iter il))
}.

Definition NUM_OF_INDICES_IN_SHARD : nat := 100.

(** itertools' [chunks]; [fuel] is the length of the list. *)
Fixpoint chunks_loop {A} (fuel n : nat) (l : list A) : list (list A) :=
  match l, fuel with
  | [], _ | _, O => []
  | _, S fuel => take n l :: chunks_loop fuel n (drop n l)
  end.
Definition chunks {A} (n : nat) (l : list A) : list (list A) := chunks_loop (length l) n l.

Section Index.
Context {K : Type} `{Countable K} (kle : relation K) `{!RelDecision kle} `{!TotalOrder kle}.
Context {IL : Type} `{!EliasFano IL}.

Abbreviation shard_key := (K * Z)%type.
Abbreviation table := (gmap shard_key IL).
Abbreviation shard_le := (lex_le kle Z.le).

(** [take_last_account_shard], [take_last_storage_shard] *)
Definition take_last_shard (k : K) (h : table) : list Z * table :=
  match h !! (k, u64_max) with
  | Some list => (ef_iter list, delete (k, u64_max) h)
  | None => ([], h)
  end.

(** The chunks are put under their last transition, the last one under [u64::MAX]. *)
Fixpoint put_chunks (k : K) (cs : list (list Z)) (h : table) : option table :=
  match cs with
  | [] => Some h
  | [last_list] =>
      l ← from_ints last_list; Some (<[(k, u64_max) := l]> h)
  | list :: cs =>
      x ← last list; l ← from_ints list; put_chunks k cs (<[(k, x) := l]> h)
  end.

(** [insert_account_history_index], [insert_storage_history_index] *)
Definition insert_indices (k : K) (indices : list Z) (h : table) : option table :=
  let '(last_shard, h) := take_last_shard k h in
  put_chunks k (chunks NUM_OF_INDICES_IN_SHARD (last_shard ++ indices)) h.

Fixpoint insert_history_index (transitions : list (K * list Z)) (h : table) : option table :=
  match transitions with
  | [] => Some h
  | (k, indices) :: transitions => h ← insert_indices k indices h; insert_history_index transitions h
  end.

(** [unwind_account_history_shards], [unwind_storage_history_shards]: the cursor stands
    on [item], [prev] moves it to the row before. *)
Fixpoint unwind_shards_loop (fuel : nat) (k : K) (transition_id : Z) (item : option (shard_key * IL)) (h : table)
    : outcome DbError (list Z * table) :=
  match item with
  | None => Ok ([], h)
  | Some ((key, highest), list) =>
      if decide (key <> k) then Ok ([], h) else
      match fuel with
      | O => Diverge
      | S fuel =>
          let h := delete (key, highest) h in
          match ef_iter list with
          | [] => Panic
          | first :: _ =>
              if transition_id <=? first then
                unwind_shards_loop fuel k transition_id (prev_row shard_le (key, highest) (entries shard_le h)) h
              else if transition_id <=? highest then
                Ok (take_while (fun i => i <? transition_id) (ef_iter list), h)
              else Ok (ef_iter list, h)
          end
      end
  end.

Definition unwind_history_shards (k : K) (transition_id : Z) (h : table) : outcome DbError (list Z * table) :=
  unwind_shards_loop (S (size h)) k transition_id (seek_exact (k, u64_max) (entries shard_le h)) h.

(** The body of the loops of [unwind_account_history_indices] and
    [unwind_storage_history_indices] *)
Definition unwind_index (k : K) (rem_index : Z) (h : table) : outcome DbError table :=
  '(shard_part, h) ← unwind_history_shards k rem_index h;
  match shard_part with
  | [] => Ok h
  | _ => match from_ints shard_part with
         | Some l => Ok (<[(k, u64_max) := l]> h)
         | None => Panic
         end
  end.

Fixpoint unwind_history_index (last_indices : list (K * Z)) (h : table) : outcome DbError table :=
  match last_indices with
  | [] => Ok h
  | (k, rem_index) :: last_indices => h ← unwind_index k rem_index h; unwind_history_index last_indices h
  end.

(** The lookup of historical.rs: [None] when no shard of the key is found, otherwise
    the transition of the first change at or after [transition]. *)
Definition history_lookup (k : K) (transition : Z) (h : table) : option (option Z) :=
  match seek shard_le (k, transition) (entries shard_le h) with
  | Some ((key, _), list) => if decide (key = k) then Some (successor list transition) else None
  | None => None
  end.
End Index.

(** ** The tables *)
Section Provider.
Context {IL : Type} `{!EliasFano IL}.
(** The byte order of the values in the change sets. *)
Context (info_le : relation (option Account)) (value_le : relation Z).
Context `{!RelDecision info_le, !RelDecision value_le}.

Record HistoryTables := mkHistoryTables {
  h_accounts : AccountTables;
  PlainStorageState : gset (Z * (Z * Z));
  StorageChangeSet : gset ((Z * Z) * (Z * Z));
  AccountHistory : gmap (Z * Z) IL;
  StorageHistory : gmap ((Z * Z) * Z) IL
}.
Implicit Types (d : HistoryTables).

Definition account_changeset_rows (d : HistoryTables) : list (Z * (Z * option Account)) :=
  dup_rows Z.le Z.le info_le (AccountChangeSetTable (h_accounts d)).
Definition storage_changeset_rows (d : HistoryTables) : list ((Z * Z) * (Z * Z)) :=
  dup_rows (lex_le Z.le Z.le) Z.le value_le (StorageChangeSet d).

(** [get_account_transition_ids_from_changeset]: a [BTreeMap] from addresses to the
    transitions, in the order in which they are pushed. *)
Definition push_transition {K} `{Countable K} (m : gmap K (list Z)) (k : K) (t : Z) : gmap K (list Z) :=
  <[k := default [] (m !! k) ++ [t]]> m.

Definition get_account_transition_ids_from_changeset (from to : Z) d : list (Z * list Z) :=
  let rows := take_while (fun r => r.1 <? to) (walk Z.le from (account_changeset_rows d)) in
  entries Z.le (foldl (fun m r => push_transition m r.2.1 r.1) ∅ rows).

Definition get_storage_transition_ids_from_changeset (from to : Z) d : list ((Z * Z) * list Z) :=
  let rows := take_while (fun r => r.1.1 <? to) (walk (lex_le Z.le Z.le) (from, 0) (storage_changeset_rows d)) in
  entries (lex_le Z.le Z.le) (foldl (fun m r => push_transition m (r.1.2, r.2.1) r.1.1) ∅ rows).

Definition with_account_history (h : gmap (Z * Z) IL) d : HistoryTables :=
  mkHistoryTables (h_accounts d) (PlainStorageState d) (StorageChangeSet d) h (StorageHistory d).
Definition with_storage_history (h : gmap ((Z * Z) * Z) IL) d : HistoryTables :=
  mkHistoryTables (h_accounts d) (PlainStorageState d) (StorageChangeSet d) (AccountHistory d) h.

(** The history stages of [Transaction::insert_block] *)
Definition insert_account_history_index (from to : Z) d : option HistoryTables :=
  h ← insert_history_index (get_account_transition_ids_from_changeset from to d) (AccountHistory d);
  Some (with_account_history h d).
Definition insert_storage_history_index (from to : Z) d : option HistoryTables :=
  h ← insert_history_index (get_storage_transition_ids_from_changeset from to d) (StorageHistory d);
  Some (with_storage_history h d).

(** [unwind_account_history_indices]: the lowest transition of each changed account. *)
Definition unwind_account_history_indices (r : Range Z) d : outcome DbError HistoryTables :=
  rows ← walk_range Z.le r (account_changeset_rows d);
  let last_indices := foldl (fun m r => <[r.2.1 := r.1]> m) (∅ : gmap Z Z) (reverse rows) in
  h ← unwind_history_index Z.le (entries Z.le last_indices) (AccountHistory d);
  Ok (with_account_history h d).

Definition unwind_storage_history_indices (r : Range (Z * Z)) d : outcome DbError HistoryTables :=
  rows ← walk_range (lex_le Z.le Z.le) r (storage_changeset_rows d);
  let last_indices := foldl (fun m r => <[(r.1.2, r.2.1) := r.1.1]> m) (∅ : gmap (Z * Z) Z) (reverse rows) in
  h ← unwind_history_index (lex_le Z.le Z.le) (entries (lex_le Z.le Z.le) last_indices) (StorageHistory d);
  Ok (with_storage_history h d).

(** ** historical.rs *)
Inductive ProviderError :=
| AccountChangesetMissing (transition_id address : Z)
| StorageChangesetMissing (transition_id address storage_key : Z).

Definition basic_account (transition address : Z) d : outcome ProviderError (option Account) :=
  match history_lookup Z.le address transition (AccountHistory d) with
  | None => Ok None
  | Some (Some changeset_transition_id) =>
      match seek_by_key_subkey Z.le Z.le info_le changeset_transition_id address (AccountChangeSetTable (h_accounts d)) with
      | Some (a, info) =>
          if a =? address then Ok info else Err (AccountChangesetMissing changeset_transition_id address)
      | None => Err (AccountChangesetMissing changeset_transition_id address)
      end
  | Some None => Ok (PlainAccountState (h_accounts d) !! address)
  end.

Definition storage_at (transition address storage_key : Z) d : outcome ProviderError (option Z) :=
  match history_lookup (lex_le Z.le Z.le) (address, storage_key) transition (StorageHistory d) with
  | None => Ok None
  | Some (Some changeset_transition_id) =>
      match seek_by_key_subkey (lex_le Z.le Z.le) Z.le value_le (changeset_transition_id, address) storage_key (StorageChangeSet d) with
      | Some (k, value) =>
          if k =? storage_key then Ok (Some value)
          else Err (StorageChangesetMissing changeset_transition_id address storage_key)
      | None => Err (StorageChangesetMissing changeset_transition_id address storage_key)
      end
  | Some None =>
      match seek_by_key_subkey Z.le Z.le value_le address storage_key (PlainStorageState d) with
      | Some (k, value) => if k =? storage_key then Ok (Some value) else Ok None
      | None => Ok None
      end
  end.
End Provider.
