(* ===== verification/HistoryProofs.v ===== *)
(** * Correctness of the history indices

    The shards of a key represent the list of the transitions that changed it
    ([index_ok]).  Inserting refines appending to that list, unwinding refines dropping
    its end, and a lookup finds the first change at or after a transition, from which
    the historical provider reads the state. *)
From S2P Require Import Prelude Bytes BTree Primitives PoolInner SubState Compact Tables History.

(** ** Strictly increasing lists *)
Abbreviation increasing := (StronglySorted Z.lt).

Lemma increasing_app l k : increasing (l ++ k) <-> increasing l /\ increasing k /\ (forall x y, x ∈ l -> y ∈ k -> x < y).
Proof.
  induction l as [|x l IH]; cbn.
  - split; [intros H; split_and!; [constructor|done|intros x y []%not_elem_of_nil]|tauto].
  - split.
    + intros [Hs Hx]%StronglySorted_inv. apply IH in Hs as (H1 & H2 & H3). apply Forall_app in Hx as [Hx1 Hx2].
      split_and!; [by constructor|done|]. intros y z [->|Hy]%elem_of_cons Hz; [by apply (proj1 (Forall_forall _ _) Hx2)|by apply H3].
    + intros ([Hs Hx]%StronglySorted_inv & H2 & H3). constructor.
      * apply IH. split_and!; [done|done|]. intros y z Hy Hz. apply H3; [by apply list_elem_of_further|done].
      * apply Forall_app. split; [done|]. apply Forall_forall. intros z Hz. apply H3; [apply list_elem_of_here|done].
Qed.

Lemma increasing_sorted l : increasing l -> StronglySorted Z.le l.
Proof. induction 1 as [|x l _ IH Hx]; constructor; [done|]. eapply Forall_impl; [exact Hx|]. cbn. lia. Qed.

Lemma take_while_filter t l : increasing l -> take_while (fun i => i <? t) l = filter (fun i => i < t) l.
Proof.
  induction 1 as [|x l _ IH Hx]; [done|]. cbn [take_while]. rewrite filter_cons. destruct (Z.ltb_spec x t).
  - rewrite decide_True by done. by f_equal.
  - rewrite decide_False by lia. symmetry. apply filter_none. eapply Forall_impl; [exact Hx|]. cbn. lia.
Qed.

Lemma last_elem {A} (l : list A) x : last l = Some x -> x ∈ l.
Proof. intros (k & ->)%last_Some. apply elem_of_app. right. by apply list_elem_of_singleton. Qed.

Lemma increasing_last l x y : increasing l -> last l = Some x -> y ∈ l -> y <= x.
Proof.
  intros Hs (k & ->)%last_Some Hy. apply increasing_app in Hs as (_ & _ & Hs).
  apply elem_of_app in Hy as [Hy|Hy%list_elem_of_singleton]; [|lia].
  assert (y < x) by (apply Hs; [done|by apply list_elem_of_singleton]). lia.
Qed.

Lemma increasing_first x l y : increasing (x :: l) -> y ∈ x :: l -> x <= y.
Proof.
  intros [_ Hx]%StronglySorted_inv [->|Hy]%elem_of_cons; [lia|]. apply (proj1 (Forall_forall _ _) Hx) in Hy. lia.
Qed.

(** ** Chunks *)
Lemma chunks_loop_ok {A} fuel n (l : list A) : (length l <= fuel)%nat ->
  concat (chunks_loop fuel (S n) l) = l /\ Forall (fun c => c <> []) (chunks_loop fuel (S n) l).
Proof.
  revert l. induction fuel as [|fuel IH]; intros l Hl.
  - destruct l; [by split|cbn in Hl; lia].
  - destruct l as [|x l]; [by split|]. cbn [chunks_loop]. destruct (IH (drop (S n) (x :: l))) as [E F].
    { rewrite length_drop. cbn in Hl |- *. lia. }
    split; [|by constructor]. cbn [concat]. rewrite E. apply take_drop.
Qed.

Lemma chunks_ok {A} (l : list A) :
  concat (chunks NUM_OF_INDICES_IN_SHARD l) = l /\ Forall (fun c => c <> []) (chunks NUM_OF_INDICES_IN_SHARD l).
Proof. by apply chunks_loop_ok. Qed.

(** ** Ends of sorted lists *)
Lemma head_min {A} (R : relation A) (l : list A) x : (forall a b, R a b -> ~ R b a) -> StronglySorted R l ->
  x ∈ l -> (forall y, y ∈ l -> y = x \/ R x y) -> head l = Some x.
Proof.
  intros HR Hs Hx Hmin. destruct l as [|y l]; [by apply not_elem_of_nil in Hx|]. cbn. f_equal.
  destruct (Hmin y (list_elem_of_here _ _)) as [|Hxy]; [done|]. apply elem_of_cons in Hx as [->|Hx]; [done|].
  apply StronglySorted_inv in Hs as [_ Hy]. apply (proj1 (Forall_forall _ _) Hy) in Hx. by destruct (HR _ _ Hxy).
Qed.

Lemma last_max {A} (R : relation A) (l : list A) x : (forall a b, R a b -> ~ R b a) -> StronglySorted R l ->
  x ∈ l -> (forall y, y ∈ l -> y = x \/ R y x) -> last l = Some x.
Proof.
  intros HR Hs Hx Hmax. induction l as [|y l _] using rev_ind; [by apply not_elem_of_nil in Hx|]. rewrite last_snoc. f_equal.
  destruct (Hmax y) as [|Hyx]; [set_solver|done|]. apply elem_of_app in Hx as [Hx|Hx%list_elem_of_singleton]; [|done].
  assert (Hxy : R x y).
  { clear -Hs Hx. induction l as [|z l IH]; [by apply not_elem_of_nil in Hx|]. cbn in Hs. apply StronglySorted_inv in Hs as [Hs Hz].
    apply elem_of_cons in Hx as [->|Hx]; [|by apply IH]. apply Forall_app in Hz as [_ Hz]. by apply Forall_inv in Hz. }
  by destruct (HR _ _ Hxy).
Qed.

Section Index.
Context {K : Type} `{Countable K} (kle : relation K) `{!RelDecision kle} `{!TotalOrder kle}.
Context {IL : Type} `{!EliasFano IL} `{!EliasFanoOk IL}.
Abbreviation table := (gmap (K * Z) IL).
Abbreviation shard_le := (lex_le kle Z.le).
Implicit Types (h : table) (S : list (Z * IL)).

(** The shards of a key, by their highest transition. *)
Definition shards_for (k : K) h S : Prop :=
  StronglySorted (fun x y => x.1 < y.1) S /\ forall id il, (id, il) ∈ S <-> h !! (k, id) = Some il.

Definition hist S : list Z := concat ((fun s => ef_iter s.2) <$> S).

(** A shard that is not the last one. *)
Definition full_shard (s : Z * IL) : Prop := last (ef_iter s.2) = Some s.1.

(** [h] represents the list [l] of transitions for the key. *)
Definition index_ok (k : K) h (l : list Z) : Prop :=
  increasing l /\ Forall (fun i => 0 <= i < u64_max) l /\
  exists S, shards_for k h S /\ hist S = l /\
    (S = [] \/ exists S0 il, S = S0 ++ [(u64_max, il)] /\ Forall full_shard S0 /\ ef_iter il <> []).

Lemma shards_unique k h S S' : shards_for k h S -> shards_for k h S' -> S = S'.
Proof.
  intros [H1 E1] [H2 E2]. apply (StronglySorted_unique_strong (fun x y => x.1 < y.1)).
  - intros x y _ _. lia.
  - done.
  - done.
  - assert (ND : forall S, StronglySorted (fun x y : Z * IL => x.1 < y.1) S -> NoDup S).
    { induction 1 as [|x l _ IH Hx]; constructor; [|done]. intros Hin. apply (proj1 (Forall_forall _ _) Hx) in Hin. lia. }
    apply NoDup_Permutation; [by apply ND..|]. intros [id il]. by rewrite E1, E2.
Qed.

Lemma hist_app S S' : hist (S ++ S') = hist S ++ hist S'.
Proof. unfold hist. by rewrite fmap_app, concat_app. Qed.

(** *** Writing a shard above the others *)
Lemma shards_snoc k h S id il : shards_for k h S -> Forall (fun s => s.1 < id) S ->
  shards_for k (<[(k, id) := il]> h) (S ++ [(id, il)]).
Proof.
  intros [Hs Hin] Hid. split.
  - clear Hin. induction Hs as [|x l Hs IH Hx]; cbn; [repeat constructor|]. apply Forall_cons in Hid as [Hx' Hid].
    constructor; [by apply IH|]. apply Forall_app. split; [done|]. by apply Forall_singleton.
  - intros id' il'. rewrite elem_of_app, list_elem_of_singleton. split.
    + intros [Hin'|[= -> ->]]; [|by rewrite lookup_insert_eq]. rewrite lookup_insert_ne; [by apply Hin|].
      intros [= <-]. apply (proj1 (Forall_forall _ _) Hid) in Hin'. cbn in Hin'. lia.
    + destruct (decide (id' = id)) as [->|Hne].
      * rewrite lookup_insert_eq. intros [= ->]. by right.
      * rewrite lookup_insert_ne by congruence. left. by apply Hin.
Qed.

Lemma shards_drop_last k h S id il : shards_for k h (S ++ [(id, il)]) -> shards_for k (delete (k, id) h) S.
Proof.
  intros [Hs Hin]. assert (Hlt : forall x, x ∈ S -> x.1 < id).
  { clear Hin. intros x Hx. induction S as [|y S IH]; [by apply not_elem_of_nil in Hx|]. cbn in Hs.
    apply StronglySorted_inv in Hs as [Hs Hy]. apply elem_of_cons in Hx as [->|Hx]; [|by apply IH].
    apply Forall_app in Hy as [_ Hy]. apply Forall_inv in Hy. exact Hy. }
  split.
  - clear Hin Hlt. induction S as [|y S IH]; [constructor|]. cbn in Hs. apply StronglySorted_inv in Hs as [Hs Hy].
    apply Forall_app in Hy as [Hy _]. constructor; [by apply IH|done].
  - intros id' il'. destruct (decide (id' = id)) as [->|Hne].
    + rewrite lookup_delete_eq. split; [|done]. intros Hx%Hlt. cbn in Hx. lia.
    + rewrite lookup_delete_ne by congruence. rewrite <- Hin, elem_of_app, list_elem_of_singleton. naive_solver.
Qed.

Lemma full_member S s : Forall full_shard S -> s ∈ S -> s.1 ∈ hist S.
Proof.
  intros Hf Hs. apply elem_of_concat. exists (ef_iter s.2). split; [apply list_elem_of_fmap; eauto|].
  apply last_elem. by apply (proj1 (Forall_forall _ _) Hf).
Qed.

(** *** Insertion *)
Lemma put_chunks_ok k cs h S : cs <> [] -> Forall (fun c => c <> []) cs ->
  shards_for k h S -> Forall full_shard S -> increasing (hist S ++ concat cs) ->
  Forall (fun i => 0 <= i < u64_max) (hist S ++ concat cs) ->
  exists h', put_chunks k cs h = Some h' /\ index_ok k h' (hist S ++ concat cs) /\
    forall k' id, k' <> k -> h' !! (k', id) = h !! (k', id).
Proof.
  revert h S. induction cs as [|c cs IH]; intros h S Hne Hcs HS Hfull Hinc Hbnd; [done|]. clear Hne.
  apply Forall_cons in Hcs as [Hc Hcs]. cbn [concat] in Hinc, Hbnd.
  assert (Hsc : StronglySorted Z.le c).
  { apply increasing_app in Hinc as (_ & Hinc & _). apply increasing_app in Hinc as (Hinc & _). by apply increasing_sorted. }
  destruct (ef_from_ints c Hc Hsc) as (il & Eil & Hil).
  assert (Hlt : forall x, x ∈ c -> Forall (fun s => s.1 < x) S).
  { intros x Hx. apply Forall_forall. intros s Hs. apply increasing_app in Hinc as (_ & _ & Hinc). apply Hinc.
    - by apply full_member.
    - apply elem_of_app. by left. }
  destruct cs as [|c2 cs].
  - cbn [put_chunks concat] in *. rewrite app_nil_r in *. rewrite Eil. eexists. split; [done|]. split.
    + split; [done|]. split; [done|]. exists (S ++ [(u64_max, il)]). split; [|split].
      * apply shards_snoc; [done|]. apply Forall_forall. intros s Hs. apply Forall_app in Hbnd as [Hbnd _].
        pose proof (full_member S s Hfull Hs) as Hin.
        apply (proj1 (Forall_forall _ _) Hbnd) in Hin. lia.
      * rewrite hist_app. unfold hist at 2. cbn. by rewrite Hil, app_nil_r.
      * right. exists S, il. by rewrite Hil.
    + intros k' id Hk. by rewrite lookup_insert_ne by congruence.
  - cbn [put_chunks]. destruct (last c) as [x|] eqn:Ex; [|by apply last_None in Ex]. cbn [mbind option_bind]. rewrite Eil.
    cbn [mbind option_bind].
    assert (Eh : hist (S ++ [(x, il)]) = hist S ++ c) by (rewrite hist_app; unfold hist at 2; cbn; by rewrite Hil, app_nil_r).
    destruct (IH (<[(k, x) := il]> h) (S ++ [(x, il)])) as (h' & E & Hok & Hother).
    + done.
    + done.
    + apply shards_snoc; [done|]. apply Hlt. by apply last_elem.
    + apply Forall_app. split; [done|]. apply Forall_singleton. unfold full_shard. cbn. by rewrite Hil.
    + by rewrite Eh, <- app_assoc.
    + by rewrite Eh, <- app_assoc.
    + exists h'. split; [done|]. split; [by rewrite Eh, <- app_assoc in Hok|]. intros k' id Hk. rewrite Hother by done.
      by rewrite lookup_insert_ne by congruence.
Qed.


Lemma index_ok_nil k h : shards_for k h [] -> index_ok k h [].
Proof. intros HS. split; [constructor|]. split; [constructor|]. exists []. by split; [|split; [|left]]. Qed.

Lemma insert_indices_ok k h l new : index_ok k h l -> increasing (l ++ new) -> Forall (fun i => 0 <= i < u64_max) new ->
  exists h', insert_indices k new h = Some h' /\ index_ok k h' (l ++ new) /\
    forall k' id, k' <> k -> h' !! (k', id) = h !! (k', id).
Proof.
  intros (Hl & Hb & S & HS & HE & Hshape) Hinc Hnew.
  assert (Hbnd : Forall (fun i => 0 <= i < u64_max) (l ++ new)) by by apply Forall_app.
  unfold insert_indices, take_last_shard.
  destruct Hshape as [->|(S0 & il & -> & Hfull & Hne)].
  - assert (l = []) as -> by done. destruct (h !! (k, u64_max)) eqn:E; [by apply HS, not_elem_of_nil in E|].
    cbn [app]. destruct (chunks_ok new) as [Ec Hc]. destruct new as [|x new]; [exists h; split; [done|]; split; [by apply index_ok_nil|done]|].
    destruct (put_chunks_ok k (chunks NUM_OF_INDICES_IN_SHARD (x :: new)) h []) as (h' & E' & Hok & Ho);
      [by intros Hn; rewrite Hn in Ec|done|done|constructor|by rewrite Ec..|].
    exists h'. by rewrite Ec in Hok.
  - assert (E : h !! (k, u64_max) = Some il) by (apply HS; set_solver). rewrite E.
    rewrite hist_app in HE. unfold hist at 2 in HE. cbn in HE. rewrite app_nil_r in HE. subst l.
    destruct (chunks_ok (ef_iter il ++ new)) as [Ec Hc].
    destruct (put_chunks_ok k (chunks NUM_OF_INDICES_IN_SHARD (ef_iter il ++ new)) (delete (k, u64_max) h) S0) as (h' & E' & Hok & Ho).
    + intros Hn. rewrite Hn in Ec. cbn in Ec. symmetry in Ec. by apply app_nil in Ec as [].
    + done.
    + by eapply shards_drop_last.
    + done.
    + by rewrite Ec, app_assoc.
    + by rewrite Ec, app_assoc.
    + exists h'. split; [done|]. split; [by rewrite Ec, app_assoc in Hok|]. intros k' id Hk. rewrite Ho by done.
      by rewrite lookup_delete_ne by congruence.
Qed.

(** *** Positions of a cursor *)
Lemma entries_asym (a b : (K * Z) * IL) : strict shard_le a.1 b.1 -> ~ strict shard_le b.1 a.1.
Proof. intros [H1 H2] [H3 H4]. done. Qed.

Lemma seek_last h k il : h !! (k, u64_max) = il ->
  seek_exact (k, u64_max) (entries shard_le h) = (fun l => ((k, u64_max), l)) <$> il.
Proof.
  intros E. unfold seek_exact. destruct il as [il|]; cbn.
  - apply (head_min (fun a b => strict shard_le a.1 b.1)); [apply entries_asym|apply StronglySorted_filter, entries_strict; apply _| |].
    + apply list_elem_of_filter. split; [done|]. by apply elem_of_entries.
    + intros [key il'] [Hk Hin]%list_elem_of_filter. cbn in Hk. subst key. apply elem_of_entries in Hin. left. congruence.
  - rewrite head_None. apply filter_none. apply Forall_forall. intros [key il'] Hin%elem_of_entries. cbn. congruence.
Qed.

Lemma shard_le_same (k : K) x y : shard_le (k, x) (k, y) <-> x <= y.
Proof. unfold lex_le, strict. cbn. split; [intros [[]|[_ ]]; tauto|by right]. Qed.

Lemma shard_lt_same (k : K) x y : strict shard_le (k, x) (k, y) <-> x < y.
Proof. unfold strict. rewrite !shard_le_same. lia. Qed.

(** The row before the shards at or above [id']. *)
Lemma prev_shard k h S id' : shards_for k h S -> Forall (fun s => s.1 < id') S ->
  match last S with
  | Some (id, il) => prev_row shard_le (k, id') (entries shard_le h) = Some ((k, id), il)
  | None => forall r, prev_row shard_le (k, id') (entries shard_le h) = Some r -> r.1.1 <> k
  end.
Proof.
  intros [Hs Hin] Hlt. unfold prev_row. destruct (last S) as [[id il]|] eqn:El.
  - assert (Hmem : (id, il) ∈ S) by by apply last_elem.
    apply (last_max (fun a b => strict shard_le a.1 b.1)); [apply entries_asym|apply StronglySorted_filter, entries_strict; apply _| |].
    + apply list_elem_of_filter. split; [|by apply elem_of_entries, Hin]. cbn. apply shard_lt_same.
      by apply (proj1 (Forall_forall _ _) Hlt) in Hmem.
    + intros [[k2 x] il2] [Hx Hin2]%list_elem_of_filter. apply elem_of_entries in Hin2. cbn in Hx |- *.
      destruct (decide (k2 = k)) as [->|Hne].
      * apply Hin in Hin2. apply last_Some in El as [S0 ->]. apply elem_of_app in Hin2 as [Hin2|[= -> ->]%list_elem_of_singleton]; [|by left].
        right. apply shard_lt_same. clear -Hs Hin2. induction S0 as [|z S0 IH]; [by apply not_elem_of_nil in Hin2|].
        cbn in Hs. apply StronglySorted_inv in Hs as [Hs Hz]. apply elem_of_cons in Hin2 as [<-|Hin2]; [|by apply IH].
        apply Forall_app in Hz as [_ Hz]. apply Forall_inv in Hz. exact Hz.
      * right. destruct Hx as [[Hx|[Hx _]] Hn]; [|done]. cbn in Hx. split; [by left|].
        intros [Hy|[Hy _]]; [|cbn in Hy; congruence]. cbn in Hy. destruct Hx as [_ Hx], Hy as [Hy _]. done.
  - apply last_None in El as ->. intros [[k2 x] il2] Hr%last_elem. apply list_elem_of_filter in Hr as [_ Hr].
    apply elem_of_entries in Hr. cbn. intros ->. by apply Hin, not_elem_of_nil in Hr.
Qed.

(** *** Unwinding *)
Lemma shards_lt_last k h S id il : shards_for k h (S ++ [(id, il)]) -> Forall (fun s => s.1 < id) S.
Proof.
  intros [Hs _]. apply Forall_forall. intros x Hx. induction S as [|y S IH]; [by apply not_elem_of_nil in Hx|].
  cbn in Hs. apply StronglySorted_inv in Hs as [Hs Hy]. apply elem_of_cons in Hx as [->|Hx]; [|by apply IH].
  apply Forall_app in Hy as [_ Hy]. apply Forall_inv in Hy. exact Hy.
Qed.

Lemma unwind_loop_other fuel k t item h : (forall r, item = Some r -> r.1.1 <> k) ->
  unwind_shards_loop kle fuel k t item h = Ok ([], h).
Proof.
  intros Hr. destruct fuel, item as [[[key x] il]|]; cbn; try done; (rewrite decide_True; [done|]); by apply (Hr _ eq_refl).
Qed.

Lemma full_nonempty S s : Forall full_shard S -> s ∈ S -> ef_iter s.2 <> [].
Proof. intros Hf Hs E. apply (proj1 (Forall_forall _ _) Hf) in Hs. unfold full_shard in Hs. by rewrite E in Hs. Qed.

(** The loop stands on the last shard of the key, which is full or has the key [u64::MAX]. *)
Lemma unwind_shards_ok k t fuel : 0 <= t <= u64_max -> forall S id il h, (length S < fuel)%nat ->
  shards_for k h (S ++ [(id, il)]) -> Forall full_shard S -> ef_iter il <> [] -> id = u64_max \/ full_shard (id, il) ->
  increasing (hist (S ++ [(id, il)])) ->
  exists S' part h', unwind_shards_loop kle fuel k t (Some ((k, id), il)) h = Ok (part, h') /\
    shards_for k h' S' /\ Forall full_shard S' /\ hist S' ++ part = filter (fun i => i < t) (hist (S ++ [(id, il)])) /\
    (part = [] -> S' = []) /\ forall k' x, k' <> k -> h' !! (k', x) = h !! (k', x).
Proof.
  intros Ht. induction fuel as [|fuel IH]; intros S id il h Hfuel HS Hfull Hne Hid Hinc; [lia|].
  pose proof (shards_lt_last _ _ _ _ _ HS) as Hlt. pose proof (shards_drop_last _ _ _ _ _ HS) as HS1.
  assert (Hother : forall k' x, k' <> k -> delete (k, id) h !! (k', x) = h !! (k', x)) by (intros; by rewrite lookup_delete_ne by congruence).
  cbn [unwind_shards_loop]. rewrite decide_False by tauto.
  rewrite hist_app in *. assert (Eil : hist [(id, il)] = ef_iter il) by apply app_nil_r. rewrite Eil in *.
  apply increasing_app in Hinc as (Hi1 & Hi2 & Hi3). destruct (ef_iter il) as [|x l] eqn:El; [done|]. rewrite filter_app.
  destruct (Z.leb_spec t x) as [Hx|Hx].
  - assert (filter (fun i => i < t) (x :: l) = []) as ->.
    { apply filter_none, Forall_forall. intros y Hy. apply (increasing_first _ _ y) in Hi2; [lia|done]. }
    rewrite app_nil_r. pose proof (prev_shard k _ S id HS1 Hlt) as Hprev.
    destruct (last S) as [[id0 il0]|] eqn:Elast.
    + apply last_Some in Elast as [S0 ->]. rewrite Hprev. apply Forall_app in Hfull as [Hf0 Hf1]. apply Forall_inv in Hf1.
      destruct (IH S0 id0 il0 (delete (k, id) h)) as (S' & part & h' & E & A1 & A2 & A3 & A4 & A5); try done.
      * rewrite length_app in Hfuel. cbn in Hfuel. lia.
      * intros E0. unfold full_shard in Hf1. cbn in Hf1. by rewrite E0 in Hf1.
      * by right.
      * exists S', part, h'. repeat split; try done; try apply A1. intros k' y Hk. by rewrite A5, Hother.
    + apply last_None in Elast as ->. rewrite unwind_loop_other by done. by exists [], [], (delete (k, id) h).
  - assert (filter (fun i => i < t) (hist S) = hist S) as ->.
    { apply filter_all, Forall_forall. intros y Hy. assert (y < x) by (apply Hi3; [done|apply list_elem_of_here]). lia. }
    destruct (Z.leb_spec t id) as [Hidt|Hidt].
    + exists S, (filter (fun i => i < t) (x :: l)), (delete (k, id) h). rewrite take_while_filter by done.
      split; [done|]. split; [done|]. split; [done|]. split; [done|]. split; [|done]. rewrite filter_cons_True by done. done.
    + exists S, (x :: l), (delete (k, id) h). split; [done|]. split; [done|]. split; [done|]. split; [|done].
      f_equal. symmetry. apply filter_all, Forall_forall. intros y Hy. destruct Hid as [->|Hid]; [lia|].
      unfold full_shard in Hid. cbn in Hid. rewrite El in Hid. apply (increasing_last _ _ y) in Hid; [lia|done..].
Qed.

(** Unwinding an index keeps exactly the transitions before [t]. *)
Lemma shards_size k h S : shards_for k h S -> (length S <= size h)%nat.
Proof.
  intros [Hs Hin]. assert (NoDup S).
  { clear Hin. induction Hs as [|x l _ IH Hx]; constructor; [|done]. intros Hin. apply (proj1 (Forall_forall _ _) Hx) in Hin. lia. }
  rewrite <- (length_fmap (fun s => ((k, s.1), s.2)) S), <- length_map_to_list. apply submseteq_length, NoDup_submseteq.
  - apply NoDup_fmap_2; [|done]. intros [] [] [= -> ->]. done.
  - intros [[k2 x] il]. rewrite list_elem_of_fmap, elem_of_map_to_list. intros ([id il'] & [= -> -> ->] & Hm). by apply Hin.
Qed.

Lemma unwind_index_ok k t h l : 0 <= t <= u64_max -> index_ok k h l ->
  exists h', unwind_index kle k t h = Ok h' /\ index_ok k h' (filter (fun i => i < t) l) /\
    forall k' id, k' <> k -> h' !! (k', id) = h !! (k', id).
Proof.
  intros Ht (Hl & Hb & S & HS & HE & Hshape). unfold unwind_index, unwind_history_shards.
  assert (Hl' : increasing (filter (fun i => i < t) l)) by by apply StronglySorted_filter.
  assert (Hb' : Forall (fun i => 0 <= i < u64_max) (filter (fun i => i < t) l)).
  { apply Forall_forall. intros x [_ Hx]%list_elem_of_filter. by apply (proj1 (Forall_forall _ _) Hb). }
  destruct Hshape as [->|(S0 & il & -> & Hfull & Hne)].
  - assert (l = []) as -> by done. rewrite (seek_last h k None).
    + cbn. exists h. split; [done|]. split; [by apply index_ok_nil|done].
    + destruct (h !! (k, u64_max)) eqn:E; [by apply HS, not_elem_of_nil in E|done].
  - rewrite (seek_last h k (Some il)) by (apply HS; set_solver). cbn [fmap option_fmap option_map].
    pose proof (shards_size _ _ _ HS) as Hsz. rewrite length_app in Hsz. cbn in Hsz.
    destruct (unwind_shards_ok k t (Datatypes.S (size h)) Ht S0 u64_max il h) as (S' & part & h' & E & A1 & A2 & A3 & A4 & A5); try done.
    { lia. } { by left. } { by rewrite HE. }
    rewrite E. cbn [mbind outcome_bind]. rewrite HE in A3. destruct part as [|x part].
    + exists h'. split; [done|]. rewrite (A4 eq_refl), app_nil_r in A3. rewrite <- A3. split; [|done].
      rewrite (A4 eq_refl) in A1. by apply index_ok_nil.
    + destruct (ef_from_ints (x :: part)) as (il' & Eil & Hil); [done| |].
      { rewrite <- A3 in Hl'. apply increasing_app in Hl' as (_ & Hl' & _). by apply increasing_sorted. }
      rewrite Eil. eexists. split; [done|]. split.
      * split; [done|]. split; [done|]. exists (S' ++ [(u64_max, il')]). split; [|split].
        -- apply shards_snoc; [done|]. apply Forall_forall. intros s Hs. apply (full_member _ _ A2) in Hs.
           rewrite <- A3 in Hb'. apply Forall_app in Hb' as [Hb' _]. apply (proj1 (Forall_forall _ _) Hb') in Hs. lia.
        -- rewrite hist_app. unfold hist at 2. cbn. rewrite app_nil_r, Hil. exact A3.
        -- right. exists S', il'. by rewrite Hil.
      * intros k' id Hk. rewrite lookup_insert_ne by congruence. by apply A5.
Qed.

(** *** Lookups *)
Lemma split_at_transition t S : Exists (fun s => t <= s.1) S ->
  exists A x B, S = A ++ x :: B /\ Forall (fun s => s.1 < t) A /\ t <= x.1.
Proof.
  induction 1 as [x S Hx|y S _ (A & x & B & -> & HA & Hx)]; [by exists [], x, S|].
  destruct (Z.le_gt_cases t y.1); [by exists [], y, (A ++ x :: B)|].
  exists (y :: A), x, B. split; [done|]. split; [by constructor|done].
Qed.

Lemma seek_shard k t h A id il B : shards_for k h (A ++ (id, il) :: B) -> Forall (fun s => s.1 < t) A -> t <= id ->
  seek shard_le (k, t) (entries shard_le h) = Some ((k, id), il).
Proof.
  intros [Hs Hin] HA Hid. unfold seek, rows_from.
  apply (head_min (fun a b => strict shard_le a.1 b.1)); [apply entries_asym|apply StronglySorted_filter, entries_strict; apply _| |].
  - apply list_elem_of_filter. split; [by apply shard_le_same|]. apply elem_of_entries, Hin. set_solver.
  - intros [[k2 x] il2] [Hx Hin2]%list_elem_of_filter. apply elem_of_entries in Hin2. cbn in Hx |- *.
    destruct (decide (k2 = k)) as [->|Hne].
    + apply shard_le_same in Hx. apply Hin in Hin2. apply elem_of_app in Hin2 as [Hin2|[[= -> ->]|Hin2]%elem_of_cons].
      * apply (proj1 (Forall_forall _ _) HA) in Hin2. cbn in Hin2. lia.
      * by left.
      * right. apply shard_lt_same. clear -Hs Hin2. induction A as [|z A IH]; cbn in Hs; apply StronglySorted_inv in Hs as [Hs Hz].
        -- by apply (proj1 (Forall_forall _ _) Hz) in Hin2.
        -- by apply IH.
    + right. destruct Hx as [Hx|[Hx _]]; [|by destruct Hne]. cbn in Hx. split; [by left|].
      intros [Hy|[Hy _]]; [|cbn in Hy; congruence]. cbn in Hy. destruct Hx as [_ Hx], Hy as [Hy _]. done.
Qed.

Lemma head_app_some {A} (l k : list A) x : head l = Some x -> head (l ++ k) = Some x.
Proof. by destruct l. Qed.

Lemma history_lookup_ok k t h l : 0 <= t <= u64_max -> index_ok k h l ->
  history_lookup kle k t h = match l with [] => None | _ => Some (head (filter (fun i => t <= i) l)) end.
Proof.
  intros Ht (Hl & Hb & S & HS & HE & Hshape). unfold history_lookup.
  destruct Hshape as [->|(S0 & il0 & -> & Hfull & Hne)].
  - assert (l = []) as -> by done. destruct (seek _ _ _) as [[[k2 x] il]|] eqn:E; [|done].
    rewrite decide_False; [done|]. intros ->. unfold seek in E. apply head_Some_elem_of in E.
    apply list_elem_of_filter in E as [_ E]. apply elem_of_entries in E. by apply HS, not_elem_of_nil in E.
  - destruct (split_at_transition t (S0 ++ [(u64_max, il0)])) as (A & [id il] & B & ES & HA & Hid).
    { apply Exists_app. right. constructor. cbn. lia. }
    rewrite ES in HS, HE. rewrite (seek_shard k t h A id il B) by done. rewrite decide_True by done.
    assert (Hlne : l <> []).
    { rewrite <- HE, <- ES, hist_app. unfold hist at 2. cbn. rewrite app_nil_r. intros [_ E]%app_nil. done. }
    destruct l as [|y l'] eqn:El; [done|]. rewrite <- El in *. clear El y l' Hlne. f_equal. rewrite ef_successor.
    rewrite hist_app in HE. change (hist ((id, il) :: B)) with (ef_iter il ++ hist B) in HE. rewrite <- HE, !filter_app.
    assert (HfA : Forall full_shard A /\ (B = [] \/ full_shard (id, il))).
    { destruct B as [|b B] using rev_ind.
      - apply app_inj_tail in ES as [-> _]. split; [done|by left].
      - clear IHB. rewrite app_comm_cons, app_assoc in ES. apply app_inj_tail in ES as [-> _].
        apply Forall_app in Hfull as [H1 H2]. apply Forall_inv in H2. split; [done|by right]. }
    destruct HfA as [HfA HB]. assert (filter (fun i => t <= i) (hist A) = []) as ->.
    { apply filter_none, Forall_forall. intros y (it & (s & -> & Hs)%list_elem_of_fmap & Hy)%elem_of_concat.
      pose proof (proj1 (Forall_forall _ _) HfA _ Hs) as Hf. pose proof (proj1 (Forall_forall _ _) HA _ Hs) as Hlt. cbn in Hlt.
      assert (increasing (ef_iter s.2)) as Hinc.
      { rewrite <- HE in Hl. apply increasing_app in Hl as (Hl & _). clear -Hl Hs. induction A as [|z A IH]; [by apply not_elem_of_nil in Hs|].
        change (hist (z :: A)) with (ef_iter z.2 ++ hist A) in Hl. apply increasing_app in Hl as (H1 & H2 & _).
        apply elem_of_cons in Hs as [->|Hs]; [done|by apply IH]. }
      apply (increasing_last _ _ y) in Hf; [lia|done..]. }
    cbn [app]. destruct HB as [->|HB]; [by rewrite app_nil_r|].
    destruct (filter (fun i => t <= i) (ef_iter il)) as [|z zs] eqn:Ef; [|done]. exfalso.
    apply last_elem in HB. assert (Hm : id ∈ filter (fun i => t <= i) (ef_iter il)) by (apply list_elem_of_filter; by split).
    rewrite Ef in Hm. by apply not_elem_of_nil in Hm.
Qed.
End Index.

Section Represents.
Context {K : Type} `{Countable K} (kle : relation K) `{!RelDecision kle} `{!TotalOrder kle}.
Context {IL : Type} `{!EliasFano IL} `{!EliasFanoOk IL}.

(** The table represents a list of transitions for every key. *)
Definition represents (h : gmap (K * Z) IL) (L : K -> list Z) : Prop := forall k, index_ok k h (L k).

Lemma represents_ext h (L L' : K -> list Z) : (forall k, L k = L' k) -> represents h L -> represents h L'.
Proof. intros E Hh k. rewrite <- E. apply Hh. Qed.

Definition assoc {V} (l : list (K * V)) (k : K) : option V := list_to_map (M := gmap K V) l !! k.

Lemma index_ok_ext (k : K) (h h' : gmap (K * Z) IL) l : (forall id, h' !! (k, id) = h !! (k, id)) -> index_ok k h l -> index_ok k h' l.
Proof.
  intros E (H1 & H2 & S & [Hs Hin] & HE & Hsh). split; [done|]. split; [done|]. exists S. split; [|done].
  split; [done|]. intros id il. by rewrite E, Hin.
Qed.

Lemma assoc_cons {V} (l : list (K * V)) k v k' : assoc ((k, v) :: l) k' = if decide (k' = k) then Some v else assoc l k'.
Proof. unfold assoc. cbn. case_decide; subst; [by rewrite lookup_insert_eq|by rewrite lookup_insert_ne by congruence]. Qed.

Lemma assoc_not_in {V} (l : list (K * V)) k : k ∉ l.*1 -> assoc l k = None.
Proof. apply not_elem_of_list_to_map_1. Qed.

Lemma insert_represents ts h L : represents h L -> NoDup ts.*1 ->
  (forall k new, (k, new) ∈ ts -> increasing (L k ++ new) /\ Forall (fun i => 0 <= i < u64_max) new) ->
  exists h', insert_history_index ts h = Some h' /\ represents h' (fun k => L k ++ default [] (assoc ts k)).
Proof.
  revert h L. induction ts as [|[k new] ts IH]; intros h L HL Hnd Hts.
  - exists h. split; [done|]. intros k. cbn. rewrite app_nil_r. apply HL.
  - cbn in Hnd. apply NoDup_cons in Hnd as [Hk Hnd]. destruct (Hts k new (list_elem_of_here _ _)) as [Hinc Hb].
    destruct (insert_indices_ok kle k h (L k) new (HL k) Hinc Hb) as (h1 & E1 & Hok & Ho).
    destruct (IH h1 (fun k' => if decide (k' = k) then L k ++ new else L k')) as (h' & E' & HL').
    + intros k'. case_decide as Ek; [by subst|]. apply (index_ok_ext k' h); [intros; by apply Ho|apply HL].
    + done.
    + intros k' new' Hin. rewrite decide_False; [by apply Hts, list_elem_of_further|]. intros ->. apply Hk, list_elem_of_fmap. by exists (k, new').
    + exists h'. cbn [insert_history_index]. rewrite E1. split; [exact E'|]. intros k'. specialize (HL' k'). cbn beta in HL'.
      rewrite assoc_cons. case_decide as Ek; [|exact HL']. subst k'. rewrite assoc_not_in in HL' by done. cbn in HL' |- *.
      by rewrite app_nil_r in HL'.
Qed.

Lemma unwind_represents ts h L : represents h L -> NoDup ts.*1 -> Forall (fun x => 0 <= x.2 <= u64_max) ts ->
  exists h', unwind_history_index kle ts h = Ok h' /\
    represents h' (fun k => match assoc ts k with Some t => filter (fun i => i < t) (L k) | None => L k end).
Proof.
  revert h L. induction ts as [|[k t] ts IH]; intros h L HL Hnd Hts.
  - exists h. split; [done|]. intros k. apply HL.
  - cbn in Hnd. apply NoDup_cons in Hnd as [Hk Hnd]. apply Forall_cons in Hts as [Ht Hts].
    destruct (unwind_index_ok kle k t h (L k) Ht (HL k)) as (h1 & E1 & Hok & Ho).
    destruct (IH h1 (fun k' => if decide (k' = k) then filter (fun i => i < t) (L k) else L k')) as (h' & E' & HL').
    + intros k'. case_decide as Ek; [by subst|]. apply (index_ok_ext k' h); [intros; by apply Ho|apply HL].
    + done.
    + done.
    + exists h'. cbn [unwind_history_index]. rewrite E1. split; [exact E'|]. intros k'. specialize (HL' k'). cbn beta in HL'.
      rewrite assoc_cons. case_decide as Ek; [|exact HL']. subst k'. by rewrite assoc_not_in in HL' by done.
Qed.
End Represents.

(** ** DUPSORT rows *)
Section Dup.
Context {K S W : Type} `{Countable K, Countable S, Countable W}.
Context (kle : relation K) (sle : relation S) (wle : relation W).
Context `{!RelDecision kle, !RelDecision sle, !RelDecision wle, !TotalOrder kle, !TotalOrder sle, !TotalOrder wle}.
Abbreviation row_le := (lex_le kle (lex_le sle wle)).
Implicit Types (t : gset (K * (S * W))).

Lemma elem_of_dup_rows t r : r ∈ dup_rows kle sle wle t <-> r ∈ t.
Proof. unfold dup_rows. by rewrite merge_sort_Permutation, elem_of_elements. Qed.

Lemma dup_rows_strict t : StronglySorted (strict row_le) (dup_rows kle sle wle t).
Proof.
  assert (Hs : StronglySorted row_le (dup_rows kle sle wle t)) by (apply StronglySorted_merge_sort; apply _).
  assert (Hn : NoDup (dup_rows kle sle wle t)) by (unfold dup_rows; rewrite merge_sort_Permutation; apply NoDup_elements).
  induction Hs as [|x l Hs IH Hx]; constructor.
  - apply IH. by apply NoDup_cons in Hn as [].
  - apply Forall_forall. intros y Hy. split; [by apply (proj1 (Forall_forall _ _) Hx)|]. intros Hyx.
    apply NoDup_cons in Hn as [Hn _]. apply Hn. rewrite (anti_symm row_le x y); [done| |done].
    by apply (proj1 (Forall_forall _ _) Hx).
Qed.

(** The value of a subkey that has one. *)
Lemma seek_subkey_ok k s w t : (k, (s, w)) ∈ t -> (forall w', (k, (s, w')) ∈ t -> w' = w) ->
  seek_by_key_subkey kle sle wle k s t = Some (s, w).
Proof.
  intros Hin Huniq. unfold seek_by_key_subkey.
  rewrite (head_min (strict row_le) _ (k, (s, w))); [done|by intros a b [] []|by apply StronglySorted_filter, dup_rows_strict| |].
  - apply list_elem_of_filter. split; [|by apply elem_of_dup_rows]. cbn. split; [done|apply (reflexivity (R := sle))].
  - intros [k' [s' w']] [[Hk Hs] Hin']%list_elem_of_filter. apply elem_of_dup_rows in Hin'. cbn in Hk, Hs. subst k'.
    destruct (decide (s' = s)) as [->|Hne]; [left; by rewrite (Huniq w' Hin')|]. right.
    assert (Hss : strict sle s s') by (split; [done|]; intros Hs'; apply Hne; by apply (anti_symm sle)).
    split; [right; split; [done|by left]|]. intros [[??]|[_ [Hb|[Hb _]]]]; cbn in *; [done| |by destruct Hne].
    destruct Hss as [? Hss], Hb. done.
Qed.

Lemma seek_subkey_in k s s' w t : seek_by_key_subkey kle sle wle k s t = Some (s', w) -> (k, (s', w)) ∈ t.
Proof.
  unfold seek_by_key_subkey. destruct (filter _ _) as [|[k' r] m] eqn:E; [done|]. intros [= ->].
  assert (Hin : (k', (s', w)) ∈ (k', (s', w)) :: m) by left. rewrite <- E in Hin.
  apply list_elem_of_filter in Hin as [[Hk _] Hin%elem_of_dup_rows]. cbn in Hk. by subst k'.
Qed.
End Dup.

(** ** From change sets to transitions *)
Section Touched.
Context {R K : Type} `{Countable K} (key : R -> K) (time : R -> Z).

(** The times at which the rows mention a key, in order. *)
Definition touched (rows : list R) (k : K) : list Z := time <$> filter (fun r => key r = k) rows.

Lemma touched_cons r rows k : touched (r :: rows) k = (if decide (key r = k) then [time r] else []) ++ touched rows k.
Proof. unfold touched. rewrite filter_cons. by case_decide. Qed.

Lemma fold_push rows (m : gmap K (list Z)) k :
  default [] (foldl (fun m r => push_transition m (key r) (time r)) m rows !! k) = default [] (m !! k) ++ touched rows k.
Proof.
  revert m. induction rows as [|r rows IH]; intros m; [by rewrite app_nil_r|]. cbn [foldl]. rewrite IH, touched_cons.
  unfold push_transition. case_decide as E; [subst; rewrite lookup_insert_eq; cbn; by rewrite <- app_assoc|].
  by rewrite lookup_insert_ne by done.
Qed.

Lemma fold_push_some rows (m : gmap K (list Z)) k l : (forall k l, m !! k = Some l -> l <> []) ->
  foldl (fun m r => push_transition m (key r) (time r)) m rows !! k = Some l -> l <> [].
Proof.
  revert m. induction rows as [|r rows IH]; intros m Hm; [apply Hm|]. cbn [foldl]. apply IH. intros k' l' E.
  unfold push_transition in E. destruct (decide (k' = key r)) as [->|].
  - rewrite lookup_insert_eq in E. injection E as <-. by destruct (default [] (m !! key r)).
  - rewrite lookup_insert_ne in E by done. by eapply Hm.
Qed.

Lemma fold_first rows (m : gmap K Z) k :
  foldl (fun m r => <[key r := time r]> m) m (reverse rows) !! k =
  match head (touched rows k) with Some t => Some t | None => m !! k end.
Proof.
  revert m. induction rows as [|r rows IH] using rev_ind; intros m; [done|]. rewrite reverse_snoc. cbn [foldl]. rewrite IH.
  unfold touched. rewrite filter_app, fmap_app, filter_cons, filter_nil.
  destruct (filter (fun r => key r = k) rows) as [|r' rs]; [|done]. cbn. case_decide as E; cbn.
  - subst. by rewrite lookup_insert_eq.
  - by rewrite lookup_insert_ne.
Qed.

Lemma elem_of_touched rows k t : t ∈ touched rows k <-> exists r, r ∈ rows /\ key r = k /\ time r = t.
Proof.
  unfold touched. rewrite list_elem_of_fmap. split.
  - intros (r & -> & [Hk Hr]%list_elem_of_filter). eauto.
  - intros (r & Hr & Hk & <-). exists r. split; [done|]. by apply list_elem_of_filter.
Qed.
End Touched.

Lemma assoc_entries {K V} `{Countable K} (kle : relation K) `{!RelDecision kle, !TotalOrder kle} (m : gmap K V) k :
  assoc (entries kle m) k = m !! k.
Proof.
  unfold assoc. destruct (m !! k) as [v|] eqn:E.
  - apply elem_of_list_to_map_1; [apply entries_NoDup_keys|by apply elem_of_entries].
  - apply not_elem_of_list_to_map_1. intros ([k' v] & -> & Hin)%list_elem_of_fmap. apply elem_of_entries in Hin. cbn in E. congruence.
Qed.

(** Inserting the changes of a run of rows and unwinding them. *)
Section Cycle.
Context {R K : Type} `{Countable K} (key : R -> K) (time : R -> Z).
Context (kle : relation K) `{!RelDecision kle} `{!TotalOrder kle}.
Context {IL : Type} `{!EliasFano IL} `{!EliasFanoOk IL}.
Context (rows : list R) (from : Z) (h : gmap (K * Z) IL) (L : K -> list Z).
Context (HL : represents h L) (Hfrom : 0 <= from) (Hbefore : forall k, Forall (fun i => i < from) (L k)).
Context (Hrows : forall k, increasing (touched key time rows k)).
Context (Hrange : Forall (fun r => from <= time r < u64_max) rows).

Lemma touched_range k i : i ∈ touched key time rows k -> from <= i < u64_max.
Proof. intros (r & Hr & _ & <-)%elem_of_touched. by apply (proj1 (Forall_forall _ _) Hrange) in Hr. Qed.

Lemma insert_touched :
  exists h', insert_history_index (entries kle (foldl (fun m r => push_transition m (key r) (time r)) ∅ rows)) h = Some h' /\
    represents h' (fun k => L k ++ touched key time rows k).
Proof.
  set (m := foldl _ ∅ rows).
  assert (Em : forall k, default [] (m !! k) = touched key time rows k).
  { intros k. unfold m. rewrite fold_push. by rewrite lookup_empty. }
  destruct (insert_represents kle (entries kle m) h L HL (entries_NoDup_keys _ _)) as (h' & E & HL').
  - intros k new Hin. apply elem_of_entries in Hin. assert (new = touched key time rows k) as -> by (rewrite <- Em, Hin; done).
    split.
    + apply increasing_app. split; [apply HL|]. split; [apply Hrows|]. intros x y Hx Hy.
      apply (proj1 (Forall_forall _ _) (Hbefore k)) in Hx. apply touched_range in Hy. lia.
    + apply Forall_forall. intros i Hi%touched_range. lia.
  - exists h'. split; [done|]. intros k. specialize (HL' k). cbn beta in HL'. by rewrite assoc_entries, Em in HL'.
Qed.

(** Unwinding to the first transition of the rows drops the new lists [N]. *)
Lemma unwind_touched h' N : represents h' (fun k => L k ++ N k) ->
  (forall k, match head (touched key time rows k) with Some t => Forall (fun i => t <= i) (N k) | None => N k = [] end) ->
  exists h'', unwind_history_index kle (entries kle (foldl (fun m r => <[key r := time r]> m) (∅ : gmap K Z) (reverse rows))) h' = Ok h'' /\
    represents h'' L.
Proof.
  intros Hh' HN. set (m := foldl _ ∅ (reverse rows)).
  assert (Em : forall k, m !! k = head (touched key time rows k)).
  { intros k. unfold m. rewrite fold_first. destruct (head _); [done|apply lookup_empty]. }
  destruct (unwind_represents kle (entries kle m) h' _ Hh' (entries_NoDup_keys _ _)) as (h'' & E & HL'').
  - apply Forall_forall. intros [k t] Hin%elem_of_entries. rewrite Em in Hin. cbn.
    assert (Ht : t ∈ touched key time rows k) by (by destruct (touched key time rows k); [|injection Hin as ->; apply list_elem_of_here]).
    apply touched_range in Ht. lia.
  - exists h''. split; [done|]. intros k. specialize (HL'' k). specialize (HN k). cbn beta in HL''.
    rewrite (assoc_entries kle m k), Em in HL''.
    destruct (touched key time rows k) as [|t l] eqn:Et; cbn [head] in *; [by rewrite HN, app_nil_r in HL''|].
    rewrite filter_app, filter_all, filter_none, app_nil_r in HL''; [done| |].
    + eapply Forall_impl; [exact HN|]. cbn. lia.
    + assert (Ht : from <= t) by (apply (touched_range k); rewrite Et; apply list_elem_of_here).
      eapply Forall_impl; [apply Hbefore|]. cbn. lia.
Qed.
End Cycle.

(** ** The tables *)
Lemma take_while_all {A} (P : A -> bool) l : Forall (fun x => P x = true) l -> take_while P l = l.
Proof. induction 1 as [|x l Hx _ IH]; [done|]. cbn. by rewrite Hx, IH. Qed.
Lemma take_while_ext {A} (P Q : A -> bool) l : Forall (fun x => P x = Q x) l -> take_while P l = take_while Q l.
Proof. induction 1 as [|x l Hx _ IH]; [done|]. cbn. by rewrite Hx, IH. Qed.
Lemma Forall_take_while {A} (P : A -> Prop) (f : A -> bool) l : Forall P l -> Forall P (take_while f l).
Proof. induction 1 as [|x l Hx _ IH]; [done|]. cbn. destruct (f x); by constructor. Qed.

(** Rows in the order of their transitions, cut off at [to].  A walk over a range also
    returns the row it starts at when that one is beyond the range. *)
Section Cut.
Context {R K : Type} `{Countable K} (key : R -> K) (time : R -> Z) (to : Z) (rows : list R).
Context (Hsorted : StronglySorted (fun r r' => time r <= time r') rows).

Definition walked : list R :=
  match rows with [] => [] | x :: l => x :: take_while (fun r => time r <? to) l end.

Lemma touched_none k : Forall (fun r => to <= time r) rows -> filter (fun i => i < to) (touched key time rows k) = [].
Proof.
  intros Hr. apply filter_none, Forall_forall. intros i (r & Hin & _ & <-)%elem_of_touched.
  rewrite Forall_forall in Hr. apply Hr in Hin. lia.
Qed.

Lemma touched_cut k : touched key time (take_while (fun r => time r <? to) rows) k = filter (fun i => i < to) (touched key time rows k).
Proof.
  induction Hsorted as [|r l Hs IH Hr]; [done|]. cbn [take_while]. destruct (Z.ltb_spec (time r) to) as [Hlt|Hge].
  - rewrite !touched_cons, filter_app, <- IH by done. case_decide; [|done]. cbn [app]. by rewrite filter_cons_True.
  - rewrite touched_cons, filter_app. unfold touched at 1. rewrite filter_nil. cbn [fmap list_fmap].
    assert (Hrest : filter (fun i => i < to) (touched key time l k) = []).
    { apply filter_none, Forall_forall. intros i (r' & Hin & _ & <-)%elem_of_touched. rewrite Forall_forall in Hr. apply Hr in Hin. lia. }
    rewrite Hrest. case_decide; [|done]. cbn [app]. by rewrite filter_cons_False by lia.
Qed.

Lemma walked_first k : (forall k, increasing (touched key time rows k)) ->
  match head (touched key time walked k) with
  | Some t => Forall (fun i => t <= i) (filter (fun i => i < to) (touched key time rows k))
  | None => filter (fun i => i < to) (touched key time rows k) = []
  end.
Proof.
  intros Hinc. specialize (Hinc k). pose proof (touched_cut k) as Hc. pose proof (touched_none k) as Hno. unfold walked.
  destruct rows as [|x l]; [done|]. cbn [take_while] in Hc. destruct (Z.ltb_spec (time x) to) as [Hlt|Hge].
  - rewrite Hc. destruct (filter _ _) as [|t m] eqn:Ef; [done|]. cbn [head].
    assert (Hi : increasing (t :: m)) by (rewrite <- Ef; by apply StronglySorted_filter).
    apply Forall_forall. intros i Hin. by apply (increasing_first t m).
  - rewrite Hno; [by destruct (head _)|]. inversion_clear Hsorted as [|? ? Hs Hr]. constructor; [done|].
    eapply Forall_impl; [exact Hr|]. cbn. lia.
Qed.
End Cut.

(** A range that reaches the end of the table is walked as documented. *)
Lemma walk_range_to_end {K V} (le : relation K) `{!RelDecision le} (a b : K) (rows : list (K * V)) :
  ~ strict le b a -> Forall (fun r => strict le r.1 b) rows -> walk_range le (range a b) rows = Ok (rows_from le a rows).
Proof.
  intros Hab Hb. unfold walk_range, range. cbn. unfold key_lt. rewrite bool_decide_false by done.
  destruct (rows_from le a rows) as [|x l] eqn:E; [done|]. do 2 f_equal. apply take_while_all.
  assert (Hx : Forall (fun r => strict le r.1 b) (x :: l)).
  { rewrite <- E. apply Forall_forall. intros r [_ Hr]%list_elem_of_filter. by apply (proj1 (Forall_forall _ _) Hb). }
  apply Forall_cons in Hx as [_ Hx]. eapply Forall_impl; [exact Hx|]. intros r Hr. by apply bool_decide_true.
Qed.

Lemma increasing_touched {R K} `{Countable K} (key : R -> K) (time : R -> Z) (S : relation R) rows k :
  StronglySorted S rows -> (forall r r', r ∈ rows -> r' ∈ rows -> S r r' -> key r = key r' -> time r < time r') ->
  increasing (touched key time rows k).
Proof.
  intros Hs. induction Hs as [|r rows Hs IH Hr]; intros Ht; [constructor|]. rewrite touched_cons.
  assert (IH' : increasing (touched key time rows k)).
  { apply IH. intros x y Hx Hy. apply Ht; by apply list_elem_of_further. }
  case_decide as E; [|done]. cbn. constructor; [done|]. apply Forall_forall. intros i (r' & Hr' & Hk & <-)%elem_of_touched.
  apply Ht; [apply list_elem_of_here|by apply list_elem_of_further| |congruence]. by apply (proj1 (Forall_forall _ _) Hr).
Qed.

Section Provider.
Context {IL : Type} `{!EliasFano IL} `{!EliasFanoOk IL}.
Context (info_le : relation (option Account)) (value_le : relation Z).
Context `{!RelDecision info_le, !RelDecision value_le, !TotalOrder info_le, !TotalOrder value_le}.
Implicit Types (d : @HistoryTables IL).

(** A change set has one row per transition and account, or slot, all below [to]. *)
Record changesets_ok (to : Z) d : Prop := {
  account_rows_unique t a o o' : (t, (a, o)) ∈ AccountChangeSetTable (h_accounts d) ->
    (t, (a, o')) ∈ AccountChangeSetTable (h_accounts d) -> o = o';
  account_rows_range t a o : (t, (a, o)) ∈ AccountChangeSetTable (h_accounts d) -> 0 <= t < to;
  storage_rows_unique t a k v v' : ((t, a), (k, v)) ∈ StorageChangeSet d -> ((t, a), (k, v')) ∈ StorageChangeSet d -> v = v';
  storage_rows_range t a k v : ((t, a), (k, v)) ∈ StorageChangeSet d -> 0 <= t < to /\ 0 <= a
}.

Definition account_changes (from : Z) d : Z -> list Z :=
  touched (fun r => r.2.1) fst (rows_from Z.le from (account_changeset_rows info_le d)).
Definition storage_changes (from : Z) d : Z * Z -> list Z :=
  touched (fun r => (r.1.2, r.2.1)) (fun r => r.1.1) (rows_from (lex_le Z.le Z.le) (from, 0) (storage_changeset_rows value_le d)).

Lemma account_changes_increasing from to d a : changesets_ok to d -> increasing (account_changes from d a).
Proof.
  intros Hd. eapply increasing_touched; [apply StronglySorted_filter, dup_rows_strict; apply _|].
  intros [t [b o]] [t' [b' o']] Hr Hr' Hlt Hk. cbn in *. subst b'.
  apply list_elem_of_filter in Hr as [_ Hr], Hr' as [_ Hr']. apply elem_of_dup_rows in Hr, Hr'.
  destruct Hlt as [[Hlt|[Ht _]] Hn]; cbn in *; [unfold strict in Hlt; lia|]. exfalso. subst t'.
  rewrite (account_rows_unique _ _ Hd _ _ _ _ Hr Hr') in Hn. apply Hn. apply (reflexivity (R := lex_le Z.le (lex_le Z.le info_le))).
Qed.

Lemma storage_changes_increasing from to d k : changesets_ok to d -> increasing (storage_changes from d k).
Proof.
  intros Hd. eapply increasing_touched; [apply StronglySorted_filter, dup_rows_strict; apply _|].
  intros [[t a] [s v]] [[t' a'] [s' v']] Hr Hr' Hlt Hk. cbn in *. injection Hk as -> ->.
  apply list_elem_of_filter in Hr as [_ Hr], Hr' as [_ Hr']. apply elem_of_dup_rows in Hr, Hr'.
  destruct (Z.lt_trichotomy t t') as [|[->|Hgt]]; [done| |]; exfalso; destruct Hlt as [Hlt Hn].
  - rewrite (storage_rows_unique _ _ Hd _ _ _ _ _ Hr Hr') in Hn. apply Hn. apply (reflexivity (R := lex_le (lex_le Z.le Z.le) (lex_le Z.le value_le))).
  - apply Hn. left. cbn. split; [left; cbn; unfold strict; lia|]. intros [H'|[H' _]]; cbn in H'; unfold strict in H'; lia.
Qed.

(** The rows from a transition on are in the order of the transitions, in range. *)
Lemma account_rows_ok from last d : changesets_ok last d -> last <= u64_max ->
  let rows := rows_from Z.le from (account_changeset_rows info_le d) in
  StronglySorted (fun r r' => r.1 <= r'.1) rows /\ Forall (fun r => from <= r.1 < u64_max /\ r.1 < last) rows.
Proof.
  intros Hd Hto. split.
  - eapply StronglySorted_impl; [|apply StronglySorted_filter, dup_rows_strict; apply _].
    intros [t b] [t' b'] [[Hlt|[-> _]] _]; cbn in *; [unfold strict in Hlt|]; lia.
  - apply Forall_forall. intros [t [a o]] [Ht Hr%elem_of_dup_rows]%list_elem_of_filter. apply (account_rows_range _ _ Hd) in Hr. cbn in *. lia.
Qed.

Lemma storage_rows_ok from last d : changesets_ok last d -> last <= u64_max ->
  let rows := rows_from (lex_le Z.le Z.le) (from, 0) (storage_changeset_rows value_le d) in
  StronglySorted (fun r r' => r.1.1 <= r'.1.1) rows /\ Forall (fun r => from <= r.1.1 < u64_max /\ r.1.1 < last /\ 0 <= r.1.2) rows.
Proof.
  intros Hd Hto. split.
  - eapply StronglySorted_impl; [|apply StronglySorted_filter, dup_rows_strict; apply _].
    intros [[t a] b] [[t' a'] b'] [[[[H1|[H1 _]] _]|[H1 _]] _]; cbn in *; unfold strict in *; [lia|lia|]. injection H1 as -> ->. lia.
  - apply Forall_forall. intros [[t a] [k v]] [Ht Hr%elem_of_dup_rows]%list_elem_of_filter. apply (storage_rows_range _ _ Hd) in Hr as [Hr ?].
    destruct Ht as [Ht|[Ht _]]; cbn in *; unfold strict in *; lia.
Qed.

(** A range of transitions is walked as [walked] says. *)
Lemma walk_accounts from to d : from <= to ->
  walk_range Z.le (range from to) (account_changeset_rows info_le d) = Ok (walked fst to (rows_from Z.le from (account_changeset_rows info_le d))).
Proof.
  intros Hft. unfold walk_range, range. cbn. unfold key_lt. rewrite bool_decide_false by (unfold strict; lia).
  destruct (rows_from _ _ _) as [|x l]; [done|]. cbn [walked]. do 2 f_equal. apply take_while_ext, Forall_forall. intros r _.
  destruct (Z.ltb_spec r.1 to); [apply bool_decide_true|apply bool_decide_false]; unfold strict; lia.
Qed.

Lemma walk_slots from to last d : changesets_ok last d -> last <= u64_max -> from <= to ->
  walk_range (lex_le Z.le Z.le) (range (from, 0) (to, 0)) (storage_changeset_rows value_le d)
  = Ok (walked (fun r => r.1.1) to (rows_from (lex_le Z.le Z.le) (from, 0) (storage_changeset_rows value_le d))).
Proof.
  intros Hd Hl Hft. destruct (storage_rows_ok from last d Hd Hl) as [_ Hr]. unfold walk_range, range. cbn. unfold key_lt. rewrite bool_decide_false.
  - destruct (rows_from _ _ _) as [|x l]; [done|]. cbn [walked]. do 2 f_equal. apply take_while_ext.
    inversion_clear Hr as [|? ? _ Hl']. eapply Forall_impl; [exact Hl'|]. intros [[t a] [k v]] (_ & _ & Ha). cbn in *.
    destruct (Z.ltb_spec t to) as [Ht|Ht]; [apply bool_decide_true|apply bool_decide_false].
    + split; [left; cbn; unfold strict; lia|]. intros [H'|[H' _]]; cbn in H'; unfold strict in H'; lia.
    + intros [[H'|[H' H'']] Hn]; cbn in *; unfold strict in *; [lia|]. apply Hn. right. cbn. lia.
  - intros [H1 H2]. destruct H1 as [H1|[H1 _]]; cbn in H1; unfold strict in H1; [lia|]. apply H2. right. cbn. split; [done|lia].
Qed.

Abbreviation below to := (filter (fun i : Z => i < to)).

Lemma account_index_below from to last d L : changesets_ok last d -> 0 <= from -> last <= u64_max ->
  represents (AccountHistory d) L -> (forall a, Forall (fun i => i < from) (L a)) ->
  exists h', insert_account_history_index info_le from to d = Some (with_account_history h' d) /\
    represents h' (fun a => L a ++ below to (account_changes from d a)).
Proof.
  intros Hd Hf Hto HL Hb. destruct (account_rows_ok from last d Hd Hto) as [R1 R2].
  pose proof (touched_cut (fun r => r.2.1) fst to _ R1) as Hcut.
  destruct (insert_touched (fun r => r.2.1) fst Z.le (take_while (fun r => r.1 <? to) (rows_from Z.le from (account_changeset_rows info_le d)))
    from (AccountHistory d) L HL ltac:(lia) Hb) as (h' & E & Hh').
  - intros a. rewrite Hcut. by eapply StronglySorted_filter, account_changes_increasing.
  - apply Forall_take_while. eapply Forall_impl; [exact R2|]. by intros ? [].
  - exists h'. unfold insert_account_history_index, get_account_transition_ids_from_changeset, walk. rewrite E. split; [done|].
    eapply represents_ext; [|exact Hh']. intros a. cbn. by rewrite Hcut.
Qed.

Lemma storage_index_below from to last d L : changesets_ok last d -> 0 <= from -> last <= u64_max ->
  represents (StorageHistory d) L -> (forall a, Forall (fun i => i < from) (L a)) ->
  exists h', insert_storage_history_index value_le from to d = Some (with_storage_history h' d) /\
    represents h' (fun a => L a ++ below to (storage_changes from d a)).
Proof.
  intros Hd Hf Hto HL Hb. destruct (storage_rows_ok from last d Hd Hto) as [R1 R2].
  pose proof (touched_cut (fun r => (r.1.2, r.2.1)) (fun r => r.1.1) to _ R1) as Hcut.
  destruct (insert_touched (fun r => (r.1.2, r.2.1)) (fun r => r.1.1) (lex_le Z.le Z.le)
    (take_while (fun r => r.1.1 <? to) (rows_from (lex_le Z.le Z.le) (from, 0) (storage_changeset_rows value_le d)))
    from (StorageHistory d) L HL ltac:(lia) Hb) as (h' & E & Hh').
  - intros a. rewrite Hcut. by eapply StronglySorted_filter, storage_changes_increasing.
  - apply Forall_take_while. eapply Forall_impl; [exact R2|]. by intros ? [].
  - exists h'. unfold insert_storage_history_index, get_storage_transition_ids_from_changeset, walk. rewrite E. split; [done|].
    eapply represents_ext; [|exact Hh']. intros a. cbn. by rewrite Hcut.
Qed.

Lemma walked_rows {R} (time : R -> Z) to (P : R -> Prop) rows : Forall P rows -> Forall P (walked time to rows).
Proof. destruct 1; cbn; constructor; [done|]. by apply Forall_take_while. Qed.

Lemma account_unwind_below from to last d L : changesets_ok last d -> 0 <= from <= to -> last <= u64_max ->
  represents (AccountHistory d) (fun a => L a ++ below to (account_changes from d a)) -> (forall a, Forall (fun i => i < from) (L a)) ->
  exists h, unwind_account_history_indices info_le (range from to) d = Ok (with_account_history h d) /\ represents h L.
Proof.
  intros Hd Hft Hto Hh Hb. destruct (account_rows_ok from last d Hd Hto) as [R1 R2].
  destruct (unwind_touched (fun r => r.2.1) fst Z.le (walked fst to (rows_from Z.le from (account_changeset_rows info_le d))) from L
    ltac:(lia) Hb) with (2 := Hh) as (h & E & Hr).
  - apply walked_rows. eapply Forall_impl; [exact R2|]. by intros ? [].
  - intros a. apply walked_first; [done|]. intros b. by eapply account_changes_increasing.
  - exists h. split; [|done]. unfold unwind_account_history_indices. rewrite walk_accounts by lia. cbn [mbind outcome_bind]. by rewrite E.
Qed.

Lemma storage_unwind_below from to last d L : changesets_ok last d -> 0 <= from <= to -> last <= u64_max ->
  represents (StorageHistory d) (fun a => L a ++ below to (storage_changes from d a)) -> (forall a, Forall (fun i => i < from) (L a)) ->
  exists h, unwind_storage_history_indices value_le (range (from, 0) (to, 0)) d = Ok (with_storage_history h d) /\ represents h L.
Proof.
  intros Hd Hft Hto Hh Hb. destruct (storage_rows_ok from last d Hd Hto) as [R1 R2].
  destruct (unwind_touched (fun r => (r.1.2, r.2.1)) (fun r => r.1.1) (lex_le Z.le Z.le)
    (walked (fun r => r.1.1) to (rows_from (lex_le Z.le Z.le) (from, 0) (storage_changeset_rows value_le d))) from L
    ltac:(lia) Hb) with (2 := Hh) as (h & E & Hr).
  - apply walked_rows. eapply Forall_impl; [exact R2|]. by intros ? [].
  - intros a. apply walked_first; [done|]. intros b. by eapply storage_changes_increasing.
  - exists h. split; [|done]. unfold unwind_storage_history_indices. rewrite (walk_slots from to last) by (done || lia).
    cbn [mbind outcome_bind]. by rewrite E.
Qed.

Lemma elem_of_account_changes from to d a t : changesets_ok to d ->
  t ∈ account_changes from d a <-> from <= t /\ exists o, (t, (a, o)) ∈ AccountChangeSetTable (h_accounts d).
Proof.
  intros Hd. unfold account_changes. rewrite elem_of_touched. split.
  - intros ([t' [a' o]] & [Ht Hr%elem_of_dup_rows]%list_elem_of_filter & <- & <-). cbn in *. eauto.
  - intros (Ht & o & Hr). exists (t, (a, o)). split; [|done]. apply list_elem_of_filter. split; [done|]. by apply elem_of_dup_rows.
Qed.

Lemma elem_of_storage_changes from to d a k t : changesets_ok to d ->
  t ∈ storage_changes from d (a, k) <-> from <= t /\ exists v, ((t, a), (k, v)) ∈ StorageChangeSet d.
Proof.
  intros Hd. unfold storage_changes. rewrite elem_of_touched. split.
  - intros ([[t' a'] [k' v]] & [Ht Hr%elem_of_dup_rows]%list_elem_of_filter & [= <- <-] & <-). cbn in *.
    split; [|eauto]. destruct Ht as [Ht|[Ht _]]; cbn in Ht; unfold strict in *; lia.
  - intros (Ht & v & Hr). exists ((t, a), (k, v)). split; [|done]. apply list_elem_of_filter. split; [|by apply elem_of_dup_rows].
    apply (storage_rows_range _ _ Hd) in Hr as [_ Ha]. cbn. destruct (Z.eq_dec from t) as [->|]; [right; by cbn|].
    left. cbn. unfold strict. lia.
Qed.

(** *** Ranges that reach the end of the change sets *)
Lemma account_changes_below from to d a : changesets_ok to d -> below to (account_changes from d a) = account_changes from d a.
Proof.
  intros Hd. apply filter_all, Forall_forall. intros t. rewrite elem_of_account_changes by done. intros (_ & o & Hin).
  by apply (account_rows_range _ _ Hd) in Hin as [].
Qed.
Lemma storage_changes_below from to d k : changesets_ok to d -> below to (storage_changes from d k) = storage_changes from d k.
Proof.
  intros Hd. apply filter_all, Forall_forall. destruct k as [a k]. intros t. rewrite elem_of_storage_changes by done. intros (_ & o & Hin).
  by apply (storage_rows_range _ _ Hd) in Hin as [[] _].
Qed.

Lemma account_index_ok from to d L : changesets_ok to d -> 0 <= from -> to <= u64_max ->
  represents (AccountHistory d) L -> (forall a, Forall (fun i => i < from) (L a)) ->
  exists h', insert_account_history_index info_le from to d = Some (with_account_history h' d) /\
    represents h' (fun a => L a ++ account_changes from d a).
Proof.
  intros Hd Hf Hto HL Hb. destruct (account_index_below from to to d L Hd Hf Hto HL Hb) as (h' & E & Hh'). exists h'. split; [done|].
  eapply represents_ext; [|exact Hh']. intros a. cbn. by rewrite account_changes_below.
Qed.

Lemma storage_index_ok from to d L : changesets_ok to d -> 0 <= from -> to <= u64_max ->
  represents (StorageHistory d) L -> (forall a, Forall (fun i => i < from) (L a)) ->
  exists h', insert_storage_history_index value_le from to d = Some (with_storage_history h' d) /\
    represents h' (fun a => L a ++ storage_changes from d a).
Proof.
  intros Hd Hf Hto HL Hb. destruct (storage_index_below from to to d L Hd Hf Hto HL Hb) as (h' & E & Hh'). exists h'. split; [done|].
  eapply represents_ext; [|exact Hh']. intros a. cbn. by rewrite storage_changes_below.
Qed.

Lemma account_unwind_ok from to d L : changesets_ok to d -> 0 <= from <= to -> to <= u64_max ->
  represents (AccountHistory d) (fun a => L a ++ account_changes from d a) -> (forall a, Forall (fun i => i < from) (L a)) ->
  exists h, unwind_account_history_indices info_le (range from to) d = Ok (with_account_history h d) /\ represents h L.
Proof.
  intros Hd Hft Hto Hh. apply (account_unwind_below from to to d L Hd Hft Hto).
  eapply represents_ext; [|exact Hh]. intros a. cbn. by rewrite account_changes_below.
Qed.

Lemma storage_unwind_ok from to d L : changesets_ok to d -> 0 <= from <= to -> to <= u64_max ->
  represents (StorageHistory d) (fun a => L a ++ storage_changes from d a) -> (forall a, Forall (fun i => i < from) (L a)) ->
  exists h, unwind_storage_history_indices value_le (range (from, 0) (to, 0)) d = Ok (with_storage_history h d) /\ represents h L.
Proof.
  intros Hd Hft Hto Hh. apply (storage_unwind_below from to to d L Hd Hft Hto).
  eapply represents_ext; [|exact Hh]. intros a. cbn. by rewrite storage_changes_below.
Qed.

(** C13. The history indices follow the change sets.  Indexing the transitions
    [from..to], with change sets of later transitions present, appends to the list of
    every account and of every slot exactly the transitions of the range whose change
    set mentions it, however the lists are cut into shards; unwinding the same range
    restores the lists; and no other table is touched.  The lists hold only earlier
    transitions before, a change set has one row per transition and account or slot,
    and transitions are below the largest u64. *)
Theorem history_index_cycle from to last d L M : changesets_ok last d -> 0 <= from <= to -> last <= u64_max ->
  represents (AccountHistory d) L -> (forall a, Forall (fun i => i < from) (L a)) ->
  represents (StorageHistory d) M -> (forall k, Forall (fun i => i < from) (M k)) ->
  exists A S d', (d1 ← insert_account_history_index info_le from to d; insert_storage_history_index value_le from to d1) = Some d' /\
    (forall a t, t ∈ A a <-> from <= t < to /\ exists o, (t, (a, o)) ∈ AccountChangeSetTable (h_accounts d)) /\
    (forall a k t, t ∈ S (a, k) <-> from <= t < to /\ exists v, ((t, a), (k, v)) ∈ StorageChangeSet d) /\
    represents (AccountHistory d') (fun a => L a ++ A a) /\ represents (StorageHistory d') (fun k => M k ++ S k) /\
    exists d'', (d1 ← unwind_account_history_indices info_le (range from to) d';
                 unwind_storage_history_indices value_le (range (from, 0) (to, 0)) d1) = Ok d'' /\
      represents (AccountHistory d'') L /\ represents (StorageHistory d'') M /\
      h_accounts d'' = h_accounts d /\ PlainStorageState d'' = PlainStorageState d /\ StorageChangeSet d'' = StorageChangeSet d.
Proof.
  intros Hd Hft Hto HL HLb HM HMb.
  destruct (account_index_below from to last d L Hd ltac:(lia) Hto HL HLb) as (ha & E1 & H1). set (d1 := with_account_history ha d) in *.
  assert (Hd1 : changesets_ok last d1) by (destruct Hd; by split).
  destruct (storage_index_below from to last d1 M Hd1 ltac:(lia) Hto HM HMb) as (hs & E2 & H2). set (d2 := with_storage_history hs d1) in *.
  assert (Hd2 : changesets_ok last d2) by (destruct Hd; by split).
  destruct (account_unwind_below from to last d2 L Hd2 Hft Hto H1 HLb) as (ha' & E3 & H3). set (d3 := with_account_history ha' d2) in *.
  assert (Hd3 : changesets_ok last d3) by (destruct Hd; by split).
  destruct (storage_unwind_below from to last d3 M Hd3 Hft Hto H2 HMb) as (hs' & E4 & H4).
  exists (fun a => below to (account_changes from d a)), (fun k => below to (storage_changes from d k)), d2. rewrite E1. cbn [mbind option_bind].
  split; [done|]. split; [intros a t; rewrite list_elem_of_filter, elem_of_account_changes by done; naive_solver lia|].
  split; [intros a k t; rewrite list_elem_of_filter, elem_of_storage_changes by done; naive_solver lia|].
  split; [exact H1|]. split; [exact H2|].
  exists (with_storage_history hs' d3). rewrite E3. by split.
Qed.

(** *** Historical state *)
(** [State t] is the value before transition [t], of which the last is the plain one:
    the change set of a transition has the value it replaced. *)
Lemma state_between {V} (State : Z -> V) (l : list Z) t n : (forall i, i ∉ l -> State (i + 1) = State i) -> t <= n ->
  (forall i, i ∈ l -> ~ t <= i < n) -> State n = State t.
Proof.
  intros Hstep Htn Hno. revert Hno. pattern n. eapply Zlt_lower_bound_ind; [|exact Htn]. clear n Htn.
  intros n IH Hn Hno. destruct (Z.eq_dec t n) as [->|]; [done|].
  rewrite <- (IH (n - 1)); [| lia |intros i Hi; specialize (Hno i Hi); lia].
  replace n with (n - 1 + 1) at 1 by lia. apply Hstep. intros Hi. specialize (Hno _ Hi). lia.
Qed.

Lemma state_at_successor {V} (State : Z -> V) (l : list Z) t i : (forall i, i ∉ l -> State (i + 1) = State i) -> increasing l ->
  head (filter (fun i => t <= i) l) = Some i -> i ∈ l /\ State i = State t.
Proof.
  intros Hstep Hinc Hh. destruct (filter (fun i => t <= i) l) as [|x m] eqn:E; [done|]. injection Hh as ->.
  assert (Hi : i ∈ filter (fun i => t <= i) l) by (rewrite E; left). apply list_elem_of_filter in Hi as [Hti Hi]. split; [done|].
  apply (state_between State l); [done|done|]. intros j Hj [Htj Hji].
  assert (Hj' : j ∈ filter (fun i => t <= i) l) by by apply list_elem_of_filter. rewrite E in Hj'.
  assert (Hs : increasing (i :: m)) by (rewrite <- E; by apply StronglySorted_filter).
  pose proof (increasing_first _ _ _ Hs Hj'). lia.
Qed.

(** C14. [HistoricalStateProvider::basic_account] returns the account as it was before
    the transition, when the index and the change sets record the changes of a history
    that ends in the plain state. An account that no change set mentions is not found,
    whatever the plain state has: so is a genesis account until its first change. *)
Theorem historical_account_correct State (l : list Z) last t a d : index_ok a (AccountHistory d) l ->
  (forall i, i ∈ l -> i < last /\ (forall o, (i, (a, o)) ∈ AccountChangeSetTable (h_accounts d) <-> o = State i)) ->
  (forall i, i ∉ l -> State (i + 1) = State i) ->
  PlainAccountState (h_accounts d) !! a = State last -> 0 <= t <= last -> last <= u64_max ->
  basic_account info_le t a d = Ok (if decide (l = []) then None else State t).
Proof.
  intros Hix Hrows Hstep Hplain Ht Hlast. unfold basic_account.
  rewrite (history_lookup_ok _ a t _ l ltac:(lia) Hix). destruct (decide (l = [])) as [->|Hne]; [done|].
  replace (match l with [] => None | _ => _ end) with (Some (head (filter (fun i => t <= i) l))) by (by destruct l).
  destruct (head _) as [i|] eqn:Hh.
  - destruct (state_at_successor State l t i Hstep) as [Hi <-]; [by destruct Hix as (? & ? & ? & ? & ?)|done|].
    destruct (Hrows i Hi) as [_ Hr].
    rewrite (seek_subkey_ok _ _ _ i a (State i)); [by rewrite Z.eqb_refl|by apply Hr|intros w Hw; by apply Hr].
  - rewrite Hplain. f_equal. apply (state_between State l); [done|lia|]. intros i Hi [Hti _].
    assert (Hf : i ∈ filter (fun i => t <= i) l) by by apply list_elem_of_filter.
    destruct (filter _ l); [by apply not_elem_of_nil in Hf|done].
Qed.

(** The same for [storage]: a slot's value before the transition, [None] when it
    was never written; the plain state has no row for a slot that is zero. *)
Theorem historical_storage_correct State (l : list Z) last t a k d : index_ok (a, k) (StorageHistory d) l ->
  (forall i, i ∈ l -> i < last /\ (forall v, ((i, a), (k, v)) ∈ StorageChangeSet d <-> v = State i)) ->
  (forall i, i ∉ l -> State (i + 1) = State i) ->
  (forall v, (a, (k, v)) ∈ PlainStorageState d <-> v = State last /\ v <> 0) -> 0 <= t <= last -> last <= u64_max ->
  exists r, storage_at value_le t a k d = Ok r /\ default 0 r = (if decide (l = []) then 0 else State t).
Proof.
  intros Hix Hrows Hstep Hplain Ht Hlast. unfold storage_at.
  rewrite (history_lookup_ok _ (a, k) t _ l ltac:(lia) Hix). destruct (decide (l = [])) as [->|Hne]; [by eexists|].
  replace (match l with [] => None | _ => _ end) with (Some (head (filter (fun i => t <= i) l))) by (by destruct l).
  destruct (head _) as [i|] eqn:Hh.
  - destruct (state_at_successor State l t i Hstep) as [Hi <-]; [by destruct Hix as (? & ? & ? & ? & ?)|done|].
    destruct (Hrows i Hi) as [_ Hr].
    rewrite (seek_subkey_ok _ _ _ (i, a) k (State i)); [rewrite Z.eqb_refl; by eexists|by apply Hr|intros w Hw; by apply Hr].
  - assert (Hst : State last = State t).
    { apply (state_between State l); [done|lia|]. intros i Hi [Hti _].
      assert (Hf : i ∈ filter (fun i => t <= i) l) by by apply list_elem_of_filter.
      destruct (filter _ l); [by apply not_elem_of_nil in Hf|done]. }
    rewrite <- Hst. destruct (decide (State last = 0)) as [E0|E0].
    + destruct (seek_by_key_subkey _ _ _ a k _) as [[k' v]|] eqn:E; [|by eexists].
      destruct (Z.eqb_spec k' k) as [->|]; [|by eexists]. apply seek_subkey_in, Hplain in E as [-> ?]. done.
    + rewrite (seek_subkey_ok _ _ _ a k (State last)); [rewrite Z.eqb_refl; by eexists|by apply Hplain|intros w Hw; by apply Hplain].
Qed.
End Provider.

(** ** Instances *)
(** A list that is its own sequence, and an order of the values of a type. *)
Module ListIndex.
Definition in_order (l : list Z) : bool := bool_decide (Sorted Z.le l).
#[export] Instance elias_fano : EliasFano (list Z) := {
  from_ints l := if decide (l = []) then None else if in_order l then Some l else None;
  ef_iter l := l;
  successor l t := head (filter (fun i => t <= i) l)
}.
#[export] Instance elias_fano_ok : EliasFanoOk (list Z).
Proof.
  split; [|done]. intros l Hl Hs. exists l. split; [|done]. cbn. rewrite decide_False by done.
  unfold in_order. by rewrite bool_decide_eq_true_2 by by apply StronglySorted_Sorted.
Qed.

Definition code_le {A} `{Countable A} : relation A := fun x y => (encode x <= encode y)%positive.
#[export] Instance code_le_dec {A} `{Countable A} : RelDecision (code_le (A := A)).
Proof. unfold code_le. intros x y. apply _. Defined.
#[export] Instance code_le_total {A} `{Countable A} : TotalOrder (code_le (A := A)).
Proof.
  unfold code_le. split; [split; [split|]|].
  - intros x. lia.
  - intros x y z. lia.
  - intros x y ??. apply (inj encode). lia.
  - intros x y. unfold strict. destruct (decide (x = y)) as [|Hne]; [by right; left|].
    assert (encode x <> encode y) by (intros E; by apply (inj encode) in E). lia.
Qed.
End ListIndex.

Module Sample.
Import ListIndex.
Definition account1 := mkAccount 1 50 None.
Definition account2 := mkAccount 2 70 None.
(** Account 7 is created in transition 2 and changed in 3, its slot 1 set in 3; account
    8 was there from the start. *)
Definition tables : @HistoryTables (list Z) :=
  mkHistoryTables (mkAccountTables {[7 := account2; 8 := account1]} {[ (2, (7, None)); (3, (7, Some account1)) ]})
    {[ (7, (1, 9)) ]} {[ ((3, 7), (1, 0)) ]} ∅ ∅.
Definition indexed : @HistoryTables (list Z) :=
  with_storage_history {[ ((7, 1), u64_max) := [3] ]} (with_account_history {[ (7, u64_max) := [2; 3] ]} tables).

Lemma tables_ok : changesets_ok 4 tables.
Proof.
  split; cbn [tables AccountChangeSetTable h_accounts StorageChangeSet].
  - intros t a o o' H1 H2. set_unfold. destruct H1 as [[= -> -> ->]|[= -> -> ->]], H2 as [[=]|[=]]; congruence.
  - intros t a o H1. set_unfold. destruct H1 as [[= -> -> ->]|[= -> -> ->]]; lia.
  - intros t a k v v' H1 H2. set_unfold. congruence.
  - intros t a k v H1. set_unfold. injection H1 as -> -> -> ->. lia.
Qed.

Lemma empty_index {K} `{Countable K} (k : K) : index_ok k (∅ : gmap (K * Z) (list Z)) [].
Proof.
  apply index_ok_nil. split; [constructor|]. intros id il. rewrite lookup_empty. split; [by intros ?%not_elem_of_nil|done].
Qed.

Lemma single_index {K} `{Countable K} (k : K) (l : list Z) : l <> [] -> increasing l -> Forall (fun i => 0 <= i < u64_max) l ->
  index_ok k ({[ (k, u64_max) := l ]} : gmap (K * Z) (list Z)) l.
Proof.
  intros Hl Hi Hb. split; [done|]. split; [done|]. exists [(u64_max, l)]. split; [|split].
  - split; [repeat constructor|]. intros id il. rewrite list_elem_of_singleton, lookup_singleton_Some. naive_solver.
  - cbn. by rewrite app_nil_r.
  - right. by exists [], l.
Qed.

(** Transition 2 is indexed while the change sets of 3 are there already. *)
Lemma history_index_cycle_witness : exists d', (d1 ← insert_account_history_index code_le 2 3 tables; insert_storage_history_index code_le 2 3 d1) = Some d' /\
  d' = with_account_history {[ (7, u64_max) := [2] ]} tables.
Proof.
  destruct (history_index_cycle code_le code_le 2 3 4 tables (fun _ => []) (fun _ => [])) as (A & S & d' & E & _).
  - exact tables_ok.
  - lia.
  - unfold u64_max. lia.
  - intros k. apply empty_index.
  - intros k. constructor.
  - intros k. apply empty_index.
  - intros k. constructor.
  - exists d'. split; [exact E|]. revert E. vm_compute. congruence.
Defined.

Definition account_state (t : Z) : option Account := if t <=? 2 then None else if t <=? 3 then Some account1 else Some account2.
Definition slot_state (t : Z) : Z := if t <=? 3 then 0 else 9.

Lemma historical_account_correct_witness : basic_account code_le 3 7 indexed = Ok (Some account1).
Proof.
  refine (historical_account_correct code_le account_state [2; 3] 4 3 7 indexed _ _ _ _ _ _).
  - apply single_index; [done|repeat constructor; lia|repeat constructor; unfold u64_max; lia].
  - intros i Hi. cbn. assert (i = 2 \/ i = 3) as [-> | ->] by set_solver; (split; [lia|]); intros o; set_unfold; naive_solver.
  - intros i Hi. unfold account_state. assert (i <> 2 /\ i <> 3) by set_solver.
    destruct (Z.leb_spec i 2), (Z.leb_spec (i + 1) 2); try lia; try done.
    destruct (Z.leb_spec i 3), (Z.leb_spec (i + 1) 3); try lia; done.
  - reflexivity.
  - lia.
  - unfold u64_max. lia.
Defined.

Lemma historical_storage_correct_witness : exists r, storage_at code_le 4 7 1 indexed = Ok r /\ default 0 r = 9.
Proof.
  refine (historical_storage_correct code_le slot_state [3] 4 4 7 1 indexed _ _ _ _ _ _).
  - apply single_index; [done|repeat constructor; lia|repeat constructor; unfold u64_max; lia].
  - intros i Hi. cbn. assert (i = 3) as -> by set_solver. (split; [lia|]); intros o; set_unfold; naive_solver.
  - intros i Hi. unfold slot_state. assert (i <> 3) by set_solver.
    destruct (Z.leb_spec i 3), (Z.leb_spec (i + 1) 3); try lia; done.
  - intros v. cbn. set_unfold. unfold slot_state. cbn. naive_solver.
  - lia.
  - unfold u64_max. lia.
Defined.

(** Account 8 is not found, although the plain state has had it all along. *)
Example untouched_account_lost : basic_account code_le 2 8 indexed = Ok None /\ PlainAccountState (h_accounts indexed) !! 8 = Some account1.
Proof. by vm_compute. Qed.
End Sample.
