(* ===== verification/Provider.v ===== *)
(** * The database transaction of the provider

    storage/provider/src/transaction.rs and storage/provider/src/utils.rs: inserting
    blocks with their execution results, taking them back off the tip, and the tables
    kept up to date meanwhile (hashed state, history indices, checkpoints).

    A method of [Transaction] is a function of the monad [st] over the tables it uses.
    The state trie (trie/mod.rs) is a parameter of the two operations that compute a
    root, as are keccak256 and the recovery of a signer. *)
From S2P Require Import Prelude Bytes BTree PoolInner Primitives ChainSpec SubState PrimitivesRlp Chain Compact Tables History.

(** ** Errors *)
Inductive TransactionError (TE : Type) :=
| Database (e : DbError)
| HeaderMissing (number : Z)
| CanonicalHeaderMissing (block_number : Z)
| BlockBodyMissing (number : Z)
| BlockTransitionMissing (block_number : Z)
| TotalDifficultyMissing (number : Z)
| MismatchOfTransactionAndSenderId (tx_id : Z)
| BlockBodyTransactionCount
| MerkleTrie (e : TE)
| StateTrieRootMismatch (expected got block_number block_hash : Z).
Arguments Database {TE} e.
Arguments HeaderMissing {TE} number.
Arguments CanonicalHeaderMissing {TE} block_number.
Arguments BlockBodyMissing {TE} number.
Arguments BlockTransitionMissing {TE} block_number.
Arguments TotalDifficultyMissing {TE} number.
Arguments MismatchOfTransactionAndSenderId {TE} tx_id.
Arguments BlockBodyTransactionCount {TE}.
Arguments MerkleTrie {TE} e.
Arguments StateTrieRootMismatch {TE} expected got block_number block_hash.

Definition db_error {TE A} (o : outcome DbError A) : outcome (TransactionError TE) A :=
  match o with Ok a => Ok a | Err e => Err (Database e) | Panic => Panic | Diverge => Diverge end.

(** ** Tables with numbers as keys, as parts of a store *)
Record Table (S V : Type) := mkTable { t_rows : S -> gmap Z V; t_set : gmap Z V -> S -> S }.
Arguments mkTable {S V} _ _.
Arguments t_rows {S V} t _ : rename.
Arguments t_set {S V} t _ _ : rename.

Section Table.
Context {S V TE : Type} (t : Table S V).
Abbreviation op := (st S (TransactionError TE)).

Definition tx_get (k : Z) : op (option V) := s ← st_get; mret (t_rows t s !! k).
Definition tx_put (k : Z) (v : V) : op unit := s ← st_get; st_put (t_set t (<[k := v]> (t_rows t s)) s).
(** A row that the caller cannot do without. *)
Definition tx_expect (k : Z) (e : TransactionError TE) : op V :=
  v ← tx_get k; match v with Some v => mret v | None => st_throw e end.

Definition delete_rows {W} (rows : list (Z * W)) (m : gmap Z V) : gmap Z V := foldl (fun m r => delete r.1 m) m rows.

(** [get_or_take] *)
Definition get_or_take (take : bool) (r : Range Z) : op (list (Z * V)) :=
  s ← st_get;
  items ← st_lift (db_error (walk_range Z.le r (entries Z.le (t_rows t s))));
  if take then st_put (t_set t (delete_rows items (t_rows t s)) s);; mret items else mret items.

(** [seek_exact] of each key, and [delete_current] when it is found *)
Definition delete_found (ks : list Z) : op unit :=
  s ← st_get; st_put (t_set t (foldl (fun m k => delete k m) (t_rows t s) ks) s).
End Table.

(** ** Blocks *)
Record BlockTables := mkBlockTables {
  CanonicalHeaders_ : gmap Z Z;
  HeaderTD_ : gmap Z Z;
  Headers_ : gmap Z Header;
  HeaderNumbers_ : gmap Z Z;
  BlockBodies_ : gmap Z StoredBlockBody;
  BlockOmmers_ : gmap Z (list Header);
  BlockWithdrawals_ : gmap Z (list Withdrawal);
  Transactions_ : gmap Z TransactionSigned;
  TxHashNumber_ : gmap Z Z;
  TxSenders_ : gmap Z Z;
  TxTransitionIndex_ : gmap Z Z;
  BlockTransitionIndex_ : gmap Z Z
}.

Definition CanonicalHeaders : Table BlockTables Z := mkTable CanonicalHeaders_ (fun m '(mkBlockTables _ b c d e f g h i j k l) => mkBlockTables m b c d e f g h i j k l).
Definition HeaderTD : Table BlockTables Z := mkTable HeaderTD_ (fun m '(mkBlockTables a _ c d e f g h i j k l) => mkBlockTables a m c d e f g h i j k l).
Definition Headers : Table BlockTables Header := mkTable Headers_ (fun m '(mkBlockTables a b _ d e f g h i j k l) => mkBlockTables a b m d e f g h i j k l).
Definition HeaderNumbers : Table BlockTables Z := mkTable HeaderNumbers_ (fun m '(mkBlockTables a b c _ e f g h i j k l) => mkBlockTables a b c m e f g h i j k l).
Definition BlockBodies : Table BlockTables StoredBlockBody := mkTable BlockBodies_ (fun m '(mkBlockTables a b c d _ f g h i j k l) => mkBlockTables a b c d m f g h i j k l).
Definition BlockOmmers : Table BlockTables (list Header) := mkTable BlockOmmers_ (fun m '(mkBlockTables a b c d e _ g h i j k l) => mkBlockTables a b c d e m g h i j k l).
Definition BlockWithdrawals : Table BlockTables (list Withdrawal) := mkTable BlockWithdrawals_ (fun m '(mkBlockTables a b c d e f _ h i j k l) => mkBlockTables a b c d e f m h i j k l).
Definition Transactions : Table BlockTables TransactionSigned := mkTable Transactions_ (fun m '(mkBlockTables a b c d e f g _ i j k l) => mkBlockTables a b c d e f g m i j k l).
Definition TxHashNumber : Table BlockTables Z := mkTable TxHashNumber_ (fun m '(mkBlockTables a b c d e f g h _ j k l) => mkBlockTables a b c d e f g h m j k l).
Definition TxSenders : Table BlockTables Z := mkTable TxSenders_ (fun m '(mkBlockTables a b c d e f g h i _ k l) => mkBlockTables a b c d e f g h i m k l).
Definition TxTransitionIndex : Table BlockTables Z := mkTable TxTransitionIndex_ (fun m '(mkBlockTables a b c d e f g h i j _ l) => mkBlockTables a b c d e f g h i j m l).
Definition BlockTransitionIndex : Table BlockTables Z := mkTable BlockTransitionIndex_ (fun m '(mkBlockTables a b c d e f g h i j k _) => mkBlockTables a b c d e f g h i j k m).

(** tables/models/blocks.rs *)
Definition saturating_add (a b : Z) : Z := Z.min (a + b) u64_max.
Definition last_tx_index (b : StoredBlockBody) : Z := saturating_sub (saturating_add (start_tx_id b) (tx_count b)) 1.
Definition tx_id_range (b : StoredBlockBody) : nat := Z.to_nat (wadd 64 (start_tx_id b) (tx_count b) - start_tx_id b).

Section Blocks.
Context {TE : Type} (keccak256 : bytes -> Z) (recover_signer : TransactionSigned -> option Z).
Abbreviation op := (st BlockTables (TransactionError TE)).

Definition get_block_hash (block_number : Z) : op Z := tx_expect CanonicalHeaders block_number (CanonicalHeaderMissing block_number).
Definition get_block_body (number : Z) : op StoredBlockBody := tx_expect BlockBodies number (BlockBodyMissing number).
Definition get_block_transition (key : Z) : op Z := tx_expect BlockTransitionIndex key (BlockTransitionMissing key).
Definition get_header (number : Z) : op Header := tx_expect Headers number (HeaderMissing number).
Definition get_td (block : Z) : op Z := tx_expect HeaderTD block (TotalDifficultyMissing block).

Definition get_next_block_ids (block : Z) : op (Z * Z) :=
  if block =? 0 then mret (0, 0)
  else
    let prev_number := block - 1 in
    prev_body ← get_block_body prev_number;
    last_transition ← get_block_transition prev_number;
    mret (wadd 64 (start_tx_id prev_body) (tx_count prev_body), last_transition).

(** *** utils.rs *)
Fixpoint insert_transactions (tx_iter : list (TransactionSigned * Z)) (current_tx_id transition_id : Z) : op Z :=
  match tx_iter with
  | [] => mret transition_id
  | (transaction, sender) :: tx_iter =>
      tx_put TxSenders current_tx_id sender;;
      tx_put Transactions current_tx_id transaction;;
      tx_put TxTransitionIndex current_tx_id transition_id;;
      tx_put TxHashNumber (ts_hash transaction) current_tx_id;;
      insert_transactions tx_iter (wadd 64 current_tx_id 1) (wadd 64 transition_id 1)
  end.

(** The transactions with their senders, recovered when their number does not fit. *)
Definition with_senders (body : list TransactionSigned) (senders : option (list Z)) : list (TransactionSigned * Z) :=
  let recovered := (fun tx => (tx, default 0 (recover_signer tx))) <$> body in
  match senders with
  | Some senders => if (length body =? length senders)%nat then zip body senders else recovered
  | None => recovered
  end.

Definition provider_insert_block (block : SealedBlock) (senders : option (list Z)) (has_block_reward : bool)
    (parent_tx_num_transition_id : option (Z * Z)) : op (Z * Z) :=
  let header := sh_header (sb_header block) in
  let hash := sh_hash (sb_header block) in
  let block_number := number header in
  tx_put CanonicalHeaders block_number hash;;
  tx_put Headers block_number header;;
  tx_put HeaderNumbers hash block_number;;
  ttd ← (if block_number =? 0 then mret (difficulty header)
         else parent_ttd ← tx_get HeaderTD (block_number - 1);
              mret (wadd 256 (default 0 parent_ttd) (difficulty header)));
  tx_put HeaderTD block_number ttd;;
  (match ommers block with [] => mret tt | l => tx_put BlockOmmers block_number (sh_header <$> l) end);;
  ids ← match parent_tx_num_transition_id with Some ids => mret ids | None => get_next_block_ids block_number end;
  let '(current_tx_id, from_transition) := ids in
  tx_put BlockBodies block_number (mkStoredBlockBody current_tx_id (wrap 64 (zlen (body block))));;
  transition_id ← insert_transactions (with_senders (body block) senders) current_tx_id from_transition;
  has_withdrawals ← match withdrawals block with
                    | Some ((_ :: _) as l) => tx_put BlockWithdrawals block_number l;; mret true
                    | _ => mret false
                    end;
  let to_transition := if has_block_reward || has_withdrawals then wadd 64 transition_id 1 else transition_id in
  tx_put BlockTransitionIndex block_number to_transition;;
  mret (from_transition, to_transition).

Definition insert_canonical_block (block : SealedBlock) (senders : option (list Z)) (has_block_reward : bool) : op (Z * Z) :=
  provider_insert_block block senders has_block_reward None.

(** *** Reading and taking blocks *)

(** The transactions of one body, from the front of the two iterators *)
Fixpoint merge_body (n : nat) (txs : list (Z * TransactionSigned)) (snd_ : list (Z * Z))
    : outcome (TransactionError TE) (list TransactionSignedEcRecovered * (list (Z * TransactionSigned) * list (Z * Z))) :=
  match n with
  | O => Ok ([], (txs, snd_))
  | S n =>
      match txs, snd_ with
      | (tx_id, tx) :: txs, (sender_tx_id, sender) :: snd_ =>
          if negb (tx_id =? sender_tx_id) then Err (MismatchOfTransactionAndSenderId tx_id)
          else '(l, rest) ← merge_body n txs snd_; Ok (mkEcRecovered sender tx :: l, rest)
      | (tx_id, _) :: _, [] | [], (tx_id, _) :: _ => Err (MismatchOfTransactionAndSenderId tx_id)
      | [], [] => Err BlockBodyTransactionCount
      end
  end.

Fixpoint merge_bodies (bodies : list (Z * StoredBlockBody)) (txs : list (Z * TransactionSigned)) (snd_ : list (Z * Z))
    : outcome (TransactionError TE) (list (Z * list TransactionSignedEcRecovered)) :=
  match bodies with
  | [] => Ok []
  | (block_number, block_body) :: bodies =>
      '(one_block_tx, (txs, snd_)) ← merge_body (tx_id_range block_body) txs snd_;
      block_tx ← merge_bodies bodies txs snd_;
      Ok ((block_number, one_block_tx) :: block_tx)
  end.

Definition get_take_block_transaction_range (take : bool) (range : Range Z)
    : op (list (Z * list TransactionSignedEcRecovered)) :=
  block_bodies ← get_or_take BlockBodies false range;
  match head block_bodies, last block_bodies with
  | Some (_, first), Some (_, last) =>
      let ids := range_incl (start_tx_id first) (last_tx_index last) in
      transactions ← get_or_take Transactions take ids;
      senders ← get_or_take TxSenders take ids;
      (if take then
         delete_found TxHashNumber ((fun r => ts_hash r.2) <$> transactions);;
         get_or_take TxTransitionIndex true ids;;
         mret tt
       else mret tt);;
      st_lift (merge_bodies block_bodies transactions senders)
  | _, _ => mret []
  end.

(** The value of the next row when it is the one of the block, and the rows after it *)
Definition next_of {V} (block_number : Z) (rows : list (Z * V)) : option V * list (Z * V) :=
  match rows with
  | (n, v) :: rest => if n =? block_number then (Some v, rest) else (None, rows)
  | [] => (None, [])
  end.

(** The loop over headers, hashes and transactions; [izip!] ends with the shortest. *)
Fixpoint merge_blocks (chain_spec : ChainSpec) (headers : list (Z * Header)) (hashes : list (Z * Z))
    (txs : list (Z * list TransactionSignedEcRecovered)) (om : list (Z * list Header)) (wd : list (Z * list Withdrawal))
    : list SealedBlockWithSenders :=
  match headers, hashes, txs with
  | (main_block_number, header) :: headers, (_, header_hash) :: hashes, (_, tx) :: txs =>
      let '(ommers, om) := next_of main_block_number om in
      let shanghai_is_active := active_at_block (fork chain_spec Paris) main_block_number in
      let '(withdrawals, wd) :=
        if shanghai_is_active then let '(w, wd) := next_of main_block_number wd in (Some (default [] w), wd)
        else (None, wd) in
      mkBlockWithSenders
        (mkSealedBlock (mkSealedHeader header header_hash) (ec_signed <$> tx) (seal_slow keccak256 <$> default [] ommers) withdrawals)
        (signer <$> tx)
      :: merge_blocks chain_spec headers hashes txs om wd
  | _, _, _ => []
  end.

Definition get_take_block_range (chain_spec : ChainSpec) (take : bool) (range : Range Z) : op (list SealedBlockWithSenders) :=
  block_headers ← get_or_take Headers take range;
  match block_headers with
  | [] => mret []
  | _ =>
      block_header_hashes ← get_or_take CanonicalHeaders take range;
      block_ommers ← get_or_take BlockOmmers take range;
      block_withdrawals ← get_or_take BlockWithdrawals take range;
      block_tx ← get_take_block_transaction_range take range;
      (if take then
         get_or_take HeaderTD true range;;
         delete_found HeaderNumbers (snd <$> block_header_hashes)
       else mret tt);;
      mret (merge_blocks chain_spec block_headers block_header_hashes block_tx block_ommers block_withdrawals)
  end.
End Blocks.

(** ** State *)
Record StateTables (IL : Type) := mkStateTables {
  s_history : @HistoryTables IL;
  HashedAccount : gmap Z Account;
  HashedStorage : gset (Z * (Z * Z));
  Bytecodes : gmap Z bytes
}.
Arguments mkStateTables {IL} _ _ _ _.
Arguments s_history {IL} s : rename.
Arguments HashedAccount {IL} s : rename.
Arguments HashedStorage {IL} s : rename.
Arguments Bytecodes {IL} s : rename.

(** Codes of the engine: a key out of order, a key that exists, no row under the cursor *)
Definition MDBX_EKEYMISMATCH : Z := -30418.
Definition MDBX_KEYEXIST : Z := -30799.
Definition MDBX_NOTFOUND : Z := -30798.

Definition H256_bytes (h : Z) : bytes := be_bytes 32 h.
Definition address_bytes (a : Z) : bytes := be_bytes 20 a.

Section State.
Context {IL TE : Type} `{!EliasFano IL}.
Context (info_le : relation (option Account)) (value_le : relation Z).
Context `{!RelDecision info_le, !RelDecision value_le}.
Context (keccak256 : bytes -> Z).
(** The account under a cursor whose [seek_exact] found none: the engine does not say. *)
Context (after_miss : gmap Z Account -> Z -> option Z).
Abbreviation state := (StateTables IL).
Abbreviation op := (st state (TransactionError TE)).
Implicit Types (s : state).

Definition plain_accounts s : gmap Z Account := PlainAccountState (h_accounts (s_history s)).
Definition account_changeset s : gset (Z * (Z * option Account)) := AccountChangeSetTable (h_accounts (s_history s)).
Definition plain_storage s : gset (Z * (Z * Z)) := PlainStorageState (s_history s).
Definition storage_changeset s : gset ((Z * Z) * (Z * Z)) := StorageChangeSet (s_history s).

Definition with_history (h : HistoryTables) s : state := mkStateTables h (HashedAccount s) (HashedStorage s) (Bytecodes s).
Definition with_accounts (t : AccountTables) s : state :=
  let h := s_history s in
  with_history (mkHistoryTables t (PlainStorageState h) (StorageChangeSet h) (AccountHistory h) (StorageHistory h)) s.
Definition with_storage (p : gset (Z * (Z * Z))) (c : gset ((Z * Z) * (Z * Z))) s : state :=
  let h := s_history s in
  with_history (mkHistoryTables (h_accounts h) p c (AccountHistory h) (StorageHistory h)) s.
Definition with_hashed (a : gmap Z Account) (t : gset (Z * (Z * Z))) s : state :=
  mkStateTables (s_history s) a t (Bytecodes s).
Definition with_bytecodes (b : gmap Z bytes) s : state :=
  mkStateTables (s_history s) (HashedAccount s) (HashedStorage s) b.

Definition modify (f : state -> state) : op unit := s ← st_get; st_put (f s).

(** *** Execution results *)

(** [append] on StorageChangeSet: not before the last key. *)
Definition append_storage_changeset (storage_id : Z * Z) (old : Z * Z) : op unit :=
  s ← st_get;
  match last (storage_changeset_rows value_le (s_history s)) with
  | Some (k, _) =>
      if key_lt (lex_le Z.le Z.le) storage_id k then st_throw (Database (WriteError MDBX_EKEYMISMATCH))
      else st_put (with_storage (plain_storage s) ({[(storage_id, old)]} ∪ storage_changeset s) s)
  | None => st_put (with_storage (plain_storage s) ({[(storage_id, old)]} ∪ storage_changeset s) s)
  end.

Definition put_plain_storage (address key value : Z) : op unit :=
  modify (fun s => with_storage ({[(address, (key, value))]} ∪ plain_storage s) (storage_changeset s) s).

Fixpoint append_entries (storage_id : Z * Z) (olds : list (Z * Z)) : op unit :=
  match olds with
  | [] => mret tt
  | old :: olds => append_storage_changeset storage_id old;; append_entries storage_id olds
  end.

(** The new values after a wipe *)
Fixpoint put_new_storage (address : Z) (storage : list (Z * (Z * Z))) : op unit :=
  match storage with
  | [] => mret tt
  | (key, (_, new_value)) :: storage =>
      (if negb (new_value =? 0) then put_plain_storage address key new_value else mret tt);;
      put_new_storage address storage
  end.

Fixpoint change_storage (storage_id : Z * Z) (storage : list (Z * (Z * Z))) : op unit :=
  match storage with
  | [] => mret tt
  | (key, (old_value, new_value)) :: storage =>
      let address := storage_id.2 in
      append_storage_changeset storage_id (key, old_value);;
      modify (fun s => with_storage (delete_value address (key, old_value) (plain_storage s)) (storage_changeset s) s);;
      (if negb (new_value =? 0) then put_plain_storage address key new_value else mret tt);;
      change_storage storage_id storage
  end.

Definition apply_account_changeset (spurious_dragon_active : bool) (current_transition_id address : Z) (c : AccountChangeSet)
    : op unit :=
  modify (fun s => with_accounts (apply_to_db (account c) address current_transition_id spurious_dragon_active (h_accounts (s_history s))) s);;
  let storage_id := (current_transition_id, address) in
  let storage := entries Z.le (acs_storage c) in
  if wipe_storage c then
    s ← st_get;
    append_entries storage_id (snd <$> filter (fun r => r.1 = address) (dup_rows Z.le Z.le value_le (plain_storage s)));;
    modify (fun s => with_storage (delete_key address (plain_storage s)) (storage_changeset s) s);;
    put_new_storage address storage
  else change_storage storage_id storage.

Fixpoint apply_account_changesets (spurious_dragon_active : bool) (current_transition_id : Z) (l : list (Z * AccountChangeSet)) : op unit :=
  match l with
  | [] => mret tt
  | (address, c) :: l =>
      apply_account_changeset spurious_dragon_active current_transition_id address c;;
      apply_account_changesets spurious_dragon_active current_transition_id l
  end.

Fixpoint apply_transactions (spurious_dragon_active : bool) (current_transition_id : Z) (l : list TransactionChangeSet) : op Z :=
  match l with
  | [] => mret current_transition_id
  | result :: l =>
      apply_account_changesets spurious_dragon_active current_transition_id (entries Z.le (changeset result));;
      modify (fun s => with_bytecodes (new_bytecodes result ∪ Bytecodes s) s);;
      apply_transactions spurious_dragon_active (wadd 64 current_transition_id 1) l
  end.

Definition apply_block_changesets (spurious_dragon_active : bool) (current_transition_id : Z)
    (l : list (Z * AccountInfoChangeSet)) (t : AccountTables) : AccountTables :=
  foldl (fun t e => apply_to_db e.2 e.1 current_transition_id spurious_dragon_active t) t l.

(** The loop of [insert_execution_result] *)
Fixpoint apply_results (chain_spec : ChainSpec) (block_number current_transition_id : Z) (changesets : list ExecutionResult) : op unit :=
  match changesets with
  | [] => mret tt
  | results :: changesets =>
      let block_number := wadd 64 block_number 1 in
      let spurious_dragon_active := active_at_block (fork chain_spec SpuriousDragon) block_number in
      current_transition_id ← apply_transactions spurious_dragon_active current_transition_id (tx_changesets results);
      modify (fun s => with_accounts (apply_block_changesets spurious_dragon_active current_transition_id
        (entries Z.le (block_changesets results)) (h_accounts (s_history s))) s);;
      let current_transition_id :=
        if decide (block_changesets results = ∅) then current_transition_id else wadd 64 current_transition_id 1 in
      apply_results chain_spec block_number current_transition_id changesets
  end.

(** *** Taking execution results *)

(** What is known of an account while walking the change sets backwards: its value
    before the last change seen, if any, and those of its slots. *)
Abbreviation LocalPlainState := (gmap Z (option (option Account) * gmap Z Z)).
Abbreviation Changesets := (gmap Z (gmap Z (AccountInfoChangeSet * gmap Z (Z * Z)))).

Definition changes_at (transition_id address : Z) (c : Changesets) : AccountInfoChangeSet * gmap Z (Z * Z) :=
  default (NoChange false, ∅) (default ∅ (c !! transition_id) !! address).
Definition set_changes (transition_id address : Z) (x : AccountInfoChangeSet * gmap Z (Z * Z)) (c : Changesets) : Changesets :=
  <[transition_id := <[address := x]> (default ∅ (c !! transition_id))]> c.

(** The account rows, last one first; the plain value is looked up with [seek]. *)
Fixpoint collect_accounts (plain : gmap Z Account) (rows : list (Z * (Z * option Account))) (acc : LocalPlainState * Changesets)
    : outcome (TransactionError TE) (LocalPlainState * Changesets) :=
  match rows with
  | [] => Ok acc
  | (transition_id, (address, info)) :: rows =>
      let '(local, all) := acc in
      new_info ← match local !! address with
                 | None => Ok (snd <$> seek Z.le address (entries Z.le plain))
                 | Some (Some new_account, _) => Ok new_account
                 | Some (None, _) => Panic
                 end;
      let storage := match local !! address with Some (_, storage) => storage | None => ∅ end in
      let all := set_changes transition_id address
                   (AccountInfoChangeSet_new info new_info, (changes_at transition_id address all).2) all in
      collect_accounts plain rows (<[address := (Some info, storage)]> local, all)
  end.

Definition plain_slot (plain : gset (Z * (Z * Z))) (address key : Z) : option Z :=
  match seek_by_key_subkey Z.le Z.le value_le address key plain with
  | Some (k, v) => if k =? key then Some v else None
  | None => None
  end.

Definition collect_storage_row (plain : gset (Z * (Z * Z))) (acc : LocalPlainState * Changesets)
    (row : (Z * Z) * (Z * Z)) : LocalPlainState * Changesets :=
  let '((transition_id, address), (key, value)) := row in
  let '(local, all) := acc in
  let '(account, storage) := default (None, ∅) (local !! address) in
  let new_storage := match storage !! key with Some v => v | None => default 0 (plain_slot plain address key) end in
  let '(a, slots) := changes_at transition_id address all in
  (<[address := (account, <[key := value]> storage)]> local,
   set_changes transition_id address (a, <[key := (value, new_storage)]> slots) all).

(** [seek_exact] and [delete_current] *)
Definition revert_plain_account (address : Z) (info : option Account) : op unit :=
  s ← st_get;
  let plain := plain_accounts s in
  let put m := st_put (with_accounts (mkAccountTables m (account_changeset s)) s) in
  match info with
  | Some a => put (<[address := a]> plain)
  | None =>
      match plain !! address with
      | Some _ => put (delete address plain)
      | None =>
          match after_miss plain address with
          | Some other => put (delete other plain)
          | None => st_throw (Database (DeleteError MDBX_NOTFOUND))
          end
      end
  end.

(** [insert] with [NO_OVERWRITE]: no row of the address may exist. *)
Definition insert_plain_storage (address key value : Z) : op unit :=
  s ← st_get;
  if decide (filter (fun r => r.1 = address) (plain_storage s) = ∅) then put_plain_storage address key value
  else st_throw (Database (WriteError MDBX_KEYEXIST)).

Fixpoint revert_storages (address : Z) (storage : list (Z * Z)) : op unit :=
  match storage with
  | [] => mret tt
  | (key, value) :: storage =>
      modify (fun s => match plain_slot (plain_storage s) address key with
                       | Some v => with_storage (delete_value address (key, v) (plain_storage s)) (storage_changeset s) s
                       | None => s
                       end);;
      (if negb (value =? 0) then insert_plain_storage address key value else mret tt);;
      revert_storages address storage
  end.

Fixpoint revert_plain_state (local : list (Z * (option (option Account) * gmap Z Z))) : op unit :=
  match local with
  | [] => mret tt
  | (address, (account, storage)) :: local =>
      (match account with Some info => revert_plain_account address info | None => mret tt end);;
      revert_storages address (entries Z.le storage);;
      revert_plain_state local
  end.

Definition default_receipt : Receipt := mkReceipt TxLegacyType false 0 0 [].

Definition changeset_of (m : gmap Z (AccountInfoChangeSet * gmap Z (Z * Z))) : gmap Z AccountChangeSet :=
  (fun x => mkAccountChangeSet x.1 x.2 false) <$> m.

(** The change set of the transition, when it is the next one *)
Definition next_changeset {V} (transition_id : Z) (l : list (Z * gmap Z V)) : gmap Z V * list (Z * gmap Z V) :=
  match l with
  | (t, m) :: rest => if transition_id =? t then (m, rest) else (∅, l)
  | [] => (∅, [])
  end.

Fixpoint transaction_results (n : nat) (next_transition_id : Z) (l : list (Z * gmap Z (AccountInfoChangeSet * gmap Z (Z * Z))))
    : list TransactionChangeSet * (Z * list (Z * gmap Z (AccountInfoChangeSet * gmap Z (Z * Z)))) :=
  match n with
  | O => ([], (next_transition_id, l))
  | S n =>
      let '(m, l) := next_changeset next_transition_id l in
      let '(rs, rest) := transaction_results n (wadd 64 next_transition_id 1) l in
      (mkTransactionChangeSet default_receipt (changeset_of m) ∅ :: rs, rest)
  end.

Fixpoint block_results (bodies : list (Z * StoredBlockBody)) (transitions : list (Z * Z)) (next_transition_id : Z)
    (l : list (Z * gmap Z (AccountInfoChangeSet * gmap Z (Z * Z)))) : list ExecutionResult :=
  match bodies with
  | [] => []
  | (_, block_body) :: bodies =>
      let '(txs, (next_transition_id, l)) := transaction_results (Z.to_nat (tx_count block_body)) next_transition_id l in
      match transitions with
      | [] => []
      | (_, block_transition) :: transitions =>
          if block_transition =? wadd 64 next_transition_id 1 then
            let '(m, l) := next_changeset next_transition_id l in
            mkExecutionResult txs (fst <$> m) :: block_results bodies transitions (wadd 64 next_transition_id 1) l
          else mkExecutionResult txs ∅ :: block_results bodies transitions next_transition_id l
      end
  end.

(** The rows of the change sets in a range, taken off when [take] *)
Definition get_or_take_storage_changeset (take : bool) (r : Range (Z * Z)) : op (list ((Z * Z) * (Z * Z))) :=
  s ← st_get;
  items ← st_lift (db_error (walk_range (lex_le Z.le Z.le) r (storage_changeset_rows value_le (s_history s))));
  (if take then st_put (with_storage (plain_storage s) (storage_changeset s ∖ list_to_set items) s) else mret tt);;
  mret items.

Definition get_or_take_account_changeset (take : bool) (r : Range Z) : op (list (Z * (Z * option Account))) :=
  s ← st_get;
  items ← st_lift (db_error (walk_range Z.le r (account_changeset_rows info_le (s_history s))));
  (if take then st_put (with_accounts (mkAccountTables (plain_accounts s) (account_changeset s ∖ list_to_set items)) s) else mret tt);;
  mret items.

(** The part of [get_take_block_execution_result_range] on the state: the change sets
    of the transitions from [from] up to [to], in one map, and the plain state reverted *)
Definition take_changesets (take : bool) (from to : Z) : op Changesets :=
  storage_changeset ← get_or_take_storage_changeset take (range (from, 0) (to, 0));
  account_changeset ← get_or_take_account_changeset take (range from to);
  s ← st_get;
  acc ← st_lift (collect_accounts (plain_accounts s) (reverse account_changeset) (∅, ∅));
  let '(local, all_changesets) := foldl (collect_storage_row (plain_storage s)) acc (reverse storage_changeset) in
  (if take then revert_plain_state (entries Z.le local) else mret tt);;
  mret all_changesets.

(** *** Hashed state *)
Definition get_addresses_and_keys_of_changed_storages (from to : Z) : op (gmap Z (gset Z)) :=
  s ← st_get;
  rows ← st_lift (db_error (walk_range (lex_le Z.le Z.le) (range (from, 0) (to, 0)) (storage_changeset_rows value_le (s_history s))));
  mret (foldl (fun m r => <[r.1.2 := {[r.2.1]} ∪ default ∅ (m !! r.1.2)]> m) ∅ rows).

Definition get_plainstate_storages (lists : gmap Z (gset Z)) : op (list (Z * list (Z * Z))) :=
  s ← st_get;
  mret ((fun e => (e.1, (fun key => (key, default 0 (plain_slot (plain_storage s) e.1 key))) <$> merge_sort Z.le (elements e.2)))
        <$> entries Z.le lists).

(** [delete_current] of the slot, and [upsert] of the value unless it is zero *)
Definition set_hashed_slot (hashed_address key value : Z) (t : gset (Z * (Z * Z))) : gset (Z * (Z * Z)) :=
  let t := match plain_slot t hashed_address key with Some v => delete_value hashed_address (key, v) t | None => t end in
  if negb (value =? 0) then {[(hashed_address, (key, value))]} ∪ t else t.

Definition set_hashed_slots (hashed : list (Z * list (Z * Z))) (t : gset (Z * (Z * Z))) : gset (Z * (Z * Z)) :=
  foldl (fun t e => foldl (fun t x => set_hashed_slot e.1 x.1 x.2 t) t e.2) t hashed.

Definition insert_storage_for_hashing (storages : list (Z * list (Z * Z))) : op unit :=
  let hash_storage (storage : list (Z * Z)) : gmap Z Z :=
    foldl (fun m x => <[keccak256 (H256_bytes x.1) := x.2]> m) ∅ storage in
  let hashed : gmap Z (gmap Z Z) :=
    foldl (fun m e => <[keccak256 (address_bytes e.1) := hash_storage e.2]> m) ∅ storages in
  modify (fun s => with_hashed (HashedAccount s)
    (set_hashed_slots ((fun e => (e.1, entries Z.le e.2)) <$> entries Z.le hashed) (HashedStorage s)) s).

Definition get_addresses_of_changed_accounts (from to : Z) : op (gset Z) :=
  s ← st_get;
  rows ← st_lift (db_error (walk_range Z.le (range from to) (account_changeset_rows info_le (s_history s))));
  mret (foldl (fun m r => {[r.2.1]} ∪ m) ∅ rows).

Definition get_plainstate_accounts (lists : gset Z) : op (list (Z * option Account)) :=
  s ← st_get;
  mret ((fun address => (address, plain_accounts s !! address)) <$> merge_sort Z.le (elements lists)).

Definition set_hashed_accounts (l : list (Z * option Account)) (m : gmap Z Account) : gmap Z Account :=
  foldl (fun m e => match e.2 with Some a => <[e.1 := a]> m | None => delete e.1 m end) m l.

Definition insert_account_for_hashing (accounts : list (Z * option Account)) : op unit :=
  let hashed : gmap Z (option Account) := foldl (fun m e => <[keccak256 (address_bytes e.1) := e.2]> m) ∅ accounts in
  modify (fun s => with_hashed (set_hashed_accounts (entries Z.le hashed) (HashedAccount s)) (HashedStorage s) s).

(** The hashing stages of [Transaction::insert_block] *)
Definition insert_hashes (from to : Z) : op unit :=
  lists ← get_addresses_and_keys_of_changed_storages from to;
  storages ← get_plainstate_storages lists;
  insert_storage_for_hashing storages;;
  lists ← get_addresses_of_changed_accounts from to;
  accounts ← get_plainstate_accounts lists;
  insert_account_for_hashing accounts.

Definition unwind_account_hashing (r : Range Z) : op unit :=
  s ← st_get;
  rows ← st_lift (db_error (walk_range Z.le r (account_changeset_rows info_le (s_history s))));
  let accounts : gmap Z (option Account) := foldl (fun m x => <[x.2.1 := x.2.2]> m) ∅ (reverse rows) in
  let hashed : gmap Z (option Account) :=
    foldl (fun m e => <[keccak256 (address_bytes e.1) := e.2]> m) ∅ (entries Z.le accounts) in
  modify (fun s => with_hashed (set_hashed_accounts (entries Z.le hashed) (HashedAccount s)) (HashedStorage s) s).

Definition unwind_storage_hashing (r : Range (Z * Z)) : op unit :=
  s ← st_get;
  rows ← st_lift (db_error (walk_range (lex_le Z.le Z.le) r (storage_changeset_rows value_le (s_history s))));
  let slots : gmap (Z * Z) Z := foldl (fun m x => <[(x.1.2, x.2.1) := x.2.2]> m) ∅ (reverse rows) in
  let hashed : gmap (Z * Z) Z :=
    foldl (fun m e => <[(keccak256 (address_bytes e.1.1), keccak256 (H256_bytes e.1.2)) := e.2]> m) ∅
      (entries (lex_le Z.le Z.le) slots) in
  modify (fun s => with_hashed (HashedAccount s)
    (foldl (fun t e => set_hashed_slot e.1.1 e.1.2 e.2 t) (HashedStorage s) (entries (lex_le Z.le Z.le) hashed)) s).
End State.

(** ** The whole store *)
Record ProviderTables (IL TR : Type) := mkProviderTables {
  p_blocks : BlockTables;
  p_state : StateTables IL;
  p_trie : TR;
  SyncStage : gmap string Z
}.
Arguments mkProviderTables {IL TR} _ _ _ _.
Arguments p_blocks {IL TR} p : rename.
Arguments p_state {IL TR} p : rename.
Arguments p_trie {IL TR} p : rename.
Arguments SyncStage {IL TR} p : rename.

Section Provider.
Context {IL TE TR : Type} `{!EliasFano IL}.
Context (info_le : relation (option Account)) (value_le : relation Z).
Context `{!RelDecision info_le, !RelDecision value_le}.
Context (keccak256 : bytes -> Z) (recover_signer : TransactionSigned -> option Z).
Context (after_miss : gmap Z Account -> Z -> option Z).
(** [DBTrieLoader::update_root] and [root]: from the hashed state and the change sets *)
Context (update_root : StateTables IL -> TR -> Z -> Z * Z -> outcome TE (Z * TR)).
(** [EMPTY_ROOT] of primitives/src/proofs.rs *)
Definition EMPTY_ROOT : Z := 0x56e81f171bcc55a6ff8345e692c0f86e5b48e01b996cadc001622fb5e363b421.

Abbreviation store := (ProviderTables IL TR).
Abbreviation op := (st store (TransactionError TE)).

Definition on_blocks {A} (m : st BlockTables (TransactionError TE) A) : op A := fun p =>
  let '(r, b) := m (p_blocks p) in (r, mkProviderTables b (p_state p) (p_trie p) (SyncStage p)).
Definition on_state {A} (m : st (StateTables IL) (TransactionError TE) A) : op A := fun p =>
  let '(r, s) := m (p_state p) in (r, mkProviderTables (p_blocks p) s (p_trie p) (SyncStage p)).
Definition on_history (f : HistoryTables -> outcome (TransactionError TE) HistoryTables) : op unit :=
  on_state (s ← st_get; h ← st_lift (f (s_history s)); st_put (with_history h s)).
(** [unwrap] and [expect] *)
Definition unwrap {A} (m : op A) : op A := fun p =>
  match m p with (Err _, p) => (Panic, p) | r => r end.
Definition expect_some {E A} (o : option A) : outcome E A := match o with Some a => Ok a | None => Panic end.

Definition trie_update (current_root from to : Z) : op Z := fun p =>
  match update_root (p_state p) (p_trie p) current_root (from, to) with
  | Ok (root, t) => (Ok root, mkProviderTables (p_blocks p) (p_state p) t (SyncStage p))
  | Err e => (Err (MerkleTrie e), p)
  | Panic => (Panic, p)
  | Diverge => (Diverge, p)
  end.

Definition insert_execution_result (changesets : list ExecutionResult) (chain_spec : ChainSpec) (parent_block_number : Z) : op unit :=
  current_transition_id ← on_blocks (get_block_transition parent_block_number);
  on_state (apply_results value_le chain_spec parent_block_number current_transition_id changesets).

(** [Transaction::insert_block] *)
Definition transaction_insert_block (block : SealedBlockWithSenders) (chain_spec : ChainSpec) (changeset : ExecutionResult) : op unit :=
  let header := sh_header (b_header block) in
  let parent_block_number := saturating_sub (number header) 1 in
  '(from, to) ← unwrap (on_blocks (insert_canonical_block recover_signer (sbs_block block) (Some (senders block)) false));
  insert_execution_result [changeset] chain_spec parent_block_number;;
  on_state (insert_hashes info_le value_le keccak256 from to);;
  parent ← on_blocks (get_header parent_block_number);
  root ← trie_update (state_root parent) from to;
  if negb (root =? state_root header)
  then st_throw (StateTrieRootMismatch (state_root header) root (number header) (b_hash block))
  else
    on_history (fun h => expect_some (insert_account_history_index info_le from to h));;
    on_history (fun h => expect_some (insert_storage_history_index value_le from to h)).

Definition get_take_block_execution_result_range (take : bool) (range : Range Z) : op (list ExecutionResult) :=
  block_transition ← on_blocks (get_or_take BlockTransitionIndex take range);
  match head block_transition, last block_transition with
  | Some (first_block_number, _), Some (_, to) =>
      from ← on_blocks (get_block_transition (saturating_sub first_block_number 1));
      block_bodies ← on_blocks (get_or_take BlockBodies false range);
      all_changesets ← on_state (take_changesets info_le value_le after_miss take from to);
      mret (block_results block_bodies block_transition from (entries Z.le all_changesets))
  | _, _ => mret []
  end.

(** The state side of taking blocks: hashed tables and history back to the parent *)
Definition unwind_state (range : Range Z) : op unit :=
  '(from_transition, (parent_number, parent_state_root)) ←
    match start_bound range with
    | Included n =>
        let parent_number := saturating_sub n 1 in
        transition ← on_blocks (get_block_transition parent_number);
        parent ← on_blocks (get_header parent_number);
        mret (transition, (parent_number, state_root parent))
    | Excluded n =>
        transition ← on_blocks (get_block_transition n);
        parent ← on_blocks (get_header n);
        mret (transition, (n, state_root parent))
    | Unbounded => mret (0, (0, EMPTY_ROOT))
    end;
  to_transition ←
    match end_bound range with
    | Included n => on_blocks (get_block_transition n)
    | Excluded n => on_blocks (get_block_transition (saturating_sub n 1))
    | Unbounded => mret u64_max
    end;
  let transition_range := Tables.range from_transition to_transition in
  let transition_storage_range := Tables.range (from_transition, 0) (to_transition, 0) in
  on_state (unwind_account_hashing info_le keccak256 transition_range);;
  on_history (fun h => db_error (unwind_account_history_indices info_le transition_range h));;
  on_state (unwind_storage_hashing value_le keccak256 transition_storage_range);;
  on_history (fun h => db_error (unwind_storage_history_indices value_le transition_storage_range h));;
  p ← st_get;
  let tip_number := default 0 (fst <$> last_key_value Z.le (CanonicalHeaders_ (p_blocks p))) in
  tip ← on_blocks (get_header tip_number);
  new_state_root ← trie_update (state_root tip) from_transition to_transition;
  if negb (new_state_root =? parent_state_root) then
    parent_hash ← on_blocks (get_block_hash parent_number);
    st_throw (StateTrieRootMismatch parent_state_root new_state_root parent_number parent_hash)
  else mret tt.

Definition get_take_block_and_execution_range (take : bool) (chain_spec : ChainSpec) (range : Range Z)
    : op (list (SealedBlockWithSenders * ExecutionResult)) :=
  (if take then unwind_state range else mret tt);;
  blocks ← on_blocks (get_take_block_range keccak256 chain_spec take range);
  execution_res ← get_take_block_execution_result_range take range;
  (if take then on_blocks (get_or_take BlockBodies true range);; mret tt else mret tt);;
  mret (zip blocks execution_res).

Definition update_pipeline_stages (block_number : Z) : op unit :=
  p ← st_get;
  st_put (mkProviderTables (p_blocks p) (p_state p) (p_trie p) ((fun _ => block_number) <$> SyncStage p)).
End Provider.
