(* ===== verification/ProviderBlocks.v ===== *)
(** * Blocks in the database: what is inserted is read back and taken off again

    Over [provider_insert_block] and [get_take_block_range] of Provider.  A table that
    rows were appended to is [ext m new]; the blocks inserted on top of a store are
    described table by table by [holds_blocks]. *)
From S2P Require Import Prelude Bytes BTree PoolInner Primitives ChainSpec SubState PrimitivesRlp Chain Compact Tables History Provider.

(** ** Rows appended to a table *)
Definition ext {V} (m : gmap Z V) (new : list (Z * V)) : gmap Z V := foldl (fun m r => <[r.1 := r.2]> m) m new.
#[global] Arguments ext : simpl never.
Definition below {V} (n : Z) (m : gmap Z V) : Prop := forall k v, m !! k = Some v -> k < n.
Definition rows_ok {V} (n : Z) (new : list (Z * V)) : Prop :=
  StronglySorted (fun x y => x.1 < y.1) new /\ Forall (fun r => n <= r.1) new.

Section Ext.
Context {V : Type}.
Implicit Types (m : gmap Z V) (new : list (Z * V)).

Lemma ext_snoc m new k v : ext m (new ++ [(k, v)]) = <[k := v]> (ext m new).
Proof. unfold ext. by rewrite foldl_app. Qed.

Lemma ext_cons m k v new : ext m ((k, v) :: new) = ext (<[k := v]> m) new.
Proof. done. Qed.

Lemma ext_app m new new' : ext m (new ++ new') = ext (ext m new) new'.
Proof. apply foldl_app. Qed.

Lemma lookup_ext_ne m new k : k ∉ (new.*1) -> ext m new !! k = m !! k.
Proof.
  revert m. induction new as [|[k' v] new IH]; intros m Hk; [done|]. cbn in *. apply not_elem_of_cons in Hk as [? ?].
  rewrite ext_cons, IH by done. by rewrite lookup_insert_ne.
Qed.

Lemma lookup_ext m new k v : NoDup new.*1 -> (ext m new !! k = Some v) <-> ((k, v) ∈ new \/ ((k ∉ new.*1) /\ m !! k = Some v)).
Proof.
  revert m. induction new as [|[k' v'] new IH]; intros m Hn.
  { cbn. split; [intros; right; split; [apply not_elem_of_nil|done]|]. by intros [?%not_elem_of_nil|[]]. }
  cbn in Hn. apply NoDup_cons in Hn as [Hk' Hn]. cbn. rewrite ext_cons, IH by done. rewrite elem_of_cons, not_elem_of_cons.
  destruct (decide (k = k')) as [->|Hne].
  - rewrite lookup_insert_eq. naive_solver.
  - rewrite lookup_insert_ne by done. naive_solver.
Qed.

Lemma rows_NoDup n new : rows_ok n new -> NoDup new.*1.
Proof.
  intros [Hs _]. induction Hs as [|x new Hs IH Hx]; [constructor|]. cbn. constructor; [|done].
  intros (y & E & Hin)%list_elem_of_fmap. rewrite Forall_forall in Hx. specialize (Hx _ Hin). lia.
Qed.

Lemma entries_ext m new n : below n m -> rows_ok n new -> entries Z.le (ext m new) = entries Z.le m ++ new.
Proof.
  intros Hm Hr. pose proof (rows_NoDup _ _ Hr) as Hn. destruct Hr as [Hs Hb]. apply entries_unique; [apply _| |].
  - apply StronglySorted_app_2.
    + intros [k v] [k' v'] Hin Hin'. apply elem_of_entries, Hm in Hin. rewrite Forall_forall in Hb. apply Hb in Hin'.
      cbn in *. unfold strict. lia.
    + apply (entries_strict Z.le).
    + eapply StronglySorted_impl; [|exact Hs]. intros x y Hxy. cbn in Hxy. unfold strict. lia.
  - intros k v. rewrite elem_of_app, elem_of_entries, lookup_ext by done. split; [|tauto]. intros [Hl|]; [|by left]. right.
    split; [|done]. apply Hm in Hl. intros (y & -> & Hin)%list_elem_of_fmap. rewrite Forall_forall in Hb. apply Hb in Hin. lia.
Qed.

Lemma rows_from_ext m new n : below n m -> rows_ok n new -> rows_from Z.le n (entries Z.le (ext m new)) = new.
Proof.
  intros Hm Hr. rewrite (entries_ext _ _ n) by done. unfold rows_from. rewrite filter_app, filter_none, filter_all.
  - done.
  - apply Hr.
  - apply Forall_forall. intros [k v] Hin%elem_of_entries%Hm. cbn. lia.
Qed.

(** The range of the keys from [n] on, up to [e] *)
Definition reaches (n : Z) (e : Bound Z) new : Prop :=
  end_before Z.le e n = false /\ Forall (fun r => within Z.le e r.1 = true) new.

Lemma walk_range_ext m new n e : below n m -> rows_ok n new -> reaches n e new ->
  walk_range Z.le (mkRange (Included n) e) (entries Z.le (ext m new)) = Ok new.
Proof.
  intros Hm Hr [He Hw]. unfold walk_range. cbn [start_bound end_bound]. rewrite He, rows_from_ext by done.
  destruct new as [|x new]; [done|]. do 2 f_equal. apply Forall_cons in Hw as [_ Hw]. clear -Hw.
  induction Hw as [|y new Hy Hw IH]; [done|]. cbn. by rewrite Hy, IH.
Qed.

Lemma delete_keys_lookup (ks : list Z) m k : foldl (fun m k => delete k m) m ks !! k = if decide (k ∈ ks) then None else m !! k.
Proof.
  revert m. induction ks as [|k' ks IH]; intros m; cbn.
  { rewrite decide_False; [done|]. apply not_elem_of_nil. }
  rewrite IH. destruct (decide (k ∈ ks)); [rewrite decide_True; [done|by right]|]. destruct (decide (k = k')) as [->|].
  - rewrite lookup_delete_eq, decide_True; [done|left].
  - rewrite lookup_delete_ne, decide_False; [done|set_solver|done].
Qed.

(** Deleting the appended keys gives the table before, if it had none of them. *)
Lemma delete_ext m new (ks : list Z) : ks = new.*1 -> Forall (fun k => m !! k = None) ks ->
  foldl (fun m k => delete k m) (ext m new) ks = m.
Proof.
  intros -> Hf. apply map_eq. intros k. rewrite delete_keys_lookup. case_decide as Hk; [|by apply lookup_ext_ne].
  rewrite Forall_forall in Hf. by rewrite Hf.
Qed.

Lemma delete_rows_eq {W} (rows : list (Z * W)) m : delete_rows rows m = foldl (fun m k => delete k m) m rows.*1.
Proof. unfold delete_rows. revert m. induction rows; cbn; auto. Qed.

Lemma delete_rows_ext m new n : below n m -> rows_ok n new -> delete_rows new (ext m new) = m.
Proof.
  intros Hm [_ Hb]. rewrite delete_rows_eq. apply delete_ext; [done|]. apply Forall_fmap. eapply Forall_impl; [exact Hb|].
  intros [k v] Hk. cbn in *. destruct (m !! k) eqn:E; [|done]. apply Hm in E. lia.
Qed.

Lemma below_ext m new n n' : below n m -> n <= n' -> Forall (fun r => r.1 < n') new -> NoDup new.*1 -> below n' (ext m new).
Proof.
  intros Hm Hn Hb Hd k v. rewrite lookup_ext by done. rewrite Forall_forall in Hb. intros [Hin|[_ Hl]]; [by apply Hb in Hin|].
  apply Hm in Hl. lia.
Qed.
End Ext.

(** ** Operations on one table *)
Section Ops.
Context {S V TE : Type} (t : Table S V).

Lemma bind_put {B} k v (f : unit -> st S (TransactionError TE) B) s :
  (tx_put t k v ≫= f) s = f tt (t_set t (<[k := v]> (t_rows t s)) s).
Proof. done. Qed.

Lemma take_rows (take : bool) m new n e s : t_rows t s = ext m new -> below n m -> rows_ok n new -> reaches n e new ->
  get_or_take (TE := TE) t take (mkRange (Included n) e) s = (Ok new, if take then t_set t m s else s).
Proof.
  intros E Hm Hr Hw. unfold get_or_take, mbind, st_bind, st_get, st_lift. rewrite E, (walk_range_ext _ _ n) by done.
  cbn [db_error]. destruct take; [|done]. unfold st_put. cbn. by rewrite (delete_rows_ext _ _ n).
Qed.

Lemma delete_found_ok m new ks s : t_rows t s = ext m new -> ks = new.*1 -> Forall (fun k => m !! k = None) ks ->
  delete_found (TE := TE) t ks s = (Ok tt, t_set t m s).
Proof. intros E Hk Hf. unfold delete_found, mbind, st_bind, st_get, st_put. by rewrite E, delete_ext. Qed.
End Ops.

(** ** Numbered lists *)
Definition number_from {A} (m : Z) (l : list A) : list (Z * A) := zip (seqZ m (zlen l)) l.

Lemma number_from_nil {A} m : number_from m ([] : list A) = [].
Proof. done. Qed.
Lemma number_from_cons {A} m (x : A) l : number_from m (x :: l) = (m, x) :: number_from (m + 1) l.
Proof. unfold number_from. cbn [length]. rewrite seqZ_cons by lia. cbn. do 3 f_equal. f_equal; lia. Qed.
Lemma number_from_app {A} m (l k : list A) : number_from m (l ++ k) = number_from m l ++ number_from (m + zlen l) k.
Proof.
  revert m. induction l as [|x l IH]; intros m; cbn [app length].
  - rewrite number_from_nil. cbn. by rewrite Z.add_0_r.
  - rewrite !number_from_cons, IH. cbn. do 3 f_equal. lia.
Qed.
Lemma number_from_fst {A} m (l : list A) : (number_from m l).*1 = seqZ m (zlen l).
Proof. unfold number_from. apply fst_zip. rewrite length_seqZ. lia. Qed.
Lemma number_from_snd {A} m (l : list A) : (number_from m l).*2 = l.
Proof. unfold number_from. apply snd_zip. rewrite length_seqZ. lia. Qed.

Lemma rows_numbered {V} m len (l : list (Z * V)) : l.*1 = seqZ m len -> rows_ok m l.
Proof.
  intros E. split.
  - apply (StronglySorted_fmap_inv fst Z.lt). rewrite E. clear.
    destruct (decide (0 <= len)) as [H|]; [|rewrite seqZ_nil by lia; constructor].
    revert m. pattern len. apply natlike_ind; [intros; constructor| |done]. intros n Hn IH m. rewrite seqZ_cons by lia.
    rewrite Z.pred_succ. constructor; [apply IH|]. apply Forall_forall. intros x Hx%elem_of_seqZ. lia.
  - rewrite <- (Forall_fmap fst (fun k => m <= k)), E. apply Forall_forall. intros x Hx%elem_of_seqZ. lia.
Qed.

(** ** Inserting blocks *)
Section Blocks.
Context {TE : Type} (keccak256 : bytes -> Z) (recover_signer : TransactionSigned -> option Z).
Abbreviation insert_canonical_block := (insert_canonical_block (TE := TE) recover_signer).
Implicit Types (b : SealedBlockWithSenders) (bs : list SealedBlockWithSenders) (bt base : BlockTables).

Definition b_body b : list TransactionSigned := body (sbs_block b).
Definition b_ommers b : list SealedHeader := ommers (sbs_block b).
Definition b_withdrawals b : list Withdrawal := default [] (withdrawals (sbs_block b)).

Fixpoint insert_blocks bs : st BlockTables (TransactionError TE) (list (Z * Z)) :=
  match bs with
  | [] => mret []
  | b :: bs => r ← insert_canonical_block (sbs_block b) (Some (senders b)) false; l ← insert_blocks bs; mret (r :: l)
  end.

Definition hash_rows (l : list (Z * TransactionSigned)) : list (Z * Z) := (fun r => (ts_hash r.2, r.1)) <$> l.

Lemma insert_transactions_ok txs ss id tr bt : length txs = length ss -> in_u 64 id -> in_u 64 tr ->
  in_u 64 (id + zlen txs) -> in_u 64 (tr + zlen txs) ->
  insert_transactions (TE := TE) (zip txs ss) id tr bt =
  (Ok (tr + zlen txs),
   mkBlockTables (CanonicalHeaders_ bt) (HeaderTD_ bt) (Headers_ bt) (HeaderNumbers_ bt) (BlockBodies_ bt) (BlockOmmers_ bt)
     (BlockWithdrawals_ bt) (ext (Transactions_ bt) (number_from id txs)) (ext (TxHashNumber_ bt) (hash_rows (number_from id txs)))
     (ext (TxSenders_ bt) (number_from id ss)) (ext (TxTransitionIndex_ bt) (number_from id (seqZ tr (zlen txs))))
     (BlockTransitionIndex_ bt)).
Proof.
  revert ss id tr bt. induction txs as [|tx txs IH]; intros [|x ss] id tr bt Hl Hid Htr Hm Ht; try done.
  { destruct bt. cbn [zip zip_with insert_transactions length Z.of_nat]. by rewrite Z.add_0_r. }
  injection Hl as Hl. cbn [length] in *. unfold in_u in *.
  cbn [zip zip_with insert_transactions]. unfold tx_put, mbind, st_bind, st_get, st_put.
  rewrite !wadd_small by (unfold in_u; lia). rewrite IH; [|done|unfold in_u; lia..].
  rewrite (seqZ_cons tr), !number_from_cons by lia. replace (Z.pred (Z.of_nat (S (length txs)))) with (zlen txs) by lia.
  f_equal; [f_equal; lia|]. by destruct bt.
Qed.

(** The numbers that the next block starts at *)
Definition next_ids (n : Z) bt (tx tr : Z) : Prop :=
  (n = 0 /\ tx = 0 /\ tr = 0) \/
  (0 < n /\ exists prev, BlockBodies_ bt !! (n - 1) = Some prev /\ wadd 64 (start_tx_id prev) (tx_count prev) = tx /\
     BlockTransitionIndex_ bt !! (n - 1) = Some tr).

Definition ommer_row b : list (Z * list Header) :=
  match b_ommers b with [] => [] | l => [(b_number b, sh_header <$> l)] end.
Definition withdrawal_row b : list (Z * list Withdrawal) :=
  match b_withdrawals b with [] => [] | l => [(b_number b, l)] end.
(** The transitions of a block: one per transaction, and one for withdrawals *)
Definition transitions b : Z := zlen (b_body b) + match b_withdrawals b with [] => 0 | _ => 1 end.

Definition after_insert b bt (td tx tr : Z) : BlockTables :=
  let n := b_number b in
  mkBlockTables (<[n := b_hash b]> (CanonicalHeaders_ bt)) (<[n := td]> (HeaderTD_ bt)) (<[n := sh_header (b_header b)]> (Headers_ bt))
    (<[b_hash b := n]> (HeaderNumbers_ bt)) (<[n := mkStoredBlockBody tx (zlen (b_body b))]> (BlockBodies_ bt))
    (ext (BlockOmmers_ bt) (ommer_row b)) (ext (BlockWithdrawals_ bt) (withdrawal_row b))
    (ext (Transactions_ bt) (number_from tx (b_body b))) (ext (TxHashNumber_ bt) (hash_rows (number_from tx (b_body b))))
    (ext (TxSenders_ bt) (number_from tx (senders b)))
    (ext (TxTransitionIndex_ bt) (number_from tx (seqZ tr (zlen (b_body b)))))
    (<[n := tr + transitions b]> (BlockTransitionIndex_ bt)).

Lemma get_next_ids n bt tx tr : next_ids n bt tx tr -> get_next_block_ids (TE := TE) n bt = (Ok (tx, tr), bt).
Proof.
  unfold get_next_block_ids. intros [(-> & -> & ->)|(Hn & prev & E1 & E2 & E3)]; [done|]. zdec.
  unfold get_block_body, get_block_transition, tx_expect, tx_get, mbind, st_bind, st_get. cbn [t_rows BlockBodies].
  rewrite E1. cbn. by rewrite E3, E2.
Qed.

Lemma put_ommers b bt :
  (match ommers (sbs_block b) with [] => mret tt | l => tx_put BlockOmmers (b_number b) (sh_header <$> l) end) bt =
  (Ok (E := TransactionError TE) tt, t_set BlockOmmers (ext (BlockOmmers_ bt) (ommer_row b)) bt).
Proof. unfold ommer_row, b_ommers. destruct bt, (ommers (sbs_block b)); done. Qed.

Lemma put_withdrawals b bt :
  (match withdrawals (sbs_block b) with
   | Some ((_ :: _) as l) => tx_put BlockWithdrawals (b_number b) l;; mret true
   | _ => mret false
   end) bt =
  (Ok (E := TransactionError TE) (match b_withdrawals b with [] => false | _ => true end),
   t_set BlockWithdrawals (ext (BlockWithdrawals_ bt) (withdrawal_row b)) bt).
Proof. unfold withdrawal_row, b_withdrawals. destruct bt, (withdrawals (sbs_block b)) as [[|]|]; done. Qed.

Lemma insert_block_ok b bt tx tr : next_ids (b_number b) bt tx tr -> length (b_body b) = length (senders b) ->
  in_u 64 tx -> in_u 64 tr -> in_u 64 (tx + zlen (b_body b)) -> in_u 64 (tr + transitions b) ->
  exists td, insert_canonical_block (sbs_block b) (Some (senders b)) false bt =
    (Ok (tr, tr + transitions b), after_insert b bt td tx tr).
Proof.
  intros Hids Hl Htx Htr Hm Ht. destruct bt as [? td0].
  exists (if b_number b =? 0 then difficulty (sh_header (b_header b))
     else wadd 256 (default 0 (td0 !! (b_number b - 1))) (difficulty (sh_header (b_header b)))).
  unfold Provider.insert_canonical_block, provider_insert_block.
  change (number (sh_header (sb_header (sbs_block b)))) with (b_number b).
  change (sh_hash (sb_header (sbs_block b))) with (b_hash b). change (sb_header (sbs_block b)) with (b_header b).
  rewrite !bind_put. erewrite bind_ok. 2:{ instantiate (2 := if b_number b =? 0 then _ else _). destruct (b_number b =? 0); reflexivity. }
  rewrite bind_put. erewrite bind_ok by apply put_ommers. erewrite bind_ok by (apply get_next_ids; exact Hids).
  cbv beta iota zeta. rewrite bind_put. unfold with_senders. change (body (sbs_block b)) with (b_body b). rewrite (proj2 (Nat.eqb_eq _ _) Hl).
  rewrite wrap_small by (unfold in_u in *; lia).
  erewrite bind_ok by (apply insert_transactions_ok; unfold in_u, transitions in *; destruct (b_withdrawals b); (done || lia)).
  erewrite bind_ok by apply put_withdrawals. rewrite bind_put. unfold after_insert, transitions in *.
  cbn [orb]. destruct (b_withdrawals b) as [|w ws].
  - rewrite Z.add_0_r. reflexivity.
  - rewrite wadd_small by (unfold in_u in *; lia). rewrite Z.add_assoc. reflexivity.
Qed.

(** ** What the tables hold after inserting blocks on top of [base] *)
Definition txs_of bs : list TransactionSigned := concat (b_body <$> bs).
Definition senders_of bs : list Z := concat (senders <$> bs).
Fixpoint body_rows (m : Z) bs : list (Z * StoredBlockBody) :=
  match bs with
  | [] => []
  | b :: bs => (b_number b, mkStoredBlockBody m (zlen (b_body b))) :: body_rows (m + zlen (b_body b)) bs
  end.
Fixpoint transition_rows (tr : Z) bs : list (Z * Z) :=
  match bs with
  | [] => []
  | b :: bs => (b_number b, tr + transitions b) :: transition_rows (tr + transitions b) bs
  end.
Definition total_transitions bs : Z := foldr (fun b n => transitions b + n) 0 bs.

Record holds_blocks (m tr : Z) base bs bt : Prop := {
  hb_hashes : CanonicalHeaders_ bt = ext (CanonicalHeaders_ base) ((fun b => (b_number b, b_hash b)) <$> bs);
  hb_td : exists l, l.*1 = b_number <$> bs /\ HeaderTD_ bt = ext (HeaderTD_ base) l;
  hb_headers : Headers_ bt = ext (Headers_ base) ((fun b => (b_number b, sh_header (b_header b))) <$> bs);
  hb_numbers : HeaderNumbers_ bt = ext (HeaderNumbers_ base) ((fun b => (b_hash b, b_number b)) <$> bs);
  hb_bodies : BlockBodies_ bt = ext (BlockBodies_ base) (body_rows m bs);
  hb_ommers : BlockOmmers_ bt = ext (BlockOmmers_ base) (concat (ommer_row <$> bs));
  hb_withdrawals : BlockWithdrawals_ bt = ext (BlockWithdrawals_ base) (concat (withdrawal_row <$> bs));
  hb_txs : Transactions_ bt = ext (Transactions_ base) (number_from m (txs_of bs));
  hb_tx_hashes : TxHashNumber_ bt = ext (TxHashNumber_ base) (hash_rows (number_from m (txs_of bs)));
  hb_senders : TxSenders_ bt = ext (TxSenders_ base) (number_from m (senders_of bs));
  hb_tx_transitions : exists l, l.*1 = seqZ m (zlen (txs_of bs)) /\ TxTransitionIndex_ bt = ext (TxTransitionIndex_ base) l;
  hb_transitions : BlockTransitionIndex_ bt = ext (BlockTransitionIndex_ base) (transition_rows tr bs)
}.

Lemma txs_of_app bs bs' : txs_of (bs ++ bs') = txs_of bs ++ txs_of bs'.
Proof. unfold txs_of. by rewrite fmap_app, concat_app. Qed.
Lemma senders_of_app bs bs' : senders_of (bs ++ bs') = senders_of bs ++ senders_of bs'.
Proof. unfold senders_of. by rewrite fmap_app, concat_app. Qed.
Lemma txs_of_cons b bs : txs_of (b :: bs) = b_body b ++ txs_of bs.
Proof. done. Qed.
Lemma senders_of_cons b bs : senders_of (b :: bs) = senders b ++ senders_of bs.
Proof. done. Qed.

Lemma body_rows_app m bs bs' : body_rows m (bs ++ bs') = body_rows m bs ++ body_rows (m + zlen (txs_of bs)) bs'.
Proof.
  revert m. induction bs as [|b bs IH]; intros m; cbn [app body_rows]; [by rewrite Z.add_0_r|].
  rewrite IH, txs_of_cons, length_app, Nat2Z.inj_add, Z.add_assoc. done.
Qed.
Lemma total_transitions_cons b bs : total_transitions (b :: bs) = transitions b + total_transitions bs.
Proof. done. Qed.
Lemma transition_rows_app tr bs bs' : transition_rows tr (bs ++ bs') = transition_rows tr bs ++ transition_rows (tr + total_transitions bs) bs'.
Proof.
  revert tr. induction bs as [|b bs IH]; intros tr; cbn [app transition_rows]; [by rewrite Z.add_0_r|].
  rewrite IH, total_transitions_cons. cbn [app]. by rewrite Z.add_assoc.
Qed.
Lemma total_transitions_app bs bs' : total_transitions (bs ++ bs') = total_transitions bs + total_transitions bs'.
Proof. induction bs as [|b bs IH]; [done|]. cbn [app]. rewrite !total_transitions_cons, IH. lia. Qed.

Lemma txs_of_snoc bs b : txs_of (bs ++ [b]) = txs_of bs ++ b_body b.
Proof. by rewrite txs_of_app, txs_of_cons, app_nil_r. Qed.
Lemma total_transitions_snoc bs b : total_transitions (bs ++ [b]) = total_transitions bs + transitions b.
Proof. rewrite total_transitions_app, total_transitions_cons. cbn. lia. Qed.

Definition senders_ok b : Prop := length (b_body b) = length (senders b).
Lemma length_senders_of bs : Forall senders_ok bs -> length (senders_of bs) = length (txs_of bs).
Proof. induction 1 as [|b bs Hb _ IH]; [done|]. rewrite txs_of_cons, senders_of_cons, !length_app. unfold senders_ok in Hb. lia. Qed.

Lemma holds_nil m tr base : holds_blocks m tr base [] base.
Proof. split; try done; by exists []. Qed.

Lemma holds_step m tr base bs bt b td : holds_blocks m tr base bs bt -> Forall senders_ok bs ->
  holds_blocks m tr base (bs ++ [b]) (after_insert b bt td (m + zlen (txs_of bs)) (tr + total_transitions bs)).
Proof.
  intros H Hs. destruct H as [H1 (l1 & E1 & H2) H3 H4 H5 H6 H7 H8 H9 H10 (l2 & E2 & H11) H12].
  assert (Hl : zlen (senders_of bs) = zlen (txs_of bs)) by (by rewrite length_senders_of).
  split; unfold after_insert; cbn [CanonicalHeaders_ HeaderTD_ Headers_ HeaderNumbers_ BlockBodies_ BlockOmmers_
    BlockWithdrawals_ Transactions_ TxHashNumber_ TxSenders_ TxTransitionIndex_ BlockTransitionIndex_].
  - rewrite H1, fmap_app. symmetry. apply ext_snoc.
  - exists (l1 ++ [(b_number b, td)]). by rewrite !fmap_app, E1, ext_snoc, H2.
  - rewrite H3, fmap_app. symmetry. apply ext_snoc.
  - rewrite H4, fmap_app. symmetry. apply ext_snoc.
  - rewrite H5, body_rows_app. symmetry. apply ext_snoc.
  - rewrite H6, fmap_app, concat_app, ext_app. cbn. by rewrite app_nil_r.
  - rewrite H7, fmap_app, concat_app, ext_app. cbn. by rewrite app_nil_r.
  - rewrite H8, txs_of_app, number_from_app, ext_app. by rewrite txs_of_cons, app_nil_r.
  - rewrite H9, txs_of_app, number_from_app. unfold hash_rows. rewrite fmap_app, ext_app. by rewrite txs_of_cons, app_nil_r.
  - rewrite H10, senders_of_app, number_from_app, ext_app, Hl. by rewrite senders_of_cons, app_nil_r.
  - eexists. split; [|by rewrite H11, <- ext_app]. rewrite fmap_app, E2, number_from_fst, length_seqZ, txs_of_app, length_app.
    rewrite txs_of_cons, app_nil_r, Nat2Z.inj_add, seqZ_app by lia. do 2 f_equal. lia.
  - rewrite H12, transition_rows_app. symmetry. apply ext_snoc.
Qed.

(** Blocks that follow one another from number [n] on *)
Definition numbered_from (n : Z) bs : Prop := b_number <$> bs = seqZ n (zlen bs).

Lemma numbered_cons n b bs : numbered_from n (b :: bs) <-> b_number b = n /\ numbered_from (n + 1) bs.
Proof.
  unfold numbered_from. cbn [fmap list_fmap length]. rewrite seqZ_cons by lia.
  replace (Z.succ n) with (n + 1) by lia. replace (Z.pred (Z.of_nat (S (length bs)))) with (zlen bs) by lia.
  split; [intros [= -> E]; done|]. by intros [-> ->].
Qed.

Lemma next_ids_step n0 m tr bs b bt td : 0 <= n0 -> b_number b = n0 + zlen bs -> in_u 64 (m + zlen (txs_of bs) + zlen (b_body b)) ->
  next_ids (n0 + zlen (bs ++ [b])) (after_insert b bt td (m + zlen (txs_of bs)) (tr + total_transitions bs))
    (m + zlen (txs_of (bs ++ [b]))) (tr + total_transitions (bs ++ [b])).
Proof.
  intros Hn Hb Hu. right. rewrite length_app, txs_of_snoc, total_transitions_snoc, length_app. cbn [length].
  split; [lia|]. exists (mkStoredBlockBody (m + zlen (txs_of bs)) (zlen (b_body b))). unfold after_insert.
  cbn [BlockBodies_ BlockTransitionIndex_ start_tx_id tx_count].
  replace (n0 + Z.of_nat (length bs + 1) - 1) with (b_number b) by lia. rewrite !lookup_insert_eq.
  split; [done|]. rewrite wadd_small by done. split; [lia|]. f_equal. lia.
Qed.

Lemma insert_blocks_ok m tr base n0 bs1 bs bt : holds_blocks m tr base bs bt -> Forall senders_ok bs ->
  next_ids (n0 + zlen bs) bt (m + zlen (txs_of bs)) (tr + total_transitions bs) ->
  numbered_from (n0 + zlen bs) bs1 -> Forall senders_ok bs1 -> 0 <= n0 -> 0 <= m -> 0 <= tr ->
  in_u 64 (m + zlen (txs_of (bs ++ bs1))) -> in_u 64 (tr + total_transitions (bs ++ bs1)) ->
  exists rs bt', insert_blocks bs1 bt = (Ok rs, bt') /\ holds_blocks m tr base (bs ++ bs1) bt' /\
    next_ids (n0 + zlen (bs ++ bs1)) bt' (m + zlen (txs_of (bs ++ bs1))) (tr + total_transitions (bs ++ bs1)).
Proof.
  revert bs bt. induction bs1 as [|b bs1 IH]; intros bs bt H Hs Hids Hn Hs1 H0 Hm0 Ht0 Hm Ht.
  { exists [], bt. rewrite app_nil_r. done. }
  apply numbered_cons in Hn as [Hb Hn]. apply Forall_cons in Hs1 as [Hsb Hs1].
  rewrite txs_of_app, txs_of_cons, !length_app in Hm. rewrite total_transitions_app, total_transitions_cons in Ht.
  assert (Htp : forall l, 0 <= total_transitions l).
  { intros l. induction l as [|x l IHl]; [done|]. rewrite total_transitions_cons. unfold transitions. destruct (b_withdrawals x); lia. }
  pose proof (Htp bs). pose proof (Htp bs1). unfold in_u in *.
  assert (0 <= transitions b) by (unfold transitions; destruct (b_withdrawals b); lia).
  destruct (insert_block_ok b bt (m + zlen (txs_of bs)) (tr + total_transitions bs)) as [td E]; unfold in_u; try (done || lia).
  { by rewrite Hb. }
  cbn [insert_blocks]. rewrite (bind_ok _ _ _ _ _ E).
  destruct (IH (bs ++ [b]) (after_insert b bt td (m + zlen (txs_of bs)) (tr + total_transitions bs))) as (rs & bt' & E' & H' & Hids').
  - by apply holds_step.
  - apply Forall_app. split; [done|]. by apply Forall_singleton.
  - apply next_ids_step; unfold in_u; (done || lia).
  - by rewrite length_app, Nat2Z.inj_add, Z.add_assoc.
  - done.
  - done.
  - done.
  - done.
  - rewrite <- app_assoc. cbn [app]. rewrite txs_of_app, txs_of_cons, !length_app. lia.
  - rewrite <- app_assoc, total_transitions_app. cbn [app]. rewrite total_transitions_cons. lia.
  - rewrite <- app_assoc in H', Hids'. exists ((tr + total_transitions bs, tr + total_transitions bs + transitions b) :: rs), bt'.
    split; [|done]. rewrite (bind_ok _ _ _ _ _ E'). done.
Qed.

(** ** Reading the blocks back *)

(** At most one row for each block *)
Definition row_of {V} (row : SealedBlockWithSenders -> list (Z * V)) : Prop :=
  forall b, row b = [] \/ exists v, row b = [(b_number b, v)].

Lemma optional_rows_ok {V} (row : SealedBlockWithSenders -> list (Z * V)) n bs : row_of row -> numbered_from n bs ->
  rows_ok n (concat (row <$> bs)) /\ Forall (fun r => r.1 ∈ b_number <$> bs) (concat (row <$> bs)).
Proof.
  intros Hr. revert n. induction bs as [|b bs IH]; intros n Hn; [by repeat constructor|].
  apply numbered_cons in Hn as [Hb Hn]. destruct (IH _ Hn) as [[Hs Hk] Hin]. cbn [fmap list_fmap concat].
  assert (Hin' : Forall (fun r => r.1 ∈ b_number b :: (b_number <$> bs)) (concat (row <$> bs))).
  { eapply Forall_impl; [exact Hin|]. intros r ?. by right. }
  assert (Hk' : Forall (fun r => n <= r.1) (concat (row <$> bs))).
  { eapply Forall_impl; [exact Hk|]. intros r ?. cbn in *. lia. }
  destruct (Hr b) as [-> |[v ->]]; [done|]. cbn [app]. split; [split|].
  - constructor; [done|]. eapply Forall_impl; [exact Hk|]. intros r ?. cbn in *. lia.
  - constructor; [cbn; lia|done].
  - constructor; [left|done].
Qed.

Lemma ommer_row_of : row_of ommer_row.
Proof. intros b. unfold ommer_row. destruct (b_ommers b); eauto. Qed.
Lemma withdrawal_row_of : row_of withdrawal_row.
Proof. intros b. unfold withdrawal_row. destruct (b_withdrawals b); eauto. Qed.

Lemma next_of_row {V} (row : SealedBlockWithSenders -> list (Z * V)) n b bs : row_of row -> numbered_from n (b :: bs) ->
  next_of (b_number b) (concat (row <$> b :: bs)) = (snd <$> head (row b), concat (row <$> bs)).
Proof.
  intros Hr [Hb Hn]%numbered_cons. cbn [fmap list_fmap concat]. destruct (Hr b) as [-> |[v ->]]; cbn [app head].
  - destruct (optional_rows_ok row _ _ Hr Hn) as [[_ Hk] _]. destruct (concat (row <$> bs)) as [|[k v] l]; [done|].
    apply Forall_cons in Hk as [Hk _]. cbn in Hk |- *. by zdec.
  - cbn. by rewrite Z.eqb_refl.
Qed.

Lemma merge_body_ok (txs : list TransactionSigned) (ss : list Z) (id : Z) r1 r2 : length txs = length ss ->
  merge_body (TE := TE) (length txs) (number_from id txs ++ r1) (number_from id ss ++ r2)
  = Ok (zip_with (fun tx x => mkEcRecovered x tx) txs ss, (r1, r2)).
Proof.
  revert ss id. induction txs as [|tx txs IH]; intros [|x ss] id Hl; try done. injection Hl as Hl.
  rewrite !number_from_cons. cbn [length app merge_body]. rewrite Z.eqb_refl. cbn [negb]. by rewrite IH.
Qed.

Definition recovered b : list TransactionSignedEcRecovered := zip_with (fun tx x => mkEcRecovered x tx) (b_body b) (senders b).

Lemma merge_bodies_ok m bs : Forall senders_ok bs -> 0 <= m -> in_u 64 (m + zlen (txs_of bs)) ->
  merge_bodies (TE := TE) (body_rows m bs) (number_from m (txs_of bs)) (number_from m (senders_of bs))
  = Ok ((fun b => (b_number b, recovered b)) <$> bs).
Proof.
  intros Hs. revert m. induction Hs as [|b bs Hb Hs IH]; intros m Hm Hu; [done|].
  rewrite txs_of_cons, length_app in Hu. unfold in_u in Hu. cbn [body_rows merge_bodies].
  assert (tx_id_range (mkStoredBlockBody m (zlen (b_body b))) = length (b_body b)) as ->.
  { unfold tx_id_range. cbn. rewrite wadd_small by (unfold in_u; lia). lia. }
  rewrite txs_of_cons, senders_of_cons, !number_from_app, merge_body_ok by done. cbn [mbind outcome_bind].
  unfold senders_ok in Hb. rewrite <- Hb, IH by (unfold in_u; lia). done.
Qed.

Definition readable (chain_spec : ChainSpec) b : Prop :=
  Forall (fun h => h = seal_slow keccak256 (sh_header h)) (b_ommers b) /\
  (is_Some (withdrawals (sbs_block b)) <-> active_at_block (fork chain_spec Paris) (b_number b) = true).

Lemma seal_ommers l : Forall (fun h => h = seal_slow keccak256 (sh_header h)) l -> seal_slow keccak256 <$> (sh_header <$> l) = l.
Proof. induction 1 as [|h l Hh _ IH]; [done|]. cbn. by rewrite <- Hh, IH. Qed.

Lemma recovered_parts b : senders_ok b -> ec_signed <$> recovered b = b_body b /\ signer <$> recovered b = senders b.
Proof.
  unfold senders_ok, recovered. generalize (b_body b) as l, (senders b) as k. induction l as [|x l IH]; intros [|y k] Hl; try done.
  injection Hl as Hl. cbn. destruct (IH _ Hl) as [-> ->]. done.
Qed.

Lemma merge_blocks_ok chain_spec n bs : numbered_from n bs -> Forall senders_ok bs -> Forall (readable chain_spec) bs ->
  merge_blocks keccak256 chain_spec ((fun b => (b_number b, sh_header (b_header b))) <$> bs) ((fun b => (b_number b, b_hash b)) <$> bs)
    ((fun b => (b_number b, recovered b)) <$> bs) (concat (ommer_row <$> bs)) (concat (withdrawal_row <$> bs)) = bs.
Proof.
  revert n. induction bs as [|b bs IH]; intros n Hn Hs Hr; [done|]. pose proof Hn as [_ Hn']%numbered_cons.
  apply Forall_cons in Hs as [Hb Hs]. apply Forall_cons in Hr as [[Ho Hw] Hr]. cbn [fmap list_fmap merge_blocks].
  change (ommer_row b :: _) with (ommer_row <$> b :: bs). change (withdrawal_row b :: _) with (withdrawal_row <$> b :: bs).
  rewrite (next_of_row _ _ _ _ ommer_row_of Hn), (next_of_row _ _ _ _ withdrawal_row_of Hn).
  destruct (recovered_parts b Hb) as [-> ->].
  assert (seal_slow keccak256 <$> default [] (snd <$> head (ommer_row b)) = b_ommers b) as ->.
  { unfold ommer_row. destruct (b_ommers b) as [|h l]; [done|]. exact (seal_ommers _ Ho). }
  assert (Hwd : default [] (snd <$> head (withdrawal_row b)) = b_withdrawals b).
  { unfold withdrawal_row. by destruct (b_withdrawals b). }
  assert (Hbe : mkBlockWithSenders (mkSealedBlock (mkSealedHeader (sh_header (b_header b)) (b_hash b)) (b_body b) (b_ommers b)
    (withdrawals (sbs_block b))) (senders b) = b) by (unfold b_header, b_hash, b_body, b_ommers; by destruct b as [[[]]]).
  destruct (active_at_block _ _).
  - rewrite Hwd, (IH _ Hn' Hs Hr). f_equal. etransitivity; [|exact Hbe]. unfold b_withdrawals.
    by destruct (proj2 Hw eq_refl) as [w ->].
  - assert (Hnone : withdrawals (sbs_block b) = None).
    { destruct (withdrawals (sbs_block b)); [|done]. by discriminate (proj1 Hw (ex_intro _ _ eq_refl)). }
    assert (concat (withdrawal_row <$> b :: bs) = concat (withdrawal_row <$> bs)) as ->.
    { cbn [fmap list_fmap concat]. unfold withdrawal_row at 1, b_withdrawals. by rewrite Hnone. }
    rewrite (IH _ Hn' Hs Hr), <- Hnone. by f_equal.
Qed.

Lemma last_body_row m bs : bs <> [] -> exists k body, last (body_rows m bs) = Some (k, body) /\
  start_tx_id body + tx_count body = m + zlen (txs_of bs).
Proof.
  induction bs as [|b bs _] using rev_ind; [done|]. intros _. rewrite body_rows_app. cbn [body_rows]. rewrite last_snoc.
  eexists _, _. split; [done|]. cbn. rewrite txs_of_snoc, length_app. lia.
Qed.

(** The store the blocks are inserted into: nothing at or above the numbers they get,
    none of their hashes *)
Record base_ok (n m : Z) base bs : Prop := {
  bo_hashes : below n (CanonicalHeaders_ base);
  bo_td : below n (HeaderTD_ base);
  bo_headers : below n (Headers_ base);
  bo_bodies : below n (BlockBodies_ base);
  bo_ommers : below n (BlockOmmers_ base);
  bo_withdrawals : below n (BlockWithdrawals_ base);
  bo_transitions : below n (BlockTransitionIndex_ base);
  bo_txs : below m (Transactions_ base);
  bo_senders : below m (TxSenders_ base);
  bo_tx_transitions : below m (TxTransitionIndex_ base);
  bo_numbers : Forall (fun b => HeaderNumbers_ base !! b_hash b = None) bs;
  bo_tx_hashes : Forall (fun tx => TxHashNumber_ base !! ts_hash tx = None) (txs_of bs)
}.

Definition covers (n : Z) (e : Bound Z) bs : Prop :=
  end_before Z.le e n = false /\ Forall (fun b => within Z.le e (b_number b) = true) bs.

Lemma covers_reaches {V} n e bs (rows : list (Z * V)) : covers n e bs -> Forall (fun r => r.1 ∈ b_number <$> bs) rows -> reaches n e rows.
Proof.
  intros [He Hb] Hr. split; [done|]. eapply Forall_impl; [exact Hr|]. intros r (b & -> & Hin)%list_elem_of_fmap.
  by apply (proj1 (Forall_forall _ _) Hb).
Qed.

Lemma keys_in {V} (rows : list (Z * V)) ks : rows.*1 = ks -> Forall (fun r => r.1 ∈ ks) rows.
Proof. intros <-. apply Forall_forall. intros r Hr. apply list_elem_of_fmap. by exists r. Qed.

Lemma body_rows_fst m bs : (body_rows m bs).*1 = b_number <$> bs.
Proof. revert m. induction bs as [|b bs IH]; intros m; [done|]. cbn. by rewrite IH. Qed.
Lemma transition_rows_fst tr bs : (transition_rows tr bs).*1 = b_number <$> bs.
Proof. revert tr. induction bs as [|b bs IH]; intros tr; [done|]. cbn. by rewrite IH. Qed.
Lemma map_rows_fst {V} (f : SealedBlockWithSenders -> V) bs : ((fun b => (b_number b, f b)) <$> bs).*1 = b_number <$> bs.
Proof. rewrite <- list_fmap_compose. done. Qed.

(** The tables without the blocks, bodies and transitions apart *)
Definition without_blocks base bt : BlockTables :=
  mkBlockTables (CanonicalHeaders_ base) (HeaderTD_ base) (Headers_ base) (HeaderNumbers_ base) (BlockBodies_ bt) (BlockOmmers_ base)
    (BlockWithdrawals_ base) (Transactions_ base) (TxHashNumber_ base) (TxSenders_ base) (TxTransitionIndex_ base) (BlockTransitionIndex_ bt).

(** The same for the transactions only *)
Definition without_txs base bt : BlockTables :=
  mkBlockTables (CanonicalHeaders_ bt) (HeaderTD_ bt) (Headers_ bt) (HeaderNumbers_ bt) (BlockBodies_ bt) (BlockOmmers_ bt)
    (BlockWithdrawals_ bt) (Transactions_ base) (TxHashNumber_ base) (TxSenders_ base) (TxTransitionIndex_ base) (BlockTransitionIndex_ bt).

(** The tables before those of transactions are read, and taken off *)
Definition without_headers base bt : BlockTables :=
  mkBlockTables (CanonicalHeaders_ base) (HeaderTD_ bt) (Headers_ base) (HeaderNumbers_ bt) (BlockBodies_ bt) (BlockOmmers_ base)
    (BlockWithdrawals_ base) (Transactions_ bt) (TxHashNumber_ bt) (TxSenders_ bt) (TxTransitionIndex_ bt) (BlockTransitionIndex_ bt).

Lemma number_rows {V} n e bs (rows : list (Z * V)) : numbered_from n bs -> covers n e bs -> rows.*1 = b_number <$> bs ->
  rows_ok n rows /\ reaches n e rows.
Proof.
  intros Hn Hc Er. split; [eapply rows_numbered; rewrite Er; exact Hn|]. eapply covers_reaches; [done|by apply keys_in].
Qed.

Lemma take_headers n m tr base bs e (take : bool) bt chain_spec : base_ok n m base bs -> numbered_from n bs -> covers n e bs ->
  holds_blocks m tr base bs bt -> bs <> [] ->
  let r := mkRange (Included n) e in
  get_take_block_range (TE := TE) keccak256 chain_spec take r bt =
    (block_tx ← get_take_block_transaction_range take r;
     (if take then
        get_or_take HeaderTD true r;;
        delete_found HeaderNumbers (snd <$> ((fun b => (b_number b, b_hash b)) <$> bs))
      else mret tt);;
     mret (merge_blocks keccak256 chain_spec ((fun b => (b_number b, sh_header (b_header b))) <$> bs)
       ((fun b => (b_number b, b_hash b)) <$> bs) block_tx (concat (ommer_row <$> bs)) (concat (withdrawal_row <$> bs))))
    (if take then without_headers base bt else bt).
Proof.
  intros Hb Hn Hc [H1 _ H3 _ _ H6 H7 _ _ _ _ _] Hne r. destruct bt as [t1 t2 t3 t4 t5 t6 t7 t8 t9 t10 t11 t12].
  cbn in H1, H3, H6, H7. unfold get_take_block_range.
  destruct (number_rows _ _ _ _ Hn Hc (map_rows_fst (fun b => sh_header (b_header b)) bs)) as [R1 R2].
  destruct (number_rows _ _ _ _ Hn Hc (map_rows_fst b_hash bs)) as [R3 R4].
  destruct (optional_rows_ok _ _ _ ommer_row_of Hn) as [R7 R8]. destruct (optional_rows_ok _ _ _ withdrawal_row_of Hn) as [R9 R10].
  erewrite bind_ok by (apply (take_rows Headers take (Headers_ base) _ n); [exact H3|apply Hb|done|done]).
  assert (Hcase : forall A (x y : A), match (fun b => (b_number b, sh_header (b_header b))) <$> bs with [] => x | _ => y end = y)
    by (intros; by destruct bs). rewrite Hcase. clear Hcase.
  erewrite bind_ok by (apply (take_rows CanonicalHeaders take (CanonicalHeaders_ base) ((fun b => (b_number b, b_hash b)) <$> bs) n);
    [by destruct take|apply Hb|done|done]).
  erewrite bind_ok by (apply (take_rows BlockOmmers take (BlockOmmers_ base) (concat (ommer_row <$> bs)) n);
    [by destruct take|apply Hb|done|by eapply covers_reaches]).
  erewrite bind_ok by (apply (take_rows BlockWithdrawals take (BlockWithdrawals_ base) (concat (withdrawal_row <$> bs)) n);
    [by destruct take|apply Hb|done|by eapply covers_reaches]).
  by destruct take.
Qed.

Section Taken.
Context (n m tr : Z) (base : BlockTables) (bs : list SealedBlockWithSenders) (e : Bound Z) (take : bool).
Context (Hb : base_ok n m base bs) (Hn : numbered_from n bs) (Hs : Forall senders_ok bs) (Hc : covers n e bs).
Context (Hm : 0 <= m) (Hu : in_u 64 (m + zlen (txs_of bs))) (Htx : txs_of bs <> []).

Lemma take_transactions bt : BlockBodies_ bt = ext (BlockBodies_ base) (body_rows m bs) ->
  Transactions_ bt = ext (Transactions_ base) (number_from m (txs_of bs)) ->
  TxHashNumber_ bt = ext (TxHashNumber_ base) (hash_rows (number_from m (txs_of bs))) ->
  TxSenders_ bt = ext (TxSenders_ base) (number_from m (senders_of bs)) ->
  (exists l, l.*1 = seqZ m (zlen (txs_of bs)) /\ TxTransitionIndex_ bt = ext (TxTransitionIndex_ base) l) ->
  get_take_block_transaction_range (TE := TE) take (mkRange (Included n) e) bt =
    (Ok ((fun b => (b_number b, recovered b)) <$> bs), if take then without_txs base bt else bt).
Proof.
  intros H1 H2 H3 H4 (l & El & H5). destruct bt. cbn in H1, H2, H3, H4, H5. subst.
  assert (Hne : bs <> []) by (by intros ->). assert (Hl : 0 < zlen (txs_of bs)) by (destruct (txs_of bs); cbn in *; [done|lia]).
  unfold get_take_block_transaction_range.
  erewrite bind_ok. 2:{ apply (take_rows BlockBodies false (BlockBodies_ base) (body_rows m bs) n e); [done|apply Hb| |].
    - eapply rows_numbered. rewrite body_rows_fst. exact Hn.
    - eapply covers_reaches; [done|]. apply keys_in, body_rows_fst. }
  destruct (last_body_row m bs Hne) as (k & body & -> & Hlast).
  assert (exists k0 first, head (body_rows m bs) = Some (k0, first) /\ start_tx_id first = m) as (k0 & first & -> & ->).
  { destruct bs; [done|]. cbn. eauto. }
  assert (Hti : last_tx_index body = m + zlen (txs_of bs) - 1).
  { unfold last_tx_index, saturating_sub, saturating_add, u64_max in *. unfold in_u in Hu. zcase; lia. }
  rewrite Hti. unfold range_incl.
  assert (Hreach : forall V (rows : list (Z * V)), rows.*1 = seqZ m (zlen (txs_of bs)) ->
    rows_ok m rows /\ reaches m (Included (m + zlen (txs_of bs) - 1)) rows).
  { intros V rows Er. split; [by eapply rows_numbered|]. split.
    - cbn. apply bool_decide_eq_false. unfold strict. lia.
    - pose proof (keys_in _ _ Er) as Hk. eapply Forall_impl; [exact Hk|]. intros r Hr%elem_of_seqZ. cbn. apply bool_decide_eq_true. lia. }
  destruct (Hreach _ (number_from m (txs_of bs)) (number_from_fst _ _)) as [R1 R2].
  destruct (Hreach _ (number_from m (senders_of bs))) as [R3 R4]; [by rewrite number_from_fst, length_senders_of|].
  destruct (Hreach _ l El) as [R5 R6].
  erewrite bind_ok by (apply (take_rows Transactions take (Transactions_ base) _ m); [done|apply Hb|done|done]).
  erewrite bind_ok by (apply (take_rows TxSenders take (TxSenders_ base) (number_from m (senders_of bs)) m); [by destruct take|apply Hb|done|done]).
  erewrite bind_ok; [unfold st_lift; by rewrite merge_bodies_ok|].
  destruct take; [|done].
  erewrite bind_ok. 2:{ apply (delete_found_ok TxHashNumber (TxHashNumber_ base) (hash_rows (number_from m (txs_of bs)))); [done| |].
    - unfold hash_rows. by rewrite <- list_fmap_compose.
    - rewrite Forall_fmap. pose proof (bo_tx_hashes _ _ _ _ Hb) as Hf. by rewrite <- (number_from_snd m (txs_of bs)), Forall_fmap in Hf. }
  erewrite bind_ok by (apply (take_rows TxTransitionIndex true (TxTransitionIndex_ base) l m); [done|apply Hb|done|done]). done.
Qed.

Lemma take_blocks chain_spec bt : holds_blocks m tr base bs bt -> Forall (readable chain_spec) bs ->
  get_take_block_range (TE := TE) keccak256 chain_spec take (mkRange (Included n) e) bt =
    (Ok bs, if take then without_blocks base bt else bt).
Proof.
  intros H Hr. rewrite (take_headers n m tr base bs e take bt chain_spec Hb Hn Hc H) by (by intros ->).
  destruct H as [H1 (l & El & H2) H3 H4 H5 H6 H7 H8 H9 H10 H11 H12]. destruct (number_rows _ _ _ l Hn Hc El) as [R1 R2].
  erewrite bind_ok by (apply take_transactions; by destruct take).
  destruct take; [|unfold mret, mbind, st_bind, st_ret; by rewrite (merge_blocks_ok _ n)].
  erewrite bind_ok. 2:{
    erewrite bind_ok by (apply (take_rows HeaderTD true (HeaderTD_ base) l n); [exact H2|apply Hb|done|done]).
    apply (delete_found_ok HeaderNumbers (HeaderNumbers_ base) ((fun b => (b_hash b, b_number b)) <$> bs)); [by destruct bt| |].
    - rewrite <- !list_fmap_compose. done.
    - rewrite <- list_fmap_compose, Forall_fmap. exact (bo_numbers _ _ _ _ Hb). }
  unfold mret, st_ret. by rewrite (merge_blocks_ok _ n).
Qed.
End Taken.

(** Blocks without any transaction are not found once there are transactions before
    them: the range of their transactions ends before it starts, which a cursor refuses. *)
Theorem empty_blocks_lost chain_spec n m tr base bs bt e (take : bool) : base_ok n m base bs -> numbered_from n bs -> covers n e bs ->
  holds_blocks m tr base bs bt -> bs <> [] -> txs_of bs = [] -> in_u 64 m -> 0 < m ->
  fst (get_take_block_range (TE := TE) keccak256 chain_spec take (mkRange (Included n) e) bt) = Err (Database (ReadError 2)).
Proof.
  intros Hb Hn Hc H Hne Htx Hu Hm. rewrite (take_headers n m tr base bs e take bt chain_spec Hb Hn Hc H Hne).
  destruct (number_rows _ _ _ _ Hn Hc (body_rows_fst m bs)) as [R5 R6]. pose proof (hb_bodies _ _ _ _ _ H) as H5.
  unfold get_take_block_transaction_range. unfold mbind at 1, st_bind at 1.
  erewrite bind_ok by (apply (take_rows BlockBodies false (BlockBodies_ base) (body_rows m bs) n); [by destruct take|apply Hb|done|done]).
  destruct (last_body_row m bs Hne) as (k & body & -> & Hlast).
  assert (exists k0 first, head (body_rows m bs) = Some (k0, first) /\ start_tx_id first = m) as (k0 & first & -> & ->).
  { destruct bs; [done|]. cbn. eauto. }
  assert (Hti : last_tx_index body = m - 1).
  { rewrite Htx in Hlast. unfold last_tx_index, saturating_sub, saturating_add, u64_max in *. unfold in_u in Hu. cbn in Hlast. zcase; lia. }
  rewrite Hti. unfold range_incl, get_or_take, walk_range. cbn [start_bound end_bound end_before].
  unfold key_lt. rewrite bool_decide_eq_true_2 by (unfold strict; lia). done.
Qed.

(** C20. Blocks inserted one after the other on top of a store, one of them with a
    transaction at least.  Suppose that each of them is [readable]: the hashes of its
    ommers are theirs, and it has withdrawals exactly from the Paris fork on, which is
    what the reader goes by.  Then they are read back as they were, with their senders,
    ommers and withdrawals.  Taking them off returns them too and restores every table
    of blocks but BlockBodies and BlockTransitionIndex, which keep the rows of the
    blocks taken. *)
Theorem blocks_roundtrip chain_spec n m tr base bs e : base_ok n m base bs -> next_ids n base m tr ->
  numbered_from n bs -> Forall senders_ok bs -> Forall (readable chain_spec) bs -> covers n e bs -> txs_of bs <> [] ->
  0 <= n -> 0 <= m -> 0 <= tr -> in_u 64 (m + zlen (txs_of bs)) -> in_u 64 (tr + total_transitions bs) ->
  exists rs bt, insert_blocks bs base = (Ok rs, bt) /\
    get_take_block_range (TE := TE) keccak256 chain_spec false (mkRange (Included n) e) bt = (Ok bs, bt) /\
    get_take_block_range (TE := TE) keccak256 chain_spec true (mkRange (Included n) e) bt = (Ok bs, without_blocks base bt).
Proof.
  intros Hb Hids Hn Hs Hr Hc Htx H0 Hm Htr Hu Ht.
  destruct (insert_blocks_ok m tr base n bs [] base) as (rs & bt & E & H & _); try done.
  - apply holds_nil.
  - cbn. by rewrite !Z.add_0_r.
  - cbn. by rewrite Z.add_0_r.
  - exists rs, bt. split; [done|]. cbn [app] in H. by split; erewrite take_blocks.
Qed.
End Blocks.

(** ** A sample chain of two blocks *)
Module SampleBlocks.
Definition keccak (b : bytes) : Z := zlen b.
Definition tx : TransactionSigned := mkTransactionSigned 11 (mkSignature 1 1 false) (TLegacy (mkTxLegacy None 0 1 21000 Create 0 [])).
Definition header (n : Z) : Header := mkHeader 0 0 0 0 0 0 None 0 1 n 0 0 0 0 0 None [].
Definition block (n : Z) (txs : list TransactionSigned) : SealedBlockWithSenders :=
  mkBlockWithSenders (mkSealedBlock (mkSealedHeader (header n) (100 + n)) txs [seal_slow keccak (header 0)] None) ((fun _ => 7) <$> txs).
Definition spec : ChainSpec := mkChainSpec 1 None MAINNET_hardforks.
Definition empty : BlockTables := mkBlockTables ∅ ∅ ∅ ∅ ∅ ∅ ∅ ∅ ∅ ∅ ∅ ∅.

Lemma blocks_roundtrip_witness : exists rs bt,
  insert_blocks (TE := unit) (fun _ => None) [block 0 [tx]; block 1 []] empty = (Ok rs, bt) /\
  get_take_block_range (TE := unit) keccak spec true (mkRange (Included 0) Unbounded) bt = (Ok [block 0 [tx]; block 1 []], without_blocks empty bt).
Proof.
  destruct (blocks_roundtrip (TE := unit) keccak (fun _ => None) spec 0 0 0 empty [block 0 [tx]; block 1 []] Unbounded)
    as (rs & bt & E & _ & E').
  - split; try (intros k v Hk; discriminate Hk); repeat (constructor; [reflexivity|]); constructor.
  - by left.
  - reflexivity.
  - repeat constructor.
  - apply Forall_cons; split; [|apply Forall_cons; split; [|apply Forall_nil; exact I]];
      (split; [apply Forall_cons; split; [reflexivity|apply Forall_nil; exact I]|]);
      (split; [intros [x Ex]; discriminate Ex|vm_compute; intros Ex; discriminate Ex]).
  - repeat constructor.
  - done.
  - done.
  - done.
  - done.
  - done.
  - done.
  - exists rs, bt. split; [exact E|exact E'].
Defined.
End SampleBlocks.
