(* ===== verification/ProviderState.v ===== *)
(** * Execution results in the database: reverting restores the state

    Writing execution results keeps a journal: for each account and slot, the change
    sets hold the values it had before the transitions that changed it, the first of
    them being the value before all ([journal]).  Taking the results back writes those
    values, and the hashed tables mirror the plain ones before and after. *)
From S2P Require Import Prelude Bytes BTree PoolInner Primitives ChainSpec SubState PrimitivesRlp Chain Compact Tables History HistoryProofs Provider.

(** ** Journals

    [L u k v]: the change set of transition [u] has the former value [v] of [k]. *)
Record journal {K V : Type} (from now : Z) (base cur : K -> V) (L : Z -> K -> V -> Prop) : Prop := {
  j_time u k v : L u k v -> u <= now;
  j_unique u k v v' : L u k v -> L u k v' -> from <= u -> v = v';
  j_first u k v : L u k v -> from <= u -> (forall u' v', L u' k v' -> from <= u' -> u <= u') -> v = base k;
  j_same k : (forall u v, L u k v -> u < from) -> cur k = base k
}.

Section Journal.
Context {K V : Type} `{EqDecision K}.
Implicit Types (base cur : K -> V) (L : Z -> K -> V -> Prop).

Lemma journal_empty from base L : (forall u k v, L u k v -> u < from) -> journal from from base base L.
Proof.
  intros HL. split; [|intros u k v v' H _ Hf|intros u k v H Hf _|done].
  - intros u k v H. apply HL in H. lia.
  - apply HL in H. lia.
  - apply HL in H. lia.
Qed.

Lemma journal_later from now now' base cur L : journal from now base cur L -> now <= now' -> journal from now' base cur L.
Proof. intros [H1 H2 H3 H4] Hn. split; [|done..]. intros u k v H. apply H1 in H. lia. Qed.

Lemma journal_ext from now base cur cur' L L' : journal from now base cur L -> (forall k, cur' k = cur k) ->
  (forall u k v, L' u k v <-> L u k v) -> journal from now base cur' L'.
Proof.
  intros [H1 H2 H3 H4] Hc HL. split.
  - intros u k v. rewrite HL. apply H1.
  - intros u k v v'. rewrite !HL. apply H2.
  - intros u k v. rewrite HL. intros Hu Hf Hmin. apply (H3 u k v Hu Hf). intros u' v' ?. apply (Hmin u' v'). by apply HL.
  - intros k Hk. rewrite Hc. apply H4. intros u v ?. apply (Hk u v). by apply HL.
Qed.

(** Writing keys that have no entry for the present transition, with entries *)
Lemma journal_write from now base cur cur' L L' (P : K -> Prop) `{!forall k, Decision (P k)} : journal from now base cur L -> from <= now ->
  (forall k v, P k -> ~ L now k v) -> (forall k, ~ P k -> cur' k = cur k) ->
  (forall u k v, L' u k v <-> L u k v \/ (u = now /\ P k /\ v = cur k)) -> journal from now base cur' L'.
Proof.
  intros [H1 H2 H3 H4] Hf Hno Hc HL. split.
  - intros u k v [Hl|(-> & _)]%HL; [by eapply H1|lia].
  - intros u k v v' [Hl|(-> & HP & ->)]%HL [H'|(E & HP' & ->)]%HL Hu; subst; [by eapply H2|by apply Hno in Hl|by apply Hno in H'|done].
  - intros u k v [Hl|(-> & HP & ->)]%HL Hu Hmin.
    + apply (H3 u k v Hl Hu). intros u' v' H'. apply (Hmin u' v'). apply HL. by left.
    + apply H4. intros u v Huv. destruct (decide (u < from)) as [|Hge]; [done|].
      assert (now <= u) by (apply (Hmin u v); [apply HL; by left|lia]). assert (u <= now) by (by eapply H1).
      assert (u = now) as -> by lia. by apply Hno in Huv.
  - intros k Hk. destruct (decide (P k)) as [HP|HP].
    + assert (now < from); [|lia]. apply (Hk now (cur k)). apply HL. by right.
    + rewrite Hc by done. apply H4. intros u v Huv. apply (Hk u v), HL. by left.
Qed.

(** A key that has an entry may change further. *)
Lemma journal_set from now base cur cur' L k u v : journal from now base cur L -> L u k v -> from <= u ->
  (forall k', k' <> k -> cur' k' = cur k') -> journal from now base cur' L.
Proof.
  intros [H1 H2 H3 H4] Hu Hf Hc. split; [done..|]. intros k' Hk'. destruct (decide (k' = k)) as [->|Hne].
  - apply Hk' in Hu. lia.
  - rewrite Hc by done. by apply H4.
Qed.
End Journal.

(** ** Slots *)
Section Slots.
Implicit Types (S : gset (Z * (Z * Z))).

(** A slot has one row, and none when it is zero. *)
Definition storage_wf S : Prop :=
  (forall a k v v', (a, (k, v)) ∈ S -> (a, (k, v')) ∈ S -> v = v') /\ (forall a k v, (a, (k, v)) ∈ S -> v <> 0).

(** Setting a slot: the row is replaced, or deleted when the value is zero. *)
Definition set_slot (a k v : Z) S : gset (Z * (Z * Z)) :=
  let S := filter (fun r => (r.1, r.2.1) <> (a, k)) S in if decide (v = 0) then S else {[(a, (k, v))]} ∪ S.

Lemma elem_of_set_slot a k v S r : r ∈ set_slot a k v S <-> (r = (a, (k, v)) /\ v <> 0) \/ ((r.1, r.2.1) <> (a, k) /\ r ∈ S).
Proof. unfold set_slot. case_decide; set_unfold; rewrite ?elem_of_filter; set_unfold; rewrite ?elem_of_filter; naive_solver. Qed.

Lemma set_slot_wf a k v S : storage_wf S -> storage_wf (set_slot a k v S).
Proof.
  intros [H1 H2]. split.
  - intros a' k' w w'. rewrite !elem_of_set_slot. cbn. intros [[[= -> -> ->] _]|[Hn Hin]] [[[= ?] _]|[Hn' Hin']]; try congruence.
    by eapply H1.
  - intros a' k' w. rewrite elem_of_set_slot. intros [[[= -> -> ->] ?]|[_ Hin]]; [done|by eapply H2].
Qed.
End Slots.

(** ** Writing results *)
Section State.
Context {IL TE : Type} (value_le : relation Z) `{!RelDecision value_le, !TotalOrder value_le}.
Abbreviation state := (StateTables IL).
Abbreviation op := (st state (TransactionError TE)).
Implicit Types (s : state) (S : gset (Z * (Z * Z))) (C : gset ((Z * Z) * (Z * Z))) (t : AccountTables).

Definition slot S (a k : Z) : Z := default 0 (plain_slot value_le S a k).

Lemma plain_slot_in S a k v : plain_slot value_le S a k = Some v -> (a, (k, v)) ∈ S.
Proof.
  unfold plain_slot. destruct (seek_by_key_subkey _ _ _ _ _ _) as [[k' v']|] eqn:E; [|done].
  destruct (Z.eqb_spec k' k) as [->|]; [|done]. intros [= ->]. by eapply seek_subkey_in.
Qed.

Lemma plain_slot_row S a k v : storage_wf S -> (a, (k, v)) ∈ S -> plain_slot value_le S a k = Some v.
Proof.
  intros [Hu _] Hin. unfold plain_slot. rewrite (seek_subkey_ok _ _ _ a k v); [by rewrite Z.eqb_refl|done|].
  intros w Hw. by eapply Hu.
Qed.

Lemma slot_row S a k v : storage_wf S -> v <> 0 -> slot S a k = v <-> (a, (k, v)) ∈ S.
Proof.
  intros Hw Hv. unfold slot. split.
  - destruct (plain_slot value_le S a k) as [w|] eqn:E; cbn; [|done]. intros ->. by apply plain_slot_in.
  - intros Hin. by rewrite (plain_slot_row _ _ _ v).
Qed.

Lemma slot_zero S a k : storage_wf S -> slot S a k = 0 <-> (forall v, (a, (k, v)) ∉ S).
Proof.
  intros Hw. unfold slot. split.
  - destruct (plain_slot value_le S a k) as [w|] eqn:E; cbn.
    + intros ->. apply plain_slot_in in E. by apply Hw in E.
    + intros _ v Hin. by rewrite (plain_slot_row _ _ _ v) in E.
  - intros Hno. destruct (plain_slot value_le S a k) as [w|] eqn:E; [|done]. apply plain_slot_in in E. by apply Hno in E.
Qed.

Lemma storage_wf_ext S S' : storage_wf S -> storage_wf S' -> (forall a k, slot S a k = slot S' a k) -> S = S'.
Proof.
  intros Hw Hw' He. apply set_eq. intros [a [k v]].
  assert (Hz : forall X, storage_wf X -> (a, (k, v)) ∈ X -> v <> 0) by (intros X [_ H]; by apply H).
  split; intros Hin.
  - pose proof (Hz _ Hw Hin). apply slot_row; [done..|]. rewrite <- He. by apply slot_row.
  - pose proof (Hz _ Hw' Hin). apply slot_row; [done..|]. rewrite He. by apply slot_row.
Qed.

Lemma slot_set_slot a k v S a' k' : storage_wf S ->
  slot (set_slot a k v S) a' k' = if decide ((a', k') = (a, k)) then v else slot S a' k'.
Proof.
  intros Hw. pose proof (set_slot_wf a k v S Hw) as Hw'. case_decide as E.
  - injection E as -> ->. destruct (decide (v = 0)) as [->|Hv].
    + apply slot_zero; [done|]. intros w. rewrite elem_of_set_slot. cbn. intros [[[= ?] ?]|[? _]]; done.
    + apply slot_row; [done|done|]. apply elem_of_set_slot. by left.
  - destruct (decide (slot S a' k' = 0)) as [Hz|Hz].
    + rewrite Hz. apply slot_zero; [done|]. intros w. rewrite elem_of_set_slot. cbn. pose proof (proj1 (slot_zero S a' k' Hw) Hz w).
      intros [[[= ?] ?]|[_ ?]]; congruence.
    + apply slot_row; [done|done|]. apply elem_of_set_slot. right. split; [done|]. by apply slot_row.
Qed.

(** Rows may be appended for account [a] of transition [now]. *)
Definition can_append (now a : Z) C : Prop := forall u b kv, ((u, b), kv) ∈ C -> u < now \/ (u = now /\ b <= a).

Lemma append_ok now a old s : can_append now a (storage_changeset s) ->
  append_storage_changeset (TE := TE) value_le (now, a) old s
  = (Ok tt, with_storage (plain_storage s) ({[((now, a), old)]} ∪ storage_changeset s) s).
Proof.
  intros Hc. unfold append_storage_changeset, mbind, st_bind, st_get.
  destruct (last (storage_changeset_rows value_le (s_history s))) as [[[u b] kv]|] eqn:E; [|done].
  apply last_elem, elem_of_dup_rows, Hc in E. unfold key_lt. rewrite bool_decide_eq_false_2; [done|].
  unfold strict, lex_le. cbn. unfold strict. lia.
Qed.

Abbreviation sto_journal from now base S C :=
  (journal from now base (fun ak => slot S ak.1 ak.2) (fun u ak v => ((u, ak.1), (ak.2, v)) ∈ C)).
Abbreviation acc_journal from now base t :=
  (journal from now base (fun a => PlainAccountState t !! a) (fun u a o => (u, (a, o)) ∈ AccountChangeSetTable t)).

(** What a step may add to the change sets: rows of one account at the present *)
Definition adds_storage (now a : Z) C C' : Prop :=
  C ⊆ C' /\ forall u b kv, ((u, b), kv) ∈ C' -> ((u, b), kv) ∈ C \/ (u = now /\ b = a).
Definition adds_account (now a : Z) t t' : Prop :=
  AccountChangeSetTable t ⊆ AccountChangeSetTable t' /\
  forall u b o, (u, (b, o)) ∈ AccountChangeSetTable t' -> (u, (b, o)) ∈ AccountChangeSetTable t \/ (u = now /\ b = a).

Lemma adds_storage_refl now a C : adds_storage now a C C.
Proof. split; [done|]. auto. Qed.
Lemma adds_storage_trans now a C1 C2 C3 : adds_storage now a C1 C2 -> adds_storage now a C2 C3 -> adds_storage now a C1 C3.
Proof. intros [H1 H2] [H3 H4]. split; [set_solver|]. intros u b kv [Hin|]%H4; auto. Qed.
Lemma adds_storage_append now a C C' : adds_storage now a C C' -> can_append now a C -> can_append now a C'.
Proof. intros [_ H] Hc u b kv [Hin|[-> ->]]%H; [by apply Hc in Hin|right; lia]. Qed.
Lemma adds_storage_one now a C kv : adds_storage now a C ({[((now, a), kv)]} ∪ C).
Proof. split; [set_solver|]. set_solver. Qed.

(** One slot written, with its former value *)
Lemma write_slot from now base S C a k v : sto_journal from now base S C -> from <= now -> storage_wf S ->
  (forall w, ((now, a), (k, w)) ∉ C) ->
  sto_journal from now base (set_slot a k v S) ({[((now, a), (k, slot S a k))]} ∪ C).
Proof.
  intros Hj Hf Hw Hno. eapply (journal_write _ _ _ _ _ _ _ (fun x => x = (a, k)) Hj Hf); [by intros ?? -> | |].
  - intros [a' k'] Hne. rewrite slot_set_slot by done. by rewrite decide_False.
  - intros u [a' k'] w. cbn. set_unfold. naive_solver.
Qed.

Lemma delete_put_slot a k new S : storage_wf S ->
  (if negb (new =? 0) then {[(a, (k, new))]} ∪ delete_value a (k, slot S a k) S else delete_value a (k, slot S a k) S) = set_slot a k new S.
Proof.
  intros Hw. assert (E : delete_value a (k, slot S a k) S = filter (fun r => (r.1, r.2.1) <> (a, k)) S).
  { apply set_eq. intros [a' [k' v']]. unfold delete_value. rewrite elem_of_difference, elem_of_filter, elem_of_singleton. cbn.
    split; [|intros [Hne ?]; split; [done|]; congruence]. intros [Hin Hne]. split; [|done]. intros [= -> ->]. apply Hne.
    do 2 f_equal. symmetry. apply slot_row; [done|exact (proj2 Hw _ _ _ Hin)|done]. }
  rewrite E. unfold set_slot. destruct (Z.eqb_spec new 0); by case_decide.
Qed.

(** The slots of the other accounts *)
Definition same_slots (a : Z) S S' : Prop := forall b k, b <> a -> slot S' b k = slot S b k.
Lemma same_slots_refl a S : same_slots a S S.
Proof. done. Qed.
Lemma same_slots_trans a S1 S2 S3 : same_slots a S1 S2 -> same_slots a S2 S3 -> same_slots a S1 S3.
Proof. intros H1 H2 b k Hb. by rewrite H2, H1. Qed.
Lemma same_slots_set a k v S : storage_wf S -> same_slots a S (set_slot a k v S).
Proof. intros Hw b k' Hb. rewrite slot_set_slot by done. by rewrite decide_False by congruence. Qed.

Lemma change_storage_ok from now a base l s : sto_journal from now base (plain_storage s) (storage_changeset s) -> from <= now ->
  storage_wf (plain_storage s) -> can_append now a (storage_changeset s) -> NoDup l.*1 ->
  Forall (fun x => slot (plain_storage s) a x.1 = x.2.1 /\ forall w, ((now, a), (x.1, w)) ∉ storage_changeset s) l ->
  exists S C, change_storage (TE := TE) value_le (now, a) l s = (Ok tt, with_storage S C s) /\
    sto_journal from now base S C /\ storage_wf S /\ adds_storage now a (storage_changeset s) C /\ same_slots a (plain_storage s) S.
Proof.
  intros Hj Hf Hw Hc Hn Hl. revert s Hj Hw Hc Hl. induction l as [|[k [old new]] l IH]; intros s Hj Hw Hc Hl.
  { exists (plain_storage s), (storage_changeset s). split; [by destruct s as [[]]|]. auto 6 using adds_storage_refl, same_slots_refl. }
  apply NoDup_cons in Hn as [Hk Hn]. apply Forall_cons in Hl as [[Hold Hno] Hl]. cbn in Hk, Hold, Hno. cbn [change_storage snd].
  rewrite (bind_ok _ _ _ _ _ (append_ok now a (k, old) s Hc)). unfold modify, put_plain_storage.
  set (S' := set_slot a k new (plain_storage s)). set (C' := {[((now, a), (k, old))]} ∪ storage_changeset s).
  destruct (IH Hn (with_storage S' C' s)) as (S'' & C'' & E & Hj' & Hw' & Ha' & Hs').
  - unfold S', C'. rewrite <- Hold. by apply write_slot.
  - by apply set_slot_wf.
  - eapply adds_storage_append; [apply adds_storage_one|done].
  - apply Forall_forall. intros [k' [o' n']] Hin. rewrite Forall_forall in Hl. destruct (Hl _ Hin) as [Ho Hn'].
    assert (k' <> k) by (intros ->; apply Hk; apply list_elem_of_fmap; by exists (k, (o', n'))). cbn in Ho, Hn' |- *. split.
    + unfold S'. rewrite slot_set_slot by done. rewrite decide_False by congruence. done.
    + intros w. unfold C'. set_solver.
  - exists S'', C''. split; [|split; [done|split; [done|split]]].
    + etransitivity; [|exact E]. unfold S'. rewrite <- (delete_put_slot a k new _ Hw), Hold. by destruct (new =? 0).
    + eapply adds_storage_trans; [|exact Ha']. apply adds_storage_one.
    + eapply same_slots_trans; [|exact Hs']. by apply same_slots_set.
Qed.

Lemma append_entries_ok now a olds s : can_append now a (storage_changeset s) ->
  append_entries (TE := TE) value_le (now, a) olds s =
  (Ok tt, with_storage (plain_storage s) (list_to_set ((fun kv => ((now, a), kv)) <$> olds) ∪ storage_changeset s) s).
Proof.
  revert s. induction olds as [|old olds IH]; intros s Hc.
  { cbn. rewrite union_empty_l_L. by destruct s as [[]]. }
  cbn [append_entries]. rewrite (bind_ok _ _ _ _ _ (append_ok now a old s Hc)).
  rewrite IH by (eapply adds_storage_append; [apply adds_storage_one|done]).
  transitivity (Ok (E := TransactionError TE) tt, with_storage (plain_storage s)
    (list_to_set ((fun kv => ((now, a), kv)) <$> olds) ∪ ({[((now, a), old)]} ∪ storage_changeset s)) s); [done|].
  do 2 f_equal. cbn. set_solver.
Qed.

Lemma put_new_storage_ok from now a base l s : sto_journal from now base (plain_storage s) (storage_changeset s) -> from <= now ->
  storage_wf (plain_storage s) -> NoDup l.*1 ->
  Forall (fun x => slot (plain_storage s) a x.1 = 0 /\ (x.2.2 <> 0 -> exists w, ((now, a), (x.1, w)) ∈ storage_changeset s)) l ->
  exists S, put_new_storage (TE := TE) a l s = (Ok tt, with_storage S (storage_changeset s) s) /\
    sto_journal from now base S (storage_changeset s) /\ storage_wf S /\ same_slots a (plain_storage s) S.
Proof.
  intros Hj Hf Hw Hn Hl. revert s Hj Hw Hl. induction l as [|[k [old new]] l IH]; intros s Hj Hw Hl.
  { exists (plain_storage s). split; [by destruct s as [[]]|]. auto using same_slots_refl. }
  apply NoDup_cons in Hn as [Hk Hn]. apply Forall_cons in Hl as [[Hz Hrow] Hl]. cbn in Hk, Hz, Hrow. cbn [put_new_storage].
  destruct (Z.eqb_spec new 0) as [->|Hnew]; cbn [negb].
  { exact (IH Hn s Hj Hw Hl). }
  destruct (Hrow Hnew) as [w Hrow']. unfold put_plain_storage, modify.
  assert (E : {[(a, (k, new))]} ∪ plain_storage s = set_slot a k new (plain_storage s)).
  { rewrite <- delete_put_slot, Hz by done. rewrite (proj2 (Z.eqb_neq new 0)) by done. cbn. f_equal. unfold delete_value.
    assert ((a, (k, 0)) ∉ plain_storage s) by (intros Hin; by apply (proj2 Hw) in Hin). set_solver. }
  destruct (IH Hn (with_storage (set_slot a k new (plain_storage s)) (storage_changeset s) s)) as (S & E' & Hj' & Hw' & Hs').
  - apply (journal_set _ _ _ _ _ _ (a, k) now w Hj); [done|done|]. intros [a' k'] Hne. cbn.
    rewrite slot_set_slot by done. by rewrite decide_False.
  - by apply set_slot_wf.
  - apply Forall_forall. intros [k' [o' n']] Hin. rewrite Forall_forall in Hl. destruct (Hl _ Hin) as [Ho Hn'].
    assert (k' <> k) by (intros ->; apply Hk; apply list_elem_of_fmap; by exists (k, (o', n'))). cbn in Ho, Hn' |- *.
    split; [|done]. rewrite slot_set_slot by done. by rewrite decide_False by congruence.
  - exists S. split; [etransitivity; [|exact E']; by rewrite <- E|]. split; [done|]. split; [done|].
    eapply same_slots_trans; [|exact Hs']. by apply same_slots_set.
Qed.

(** The rows of one account *)
Lemma account_rows S a kv : kv ∈ (snd <$> filter (fun r => r.1 = a) (dup_rows Z.le Z.le value_le S)) <-> (a, kv) ∈ S.
Proof.
  rewrite list_elem_of_fmap. split.
  - intros ([a' kv'] & -> & [Ha Hin]%list_elem_of_filter). apply elem_of_dup_rows in Hin. cbn in Ha. by subst.
  - intros Hin. exists (a, kv). split; [done|]. apply list_elem_of_filter. split; [done|]. by apply elem_of_dup_rows.
Qed.

Lemma delete_key_slot S a a' k : storage_wf S ->
  storage_wf (delete_key a S) /\ slot (delete_key a S) a' k = if decide (a' = a) then 0 else slot S a' k.
Proof.
  intros Hw. assert (Hw' : storage_wf (delete_key a S)).
  { destruct Hw as [H1 H2]. unfold delete_key. split; [intros ???? [_ ?]%elem_of_filter [_ ?]%elem_of_filter; by eapply H1|].
    intros ??? [_ ?]%elem_of_filter. by eapply H2. }
  split; [done|]. case_decide as E.
  - subst. apply slot_zero; [done|]. intros v [? _]%elem_of_filter. done.
  - destruct (decide (slot S a' k = 0)) as [Hz|Hz].
    + rewrite Hz. apply slot_zero; [done|]. intros v [_ Hin]%elem_of_filter. by apply (proj1 (slot_zero S a' k Hw) Hz v).
    + apply slot_row; [done|done|]. apply elem_of_filter. split; [done|]. by apply slot_row.
Qed.

Lemma wipe_storage_ok from now a base l s : sto_journal from now base (plain_storage s) (storage_changeset s) -> from <= now ->
  storage_wf (plain_storage s) -> can_append now a (storage_changeset s) -> (forall kv, ((now, a), kv) ∉ storage_changeset s) ->
  NoDup l.*1 -> Forall (fun x => x.2.2 <> 0 -> slot (plain_storage s) a x.1 <> 0) l ->
  exists S C, (append_entries (TE := TE) value_le (now, a) (snd <$> filter (fun r => r.1 = a) (dup_rows Z.le Z.le value_le (plain_storage s)));;
      modify (fun s => with_storage (delete_key a (plain_storage s)) (storage_changeset s) s);;
      put_new_storage a l) s = (Ok tt, with_storage S C s) /\
    sto_journal from now base S C /\ storage_wf S /\ adds_storage now a (storage_changeset s) C /\ same_slots a (plain_storage s) S.
Proof.
  intros Hj Hf Hw Hc Hno Hn Hl. rewrite (bind_ok _ _ _ _ _ (append_entries_ok now a _ s Hc)).
  set (C := list_to_set _ ∪ storage_changeset s).
  assert (HC : forall u b kv, ((u, b), kv) ∈ C <-> ((u, b), kv) ∈ storage_changeset s \/ (u = now /\ b = a /\ (a, kv) ∈ plain_storage s)).
  { intros u b kv. unfold C. rewrite elem_of_union, elem_of_list_to_set, list_elem_of_fmap. split.
    - intros [(kv' & [= -> -> ->] & Hin%account_rows)|]; auto.
    - intros [|(-> & -> & Hin)]; [by right|]. left. exists kv. split; [done|]. by apply account_rows. }
  assert (Hd : forall b k, slot (delete_key a (plain_storage s)) b k = if decide (b = a) then 0 else slot (plain_storage s) b k)
    by (intros; by apply delete_key_slot).
  destruct (put_new_storage_ok from now a base l (with_storage (delete_key a (plain_storage s)) C s)) as (S & E & Hj' & Hw' & Hs').
  - eapply (journal_write _ _ _ _ _ _ _ (fun x => x.1 = a /\ slot (plain_storage s) a x.2 <> 0) Hj Hf).
    + intros [a' k'] v [Ha _] Hin. cbn in *. subst. by eapply Hno.
    + intros [a' k'] Hne. cbn in *. change (slot (delete_key a (plain_storage s)) a' k' = slot (plain_storage s) a' k').
      rewrite Hd. case_decide as E; [|done]. subst. destruct (decide (slot (plain_storage s) a k' = 0)); [done|]. exfalso. by apply Hne.
    + intros u [a' k'] v. cbn. transitivity (((u, a'), (k', v)) ∈ C); [done|]. rewrite HC. split.
      * intros [|(-> & -> & Hin)]; [by left|]. right. split; [done|].
        assert (Hv : slot (plain_storage s) a k' = v) by (apply slot_row; [done|by apply (proj2 Hw) in Hin|done]).
        rewrite Hv. split; [|done]. split; [done|]. by apply (proj2 Hw) in Hin.
      * intros [|(-> & (-> & Hnz) & ->)]; [by left|]. right. split; [done|]. split; [done|]. by apply slot_row.
  - done.
  - by apply (delete_key_slot _ a 0 0).
  - done.
  - eapply Forall_impl; [exact Hl|]. intros [k [old new]] Hk. cbn in *. split.
    + change (slot (delete_key a (plain_storage s)) a k = 0). rewrite Hd. by rewrite decide_True.
    + intros Hnew. exists (slot (plain_storage s) a k). apply HC. right. split; [done|]. split; [done|]. apply slot_row; auto.
  - exists S, C. split; [exact E|]. split; [done|]. split; [done|]. split.
    + split; [unfold C; set_solver|]. intros u b kv [|(-> & -> & _)]%HC; auto.
    + intros b k Hb. rewrite Hs' by done. change (slot (delete_key a (plain_storage s)) b k = slot (plain_storage s) b k).
      rewrite Hd. by rewrite decide_False.
Qed.

(** ** Valid change sets: the old values are those of the tables *)
Definition info_valid (spurious_dragon : bool) (cur : option Account) (c : AccountInfoChangeSet) : Prop :=
  match c with
  | Changed _ old | Destroyed old => cur = Some old
  | Created _ => cur = None
  | NoChange is_empty => spurious_dragon && is_empty = true -> cur = None
  end.
(** After a wipe only slots that had a value may get a new one. *)
Definition slots_valid S (a : Z) (c : AccountChangeSet) : Prop :=
  forall k old new, acs_storage c !! k = Some (old, new) ->
    if wipe_storage c then new <> 0 -> slot S a k <> 0 else slot S a k = old.
Definition change_valid (spurious_dragon : bool) s (a : Z) (c : AccountChangeSet) : Prop :=
  0 <= a /\ info_valid spurious_dragon (plain_accounts s !! a) (account c) /\ slots_valid (plain_storage s) a c.

Lemma apply_to_db_ok from now a base t c sd : acc_journal from now base t -> from <= now ->
  (forall o, (now, (a, o)) ∉ AccountChangeSetTable t) -> info_valid sd (PlainAccountState t !! a) c ->
  let t' := apply_to_db c a now sd t in
  acc_journal from now base t' /\ adds_account now a t t' /\ (forall b, b <> a -> PlainAccountState t' !! b = PlainAccountState t !! b).
Proof.
  intros Hj Hf Hno Hv t'.
  assert (Hsame : t' = t -> acc_journal from now base t' /\ adds_account now a t t' /\ (forall b, b <> a -> PlainAccountState t' !! b = PlainAccountState t !! b)).
  { intros ->. split; [done|]. split; [|done]. split; [done|]. auto. }
  assert (Hwrite : forall v m, t' = mkAccountTables m ({[(now, (a, v))]} ∪ AccountChangeSetTable t) -> v = PlainAccountState t !! a ->
    (forall b, b <> a -> m !! b = PlainAccountState t !! b) ->
    acc_journal from now base t' /\ adds_account now a t t' /\ (forall b, b <> a -> PlainAccountState t' !! b = PlainAccountState t !! b)).
  { intros v m -> -> Hm. split; [|split; [|done]].
    - eapply (journal_write _ _ _ _ _ _ _ (fun x => x = a) Hj Hf); [by intros ?? -> |done|]. intros u b o. cbn. set_unfold. naive_solver.
    - split; cbn; [set_solver|]. intros u b o. set_unfold. naive_solver. }
  unfold info_valid in Hv. subst t'. destruct c as [new|old|new old|is_empty]; cbn [apply_to_db] in *.
  - destruct (sd && account_is_empty new); [by apply Hsame|]. eapply Hwrite; [done|done|]. intros b Hb. by rewrite lookup_insert_ne.
  - eapply Hwrite; [done|done|]. intros b Hb. by rewrite lookup_delete_ne.
  - eapply Hwrite; [done|done|]. intros b Hb. by rewrite lookup_insert_ne.
  - destruct (sd && is_empty); [|by apply Hsame]. apply Hsame. rewrite delete_id by auto. by destruct t.
Qed.

(** The invariant of writing from [from] on, on top of [s0] *)
Record reverting (from now : Z) s0 s : Prop := {
  rv_acc : acc_journal from now (fun a => plain_accounts s0 !! a) (h_accounts (s_history s));
  rv_sto : sto_journal from now (fun ak => slot (plain_storage s0) ak.1 ak.2) (plain_storage s) (storage_changeset s);
  rv_wf : storage_wf (plain_storage s);
  rv_acc_old r : r.1 < from -> r ∈ account_changeset s <-> r ∈ account_changeset s0;
  rv_sto_old r : r.1.1 < from -> r ∈ storage_changeset s <-> r ∈ storage_changeset s0;
  rv_address u a kv : from <= u -> ((u, a), kv) ∈ storage_changeset s -> 0 <= a;
  rv_frame : AccountHistory (s_history s) = AccountHistory (s_history s0) /\ StorageHistory (s_history s) = StorageHistory (s_history s0) /\
    HashedAccount s = HashedAccount s0 /\ HashedStorage s = HashedStorage s0
}.

(** The rows of the present transition belong to addresses below [a]. *)
Definition done_below (now a : Z) s : Prop :=
  (forall b o, (now, (b, o)) ∈ account_changeset s -> b < a) /\ (forall b kv, ((now, b), kv) ∈ storage_changeset s -> b < a).

Lemma reverting_step from now s0 s a t' S' C' : reverting from now s0 s -> from <= now -> (C' = storage_changeset s \/ 0 <= a) ->
  acc_journal from now (fun a => plain_accounts s0 !! a) t' -> adds_account now a (h_accounts (s_history s)) t' ->
  sto_journal from now (fun ak => slot (plain_storage s0) ak.1 ak.2) S' C' -> storage_wf S' -> adds_storage now a (storage_changeset s) C' ->
  reverting from now s0 (with_storage S' C' (with_accounts t' s)).
Proof.
  intros [H1 H2 H3 H4 H5 H6 H7] Hf Hadr Ha [Ha1 Ha2] Hs Hw [Hs1 Hs2]. split; try done.
  - intros [u [b o]] Hr. rewrite <- H4 by done. cbn in Hr. split.
    + intros [Hin|[-> _]]%Ha2; [done|lia].
    + apply Ha1.
  - intros [[u b] kv] Hr. rewrite <- H5 by done. cbn in Hr. split.
    + intros [Hin|[-> _]]%Hs2; [done|lia].
    + apply Hs1.
  - intros u b kv Hu Hin. destruct Hadr as [-> |]; [by eapply H6|]. apply Hs2 in Hin as [Hin|[_ ->]]; [by eapply H6|done].
Qed.

Lemma apply_account_changeset_ok from now s0 s a c sd : reverting from now s0 s -> from <= now -> done_below now a s ->
  change_valid sd s a c ->
  exists s', apply_account_changeset (TE := TE) value_le sd now a c s = (Ok tt, s') /\ reverting from now s0 s' /\
    (forall b, a < b -> done_below now b s') /\
    (forall b, b <> a -> plain_accounts s' !! b = plain_accounts s !! b) /\ same_slots a (plain_storage s) (plain_storage s').
Proof.
  intros Hr Hf [Hd1 Hd2] (Hadr & Hi & Hsl). pose proof Hr as [H1 H2 H3 H4 H5 H6 H7].
  destruct (apply_to_db_ok from now a _ _ (account c) sd H1 Hf) as (Ja & Aa & Fa); [|done|].
  { intros o Hin. apply Hd1 in Hin. lia. }
  set (t' := apply_to_db _ _ _ _ _) in *.
  assert (Hc : can_append now a (storage_changeset s)).
  { intros u b [k v] Hin. pose proof (j_time _ _ _ _ _ H2 u (b, k) v Hin). destruct (decide (u = now)) as [->|]; [|left; lia].
    right. apply Hd2 in Hin. lia. }
  assert (Hno : forall kv, ((now, a), kv) ∉ storage_changeset s) by (intros kv Hin; apply Hd2 in Hin; lia).
  assert (Hentry : forall x, x ∈ entries Z.le (acs_storage c) -> acs_storage c !! x.1 = Some x.2)
    by (intros [k x] Hin; by apply elem_of_entries in Hin).
  assert (Hsto : exists S C, (if wipe_storage c then
        s ← st_get;
        append_entries value_le (now, a) (snd <$> filter (fun r => r.1 = a) (dup_rows Z.le Z.le value_le (plain_storage s)));;
        modify (fun s => with_storage (delete_key a (plain_storage s)) (storage_changeset s) s);;
        put_new_storage a (entries Z.le (acs_storage c))
      else change_storage (TE := TE) value_le (now, a) (entries Z.le (acs_storage c))) (with_accounts t' s)
      = (Ok tt, with_storage S C (with_accounts t' s)) /\
      sto_journal from now (fun ak => slot (plain_storage s0) ak.1 ak.2) S C /\ storage_wf S /\
      adds_storage now a (storage_changeset s) C /\ same_slots a (plain_storage s) S).
  { unfold slots_valid in Hsl. destruct (wipe_storage c).
    - apply (wipe_storage_ok from now a _ _ (with_accounts t' s)); try done; [apply entries_NoDup_keys|].
      apply Forall_forall. intros [k [old new]] Hin%Hentry. by eapply Hsl.
    - apply (change_storage_ok from now a _ _ (with_accounts t' s)); try done; [apply entries_NoDup_keys|].
      apply Forall_forall. intros [k [old new]] Hin%Hentry. split; [by eapply Hsl|]. intros w. apply Hno. }
  destruct Hsto as (S & C & E & Js & Ws & As & Ss).
  exists (with_storage S C (with_accounts t' s)). split; [exact E|]. split; [by eapply reverting_step; eauto|]. split; [|done].
  intros b Hb. split.
  - intros b' o [Hin|[_ ->]]%Aa; [apply Hd1 in Hin; lia|done].
  - intros b' kv [Hin|[_ ->]]%As; [apply Hd2 in Hin; lia|done].
Qed.

(** No row of the transition yet *)
Definition fresh (now : Z) s : Prop :=
  (forall b o, (now, (b, o)) ∉ account_changeset s) /\ (forall b kv, ((now, b), kv) ∉ storage_changeset s).

Lemma reverting_later from now now' s0 s : reverting from now s0 s -> now < now' -> reverting from now' s0 s /\ fresh now' s.
Proof.
  intros [H1 H2 H3 H4 H5 H6 H7] Hn. split.
  - split; try done; (eapply journal_later; [done|lia]).
  - split; intros b x Hin.
    + apply (j_time _ _ _ _ _ H1 now' b x) in Hin. lia.
    + destruct x as [k v]. apply (j_time _ _ _ _ _ H2 now' (b, k) v) in Hin. lia.
Qed.

Lemma apply_account_changesets_ok from now s0 sd l s : reverting from now s0 s -> from <= now ->
  StronglySorted (fun x y => x.1 < y.1) l -> Forall (fun x => done_below now x.1 s /\ change_valid sd s x.1 x.2) l ->
  exists s', apply_account_changesets (TE := TE) value_le sd now l s = (Ok tt, s') /\ reverting from now s0 s'.
Proof.
  intros Hr Hf Hs Hl. revert s Hr Hl. induction Hs as [|[a c] l Hs IH Hx]; intros s Hr Hl; [by exists s|].
  apply Forall_cons in Hl as [[Hd Hv] Hl]. destruct (apply_account_changeset_ok from now s0 s a c sd Hr Hf Hd Hv) as (s1 & E & Hr1 & Hd1 & Fa & Fs).
  destruct (IH s1 Hr1) as (s' & E' & Hr').
  - rewrite Forall_forall in Hl, Hx |- *. intros [b c'] Hin. pose proof (Hx _ Hin) as Hb. cbn in Hb.
    destruct (Hl _ Hin) as [_ (Hadr & Hi & Hsl)]. cbn in *. split; [by apply Hd1|]. split; [done|]. split; [by rewrite Fa by lia|].
    unfold slots_valid in *. intros k old new Hk. rewrite Fs by lia. by eapply Hsl.
  - exists s'. split; [|done]. cbn [apply_account_changesets]. by rewrite (bind_ok _ _ _ _ _ E).
Qed.

(** The change sets of the transactions of a block, one transition each *)
Fixpoint txs_valid (sd : bool) (now : Z) (l : list TransactionChangeSet) s : Prop :=
  match l with
  | [] => True
  | r :: l =>
      map_Forall (change_valid sd s) (changeset r) /\
      forall s', apply_account_changesets (TE := TE) value_le sd now (entries Z.le (changeset r)) s = (Ok tt, s') ->
        txs_valid sd (now + 1) l (with_bytecodes (new_bytecodes r ∪ Bytecodes s') s')
  end.

Lemma entries_lt {V} (m : gmap Z V) : StronglySorted (fun x y => x.1 < y.1) (entries Z.le m).
Proof. eapply StronglySorted_impl; [|apply (entries_strict Z.le)]. intros x y [H1 H2]. cbn in *. lia. Qed.

Lemma apply_transactions_ok from s0 sd l now s : reverting from now s0 s -> fresh now s -> from <= now -> txs_valid sd now l s ->
  0 <= now -> in_u 64 (now + zlen l) ->
  exists s', apply_transactions (TE := TE) value_le sd now l s = (Ok (now + zlen l), s') /\ reverting from (now + zlen l) s0 s' /\
    fresh (now + zlen l) s'.
Proof.
  revert now s. induction l as [|r l IH]; intros now s Hr Hfr Hf Hv Hn Hu.
  { exists s. cbn. rewrite Z.add_0_r. done. }
  destruct Hv as [Hv Hnext]. destruct (apply_account_changesets_ok from now s0 sd (entries Z.le (changeset r)) s Hr Hf (entries_lt _)) as (s1 & E & Hr1).
  { apply Forall_forall. intros [a c] Hin%elem_of_entries. split; [|by apply Hv]. destruct Hfr as [F1 F2].
    split; [intros b o Hb; by apply F1 in Hb|intros b kv Hb; by apply F2 in Hb]. }
  cbn [length] in Hu. unfold in_u in Hu. set (s2 := with_bytecodes (new_bytecodes r ∪ Bytecodes s1) s1).
  assert (Hr2 : reverting from now s0 s2) by (destruct Hr1; by split).
  destruct (reverting_later _ _ (now + 1) _ _ Hr2 ltac:(lia)) as [Hr3 Hfr3].
  destruct (IH (now + 1) s2 Hr3 Hfr3 ltac:(lia) (Hnext s1 E) ltac:(lia)) as (s' & E' & Hr' & Hfr'); [unfold in_u; lia|].
  replace (now + zlen (r :: l)) with (now + 1 + zlen l) by (cbn [length]; lia).
  exists s'. split; [|done]. cbn [apply_transactions]. rewrite (bind_ok _ _ _ _ _ E). rewrite wadd_small by (unfold in_u; lia). exact E'.
Qed.

Lemma apply_block_changesets_ok from now s0 sd l s : reverting from now s0 s -> from <= now -> NoDup l.*1 ->
  Forall (fun x => (forall o, (now, (x.1, o)) ∉ account_changeset s) /\ info_valid sd (plain_accounts s !! x.1) x.2) l ->
  reverting from now s0 (with_accounts (apply_block_changesets sd now l (h_accounts (s_history s))) s).
Proof.
  intros Hr Hf Hn Hl. revert s Hr Hl. induction l as [|[a c] l IH]; intros s Hr Hl.
  { destruct Hr. by split. }
  apply NoDup_cons in Hn as [Ha Hn]. apply Forall_cons in Hl as [[Hno Hv] Hl]. cbn in Ha, Hno, Hv.
  pose proof Hr as [H1 H2 H3 H4 H5 H6 H7].
  destruct (apply_to_db_ok from now a _ _ c sd H1 Hf Hno Hv) as (Ja & Aa & Fa). set (t' := apply_to_db c a now sd _) in *.
  assert (Hr1 : reverting from now s0 (with_accounts t' s)).
  { exact (reverting_step from now s0 s a t' _ _ Hr Hf (or_introl eq_refl) Ja Aa H2 H3 (adds_storage_refl _ _ _)). }
  apply (IH Hn (with_accounts t' s) Hr1). apply Forall_forall. intros [b c'] Hin. rewrite Forall_forall in Hl.
  assert (b <> a) by (intros ->; apply Ha; apply list_elem_of_fmap; by exists (a, c')).
  destruct (Hl _ Hin) as [Hno' Hv']. cbn in *. split.
  - intros o [Hb|[_ ->]]%Aa; [by apply Hno' in Hb|done].
  - change (info_valid sd (PlainAccountState t' !! b) c'). by rewrite Fa.
Qed.

Definition result_transitions (r : ExecutionResult) : Z :=
  zlen (tx_changesets r) + if decide (block_changesets r = ∅) then 0 else 1.
Definition results_transitions (l : list ExecutionResult) : Z := foldr (fun r n => result_transitions r + n) 0 l.

Lemma results_transitions_pos l : 0 <= results_transitions l.
Proof. induction l as [|r l IH]; cbn; [done|]. fold (results_transitions l). unfold result_transitions. case_decide; lia. Qed.

Fixpoint results_valid (chain_spec : ChainSpec) (n now : Z) (l : list ExecutionResult) s : Prop :=
  match l with
  | [] => True
  | r :: l =>
      let sd := active_at_block (fork chain_spec SpuriousDragon) (n + 1) in
      txs_valid sd now (tx_changesets r) s /\
      forall s', apply_transactions (TE := TE) value_le sd now (tx_changesets r) s = (Ok (now + zlen (tx_changesets r)), s') ->
        map_Forall (fun a c => info_valid sd (plain_accounts s' !! a) c) (block_changesets r) /\
        results_valid chain_spec (n + 1) (now + result_transitions r) l
          (with_accounts (apply_block_changesets sd (now + zlen (tx_changesets r)) (entries Z.le (block_changesets r)) (h_accounts (s_history s'))) s')
  end.

Lemma apply_results_ok from s0 chain_spec l n now s : reverting from now s0 s -> fresh now s -> from <= now ->
  results_valid chain_spec n now l s -> 0 <= n -> in_u 64 (n + zlen l) -> 0 <= now -> in_u 64 (now + results_transitions l) ->
  exists s', apply_results (TE := TE) value_le chain_spec n now l s = (Ok tt, s') /\
    reverting from (now + results_transitions l) s0 s' /\ fresh (now + results_transitions l) s'.
Proof.
  revert n now s. induction l as [|r l IH]; intros n now s Hr Hfr Hf Hv Hn Hnu Hnow Hu.
  { exists s. cbn. rewrite Z.add_0_r. done. }
  destruct Hv as [Hv Hnext]. cbn [results_transitions foldr length] in *. fold (results_transitions l) in *. unfold in_u in *.
  pose proof (results_transitions_pos l) as Hrt.
  assert (Hr0 : zlen (tx_changesets r) <= result_transitions r <= zlen (tx_changesets r) + 1) by (unfold result_transitions; case_decide; lia).
  cbn [apply_results]. rewrite (wadd_small 64 n 1) by (unfold in_u; lia).
  set (sd := active_at_block (fork chain_spec SpuriousDragon) (n + 1)) in *.
  destruct (apply_transactions_ok from s0 sd (tx_changesets r) now s Hr Hfr Hf Hv Hnow) as (s1 & E & Hr1 & Hfr1); [unfold in_u; lia|].
  destruct (Hnext s1 E) as [Hb Hnext']. set (now1 := now + zlen (tx_changesets r)) in *.
  assert (Hr2 : reverting from now1 s0 (with_accounts (apply_block_changesets sd now1 (entries Z.le (block_changesets r)) (h_accounts (s_history s1))) s1)).
  { apply apply_block_changesets_ok; [done|lia|apply entries_NoDup_keys|]. apply Forall_forall. intros [a c] Hin%elem_of_entries.
    split; [apply Hfr1|by apply Hb]. }
  set (s2 := with_accounts _ s1) in *.
  assert (Hlast : reverting from (now + result_transitions r) s0 s2 /\ fresh (now + result_transitions r) s2).
  { unfold result_transitions. case_decide as Ee.
    - rewrite Z.add_0_r. split; [done|]. unfold s2. rewrite Ee. exact Hfr1.
    - apply (reverting_later _ now1); [done|]. unfold now1. lia. }
  destruct Hlast as [Hr3 Hfr3].
  destruct (IH (n + 1) (now + result_transitions r) s2 Hr3 Hfr3 ltac:(lia) Hnext') as (s' & E' & Hr' & Hfr'); try lia.
  exists s'. rewrite Z.add_assoc. split; [|done]. rewrite (bind_ok _ _ _ _ _ E). etransitivity; [|exact E'].
  destruct (decide (block_changesets r = ∅)) as [Ee|Ee].
  - by assert (now + result_transitions r = now1) as -> by (unfold result_transitions, now1; rewrite decide_True by done; lia).
  - assert (Ert : now + result_transitions r = now1 + 1) by (unfold result_transitions, now1; rewrite decide_False by done; lia).
    rewrite (wadd_small 64 now1 1) by (unfold in_u; lia). by rewrite Ert.
Qed.
End State.
