(* ===== verification/ProviderRevert.v ===== *)
(** * Taking execution results back restores the state

    Over [take_changesets] of Provider: the walk over the change sets from the last row
    to the first collects, for each account and slot, its oldest value, and writing
    those values back undoes what was written ([reverting]). *)
From S2P Require Import Prelude Bytes BTree PoolInner Primitives ChainSpec SubState PrimitivesRlp Chain Compact Tables History HistoryProofs Provider ProviderState.

(** The first row of a key in a list sorted by time *)
Lemma first_row {R K} `{EqDecision K} (key : R -> K) (time : R -> Z) (rows : list R) k :
  StronglySorted (fun r r' => time r <= time r') rows ->
  match last (filter (fun r => key r = k) (reverse rows)) with
  | Some r => r ∈ rows /\ key r = k /\ forall r', r' ∈ rows -> key r' = k -> time r <= time r'
  | None => forall r, r ∈ rows -> key r <> k
  end.
Proof.
  intros Hs. assert (Hl : last (filter (fun r => key r = k) (reverse rows)) = head (filter (fun r => key r = k) rows)).
  { clear Hs. induction rows as [|r rows IH]; [done|]. rewrite reverse_cons, filter_app, !filter_cons, filter_nil.
    case_decide; [by rewrite last_snoc|]. by rewrite app_nil_r. }
  rewrite Hl. clear Hl. induction Hs as [|r rows Hs IH Hr]; [by intros r ?%not_elem_of_nil|]. rewrite filter_cons. case_decide as Ek; cbn.
  - split; [left|]. split; [done|]. intros r' [-> |Hin]%elem_of_cons _; [done|]. by apply (proj1 (Forall_forall _ _) Hr).
  - destruct (head _) as [r'|].
    + destruct IH as (H1 & H2 & H3). split; [by right|]. split; [done|]. intros r'' [-> |Hin]%elem_of_cons Hk; [done|by apply H3].
    + intros r' [-> |Hin]%elem_of_cons; [done|by apply IH].
Qed.

Section Revert.
Context {IL TE : Type} `{!EliasFano IL}.
Context (info_le : relation (option Account)) (value_le : relation Z).
Context `{!RelDecision info_le, !RelDecision value_le, !TotalOrder info_le, !TotalOrder value_le}.
Context (after_miss : gmap Z Account -> Z -> option Z).
Abbreviation state := (StateTables IL).
Abbreviation slot := (slot value_le).
Abbreviation reverting := (reverting value_le).
Abbreviation local_state := (gmap Z (option (option Account) * gmap Z Z)).
Implicit Types (s : state) (S : gset (Z * (Z * Z))) (local : local_state).

(** ** Collecting the oldest values *)
Definition known_account local (a : Z) : option (option Account) := local !! a ≫= fst.
Definition known_slot local (a k : Z) : option Z := x ← local !! a; x.2 !! k.

Lemma collect_accounts_ok plain rows local all : (forall a x, local !! a = Some x -> is_Some x.1) ->
  exists local' all', collect_accounts (TE := TE) plain rows (local, all) = Ok (local', all') /\
    (forall a x, local' !! a = Some x -> is_Some x.1) /\
    (forall a, known_account local' a = match last (filter (fun r => r.2.1 = a) rows) with Some r => Some r.2.2 | None => known_account local a end) /\
    (forall a k, known_slot local' a k = known_slot local a k).
Proof.
  revert local all. induction rows as [|[t [b info]] rows IH]; intros local all Hl; [by exists local, all|].
  set (storage := match local !! b with Some (_, storage) => storage | None => ∅ end).
  set (local1 := <[b := (Some info, storage)]> local).
  assert (Hl1 : forall a x, local1 !! a = Some x -> is_Some x.1).
  { intros a x. unfold local1. destruct (decide (a = b)) as [->|].
    - rewrite lookup_insert_eq. intros [= <-]. by eexists.
    - rewrite lookup_insert_ne by done. apply Hl. }
  assert (Hrun : exists all1, collect_accounts (TE := TE) plain ((t, (b, info)) :: rows) (local, all) = collect_accounts plain rows (local1, all1)).
  { cbn [collect_accounts]. destruct (local !! b) as [[[x|] y]|] eqn:E; [by eexists| |by eexists].
    destruct (Hl _ _ E) as [? [=]]. }
  destruct Hrun as [all1 ->]. destruct (IH local1 all1 Hl1) as (local' & all' & E & Hl' & Ha & Hk).
  exists local', all'. split; [done|]. split; [done|]. split.
  - intros a. rewrite Ha, filter_cons. cbn. unfold known_account, local1. case_decide as Eb.
    + subst. rewrite lookup_insert_eq. destruct (filter _ rows) eqn:Ef; [done|]. by rewrite !last_cons; destruct (last _).
    + by rewrite lookup_insert_ne.
  - intros a k. rewrite Hk. unfold known_slot, local1. destruct (decide (a = b)) as [->|].
    + rewrite lookup_insert_eq. cbn. unfold storage. by destruct (local !! b) as [[]|].
    + by rewrite lookup_insert_ne.
Qed.

Lemma collect_storage_ok plain rows acc :
  let acc' := foldl (collect_storage_row value_le plain) acc rows in
  (forall a, known_account acc'.1 a = known_account acc.1 a) /\
  (forall a k, known_slot acc'.1 a k = match last (filter (fun r => (r.1.2, r.2.1) = (a, k)) rows) with Some r => Some r.2.2 | None => known_slot acc.1 a k end).
Proof.
  revert acc. induction rows as [|[[t b] [k0 v]] rows IH]; intros acc; [done|].
  cbn [foldl]. destruct acc as [local all].
  assert (Hrow : exists all1, collect_storage_row value_le plain (local, all) ((t, b), (k0, v)) =
    (<[b := ((default (None, ∅) (local !! b)).1, <[k0 := v]> (default (None, ∅) (local !! b)).2)]> local, all1)).
  { unfold collect_storage_row. destruct (default (None, ∅) (local !! b)) as [x y]. destruct (changes_at t b all) as [c sl]. by eexists. }
  destruct Hrow as [all1 ->]. set (local1 := <[b := _]> local). specialize (IH (local1, all1)). cbn [fst] in IH |- *.
  destruct IH as [Ha Hk]. split.
  - intros a. rewrite Ha. unfold known_account, local1. destruct (decide (a = b)) as [->|]; [|by rewrite lookup_insert_ne].
    rewrite lookup_insert_eq. cbn. by destruct (local !! b) as [[]|].
  - intros a k. rewrite Hk, filter_cons. cbn [fst snd]. unfold known_slot, local1. case_decide as Eb.
    + injection Eb as -> ->. rewrite lookup_insert_eq. cbn. rewrite lookup_insert_eq.
      destruct (filter _ rows) eqn:Ef; [done|]. by rewrite !last_cons; destruct (last _).
    + destruct (last _); [done|]. destruct (decide (a = b)) as [->|]; [|by rewrite lookup_insert_ne].
      rewrite lookup_insert_eq. cbn. rewrite lookup_insert_ne by congruence. by destruct (local !! b) as [[]|].
Qed.

(** ** Writing the old values *)
Lemma delete_slot_row S a k : storage_wf S ->
  match plain_slot value_le S a k with Some v => delete_value a (k, v) S | None => S end = set_slot a k 0 S.
Proof.
  intros Hw. unfold set_slot. rewrite decide_True by done. apply set_eq. intros [a' [k' w]]. rewrite elem_of_filter. cbn.
  destruct (plain_slot value_le S a k) as [v|] eqn:E.
  - pose proof (plain_slot_in value_le _ _ _ _ E) as Hin. unfold delete_value. rewrite elem_of_difference, elem_of_singleton.
    split; [|intros [Hne ?]; split; [done|congruence]]. intros [Hin' Hne]. split; [|done]. intros [= -> ->]. apply Hne.
    by rewrite (proj1 Hw _ _ _ _ Hin' Hin).
  - split; [|by intros []]. intros Hin. split; [|done]. intros [= -> ->]. by rewrite (plain_slot_row value_le _ _ _ _ Hw Hin) in E.
Qed.

Lemma set_slot_zero_put S a k v : v <> 0 -> {[(a, (k, v))]} ∪ set_slot a k 0 S = set_slot a k v S.
Proof. intros Hv. unfold set_slot. by rewrite decide_True, decide_False. Qed.

(** The rows of the account are those of one slot. *)
Definition only_slot (a k0 : Z) S : Prop := forall k v, (a, (k, v)) ∈ S -> k = k0.

Lemma revert_storages_ok a k0 l s : storage_wf (plain_storage s) -> only_slot a k0 (plain_storage s) -> NoDup l.*1 ->
  Forall (fun x => x.2 <> 0 -> x.1 = k0) l ->
  exists S, revert_storages (TE := TE) value_le a l s = (Ok tt, with_storage S (storage_changeset s) s) /\ storage_wf S /\
    (forall k v, (k, v) ∈ l -> slot S a k = v) /\ (forall k, k ∉ l.*1 -> slot S a k = slot (plain_storage s) a k) /\
    same_slots value_le a (plain_storage s) S.
Proof.
  intros Hw Ho Hn Hl. revert s Hw Ho. induction l as [|[k v] l IH]; intros s Hw Ho.
  { exists (plain_storage s). split; [by destruct s as [[]]|]. split; [done|]. split; [by intros ?? ?%not_elem_of_nil|].
    split; [done|apply same_slots_refl]. }
  apply NoDup_cons in Hn as [Hk Hn]. apply Forall_cons in Hl as [Hv Hl]. cbn in Hk, Hv.
  set (S1 := set_slot a k v (plain_storage s)).
  assert (Ho1 : only_slot a k0 S1).
  { intros k' w [[E Hnz]|[_ Hin]]%elem_of_set_slot; [injection E as -> ->; by apply Hv|by eapply Ho]. }
  assert (Hstep : revert_storages (TE := TE) value_le a ((k, v) :: l) s = revert_storages value_le a l (with_storage S1 (storage_changeset s) s)).
  { cbn [revert_storages]. pose proof (delete_slot_row (plain_storage s) a k Hw) as Hd.
    rewrite (bind_ok _ _ s tt (with_storage (set_slot a k 0 (plain_storage s)) (storage_changeset s) s)).
    2:{ unfold modify, mbind, st_bind, st_get, st_put. rewrite <- Hd. destruct (plain_slot _ _ _ _); [done|]. by destruct s as [[]]. }
    unfold S1. destruct (Z.eqb_spec v 0) as [->|Hnz]; [done|]. cbn [negb]. rewrite <- (set_slot_zero_put _ a k v Hnz).
    unfold insert_plain_storage. rewrite (bind_ok _ _ _ tt (with_storage ({[(a, (k, v))]} ∪ set_slot a k 0 (plain_storage s)) (storage_changeset s) s)).
    1:done. unfold mbind, st_bind, st_get. rewrite decide_True; [done|]. apply set_eq. intros [a' [k' w]]. rewrite elem_of_filter.
    cbn. change (plain_storage (with_storage _ _ s)) with (set_slot a k 0 (plain_storage s)). rewrite elem_of_set_slot.
    split; [|by intros ?%not_elem_of_empty]. intros [-> [[_ ?]|[Hne Hin]]]; [done|]. cbn in Hne. apply Ho in Hin as ->. by rewrite Hv in Hne. }
  destruct (IH Hn Hl (with_storage S1 (storage_changeset s) s)) as (S & E & HwS & Hin & Hout & Hsame); [by apply set_slot_wf|done|].
  exists S. rewrite Hstep. split; [done|]. split; [done|]. split; [|split].
  - intros k' w [[= -> ->]|Hin']%elem_of_cons; [|by apply Hin]. rewrite Hout by done.
    change (slot S1 a k = v). unfold S1. rewrite slot_set_slot by done. by rewrite decide_True.
  - intros k' Hk'. cbn in Hk'. apply not_elem_of_cons in Hk' as [Hne Hk']. rewrite Hout by done.
    change (slot S1 a k' = slot (plain_storage s) a k'). unfold S1. rewrite slot_set_slot by done. by rewrite decide_False by congruence.
  - eapply same_slots_trans; [|exact Hsame]. by apply same_slots_set.
Qed.

Lemma revert_plain_account_ok a info s : (info = None -> is_Some (plain_accounts s !! a)) ->
  exists m, revert_plain_account (TE := TE) after_miss a info s = (Ok tt, with_accounts (mkAccountTables m (account_changeset s)) s) /\
    m !! a = info /\ (forall b, b <> a -> m !! b = plain_accounts s !! b).
Proof.
  intros Hi. unfold revert_plain_account, mbind, st_bind, st_get. destruct info as [x|].
  - eexists. split; [done|]. split; [apply lookup_insert_eq|]. intros b Hb. by rewrite lookup_insert_ne.
  - destruct (Hi eq_refl) as [x E]. cbn zeta. rewrite E. eexists. split; [done|]. split; [apply lookup_delete_eq|].
    intros b Hb. by rewrite lookup_delete_ne.
Qed.

(** A row of the collected values can be written back. *)
Definition can_revert s (x : Z * (option (option Account) * gmap Z Z)) : Prop :=
  (x.2.1 = Some None -> is_Some (plain_accounts s !! x.1)) /\
  (x.2.2 <> ∅ -> exists k0, only_slot x.1 k0 (plain_storage s) /\ forall k v, x.2.2 !! k = Some v -> v <> 0 -> k = k0).

Definition reverted s s' (a : Z) (acc : option (option Account)) (st : gmap Z Z) : Prop :=
  plain_accounts s' !! a = match acc with Some info => info | None => plain_accounts s !! a end /\
  forall k, slot (plain_storage s') a k = match st !! k with Some v => v | None => slot (plain_storage s) a k end.

(** The tables apart from the plain state *)
Definition same_tables s s' : Prop :=
  account_changeset s' = account_changeset s /\ storage_changeset s' = storage_changeset s /\
  AccountHistory (s_history s') = AccountHistory (s_history s) /\ StorageHistory (s_history s') = StorageHistory (s_history s) /\
  HashedAccount s' = HashedAccount s /\ HashedStorage s' = HashedStorage s /\ Bytecodes s' = Bytecodes s.

Lemma revert_plain_state_ok l s : storage_wf (plain_storage s) -> NoDup l.*1 -> Forall (can_revert s) l ->
  exists s', revert_plain_state (TE := TE) value_le after_miss l s = (Ok tt, s') /\ storage_wf (plain_storage s') /\ same_tables s s' /\
    (forall a acc st, (a, (acc, st)) ∈ l -> reverted s s' a acc st) /\ (forall a, a ∉ l.*1 -> reverted s s' a None ∅).
Proof.
  intros Hw Hn Hl. revert s Hw Hl. induction l as [|[a [acc st]] l IH]; intros s Hw Hl.
  { exists s. split; [done|]. split; [done|]. split; [done|]. split; [by intros ??? ?%not_elem_of_nil|]. intros a _. split; [done|].
    intros k. by rewrite lookup_empty. }
  apply NoDup_cons in Hn as [Ha Hn]. apply Forall_cons in Hl as [[Hacc Hsto] Hl]. cbn in Ha, Hacc, Hsto.
  assert (H1 : exists m, (match acc with Some info => revert_plain_account (TE := TE) after_miss a info | None => mret tt end) s
      = (Ok tt, with_accounts (mkAccountTables m (account_changeset s)) s) /\
      m !! a = match acc with Some info => info | None => plain_accounts s !! a end /\ (forall b, b <> a -> m !! b = plain_accounts s !! b)).
  { destruct acc as [info|]; [apply revert_plain_account_ok; intros ->; by apply Hacc|]. exists (plain_accounts s).
    split; [by destruct s as [[[]]]|done]. }
  destruct H1 as (m & E1 & Hma & Hmb). set (s1 := with_accounts (mkAccountTables m (account_changeset s)) s) in *.
  assert (H2 : exists S, revert_storages (TE := TE) value_le a (entries Z.le st) s1 = (Ok tt, with_storage S (storage_changeset s1) s1) /\
    storage_wf S /\ (forall k v, (k, v) ∈ entries Z.le st -> slot S a k = v) /\
    (forall k, k ∉ (entries Z.le st).*1 -> slot S a k = slot (plain_storage s1) a k) /\ same_slots value_le a (plain_storage s1) S).
  { destruct (decide (st = ∅)) as [->|Hne].
    - exists (plain_storage s1). split; [by destruct s as [[]]|]. split; [done|]. split; [by intros ?? ?%not_elem_of_nil|].
      split; [done|apply same_slots_refl].
    - destruct (Hsto Hne) as (k0 & Ho & Hk0). apply (revert_storages_ok a k0); [done|done|apply entries_NoDup_keys|].
      apply Forall_forall. intros [k v] Hin%elem_of_entries. by apply Hk0. }
  destruct H2 as (S & E2 & HwS & Hin & Hout & Hsame).
  set (s2 := with_storage S (storage_changeset s1) s1) in *.
  assert (Hs2 : reverted s s2 a acc st).
  { split; [exact Hma|]. intros k. change (slot S a k = match st !! k with Some v => v | None => slot (plain_storage s1) a k end).
    destruct (st !! k) as [v|] eqn:E; [apply Hin; by apply elem_of_entries|]. apply Hout.
    intros ([k' v] & -> & Hkv%elem_of_entries)%list_elem_of_fmap. cbn in E. congruence. }
  assert (Hs2' : forall b, b <> a -> plain_accounts s2 !! b = plain_accounts s !! b /\ forall k, slot (plain_storage s2) b k = slot (plain_storage s) b k).
  { intros b Hb. split; [by apply Hmb|]. intros k. by apply Hsame. }
  destruct (IH Hn s2) as (s' & E3 & Hw' & Ht' & Hin' & Hout'); [done| |].
  { rewrite Forall_forall in Hl |- *. intros [b [acc' st']] Hb. assert (b <> a) by (intros ->; apply Ha, list_elem_of_fmap; by exists (a, (acc', st'))).
    destruct (Hl _ Hb) as [Hacc' Hsto']. cbn in *. split; cbn; [by rewrite (proj1 (Hs2' b ltac:(done)))|].
    intros Hne. destruct (Hsto' Hne) as (k0' & Ho' & Hk0').
    exists k0'. split; [|done]. intros k v Hkv. pose proof (proj2 HwS _ _ _ Hkv) as Hv. apply (Ho' k v).
    apply (slot_row value_le); [done|done|]. rewrite <- (proj2 (Hs2' b ltac:(done))). by apply (slot_row value_le). }
  exists s'. split; [|split; [done|split; [|split]]].
  - cbn [revert_plain_state]. rewrite (bind_ok _ _ _ _ _ E1), (bind_ok _ _ _ _ _ E2). done.
  - destruct Ht' as (T1 & T2 & T3 & T4 & T5 & T6 & T7). by split_and!.
  - intros b acc' st' [[= -> -> ->]|Hb]%elem_of_cons.
    + destruct (Hout' a Ha) as [R1 R2], Hs2 as [R3 R4]. split; [by rewrite R1|]. intros k. rewrite R2, lookup_empty. apply R4.
    + assert (b <> a) by (intros ->; apply Ha, list_elem_of_fmap; by exists (a, (acc', st'))).
      destruct (Hin' _ _ _ Hb) as [R1 R2], (Hs2' b ltac:(done)) as [R3 R4]. split; [by rewrite R1, R3|]. intros k. by rewrite R2, R4.
  - intros b Hb. cbn in Hb. apply not_elem_of_cons in Hb as [Hne Hb]. destruct (Hout' b Hb) as [R1 R2], (Hs2' b Hne) as [R3 R4].
    split; [by rewrite R1, R3|]. intros k. by rewrite R2, lookup_empty, R4.
Qed.


(** ** The theorem *)

(** ** Two slots

    [insert] refuses an address that has a row, so an old value cannot be written back
    while another slot of the account is in use. *)
Lemma revert_storages_outcome a l s b k w : (b, (k, w)) ∈ plain_storage s -> (b = a -> k ∉ l.*1) ->
  fst (revert_storages (TE := TE) value_le a l s) = Err (Database (WriteError MDBX_KEYEXIST)) \/
  (exists s', revert_storages (TE := TE) value_le a l s = (Ok tt, s') /\ (b, (k, w)) ∈ plain_storage s' /\ plain_accounts s' = plain_accounts s /\
     (b = a -> Forall (fun x => x.2 = 0) l)).
Proof.
  revert s. induction l as [|[k1 v1] l IH]; intros s Hin Hk; [right; by exists s|]. cbn [revert_storages].
  set (s1 := match plain_slot value_le (plain_storage s) a k1 with
             | Some v => with_storage (delete_value a (k1, v) (plain_storage s)) (storage_changeset s) s | None => s end).
  rewrite (bind_ok _ _ s tt s1 eq_refl).
  assert (Hin1 : (b, (k, w)) ∈ plain_storage s1).
  { unfold s1. destruct (plain_slot _ _ _ _) as [v|]; [|done].
    change (plain_storage (with_storage ?X _ s)) with X. apply elem_of_difference. split; [done|]. rewrite elem_of_singleton.
    intros [= -> -> ->]. apply Hk; [done|left]. }
  assert (Hp1 : plain_accounts s1 = plain_accounts s) by (unfold s1; by destruct (plain_slot _ _ _ _)).
  assert (Hk' : b = a -> k ∉ l.*1) by (intros E Hl; apply Hk; [done|by right]).
  destruct (Z.eqb_spec v1 0) as [->|Hv1]; cbn [negb].
  { destruct (IH s1 Hin1 Hk') as [E|(s' & E & H1 & H2 & H3)]; [by left|]. right. exists s'. split; [exact E|]. split; [done|].
    split; [by rewrite H2|]. intros Hb'. constructor; [done|by apply H3]. }
  assert (Hi : insert_plain_storage (TE := TE) a k1 v1 s1 = if decide (filter (fun r => r.1 = a) (plain_storage s1) = ∅)
      then (Ok tt, with_storage ({[(a, (k1, v1))]} ∪ plain_storage s1) (storage_changeset s1) s1)
      else (Err (Database (WriteError MDBX_KEYEXIST)), s1)).
  { unfold insert_plain_storage, mbind, st_bind, st_get. by case_decide. }
  case_decide as Hempty; [|left; unfold mbind, st_bind; by rewrite Hi]. rewrite (bind_ok _ _ _ _ _ Hi).
  assert (Hne : b <> a).
  { intros ->. assert (Hx : (a, (k, w)) ∈ filter (fun r => r.1 = a) (plain_storage s1)) by (apply elem_of_filter; by split).
    rewrite Hempty in Hx. by apply not_elem_of_empty in Hx. }
  destruct (IH (with_storage ({[(a, (k1, v1))]} ∪ plain_storage s1) (storage_changeset s1) s1)) as [E|(s' & E & H1 & H2 & H3)].
  - change (plain_storage (with_storage ?X _ s1)) with X. apply elem_of_union. by right.
  - done.
  - by left.
  - right. exists s'. split; [exact E|]. split; [done|]. split; [by rewrite H2|]. done.
Qed.

Lemma revert_two_slots l s a k v k' w : NoDup l.*1 -> (a, (k', w)) ∈ plain_storage s ->
  (forall b acc st, (b, (acc, st)) ∈ l -> acc = Some None -> is_Some (plain_accounts s !! b)) ->
  (exists acc st, (a, (acc, st)) ∈ l /\ st !! k = Some v /\ st !! k' = None) -> v <> 0 ->
  fst (revert_plain_state (TE := TE) value_le after_miss l s) = Err (Database (WriteError MDBX_KEYEXIST)).
Proof.
  intros Hn Hin Hm Hex Hv. revert s Hin Hm. induction l as [|[b [acc st]] l IH]; intros s Hin Hm.
  { destruct Hex as (? & ? & ?%not_elem_of_nil & _). done. }
  apply NoDup_cons in Hn as [Hb Hn]. cbn in Hb. cbn [revert_plain_state].
  assert (H1 : exists m, (match acc with Some info => revert_plain_account (TE := TE) after_miss b info | None => mret tt end) s
      = (Ok tt, with_accounts (mkAccountTables m (account_changeset s)) s) /\ (forall c, c <> b -> m !! c = plain_accounts s !! c)).
  { destruct acc as [info|].
    - destruct (revert_plain_account_ok b info s) as (m & E & _ & Hc); [intros ->; eapply Hm; [left|done]|]. by exists m.
    - exists (plain_accounts s). split; [by destruct s as [[[]]]|done]. }
  destruct H1 as (m & E1 & Hc). rewrite (bind_ok _ _ _ _ _ E1). set (s1 := with_accounts _ s) in *.
  destruct (revert_storages_outcome b (entries Z.le st) s1 a k' w) as [E|(s2 & E & H1 & H2 & H3)]; [done| | |].
  - intros ->. destruct Hex as (acc' & st' & [[= <- <-]|Hl]%elem_of_cons & _ & Hnone).
    + intros ([k2 v2] & -> & Hk2%elem_of_entries)%list_elem_of_fmap. cbn in Hnone. congruence.
    + exfalso. apply Hb, list_elem_of_fmap. by exists (b, (acc', st')).
  - unfold mbind, st_bind. destruct (revert_storages _ _ _ s1) as [[] ?]; cbn in E; try done.
  - rewrite (bind_ok _ _ _ _ _ E). destruct Hex as (acc' & st' & Hl & Hk & Hnone). apply elem_of_cons in Hl as [[= <- <- <-]|Hl].
    { specialize (H3 eq_refl). rewrite Forall_forall in H3. exfalso. apply Hv.
      apply (H3 (k, v)). by apply elem_of_entries. }
    apply IH; [done|by eauto 6|done|]. intros c acc2 st2 Hc2 Hacc2. rewrite H2.
    assert (c <> b) by (intros ->; apply Hb, list_elem_of_fmap; by exists (b, (acc2, st2))).
    change (is_Some (m !! c)). rewrite Hc by done. eapply Hm; [by right|done].
Qed.

(** Nothing of the transitions to come in the change sets *)
Definition before (from : Z) s0 : Prop :=
  (forall r, r ∈ account_changeset s0 -> r.1 < from) /\ (forall r, r ∈ storage_changeset s0 -> r.1.1 < from).

Section Take.
Context (from now : Z) (s0 s : state).
Context (Hr : reverting from now s0 s) (Hfr : fresh now s) (Hb : before from s0) (Hle : from <= now).

Lemma account_time r : r ∈ account_changeset s -> r.1 < now.
Proof.
  destruct r as [u [a o]]. intros Hin. pose proof (j_time _ _ _ _ _ (rv_acc _ _ _ _ _ Hr) u a o Hin). cbn.
  destruct (decide (u = now)) as [->|]; [by apply Hfr in Hin|lia].
Qed.
Lemma storage_time r : r ∈ storage_changeset s -> r.1.1 < now.
Proof.
  destruct r as [[u a] [k v]]. intros Hin. pose proof (j_time _ _ _ _ _ (rv_sto _ _ _ _ _ Hr) u (a, k) v Hin). cbn.
  destruct (decide (u = now)) as [->|]; [by apply Hfr in Hin|lia].
Qed.

Definition account_rows_since : list (Z * (Z * option Account)) := rows_from Z.le from (account_changeset_rows info_le (s_history s)).
Definition storage_rows_since : list ((Z * Z) * (Z * Z)) := rows_from (lex_le Z.le Z.le) (from, 0) (storage_changeset_rows value_le (s_history s)).

Lemma elem_of_account_since r : r ∈ account_rows_since <-> r ∈ account_changeset s /\ from <= r.1.
Proof.
  unfold account_rows_since, rows_from. rewrite list_elem_of_filter. unfold account_changeset_rows. rewrite elem_of_dup_rows.
  unfold account_changeset. tauto.
Qed.
Lemma elem_of_storage_since r : r ∈ storage_rows_since <-> r ∈ storage_changeset s /\ from <= r.1.1.
Proof.
  unfold storage_rows_since, rows_from. rewrite list_elem_of_filter. unfold storage_changeset_rows. rewrite elem_of_dup_rows.
  destruct r as [[u a] kv]. cbn. split.
  - intros [Ht Hin]. split; [done|]. destruct Ht as [Ht|[Ht _]]; cbn in Ht; unfold strict in *; lia.
  - intros [Hin Ht]. split; [|done]. pose proof (rv_address _ _ _ _ _ Hr u a kv Ht Hin).
    destruct (decide (from = u)) as [->|]; [right; by cbn|left; cbn; unfold strict; lia].
Qed.

Lemma walk_storage_rows : walk_range (lex_le Z.le Z.le) (range (from, 0) (now, 0)) (storage_changeset_rows value_le (s_history s)) = Ok storage_rows_since.
Proof.
  unfold storage_rows_since. apply walk_range_to_end.
  - intros [H1 H2]. destruct H1 as [H1|[H1 _]]; cbn in H1; unfold strict in H1; [lia|]. apply H2. right. cbn. split; [done|lia].
  - apply Forall_forall. intros [[u a] kv] Hin%elem_of_dup_rows. apply storage_time in Hin. cbn in Hin |- *.
    split; [left; cbn; unfold strict; lia|]. intros [H'|[H' _]]; cbn in H'; unfold strict in H'; lia.
Qed.
Lemma walk_account_rows : walk_range Z.le (range from now) (account_changeset_rows info_le (s_history s)) = Ok account_rows_since.
Proof.
  unfold account_rows_since. apply walk_range_to_end.
  - unfold strict. lia.
  - apply Forall_forall. intros r Hin%elem_of_dup_rows. apply account_time in Hin. unfold strict. lia.
Qed.

Lemma take_storage_rows : get_or_take_storage_changeset (TE := TE) value_le true (range (from, 0) (now, 0)) s
  = (Ok storage_rows_since, with_storage (plain_storage s) (storage_changeset s0) s).
Proof.
  unfold get_or_take_storage_changeset, mbind, st_bind, st_get, st_lift. rewrite walk_storage_rows.
  cbn. unfold st_put. do 3 f_equal. apply set_eq. intros r.
  rewrite elem_of_difference, elem_of_list_to_set, elem_of_storage_since. split.
  - intros [Hin Hno]. apply (rv_sto_old _ _ _ _ _ Hr); [|done]. destruct (decide (r.1.1 < from)); [done|]. exfalso. apply Hno. split; [done|lia].
  - intros Hin. pose proof (proj2 Hb _ Hin). split; [by apply (rv_sto_old _ _ _ _ _ Hr)|]. lia.
Qed.

Lemma take_account_rows s' : account_changeset s' = account_changeset s -> plain_accounts s' = plain_accounts s ->
  get_or_take_account_changeset (TE := TE) info_le true (range from now) s'
  = (Ok account_rows_since, with_accounts (mkAccountTables (plain_accounts s) (account_changeset s0)) s').
Proof.
  intros E Ep. unfold get_or_take_account_changeset, mbind, st_bind, st_get, st_lift.
  assert (Hrows : account_changeset_rows info_le (s_history s') = account_changeset_rows info_le (s_history s)) by (unfold account_changeset_rows, account_changeset in *; by rewrite E).
  rewrite Hrows, walk_account_rows. cbn. unfold st_put. rewrite Ep, E. do 3 f_equal. f_equal. apply set_eq. intros r.
  rewrite elem_of_difference, elem_of_list_to_set, elem_of_account_since. split.
  - intros [Hin Hno]. apply (rv_acc_old _ _ _ _ _ Hr); [|done]. destruct (decide (r.1 < from)); [done|]. exfalso. apply Hno. split; [done|lia].
  - intros Hin. pose proof (proj1 Hb _ Hin). split; [by apply (rv_acc_old _ _ _ _ _ Hr)|]. lia.
Qed.

Lemma account_since_sorted : StronglySorted (fun r r' => r.1 <= r'.1) account_rows_since.
Proof.
  apply StronglySorted_filter. eapply StronglySorted_impl; [|apply dup_rows_strict; apply _].
  intros [u x] [u' x'] [[Ht|[Ht _]] _]; cbn in *; unfold strict in *; lia.
Qed.
Lemma storage_since_sorted : StronglySorted (fun r r' => r.1.1 <= r'.1.1) storage_rows_since.
Proof.
  apply StronglySorted_filter. eapply StronglySorted_impl; [|apply dup_rows_strict; apply _].
  intros [[u a] x] [[u' a'] x'] [[Ht|[Ht _]] _]; cbn in *; [|injection Ht as -> ->; lia].
  destruct Ht as [[Ht|[Ht _]] _]; cbn in *; unfold strict in *; lia.
Qed.

(** The oldest value of an account, or its present one if it did not change, is the
    one before; the same of a slot. *)
Lemma oldest_account a :
  match last (filter (fun r => r.2.1 = a) (reverse account_rows_since)) with Some r => r.2.2 | None => plain_accounts s !! a end
  = plain_accounts s0 !! a.
Proof.
  pose proof (first_row (fun r => r.2.1) fst account_rows_since a account_since_sorted) as Hf. pose proof (rv_acc _ _ _ _ _ Hr) as J.
  destruct (last _) as [[u [a' o]]|].
  - destruct Hf as ([Hin Hu]%elem_of_account_since & Hk & Hmin). cbn in Hk, Hu |- *. subst a'.
    apply (j_first _ _ _ _ _ J u a o Hin Hu). intros u' o' Hin' Hu'.
    apply (Hmin (u', (a, o'))); [|done]. by apply elem_of_account_since.
  - apply (j_same _ _ _ _ _ J a). intros u o Hin. destruct (decide (u < from)); [done|]. exfalso.
    apply (Hf (u, (a, o))); [|done]. apply elem_of_account_since. split; [done|]. cbn. lia.
Qed.

Lemma oldest_slot a k :
  match last (filter (fun r => (r.1.2, r.2.1) = (a, k)) (reverse storage_rows_since)) with
  | Some r => r.2.2 | None => slot (plain_storage s) a k end = slot (plain_storage s0) a k.
Proof.
  pose proof (first_row (fun r => (r.1.2, r.2.1)) (fun r => r.1.1) storage_rows_since (a, k) storage_since_sorted) as Hf.
  pose proof (rv_sto _ _ _ _ _ Hr) as J. destruct (last _) as [[[u a'] [k' v]]|].
  - destruct Hf as ([Hin Hu]%elem_of_storage_since & Hk & Hmin). cbn in Hk, Hu |- *. injection Hk as -> ->.
    apply (j_first _ _ _ _ _ J u (a, k) v Hin Hu). intros u' v' Hin' Hu'.
    apply (Hmin ((u', a), (k, v'))); [|done]. by apply elem_of_storage_since.
  - apply (j_same _ _ _ _ _ J (a, k)). intros u v Hin. destruct (decide (u < from)); [done|]. exfalso.
    apply (Hf ((u, a), (k, v))); [|done]. apply elem_of_storage_since. split; [done|]. cbn. lia.
Qed.

(** The rows are gone from the change sets when the plain state is set back, and the
    pass over them, newest first, has kept the oldest value of each. *)
Definition rows_taken : state := with_accounts (mkAccountTables (plain_accounts s) (account_changeset s0))
  (with_storage (plain_storage s) (storage_changeset s0) s).

Lemma collected : exists local all,
  take_changesets (TE := TE) info_le value_le after_miss true from now s
    = (revert_plain_state (TE := TE) value_le after_miss (entries Z.le local);; mret all) rows_taken /\
  (forall a, known_account local a = (fun r => r.2.2) <$> last (filter (fun r => r.2.1 = a) (reverse account_rows_since))) /\
  (forall a k, known_slot local a k = (fun r => r.2.2) <$> last (filter (fun r => (r.1.2, r.2.1) = (a, k)) (reverse storage_rows_since))).
Proof.
  destruct (collect_accounts_ok (plain_accounts s) (reverse account_rows_since) ∅ ∅) as (local1 & all1 & E1 & _ & Ka & Ks).
  { intros a x. by rewrite lookup_empty. }
  destruct (collect_storage_ok (plain_storage s) (reverse storage_rows_since) (local1, all1)) as [Ka' Ks'].
  destruct (foldl (collect_storage_row value_le (plain_storage s)) (local1, all1) (reverse storage_rows_since)) as [local all] eqn:E2.
  cbn [fst] in Ka', Ks'. exists local, all. split; [|split].
  - unfold take_changesets. rewrite (bind_ok _ _ _ _ _ take_storage_rows).
    rewrite (bind_ok _ _ _ _ _ (take_account_rows (with_storage (plain_storage s) (storage_changeset s0) s) eq_refl eq_refl)).
    fold rows_taken. unfold mbind at 1, st_bind at 1, st_get, mbind at 1, st_bind at 1, st_lift.
    change (plain_accounts rows_taken) with (plain_accounts s). change (plain_storage rows_taken) with (plain_storage s).
    rewrite E1. cbn beta iota. by rewrite E2.
  - intros a. rewrite Ka', Ka. by destruct (last _).
  - intros a k. rewrite Ks', Ks. by destruct (last _).
Qed.

(** What the engine and [insert] ask for: no account was created and destroyed in
    between, and an account whose storage changed uses one slot. *)
Definition no_miss : Prop :=
  forall u a o, (u, (a, o)) ∈ account_changeset s -> from <= u -> plain_accounts s0 !! a = None -> is_Some (plain_accounts s !! a).
Definition one_slot : Prop :=
  forall u a kv, ((u, a), kv) ∈ storage_changeset s -> from <= u ->
    exists k0, only_slot a k0 (plain_storage s) /\ only_slot a k0 (plain_storage s0).

Lemma take_changesets_ok : no_miss -> one_slot -> storage_wf (plain_storage s0) ->
  exists all s', take_changesets (TE := TE) info_le value_le after_miss true from now s = (Ok all, s') /\
    plain_accounts s' = plain_accounts s0 /\ account_changeset s' = account_changeset s0 /\
    plain_storage s' = plain_storage s0 /\ storage_changeset s' = storage_changeset s0 /\
    AccountHistory (s_history s') = AccountHistory (s_history s) /\ StorageHistory (s_history s') = StorageHistory (s_history s) /\
    HashedAccount s' = HashedAccount s /\ HashedStorage s' = HashedStorage s /\ Bytecodes s' = Bytecodes s.
Proof.
  intros Hm Ho Hw0. destruct collected as (local & all & E & Hka & Hks).
  assert (Hacc : forall a, match known_account local a with Some o => o | None => plain_accounts s !! a end = plain_accounts s0 !! a).
  { intros a. rewrite <- oldest_account, Hka. by destruct (last _). }
  assert (Hslot : forall a k, match known_slot local a k with Some v => v | None => slot (plain_storage s) a k end = slot (plain_storage s0) a k).
  { intros a k. rewrite <- oldest_slot, Hks. by destruct (last _). }
  destruct (revert_plain_state_ok (entries Z.le local) rows_taken) as (s' & E3 & Hw' & Ht & Hin & Hout); [apply Hr|apply entries_NoDup_keys| |].
  { apply Forall_forall. intros [a [acc st]] Hl%elem_of_entries. split; cbn.
    - intros ->. specialize (Hacc a). assert (Hk : known_account local a = Some None) by (unfold known_account; by rewrite Hl).
      rewrite Hk in Hacc. rewrite Hka in Hk.
      pose proof (first_row (fun r => r.2.1) fst account_rows_since a account_since_sorted) as Hf.
      destruct (last _) as [[u [a' o]]|]; [|done]. destruct Hf as ([Hi Hu]%elem_of_account_since & Hk' & _). cbn in Hk', Hu. subst.
      by eapply Hm.
    - intros Hne. apply map_choose in Hne as (k & v & Hkv).
      assert (Hk : known_slot local a k = Some v) by (unfold known_slot; by rewrite Hl).
      rewrite Hks in Hk. pose proof (first_row (fun r => (r.1.2, r.2.1)) (fun r => r.1.1) storage_rows_since (a, k) storage_since_sorted) as Hf.
      destruct (last _) as [[[u a'] kv]|]; [|done]. destruct Hf as ([Hi Hu]%elem_of_storage_since & [= -> _] & _). cbn in Hu.
      destruct (Ho _ _ _ Hi Hu) as (k0 & H1 & H2). exists k0. split; [done|]. intros k' v' Hk' Hv'.
      specialize (Hslot a k'). assert (Hks' : known_slot local a k' = Some v') by (unfold known_slot; by rewrite Hl).
      rewrite Hks' in Hslot. eapply H2. apply (slot_row value_le); [done|exact Hv'|]. by symmetry. }
  assert (Hall : forall a, plain_accounts s' !! a = plain_accounts s0 !! a /\ forall k, slot (plain_storage s') a k = slot (plain_storage s0) a k).
  { intros a. destruct (local !! a) as [[acc st]|] eqn:El.
    - destruct (Hin a acc st) as [R1 R2]; [by apply elem_of_entries|]. specialize (Hacc a). unfold known_account in Hacc. rewrite El in Hacc.
      split; [by rewrite R1|]. intros k. rewrite R2, <- Hslot. unfold known_slot. by rewrite El.
    - destruct (Hout a) as [R1 R2].
      { intros ([b x] & -> & Hx%elem_of_entries)%list_elem_of_fmap. cbn in El. congruence. }
      specialize (Hacc a). unfold known_account in Hacc. rewrite El in Hacc. split; [by rewrite R1|].
      intros k. rewrite R2, <- Hslot. unfold known_slot. by rewrite El, lookup_empty. }
  exists all, s'. destruct Ht as (T1 & T2 & T3 & T4 & T5 & T6 & T7). split.
  - rewrite E. by rewrite (bind_ok _ _ _ _ _ E3).
  - split; [apply map_eq; intros a; by apply Hall|]. split; [done|]. split; [apply (storage_wf_ext value_le); [done|done|apply Hall]|]. done.
Qed.

Lemma take_two_slots a k k' w u v : no_miss -> ((u, a), (k, v)) ∈ storage_changeset s -> from <= u -> slot (plain_storage s0) a k <> 0 ->
  (forall u' v', ((u', a), (k', v')) ∈ storage_changeset s -> u' < from) -> (a, (k', w)) ∈ plain_storage s ->
  fst (take_changesets (TE := TE) info_le value_le after_miss true from now s) = Err (Database (WriteError MDBX_KEYEXIST)).
Proof.
  intros Hm Hin Hu Hv Hk' Hw. destruct collected as (local & all & E & Hka & Hks).
  assert (Hfail : fst (revert_plain_state (TE := TE) value_le after_miss (entries Z.le local) rows_taken) = Err (Database (WriteError MDBX_KEYEXIST))).
  { apply (revert_two_slots _ _ a k (slot (plain_storage s0) a k) k' w); [apply entries_NoDup_keys|exact Hw| | |done].
    - intros b acc st Hl%elem_of_entries ->. change (is_Some (plain_accounts s !! b)).
      assert (Hk : known_account local b = Some None) by (unfold known_account; by rewrite Hl). pose proof (oldest_account b) as Ho.
      rewrite Hka in Hk. pose proof (first_row (fun r => r.2.1) fst account_rows_since b account_since_sorted) as Hf.
      destruct (last _) as [[u1 [b' o]]|]; [|done]. injection Hk as ->. destruct Hf as ([Hi Hu1]%elem_of_account_since & Hb1 & _).
      cbn in *. subst. eapply Hm; [exact Hi|exact Hu1|done].
    - pose proof (first_row (fun r => (r.1.2, r.2.1)) (fun r => r.1.1) storage_rows_since (a, k) storage_since_sorted) as Hf.
      pose proof (first_row (fun r => (r.1.2, r.2.1)) (fun r => r.1.1) storage_rows_since (a, k') storage_since_sorted) as Hf'.
      pose proof (oldest_slot a k) as Hs. pose proof (Hks a k) as H1. pose proof (Hks a k') as H2.
      match type of H1 with _ = _ <$> ?x => destruct x as [r|] end.
      + match type of H2 with _ = _ <$> ?x => destruct x as [[[u1 b] [k1 v1]]|] end.
        { destruct Hf' as ([Hi Hu1]%elem_of_storage_since & [= -> ->] & _). specialize (Hk' _ _ Hi). cbn in Hu1. lia. }
        cbn in H1, H2. unfold known_slot in H1, H2. destruct (local !! a) as [[acc st]|] eqn:El; [|done].
        exists acc, st. split; [by apply elem_of_entries|]. rewrite <- Hs. by split.
      + exfalso. apply (Hf ((u, a), (k, v))); [|done]. by apply elem_of_storage_since. }
  rewrite E. unfold mbind, st_bind. destruct (revert_plain_state _ _ _ rows_taken) as [[] ?]; cbn in Hfail |- *; congruence.
Qed.
End Take.

Lemma reverting_start from s0 : storage_wf (plain_storage s0) -> before from s0 -> reverting from from s0 s0 /\ fresh from s0.
Proof.
  intros Hw [Ha Hs]. split; split; try done.
  - apply journal_empty. intros u a o Hin. apply Ha in Hin. cbn in Hin. lia.
  - apply journal_empty. intros u [a k] v Hin. apply Hs in Hin. cbn in Hin. lia.
  - intros u a kv Hu Hin. apply Hs in Hin. cbn in Hin. lia.
  - intros b o Hin. apply Ha in Hin. cbn in Hin. lia.
  - intros b kv Hin. apply Hs in Hin. cbn in Hin. lia.
Qed.

(** C12. [insert_execution_result] followed by [take_block_execution_result_range], the
    bytecodes apart.  Results whose old values are those of the tables are written
    without an error, on the transitions that follow the present ones.  For taking those
    transitions back, suppose that no account of their change sets is missing before and
    after them ([no_miss]).  If, moreover, no account written to has a second slot
    ([one_slot]), the plain accounts, the plain storage and both change sets are restored.
    If some slot was written that held a value before, and its account has another slot
    that is present afterwards and was not written, then [insert] refuses to write the
    old value back and taking fails with MDBX_KEYEXIST. *)
Theorem execution_results_restored chain_spec n from results s0 :
  storage_wf (plain_storage s0) -> before from s0 -> results_valid (TE := TE) value_le chain_spec n from results s0 ->
  0 <= n -> in_u 64 (n + zlen results) -> 0 <= from -> in_u 64 (from + results_transitions results) ->
  exists s, apply_results (TE := TE) value_le chain_spec n from results s0 = (Ok tt, s) /\
    let now := from + results_transitions results in
    (no_miss from s0 s ->
      (one_slot from s0 s -> exists all, take_changesets (TE := TE) info_le value_le after_miss true from now s
          = (Ok all, with_bytecodes (Bytecodes s) s0)) /\
      (forall u a k v k' w, ((u, a), (k, v)) ∈ storage_changeset s -> from <= u -> slot (plain_storage s0) a k <> 0 ->
        (forall u' v', ((u', a), (k', v')) ∈ storage_changeset s -> u' < from) -> (a, (k', w)) ∈ plain_storage s ->
        fst (take_changesets (TE := TE) info_le value_le after_miss true from now s) = Err (Database (WriteError MDBX_KEYEXIST)))).
Proof.
  intros Hw Hb Hv Hn Hnu Hf Hu. destruct (reverting_start from s0 Hw Hb) as [Hr0 Hfr0].
  destruct (apply_results_ok value_le from s0 chain_spec results n from s0 Hr0 Hfr0 (Z.le_refl _) Hv Hn Hnu Hf Hu) as (s & E & Hr & Hfr).
  pose proof (results_transitions_pos results) as Hle.
  exists s. split; [done|]. intros now Hm. split.
  - intros Ho. destruct (take_changesets_ok from now s0 s Hr Hfr Hb ltac:(lia) Hm Ho Hw) as (all & s' & E' & T1 & T2 & T3 & T4 & T5 & T6 & T7 & T8 & T9).
    exists all. rewrite E'. f_equal. destruct (rv_frame _ _ _ _ _ Hr) as (F1 & F2 & F3 & F4).
    destruct s' as [[[]]], s0 as [[[]]], s as [[[]]]. cbn in T1, T2, T3, T4, T5, T6, T7, T8, T9, F1, F2, F3, F4. clear -T1 T2 T3 T4 T5 T6 T7 T8 T9 F1 F2 F3 F4. by subst.
  - intros u a k v k' w H1 H2 H3 H4 H5. exact (take_two_slots from now s0 s Hr Hfr Hb ltac:(lia) a k k' w u v Hm H1 H2 H3 H4 H5).
Qed.
End Revert.

Module SampleRevert.
Import ListIndex.
Import Sample.
Definition mainnet : ChainSpec := mkChainSpec 1 None MAINNET_hardforks.
Definition next_key (m : gmap Z Account) (a : Z) : option Z := fst <$> seek Z.le a (entries Z.le m).
Definition tx_result (m : gmap Z AccountChangeSet) : TransactionChangeSet := mkTransactionChangeSet default_receipt m ∅.

(** Block 6: account 7 is changed and its slot 1 written in the first transaction,
    account 9 is created in the second. *)
Definition state6 : StateTables (list Z) :=
  mkStateTables (mkHistoryTables (mkAccountTables {[7 := account1]} ∅) {[ (7, (1, 9)) ]} ∅ ∅ ∅) ∅ ∅ ∅.
Definition result6 : ExecutionResult :=
  mkExecutionResult [tx_result {[ 7 := mkAccountChangeSet (Changed account2 account1) {[ 1 := (9, 5) ]} false ]};
                     tx_result {[ 9 := mkAccountChangeSet (Created account1) ∅ false ]} ] ∅.

Definition state7 : StateTables (list Z) :=
  mkStateTables (mkHistoryTables (mkAccountTables {[7 := account2; 9 := account1]} {[ (2, (7, Some account1)); (3, (9, None)) ]})
    {[ (7, (1, 5)) ]} {[ ((2, 7), (1, 9)) ]} ∅ ∅) ∅ ∅ ∅.

Lemma state6_applied : apply_results (TE := unit) code_le mainnet 5 2 [result6] state6 = (Ok tt, state7).
Proof. vm_compute. reflexivity. Qed.

Lemma state6_valid : results_valid (TE := unit) code_le mainnet 5 2 [result6] state6.
Proof.
  cbn [results_valid]. split; [|by intros s' _; vm_compute]. cbn [result6 tx_changesets txs_valid tx_result changeset new_bytecodes]. split.
  - apply map_Forall_singleton. split; [lia|]. split; [by vm_compute|]. 
    intros k old new Hk. cbn [acs_storage] in Hk. apply lookup_singleton_Some in Hk as [<- [= <- <-]]. by vm_compute.
  - intros s' E. rewrite map_Forall_singleton. split; [|done]. split; [lia|].
    assert (Hs : plain_accounts s' !! 9 = None) by (apply (f_equal (fun x => plain_accounts x.2 !! 9)) in E; symmetry; revert E; by vm_compute).
    split; [exact Hs|]. intros k old new Hk. cbn [acs_storage] in Hk. by rewrite lookup_empty in Hk.
Qed.

Lemma execution_results_restored_witness : exists all,
  apply_results (TE := unit) code_le mainnet 5 2 [result6] state6 = (Ok tt, state7) /\
  take_changesets (TE := unit) code_le code_le next_key true 2 4 state7 = (Ok all, state6).
Proof.
  destruct (execution_results_restored (TE := unit) code_le code_le next_key mainnet 5 2 [result6] state6) as (s & E & Ht).
  - split; [intros a k v v' H1 H2|intros a k v H1]; set_unfold; naive_solver.
  - split; intros r Hr; by apply not_elem_of_empty in Hr.
  - exact state6_valid.
  - done.
  - done.
  - done.
  - done.
  - rewrite state6_applied in E. injection E as <-. destruct Ht as [Ht _].
    + intros u a o Hin _ Ha. cbn in Hin, Ha |- *. set_unfold. destruct Hin as [[= -> -> ->]|[= -> -> ->]]; [done|by eexists].
    + destruct Ht as [all Ht]; [|exists all; split; [apply state6_applied|exact Ht] ].
      intros u a kv Hin _. cbn in Hin. set_unfold. injection Hin as -> -> ->. exists 1. split; intros k v Hk; cbn in Hk; set_unfold; naive_solver.
Defined.

(** A second slot of account 7, untouched, and the block cannot be taken back. *)
Example second_slot_fails :
  let s0 := with_storage {[ (7, (1, 9)); (7, (2, 4)) ]} ∅ state6 in
  let '(r, s) := apply_results (TE := unit) code_le mainnet 5 2 [result6] s0 in
  r = Ok tt /\ fst (take_changesets (TE := unit) code_le code_le next_key true 2 4 s) = Err (Database (WriteError MDBX_KEYEXIST)).
Proof. vm_compute. done. Qed.

(** Account 7 is created and destroyed: taking the two transitions back deletes account
    9, on which the cursor stands. *)
Example short_lived_account_deletes_another :
  let s0 := with_accounts (mkAccountTables {[9 := account2]} ∅) state6 in
  let results := [mkExecutionResult [tx_result {[ 7 := mkAccountChangeSet (Created account1) ∅ false ]};
                                     tx_result {[ 7 := mkAccountChangeSet (Destroyed account1) ∅ false ]} ] ∅] in
  let '(r, s) := apply_results (TE := unit) code_le mainnet 5 2 results s0 in
  r = Ok tt /\ plain_accounts s = plain_accounts s0 /\
  plain_accounts (snd (take_changesets (TE := unit) code_le code_le next_key true 2 4 s)) = ∅.
Proof. vm_compute. done. Qed.

(** Slot 3 is set by a transaction that also wipes the storage of account 7, which no
    result of the executor does: nothing in the change set tells, and it stays. *)
Example slot_after_wipe_stays :
  let results := [mkExecutionResult [tx_result {[ 7 := mkAccountChangeSet (Changed account2 account1) {[ 3 := (0, 6) ]} true ]} ] ∅] in
  let '(r, s) := apply_results (TE := unit) code_le mainnet 5 2 results (with_storage ∅ ∅ state6) in
  r = Ok tt /\ plain_storage (snd (take_changesets (TE := unit) code_le code_le next_key true 2 3 s)) = {[ (7, (3, 6)) ]}.
Proof. vm_compute. done. Qed.
End SampleRevert.
