(* ===== verification/ProviderEffect.v ===== *)
(** * What change sets do to the plain state

    The account and the slots that writing an execution result leaves, for change sets
    that wipe a storage only when they set no slot, as the block executor's do, and
    that writing does not fail. *)
From S2P Require Import Prelude Bytes BTree PoolInner Primitives ChainSpec SubState PrimitivesRlp Chain Compact Tables History HistoryProofs Provider ProviderState.

(** The account after a change. *)
Definition info_after (sd : bool) (c : AccountInfoChangeSet) (cur : option Account) : option Account :=
  match c with
  | Changed new _ => Some new
  | Created new => if sd && account_is_empty new then cur else Some new
  | Destroyed _ => None
  | NoChange is_empty => if sd && is_empty then None else cur
  end.

(** A slot after the change of its account. *)
Definition slot_after (c : AccountChangeSet) (k cur : Z) : Z :=
  match acs_storage c !! k with
  | Some (_, new) => new
  | None => if wipe_storage c then 0 else cur
  end.

Section Effect.
Context {IL TE : Type} (value_le : relation Z) `{!RelDecision value_le, !TotalOrder value_le}.
Abbreviation state := (StateTables IL).
Implicit Types (s : state).
Abbreviation slot S a k := (slot value_le S a k).

Lemma apply_to_db_after c a now sd t b :
  PlainAccountState (apply_to_db c a now sd t) !! b
  = if decide (b = a) then info_after sd c (PlainAccountState t !! a) else PlainAccountState t !! b.
Proof.
  destruct c as [new|old|new old|e]; cbn.
  - destruct (sd && account_is_empty new); cbn; case_decide; subst; by simplify_map_eq.
  - case_decide; subst; by simplify_map_eq.
  - case_decide; subst; by simplify_map_eq.
  - destruct (sd && e); cbn; case_decide; subst; by simplify_map_eq.
Qed.

Lemma append_frame id old s s' :
  append_storage_changeset (TE := TE) value_le id old s = (Ok tt, s') -> exists C, s' = with_storage (plain_storage s) C s.
Proof.
  unfold append_storage_changeset, mbind, st_bind, st_get, st_put, st_throw.
  destruct (last _) as [[k v]|]; [destruct (key_lt _ _ _)|]; intros [=]; eauto.
Qed.

Lemma append_entries_frame id olds s s' :
  append_entries (TE := TE) value_le id olds s = (Ok tt, s') -> exists C, s' = with_storage (plain_storage s) C s.
Proof.
  revert s. induction olds as [|old olds IH]; intros s; cbn [append_entries].
  { intros [= <-]. exists (storage_changeset s). by destruct s as [[]]. }
  intros ([] & s1 & [C ->]%append_frame & H)%bind_inv. apply IH in H as [C' ->]. by exists C'.
Qed.

Lemma list_to_map_entries {V} (m : gmap Z V) : list_to_map (entries Z.le m) = m.
Proof.
  rewrite <- (list_to_map_to_list m) at 2. apply list_to_map_proper; [apply entries_NoDup_keys|apply entries_perm].
Qed.


(** The slots written by [change_storage]. *)
Lemma change_storage_after now a l s s' : storage_wf (plain_storage s) -> NoDup l.*1 ->
  Forall (fun x => slot (plain_storage s) a x.1 = x.2.1) l ->
  change_storage (TE := TE) value_le (now, a) l s = (Ok tt, s') ->
  exists S C, s' = with_storage S C s /\ storage_wf S /\
    forall b k, slot S b k = if decide (b = a) then match (list_to_map l : gmap Z (Z * Z)) !! k with
                                                     | Some (_, new) => new | None => slot (plain_storage s) a k end
                             else slot (plain_storage s) b k.
Proof.
  revert s. induction l as [|[k [old new]] l IH]; intros s Hw Hn Hl.
  { intros [= <-]. exists (plain_storage s), (storage_changeset s). split; [by destruct s as [[]]|].
    split; [done|]. intros b k. case_decide; subst; done. }
  apply NoDup_cons in Hn as [Hk Hn]. apply Forall_cons in Hl as [Hold Hl]. cbn in Hk, Hold. cbn [change_storage snd].
  intros ([] & s1 & [C ->]%append_frame & H)%bind_inv. unfold modify, put_plain_storage in H.
  set (S1 := set_slot a k new (plain_storage s)).
  assert (Hs1 : exists C1, change_storage (TE := TE) value_le (now, a) l (with_storage S1 C1 s) = (Ok tt, s')).
  { exists C. unfold S1. rewrite <- (delete_put_slot value_le a k new _ Hw), Hold. by destruct (new =? 0). }
  destruct Hs1 as [C1 Hs1]. apply IH in Hs1 as (S & C2 & -> & HwS & HS); [|by apply set_slot_wf|done|].
  - exists S, C2. split; [done|]. split; [done|]. intros b k'. rewrite HS. case_decide; subst.
    + cbn [list_to_map foldr]. destruct (decide (k' = k)) as [->|Hne].
      * cbn. rewrite lookup_insert_eq, not_elem_of_list_to_map_1 by done. unfold S1.
        change (plain_storage (with_storage ?S _ _)) with S. rewrite slot_set_slot by done. by rewrite decide_True.
      * cbn. rewrite lookup_insert_ne by done. destruct (_ !! k') as [[]|]; [done|].
        change (slot S1 a k' = slot (plain_storage s) a k'). unfold S1.
        rewrite slot_set_slot by done. by rewrite decide_False by congruence.
    + change (slot S1 b k' = slot (plain_storage s) b k'). unfold S1. rewrite slot_set_slot by done.
      by rewrite decide_False by congruence.
  - apply Forall_forall. intros [k' [o n]] Hin. rewrite Forall_forall in Hl. pose proof (Hl _ Hin) as Ho. cbn in *.
    change (slot S1 a k' = o). unfold S1. rewrite slot_set_slot by done. rewrite decide_False; [done|].
    intros [= ->]. apply Hk, list_elem_of_fmap. by exists (k, (o, n)).
Qed.

(** The plain state after the change set of one account. *)
Lemma apply_account_after sd now a c s s' : storage_wf (plain_storage s) ->
  slots_valid value_le (plain_storage s) a c -> (wipe_storage c = true -> acs_storage c = ∅) ->
  apply_account_changeset (TE := TE) value_le sd now a c s = (Ok tt, s') ->
  storage_wf (plain_storage s') /\
  (forall b, plain_accounts s' !! b = if decide (b = a) then info_after sd (account c) (plain_accounts s !! a) else plain_accounts s !! b) /\
  (forall b k, slot (plain_storage s') b k = if decide (b = a) then slot_after c k (slot (plain_storage s) a k) else slot (plain_storage s) b k).
Proof.
  intros Hw Hv He. unfold apply_account_changeset. intros ([] & s1 & E1 & H)%bind_inv. injection E1 as <-. cbv zeta in H.
  set (t' := apply_to_db _ _ _ _ _) in H. unfold slot_after.
  assert (Ha : forall S C b, plain_accounts (with_storage S C (with_accounts t' s)) !! b
    = if decide (b = a) then info_after sd (account c) (plain_accounts s !! a) else plain_accounts s !! b)
    by (intros; apply apply_to_db_after).
  destruct (wipe_storage c) eqn:Ew.
  - rewrite He in H |- * by done. apply bind_inv in H as (s2 & s3 & [= <- <-] & H).
    apply bind_inv in H as ([] & s4 & [C ->]%append_entries_frame & H). apply bind_inv in H as ([] & s5 & E5 & H).
    injection E5 as <-. injection H as <-.
    split; [by apply (delete_key_slot value_le _ a 0 0)|]. split; [intros b; apply Ha|]. intros b k.
    change (slot (delete_key a (plain_storage s)) b k = if decide (b = a) then (match (∅ : gmap Z (Z * Z)) !! k with Some (_, new) => new | None => 0 end) else slot (plain_storage s) b k).
    rewrite lookup_empty. by apply delete_key_slot.
  - apply (change_storage_after now a _ (with_accounts t' s)) in H as (S & C & -> & HwS & HS); [| done | apply entries_NoDup_keys |].
    + split; [done|]. split; [intros b; apply Ha|]. intros b k. change (slot S b k = if decide (b = a) then match acs_storage c !! k with Some (_, new) => new | None => slot (plain_storage s) a k end else slot (plain_storage s) b k).
      rewrite HS. case_decide; [|done]. by rewrite list_to_map_entries.
    + apply Forall_forall. intros [k [o n]] Hin%elem_of_entries. unfold slots_valid in Hv. specialize (Hv k o n Hin).
      by rewrite Ew in Hv.
Qed.

(** The plain state after the change sets of a transaction. *)
Record written sd (m : gmap Z AccountChangeSet) s s' : Prop := {
  wr_wf : storage_wf (plain_storage s');
  wr_account b : plain_accounts s' !! b = match m !! b with Some c => info_after sd (account c) (plain_accounts s !! b) | None => plain_accounts s !! b end;
  wr_slot b k : slot (plain_storage s') b k = match m !! b with Some c => slot_after c k (slot (plain_storage s) b k) | None => slot (plain_storage s) b k end
}.

Lemma apply_accounts_after sd now l s s' : storage_wf (plain_storage s) -> NoDup l.*1 ->
  Forall (fun x => slots_valid value_le (plain_storage s) x.1 x.2 /\ (wipe_storage x.2 = true -> acs_storage x.2 = ∅)) l ->
  apply_account_changesets (TE := TE) value_le sd now l s = (Ok tt, s') -> written sd (list_to_map l) s s'.
Proof.
  revert s. induction l as [|[a c] l IH]; intros s Hw Hn Hl.
  { intros [= <-]. by split. }
  apply NoDup_cons in Hn as [Ha Hn]. apply Forall_cons in Hl as [[Hv He] Hl]. cbn in Ha, Hv, He.
  cbn [apply_account_changesets]. intros ([] & s1 & H1 & H)%bind_inv.
  apply apply_account_after in H1 as (Hw1 & Acc1 & Slot1); [|done..].
  assert (Hne : forall b c', (b, c') ∈ l -> b <> a) by (intros b c' Hin ->; apply Ha, list_elem_of_fmap; by exists (a, c')).
  apply IH in H as [W A B]; [|done|done|].
  - split; [done|..]; intros b; [|intros k]; rewrite ?A, ?B, ?Acc1, ?Slot1; cbn [list_to_map foldr fst snd];
      (destruct (decide (b = a)) as [->|Hb]; [rewrite lookup_insert_eq, (not_elem_of_list_to_map_1 l a) by done; done|]);
      by rewrite (lookup_insert_ne _ a b) by done.
  - apply Forall_forall. intros [b c'] Hin. rewrite Forall_forall in Hl. destruct (Hl _ Hin) as [Hv' He']. cbn in *.
    split; [|done]. unfold slots_valid in *. intros k o n Hk. rewrite Slot1, decide_False by (by eapply Hne). by eapply Hv'.
Qed.

Lemma apply_entries_after sd now m s s' : storage_wf (plain_storage s) -> map_Forall (slots_valid value_le (plain_storage s)) m ->
  map_Forall (fun _ c => wipe_storage c = true -> acs_storage c = ∅) m ->
  apply_account_changesets (TE := TE) value_le sd now (entries Z.le m) s = (Ok tt, s') -> written sd m s s'.
Proof.
  intros Hw Hv He H. rewrite <- (list_to_map_entries m). apply (apply_accounts_after sd now); [done|apply entries_NoDup_keys| |done].
  apply Forall_forall. intros [a c] Hin%elem_of_entries. split; [by apply (Hv a c)|by apply (He a c)].
Qed.

(** The accounts after the change sets of a block. *)
Lemma block_changesets_after sd now l t b : NoDup l.*1 ->
  PlainAccountState (apply_block_changesets sd now l t) !! b
  = match (list_to_map l : gmap Z AccountInfoChangeSet) !! b with
    | Some c => info_after sd c (PlainAccountState t !! b) | None => PlainAccountState t !! b end.
Proof.
  unfold apply_block_changesets. revert t. induction l as [|[a c] l IH]; intros t Hn; [done|].
  apply NoDup_cons in Hn as [Ha Hn]. cbn [foldl fst snd list_to_map foldr]. rewrite IH by done. rewrite apply_to_db_after.
  destruct (decide (b = a)) as [->|Hb].
  - by rewrite lookup_insert_eq, not_elem_of_list_to_map_1.
  - by rewrite lookup_insert_ne.
Qed.

(** ** Writing succeeds

    The one error is an append below the last row of StorageChangeSet: there is none
    when every row is of an earlier transition. *)
Definition earlier (now : Z) s : Prop := forall u b kv, ((u, b), kv) ∈ storage_changeset s -> u < now.

Lemma change_storage_runs now a l s : can_append now a (storage_changeset s) ->
  exists S C, change_storage (TE := TE) value_le (now, a) l s = (Ok tt, with_storage S C s) /\ adds_storage now a (storage_changeset s) C.
Proof.
  revert s. induction l as [|[k [old new]] l IH]; intros s Hc.
  { exists (plain_storage s), (storage_changeset s). split; [by destruct s as [[]]|apply adds_storage_refl]. }
  cbn [change_storage snd]. cbv zeta. rewrite (bind_ok _ _ _ _ _ (append_ok value_le now a (k, old) s Hc)). unfold modify, put_plain_storage.
  assert (Ha : adds_storage now a (storage_changeset s) ({[((now, a), (k, old))]} ∪ storage_changeset s)) by (split; set_solver).
  assert (Hc' : can_append now a ({[((now, a), (k, old))]} ∪ storage_changeset s)) by (by eapply adds_storage_append).
  set (C1 := {[((now, a), (k, old))]} ∪ storage_changeset s) in *.
  assert (Hs : forall S, exists S' C', change_storage (TE := TE) value_le (now, a) l (with_storage S C1 s) = (Ok tt, with_storage S' C' s) /\
    adds_storage now a (storage_changeset s) C').
  { intros S. destruct (IH (with_storage S C1 s) Hc') as (S' & C' & E & Ha'). exists S', C'. split; [exact E|]. by eapply adds_storage_trans. }
  destruct (new =? 0); apply Hs.
Qed.

Lemma put_new_storage_runs a l s : exists S, put_new_storage (TE := TE) a l s = (Ok tt, with_storage S (storage_changeset s) s).
Proof.
  revert s. induction l as [|[k [old new]] l IH]; intros s.
  { exists (plain_storage s). by destruct s as [[]]. }
  cbn [put_new_storage]. unfold put_plain_storage, modify. destruct (new =? 0); [apply IH|].
  destruct (IH (with_storage ({[(a, (k, new))]} ∪ plain_storage s) (storage_changeset s) s)) as [S E]. exists S. exact E.
Qed.

Lemma apply_account_runs sd now a c s : can_append now a (storage_changeset s) ->
  exists s', apply_account_changeset (TE := TE) value_le sd now a c s = (Ok tt, s') /\ adds_storage now a (storage_changeset s) (storage_changeset s').
Proof.
  intros Hc. unfold apply_account_changeset. erewrite bind_ok by done. cbv zeta. set (s1 := with_accounts _ s).
  destruct (wipe_storage c).
  - erewrite bind_ok by done. rewrite (bind_ok _ _ _ _ _ (append_entries_ok value_le now a _ s1 Hc)). erewrite bind_ok by done.
    match goal with |- context [put_new_storage _ _ ?q] => destruct (put_new_storage_runs a (entries Z.le (acs_storage c)) q) as [S ->] end.
    eexists. split; [reflexivity|]. cbn. split; [set_solver|]. set_solver.
  - destruct (change_storage_runs now a (entries Z.le (acs_storage c)) s1 Hc) as (S & C & -> & Ha). by eexists.
Qed.

Lemma apply_accounts_runs sd now l s : StronglySorted (fun x y => x.1 < y.1) l -> Forall (fun x => can_append now x.1 (storage_changeset s)) l ->
  earlier (now + 1) s ->
  exists s', apply_account_changesets (TE := TE) value_le sd now l s = (Ok tt, s') /\ earlier (now + 1) s'.
Proof.
  intros Hs. revert s. induction Hs as [|[a c] l Hs IH Hx]; intros s Hl He; [by exists s|].
  apply Forall_cons in Hl as [Hc Hl]. destruct (apply_account_runs sd now a c s Hc) as (s1 & E & _ & Ha).
  cbn [apply_account_changesets]. rewrite (bind_ok _ _ _ _ _ E). apply IH.
  - apply Forall_forall. intros x Hin u b kv [Hb|[-> ->] ]%Ha.
    + by apply (proj1 (Forall_forall _ _) Hl x Hin u b kv).
    + right. split; [done|]. pose proof (proj1 (Forall_forall _ _) Hx x Hin). cbn in *. lia.
  - intros u b kv [Hb|[-> ->] ]%Ha; [by eapply He|lia].
Qed.

Lemma apply_transactions_runs sd l now s : earlier now s -> 0 <= now -> in_u 64 (now + zlen l) ->
  exists s', apply_transactions (TE := TE) value_le sd now l s = (Ok (now + zlen l), s') /\ earlier (now + zlen l) s'.
Proof.
  revert now s. induction l as [|r l IH]; intros now s He Hn Hu.
  { exists s. cbn. rewrite Z.add_0_r. done. }
  destruct (apply_accounts_runs sd now (entries Z.le (changeset r)) s (entries_lt _)) as (s1 & E & He1).
  { apply Forall_forall. intros x _ u b kv Hb. left. by eapply He. }
  { intros u b kv Hb. apply He in Hb. lia. }
  cbn [length] in Hu. unfold in_u in Hu. cbn [apply_transactions]. rewrite (bind_ok _ _ _ _ _ E). erewrite bind_ok by done.
  rewrite wadd_small by (unfold in_u; lia). replace (now + zlen (r :: l)) with (now + 1 + zlen l) by (cbn [length]; lia).
  apply IH; [exact He1|lia|unfold in_u; lia].
Qed.

Lemma apply_results_runs chain_spec l n now s : earlier now s -> 0 <= now -> in_u 64 (now + results_transitions l) ->
  exists s', apply_results (TE := TE) value_le chain_spec n now l s = (Ok tt, s').
Proof.
  revert n now s. induction l as [|r l IH]; intros n now s He Hn Hu; [by exists s|].
  cbn [results_transitions foldr] in Hu. fold (results_transitions l) in Hu. unfold in_u in Hu.
  pose proof (results_transitions_pos l) as Hrt. cbn [apply_results]. cbv zeta.
  set (sd := active_at_block _ _). unfold result_transitions in Hu.
  destruct (apply_transactions_runs sd (tx_changesets r) now s He Hn) as (s1 & E & He1); [unfold in_u; case_decide; lia|].
  rewrite (bind_ok _ _ _ _ _ E). erewrite bind_ok by done. destruct (decide (block_changesets r = ∅)).
  - apply IH; [exact He1|lia|unfold in_u; lia].
  - rewrite (wadd_small 64 (now + zlen (tx_changesets r)) 1) by (unfold in_u; lia). apply IH; [|lia|unfold in_u; lia].
    intros u b kv Hb. enough (u < now + zlen (tx_changesets r)) by lia. by eapply He1.
Qed.
End Effect.
