(* ===== verification/ProviderHash.v ===== *)
(** * The hashed tables mirror the plain ones

    HashedAccount and HashedStorage hold the plain state under the hashes of its
    addresses and slots ([account_mirror], [storage_mirror]).  Hashing the entries that
    changed keeps them a mirror of the new state; unwinding the hashing over the same
    transitions makes them a mirror of the old one, which determines them. *)
From S2P Require Import Prelude Bytes BTree PoolInner Primitives ChainSpec SubState PrimitivesRlp Chain Compact Tables History HistoryProofs Provider ProviderState ProviderRevert.

(** ** Folds over maps *)
Lemma foldl_insert_last {A K V} `{Countable K} (f : A -> K) (g : A -> V) (l : list A) (m : gmap K V) k :
  foldl (fun m x => <[f x := g x]> m) m l !! k
  = match last (filter (fun x => f x = k) l) with Some x => Some (g x) | None => m !! k end.
Proof.
  induction l as [|x l IH] using rev_ind; [done|]. rewrite foldl_snoc, filter_app, filter_cons, filter_nil.
  destruct (decide (f x = k)) as [<-|Hne].
  - by rewrite lookup_insert_eq, last_snoc.
  - by rewrite lookup_insert_ne, app_nil_r.
Qed.

Lemma foldl_insert_in {A K V} `{Countable K} (f : A -> K) (g : A -> V) (l : list A) (m : gmap K V) x :
  x ∈ l -> (forall y, y ∈ l -> f y = f x -> g y = g x) -> foldl (fun m x => <[f x := g x]> m) m l !! f x = Some (g x).
Proof.
  intros Hx Hu. rewrite foldl_insert_last. destruct (last _) as [y|] eqn:E.
  - apply last_Some_elem_of, list_elem_of_filter in E as [Hy Hin]. f_equal. by apply Hu.
  - apply last_None in E. assert (Hin : x ∈ filter (fun y => f y = f x) l) by (by apply list_elem_of_filter).
    rewrite E in Hin. by apply not_elem_of_nil in Hin.
Qed.

Lemma foldl_insert_out {A K V} `{Countable K} (f : A -> K) (g : A -> V) (l : list A) (m : gmap K V) k :
  (forall x, x ∈ l -> f x <> k) -> foldl (fun m x => <[f x := g x]> m) m l !! k = m !! k.
Proof.
  intros Hn. rewrite foldl_insert_last. destruct (last _) as [y|] eqn:E; [|done].
  apply last_Some_elem_of, list_elem_of_filter in E as [Hy Hin]. by apply Hn in Hy.
Qed.

Lemma set_hashed_accounts_ok l (m : gmap Z Account) : NoDup l.*1 ->
  (forall x o, (x, o) ∈ l -> set_hashed_accounts l m !! x = o) /\ (forall x, x ∉ l.*1 -> set_hashed_accounts l m !! x = m !! x).
Proof.
  unfold set_hashed_accounts. intros Hn. revert m. induction l as [|[x o] l IH]; intros m.
  { split; [by intros x o ?%not_elem_of_nil|done]. }
  apply NoDup_cons in Hn as [Hx Hn]. cbn in Hx. destruct (IH Hn (match o with Some a => <[x := a]> m | None => delete x m end)) as [H1 H2].
  split; cbn [foldl fst snd fmap list_fmap].
  - intros y o' [[= -> ->]|Hin]%elem_of_cons; [|by apply H1]. rewrite H2 by done. destruct o; [by rewrite lookup_insert_eq|by rewrite lookup_delete_eq].
  - intros y [Hne Hy]%not_elem_of_cons. cbn in Hne. rewrite H2 by done. destruct o; [by rewrite lookup_insert_ne by done|by rewrite lookup_delete_ne by done].
Qed.

Section Mirror.
Context (value_le : relation Z) `{!RelDecision value_le, !TotalOrder value_le}.
Context (keccak256 : bytes -> Z).
Abbreviation slot := (slot value_le).
Implicit Types (S T : gset (Z * (Z * Z))) (P H : gmap Z Account).

Definition hashed_address (a : Z) : Z := keccak256 (address_bytes a).
Definition hashed_key (k : Z) : Z := keccak256 (H256_bytes k).

(** No two addresses, and no two slots, have the same hash. *)
Definition no_collisions : Prop :=
  (forall a b, in_u 160 a -> in_u 160 b -> hashed_address a = hashed_address b -> a = b) /\
  (forall k l, in_u 256 k -> in_u 256 l -> hashed_key k = hashed_key l -> k = l).

Definition account_mirror H P : Prop :=
  (forall a, in_u 160 a -> H !! hashed_address a = P !! a) /\
  (forall x acc, H !! x = Some acc -> exists a, in_u 160 a /\ x = hashed_address a).

Definition storage_mirror T S : Prop :=
  storage_wf T /\
  (forall a k, in_u 160 a -> in_u 256 k -> slot T (hashed_address a) (hashed_key k) = slot S a k) /\
  (forall x y, slot T x y <> 0 -> exists a k, in_u 160 a /\ in_u 256 k /\ x = hashed_address a /\ y = hashed_key k).

Lemma account_mirror_unique H H' P : account_mirror H P -> account_mirror H' P -> H = H'.
Proof.
  intros [H1 H2] [H1' H2']. apply map_eq. intros x. destruct (H !! x) as [acc|] eqn:E.
  - destruct (H2 _ _ E) as (a & Ha & ->). by rewrite H1', <- H1.
  - destruct (H' !! x) as [acc|] eqn:E'; [|done]. destruct (H2' _ _ E') as (a & Ha & ->). rewrite H1 in E by done. by rewrite H1', E in E'.
Qed.

Lemma storage_mirror_unique T T' S : storage_mirror T S -> storage_mirror T' S -> T = T'.
Proof.
  intros (Hw & H1 & H2) (Hw' & H1' & H2'). apply (storage_wf_ext value_le); [done..|]. intros x y.
  destruct (decide (slot T x y = 0)) as [E|E], (decide (slot T' x y = 0)) as [E'|E']; [congruence|..].
  - destruct (H2' _ _ E') as (a & k & Ha & Hk & -> & ->). by rewrite H1, H1'.
  - destruct (H2 _ _ E) as (a & k & Ha & Hk & -> & ->). by rewrite H1, H1'.
  - destruct (H2 _ _ E) as (a & k & Ha & Hk & -> & ->). by rewrite H1, H1'.
Qed.

Context (Hcol : no_collisions).

(** Writing the hashes of accounts given with their new values *)
Lemma rehash_accounts H P P' (l : list (Z * option Account)) : account_mirror H P -> NoDup l.*1 ->
  (forall a o, (a, o) ∈ l -> in_u 160 a /\ P' !! a = o) -> (forall a, in_u 160 a -> a ∉ l.*1 -> P' !! a = P !! a) ->
  account_mirror (set_hashed_accounts (entries Z.le (foldl (fun m e => <[keccak256 (address_bytes e.1) := e.2]> m) ∅ l)) H) P'.
Proof.
  intros [H1 H2] Hn Hl Ho. set (m := foldl _ ∅ l). destruct (set_hashed_accounts_ok (entries Z.le m) H) as [Si So]; [apply entries_NoDup_keys|].
  assert (Hkeys : forall x, m !! x = None -> x ∉ (entries Z.le m).*1).
  { intros x Hx ([y o] & E & Hy%elem_of_entries)%list_elem_of_fmap. cbn in E. congruence. }
  assert (Hin : forall a o, (a, o) ∈ l -> m !! hashed_address a = Some o).
  { intros a o Hao. apply (foldl_insert_in (fun e => keccak256 (address_bytes e.1)) snd l ∅ (a, o) Hao). intros [b o'] Hb Eq. cbn in *.
    assert (b = a) as -> by (eapply (proj1 Hcol); [by eapply Hl|by eapply Hl|done]). by destruct (Hl _ _ Hao) as [_ <-], (Hl _ _ Hb) as [_ <-]. }
  assert (Hout : forall x, (forall a o, (a, o) ∈ l -> hashed_address a <> x) -> m !! x = None).
  { intros x Hx. unfold m. rewrite foldl_insert_out; [done|]. intros [a o] Hao. by eapply Hx. }
  split.
  - intros a Ha. destruct (decide (a ∈ l.*1)) as [([b o] & -> & Hao)%list_elem_of_fmap|Hno].
    + cbn [fst]. rewrite (Si (hashed_address b) o) by by apply elem_of_entries, Hin. symmetry. by eapply Hl.
    + assert (Hmn : m !! hashed_address a = None).
      { apply Hout. intros b o Hb Eq. apply Hno. apply (proj1 Hcol) in Eq; [|by eapply Hl|done]. subst. apply list_elem_of_fmap. by exists (a, o). }
      rewrite So, H1 by auto. symmetry. by apply Ho.
  - intros x acc Hx. destruct (m !! x) as [o|] eqn:E.
    + destruct (decide (x ∈ (fun e => hashed_address e.1) <$> l)) as [([a o'] & -> & Hao)%list_elem_of_fmap|Hno].
      * exists a. split; [by eapply Hl|done].
      * rewrite Hout in E; [done|]. intros a o' Hao Eq. apply Hno, list_elem_of_fmap. exists (a, o'). by split.
    + rewrite So in Hx; [by eapply H2|by apply Hkeys].
Qed.

(** The same of slots, given under their hashes *)
Lemma set_hashed_slot_ok x y v T : storage_wf T -> set_hashed_slot value_le x y v T = set_slot x y v T.
Proof.
  intros Hw. unfold set_hashed_slot. rewrite delete_slot_row by done. destruct (Z.eqb_spec v 0) as [->|Hv]; [done|]. by apply set_slot_zero_put.
Qed.

Abbreviation set_slots := (foldl (fun t e => set_hashed_slot value_le e.1.1 e.1.2 e.2 t)).

Lemma set_slots_ok (l : list ((Z * Z) * Z)) T : storage_wf T -> NoDup l.*1 ->
  storage_wf (set_slots T l) /\ (forall x y v, ((x, y), v) ∈ l -> slot (set_slots T l) x y = v) /\
  (forall x y, (x, y) ∉ l.*1 -> slot (set_slots T l) x y = slot T x y).
Proof.
  revert T. induction l as [|[[x y] v] l IH]; intros T Hw Hn.
  { split; [done|]. split; [by intros ??? ?%not_elem_of_nil|done]. }
  apply NoDup_cons in Hn as [Hx Hn]. cbn in Hx. cbn [foldl fst snd]. rewrite set_hashed_slot_ok by done.
  destruct (IH (set_slot x y v T)) as (W & I & O); [by apply set_slot_wf|done|]. split; [done|]. split.
  - intros x' y' v' [[= -> -> ->]|Hin]%elem_of_cons; [|by apply I]. rewrite O by done. rewrite slot_set_slot by done. by rewrite decide_True.
  - intros x' y' [Hne Hno]%not_elem_of_cons. cbn in Hne. rewrite O by done. rewrite slot_set_slot by done. by rewrite decide_False.
Qed.

Lemma rehash_storage T S S' (l : list ((Z * Z) * Z)) : storage_mirror T S -> NoDup l.*1 ->
  (forall x y v, ((x, y), v) ∈ l -> exists a k, in_u 160 a /\ in_u 256 k /\ x = hashed_address a /\ y = hashed_key k /\ v = slot S' a k) ->
  (forall a k, in_u 160 a -> in_u 256 k -> (hashed_address a, hashed_key k) ∉ l.*1 -> slot S' a k = slot S a k) ->
  storage_mirror (set_slots T l) S'.
Proof.
  intros (Hw & H1 & H2) Hn Hl Ho. destruct (set_slots_ok l T Hw Hn) as (W & I & O). split; [done|]. split.
  - intros a k Ha Hk. destruct (decide ((hashed_address a, hashed_key k) ∈ l.*1)) as [Hin|Hno].
    + apply list_elem_of_fmap in Hin as ([[x y] v] & [= <- <-] & Hin). rewrite (I _ _ _ Hin).
      destruct (Hl _ _ _ Hin) as (b & k' & Hb & Hk' & Ea & Ek & ->). apply (proj1 Hcol) in Ea as ->; [|done..]. by apply (proj2 Hcol) in Ek as ->.
    + rewrite O, H1 by done. symmetry. by apply Ho.
  - intros x y Hne. destruct (decide ((x, y) ∈ l.*1)) as [Hin|Hno].
    + apply list_elem_of_fmap in Hin as ([[x' y'] v] & [= -> ->] & Hin). destruct (Hl _ _ _ Hin) as (a & k & Ha & Hk & -> & -> & _). by exists a, k.
    + apply H2. by rewrite <- O.
Qed.

(** A map of maps, one slot after the other *)
Definition flat_slots (hashed : gmap Z (gmap Z Z)) : list ((Z * Z) * Z) :=
  entries Z.le hashed ≫= (fun e => (fun x => ((e.1, x.1), x.2)) <$> entries Z.le e.2).

Lemma set_hashed_slots_flat hashed T :
  set_hashed_slots value_le ((fun e => (e.1, entries Z.le e.2)) <$> entries Z.le hashed) T = set_slots T (flat_slots hashed).
Proof.
  unfold set_hashed_slots, flat_slots. generalize (entries Z.le hashed). intros l. revert T. induction l as [|[x m] l IH]; intros T; [done|].
  cbn [fmap list_fmap foldl fst snd mbind list_bind]. rewrite IH, foldl_app. f_equal.
  generalize (entries Z.le m). intros l'. clear. revert T. induction l' as [|[y v] l' IH]; intros T; [done|]. cbn. by rewrite IH.
Qed.

Lemma elem_of_flat_slots hashed x y v : ((x, y), v) ∈ flat_slots hashed <-> exists m, hashed !! x = Some m /\ m !! y = Some v.
Proof.
  unfold flat_slots. rewrite list_elem_of_bind. split.
  - intros ([x' m] & ([y' v'] & [= -> -> ->] & Hy%elem_of_entries)%list_elem_of_fmap & Hx%elem_of_entries). by exists m.
  - intros (m & Hx & Hy). exists (x, m). split; [|by apply elem_of_entries]. apply list_elem_of_fmap. exists (y, v). split; [done|by apply elem_of_entries].
Qed.

Lemma flat_slots_NoDup hashed : NoDup (flat_slots hashed).*1.
Proof.
  assert (E : (flat_slots hashed).*1 = entries Z.le hashed ≫= (fun e => (fun y => (e.1, y)) <$> (entries Z.le e.2).*1)).
  { unfold flat_slots. generalize (entries Z.le hashed). intros l. induction l as [|e l IH]; [done|].
    cbn [mbind list_bind]. rewrite fmap_app, IH. f_equal. by rewrite <- !list_fmap_compose. }
  rewrite E. apply NoDup_bind.
  - intros [x m] [x' m'] p Hx%elem_of_entries Hx'%elem_of_entries (y & -> & _)%list_elem_of_fmap (y' & [= <- <-] & _)%list_elem_of_fmap. congruence.
  - intros [x m] _. apply NoDup_fmap_2; [by intros ?? [= ->]|apply entries_NoDup_keys].
  - apply (NoDup_fmap_1 fst), entries_NoDup_keys.
Qed.
End Mirror.

Section Cycle.
Context {IL TE : Type} `{!EliasFano IL}.
Context (info_le : relation (option Account)) (value_le : relation Z).
Context `{!RelDecision info_le, !RelDecision value_le, !TotalOrder info_le, !TotalOrder value_le}.
Context (keccak256 : bytes -> Z) (Hcol : no_collisions keccak256).
Abbreviation state := (StateTables IL).
Abbreviation slot := (slot value_le).
Abbreviation account_mirror := (account_mirror keccak256).
Abbreviation storage_mirror := (storage_mirror value_le keccak256).
Abbreviation hashed_address := (hashed_address keccak256).
Abbreviation hashed_key := (hashed_key keccak256).

(** Addresses and slots of the range fit their types. *)
Definition changes_fit (from : Z) (s : state) : Prop :=
  (forall u a o, (u, (a, o)) ∈ account_changeset s -> from <= u -> in_u 160 a) /\
  (forall u a k v, ((u, a), (k, v)) ∈ storage_changeset s -> from <= u -> in_u 160 a /\ in_u 256 k).

Context (from now : Z) (s0 s : state).
Context (Hr : reverting value_le from now s0 s) (Hfr : fresh now s) (Hle : from <= now) (Hfit : changes_fit from s).

Lemma unchanged_account a : (forall u o, (u, (a, o)) ∈ account_changeset s -> u < from) -> plain_accounts s !! a = plain_accounts s0 !! a.
Proof. exact (j_same _ _ _ _ _ (rv_acc _ _ _ _ _ Hr) a). Qed.
Lemma unchanged_slot a k : (forall u v, ((u, a), (k, v)) ∈ storage_changeset s -> u < from) -> slot (plain_storage s) a k = slot (plain_storage s0) a k.
Proof. exact (j_same _ _ _ _ _ (rv_sto _ _ _ _ _ Hr) (a, k)). Qed.

(** *** Accounts *)
Lemma changed_accounts (rows : list (Z * (Z * option Account))) (m : gset Z) a :
  a ∈ foldl (fun m r => {[r.2.1]} ∪ m) m rows <-> a ∈ m \/ exists r, r ∈ rows /\ r.2.1 = a.
Proof.
  revert m. induction rows as [|r rows IH]; intros m; cbn [foldl].
  { split; [by left|]. intros [|(r & Hr' & _)]; [done|by apply not_elem_of_nil in Hr']. }
  rewrite IH, elem_of_union, elem_of_singleton. split.
  - intros [[-> |]|(r' & Hr' & <-)]; [right; exists r; split; [left|done]|by left|right; exists r'; split; [by right|done]].
  - intros [|(r' & [-> |Hr']%elem_of_cons & <-)]; [by left; right|by left; left|]. right. by exists r'.
Qed.

Lemma insert_accounts_ok s' : s_history s' = s_history s -> account_mirror (HashedAccount s') (plain_accounts s0) ->
  exists H, (lists ← get_addresses_of_changed_accounts (TE := TE) info_le from now; accounts ← get_plainstate_accounts lists;
      insert_account_for_hashing keccak256 accounts) s' = (Ok tt, with_hashed H (HashedStorage s') s') /\ account_mirror H (plain_accounts s).
Proof.
  intros Eh Hm. pose proof (walk_account_rows info_le value_le from now s0 s Hr Hfr Hle) as Ew. set (rows := account_rows_since info_le from s) in *.
  set (m := foldl (fun m r => {[r.2.1]} ∪ m) ∅ rows : gset Z).
  assert (E1 : get_addresses_of_changed_accounts (TE := TE) info_le from now s' = (Ok m, s')).
  { unfold get_addresses_of_changed_accounts, mbind, st_bind, st_get, st_lift. by rewrite Eh, Ew. }
  rewrite (bind_ok _ _ _ _ _ E1). set (l := (fun a => (a, plain_accounts s !! a)) <$> merge_sort Z.le (elements m)).
  assert (E2 : get_plainstate_accounts (TE := TE) m s' = (Ok l, s')).
  { unfold get_plainstate_accounts, mbind, st_bind, st_get, plain_accounts. by rewrite Eh. }
  rewrite (bind_ok _ _ _ _ _ E2). eexists. split; [reflexivity|].
  assert (Hk : forall a, a ∈ l.*1 <-> exists r, r ∈ rows /\ r.2.1 = a).
  { intros a. unfold l. rewrite <- list_fmap_compose, (list_fmap_ext _ id), list_fmap_id by done.
    rewrite merge_sort_Permutation, elem_of_elements. unfold m. rewrite changed_accounts. split; [by intros [?%not_elem_of_empty|]|by right]. }
  apply (rehash_accounts keccak256 Hcol _ (plain_accounts s0)); [done| | |].
  - unfold l. rewrite <- list_fmap_compose, (list_fmap_ext _ id), list_fmap_id by done. rewrite merge_sort_Permutation. apply NoDup_elements.
  - intros a o Hao. assert (Ha : a ∈ l.*1) by (apply list_elem_of_fmap; by exists (a, o)). apply Hk in Ha as ([u [a' o']] & Hin & <-). cbn in *.
    apply elem_of_account_since in Hin as [Hin Hu]. split; [by eapply (proj1 Hfit)|].
    unfold l in Hao. by apply list_elem_of_fmap in Hao as (? & [= -> ->] & _).
  - intros a Ha Hno. apply unchanged_account. intros u o Hin. destruct (decide (u < from)); [done|]. exfalso. apply Hno, Hk.
    exists (u, (a, o)). split; [|done]. apply elem_of_account_since. split; [done|]. cbn. lia.
Qed.

Context (Hb : before from s0).

Lemma unwind_accounts_ok s' : s_history s' = s_history s -> account_mirror (HashedAccount s') (plain_accounts s) ->
  exists H, unwind_account_hashing (TE := TE) info_le keccak256 (range from now) s' = (Ok tt, with_hashed H (HashedStorage s') s') /\
    account_mirror H (plain_accounts s0).
Proof.
  intros Eh Hm. pose proof (walk_account_rows info_le value_le from now s0 s Hr Hfr Hle) as Ew.
  pose proof (oldest_account info_le value_le from now s0 s Hr) as Hold. pose proof (elem_of_account_since info_le from s) as Hel.
  set (rows := account_rows_since info_le from s) in *.
  set (m := foldl (fun m x => <[x.2.1 := x.2.2]> m) ∅ (reverse rows) : gmap Z (option Account)).
  assert (Hlook : forall a, m !! a = (fun r => r.2.2) <$> last (filter (fun r => r.2.1 = a) (reverse rows))).
  { intros a. unfold m. rewrite (foldl_insert_last (fun x : Z * (Z * option Account) => x.2.1) (fun x => x.2.2)). by destruct (last _). }
  eexists. split.
  { unfold unwind_account_hashing, mbind, st_bind, st_get, st_lift. rewrite Eh, Ew. reflexivity. }
  apply (rehash_accounts keccak256 Hcol _ (plain_accounts s)); [done|apply entries_NoDup_keys| |].
  - intros a o Ha%elem_of_entries. change (m !! a = Some o) in Ha. rewrite Hlook in Ha. specialize (Hold a).
    destruct (last _) as [r|] eqn:El; [|done]. injection Ha as <-. split; [|by rewrite Hold].
    apply last_Some_elem_of, list_elem_of_filter in El as [<- Hin]. apply elem_of_reverse, Hel in Hin as [Hin Hu].
    destruct r as [u [a o]]. by eapply (proj1 Hfit).
  - intros a Ha Hno. specialize (Hold a). assert (Hmn : m !! a = None).
    { destruct (m !! a) as [o|] eqn:E; [|done]. exfalso. apply Hno, list_elem_of_fmap. exists (a, o). split; [done|by apply elem_of_entries]. }
    rewrite Hlook in Hmn. destruct (last _); done.
Qed.

(** *** Slots *)
Lemma changed_slots (rows : list ((Z * Z) * (Z * Z))) (m : gmap Z (gset Z)) a k :
  k ∈ default ∅ (foldl (fun m r => <[r.1.2 := {[r.2.1]} ∪ default ∅ (m !! r.1.2)]> m) m rows !! a)
  <-> k ∈ default ∅ (m !! a) \/ exists r, r ∈ rows /\ (r.1.2, r.2.1) = (a, k).
Proof.
  revert m. induction rows as [|[[u a'] [k' v]] rows IH]; intros m; cbn [foldl].
  { split; [by left|]. intros [|(r & Hr' & _)]; [done|by apply not_elem_of_nil in Hr']. }
  rewrite IH. cbn [fst snd]. split.
  - intros [Hin|(r & Hr' & E)]; [|right; exists r; split; [by right|done] ]. destruct (decide (a' = a)) as [->|Hne].
    + rewrite lookup_insert_eq in Hin. cbn in Hin. apply elem_of_union in Hin as [->%elem_of_singleton|]; [|by left].
      right. eexists. split; [left|done].
    + rewrite lookup_insert_ne in Hin by done. by left.
  - intros [Hin|(r & [-> |Hr']%elem_of_cons & E)]; [| |right; by exists r].
    + left. destruct (decide (a' = a)) as [->|Hne]; [rewrite lookup_insert_eq; cbn; set_solver|by rewrite lookup_insert_ne].
    + injection E as -> ->. left. rewrite lookup_insert_eq. cbn. set_solver.
Qed.

Lemma changed_slots_nonempty (rows : list ((Z * Z) * (Z * Z))) (m : gmap Z (gset Z)) a ks : (forall b ls, m !! b = Some ls -> ls <> ∅) ->
  foldl (fun m r => <[r.1.2 := {[r.2.1]} ∪ default ∅ (m !! r.1.2)]> m) m rows !! a = Some ks -> ks <> ∅.
Proof.
  revert m. induction rows as [|r rows IH]; intros m Hm; cbn [foldl]; [apply Hm|]. apply IH. intros b ls.
  destruct (decide (r.1.2 = b)) as [->|]; [rewrite lookup_insert_eq; intros [= <-]; set_solver|rewrite lookup_insert_ne by done; apply Hm].
Qed.

Lemma unwind_storage_ok (s' : state) : storage_changeset s' = storage_changeset s -> storage_mirror (HashedStorage s') (plain_storage s) ->
  exists T, unwind_storage_hashing (TE := TE) value_le keccak256 (range (from, 0) (now, 0)) s' = (Ok tt, with_hashed (HashedAccount s') T s') /\
    storage_mirror T (plain_storage s0).
Proof.
  intros Eh Hm. pose proof (walk_storage_rows value_le from now s0 s Hr Hfr Hle) as Ew.
  pose proof (oldest_slot value_le from now s0 s Hr Hb Hle) as Hold.
  pose proof (elem_of_storage_since value_le from now s0 s Hr Hb Hle) as Hel.
  set (rows := storage_rows_since value_le from s) in *.
  set (m := foldl (fun m x => <[(x.1.2, x.2.1) := x.2.2]> m) ∅ (reverse rows) : gmap (Z * Z) Z).
  assert (Hlook : forall a k, m !! (a, k) = (fun r => r.2.2) <$> last (filter (fun r => (r.1.2, r.2.1) = (a, k)) (reverse rows))).
  { intros a k. unfold m. rewrite (foldl_insert_last (fun x : (Z * Z) * (Z * Z) => (x.1.2, x.2.1)) (fun x => x.2.2)). by destruct (last _). }
  assert (Hval : forall a k v, m !! (a, k) = Some v -> in_u 160 a /\ in_u 256 k /\ v = slot (plain_storage s0) a k).
  { intros a k v. rewrite Hlook. specialize (Hold a k). destruct (last _) as [r|] eqn:El; [|done]. intros [= <-].
    apply last_Some_elem_of, list_elem_of_filter in El as [E Hin]. apply elem_of_reverse, Hel in Hin as [Hin Hu].
    destruct r as [[u a'] [k' v]]. injection E as -> ->. destruct (proj2 Hfit _ _ _ _ Hin Hu). by rewrite Hold. }
  set (h := foldl (fun m e => <[(keccak256 (address_bytes e.1.1), keccak256 (H256_bytes e.1.2)) := e.2]> m) ∅
      (entries (lex_le Z.le Z.le) m) : gmap (Z * Z) Z).
  assert (Hh : forall a k v, m !! (a, k) = Some v -> h !! (hashed_address a, hashed_key k) = Some v).
  { intros a k v E. pose proof E as Hin. rewrite <- (elem_of_entries (lex_le Z.le Z.le)) in Hin. destruct (Hval _ _ _ E) as (Ha & Hk & ->).
    apply (foldl_insert_in (fun e : (Z * Z) * Z => (keccak256 (address_bytes e.1.1), keccak256 (H256_bytes e.1.2))) snd _ ∅ (a, k, _) Hin).
    intros [[a' k'] w'] Hin'%elem_of_entries [= E1 E2]. destruct (Hval _ _ _ Hin') as (Ha' & Hk' & ->). cbn in *.
    apply (proj1 Hcol) in E1 as ->; [|done..]. by apply (proj2 Hcol) in E2 as ->. }
  eexists. split.
  { unfold unwind_storage_hashing, mbind, st_bind, st_get, st_lift, storage_changeset_rows in *. unfold storage_changeset in Eh. rewrite Eh, Ew. reflexivity. }
  change (storage_mirror (foldl (fun t e => set_hashed_slot value_le e.1.1 e.1.2 e.2 t) (HashedStorage s') (entries (lex_le Z.le Z.le) h)) (plain_storage s0)).
  apply (rehash_storage value_le keccak256 Hcol _ (plain_storage s)); [done|apply entries_NoDup_keys| |].
  - intros x y v Hx%elem_of_entries. destruct (decide ((x, y) ∈ (fun e => (hashed_address e.1.1, hashed_key e.1.2)) <$> entries (lex_le Z.le Z.le) m)) as [Hin|Hno].
    + apply list_elem_of_fmap in Hin as ([[a k] w] & [= -> ->] & Hin%elem_of_entries). destruct (Hval _ _ _ Hin) as (Ha & Hk & Hw).
      exists a, k. do 4 (split; [done|]). rewrite <- Hw. apply Hh in Hin. cbn in Hx, Hin. congruence.
    + unfold h in Hx. rewrite foldl_insert_out in Hx; [done|]. intros e He E. apply Hno, list_elem_of_fmap. by exists e.
  - intros a k Ha Hk Hno. specialize (Hold a k). assert (Hmn : m !! (a, k) = None).
    { destruct (m !! (a, k)) as [v|] eqn:E; [|done]. exfalso. apply Hno, list_elem_of_fmap.
      exists ((hashed_address a, hashed_key k), v). split; [done|]. by apply elem_of_entries, Hh. }
    rewrite Hlook in Hmn. destruct (last _); done.
Qed.

(** The slots that changed with their present values, account by account, under their hashes *)
Abbreviation slots_of a ks := ((fun k => (k, slot (plain_storage s) a k)) <$> merge_sort Z.le (elements (ks : gset Z))).
Abbreviation hash_slots l := (foldl (fun m x => <[keccak256 (H256_bytes x.1) := x.2]> m) (∅ : gmap Z Z) (l : list (Z * Z))).

Lemma hash_slots_ok a (ks : gset Z) y v : (forall k, k ∈ ks -> in_u 256 k) ->
  hash_slots (slots_of a ks) !! y = Some v <-> exists k, k ∈ ks /\ y = hashed_key k /\ v = slot (plain_storage s) a k.
Proof.
  intros Hks. assert (Hel : forall x, x ∈ slots_of a ks <-> x.1 ∈ ks /\ x.2 = slot (plain_storage s) a x.1).
  { intros [k w]. rewrite list_elem_of_fmap. cbn. split.
    - intros (k' & [= -> ->] & Hk). by rewrite merge_sort_Permutation, elem_of_elements in Hk.
    - intros [Hk ->]. exists k. split; [done|]. by rewrite merge_sort_Permutation, elem_of_elements. }
  assert (Hin : forall k, k ∈ ks -> hash_slots (slots_of a ks) !! hashed_key k = Some (slot (plain_storage s) a k)).
  { intros k Hk. apply (foldl_insert_in (fun x : Z * Z => keccak256 (H256_bytes x.1)) snd (slots_of a ks) ∅ (k, _)); [by apply Hel|].
    intros [k' w] [Hk' Hw]%Hel E. cbn in *. apply (proj2 Hcol) in E; [|by apply Hks..]. by subst. }
  split.
  - intros Hy. destruct (decide (y ∈ (fun x => hashed_key x.1) <$> slots_of a ks)) as [([k w] & -> & [Hk _]%Hel)%list_elem_of_fmap|Hno].
    + exists k. cbn in *. rewrite Hin in Hy by done. by injection Hy as <-.
    + rewrite foldl_insert_out in Hy; [by rewrite lookup_empty in Hy|]. intros x Hx E. apply Hno, list_elem_of_fmap. by exists x.
  - intros (k & Hk & -> & ->). by apply Hin.
Qed.

Lemma insert_storage_ok s' : s_history s' = s_history s -> storage_mirror (HashedStorage s') (plain_storage s0) ->
  exists T, (lists ← get_addresses_and_keys_of_changed_storages (TE := TE) value_le from now; storages ← get_plainstate_storages value_le lists;
      insert_storage_for_hashing value_le keccak256 storages) s' = (Ok tt, with_hashed (HashedAccount s') T s') /\ storage_mirror T (plain_storage s).
Proof.
  intros Eh Hm. pose proof (walk_storage_rows value_le from now s0 s Hr Hfr Hle) as Ew.
  pose proof (elem_of_storage_since value_le from now s0 s Hr Hb Hle) as Hel. set (rows := storage_rows_since value_le from s) in *.
  set (m := foldl (fun m r => <[r.1.2 := {[r.2.1]} ∪ default ∅ (m !! r.1.2)]> m) ∅ rows : gmap Z (gset Z)).
  assert (E1 : get_addresses_and_keys_of_changed_storages (TE := TE) value_le from now s' = (Ok m, s')).
  { unfold get_addresses_and_keys_of_changed_storages, mbind, st_bind, st_get, st_lift. by rewrite Eh, Ew. }
  rewrite (bind_ok _ _ _ _ _ E1). set (l := (fun e => (e.1, slots_of e.1 e.2)) <$> entries Z.le m).
  assert (E2 : get_plainstate_storages (TE := TE) value_le m s' = (Ok l, s')).
  { unfold get_plainstate_storages, mbind, st_bind, st_get, plain_storage. by rewrite Eh. }
  rewrite (bind_ok _ _ _ _ _ E2). eexists. split; [reflexivity|].
  set (h := foldl (fun m e => <[keccak256 (address_bytes e.1) := hash_slots e.2]> m) ∅ l : gmap Z (gmap Z Z)).
  change (storage_mirror (set_hashed_slots value_le ((fun e => (e.1, entries Z.le e.2)) <$> entries Z.le h) (HashedStorage s')) (plain_storage s)).
  rewrite set_hashed_slots_flat.
  assert (Hrow : forall a ks k, m !! a = Some ks -> k ∈ ks -> exists u v, ((u, a), (k, v)) ∈ storage_changeset s /\ from <= u).
  { intros a ks k E Hk. destruct (proj1 (changed_slots rows ∅ a k)) as [Hx|([[u a'] [k' v]] & [Hx Hu]%Hel & [= -> ->])].
    - fold m. by rewrite E.
    - by rewrite lookup_empty in Hx.
    - by exists u, v. }
  assert (Hfit' : forall a ks, m !! a = Some ks -> in_u 160 a /\ forall k, k ∈ ks -> in_u 256 k).
  { intros a ks E. split; [|intros k Hk; destruct (Hrow _ _ _ E Hk) as (u & v & Hx & Hu); by eapply (proj2 Hfit)].
    destruct (set_choose_L ks) as [k Hk]; [by eapply (changed_slots_nonempty rows ∅)|].
    destruct (Hrow _ _ _ E Hk) as (u & v & Hx & Hu). by eapply (proj2 Hfit). }
  assert (Hh : forall a ks, m !! a = Some ks -> h !! hashed_address a = Some (hash_slots (slots_of a ks))).
  { intros a ks E. assert (Hin : (a, slots_of a ks) ∈ l) by (apply list_elem_of_fmap; exists (a, ks); split; [done|by apply elem_of_entries]).
    apply (foldl_insert_in (fun e : Z * list (Z * Z) => keccak256 (address_bytes e.1)) (fun e => hash_slots e.2) l ∅ _ Hin).
    intros ? ([b ks'] & -> & Hb'%elem_of_entries)%list_elem_of_fmap Eq. cbn [fst snd] in *.
    apply (proj1 Hcol) in Eq as ->; [|by eapply Hfit'..]. congruence. }
  apply (rehash_storage value_le keccak256 Hcol _ (plain_storage s0)); [done|apply flat_slots_NoDup| |].
  - intros x y v (mm & Hx & Hy)%elem_of_flat_slots.
    destruct (decide (x ∈ (fun e => hashed_address e.1) <$> l)) as [Hin|Hno].
    + apply list_elem_of_fmap in Hin as (e & -> & ([a ks] & -> & Ha%elem_of_entries)%list_elem_of_fmap). cbn [fst] in *.
      rewrite (Hh _ _ Ha) in Hx. injection Hx as <-. destruct (Hfit' _ _ Ha) as [Fa Fk]. apply hash_slots_ok in Hy as (k & Hk & -> & ->); [|done].
      exists a, k. split; [done|]. split; [by apply Fk|]. done.
    + unfold h in Hx. rewrite foldl_insert_out in Hx; [by rewrite lookup_empty in Hx|]. intros e He E. apply Hno, list_elem_of_fmap. by exists e.
  - intros a k Ha Hk Hno. apply unchanged_slot. intros u v Hin. destruct (decide (u < from)) as [|Hu]; [done|]. exfalso. apply Hno.
    assert (Hc : k ∈ default ∅ (m !! a)).
    { apply changed_slots. right. exists ((u, a), (k, v)). split; [|done]. apply Hel. split; [done|]. cbn. lia. }
    destruct (m !! a) as [ks|] eqn:E; [|by apply not_elem_of_empty in Hc]. cbn in Hc. apply list_elem_of_fmap.
    exists ((hashed_address a, hashed_key k), slot (plain_storage s) a k). split; [done|]. apply elem_of_flat_slots.
    eexists. split; [by apply Hh|]. apply hash_slots_ok; [by eapply Hfit'|]. by exists k.
Qed.

(** Hashing what changed keeps the mirror. *)
Lemma insert_hashes_ok s' : s_history s' = s_history s ->
  account_mirror (HashedAccount s') (plain_accounts s0) -> storage_mirror (HashedStorage s') (plain_storage s0) ->
  exists H T, insert_hashes (TE := TE) info_le value_le keccak256 from now s' = (Ok tt, with_hashed H T s') /\
    account_mirror H (plain_accounts s) /\ storage_mirror T (plain_storage s).
Proof.
  intros Eh Ha Hs. destruct (insert_storage_ok s' Eh Hs) as (T & E1 & HT). set (s1 := with_hashed _ T s') in *.
  destruct (insert_accounts_ok s1 Eh Ha) as (H & E2 & HH). exists H, T. split; [|done].
  transitivity (Ok (E := TransactionError TE) tt, with_hashed H (HashedStorage s1) s1); [|done]. rewrite <- E2. unfold insert_hashes. revert E1. unfold mbind, st_bind.
  destruct (get_addresses_and_keys_of_changed_storages _ _ _ s') as [[lists| | |] x]; try done.
  destruct (get_plainstate_storages _ lists x) as [[storages| | |] y]; try done. intros ->. done.
Qed.
End Cycle.
