(* ===== verification/ProviderChain.v ===== *)
(** * Inserting a chain into the database and taking it off

    [Transaction::insert_block] writes a block, its execution result, the hashed state,
    the trie and the history indices; [take_block_and_execution_range] undoes it.  The
    two are composed here from what Provider{Blocks,State,Revert,Hash} and HistoryProofs
    show of their parts, for a chain of blocks of any length. *)
From S2P Require Import Prelude Bytes BTree PoolInner Primitives ChainSpec SubState PrimitivesRlp Chain Compact Tables History HistoryProofs Provider ProviderBlocks ProviderState ProviderRevert ProviderHash.

(** ** The trie loader *)

(** What changed in the hashed tables has rows in the change sets of the range. *)
Definition changes_covered {IL : Type} (value_le : relation Z) `{!RelDecision value_le} (keccak256 : bytes -> Z)
    (H0 : gmap Z Account) (T0 : gset (Z * (Z * Z))) (from to : Z) (s : StateTables IL) : Prop :=
  (forall x, H0 !! x <> HashedAccount s !! x ->
    exists u a o, (u, (a, o)) ∈ account_changeset s /\ from <= u < to /\ x = hashed_address keccak256 a) /\
  (forall x y, slot value_le T0 x y <> slot value_le (HashedStorage s) x y ->
    exists u a k v, ((u, a), (k, v)) ∈ storage_changeset s /\ from <= u < to /\ x = hashed_address keccak256 a /\ y = hashed_key keccak256 k).

(** [update_root] brings the trie of the hashed tables up to date with the entries that
    the change sets of the range mention, and returns its root. *)
Class TrieLoaderOk {IL TE TR : Type} (value_le : relation Z) `{!RelDecision value_le} (keccak256 : bytes -> Z)
    (update_root : StateTables IL -> TR -> Z -> Z * Z -> outcome TE (Z * TR))
    (root_of : gmap Z Account -> gset (Z * (Z * Z)) -> Z) (trie_of : gmap Z Account -> gset (Z * (Z * Z)) -> TR -> Prop) : Prop :=
  update_root_ok s t H0 T0 from to : trie_of H0 T0 t -> changes_covered value_le keccak256 H0 T0 from to s ->
    exists t', update_root s t (root_of H0 T0) (from, to) = Ok (root_of (HashedAccount s) (HashedStorage s), t') /\
      trie_of (HashedAccount s) (HashedStorage s) t'.

Section Chain.
Context {IL TE TR : Type} `{!EliasFano IL} `{!EliasFanoOk IL}.
Context (info_le : relation (option Account)) (value_le : relation Z).
Context `{!RelDecision info_le, !RelDecision value_le, !TotalOrder info_le, !TotalOrder value_le}.
Context (keccak256 : bytes -> Z) (Hcol : no_collisions keccak256) (recover_signer : TransactionSigned -> option Z).
Context (after_miss : gmap Z Account -> Z -> option Z).
Context (update_root : StateTables IL -> TR -> Z -> Z * Z -> outcome TE (Z * TR)).
Context (root_of : gmap Z Account -> gset (Z * (Z * Z)) -> Z) (trie_of : gmap Z Account -> gset (Z * (Z * Z)) -> TR -> Prop).
Context `{!TrieLoaderOk value_le keccak256 update_root root_of trie_of}.
Abbreviation state := (StateTables IL).
Abbreviation store := (ProviderTables IL TR).
Abbreviation slot := (slot value_le).
Abbreviation reverting := (reverting value_le).
Abbreviation account_mirror := (account_mirror keccak256).
Abbreviation storage_mirror := (storage_mirror value_le keccak256).
Abbreviation op := (st store (TransactionError TE)).
Implicit Types (s : state) (p : store) (b : SealedBlockWithSenders) (r : ExecutionResult).

(** ** The state, block after block *)

(** Only the plain tables and change sets matter to [reverting]. *)
Definition same_plain s s' : Prop :=
  h_accounts (s_history s') = h_accounts (s_history s) /\ plain_storage s' = plain_storage s /\ storage_changeset s' = storage_changeset s.
Definition rebase s s0 : state :=
  mkStateTables (mkHistoryTables (h_accounts (s_history s0)) (plain_storage s0) (storage_changeset s0)
    (AccountHistory (s_history s)) (StorageHistory (s_history s))) (HashedAccount s) (HashedStorage s) (Bytecodes s0).

Lemma reverting_rebase from now s0 s s' : reverting from now s0 s -> same_plain s s' -> reverting from now (rebase s' s0) s'.
Proof.
  intros [H1 H2 H3 H4 H5 H6 H7] (E1 & E2 & E3). unfold plain_storage, storage_changeset in *.
  split; unfold plain_storage, storage_changeset, account_changeset in *; rewrite ?E1, ?E2, ?E3; done.
Qed.

Lemma rebase_same s s0 : same_plain s0 (rebase s s0).
Proof. done. Qed.

Lemma changesets_now from now s0 s : reverting from now s0 s -> fresh now s -> 0 <= from -> changesets_ok from (s_history s0) -> changesets_ok now (s_history s).
Proof.
  intros Hr Hfr Hf [C1 C2 C3 C4]. pose proof (account_time value_le from now s0 s Hr Hfr) as Ta. pose proof (storage_time value_le from now s0 s Hr Hfr) as Ts.
  destruct Hr as [[_ J1 _ _] [_ J2 _ _] _ Oa Os Had _]. split.
  - intros t a o o' H1 H2. destruct (decide (t < from)) as [Ht|Ht]; [|exact (J1 t a o o' H1 H2 ltac:(lia))].
    eapply (C1 t a); apply (Oa (t, (a, _))); done.
  - intros t a o H1. pose proof (Ta _ H1). cbn in *. destruct (decide (t < from)) as [Ht|Ht]; [|lia].
    apply (Oa (t, (a, o))) in H1; [|done]. apply C2 in H1. lia.
  - intros t a k v v' H1 H2. destruct (decide (t < from)) as [Ht|Ht]; [|exact (J2 t (a, k) v v' H1 H2 ltac:(lia))].
    eapply (C3 t a k); apply (Os ((t, a), (k, _))); done.
  - intros t a k v H1. pose proof (Ts _ H1). cbn in *. destruct (decide (t < from)) as [Ht|Ht].
    + apply (Os ((t, a), (k, v))) in H1; [|done]. apply C4 in H1. lia.
    + split; [lia|]. eapply (Had t); [lia|done].
Qed.

Lemma increasing_eq (l l' : list Z) : increasing l -> increasing l' -> (forall i, i ∈ l <-> i ∈ l') -> l = l'.
Proof.
  intros Hl Hl' He. assert (Hnd : forall l : list Z, increasing l -> NoDup l).
  { clear. induction 1 as [|i l Hl IH Hi]; constructor; [|done]. intros Hin. apply (proj1 (Forall_forall _ _) Hi) in Hin. lia. }
  apply (StronglySorted_unique Z.le).
  - eapply StronglySorted_impl; [|exact Hl]. cbn. lia.
  - eapply StronglySorted_impl; [|exact Hl']. cbn. lia.
  - apply NoDup_Permutation; auto.
Qed.

Lemma increasing_append (l l' : list Z) mid : increasing l -> increasing l' -> Forall (fun i => i < mid) l -> Forall (fun i => mid <= i) l' -> increasing (l ++ l').
Proof.
  intros Hl Hl' H1 H2. rewrite Forall_forall in H1, H2. apply increasing_app. split_and!; [done..|].
  intros x y Hx%H1 Hy%H2. lia.
Qed.

(** What changed since [from] is what had changed before [mid], and what changed since. *)
Lemma changes_append from mid now s s' : changesets_ok mid (s_history s) -> changesets_ok now (s_history s') ->
  (forall x, x.1 < mid -> x ∈ account_changeset s' <-> x ∈ account_changeset s) ->
  (forall x, x.1.1 < mid -> x ∈ storage_changeset s' <-> x ∈ storage_changeset s) -> from <= mid ->
  (forall a, account_changes info_le from (s_history s') a = account_changes info_le from (s_history s) a ++ account_changes info_le mid (s_history s') a) /\
  (forall k, storage_changes value_le from (s_history s') k = storage_changes value_le from (s_history s) k ++ storage_changes value_le mid (s_history s') k).
Proof.
  intros C C' Ea Es Hfm. split.
  - intros a. apply increasing_eq; [by eapply account_changes_increasing| |].
    + apply (increasing_append _ _ mid); [by eapply account_changes_increasing..| |]; apply Forall_forall; intros t.
      * rewrite elem_of_account_changes by done. intros (_ & o & Hin). apply (account_rows_range _ _ C) in Hin. lia.
      * rewrite elem_of_account_changes by done. by intros [].
    + intros t. rewrite elem_of_app, !elem_of_account_changes by done. split.
      * intros (Ht & o & Hin). destruct (decide (t < mid)); [left|right; split; [lia|eauto] ]. split; [done|]. exists o. by apply (Ea (t, (a, o))).
      * intros [(Ht & o & Hin)|(Ht & o & Hin)]; (split; [lia|]); exists o; [|done].
        apply (Ea (t, (a, o))); [apply (account_rows_range _ _ C) in Hin; cbn; lia|done].
  - intros [a k]. apply increasing_eq; [by eapply storage_changes_increasing| |].
    + apply (increasing_append _ _ mid); [by eapply storage_changes_increasing..| |]; apply Forall_forall; intros t.
      * rewrite elem_of_storage_changes by done. intros (_ & o & Hin). apply (storage_rows_range _ _ C) in Hin. lia.
      * rewrite elem_of_storage_changes by done. by intros [].
    + intros t. rewrite elem_of_app, !elem_of_storage_changes by done. split.
      * intros (Ht & v & Hin). destruct (decide (t < mid)); [left|right; split; [lia|eauto] ]. split; [done|]. exists v. by apply (Es ((t, a), (k, v))).
      * intros [(Ht & v & Hin)|(Ht & v & Hin)]; (split; [lia|]); exists v; [|done].
        apply (Es ((t, a), (k, v))); [apply (storage_rows_range _ _ C) in Hin; cbn; lia|done].
Qed.

(** What differs between the two states has a row. *)
Lemma changed_account_row from now s0 s a : reverting from now s0 s -> fresh now s -> plain_accounts s !! a <> plain_accounts s0 !! a ->
  exists u o, (u, (a, o)) ∈ account_changeset s /\ from <= u < now.
Proof.
  intros Hr Hfr Hne. destruct (decide (set_Exists (fun x => x.2.1 = a /\ from <= x.1) (account_changeset s))) as [([u [b o]] & Hin & <- & Hu)|Hno].
  - exists u, o. split; [done|]. apply (account_time value_le from now s0 s Hr Hfr) in Hin as Ht. cbn in *. lia.
  - exfalso. apply Hne, (unchanged_account value_le from now s0 s Hr). intros u o Hin. destruct (decide (u < from)); [done|].
    exfalso. apply Hno. exists (u, (a, o)). split; [done|]. cbn. split; [done|lia].
Qed.

Lemma changed_slot_row from now s0 s a k : reverting from now s0 s -> fresh now s -> slot (plain_storage s) a k <> slot (plain_storage s0) a k ->
  exists u v, ((u, a), (k, v)) ∈ storage_changeset s /\ from <= u < now.
Proof.
  intros Hr Hfr Hne. destruct (decide (set_Exists (fun x => (x.1.2, x.2.1) = (a, k) /\ from <= x.1.1) (storage_changeset s)))
    as [([[u b] [k' v]] & Hin & [= <- <-] & Hu)|Hno].
  - exists u, v. split; [done|]. apply (storage_time value_le from now s0 s Hr Hfr) in Hin as Ht. cbn in *. lia.
  - exfalso. apply Hne, (unchanged_slot value_le from now s0 s Hr). intros u v Hin. destruct (decide (u < from)); [done|].
    exfalso. apply Hno. exists ((u, a), (k, v)). split; [done|]. cbn. split; [done|lia].
Qed.

Lemma mirrors_covered H0 T0 P S P' S' from to s : account_mirror H0 P -> account_mirror (HashedAccount s) P' ->
  storage_mirror T0 S -> storage_mirror (HashedStorage s) S' ->
  (forall a, P !! a <> P' !! a -> exists u o, (u, (a, o)) ∈ account_changeset s /\ from <= u < to) ->
  (forall a k, slot S a k <> slot S' a k -> exists u v, ((u, a), (k, v)) ∈ storage_changeset s /\ from <= u < to) ->
  changes_covered value_le keccak256 H0 T0 from to s.
Proof.
  intros [A1 A2] [A3 A4] (_ & S1 & S2) (_ & S3 & S4) Ha Hs. split.
  - intros x Hx. assert (exists a, in_u 160 a /\ x = hashed_address keccak256 a) as (a & Fa & ->).
    { destruct (H0 !! x) as [acc|] eqn:E; [by eapply A2|]. destruct (HashedAccount s !! x) as [acc|] eqn:E'; [by eapply A4|done]. }
    rewrite A1, A3 in Hx by done. destruct (Ha _ Hx) as (u & o & Hin & Hu). by exists u, a, o.
  - intros x y Hx. assert (exists a k, in_u 160 a /\ in_u 256 k /\ x = hashed_address keccak256 a /\ y = hashed_key keccak256 k) as (a & k & Fa & Fk & -> & ->).
    { destruct (decide (slot T0 x y = 0)) as [E|E]; [|by apply S2]. apply S4. congruence. }
    rewrite S1, S3 in Hx by done. destruct (Hs _ _ Hx) as (u & v & Hin & Hu). by exists u, a, k, v.
Qed.

(** The state tables kept beside the plain ones: hashed state and history.  [L] and [M]
    are the lists of the history before transition [tr]. *)
Record derived_ok (tr : Z) (L : Z -> list Z) (M : Z * Z -> list Z) s : Prop := {
  do_accounts : account_mirror (HashedAccount s) (plain_accounts s);
  do_storage : storage_mirror (HashedStorage s) (plain_storage s);
  do_account_history : represents (AccountHistory (s_history s)) (fun a => L a ++ account_changes info_le tr (s_history s) a);
  do_storage_history : represents (StorageHistory (s_history s)) (fun k => M k ++ storage_changes value_le tr (s_history s) k)
}.

(** The steps of [insert_block] after the results are written *)
Lemma derived_step tr L M now now' s s1 : derived_ok tr L M s -> changesets_ok now (s_history s) ->
  (forall a, Forall (fun i => i < tr) (L a)) -> (forall k, Forall (fun i => i < tr) (M k)) ->
  reverting now now' s s1 -> fresh now' s1 -> before now s -> changes_fit now s1 -> 0 <= tr <= now -> now <= now' -> now' <= u64_max ->
  exists s2 h1 h2, insert_hashes (TE := TE) info_le value_le keccak256 now now' s1 = (Ok tt, s2) /\
    changes_covered value_le keccak256 (HashedAccount s) (HashedStorage s) now now' s2 /\
    insert_account_history_index info_le now now' (s_history s2) = Some h1 /\ insert_storage_history_index value_le now now' h1 = Some h2 /\
    same_plain s1 (with_history h2 s2) /\ HashedAccount (with_history h2 s2) = HashedAccount s2 /\ HashedStorage (with_history h2 s2) = HashedStorage s2 /\
    derived_ok tr L M (with_history h2 s2).
Proof.
  intros [D1 D2 D3 D4] Hc HL HM Hr Hfr Hb Hfit Htr Hnow Hu.
  destruct (rv_frame _ _ _ _ _ Hr) as (F1 & F2 & F3 & F4). pose proof (changesets_now _ _ _ _ Hr Hfr ltac:(lia) Hc) as Hc1.
  destruct (insert_hashes_ok (TE := TE) info_le value_le keccak256 Hcol now now' s s1 Hr Hfr Hnow Hfit Hb s1 eq_refl) as (H & T & E & M1 & M2); [by rewrite F3|by rewrite F4|].
  set (s2 := with_hashed H T s1) in *.
  destruct (changes_append tr now now' s s1 Hc Hc1) as [Aa As]; [intros x Hx; by apply (rv_acc_old _ _ _ _ _ Hr)|intros x Hx; by apply (rv_sto_old _ _ _ _ _ Hr)|lia|].
  destruct (account_index_ok info_le now now' (s_history s2) (fun a => L a ++ account_changes info_le tr (s_history s) a)) as (ha & E1 & R1); [done|lia|done|..].
  { change (s_history s2) with (s_history s1). by rewrite F1. }
  { intros a. apply Forall_app. split; [eapply Forall_impl; [apply HL|]; cbn; lia|]. apply Forall_forall. intros t.
    rewrite elem_of_account_changes by done. intros (_ & o & Hin). apply (account_rows_range _ _ Hc) in Hin. lia. }
  destruct (storage_index_ok value_le now now' (with_account_history ha (s_history s2)) (fun k => M k ++ storage_changes value_le tr (s_history s) k)) as (hs & E2 & R2).
  { destruct Hc1. by split. } { lia. } { done. }
  { change (StorageHistory _) with (StorageHistory (s_history s1)). by rewrite F2. }
  { intros [a k]. apply Forall_app. split; [eapply Forall_impl; [apply HM|]; cbn; lia|]. apply Forall_forall. intros t.
    rewrite elem_of_storage_changes by done. intros (_ & v & Hin). apply (storage_rows_range _ _ Hc) in Hin. lia. }
  exists s2, (with_account_history ha (s_history s2)), (with_storage_history hs (with_account_history ha (s_history s2))).
  split; [done|]. split; [|split; [done|split; [done|split; [done|split; [done|split; [done|]]]]]].
  - eapply mirrors_covered; [exact D1|exact M1|exact D2|exact M2| |].
    + intros a Hne. apply (changed_account_row now now' s s1 a Hr Hfr). congruence.
    + intros a k Hne. apply (changed_slot_row now now' s s1 a k Hr Hfr). congruence.
  - split; [done|done| |].
    + eapply represents_ext; [|exact R1]. intros a. cbn. change (account_changes info_le tr _ a) with (account_changes info_le tr (s_history s1) a) at 2.
      rewrite Aa. by rewrite <- app_assoc.
    + eapply represents_ext; [|exact R2]. intros k. cbn. change (storage_changes value_le tr _ k) with (storage_changes value_le tr (s_history s1) k) at 2.
      rewrite As. by rewrite <- app_assoc.
Qed.

(** ** The store *)
Lemma on_state_ok {A} (m : st state (TransactionError TE) A) p (x : outcome (TransactionError TE) A) s : m (p_state p) = (x, s) ->
  on_state (TR := TR) m p = (x, mkProviderTables (p_blocks p) s (p_trie p) (SyncStage p)).
Proof. intros E. unfold on_state. by rewrite E. Qed.
Lemma on_blocks_ok {A} (m : st BlockTables (TransactionError TE) A) p (x : outcome (TransactionError TE) A) bt : m (p_blocks p) = (x, bt) ->
  on_blocks (TR := TR) m p = (x, mkProviderTables bt (p_state p) (p_trie p) (SyncStage p)).
Proof. intros E. unfold on_blocks. by rewrite E. Qed.
Lemma on_history_ok f p h : f (s_history (p_state p)) = Ok h ->
  on_history (TE := TE) (TR := TR) f p = (Ok tt, mkProviderTables (p_blocks p) (with_history h (p_state p)) (p_trie p) (SyncStage p)).
Proof. intros E. unfold on_history. apply on_state_ok. unfold mbind, st_bind, st_get, st_lift. by rewrite E. Qed.

Lemma expect_ok {V} (t : Table BlockTables V) k e v p : t_rows t (p_blocks p) !! k = Some v ->
  on_blocks (TE := TE) (TR := TR) (tx_expect t k e) p = (Ok v, p).
Proof.
  intros E. rewrite (on_blocks_ok _ p (Ok v) (p_blocks p)); [by destruct p|].
  unfold tx_expect, tx_get, mbind, st_bind, st_get. cbn. by rewrite E.
Qed.

(** The tables after the blocks [bs] were inserted on top of [p0], whose next block has
    number [n], transaction [m] and transition [tr] *)
Record chain_ok (n m tr : Z) p0 (L : Z -> list Z) (M : Z * Z -> list Z) (bs : list SealedBlockWithSenders) p : Prop := {
  c_blocks : holds_blocks m tr (p_blocks p0) bs (p_blocks p);
  c_ids : next_ids (n + zlen bs) (p_blocks p) (m + zlen (txs_of bs)) (tr + total_transitions bs);
  c_rev : reverting tr (tr + total_transitions bs) (rebase (p_state p) (p_state p0)) (p_state p);
  c_fresh : fresh (tr + total_transitions bs) (p_state p);
  c_fit : changes_fit tr (p_state p);
  c_changes : changesets_ok (tr + total_transitions bs) (s_history (p_state p));
  c_derived : derived_ok tr L M (p_state p);
  c_trie : trie_of (HashedAccount (p_state p)) (HashedStorage (p_state p)) (p_trie p);
  c_tip : exists h, Headers_ (p_blocks p) !! (n + zlen bs - 1) = Some h /\ state_root h = root_of (HashedAccount (p_state p)) (HashedStorage (p_state p))
}.

(** [r] is a result of executing [b] on the plain state of [s]: its old values are
    those of the state, it has the transitions that the block counts, and the root of
    the state after it is the one of the header. *)
Record executes (chain_spec : ChainSpec) (now : Z) s b r : Prop := {
  ex_valid : results_valid (TE := TE) value_le chain_spec (b_number b - 1) now [r] s;
  ex_transitions : result_transitions r = transitions b;
  ex_after s' : apply_results (TE := TE) value_le chain_spec (b_number b - 1) now [r] s = (Ok tt, s') ->
    changes_fit now s' /\
    (forall H T, account_mirror H (plain_accounts s') -> storage_mirror T (plain_storage s') -> root_of H T = state_root (sh_header (b_header b)))
}.

Abbreviation insert_block := (transaction_insert_block (TE := TE) info_le value_le keccak256 recover_signer update_root).

Lemma before_now now s : changesets_ok now (s_history s) -> before now s.
Proof.
  intros [_ C2 _ C4]. split.
  - intros [t [a o]] Hin. apply C2 in Hin. cbn. lia.
  - intros [[t a] [k v]] Hin. apply C4 in Hin. cbn. lia.
Qed.

Lemma total_transitions_pos bs : 0 <= total_transitions bs.
Proof. induction bs as [|x l IHl]; [done|]. rewrite total_transitions_cons. unfold transitions. destruct (b_withdrawals x); lia. Qed.

Lemma insert_block_step n m tr p0 L M bs p b chain_spec r : chain_ok n m tr p0 L M bs p ->
  (forall a, Forall (fun i => i < tr) (L a)) -> (forall k, Forall (fun i => i < tr) (M k)) ->
  Forall senders_ok bs -> senders_ok b -> b_number b = n + zlen bs -> 0 < n -> 0 <= m -> 0 <= tr ->
  in_u 64 (n + zlen bs) -> in_u 64 (m + zlen (txs_of (bs ++ [b]))) -> tr + total_transitions (bs ++ [b]) <= u64_max ->
  executes chain_spec (tr + total_transitions bs) (p_state p) b r ->
  exists p', insert_block b chain_spec r p = (Ok tt, p') /\ chain_ok n m tr p0 L M (bs ++ [b]) p' /\ SyncStage p' = SyncStage p.
Proof.
  intros [C1 C2 C3 C4 C5 C6 C7 C8 (h & C9 & C9')] HL HM Hss Hs Hb Hn Hm Htr Hnu Hmu Hu [X1 X2 X3].
  rewrite txs_of_snoc, length_app in Hmu. rewrite total_transitions_snoc in Hu.
  pose proof (total_transitions_pos bs) as Htp. set (now := tr + total_transitions bs) in *.
  assert (0 <= transitions b) by (unfold transitions; destruct (b_withdrawals b); lia). unfold in_u in *.
  destruct (insert_block_ok (TE := TE) recover_signer b (p_blocks p) (m + zlen (txs_of bs)) now) as [td E1];
    unfold in_u, u64_max in *; try (done || lia). { by rewrite Hb. }
  set (bt := after_insert b (p_blocks p) td (m + zlen (txs_of bs)) now) in *.
  pose proof (before_now now (p_state p) C6) as Hbf. assert (Hparent : saturating_sub (number (sh_header (b_header b))) 1 = b_number b - 1).
  { unfold saturating_sub. fold (b_number b). by zdec. }
  (* the results *)
  assert (Hrt : results_transitions [r] = transitions b) by (cbn; lia).
  destruct (reverting_start value_le now (p_state p) (rv_wf _ _ _ _ _ C3) Hbf) as [R0 F0].
  destruct (apply_results_ok (TE := TE) value_le now (p_state p) chain_spec [r] (b_number b - 1) now (p_state p) R0 F0 (Z.le_refl _) X1)
    as (s1 & E2 & R1 & F1); [lia|unfold in_u; cbn; lia|lia|unfold in_u; lia|].
  destruct (apply_results_ok (TE := TE) value_le tr _ chain_spec [r] (b_number b - 1) now (p_state p) C3 C4 ltac:(lia) X1)
    as (s1' & E2' & R1' & _); [lia|unfold in_u; cbn; lia|lia|unfold in_u; lia|].
  rewrite E2 in E2'. injection E2' as <-. rewrite Hrt in R1, F1, R1'. destruct (X3 _ E2) as [Fit Root].
  (* what is derived from them *)
  destruct (derived_step tr L M now (now + transitions b) (p_state p) s1) as (s2 & h1 & h2 & E3 & Cov & E4 & E5 & Sp & Ha & Hst & D);
    [done|done|done|done|done|done|done|done|lia|lia|unfold u64_max; lia|].
  destruct (update_root_ok s2 (p_trie p) _ _ now (now + transitions b) C8 Cov) as (t' & E6 & Ht'). rewrite <- C9' in E6.
  set (s3 := with_history h2 s2) in *.
  exists (mkProviderTables bt s3 t' (SyncStage p)). split; [|split; [|done]].
  - unfold transaction_insert_block. cbv zeta. rewrite Hparent.
    erewrite bind_ok. 2:{ unfold unwrap. erewrite on_blocks_ok by exact E1. reflexivity. }
    cbv beta iota. erewrite bind_ok. 2:{ unfold insert_execution_result. erewrite bind_ok.
      2:{ apply expect_ok. cbn. destruct C2 as [|(_ & prev & _ & _ & C2)]; [lia|]. rewrite lookup_insert_ne by lia. rewrite Hb. exact C2. }
      apply on_state_ok. exact E2. }
    erewrite bind_ok by (apply on_state_ok; exact E3).
    erewrite bind_ok. 2:{ apply expect_ok. cbn. rewrite lookup_insert_ne by lia. rewrite Hb. exact C9. }
    erewrite bind_ok. 2:{ unfold trie_update. cbn [p_state p_trie p_blocks SyncStage]. rewrite E6. reflexivity. }
    assert (Hroot : root_of (HashedAccount s2) (HashedStorage s2) = state_root (sh_header (b_header b))).
    { destruct D as [D1 D2 _ _]. destruct Sp as (S1 & S2 & S3). rewrite <- Ha, <- Hst. apply Root.
      - unfold plain_accounts in *. by rewrite S1 in D1.
      - by rewrite S2 in D2. }
    rewrite Hroot, Z.eqb_refl. cbn [negb].
    erewrite bind_ok by (apply on_history_ok; cbn [p_state]; rewrite E4; reflexivity).
    rewrite (on_history_ok _ _ h2); [reflexivity|]. cbn [p_state with_history s_history]. by rewrite E5.
  - assert (Hnow : now + transitions b = tr + total_transitions (bs ++ [b])) by (rewrite total_transitions_snoc; unfold now; lia).
    pose proof (changesets_now _ _ _ _ R1 F1 ltac:(lia) C6) as Hc1. rewrite Hnow in *.
    destruct Sp as (S1 & S2 & S3). split; cbn [p_blocks p_state p_trie SyncStage].
    + by apply holds_step.
    + apply next_ids_step; [lia|done|unfold in_u; lia].
    + by apply (reverting_rebase _ _ (rebase (p_state p) (p_state p0)) s1).
    + unfold fresh, account_changeset in *. destruct F1. split; [by rewrite S1|by rewrite S3].
    + unfold changes_fit, account_changeset in *. destruct C5 as [G1 G2], Fit as [G3 G4]. split.
      * intros u a o Hin Hu'. rewrite S1 in Hin. destruct (decide (u < now)) as [Hlt|Hge]; [|eapply G3; [done|lia]].
        eapply G1; [|done]. by apply (rv_acc_old _ _ _ _ _ R1) in Hin.
      * intros u a k v Hin Hu'. rewrite S3 in Hin. destruct (decide (u < now)) as [Hlt|Hge]; [|eapply G4; [done|lia]].
        eapply G2; [|done]. by apply (rv_sto_old _ _ _ _ _ R1) in Hin.
    + destruct Hc1 as [Q1 Q2 Q3 Q4]. unfold storage_changeset in *. split; rewrite ?S1, ?S3; done.
    + done.
    + by rewrite Ha, Hst.
    + exists (sh_header (b_header b)). split.
      * cbn. rewrite length_app. cbn [length]. replace (n + Z.of_nat (length bs + 1) - 1) with (b_number b) by lia. by rewrite lookup_insert_eq.
      * destruct D as [D1 D2 _ _]. symmetry. apply Root; [unfold plain_accounts in *; by rewrite S1 in D1|by rewrite S2 in D2].
Qed.

(** A store with the tables of [p0]; of the history only what it stands for is known,
    since unwinding may leave it cut into other shards, and of the trie that it is one
    of the state. *)
Record same_store p0 (L : Z -> list Z) (M : Z * Z -> list Z) p : Prop := {
  ss_blocks : p_blocks p = p_blocks p0;
  ss_plain : same_plain (p_state p0) (p_state p);
  ss_hashed_accounts : HashedAccount (p_state p) = HashedAccount (p_state p0);
  ss_hashed_storage : HashedStorage (p_state p) = HashedStorage (p_state p0);
  ss_account_history : represents (AccountHistory (s_history (p_state p))) L;
  ss_storage_history : represents (StorageHistory (s_history (p_state p))) M;
  ss_trie : trie_of (HashedAccount (p_state p0)) (HashedStorage (p_state p0)) (p_trie p)
}.

(** ** Taking the chain off *)
Lemma last_transition_row tr bs : bs <> [] -> exists k, last (transition_rows tr bs) = Some (k, tr + total_transitions bs).
Proof.
  intros Hbs. destruct bs as [|b l _] using rev_ind; [done|]. rewrite transition_rows_app, total_transitions_snoc. cbn [transition_rows].
  rewrite last_snoc. eexists. do 2 f_equal. lia.
Qed.

Lemma block_results_length bodies transitions t l : length transitions = length bodies -> length (block_results bodies transitions t l) = length bodies.
Proof.
  revert transitions t l. induction bodies as [|[k body] bodies IH]; intros [|[k' t'] transitions] t l Hl; try done. injection Hl as Hl.
  cbn [block_results]. destruct (transaction_results _ t l) as [txs [t1 l1]]. destruct (t' =? wadd 64 t1 1).
  - destruct (next_changeset t1 l1) as [m l2]. cbn. by rewrite IH.
  - cbn. by rewrite IH.
Qed.

Section Taken.
Context (n m tr : Z) (p0 p : store) (L : Z -> list Z) (M : Z * Z -> list Z) (bs : list SealedBlockWithSenders).
Context (Hbase : base_ok n m (p_blocks p0) bs) (H0 : chain_ok n m tr p0 L M [] p0) (Hc : chain_ok n m tr p0 L M bs p).
Context (HL : forall a, Forall (fun i => i < tr) (L a)) (HM : forall k, Forall (fun i => i < tr) (M k)).
Context (Hbs : bs <> []) (Hnum : numbered_from n bs) (Hn : 0 < n) (Htr : 0 <= tr) (Hu : tr + total_transitions bs <= u64_max).
Abbreviation now := (tr + total_transitions bs).
Abbreviation s := (p_state p).
Abbreviation s0 := (rebase (p_state p) (p_state p0)).

Lemma headers_below k : k < n -> Headers_ (p_blocks p) !! k = Headers_ (p_blocks p0) !! k.
Proof.
  intros Hk. rewrite (hb_headers _ _ _ _ _ (c_blocks _ _ _ _ _ _ _ _ Hc)). apply lookup_ext_ne. rewrite map_rows_fst, Hnum.
  intros ?%elem_of_seqZ. lia.
Qed.

Lemma transitions_below k : k < n -> BlockTransitionIndex_ (p_blocks p) !! k = BlockTransitionIndex_ (p_blocks p0) !! k.
Proof.
  intros Hk. rewrite (hb_transitions _ _ _ _ _ (c_blocks _ _ _ _ _ _ _ _ Hc)). apply lookup_ext_ne. rewrite transition_rows_fst, Hnum.
  intros ?%elem_of_seqZ. lia.
Qed.

(** The transition of the parent *)
Lemma parent_transition : BlockTransitionIndex_ (p_blocks p0) !! (n - 1) = Some tr.
Proof.
  destruct (c_ids _ _ _ _ _ _ _ _ H0) as [(? & _)|(_ & prev & _ & _ & E)]; cbn in *; [lia|].
  by rewrite !Z.add_0_r in E.
Qed.

Lemma last_numbered : last (seqZ n (zlen bs)) = Some (n + zlen bs - 1).
Proof. clear -Hbs. destruct bs as [|b l]; [done|]. cbn [length]. rewrite seqZ_S, last_snoc. f_equal. lia. Qed.

Lemma tip_number : fst <$> last_key_value Z.le (CanonicalHeaders_ (p_blocks p)) = Some (n + zlen bs - 1).
Proof.
  unfold last_key_value. rewrite (hb_hashes _ _ _ _ _ (c_blocks _ _ _ _ _ _ _ _ Hc)).
  rewrite (entries_ext _ _ n); [|apply Hbase|eapply rows_numbered; rewrite map_rows_fst; exact Hnum].
  by rewrite <- fmap_last, fmap_app, last_app, map_rows_fst, Hnum, last_numbered.
Qed.

Lemma reverting_to to : now <= to -> reverting tr to s0 s /\ fresh to s.
Proof.
  intros Hto. destruct (decide (now = to)) as [<-|]; [split; apply Hc|]. eapply reverting_later; [apply Hc|lia].
Qed.

Lemma before_start : before tr s0.
Proof. pose proof (before_now _ _ (c_changes _ _ _ _ _ _ _ _ H0)) as Hb. cbn in Hb. rewrite Z.add_0_r in Hb. exact Hb. Qed.

Lemma changesets_to to : now <= to -> changesets_ok to (s_history s).
Proof.
  intros Hto. destruct (c_changes _ _ _ _ _ _ _ _ Hc) as [Q1 Q2 Q3 Q4]. split; [done| |done|].
  - intros t a o Hin. apply Q2 in Hin. lia.
  - intros t a k v Hin. apply Q4 in Hin. lia.
Qed.

(** [unwind_state]: the hashed tables of [p0], the lists of its history, and a trie for
    its state again *)
Lemma unwind_state_ok : exists s1 t1,
  unwind_state (TE := TE) info_le value_le keccak256 update_root (mkRange (Included n) Unbounded) p
    = (Ok tt, mkProviderTables (p_blocks p) s1 t1 (SyncStage p)) /\
  same_plain s s1 /\ HashedAccount s1 = HashedAccount (p_state p0) /\ HashedStorage s1 = HashedStorage (p_state p0) /\
  represents (AccountHistory (s_history s1)) L /\ represents (StorageHistory (s_history s1)) M /\
  trie_of (HashedAccount s1) (HashedStorage s1) t1.
Proof.
  destruct (reverting_to u64_max Hu) as [Hr Hfr]. pose proof (total_transitions_pos bs) as Htp.
  pose proof (changesets_to u64_max Hu) as Hcs. destruct (c_derived _ _ _ _ _ _ _ _ Hc) as [D1 D2 D3 D4].
  destruct (c_derived _ _ _ _ _ _ _ _ H0) as [B1 B2 _ _].
  destruct (unwind_accounts_ok (TE := TE) info_le value_le keccak256 Hcol tr u64_max s0 s Hr Hfr ltac:(lia) (c_fit _ _ _ _ _ _ _ _ Hc) s eq_refl D1)
    as (H & E1 & M1). set (sa := with_hashed H (HashedStorage s) s) in *.
  destruct (account_unwind_ok info_le tr u64_max (s_history sa) L Hcs ltac:(lia) (Z.le_refl _) D3 HL) as (ha & E2 & R1).
  set (sb := with_history (with_account_history ha (s_history sa)) sa) in *.
  destruct (unwind_storage_ok (TE := TE) value_le keccak256 Hcol tr u64_max s0 s Hr Hfr ltac:(lia) (c_fit _ _ _ _ _ _ _ _ Hc) before_start sb eq_refl D2)
    as (T & E3 & M2). set (sc := with_hashed (HashedAccount sb) T sb) in *.
  assert (Hcs' : changesets_ok u64_max (s_history sc)) by (destruct Hcs; by split).
  destruct (storage_unwind_ok value_le tr u64_max (s_history sc) M Hcs' ltac:(lia) (Z.le_refl _) D4 HM) as (hs & E4 & R2).
  set (sd := with_history (with_storage_history hs (s_history sc)) sc) in *.
  assert (HH : H = HashedAccount (p_state p0)) by (eapply account_mirror_unique; [exact M1|exact B1]).
  assert (HT : T = HashedStorage (p_state p0)) by (eapply storage_mirror_unique; [done|exact M2|exact B2]).
  assert (Cov : changes_covered value_le keccak256 (HashedAccount s) (HashedStorage s) tr u64_max sd).
  { eapply mirrors_covered; [exact D1|exact M1|exact D2|exact M2| |].
    - intros a Hne. exact (changed_account_row tr u64_max s0 s a Hr Hfr Hne).
    - intros a k Hne. exact (changed_slot_row tr u64_max s0 s a k Hr Hfr Hne). }
  destruct (update_root_ok sd (p_trie p) _ _ tr u64_max (c_trie _ _ _ _ _ _ _ _ Hc) Cov) as (t' & E5 & Ht').
  destruct (c_tip _ _ _ _ _ _ _ _ Hc) as (tip & Etip & Rtip). destruct (c_tip _ _ _ _ _ _ _ _ H0) as (par & Epar & Rpar).
  cbn [length Z.of_nat] in Epar. rewrite Z.add_0_r in Epar.
  exists sd, t'. split; [|split; [done|split; [done|split; [done|split; [done|split; [done|done]]]]]].
  unfold unwind_state. cbn [start_bound end_bound]. unfold saturating_sub. zdec.
  erewrite bind_ok. 2:{ erewrite bind_ok by (apply expect_ok; cbn; rewrite transitions_below by lia; apply parent_transition).
    erewrite bind_ok by (apply expect_ok; cbn; rewrite headers_below by lia; exact Epar). reflexivity. }
  cbv beta iota. erewrite bind_ok by reflexivity. cbv zeta.
  erewrite bind_ok by (apply on_state_ok; exact E1). erewrite bind_ok by (apply on_history_ok; cbn [p_state]; rewrite E2; reflexivity).
  erewrite bind_ok by (apply on_state_ok; exact E3). erewrite bind_ok by (apply on_history_ok; cbn [p_state]; rewrite E4; reflexivity).
  erewrite bind_ok by reflexivity. cbn [p_blocks p_state p_trie SyncStage].
  assert (Htn : default 0 (fst <$> last_key_value Z.le (CanonicalHeaders_ (p_blocks p))) = n + zlen bs - 1) by by rewrite tip_number.
  rewrite Htn. erewrite bind_ok by (apply expect_ok; exact Etip). rewrite Rtip.
  erewrite bind_ok. 2:{ unfold trie_update. cbn [p_blocks p_state p_trie SyncStage]. fold sd. rewrite E5. reflexivity. }
  assert (Hroot : root_of (HashedAccount sd) (HashedStorage sd) = state_root par) by (rewrite Rpar, <- HH, <- HT; done).
  rewrite Hroot, Z.eqb_refl. done.
Qed.

Context (Hmiss : no_miss tr (p_state p0) (p_state p)) (Hone : one_slot tr (p_state p0) (p_state p)).

Lemma first_transition_row : exists t, head (transition_rows tr bs) = Some (n, t).
Proof.
  clear -Hbs Hnum. destruct bs as [|b l]; [done|]. apply numbered_cons in Hnum as [<- _]. by eexists.
Qed.

(** The state side of taking the results *)
Lemma take_state_ok s1 : same_plain s s1 -> exists all s2,
  take_changesets (TE := TE) info_le value_le after_miss true tr now s1 = (Ok all, s2) /\ same_plain (p_state p0) s2 /\
  HashedAccount s2 = HashedAccount s1 /\ HashedStorage s2 = HashedStorage s1 /\
  AccountHistory (s_history s2) = AccountHistory (s_history s1) /\ StorageHistory (s_history s2) = StorageHistory (s_history s1).
Proof.
  intros Sp. pose proof (reverting_rebase tr now s0 s s1 (c_rev _ _ _ _ _ _ _ _ Hc) Sp) as Hr. destruct Sp as (S1 & S2 & S3).
  destruct (take_changesets_ok (TE := TE) info_le value_le after_miss tr now _ s1 Hr) as (all & s2 & E & T1 & T2 & T3 & T4 & T5 & T6 & T7 & T8 & _).
  - pose proof (c_fresh _ _ _ _ _ _ _ _ Hc) as Hf. unfold fresh, account_changeset in *. by rewrite S1, S3.
  - exact before_start.
  - pose proof (total_transitions_pos bs). lia.
  - unfold no_miss, plain_accounts, account_changeset in *. by rewrite S1.
  - unfold one_slot in *. by rewrite S2, S3.
  - apply (rv_wf _ _ _ _ _ (c_rev _ _ _ _ _ _ _ _ H0)).
  - exists all, s2. split; [done|]. split; [|done]. split; [|done].
    unfold plain_accounts, account_changeset in *. destruct (h_accounts (s_history s2)), (h_accounts (s_history (p_state p0))) eqn:E0.
    cbn in *. rewrite E0 in *. cbn in *. congruence.
Qed.

Lemma take_results_ok s1 (t1 : TR) : same_plain s s1 -> exists res s2,
  get_take_block_execution_result_range (TE := TE) info_le value_le after_miss true (mkRange (Included n) Unbounded)
    (mkProviderTables (without_blocks (p_blocks p0) (p_blocks p)) s1 t1 (SyncStage p))
    = (Ok res, mkProviderTables (t_set BlockTransitionIndex (BlockTransitionIndex_ (p_blocks p0)) (without_blocks (p_blocks p0) (p_blocks p))) s2 t1 (SyncStage p)) /\
  length res = length bs /\ same_plain (p_state p0) s2 /\
  HashedAccount s2 = HashedAccount s1 /\ HashedStorage s2 = HashedStorage s1 /\
  AccountHistory (s_history s2) = AccountHistory (s_history s1) /\ StorageHistory (s_history s2) = StorageHistory (s_history s1).
Proof.
  intros Sp. destruct (take_state_ok s1 Sp) as (all & s2 & E & Hs2).
  assert (Hcov : covers n Unbounded bs) by (split; [done|by apply Forall_forall]).
  destruct (number_rows _ _ _ _ Hnum Hcov (transition_rows_fst tr bs)) as [R1 R2].
  destruct (number_rows _ _ _ _ Hnum Hcov (body_rows_fst m bs)) as [R3 R4].
  pose proof (c_blocks _ _ _ _ _ _ _ _ Hc) as HB.
  exists (block_results (body_rows m bs) (transition_rows tr bs) tr (entries Z.le all)), s2. split; [|split; [|exact Hs2]].
  - unfold get_take_block_execution_result_range. 
    erewrite bind_ok by (apply on_blocks_ok, (take_rows BlockTransitionIndex true (BlockTransitionIndex_ (p_blocks p0)) (transition_rows tr bs) n);
      [exact (hb_transitions _ _ _ _ _ HB)|apply Hbase|done|done]).
    destruct first_transition_row as [t ->]. destruct (last_transition_row tr bs Hbs) as [k ->].
    unfold saturating_sub. zdec. erewrite bind_ok by (apply expect_ok; exact parent_transition).
    erewrite bind_ok. 2:{ apply on_blocks_ok, (take_rows BlockBodies false (BlockBodies_ (p_blocks p0)) (body_rows m bs) n);
      [exact (hb_bodies _ _ _ _ _ HB)|apply Hbase|done|done]. }
    erewrite bind_ok by (apply on_state_ok; exact E). done.
  - rewrite block_results_length; rewrite <- (length_fmap fst), ?body_rows_fst, ?transition_rows_fst, !length_fmap; [done|].
    by rewrite <- (length_fmap fst (body_rows m bs)), body_rows_fst, length_fmap.
Qed.

Context (Hm : 0 <= m) (Hmu : in_u 64 (m + zlen (txs_of bs))) (Hss : Forall senders_ok bs) (Htx : txs_of bs <> []).

Lemma take_chain_ok chain_spec : Forall (readable keccak256 chain_spec) bs -> exists res p',
  get_take_block_and_execution_range (TE := TE) info_le value_le keccak256 after_miss update_root true chain_spec (mkRange (Included n) Unbounded) p
    = (Ok (zip bs res), p') /\ length res = length bs /\ same_store p0 L M p' /\ SyncStage p' = SyncStage p.
Proof.
  intros Hread. destruct unwind_state_ok as (s1 & t1 & E1 & Sp & HA & HS & HR1 & HR2 & HT).
  destruct (take_results_ok s1 t1 Sp) as (res & s2 & E2 & Hlen & Sp2 & HA2 & HS2 & HR1' & HR2').
  assert (Hcov : covers n Unbounded bs) by (split; [done|by apply Forall_forall]).
  destruct (number_rows _ _ _ _ Hnum Hcov (body_rows_fst m bs)) as [R3 R4]. pose proof (c_blocks _ _ _ _ _ _ _ _ Hc) as HB.
  eexists res, _. split; [|split; [exact Hlen|]].
  - unfold get_take_block_and_execution_range. rewrite (bind_ok _ _ _ _ _ E1).
    erewrite bind_ok by (apply on_blocks_ok; apply (take_blocks (TE := TE) keccak256 n m tr (p_blocks p0) bs Unbounded true); done).
    rewrite (bind_ok _ _ _ _ _ E2).
    erewrite bind_ok. 2:{ erewrite bind_ok; [reflexivity|]. apply on_blocks_ok, (take_rows BlockBodies true (BlockBodies_ (p_blocks p0)) (body_rows m bs) n);
      [exact (hb_bodies _ _ _ _ _ HB)|apply Hbase|done|done]. }
    reflexivity.
  - split; [|done]. split; cbn [p_blocks p_state p_trie].
    + by destruct (p_blocks p0).
    + done.
    + by rewrite HA2.
    + by rewrite HS2.
    + by rewrite HR1'.
    + by rewrite HR2'.
    + rewrite <- HA, <- HS. done.
Qed.
End Taken.
End Chain.
