(* ===== verification/TreeProvider.v ===== *)
(** * The blockchain tree over the database

    [commit_canonical] and [revert_canonical] of Tree, with the operations of Provider
    for the database transaction they use.  A chain committed to the database and then
    reverted leaves the tables as they were, and comes back with its blocks. *)
From S2P Require Import Prelude Bytes BTree PoolInner Primitives ChainSpec SubState PrimitivesRlp Chain Tree Compact Tables History HistoryProofs Provider ProviderBlocks ProviderState ProviderRevert ProviderHash ProviderChain.

Section TreeProvider.
Context {IL TE TR SP : Type} `{!EliasFano IL} `{!EliasFanoOk IL}.
Context (info_le : relation (option Account)) (value_le : relation Z).
Context `{!RelDecision info_le, !RelDecision value_le, !TotalOrder info_le, !TotalOrder value_le}.
Context (keccak256 : bytes -> Z) (Hcol : no_collisions keccak256) (recover_signer : TransactionSigned -> option Z).
Context (after_miss : gmap Z Account -> Z -> option Z).
Context (update_root : StateTables IL -> TR -> Z -> Z * Z -> outcome TE (Z * TR)).
Context (root_of : gmap Z Account -> gset (Z * (Z * Z)) -> Z) (trie_of : gmap Z Account -> gset (Z * (Z * Z)) -> TR -> Prop).
Context `{!TrieLoaderOk value_le keccak256 update_root root_of trie_of}.
Abbreviation store := (ProviderTables IL TR).
Abbreviation chain_ok := (chain_ok info_le value_le keccak256 root_of trie_of).
Abbreviation executes := (executes (TE := TE) value_le keccak256 root_of).
Abbreviation insert_block := (transaction_insert_block (TE := TE) info_le value_le keccak256 recover_signer update_root).
Implicit Types (p : store) (l : list (SealedBlockWithSenders * ExecutionResult)).

Definition run_tx {A} (m : st store (TransactionError TE) A) p : outcome (TransactionError TE) (A * store) :=
  match m p with (Ok a, p') => Ok (a, p') | (Err e, _) => Err e | (Panic, _) => Panic | (Diverge, _) => Diverge end.

(** The database of the tree: its transactions are those of Provider, what it reads
    outside of them is that of any other. *)
Definition provider_db (chain_spec : ChainSpec) (reads : Db store SP (TransactionError TE)) : Db store SP (TransactionError TE) :=
  mkDb _ _ _ (db_header reads) (db_latest reads) (db_history_by_block_number reads) (db_last_canonical reads)
    (fun p b r => '(_, p) ← run_tx (insert_block b chain_spec r) p; Ok p)
    (fun p n => '(_, p) ← run_tx (update_pipeline_stages n) p; Ok p)
    (fun p n => run_tx (get_take_block_and_execution_range info_le value_le keccak256 after_miss update_root true chain_spec (mkRange (Included n) Unbounded)) p)
    Ok.

(** Each result is one of executing its block on the state the blocks before leave. *)
Fixpoint chain_executes (chain_spec : ChainSpec) (now : Z) l p : Prop :=
  match l with
  | [] => True
  | (b, r) :: l =>
      executes chain_spec now (p_state p) b r /\
      forall p', insert_block b chain_spec r p = (Ok tt, p') -> chain_executes chain_spec (now + transitions b) l p'
  end.

Section Committed.
Context (chain_spec : ChainSpec) (reads : Db store SP (TransactionError TE)).
Context (n m tr : Z) (p0 : store) (L : Z -> list Z) (M : Z * Z -> list Z).
Context (HL : forall a, Forall (fun i => i < tr) (L a)) (HM : forall k, Forall (fun i => i < tr) (M k)).
Context (Hn : 0 < n) (Hm : 0 <= m) (Htr : 0 <= tr).

Lemma tx_insert_blocks_ok l bs p : chain_ok n m tr p0 L M bs p -> Forall senders_ok bs -> Forall senders_ok l.*1 ->
  numbered_from (n + zlen bs) l.*1 -> in_u 64 (n + zlen bs + zlen l) -> in_u 64 (m + zlen (txs_of (bs ++ l.*1))) ->
  tr + total_transitions (bs ++ l.*1) <= u64_max -> chain_executes chain_spec (tr + total_transitions bs) l p ->
  exists p', tx_insert_blocks (provider_db chain_spec reads) p l = Ok p' /\ chain_ok n m tr p0 L M (bs ++ l.*1) p' /\ SyncStage p' = SyncStage p.
Proof.
  revert bs p. induction l as [|[b r] l IH]; intros bs p Hc Hs Hl Hnum Hnu Hmu Hu Hx.
  { exists p. by rewrite app_nil_r. }
  destruct Hx as [Hx Hnext]. cbn [fmap list_fmap fst] in *. apply Forall_cons in Hl as [Hsb Hl]. apply numbered_cons in Hnum as [Hb Hnum].
  cbn [length] in Hnu. unfold in_u in *.
  assert (Happ : bs ++ b :: l.*1 = (bs ++ [b]) ++ l.*1) by by rewrite <- app_assoc. rewrite Happ in *.
  rewrite txs_of_app, length_app in Hmu. rewrite total_transitions_app in Hu.
  pose proof (total_transitions_pos l.*1).
  destruct (insert_block_step (TE := TE) info_le value_le keccak256 Hcol recover_signer update_root root_of trie_of n m tr p0 L M bs p b chain_spec r)
    as (p1 & E & Hc1 & Hst); unfold in_u; try (done || lia).
  destruct (IH (bs ++ [b]) p1) as (p' & E' & Hc' & Hst').
  - done.
  - apply Forall_app. split; [done|]. by apply Forall_singleton.
  - done.
  - rewrite length_app. cbn [length]. by replace (n + Z.of_nat (length bs + 1)) with (n + zlen bs + 1) by lia.
  - rewrite length_app. cbn [length]. lia.
  - rewrite txs_of_app, length_app. lia.
  - rewrite total_transitions_app. lia.
  - rewrite total_transitions_snoc, Z.add_assoc. by apply Hnext.
  - exists p'. split; [|split; [done|congruence]].
    cbn [tx_insert_blocks tx_insert_block provider_db]. unfold run_tx. rewrite E. cbn. exact E'.
Qed.

Lemma chain_ok_stages bs p stages : chain_ok n m tr p0 L M bs p -> chain_ok n m tr p0 L M bs (mkProviderTables (p_blocks p) (p_state p) (p_trie p) stages).
Proof. intros []. by split. Qed.
End Committed.

(** The blocks of a chain, by number *)
Definition blocks_of (c : Chain) : list SealedBlockWithSenders := (entries Z.le (blocks c)).*2.

Lemma Chain_new_blocks c res : map_Forall (fun k b => b_number b = k) (blocks c) -> length res = length (blocks_of c) ->
  blocks (Chain_new (zip (blocks_of c) res)) = blocks c.
Proof.
  intros Hk Hl. cbn [Chain_new blocks]. rewrite fst_zip by lia. apply map_eq. intros k.
  assert (Hin : forall b, b ∈ blocks_of c <-> blocks c !! b_number b = Some b).
  { intros b. unfold blocks_of. rewrite list_elem_of_fmap. split.
    - intros ([k' b'] & -> & Hb%elem_of_entries). cbn. by rewrite (Hk _ _ Hb).
    - intros Hb. exists (b_number b, b). split; [done|by apply elem_of_entries]. }
  destruct (blocks c !! k) as [b|] eqn:E.
  - pose proof (Hk _ _ E) as <-. apply (foldl_insert_in b_number id (blocks_of c) ∅ b); [by apply Hin|].
    intros b' Hb'%Hin Eq. cbn. rewrite Eq in Hb'. congruence.
  - etransitivity; [apply (foldl_insert_out b_number id (blocks_of c) ∅ k)|apply lookup_empty]. intros b Hb%Hin <-. congruence.
Qed.

Lemma tip_of c n : blocks_of c <> [] -> numbered_from n (blocks_of c) -> exists b, tip c = Some b /\ b_number b = n + zlen (blocks_of c) - 1.
Proof.
  intros Hne Hn. unfold tip, last_key_value. rewrite <- fmap_last. fold (blocks_of c).
  destruct (last (blocks_of c)) as [b|] eqn:E; [|by apply last_None in E]. exists b. split; [done|].
  assert (H : Some (b_number b) = Some (n + zlen (blocks_of c) - 1)); [|by injection H].
  rewrite <- (last_numbered n (blocks_of c) Hne), <- Hn, fmap_last, E. done.
Qed.

(** C5. Committing a chain to the database and reverting it.  Let the store be
    consistent with its state: hashed tables that mirror the plain ones, history lists
    below the next transition, a trie whose root is that of the last header.  Let the
    chain have new blocks, one with a transaction at least, that are [readable] (sealed
    ommers, withdrawals exactly from Paris on) and whose headers have the roots of the
    states they lead to, and execution results whose old values are those of the tables
    and which have changes at the end of a block exactly when it has withdrawals: no
    rewards, as after the merge.  Such a chain is committed without an error, and leaves a store that
    is consistent with it again.  If, moreover, no account of the change sets is missing
    both before and after the chain ([no_miss]) and no account that it writes to has a
    second slot ([one_slot]), reverting to its parent returns a chain of the same blocks,
    and the tables of blocks, plain and hashed state, change sets and history stand for
    what they did before. *)
Theorem commit_revert_canonical chain_spec reads n m tr L M (t : BlockchainTree store) c :
  let bs := blocks_of c in
  (forall a, Forall (fun i => i < tr) (L a)) -> (forall k, Forall (fun i => i < tr) (M k)) ->
  0 < n -> 0 <= m -> 0 <= tr -> in_u 64 (n + zlen bs) -> in_u 64 (m + zlen (txs_of bs)) -> tr + total_transitions bs <= u64_max ->
  base_ok n m (p_blocks (db t)) bs -> chain_ok n m tr (db t) L M [] (db t) ->
  map_Forall (fun k b => b_number b = k) (blocks c) -> numbered_from n bs -> length (changesets c) = length bs ->
  Forall senders_ok bs -> Forall (readable keccak256 chain_spec) bs -> txs_of bs <> [] ->
  chain_executes chain_spec tr (zip bs (changesets c)) (db t) ->
  exists t', commit_canonical (provider_db chain_spec reads) c t = (Ok tt, t') /\
    chain_ok n m tr (db t) L M bs (db t') /\ SyncStage (db t') = (fun _ => n + zlen bs - 1) <$> SyncStage (db t) /\
    (no_miss tr (p_state (db t)) (p_state (db t')) -> one_slot tr (p_state (db t)) (p_state (db t')) ->
      exists c' t'', revert_canonical (provider_db chain_spec reads) (n - 1) t' = (Ok c', t'') /\ blocks c' = blocks c /\
        same_store trie_of (db t) L M (db t'') /\ SyncStage (db t'') = (fun _ => n - 1) <$> SyncStage (db t)).
Proof.
  intros bs HL HM Hn Hm Htr Hnu Hmu Hu Hbase Hc0 Hkeys Hnum Hlen Hss Hread Htx Hx.
  assert (Hbs : bs <> []) by (by intros E; rewrite E in Htx). assert (Hfst : (zip bs (changesets c)).*1 = bs) by (apply fst_zip; lia).
  destruct (tx_insert_blocks_ok chain_spec reads n m tr (db t) L M HL HM Hn Hm Htr (zip bs (changesets c)) [] (db t)) as (p & E & Hc & Hst);
    rewrite ?Hfst; cbn [app length Z.of_nat] in *; rewrite ?Z.add_0_r; try done.
  { rewrite length_zip, Hlen, Nat.min_id. done. }
  destruct (tip_of c n Hbs Hnum) as (tipb & Etip & Ntip).
  set (p1 := mkProviderTables (p_blocks p) (p_state p) (p_trie p) ((fun _ => b_number tipb) <$> SyncStage p)).
  exists (set_db p1 t). split; [|split; [|split]].
  - unfold commit_canonical. erewrite bind_ok by reflexivity. unfold or_panic. rewrite Etip. erewrite bind_ok by reflexivity.
    fold (blocks_of c). fold bs. unfold external. rewrite E. done.
  - rewrite Hfst in Hc. by apply chain_ok_stages.
  - cbn [set_db db]. unfold p1. cbn [SyncStage]. by rewrite Ntip, Hst.
  - intros Hmiss Hone. rewrite Hfst in Hc.
    destruct (take_chain_ok (TE := TE) info_le value_le keccak256 Hcol after_miss update_root root_of trie_of n m tr (db t) p1 L M bs)
      with (chain_spec := chain_spec) as (res & p2 & E2 & Hl2 & Hsame & Hst2); try done; [by apply chain_ok_stages|].
    exists (Chain_new (zip bs res)), (set_db (mkProviderTables (p_blocks p2) (p_state p2) (p_trie p2) ((fun _ => n - 1) <$> SyncStage p2)) (set_db p1 t)).
    split; [|split; [by apply Chain_new_blocks|split]].
    + unfold revert_canonical. erewrite bind_ok by reflexivity. rewrite wadd_small by (unfold in_u in *; lia).
      replace (n - 1 + 1) with n by lia. erewrite bind_ok. 2:{ unfold st_lift, external. cbn [tx_take_range provider_db db set_db]. unfold run_tx. rewrite E2. reflexivity. }
      done.
    + destruct Hsame. by split.
    + cbn [set_db db SyncStage]. rewrite Hst2. unfold p1. cbn [SyncStage]. rewrite Hst, <- !map_fmap_compose. done.
Qed.
End TreeProvider.

(** ** A sample: block 1 on top of a genesis with one account *)
Module SampleTree.
Import ListIndex.
Import Sample.
Import SampleRevert.
Definition keccak (b : bytes) : Z := be_value b.
Definition root_of (H : gmap Z Account) (T : gset (Z * (Z * Z))) : Z := Z.of_nat (size H + size T).
Definition update_root (s : StateTables (list Z)) (t : unit) (root : Z) (r : Z * Z) : outcome unit (Z * unit) :=
  Ok (root_of (HashedAccount s) (HashedStorage s), tt).
Definition trie_of (H : gmap Z Account) (T : gset (Z * (Z * Z))) (t : unit) : Prop := True.

#[export] Instance trie_loader_ok : TrieLoaderOk code_le keccak update_root root_of trie_of.
Proof. intros s t H0 T0 from to _ _. by exists tt. Qed.

Lemma keccak_address a : in_u 160 a -> hashed_address keccak a = a.
Proof. intros Ha. unfold hashed_address, keccak, address_bytes. rewrite be_value_be_bytes. by apply Z.mod_small. Qed.
Lemma keccak_key k : in_u 256 k -> hashed_key keccak k = k.
Proof. intros Hk. unfold hashed_key, keccak, H256_bytes. rewrite be_value_be_bytes. by apply Z.mod_small. Qed.
Lemma keccak_injective : no_collisions keccak.
Proof. split; intros x y Hx Hy; [by rewrite !keccak_address|by rewrite !keccak_key]. Qed.

(** The hashed tables are the plain ones. *)
Lemma same_account_mirror (P : gmap Z Account) : (forall a, is_Some (P !! a) -> in_u 160 a) -> account_mirror keccak P P.
Proof.
  intros HP. split; [intros a Ha; by rewrite keccak_address|]. intros a acc Ha. assert (in_u 160 a) by (apply HP; by exists acc).
  exists a. by rewrite keccak_address.
Qed.
Lemma same_storage_mirror (S : gset (Z * (Z * Z))) : storage_wf S -> (forall a k v, (a, (k, v)) ∈ S -> in_u 160 a /\ in_u 256 k) ->
  storage_mirror code_le keccak S S.
Proof.
  intros Hw HS. split; [done|]. split; [intros a k Ha Hk; by rewrite keccak_address, keccak_key|].
  intros a k Hne. exists a, k. assert (Hin : (a, (k, slot code_le S a k)) ∈ S) by by apply (slot_row code_le).
  destruct (HS _ _ _ Hin). by rewrite keccak_address, keccak_key.
Qed.

Definition header (n root : Z) : Header := mkHeader 0 0 0 root 0 0 None 0 1 n 0 0 0 0 0 None [].
Definition tx : TransactionSigned := mkTransactionSigned 11 (mkSignature 1 1 false) (TLegacy (mkTxLegacy None 0 1 21000 Create 0 [])).
Definition block1 : SealedBlockWithSenders := mkBlockWithSenders (mkSealedBlock (mkSealedHeader (header 1 3) 101) [tx] [] None) [7].
Definition result1 : ExecutionResult :=
  mkExecutionResult [tx_result {[ 7 := mkAccountChangeSet (Changed account2 account1) {[ 1 := (9, 5) ]} false;
                                  9 := mkAccountChangeSet (Created account1) ∅ false ]} ] ∅.
Definition chain1 : Chain := Chain_new [(block1, result1)].

Definition tables0 : BlockTables :=
  mkBlockTables {[ 0 := 100 ]} {[ 0 := 1 ]} {[ 0 := header 0 2 ]} {[ 100 := 0 ]} {[ 0 := mkStoredBlockBody 0 0 ]} ∅ ∅ ∅ ∅ ∅ ∅ {[ 0 := 0 ]}.
Definition state0 : StateTables (list Z) :=
  mkStateTables (mkHistoryTables (mkAccountTables {[7 := account1]} ∅) {[ (7, (1, 9)) ]} ∅ ∅ ∅) {[7 := account1]} {[ (7, (1, 9)) ]} ∅.
Definition store0 : ProviderTables (list Z) unit := mkProviderTables tables0 state0 tt ∅.
Definition reads : Db (ProviderTables (list Z) unit) unit (TransactionError unit) :=
  mkDb _ _ _ (fun _ _ => Ok None) (fun _ => Ok tt) (fun _ _ => Ok tt) (fun _ _ => Ok []) (fun p _ _ => Ok p) (fun p _ => Ok p) (fun p _ => Ok ([], p)) Ok.
Definition tree0 : BlockchainTree (ProviderTables (list Z) unit) := mkTree ∅ 0 (BlockIndices_new 0 0 ∅) 10 10 store0.

Definition state1 : StateTables (list Z) :=
  mkStateTables (mkHistoryTables (mkAccountTables {[7 := account2; 9 := account1]} {[ (0, (7, Some account1)); (0, (9, None)) ]})
    {[ (7, (1, 5)) ]} {[ ((0, 7), (1, 9)) ]} ∅ ∅) {[7 := account1]} {[ (7, (1, 9)) ]} ∅.

Lemma result1_applied : apply_results (TE := unit) code_le mainnet 0 0 [result1] state0 = (Ok tt, state1).
Proof. vm_compute. reflexivity. Qed.

Lemma one_slot_wf (v : Z) : v <> 0 -> storage_wf {[ (7, (1, v)) ]}.
Proof. intros Hv. split; [intros a k w w' H1 H2|intros a k w H1]; set_unfold; naive_solver. Qed.

Lemma result1_valid : results_valid (TE := unit) code_le mainnet 0 0 [result1] state0.
Proof.
  cbn [results_valid]. split; [|by intros s' _; vm_compute]. cbn [result1 tx_changesets txs_valid tx_result changeset new_bytecodes]. split; [|done].
  apply map_Forall_insert_2; [|apply map_Forall_singleton]; (split; [lia|]); (split; [by vm_compute|]); intros k old new Hk; cbn [acs_storage] in Hk.
  - apply lookup_singleton_Some in Hk as [<- [= <- <-]]. by vm_compute.
  - by rewrite lookup_empty in Hk.
Qed.

Lemma block1_executes : executes (TE := unit) code_le keccak root_of mainnet 0 state0 block1 result1.
Proof.
  split; [exact result1_valid|by vm_compute|]. intros s' E. change (b_number block1 - 1) with 0 in E. rewrite result1_applied in E. injection E as <-.
  split; [split|].
  - intros u a o Hin _. cbn in Hin. set_unfold. destruct Hin as [[= -> -> ->]|[= -> -> ->]]; done.
  - intros u a k v Hin _. cbn in Hin. set_unfold. injection Hin as -> -> -> ->. done.
  - intros H T HA HS. rewrite (account_mirror_unique keccak H {[7 := account2; 9 := account1]} _ HA);
      [rewrite (storage_mirror_unique code_le keccak T {[ (7, (1, 5)) ]} _ HS); [by vm_compute|]|].
    + apply same_storage_mirror; [by apply one_slot_wf|]. intros a k v Hin. set_unfold. injection Hin as -> -> ->. done.
    + apply same_account_mirror. intros a Ha. cbn in Ha. apply elem_of_dom in Ha. rewrite dom_insert, dom_singleton in Ha. set_unfold. destruct Ha as [->| ->]; done.
Qed.

Lemma state0_changes : changesets_ok 0 (s_history state0).
Proof. split; intros; cbn in *; by match goal with H : _ ∈ ∅ |- _ => apply not_elem_of_empty in H end. Qed.

Lemma store0_consistent : chain_ok code_le code_le keccak root_of trie_of 1 0 0 store0 (fun _ => []) (fun _ => []) [] store0.
Proof.
  destruct (reverting_start code_le 0 state0 (one_slot_wf 9 ltac:(done)) (before_now 0 state0 state0_changes)) as [Hr Hf]. split.
  - apply holds_nil.
  - right. split; [done|]. by exists (mkStoredBlockBody 0 0).
  - exact (reverting_rebase code_le 0 0 state0 state0 state0 Hr ltac:(done)).
  - exact Hf.
  - split; intros; cbn in *; by match goal with H : _ ∈ ∅ |- _ => apply not_elem_of_empty in H end.
  - exact state0_changes.
  - split.
    + apply same_account_mirror. intros a Ha. cbn in Ha. apply elem_of_dom in Ha. rewrite dom_singleton in Ha. set_unfold. by subst.
    + apply same_storage_mirror; [by apply one_slot_wf|]. intros a k v Hin. cbn in Hin. set_unfold. injection Hin as -> -> ->. done.
    + intros a. cbn. apply empty_index.
    + intros k. cbn. apply empty_index.
  - done.
  - by exists (header 0 2).
Qed.

Lemma base0_ok : base_ok 1 0 tables0 [block1].
Proof.
  split; try (intros k v Hk; cbn in Hk; by apply lookup_singleton_Some in Hk as [<- _]); try (intros k v Hk; discriminate Hk);
    (apply Forall_singleton; done).
Qed.

Abbreviation sample_db := (provider_db (TE := unit) code_le code_le keccak (fun _ => None) next_key update_root mainnet reads).

Lemma chain1_committed t' : commit_canonical sample_db chain1 tree0 = (Ok tt, t') -> same_plain state1 (p_state (db t')).
Proof.
  intros E. apply (f_equal (fun x => (h_accounts (s_history (p_state (db x.2))), plain_storage (p_state (db x.2)), storage_changeset (p_state (db x.2))))) in E.
  assert (Ev : (h_accounts (s_history state1), plain_storage state1, storage_changeset state1) =
    (h_accounts (s_history (p_state (db t'))), plain_storage (p_state (db t')), storage_changeset (p_state (db t'))))
    by (etransitivity; [|exact E]; vm_compute; reflexivity).
  clear E. injection Ev as E1 E2 E3. by split.
Qed.

Lemma state1_revertible (s' : StateTables (list Z)) : same_plain state1 s' -> no_miss 0 state0 s' /\ one_slot 0 state0 s'.
Proof.
  intros (S1 & S2 & S3). unfold no_miss, one_slot, account_changeset, plain_accounts. rewrite S1, S2, S3. clear S1 S2 S3. split.
  - intros u a o Hin _ Ha. cbn in Hin, Ha |- *. set_unfold. destruct Hin as [[= -> -> ->]|[= -> -> ->]]; [done|by eexists].
  - intros u a kv Hin _. cbn in Hin. set_unfold. injection Hin as -> -> ->. exists 1. split; intros k v Hk; cbn in Hk; set_unfold; naive_solver.
Qed.

Lemma chain1_blocks : blocks_of chain1 = [block1].
Proof. vm_compute. reflexivity. Qed.

Lemma commit_revert_canonical_witness : exists t' c' t'',
  commit_canonical sample_db chain1 tree0 = (Ok tt, t') /\ revert_canonical sample_db 0 t' = (Ok c', t'') /\
  blocks c' = blocks chain1 /\ p_blocks (db t'') = tables0.
Proof.
  destruct (commit_revert_canonical code_le code_le keccak keccak_injective (fun _ => None) next_key update_root root_of trie_of
    mainnet reads 1 0 0 (fun _ => []) (fun _ => []) tree0 chain1) as (t' & E & _ & _ & Ht);
    rewrite ?chain1_blocks; cbn [tree0 db].
  - intros a. constructor.
  - intros k. constructor.
  - done.
  - done.
  - done.
  - done.
  - done.
  - done.
  - exact base0_ok.
  - exact store0_consistent.
  - apply map_Forall_singleton. done.
  - done.
  - done.
  - apply Forall_singleton. done.
  - apply Forall_singleton. split; [constructor|]. vm_compute. split; [intros [x Hx]; discriminate Hx|intros Hx; discriminate Hx].
  - done.
  - split; [exact block1_executes|done].
  - pose proof (chain1_committed t' E) as Sp. destruct Ht as (c' & t'' & E' & Hb & Hs & _).
    + by apply state1_revertible.
    + by apply state1_revertible.
    + exists t', c', t''. split; [exact E|]. split; [exact E'|]. split; [exact Hb|]. exact (ss_blocks _ _ _ _ _ Hs).
Defined.
End SampleTree.
