(* ===== verification/Bloom.v ===== *)
(** * Log blooms

    crates/primitives/src/bloom.rs: the 2048-bit filters of log addresses and topics
    in receipts and headers.  A bloom is its 256 bytes; [bloom_value] is the integer
    that headers and receipts carry.  keccak is a parameter. *)
From S2P Require Import Prelude Bytes SubState.

Definition BLOOM_BITS : Z := 3.
Definition BLOOM_SIZE : nat := 256.
Abbreviation Bloom := bytes.

Definition wf_bloom (b : Bloom) : Prop := length b = BLOOM_SIZE /\ wf_bytes b.
Definition zero_bloom : Bloom := replicate BLOOM_SIZE 0.
Definition bloom_value (b : Bloom) : Z := be_value b.
Definition bloom_of_value (z : Z) : Bloom := be_bytes BLOOM_SIZE z.

(** The [log2] of the source counts the significant bits. *)
Definition log2 (x : Z) : Z := if x <=? 1 then 0 else 64 - leading_zeros 64 x.

Inductive Input := Raw (raw : bytes) | Hash (hash : Z).

(** [self.0[i] |= v]; an index out of range panics. *)
Definition or_at (i : nat) (v : Z) (b : Bloom) : option Bloom :=
  x ← b !! i; Some (<[i := Z.lor x v]> b).

Section Keccak.
Context (keccak256 : bytes -> Z).

(** [impl From<Input> for Hash], the 32 bytes. *)
Definition hash_of_input (i : Input) : bytes :=
  match i with Raw raw => be_bytes 32 (keccak256 raw) | Hash hash => be_bytes 32 hash end.

(** The loop [for _ in 0..bloom_bytes]: the index and the pointer after it. *)
Fixpoint read_index (n : nat) (hash : bytes) (ptr : nat) (index : Z) : option (Z * nat) :=
  match n with
  | O => Some (index, ptr)
  | S n =>
      x ← hash !! ptr;
      read_index n hash (S ptr) (Z.lor (wrap 64 (Z.shiftl index 8)) x)
  end.

(** The unrolled loop [for i in 0..3]. *)
Fixpoint accrue_loop (n : nat) (bloom_bytes : nat) (mask m : Z) (hash : bytes) (ptr : nat) (b : Bloom)
    : option Bloom :=
  match n with
  | O => Some b
  | S n =>
      '(index, ptr) ← read_index bloom_bytes hash ptr 0;
      let index := Z.land index mask in
      b ← or_at (Z.to_nat (m - 1 - index `div` 8)) (Z.shiftl 1 (index `mod` 8)) b;
      accrue_loop n bloom_bytes mask m hash ptr b
  end.

(** [None] is the failure of an assertion or of an index. *)
Definition accrue (b : Bloom) (input : Input) : option Bloom :=
  let p := BLOOM_BITS in
  let m := zlen b in
  let bloom_bits := m * 8 in
  let mask := bloom_bits - 1 in
  let bloom_bytes := (log2 bloom_bits + 7) `div` 8 in
  let hash := hash_of_input input in
  if negb (Z.land m (m - 1) =? 0) then None
  else if negb (p * bloom_bytes <=? zlen hash) then None
  else accrue_loop 3 (Z.to_nat bloom_bytes) mask m hash 0 b.

(** [impl From<Input> for Bloom] *)
Definition bloom_from_input (input : Input) : option Bloom := accrue zero_bloom input.

Definition m3_bit (h : bytes) (i : nat) : option Z :=
  hi1 ← h !! (i + 1)%nat;
  hi ← h !! i;
  Some (Z.land (hi1 + Z.shiftl hi 8) 0x7FF).

Definition m3_2048 (b : Bloom) (x : bytes) : option Bloom :=
  let h := be_bytes 32 (keccak256 x) in
  let fix go (idxs : list nat) (b : Bloom) :=
    match idxs with
    | [] => Some b
    | i :: idxs =>
        bit ← m3_bit h i;
        b ← or_at (Z.to_nat (256 - 1 - bit `div` 8)) (Z.shiftl 1 (bit `mod` 8)) b;
        go idxs b
    end in
  go [0; 2; 4]%nat b.

(** [address.as_bytes()], [topic.as_bytes()] *)
Definition address_bytes (a : Z) : bytes := be_bytes 20 a.
Definition topic_bytes (t : Z) : bytes := be_bytes 32 t.

Fixpoint m3_all (b : Bloom) (xs : list bytes) : option Bloom :=
  match xs with
  | [] => Some b
  | x :: xs => b ← m3_2048 b x; m3_all b xs
  end.

(** [logs_bloom]; the header field has that name. *)
Fixpoint logs_bloom_loop (b : Bloom) (logs : list Log) : option Bloom :=
  match logs with
  | [] => Some b
  | log :: logs =>
      b ← m3_2048 b (address_bytes (log_address log));
      b ← m3_all b (topic_bytes <$> topics log);
      logs_bloom_loop b logs
  end.

Definition calc_logs_bloom (logs : list Log) : option Bloom := logs_bloom_loop zero_bloom logs.
End Keccak.

(** [accrue_bloom]; the lengths asserted by the source are those of the arrays. *)
Definition accrue_bloom (b c : Bloom) : Bloom := zip_with Z.lor b c.

Fixpoint contains_bloom (a b : Bloom) : bool :=
  match a, b with
  | x :: a, y :: b => if negb (Z.land x y =? y) then false else contains_bloom a b
  | _, _ => true
  end.

Definition bloom_is_empty (b : Bloom) : bool := forallb (fun x => x =? 0) b.

(** ** Blooms as sets of bits *)

Definition bloom_bit (b : Bloom) (i : Z) : bool :=
  match b !! Z.to_nat (256 - 1 - i `div` 8) with Some x => Z.testbit x (i `mod` 8) | None => false end.

(** The three bits of a value. *)
Definition hash_bit (h : bytes) (i : nat) : Z := Z.land (h !!! (i + 1)%nat + Z.shiftl (h !!! i) 8) 0x7FF.
Definition item_bits (keccak256 : bytes -> Z) (x : bytes) : list Z :=
  hash_bit (be_bytes 32 (keccak256 x)) <$> [0; 2; 4]%nat.

(** The entries a log adds to a bloom. *)
Definition log_items (log : Log) : list bytes :=
  address_bytes (log_address log) :: (topic_bytes <$> topics log).

Lemma zero_bloom_wf : wf_bloom zero_bloom.
Proof. split; [done|]. apply Forall_replicate. unfold is_byte. lia. Qed.

Lemma zero_bloom_bit i : bloom_bit zero_bloom i = false.
Proof.
  unfold bloom_bit, zero_bloom. destruct (replicate _ _ !! _) eqn:E; [|done].
  apply lookup_replicate in E as [-> _]. apply Z.testbit_0_l.
Qed.

Lemma byte_lor x y : is_byte x -> is_byte y -> is_byte (Z.lor x y).
Proof.
  unfold is_byte. intros Hx Hy. split; [apply Z.lor_nonneg; lia|].
  destruct (Z.eq_dec (Z.lor x y) 0) as [->|Hne]; [lia|].
  apply (Z.log2_lt_pow2 _ 8); [pose proof (Z.lor_nonneg x y); lia|].
  rewrite Z.log2_lor by lia.
  assert (forall z, 0 <= z < 256 -> Z.log2 z < 8) as Hlog.
  { intros z Hz. destruct (Z.eq_dec z 0) as [->|]; [done|]. apply Z.log2_lt_pow2; lia. }
  pose proof (Hlog x ltac:(lia)). pose proof (Hlog y ltac:(lia)). lia.
Qed.

Lemma byte_shiftl_1 k : is_byte (Z.shiftl 1 (k mod 8)).
Proof.
  rewrite Z.shiftl_1_l. pose proof (Z.mod_pos_bound k 8 ltac:(lia)). unfold is_byte.
  split; [lia|]. change 256 with (2 ^ 8). apply Z.pow_lt_mono_r; lia.
Qed.

(** Setting a bit sets that bit and no other. *)
Lemma or_at_bit b k : wf_bloom b -> 0 <= k < 2048 -> exists b',
  or_at (Z.to_nat (256 - 1 - k `div` 8)) (Z.shiftl 1 (k `mod` 8)) b = Some b' /\ wf_bloom b' /\
  forall i, 0 <= i < 2048 -> bloom_bit b' i = bloom_bit b i || (i =? k).
Proof.
  intros [Hlen Hwf] Hk. unfold BLOOM_SIZE in Hlen.
  assert (0 <= k `div` 8 < 256) by (split; [apply Z.div_pos|apply Z.div_lt_upper_bound]; lia).
  destruct (lookup_lt_is_Some_2 b (Z.to_nat (256 - 1 - k `div` 8))) as [x Hx]; [lia|].
  unfold or_at. rewrite Hx. simpl. eexists. split; [done|].
  pose proof (Forall_lookup_1 _ _ _ _ Hwf Hx) as Hb. split.
  { split; [by rewrite length_insert|]. apply Forall_insert; [done|].
    apply byte_lor; [done|apply byte_shiftl_1]. }
  intros i Hi. unfold bloom_bit.
  assert (0 <= i `div` 8 < 256) by (split; [apply Z.div_pos|apply Z.div_lt_upper_bound]; lia).
  pose proof (Z.div_mod i 8 ltac:(lia)) as Ei. pose proof (Z.div_mod k 8 ltac:(lia)) as Ek.
  pose proof (Z.mod_pos_bound i 8 ltac:(lia)). pose proof (Z.mod_pos_bound k 8 ltac:(lia)).
  destruct (decide (i `div` 8 = k `div` 8)) as [E|E].
  - rewrite E, Hx, list_lookup_insert_eq by lia.
    rewrite Z.lor_spec, Z.shiftl_1_l. f_equal. rewrite Z.pow2_bits_eqb by lia.
    destruct (Z.eqb_spec i k), (Z.eqb_spec (k mod 8) (i mod 8)); (done || lia).
  - rewrite list_lookup_insert_ne by lia. destruct (Z.eqb_spec i k); [congruence|].
    by rewrite orb_false_r.
Qed.

Lemma hash_bit_range h i : 0 <= hash_bit h i < 2048.
Proof.
  unfold hash_bit. change 0x7FF with (Z.ones 11). rewrite Z.land_ones by lia.
  apply Z.mod_pos_bound. lia.
Qed.

Lemma m3_bit_hash h i : length h = 32%nat -> (i < 31)%nat -> m3_bit h i = Some (hash_bit h i).
Proof.
  intros Hh Hi. unfold m3_bit, hash_bit.
  destruct (lookup_lt_is_Some_2 h (i + 1)) as [x Hx]; [lia|].
  destruct (lookup_lt_is_Some_2 h i) as [y Hy]; [lia|].
  rewrite Hx, Hy. simpl. by rewrite (list_lookup_total_correct _ _ _ Hx), (list_lookup_total_correct _ _ _ Hy).
Qed.

Section Bits.
Context (keccak256 : bytes -> Z).
Implicit Types (b c : Bloom).

Lemma m3_2048_bits b x : wf_bloom b -> exists b',
  m3_2048 keccak256 b x = Some b' /\ wf_bloom b' /\
  forall i, 0 <= i < 2048 -> bloom_bit b' i = bloom_bit b i || bool_decide (i ∈ item_bits keccak256 x).
Proof.
  intros Hb. unfold m3_2048, item_bits. set (h := be_bytes 32 (keccak256 x)).
  assert (Hh : length h = 32%nat) by apply length_be_bytes. clearbody h.
  rewrite !m3_bit_hash by (done || lia). cbn [mbind option_bind].
  destruct (or_at_bit b (hash_bit h 0) Hb (hash_bit_range _ _)) as (b1 & -> & H1 & B1). cbn [mbind option_bind].
  destruct (or_at_bit b1 (hash_bit h 2) H1 (hash_bit_range _ _)) as (b2 & -> & H2 & B2). cbn [mbind option_bind].
  destruct (or_at_bit b2 (hash_bit h 4) H2 (hash_bit_range _ _)) as (b3 & -> & H3 & B3). cbn [mbind option_bind].
  exists b3. split; [done|]. split; [done|]. intros i Hi. rewrite B3, B2, B1 by done.
  cbn [fmap list_fmap]. rewrite <- !orb_assoc. f_equal. symmetry.
  destruct (bool_decide_reflect (i ∈ [hash_bit h 0; hash_bit h 2; hash_bit h 4])) as [Hin|Hin];
    rewrite !elem_of_cons in Hin;
    destruct (Z.eqb_spec i (hash_bit h 0)), (Z.eqb_spec i (hash_bit h 2)), (Z.eqb_spec i (hash_bit h 4));
    try done; set_solver.
Qed.

(** Sets of bits as a list of entries: bit [i] is set when an entry sets it. *)
Definition items_bit (xs : list bytes) (i : Z) : bool :=
  existsb (fun x => bool_decide (i ∈ item_bits keccak256 x)) xs.

Lemma items_bit_elem xs x i : x ∈ xs -> i ∈ item_bits keccak256 x -> items_bit xs i = true.
Proof.
  intros Hx Hi. apply existsb_exists. exists x.
  split; [by apply list_elem_of_In|by apply bool_decide_eq_true].
Qed.

Lemma m3_all_items xs b : wf_bloom b -> exists b',
  m3_all keccak256 b xs = Some b' /\ wf_bloom b' /\
  forall i, 0 <= i < 2048 -> bloom_bit b' i = bloom_bit b i || items_bit xs i.
Proof.
  revert b. induction xs as [|x xs IH]; intros b Hb; simpl.
  { exists b. split; [done|]. split; [done|]. intros. by rewrite orb_false_r. }
  destruct (m3_2048_bits b x Hb) as (b1 & -> & H1 & B1).
  destruct (IH b1 H1) as (b2 & E2 & H2 & B2).
  cbn [mbind option_bind]. exists b2. split; [exact E2|]. split; [done|].
  intros i Hi. by rewrite B2, B1, <- orb_assoc by done.
Qed.

Lemma logs_bloom_items logs b : wf_bloom b -> exists b',
  logs_bloom_loop keccak256 b logs = Some b' /\ wf_bloom b' /\
  forall i, 0 <= i < 2048 -> bloom_bit b' i = bloom_bit b i || items_bit (logs ≫= log_items) i.
Proof.
  revert b. induction logs as [|l logs IH]; intros b Hb; simpl.
  { exists b. split; [done|]. split; [done|]. intros. by rewrite orb_false_r. }
  destruct (m3_2048_bits b (address_bytes (log_address l)) Hb) as (b1 & -> & H1 & B1).
  cbn [mbind option_bind].
  destruct (m3_all_items (topic_bytes <$> topics l) b1 H1) as (b2 & -> & H2 & B2).
  cbn [mbind option_bind]. destruct (IH b2 H2) as (b3 & E3 & H3 & B3).
  exists b3. split; [exact E3|]. split; [done|].
  intros i Hi. rewrite B3, B2, B1 by done. unfold items_bit. simpl.
  by rewrite existsb_app, !orb_assoc.
Qed.

(** [contains_bloom] is inclusion of the sets of bits. *)
Lemma contains_bloom_lookup b c : length b = length c ->
  contains_bloom b c = true <->
  (forall j x y, b !! j = Some x -> c !! j = Some y -> Z.land x y = y).
Proof.
  revert c. induction b as [|x b IH]; intros [|y c] Hl; try done; simpl in *.
  destruct (Z.eqb_spec (Z.land x y) y) as [E|E]; simpl.
  - rewrite IH by lia. split.
    + intros H [|j] x' y' Hx Hy; [by simplify_eq/=|by eapply H].
    + intros H j x' y' Hx Hy. by apply (H (S j) x' y').
  - split; [done|]. intros H. destruct E. by apply (H 0%nat).
Qed.

Lemma byte_bit_high y n : is_byte y -> 8 <= n -> Z.testbit y n = false.
Proof.
  unfold is_byte. intros Hy Hn. destruct (Z.eq_dec y 0) as [->|]; [apply Z.testbit_0_l|].
  apply Z.bits_above_log2; [lia|]. enough (Z.log2 y < 8) by lia. apply Z.log2_lt_pow2; lia.
Qed.

Lemma bloom_bit_byte b j x n : b !! j = Some x -> (j < 256)%nat -> 0 <= n < 8 ->
  bloom_bit b (8 * (255 - Z.of_nat j) + n) = Z.testbit x n.
Proof.
  intros Hx Hj Hn. unfold bloom_bit.
  rewrite Z.mul_comm, Z.div_add_l, Z.div_small, Z.add_0_r by lia.
  rewrite Z.add_comm, Z.mod_add, Z.mod_small by lia.
  replace (Z.to_nat (256 - 1 - (255 - Z.of_nat j))) with j by lia. by rewrite Hx.
Qed.

Lemma contains_bloom_bits b c : wf_bloom b -> wf_bloom c ->
  contains_bloom b c = true <->
  (forall i, 0 <= i < 2048 -> bloom_bit c i = true -> bloom_bit b i = true).
Proof.
  intros [Hb Wb] [Hc Wc]. unfold BLOOM_SIZE in *. rewrite contains_bloom_lookup by congruence. split.
  - intros H i Hi. unfold bloom_bit. set (j := Z.to_nat _).
    destruct (c !! j) as [y|] eqn:Ey; [|done].
    destruct (lookup_lt_is_Some_2 b j) as [x Hx]; [apply lookup_lt_Some in Ey; lia|].
    rewrite Hx, <- (H j x y Hx Ey), Z.land_spec. by intros [? _]%andb_prop.
  - intros H j x y Hx Hy. apply Z.bits_inj'. intros n Hn. rewrite Z.land_spec.
    destruct (Z.testbit y n) eqn:Ey; [|by rewrite andb_false_r]. rewrite andb_true_r.
    pose proof (lookup_lt_Some _ _ _ Hx). pose proof (Forall_lookup_1 _ _ _ _ Wc Hy) as By.
    assert (n < 8) as Hn8 by (apply Znot_ge_lt; intros ?; rewrite byte_bit_high in Ey; (done || lia)).
    rewrite <- (bloom_bit_byte b j) by (done || lia). apply H; [lia|].
    by rewrite (bloom_bit_byte c j y n) by (done || lia).
Qed.

Lemma bloom_ext b c : wf_bloom b -> wf_bloom c ->
  (forall i, 0 <= i < 2048 -> bloom_bit b i = bloom_bit c i) -> b = c.
Proof.
  intros [Lb Wb] [Lc Wc] H. unfold BLOOM_SIZE in *. apply list_eq_same_length with 256%nat; [done..|].
  intros j x y Hj Hx Hy. apply Z.bits_inj'. intros n Hn.
  destruct (decide (n < 8)).
  - rewrite <- (bloom_bit_byte b j x n), <- (bloom_bit_byte c j y n) by (done || lia). apply H. lia.
  - rewrite (byte_bit_high x), (byte_bit_high y); [done|..]; try lia; apply (Forall_lookup_1 _ _ _ _ Wc Hy) || apply (Forall_lookup_1 _ _ _ _ Wb Hx).
Qed.

Lemma lor_add_byte y z : 0 <= y < 256 -> 0 <= z -> Z.lor (Z.shiftl z 8) y = y + Z.shiftl z 8.
Proof.
  intros Hy Hz. rewrite Z.add_comm. symmetry.
  assert (Z.land (Z.shiftl z 8) y = 0) as E.
  { apply Z.bits_inj'. intros n Hn. rewrite Z.land_spec, Z.testbit_0_l.
    destruct (decide (n < 8)); [by rewrite Z.shiftl_spec_low|].
    rewrite (byte_bit_high y), andb_false_r; [done|done|lia]. }
  rewrite Z.add_nocarry_lxor by done. by apply Z.lxor_lor.
Qed.

Lemma read_index_2 h ptr x y : wf_bytes h -> h !! ptr = Some x -> h !! S ptr = Some y ->
  read_index 2 h ptr 0 = Some (y + Z.shiftl x 8, S (S ptr)).
Proof.
  intros Hw Hx Hy. cbn [read_index]. rewrite Hx. cbn [mbind option_bind]. rewrite Hy. cbn [mbind option_bind].
  pose proof (Forall_lookup_1 _ _ _ _ Hw Hx) as Bx. pose proof (Forall_lookup_1 _ _ _ _ Hw Hy) as By.
  unfold is_byte in *. change (Z.shiftl 0 8) with 0. rewrite (wrap_small 64 0) by (unfold in_u; lia).
  rewrite Z.lor_0_l, wrap_small by (rewrite Z.shiftl_mul_pow2 by lia; unfold in_u; lia).
  by rewrite lor_add_byte by lia.
Qed.

(** The general [accrue] computes what the Yellow Paper's function does, and its
    assertions hold. *)
Lemma accrue_m3_2048 b raw : wf_bloom b -> accrue keccak256 b (Raw raw) = m3_2048 keccak256 b raw.
Proof.
  intros [Hl Hw]. unfold accrue. rewrite Hl. cbv zeta. cbn [hash_of_input].
  set (h := be_bytes 32 (keccak256 raw)).
  assert (Hh : length h = 32%nat) by apply length_be_bytes. rewrite Hh.
  change (log2 (Z.of_nat BLOOM_SIZE * 8)) with 12. change (Z.of_nat BLOOM_SIZE) with 256.
  change (negb _) with false. cbv match. change (negb _) with false. cbv match.
  change (Z.to_nat ((12 + 7) `div` 8)) with 2%nat. change (256 * 8 - 1) with 0x7FF.
  assert (Hwh : wf_bytes h) by apply be_bytes_wf.
  unfold m3_2048. fold h. clearbody h. cbn [accrue_loop].
  assert (forall i, (i < 31)%nat -> exists x y, h !! i = Some x /\ h !! S i = Some y /\
            m3_bit h i = Some (Z.land (y + Z.shiftl x 8) 0x7FF)) as Hi.
  { intros i Hi. destruct (lookup_lt_is_Some_2 h i) as [x Hx]; [lia|].
    destruct (lookup_lt_is_Some_2 h (S i)) as [y Hy]; [lia|]. exists x, y. split; [done|]. split; [done|].
    unfold m3_bit. by rewrite Nat.add_1_r, Hy, Hx. }
  destruct (Hi 0%nat ltac:(lia)) as (x0 & y0 & X0 & Y0 & ->).
  destruct (Hi 2%nat ltac:(lia)) as (x2 & y2 & X2 & Y2 & ->).
  destruct (Hi 4%nat ltac:(lia)) as (x4 & y4 & X4 & Y4 & ->).
  rewrite (read_index_2 h 0 _ _ Hwh X0 Y0). cbn [mbind option_bind].
  destruct (or_at _ _ b); [|done]. cbn [mbind option_bind].
  rewrite (read_index_2 h 2 _ _ Hwh X2 Y2). cbn [mbind option_bind].
  destruct (or_at _ _ _); [|done]. cbn [mbind option_bind].
  rewrite (read_index_2 h 4 _ _ Hwh X4 Y4). done.
Qed.

Lemma bloom_from_raw raw : exists b, bloom_from_input keccak256 (Raw raw) = Some b /\ wf_bloom b /\
  forall i, 0 <= i < 2048 -> bloom_bit b i = bool_decide (i ∈ item_bits keccak256 raw).
Proof.
  destruct (m3_2048_bits zero_bloom raw zero_bloom_wf) as (b & E & Hb & B).
  exists b. unfold bloom_from_input. rewrite accrue_m3_2048 by apply zero_bloom_wf.
  split; [done|]. split; [done|]. intros i Hi. by rewrite B, zero_bloom_bit by done.
Qed.

(** A bloom contains the bloom of a value exactly when it has its three bits. *)
Lemma contains_from_raw c raw b : wf_bloom c -> bloom_from_input keccak256 (Raw raw) = Some b ->
  contains_bloom c b = true <-> (forall i, i ∈ item_bits keccak256 raw -> bloom_bit c i = true).
Proof.
  intros Hc Hb. destruct (bloom_from_raw raw) as (b' & E & Hb' & B). simplify_eq.
  rewrite contains_bloom_bits by done. split.
  - intros H i Hi. assert (0 <= i < 2048).
    { unfold item_bits in Hi. apply list_elem_of_fmap in Hi as (n & -> & _). apply hash_bit_range. }
    apply H; [done|]. rewrite B by done. by apply bool_decide_eq_true.
  - intros H i Hr. rewrite B by done. rewrite bool_decide_eq_true. apply H.
Qed.

Lemma accrue_bloom_wf b c : wf_bloom b -> wf_bloom c -> wf_bloom (accrue_bloom b c).
Proof.
  intros [Lb Wb] [Lc Wc]. split; [unfold accrue_bloom; rewrite length_zip_with; lia|].
  apply Forall_lookup. intros j x Hx. apply lookup_zip_with_Some in Hx as (y & z & -> & Hy & Hz).
  apply byte_lor; [apply (Forall_lookup_1 _ _ _ _ Wb Hy)|apply (Forall_lookup_1 _ _ _ _ Wc Hz)].
Qed.

Lemma accrue_bloom_bit b c i : wf_bloom b -> wf_bloom c ->
  bloom_bit (accrue_bloom b c) i = bloom_bit b i || bloom_bit c i.
Proof.
  intros [Lb Wb] [Lc Wc]. unfold bloom_bit, accrue_bloom. set (j := Z.to_nat _).
  rewrite lookup_zip_with. destruct (b !! j) as [x|] eqn:Ex; simpl.
  - destruct (lookup_lt_is_Some_2 c j) as [y Hy]; [apply lookup_lt_Some in Ex; lia|].
    rewrite Hy. simpl. apply Z.lor_spec.
  - destruct (c !! j) as [y|] eqn:Ey; [|done].
    apply lookup_lt_Some in Ey. apply lookup_ge_None in Ex. lia.
Qed.

(** The bloom of a block, accrued from the blooms of its receipts, is the bloom of
    all its logs. *)
Lemma calc_logs_bloom_app l1 l2 b1 b2 :
  calc_logs_bloom keccak256 l1 = Some b1 -> calc_logs_bloom keccak256 l2 = Some b2 ->
  calc_logs_bloom keccak256 (l1 ++ l2) = Some (accrue_bloom b1 b2).
Proof.
  unfold calc_logs_bloom. intros E1 E2.
  destruct (logs_bloom_items l1 zero_bloom zero_bloom_wf) as (c1 & E1' & W1 & B1).
  destruct (logs_bloom_items l2 zero_bloom zero_bloom_wf) as (c2 & E2' & W2 & B2).
  destruct (logs_bloom_items (l1 ++ l2) zero_bloom zero_bloom_wf) as (c & -> & W & B). simplify_eq.
  f_equal. apply bloom_ext; [done|by apply accrue_bloom_wf|]. intros i Hi.
  rewrite accrue_bloom_bit, B, B1, B2, zero_bloom_bit by done. unfold items_bit.
  by rewrite bind_app, existsb_app.
Qed.

(** No false negatives: the bloom of a list of logs contains the address and the
    topics of each of them. *)
Lemma calc_logs_bloom_contains ls b log x c :
  calc_logs_bloom keccak256 ls = Some b -> log ∈ ls -> x ∈ log_items log ->
  bloom_from_input keccak256 (Raw x) = Some c -> contains_bloom b c = true.
Proof.
  unfold calc_logs_bloom. intros Hb Hl Hx Hc.
  destruct (logs_bloom_items ls zero_bloom zero_bloom_wf) as (b' & E & W & B). simplify_eq.
  apply (contains_from_raw b x c W Hc). intros i Hi. rewrite B.
  - rewrite zero_bloom_bit. apply (items_bit_elem _ x); [|done]. apply list_elem_of_bind. eauto.
  - unfold item_bits in Hi. apply list_elem_of_fmap in Hi as (n & -> & _). apply hash_bit_range.
Qed.

Lemma calc_logs_bloom_total ls : exists b, calc_logs_bloom keccak256 ls = Some b /\ wf_bloom b.
Proof. destruct (logs_bloom_items ls zero_bloom zero_bloom_wf) as (b & E & W & _). eauto. Qed.
End Bits.

(** ** Blooms as integers *)

Lemma be_value_lor b c : length b = length c -> wf_bytes b -> wf_bytes c ->
  be_value (zip_with Z.lor b c) = Z.lor (be_value b) (be_value c).
Proof.
  revert c. induction b as [|x b IH] using rev_ind; intros c Hl Hb Hc.
  { destruct c; done. }
  destruct c as [|y c _] using rev_ind; rewrite !length_app in Hl; cbn in Hl; [lia|].
  apply Forall_app in Hb as [Hb Hx]. apply Forall_app in Hc as [Hc Hy].
  inversion_clear Hx as [|? ? Hx' _]. inversion_clear Hy as [|? ? Hy' _].
  rewrite zip_with_app by lia. cbn [zip_with]. rewrite !be_value_snoc, IH by (done || lia).
  pose proof (be_value_range b Hb). pose proof (be_value_range c Hc).
  assert (forall z w, 0 <= z -> is_byte w -> z * 256 + w = Z.lor (Z.shiftl z 8) w) as Hlor.
  { intros z w Hz Hw. rewrite lor_add_byte by (unfold is_byte in Hw; lia). rewrite Z.shiftl_mul_pow2 by lia. lia. }
  assert (0 <= Z.lor (be_value b) (be_value c)) by (apply Z.lor_nonneg; lia).
  pose proof (byte_lor x y Hx' Hy'). rewrite (Hlor (Z.lor _ _)), (Hlor (be_value b)), (Hlor (be_value c)) by (done || lia).
  apply Z.bits_inj'. intros n Hn. rewrite ?Z.lor_spec, ?Z.shiftl_spec, ?Z.lor_spec by lia.
  destruct (Z.testbit (be_value b) (n - 8)), (Z.testbit (be_value c) (n - 8)), (Z.testbit x n), (Z.testbit y n); done.
Qed.

Lemma bloom_value_accrue b c : wf_bloom b -> wf_bloom c -> bloom_value (accrue_bloom b c) = Z.lor (bloom_value b) (bloom_value c).
Proof. intros [Lb Wb] [Lc Wc]. by apply be_value_lor; [congruence|..]. Qed.

(** The header's bloom from the blooms of the receipts. *)
Lemma fold_blooms keccak256 (rs : list Receipt) :
  Forall (fun r => bloom_value <$> calc_logs_bloom keccak256 (logs r) = Some (bloom r)) rs ->
  bloom_value <$> calc_logs_bloom keccak256 (concat (logs <$> rs)) = Some (foldl (fun b r => Z.lor b (bloom r)) 0 rs).
Proof.
  induction rs as [|r rs IH] using rev_ind; [done|]. intros [Hrs Hr]%Forall_app.
  inversion_clear Hr as [|? ? Hr' _].  specialize (IH Hrs). rewrite foldl_snoc, fmap_app, concat_app. cbn. rewrite app_nil_r.
  destruct (calc_logs_bloom_total keccak256 (concat (logs <$> rs))) as (b1 & E1 & W1).
  destruct (calc_logs_bloom_total keccak256 (logs r)) as (b2 & E2 & W2).
  rewrite (calc_logs_bloom_app keccak256 _ _ b1 b2 E1 E2). rewrite E1 in IH. rewrite E2 in Hr'. injection IH as <-. injection Hr' as <-.
  cbn. by rewrite bloom_value_accrue.
Qed.
