(* ===== verification/Filter.v ===== *)
(** * Log filters

    crates/primitives/src/filter.rs: the filters of the log RPC methods, the
    bloom tests derived from them and the test of a single log.  What a filter means is
    [topics_match]; [filter_topics] decides it for the filters of [wf_filter], and the
    bloom tests reject no log that a filter accepts. *)
From S2P Require Import Prelude Bytes SubState Bloom.

(** [BloomFilter] *)
Abbreviation BloomFilter := (list (option Bloom)).

Inductive ValueOrArray (T : Type) :=
| Value (t : T)
| Array (l : list T).
Arguments Value {T} t.
Arguments Array {T} l.

Abbreviation Topic := (ValueOrArray (option Z)).

(** ethers_core's [BlockNumber]; [BlockNumberOrTag] of primitives/src/block.rs has
    the same constructors. *)
Inductive BlockNumber := Latest | Finalized | Safe | Earliest | Pending | Number (n : Z).

Definition as_number (b : BlockNumber) : option Z := match b with Number n => Some n | _ => None end.

Inductive FilterBlockOption :=
| Range (from_block to_block : option BlockNumber)
| AtBlockHash (hash : Z).

Definition option_to_block (o : FilterBlockOption) : option BlockNumber :=
  match o with Range _ to_block => to_block | AtBlockHash _ => None end.

Definition option_from_block (o : FilterBlockOption) : option BlockNumber :=
  match o with Range from_block _ => from_block | AtBlockHash _ => None end.

Definition set_from_block (o : FilterBlockOption) (block : BlockNumber) : FilterBlockOption :=
  let to_block := match o with Range _ to_block => to_block | _ => None end in
  Range (Some block) to_block.

Definition set_to_block (o : FilterBlockOption) (block : BlockNumber) : FilterBlockOption :=
  let from_block := match o with Range from_block _ => from_block | _ => None end in
  Range from_block (Some block).

(** The conversions into a [FilterBlockOption]: from a number, and from the ranges
    [a..b], [..b] and [a..]. *)
Definition option_from_number (block : BlockNumber) : FilterBlockOption := Range (Some block) (Some block).
Definition option_from_range (start end_ : BlockNumber) : FilterBlockOption := Range (Some start) (Some end_).
Definition option_from_range_to (end_ : BlockNumber) : FilterBlockOption := Range (Some Earliest) (Some end_).
Definition option_from_range_from (start : BlockNumber) : FilterBlockOption := Range (Some start) (Some Latest).

(** [topics] is an array of four. *)
Record Filter := mkFilter {
  block_option : FilterBlockOption;
  f_address : option (ValueOrArray Z);
  f_topics : list (option Topic)
}.

Definition Filter_new : Filter := mkFilter (Range None None) None [None; None; None; None].

(** The builder methods. *)
Definition select (f : Filter) (o : FilterBlockOption) : Filter := mkFilter o (f_address f) (f_topics f).
Definition from_block (f : Filter) (b : BlockNumber) : Filter := select f (set_from_block (block_option f) b).
Definition to_block (f : Filter) (b : BlockNumber) : Filter := select f (set_to_block (block_option f) b).
Definition at_block_hash (f : Filter) (h : Z) : Filter := select f (AtBlockHash h).
Definition with_address (f : Filter) (a : ValueOrArray Z) : Filter :=
  mkFilter (block_option f) (Some a) (f_topics f).
(** [topic0] to [topic3] *)
Definition with_topic (n : nat) (f : Filter) (t : Topic) : Filter :=
  mkFilter (block_option f) (f_address f) (<[n := Some t]> (f_topics f)).

Section Events.
Context (keccak256 : bytes -> Z).
Definition event (f : Filter) (event_name : bytes) : Filter :=
  with_topic 0 f (Value (Some (keccak256 event_name))).
Definition events (f : Filter) (names : list bytes) : Filter :=
  with_topic 0 f (Array ((fun e => Some (keccak256 e)) <$> names)).
End Events.

Definition filter_to_block (f : Filter) : option Z := option_to_block (block_option f) ≫= as_number.
Definition filter_from_block (f : Filter) : option Z := option_from_block (block_option f) ≫= as_number.
Definition filter_hash (f : Filter) : option Z :=
  match block_option f with AtBlockHash hash => Some hash | Range _ _ => None end.
Definition is_paginatable (f : Filter) : bool := bool_decide (is_Some (filter_from_block f)).
Definition has_topics (f : Filter) : bool := existsb (fun t => bool_decide (is_Some t)) (f_topics f).

Definition cartesian (lists : list (list (option Z))) : list (list (option Z)) :=
  match lists with
  | [] => []
  | first_list :: lists =>
      foldl (fun res l => res ≫= fun r => (fun el => r ++ [el]) <$> l) ((fun i => [i]) <$> first_list) lists
  end.

(** The alternatives of one position of the filter. *)
Definition alternatives (t : option Topic) : list (option Z) :=
  match t with Some (Value s) => [s] | Some (Array s) => s | None => [None] end.

Definition flatten (f : Filter) : list Topic := Array <$> cartesian (alternatives <$> f_topics f).

(** ** Matching: [FilteredParams] *)

Record FilteredParams := mkFilteredParams { fp_filter : option Filter; flat_topics : list Topic }.

Definition FilteredParams_new (filter : option Filter) : FilteredParams :=
  match filter with
  | Some f => mkFilteredParams (Some f) (flatten f)
  | None => mkFilteredParams None []
  end.

Section Blooms.
Context (keccak256 : bytes -> Z).

(** A loop of [push]es of fallible elements; [None] is the panic of [accrue]. *)
Fixpoint push_all (l : list (option (option Bloom))) : option BloomFilter :=
  match l with
  | [] => Some []
  | x :: l => b ← x; bs ← push_all l; Some (b :: bs)
  end.

Definition topic_bloom (t : option Z) : option (option Bloom) :=
  match t with
  | Some t => b ← bloom_from_input keccak256 (Raw (topic_bytes t)); Some (Some b)
  | None => Some None
  end.

Definition topics_to_bloom_filter (t : Topic) : option BloomFilter :=
  match t with
  | Value t => b ← topic_bloom t; Some [b]
  | Array [] => Some [None]
  | Array ts => push_all (topic_bloom <$> ts)
  end.

Definition address_bloom (a : Z) : option (option Bloom) :=
  b ← bloom_from_input keccak256 (Raw (address_bytes a)); Some (Some b).

Definition address_to_bloom_filter (a : ValueOrArray Z) : option BloomFilter :=
  match a with
  | Value a => b ← address_bloom a; Some [b]
  | Array [] => Some [None]
  | Array l => push_all (address_bloom <$> l)
  end.

Definition address_filter (a : option (ValueOrArray Z)) : option BloomFilter :=
  match a with Some a => address_to_bloom_filter a | None => Some [] end.

Fixpoint topics_filters (l : list Topic) : option (list BloomFilter) :=
  match l with
  | [] => Some []
  | t :: l => b ← topics_to_bloom_filter t; bs ← topics_filters l; Some (b :: bs)
  end.

Definition topics_filter (t : option (list Topic)) : option (list BloomFilter) :=
  match t with Some l => topics_filters l | None => Some [] end.
End Blooms.

(** [maybe_bloom.as_ref().map(|b| bloom.contains_bloom(b)).unwrap_or(true)] *)
Definition maybe_contains (bloom : Bloom) (maybe_bloom : option Bloom) : bool :=
  match maybe_bloom with Some b => contains_bloom bloom b | None => true end.

(** The inner loop: the last value of [is_match]. *)
Fixpoint filter_is_match (bloom : Bloom) (filter : BloomFilter) (is_match : bool) : bool :=
  match filter with
  | [] => is_match
  | b :: filter =>
      let is_match := maybe_contains bloom b in
      if negb is_match then is_match else filter_is_match bloom filter is_match
  end.

Fixpoint matches_topics_loop (bloom : Bloom) (topic_filters : list BloomFilter) : bool :=
  match topic_filters with
  | [] => false
  | filter :: topic_filters =>
      if filter_is_match bloom filter false then true else matches_topics_loop bloom topic_filters
  end.

Definition matches_topics (bloom : Bloom) (topic_filters : list BloomFilter) : bool :=
  match topic_filters with [] => true | _ => matches_topics_loop bloom topic_filters end.

Fixpoint matches_address_loop (bloom : Bloom) (address_filter : BloomFilter) : bool :=
  match address_filter with
  | [] => false
  | maybe_bloom :: address_filter =>
      if maybe_contains bloom maybe_bloom then true else matches_address_loop bloom address_filter
  end.

Definition matches_address (bloom : Bloom) (address_filter : BloomFilter) : bool :=
  match address_filter with [] => true | _ => matches_address_loop bloom address_filter end.

(** The loop of [replace] over an array; indexing the topics panics out of range. *)
Fixpoint replace_loop (topics : list Z) (k : nat) (value : list (option Z)) : option (list Z) :=
  match value with
  | [] => Some []
  | Some v :: value => out ← replace_loop topics (S k) value; Some (v :: out)
  | None :: value => t ← topics !! k; out ← replace_loop topics (S k) value; Some (t :: out)
  end.

Definition replace (log : Log) (topic : Topic) : option (option (list Z)) :=
  out ← match topic with
        | Value value => Some (match value with Some v => [v] | None => [] end)
        | Array value => replace_loop (topics log) 0 value
        end;
  Some (match out with [] => None | _ => Some out end).

Definition filter_block_range (p : FilteredParams) (block_number : Z) : bool :=
  match fp_filter p with
  | None => true
  | Some filter =>
      let res := match option_from_block (block_option filter) with
                 | Some (Number num) => negb (block_number <? num)
                 | _ => true
                 end in
      match option_to_block (block_option filter) with
      | Some (Number num) => if num <? block_number then false else res
      | Some Earliest => false
      | _ => res
      end
  end.

Definition filter_block_hash (p : FilteredParams) (block_hash : Z) : bool :=
  match fp_filter p ≫= filter_hash with
  | Some h => h =? block_hash
  | None => true
  end.

Definition filter_address (p : FilteredParams) (log : Log) : bool :=
  match fp_filter p ≫= f_address with
  | Some (Value x) => log_address log =? x
  | Some (Array []) => true
  | Some (Array x) => existsb (fun a => a =? log_address log) x
  | None => true
  end.

(** [slice.starts_with(needle)] *)
Fixpoint starts_with (l needle : list Z) {struct needle} : bool :=
  match needle, l with
  | [], _ => true
  | x :: needle, y :: l => (x =? y) && starts_with l needle
  | _ :: _, [] => false
  end.

(** The loop that pops trailing wildcards; its fuel is the length. *)
Fixpoint pop_wildcards (fuel : nat) (new_multi : list (option Z)) : list (option Z) :=
  match fuel with
  | O => new_multi
  | S fuel =>
      match default (Some 0) (last new_multi) with
      | None => pop_wildcards fuel (removelast new_multi)
      | Some _ => new_multi
      end
  end.

Fixpoint filter_topics_loop (log : Log) (l : list Topic) (out : bool) : option bool :=
  match l with
  | [] => Some out
  | Value single :: l =>
      let out := match single with
                 | Some single => if negb (starts_with (topics log) [single]) then false else out
                 | None => out
                 end in
      filter_topics_loop log l out
  | Array [] :: l => filter_topics_loop log l true
  | Array multi :: l =>
      let new_multi := pop_wildcards (length multi) multi in
      if (length (topics log) <? length new_multi)%nat then Some false
      else
        replaced ← replace log (Array new_multi);
        match replaced with
        | None => filter_topics_loop log l out
        | Some replaced =>
            if starts_with (topics log) replaced then Some true else filter_topics_loop log l false
        end
  end.

(** [None] is a panic. *)
Definition filter_topics (p : FilteredParams) (log : Log) : option bool :=
  filter_topics_loop log (flat_topics p) true.

(** ** What a filter means *)

(** A combination of the flattened filter against the topics of a log. *)
Fixpoint combo_matches (c : list (option Z)) (ts : list Z) : bool :=
  match c with
  | [] => true
  | None :: c => combo_matches c (tail ts)
  | Some v :: c => match ts with [] => false | t :: ts => (v =? t) && combo_matches c ts end
  end.

(** A filter matches when every position has an alternative that is a wildcard or
    the topic of the log at that position. *)
Definition alternative_matches (t : option Z) (a : option Z) : bool :=
  match a with None => true | Some v => bool_decide (t = Some v) end.

Fixpoint topics_match (alts : list (list (option Z))) (ts : list Z) : bool :=
  match alts with
  | [] => true
  | l :: alts => existsb (alternative_matches (head ts)) l && topics_match alts (tail ts)
  end.

(** The filters of which the loop of the source decides that: a position has one
    wildcard, or alternatives of which none is a wildcard. *)
Definition wf_alternatives (l : list (option Z)) : Prop := l = [None] \/ (l <> [] /\ None ∉ l).
Definition wf_filter (f : Filter) : Prop :=
  length (f_topics f) = 4%nat /\ Forall wf_alternatives (alternatives <$> f_topics f).

Lemma elem_of_product (res lists : list (list (option Z))) c :
  c ∈ foldl (fun res l => res ≫= fun r => (fun el => r ++ [el]) <$> l) res lists <->
  exists r c', r ∈ res /\ c = r ++ c' /\ Forall2 (fun (a : option Z) l => a ∈ l) c' lists.
Proof.
  revert res. induction lists as [|l lists IH]; intros res; simpl.
  - split.
    + intros Hc. exists c, []. by rewrite app_nil_r.
    + intros (r & c' & Hr & -> & ->%Forall2_nil_inv_r). by rewrite app_nil_r.
  - rewrite IH. split.
    + intros (r & c' & Hr & -> & Hc'). apply list_elem_of_bind in Hr as (r0 & Hr & Hr0).
      apply list_elem_of_fmap in Hr as (el & -> & Hel).
      exists r0, (el :: c'). split; [done|]. split; [by rewrite <- app_assoc|]. by constructor.
    + intros (r & c' & Hr & -> & Hc'). apply Forall2_cons_inv_r in Hc' as (el & c2 & Hel & Hc2 & ->).
      exists (r ++ [el]), c2. split; [|split; [by rewrite <- app_assoc|done]].
      apply list_elem_of_bind. exists r. split; [|done]. apply list_elem_of_fmap. eauto.
Qed.

Lemma elem_of_cartesian lists c : lists <> [] ->
  c ∈ cartesian lists <-> Forall2 (fun a l => a ∈ l) c lists.
Proof.
  destruct lists as [|l lists]; [done|]. intros _. unfold cartesian. rewrite elem_of_product. split.
  - intros (r & c' & Hr & -> & Hc'). apply list_elem_of_fmap in Hr as (a & -> & Ha). by constructor.
  - intros H. apply Forall2_cons_inv_r in H as (a & c' & Ha & Hc' & ->).
    exists [a], c'. split; [|done]. apply list_elem_of_fmap. eauto.
Qed.

Lemma topics_match_combo alts ts :
  topics_match alts ts = true <->
  exists c, Forall2 (fun a l => a ∈ l) c alts /\ combo_matches c ts = true.
Proof.
  revert ts. induction alts as [|l alts IH]; intros ts; simpl.
  - split; [exists []; by split|done].
  - rewrite andb_true_iff, IH, existsb_exists. split.
    + intros [(a & Ha%list_elem_of_In & Hm) (c & Hc & Hmc)]. exists (a :: c). split; [by constructor|].
      destruct a as [v|]; simpl in *; [|done]. apply bool_decide_eq_true in Hm.
      destruct ts as [|t ts]; simplify_eq/=. by rewrite Z.eqb_refl.
    + intros (c & Hc & Hmc). apply Forall2_cons_inv_r in Hc as (a & c' & Ha & Hc' & ->). split.
      * exists a. split; [by apply list_elem_of_In|]. destruct a as [v|]; simpl in *; [|done].
        apply bool_decide_eq_true. destruct ts as [|t ts]; [done|].
        apply andb_prop in Hmc as [->%Z.eqb_eq _]. done.
      * exists c'. split; [done|]. destruct a as [v|]; simpl in *; [|done].
        destruct ts as [|t ts]; [done|]. by apply andb_prop in Hmc as [_ ?].
Qed.

(** *** The wildcards at the end of a combination *)

Lemma pop_wildcards_split n m : (length m <= n)%nat -> exists k,
  m = pop_wildcards n m ++ replicate k None /\ last (pop_wildcards n m) <> Some None.
Proof.
  revert m. induction n as [|n IH]; intros m Hm; simpl.
  { destruct m; simpl in *; [|lia]. exists 0%nat. done. }
  destruct m as [|a m _] using rev_ind; simpl.
  { exists 0%nat. done. }
  rewrite last_snoc. simpl. destruct a as [v|].
  - exists 0%nat. rewrite app_nil_r, last_snoc. done.
  - rewrite length_app in Hm. simpl in Hm. rewrite removelast_last.
    destruct (IH m ltac:(lia)) as (k & Hk & Hl). exists (S k). split; [|done].
    rewrite replicate_S_end, app_assoc, <- Hk. done.
Qed.

Lemma combo_matches_wildcards c k ts : combo_matches (c ++ replicate k None) ts = combo_matches c ts.
Proof.
  revert ts. induction c as [|[v|] c IH]; intros ts; simpl; [|destruct ts; [done|by rewrite IH]|apply IH].
  revert ts. induction k as [|k IH]; intros ts; simpl; [done|apply IH].
Qed.

Lemma combo_matches_length c ts :
  last c <> Some None -> combo_matches c ts = true -> (length c <= length ts)%nat.
Proof.
  revert ts. induction c as [|a c IH]; intros ts Hl Hm; simpl in *; [lia|].
  assert (c = [] \/ last c <> Some None) as [->|Hlc] by (destruct c; [by left|by right]).
  - destruct a, ts; simpl in *; (done || lia).
  - destruct a as [v|].
    + destruct ts; [done|]. apply andb_prop in Hm as [_ Hm]. specialize (IH _ Hlc Hm). simpl. lia.
    + specialize (IH _ Hlc Hm). destruct ts; simpl in *; [|lia].
      destruct c; [done|]. simpl in *. lia.
Qed.

Lemma replace_loop_ok ts value k : (k + length value <= length ts)%nat -> exists out,
  replace_loop ts k value = Some out /\ length out = length value /\
  starts_with (drop k ts) out = combo_matches value (drop k ts).
Proof.
  revert k. induction value as [|a value IH]; intros k Hk; simpl in *; [by exists []|].
  destruct (IH (S k) ltac:(lia)) as (out & E & L & M).
  destruct (lookup_lt_is_Some_2 ts k) as [t Ht]; [lia|].
  rewrite (drop_S _ _ _ Ht). destruct a as [v|].
  - rewrite E. simpl. exists (v :: out). split; [done|]. split; [simpl; lia|]. simpl. by rewrite M.
  - rewrite Ht, E. simpl. exists (t :: out). split; [done|]. split; [simpl; lia|]. simpl.
    by rewrite Z.eqb_refl.
Qed.

(** One turn of the loop of [filter_topics]. *)
Lemma filter_topics_turn log c l out : c <> [] ->
  let n := length (pop_wildcards (length c) c) in
  filter_topics_loop log (Array c :: l) out =
  if (length (topics log) <? n)%nat then Some false
  else if (n =? 0)%nat then filter_topics_loop log l out
  else if combo_matches c (topics log) then Some true else filter_topics_loop log l false.
Proof.
  intros Hc. cbv zeta. destruct (pop_wildcards_split (length c) c ltac:(lia)) as (k & Hk & Hl).
  set (m := pop_wildcards (length c) c) in *.
  replace (combo_matches c (topics log)) with (combo_matches m (topics log))
    by (by rewrite Hk, combo_matches_wildcards).
  destruct c as [|a c]; [done|]. cbn [filter_topics_loop]. cbv zeta. fold m.
  destruct (Nat.ltb_spec (length (topics log)) (length m)) as [Hlt|Hge]; [done|].
  unfold replace. destruct (replace_loop_ok (topics log) m 0) as (o & -> & L & M); [lia|].
  rewrite drop_0 in M. simpl mbind. destruct o as [|x o].
  - simpl in L. by rewrite <- L.
  - simpl in L. rewrite <- L. simpl Nat.eqb. by rewrite M.
Qed.

(** *** The loop over the combinations *)

Definition pattern (c : list (option Z)) : list bool := (fun a => match a with None => true | Some _ => false end) <$> c.

Lemma pattern_removelast c : pattern (removelast c) = removelast (pattern c).
Proof.
  destruct c as [|a c _] using rev_ind; [done|]. unfold pattern. rewrite fmap_app. cbn [fmap list_fmap]. by rewrite !removelast_last.
Qed.

Lemma pop_wildcards_pattern n c c' :
  pattern c = pattern c' -> length (pop_wildcards n c) = length (pop_wildcards n c').
Proof.
  revert c c'. induction n as [|n IH]; intros c c' E; simpl.
  { apply (f_equal length) in E. unfold pattern in E. by rewrite !length_fmap in E. }
  pose proof (f_equal last E) as El. unfold pattern in El. rewrite !fmap_last in El.
  pose proof (f_equal length E) as Elen. unfold pattern in Elen. rewrite !length_fmap in Elen.
  destruct (last c) as [[v|]|], (last c') as [[v'|]|]; simplify_eq/=; try done.
  apply IH. by rewrite !pattern_removelast, E.
Qed.

Lemma wf_alternatives_pattern alts c c' : Forall wf_alternatives alts ->
  Forall2 (fun a l => a ∈ l) c alts -> Forall2 (fun a l => a ∈ l) c' alts -> pattern c = pattern c'.
Proof.
  intros Hwf Hc. revert c'. induction Hc as [|a l c alts Ha Hc IH]; intros c' Hc'.
  { by apply Forall2_nil_inv_r in Hc' as ->. }
  apply Forall2_cons_inv_r in Hc' as (a' & c2 & Ha' & Hc2 & ->). inversion_clear Hwf as [|? ? Hl Hwf'].
  unfold pattern. simpl. f_equal; [|by apply IH].
  destruct Hl as [->|[_ Hl]].
  - apply list_elem_of_singleton in Ha as ->, Ha' as ->. done.
  - by destruct a, a'.
Qed.

Lemma wf_alternatives_combo alts : Forall wf_alternatives alts ->
  exists c, Forall2 (fun a l => a ∈ l) c alts.
Proof.
  induction 1 as [|l alts Hl Hwf IH]; [by exists []|]. destruct IH as [c Hc].
  assert (exists a, a ∈ l) as [a Ha].
  { destruct Hl as [->|[Hne _]]; [exists None; by apply list_elem_of_singleton|].
    destruct l as [|a l]; [done|]. exists a. apply list_elem_of_here. }
  exists (a :: c). by constructor.
Qed.

Lemma combo_popped_too_long c ts :
  (length ts < length (pop_wildcards (length c) c))%nat -> combo_matches c ts = false.
Proof.
  intros Hlt. destruct (pop_wildcards_split (length c) c ltac:(lia)) as (k & Hk & Hl).
  apply not_true_is_false. intros Hm. rewrite Hk, combo_matches_wildcards in Hm.
  apply combo_matches_length in Hm; [lia|done].
Qed.

Lemma combo_all_wildcards c ts :
  length (pop_wildcards (length c) c) = 0%nat -> combo_matches c ts = true.
Proof.
  intros H0. destruct (pop_wildcards_split (length c) c ltac:(lia)) as (k & Hk & _).
  apply nil_length_inv in H0. rewrite H0 in Hk. rewrite Hk. apply (combo_matches_wildcards []).
Qed.

(** Combinations of one shape: the loop finds one that matches. *)
Lemma filter_topics_uniform log n l out :
  (forall c, c ∈ l -> c <> [] /\ length (pop_wildcards (length c) c) = n) -> (0 < n)%nat ->
  filter_topics_loop log (Array <$> l) out =
  Some (match l with [] => out | _ => existsb (fun c => combo_matches c (topics log)) l end).
Proof.
  intros Hl Hn. revert out. induction l as [|c l IH]; intros out; [done|].
  destruct (Hl c (list_elem_of_here _ _)) as [Hc Hcn]. cbn [fmap list_fmap].
  rewrite filter_topics_turn, Hcn by done.
  specialize (IH (fun c' H => Hl c' (list_elem_of_further _ _ _ H))).
  destruct (Nat.eqb_spec n 0); [lia|]. destruct (Nat.ltb_spec (length (topics log)) n) as [Hlt|Hge].
  - f_equal. symmetry. apply not_true_is_false. intros H. apply existsb_exists in H as (c' & Hc' & Hm).
    rewrite combo_popped_too_long in Hm; [done|].
    destruct (Hl c') as [_ ->]; [|done]. by apply list_elem_of_In.
  - cbn [existsb]. destruct (combo_matches c (topics log)); [done|]. rewrite IH.
    destruct l; done.
Qed.

Lemma cartesian_matches alts ts : alts <> [] ->
  existsb (fun c => combo_matches c ts) (cartesian alts) = topics_match alts ts.
Proof.
  intros Ha. apply eq_true_iff_eq. rewrite topics_match_combo, existsb_exists.
  setoid_rewrite <- list_elem_of_In. by setoid_rewrite elem_of_cartesian.
Qed.

Lemma filter_topics_wf f log : wf_filter f ->
  filter_topics (FilteredParams_new (Some f)) log =
  Some (topics_match (alternatives <$> f_topics f) (topics log)).
Proof.
  intros [H4 Hwf]. unfold filter_topics, FilteredParams_new, flatten. cbn [flat_topics].
  set (alts := alternatives <$> f_topics f) in *.
  assert (Ha : alts <> []) by (intros E; apply (f_equal length) in E; unfold alts in E; rewrite length_fmap, H4 in E; done).
  destruct (wf_alternatives_combo alts Hwf) as [c Hc]. pose proof (proj2 (elem_of_cartesian _ _ Ha) Hc) as Hin.
  set (n := length (pop_wildcards (length c) c)).
  assert (forall c', c' ∈ cartesian alts -> c' <> [] /\ length (pop_wildcards (length c') c') = n) as Hu.
  { intros c' Hc'. apply elem_of_cartesian in Hc'; [|done].
    pose proof (wf_alternatives_pattern alts c c' Hwf Hc Hc') as Hp.
    apply Forall2_length in Hc as Lc. apply Forall2_length in Hc' as Lc'.
    split; [intros ->; by destruct alts|]. unfold n. rewrite Lc, Lc'. symmetry. by apply pop_wildcards_pattern. }
  destruct (decide (n = 0%nat)) as [H0|Hn].
  - transitivity (Some true).
    + clear -Hu H0. induction (cartesian alts) as [|c' l IH]; [done|].
      destruct (Hu c' (list_elem_of_here _ _)) as [Hne Hcn].
      cbn [fmap list_fmap]. rewrite filter_topics_turn, Hcn, H0 by done. simpl Nat.ltb.
      apply IH. intros c2 H2. apply Hu. by apply list_elem_of_further.
    + f_equal. symmetry. apply topics_match_combo. exists c. split; [done|]. by apply combo_all_wildcards.
  - rewrite (filter_topics_uniform log n) by (done || lia). f_equal.
    rewrite <- cartesian_matches by done. destruct (cartesian alts) eqn:E; [|done].
    by apply elem_of_nil in Hin.
Qed.

(** *** A log that passes has a combination that matches *)

Lemma filter_topics_sound log l out : (forall c, c ∈ l -> c <> []) ->
  filter_topics_loop log (Array <$> l) out = Some true ->
  (l = [] /\ out = true) \/ exists c, c ∈ l /\ combo_matches c (topics log) = true.
Proof.
  intros Hl. revert out. induction l as [|c l IH]; intros out; cbn [fmap list_fmap].
  { intros [= ->]. by left. }
  rewrite filter_topics_turn by (apply Hl, list_elem_of_here). cbv zeta.
  specialize (IH (fun c' H => Hl c' (list_elem_of_further _ _ _ H))).
  destruct (Nat.ltb_spec (length (topics log)) (length (pop_wildcards (length c) c))); [done|].
  destruct (Nat.eqb_spec (length (pop_wildcards (length c) c)) 0) as [E0|E0].
  - intros _. right. exists c. split; [apply list_elem_of_here|]. by apply combo_all_wildcards.
  - destruct (combo_matches c (topics log)) eqn:Em.
    + intros _. right. exists c. split; [apply list_elem_of_here|done].
    + intros Hrest. destruct (IH _ Hrest) as [[_ ?]|(c' & Hc' & Hm)]; [done|]. right. exists c'.
      split; [by apply list_elem_of_further|done].
Qed.

Lemma filter_topics_safe log l out : (forall c, c ∈ l -> c <> []) ->
  is_Some (filter_topics_loop log (Array <$> l) out).
Proof.
  intros Hl. revert out. induction l as [|c l IH]; intros out; cbn [fmap list_fmap]; [done|].
  rewrite filter_topics_turn by (apply Hl, list_elem_of_here). cbv zeta.
  specialize (IH (fun c' H => Hl c' (list_elem_of_further _ _ _ H))).
  by repeat case_match.
Qed.

Lemma cartesian_combos_nonempty f c : length (f_topics f) = 4%nat ->
  c ∈ cartesian (alternatives <$> f_topics f) -> c <> [].
Proof.
  intros H4 Hc. apply elem_of_cartesian in Hc.
  - apply Forall2_length in Hc. rewrite length_fmap, H4 in Hc. by intros ->.
  - intros E. apply (f_equal length) in E. by rewrite length_fmap, H4 in E.
Qed.

Lemma combo_matches_elem c ts v : combo_matches c ts = true -> Some v ∈ c -> v ∈ ts.
Proof.
  revert ts. induction c as [|[w|] c IH]; intros ts Hm Hin; simpl in *.
  - by apply elem_of_nil in Hin.
  - destruct ts as [|t ts]; [done|]. apply andb_prop in Hm as [->%Z.eqb_eq Hm].
    apply elem_of_cons in Hin as [[= ->]|Hin]; [apply list_elem_of_here|].
    apply list_elem_of_further. by apply IH.
  - apply elem_of_cons in Hin as [?|Hin]; [done|]. specialize (IH _ Hm Hin). destruct ts; [done|]. by apply list_elem_of_further.
Qed.

#[local] Opaque bloom_from_input.

Section BloomTests.
Context (keccak256 : bytes -> Z).

Lemma topic_bloom_total t : is_Some (topic_bloom keccak256 t).
Proof.
  destruct t as [t|]; simpl; [|done]. destruct (bloom_from_raw keccak256 (topic_bytes t)) as (b & -> & _). done.
Qed.

Lemma address_bloom_total a : is_Some (address_bloom keccak256 a).
Proof. unfold address_bloom. destruct (bloom_from_raw keccak256 (address_bytes a)) as (b & -> & _). done. Qed.

Lemma push_all_total {A} (f : A -> option (option Bloom)) l :
  (forall a, is_Some (f a)) -> is_Some (push_all (f <$> l)).
Proof.
  intros Hf. induction l as [|a l [bs IH]]; [done|]. rewrite fmap_cons. cbn [push_all].
  destruct (Hf a) as [b ->]. cbn [mbind option_bind]. by rewrite IH.
Qed.

Lemma push_all_Forall2 {A} (f : A -> option (option Bloom)) l bs :
  push_all (f <$> l) = Some bs -> Forall2 (fun a b => f a = Some b) l bs.
Proof.
  revert bs. induction l as [|a l IH]; intros bs H; [simpl in H; simplify_eq; by constructor|].
  rewrite fmap_cons in H. cbn [push_all] in H.
  destruct (f a) as [b|] eqn:E; [|done]. cbn [mbind option_bind] in H.
  destruct (push_all (f <$> l)) as [bs'|]; simplify_eq/=. constructor; [done|]. by apply IH.
Qed.

Lemma topics_to_bloom_filter_total t : is_Some (topics_to_bloom_filter keccak256 t).
Proof.
  destruct t as [t|[|t l]]; simpl; [|done|].
  - destruct (topic_bloom_total t) as [b ->]. done.
  - apply (push_all_total (topic_bloom keccak256) (t :: l)), topic_bloom_total.
Qed.

Lemma address_filter_total a : is_Some (address_filter keccak256 a).
Proof.
  destruct a as [[a|[|a l]]|]; simpl; [|done| |done].
  - destruct (address_bloom_total a) as [b ->]. done.
  - apply (push_all_total (address_bloom keccak256) (a :: l)), address_bloom_total.
Qed.

Lemma topics_filter_total t : is_Some (topics_filter keccak256 t).
Proof.
  destruct t as [l|]; simpl; [|done]. induction l as [|t l [bs IH]]; simpl; [done|].
  destruct (topics_to_bloom_filter_total t) as [b ->]. simpl. by rewrite IH.
Qed.

Lemma topics_filters_elem l tf t : topics_filters keccak256 l = Some tf -> t ∈ l ->
  exists bf, topics_to_bloom_filter keccak256 t = Some bf /\ bf ∈ tf.
Proof.
  revert tf. induction l as [|t' l IH]; intros tf H Hin; [by apply elem_of_nil in Hin|]. simpl in H.
  destruct (topics_to_bloom_filter keccak256 t') as [b|] eqn:E; [|done]. simpl in H.
  destruct (topics_filters keccak256 l) as [bs|]; simplify_eq/=.
  apply elem_of_cons in Hin as [->|Hin].
  - exists b. split; [done|apply list_elem_of_here].
  - destruct (IH bs eq_refl Hin) as (bf & Hbf & ?). exists bf. split; [done|by apply list_elem_of_further].
Qed.

(** The two bloom tests as conditions on the lists. *)
Lemma matches_topics_exists bloom tf bf :
  bf ∈ tf -> bf <> [] -> (forall b, Some b ∈ bf -> contains_bloom bloom b = true) ->
  matches_topics bloom tf = true.
Proof.
  intros Hin Hne Hb.
  assert (filter_is_match bloom bf false = true) as Hm.
  { assert (forall bf', (forall b, Some b ∈ bf' -> contains_bloom bloom b = true) ->
      filter_is_match bloom bf' true = true) as Hall.
    { induction bf' as [|o bf' IH]; intros H; simpl; [done|].
      assert (maybe_contains bloom o = true) as ->.
      { destruct o as [b|]; simpl; [|done]. apply H, list_elem_of_here. }
      simpl. apply IH. intros b' Hb'. apply H. by apply list_elem_of_further. }
    destruct bf as [|o bf]; [done|]. exact (Hall (o :: bf) Hb). }
  enough (matches_topics_loop bloom tf = true) as H by (unfold matches_topics; by destruct tf).
  clear Hne Hb. induction tf as [|b l IH]; [by apply elem_of_nil in Hin|].
  simpl. destruct (filter_is_match bloom b false) eqn:E; [done|].
  apply elem_of_cons in Hin as [->|Hin]; [congruence|]. by apply IH.
Qed.

Lemma matches_address_exists bloom bf o :
  o ∈ bf -> maybe_contains bloom o = true -> matches_address bloom bf = true.
Proof.
  intros Hin Hm. enough (matches_address_loop bloom bf = true) as H by (unfold matches_address; by destruct bf).
  induction bf as [|b l IH]; [by apply elem_of_nil in Hin|].
  simpl. destruct (maybe_contains bloom b) eqn:E; [done|].
  apply elem_of_cons in Hin as [->|Hin]; [congruence|]. by apply IH.
Qed.

(** No false negatives: a bloom that covers a log passes the tests of every filter
    the log passes. *)
Context (ls : list Log) (bloom : Bloom) (Hbloom : calc_logs_bloom keccak256 ls = Some bloom).

Lemma bloom_covers_topics f log tf : length (f_topics f) = 4%nat -> log ∈ ls ->
  filter_topics (FilteredParams_new (Some f)) log = Some true ->
  topics_filter keccak256 (Some (flatten f)) = Some tf -> matches_topics bloom tf = true.
Proof.
  intros H4 Hlog Hf Htf. unfold filter_topics, FilteredParams_new in Hf. cbn [flat_topics] in Hf.
  unfold flatten in *. set (combos := cartesian _) in *.
  assert (forall c, c ∈ combos -> c <> []) as Hne by (intros c; by apply cartesian_combos_nonempty).
  destruct (filter_topics_sound log combos true Hne Hf) as [[E _]|(c & Hc & Hm)].
  { rewrite E in Htf. simpl in Htf. by simplify_eq. }
  simpl in Htf. destruct (topics_filters_elem _ _ (Array c) Htf) as (bf & Hbf & Hin).
  { apply list_elem_of_fmap. eauto. }
  specialize (Hne c Hc). destruct c as [|a c]; [done|]. simpl topics_to_bloom_filter in Hbf.
  apply (push_all_Forall2 (topic_bloom keccak256) (a :: c)) in Hbf.
  apply (matches_topics_exists bloom tf bf Hin).
  { intros ->. by apply Forall2_nil_inv_r in Hbf. }
  intros b Hb. apply list_elem_of_lookup in Hb as [i Hi].
  destruct (Forall2_lookup_r _ _ _ _ _ Hbf Hi) as (o & Ho & Eo). destruct o as [v|]; simpl in Eo; [|done].
  destruct (bloom_from_input keccak256 (Raw (topic_bytes v))) as [b'|] eqn:Eb; simplify_eq/=.
  apply (calc_logs_bloom_contains keccak256 ls bloom log (topic_bytes v)); try done.
  apply list_elem_of_further, list_elem_of_fmap. exists v. split; [done|].
  apply (combo_matches_elem (a :: c)); [done|]. by eapply list_elem_of_lookup_2.
Qed.

Lemma bloom_covers_address f log af : log ∈ ls ->
  filter_address (FilteredParams_new (Some f)) log = true ->
  address_filter keccak256 (f_address f) = Some af -> matches_address bloom af = true.
Proof.
  intros Hlog Hf Haf. unfold filter_address, FilteredParams_new in Hf. cbn in Hf.
  assert (forall b, bloom_from_input keccak256 (Raw (address_bytes (log_address log))) = Some b ->
            contains_bloom bloom b = true) as Hc.
  { intros b. apply (calc_logs_bloom_contains keccak256 ls bloom log _); [done..|]. apply list_elem_of_here. }
  assert (forall l, l <> [] -> log_address log ∈ l -> push_all (address_bloom keccak256 <$> l) = Some af ->
            matches_address bloom af = true) as Harr.
  { intros l _ Hin H. apply push_all_Forall2 in H. apply list_elem_of_lookup in Hin as [i Hi].
    destruct (Forall2_lookup_l _ _ _ _ _ H Hi) as (o & Ho & Eo). unfold address_bloom in Eo.
    destruct (bloom_from_input _ _) as [b|] eqn:Eb; simplify_eq/=.
    apply (matches_address_exists bloom af (Some b)); [by eapply list_elem_of_lookup_2|by apply Hc]. }
  destruct (f_address f) as [[a|[|a l]]|]; simpl in *; simplify_eq; try done.
  - apply Z.eqb_eq in Hf as <-. apply (Harr [log_address log]); [done|by apply list_elem_of_singleton|].
    simpl. destruct (address_bloom keccak256 _); simplify_eq/=. done.
  - apply (Harr (a :: l)); [done| |exact Haf].
    apply (proj1 (existsb_exists (fun x => x =? log_address log) (a :: l))) in Hf as (x & Hx & <-%Z.eqb_eq).
    by apply list_elem_of_In.
Qed.
End BloomTests.
