(* ===== verification/FilterJson.v ===== *)
(** * The JSON form of log filters

    [Serialize] and [Deserialize] of crates/primitives/src/filter.rs.  The textual form
    of hashes, addresses and block numbers is a parameter. *)
From Stdlib Require HexString.
From S2P Require Import Prelude Bytes Bloom Filter.

#[local] Set Warnings "-register-all".

Inductive json :=
| JNull
| JBool (b : bool)
| JNumber (n : Z)
| JString (s : string)
| JArray (l : list json)
| JObject (fields : list (string * json)).

(** The textual form of a hash, an address or a block number. *)
Record JsonCodec (T : Type) := mkJsonCodec { to_json : T -> json; from_json : json -> option T }.
Arguments to_json {T} _ _.
Arguments from_json {T} _ _.

(** serde's [Option] and [Vec]; [None] is a refused value. *)
Definition option_to_json {T} (to : T -> json) (o : option T) : json :=
  match o with Some t => to t | None => JNull end.
Definition option_from_json {T} (from : json -> option T) (j : json) : option (option T) :=
  match j with JNull => Some None | _ => Some <$> from j end.
Definition vec_from_json {T} (from : json -> option T) (j : json) : option (list T) :=
  match j with JArray l => mapM from l | _ => None end.

(** [Serialize] and [Deserialize] of [ValueOrArray]; the untagged enumeration tries
    a value first. *)
Definition value_or_array_to_json {T} (to : T -> json) (v : ValueOrArray T) : json :=
  match v with Value inner => to inner | Array inner => JArray (to <$> inner) end.
Definition value_or_array_from_json {T} (from : json -> option T) (value : json) : option (ValueOrArray T) :=
  match value with
  | JNull => Some (Array [])
  | _ => match from value with
         | Some val => Some (Value val)
         | None => Array <$> vec_from_json from value
         end
  end.

Inductive FilterJsonError :=
| InvalidValue
| DuplicateField (f : string)
| UnknownField (f : string)
| BlockAndHash
| ExceededTopicsLen.

Section Json.
Context (hash_json address_json : JsonCodec Z) (number_json : JsonCodec BlockNumber).

Definition topic_to_json (t : Topic) : json := value_or_array_to_json (option_to_json (to_json hash_json)) t.
Definition topic_from_json (j : json) : option Topic :=
  value_or_array_from_json (option_from_json (from_json hash_json)) j.

(** The loop over the four positions: trailing empty positions are left out. *)
Fixpoint filtered_topics (ts : list (option Topic)) : list (option Topic) :=
  match ts with
  | [] => []
  | Some t :: ts => Some t :: filtered_topics ts
  | None :: ts =>
      if existsb (fun x => bool_decide (is_Some x)) ts then None :: filtered_topics ts else filtered_topics ts
  end.

Definition field {T} (name : string) (to : T -> json) (o : option T) : list (string * json) :=
  match o with Some t => [(name, to t)] | None => [] end.

Definition Filter_serialize (f : Filter) : json :=
  JObject
    (match block_option f with
     | Range from_block to_block =>
         field "fromBlock" (to_json number_json) from_block ++ field "toBlock" (to_json number_json) to_block
     | AtBlockHash h => [("blockHash"%string, to_json hash_json h)]
     end ++
     field "address" (value_or_array_to_json (to_json address_json)) (f_address f) ++
     [("topics"%string, JArray (option_to_json topic_to_json <$> filtered_topics (f_topics f)))]).

(** The variables of [visit_map]: a field that was met holds an optional value. *)
Record Fields := mkFields {
  v_from_block : option (option BlockNumber);
  v_to_block : option (option BlockNumber);
  v_block_hash : option (option Z);
  v_address : option (option (ValueOrArray Z));
  v_topics : option (option (list (option Topic)))
}.

(** [map.next_value()?] *)
Definition next_value {T} (from : json -> option T) (j : json) : outcome FilterJsonError (option T) :=
  match option_from_json from j with Some v => Ok v | None => Err InvalidValue end.

Definition met {T} (v : option T) : bool := bool_decide (is_Some v).

Definition visit_field (key : string) (value : json) (v : Fields) : outcome FilterJsonError Fields :=
  if String.eqb key "fromBlock" then
    if met (v_from_block v) then Err (DuplicateField "fromBlock")
    else if met (v_block_hash v) then Err BlockAndHash
    else x ← next_value (from_json number_json) value;
         Ok (mkFields (Some x) (v_to_block v) (v_block_hash v) (v_address v) (v_topics v))
  else if String.eqb key "toBlock" then
    if met (v_to_block v) then Err (DuplicateField "toBlock")
    else if met (v_block_hash v) then Err BlockAndHash
    else x ← next_value (from_json number_json) value;
         Ok (mkFields (v_from_block v) (Some x) (v_block_hash v) (v_address v) (v_topics v))
  else if String.eqb key "blockHash" then
    if met (v_block_hash v) then Err (DuplicateField "blockHash")
    else if met (v_from_block v) || met (v_to_block v) then Err BlockAndHash
    else x ← next_value (from_json hash_json) value;
         Ok (mkFields (v_from_block v) (v_to_block v) (Some x) (v_address v) (v_topics v))
  else if String.eqb key "address" then
    if met (v_address v) then Err (DuplicateField "address")
    else x ← next_value (value_or_array_from_json (from_json address_json)) value;
         Ok (mkFields (v_from_block v) (v_to_block v) (v_block_hash v) (Some x) (v_topics v))
  else if String.eqb key "topics" then
    if met (v_topics v) then Err (DuplicateField "topics")
    else x ← next_value (vec_from_json (option_from_json topic_from_json)) value;
         Ok (mkFields (v_from_block v) (v_to_block v) (v_block_hash v) (v_address v) (Some x))
  else Err (UnknownField key).

Fixpoint visit_map (fields : list (string * json)) (v : Fields) : outcome FilterJsonError Fields :=
  match fields with
  | [] => Ok v
  | (key, value) :: fields => v ← visit_field key value v; visit_map fields v
  end.

(** [for (idx, topic) in topics_vec.into_iter().enumerate() { topics[idx] = topic; }] *)
Fixpoint assign_topics (idx : nat) (topics_vec topics : list (option Topic)) : list (option Topic) :=
  match topics_vec with
  | [] => topics
  | topic :: topics_vec => assign_topics (S idx) topics_vec (<[idx := topic]> topics)
  end.

Definition Filter_deserialize (j : json) : outcome FilterJsonError Filter :=
  match j with
  | JObject fields =>
      v ← visit_map fields (mkFields None None None None None);
      let topics_vec := default [] (mjoin (v_topics v)) in
      if 4 <? zlen topics_vec then Err ExceededTopicsLen
      else
        let topics := assign_topics 0 topics_vec [None; None; None; None] in
        let block_option := match mjoin (v_block_hash v) with
                            | Some block_hash => AtBlockHash block_hash
                            | None => Range (mjoin (v_from_block v)) (mjoin (v_to_block v))
                            end in
        Ok (mkFilter block_option (mjoin (v_address v)) topics)
  | _ => Err InvalidValue
  end.
End Json.


(** ** The JSON form *)

(** A codec of strings: neither [null] nor an array is one of its values. *)
Class StringCodecOk {T} (c : JsonCodec T) : Prop := {
  string_codec_rt t : from_json c (to_json c t) = Some t;
  string_codec_string t : exists s, to_json c t = JString s;
  string_codec_array l : from_json c (JArray l) = None
}.

Section JsonProofs.
Context (hash_json address_json : JsonCodec Z) (number_json : JsonCodec BlockNumber).
Context `{!StringCodecOk hash_json, !StringCodecOk address_json, !StringCodecOk number_json}.

(** A position that holds the value [null] is read back as an empty position. *)
Definition canonical_topic (t : option Topic) : option Topic :=
  match t with Some (Value None) => None | _ => t end.
Definition canonical_filter (f : Filter) : Filter :=
  mkFilter (block_option f) (f_address f) (canonical_topic <$> f_topics f).

Lemma option_from_json_some {T} (from : json -> option T) j : j <> JNull ->
  option_from_json from j = Some <$> from j.
Proof. by destruct j. Qed.

Lemma option_string_rt {T} (c : JsonCodec T) `{!StringCodecOk c} o :
  option_from_json (from_json c) (option_to_json (to_json c) o) = Some o.
Proof.
  destruct o as [t|]; [|done]. simpl. destruct (string_codec_string t) as [s Hs].
  pose proof (string_codec_rt t) as Hrt. rewrite Hs in *. simpl. by rewrite Hrt.
Qed.

Lemma mapM_rt {A} (to : A -> json) (from : json -> option A) (g : A -> A) l :
  (forall a, from (to a) = Some (g a)) -> mapM from (to <$> l) = Some (g <$> l).
Proof. intros H. induction l as [|a l IH]; [done|]. cbn. by rewrite H, IH. Qed.

Lemma topic_rt t : t <> Value None -> topic_from_json hash_json (topic_to_json hash_json t) = Some t.
Proof.
  intros Ht. unfold topic_from_json, topic_to_json, value_or_array_to_json, value_or_array_from_json.
  destruct t as [[v|]|l]; [| |]; [|done|].
  - simpl. destruct (string_codec_string (c := hash_json) v) as [s Hs].
    pose proof (string_codec_rt (c := hash_json) v) as Hrt. rewrite Hs in *. simpl. by rewrite Hrt.
  - simpl. rewrite string_codec_array. simpl. by rewrite (mapM_rt _ _ id l (option_string_rt hash_json)), list_fmap_id.
Qed.

Lemma option_topic_rt t :
  option_from_json (topic_from_json hash_json) (option_to_json (topic_to_json hash_json) t) =
  Some (canonical_topic t).
Proof.
  destruct t as [t|]; [|done]. cbn [option_to_json]. destruct t as [[v|]|l]; [|done|].
  - rewrite option_from_json_some by (by destruct (string_codec_string (c := hash_json) v) as [s Hs]; cbn; rewrite Hs).
    by rewrite topic_rt.
  - rewrite option_from_json_some by done. by rewrite topic_rt.
Qed.

Lemma next_value_string {T} (c : JsonCodec T) `{!StringCodecOk c} t :
  next_value (from_json c) (to_json c t) = Ok (Some t).
Proof. unfold next_value. pose proof (option_string_rt c (Some t)) as H. cbn [option_to_json] in H. by rewrite H. Qed.

Lemma next_value_address a :
  next_value (value_or_array_from_json (from_json address_json))
    (value_or_array_to_json (to_json address_json) a) = Ok (Some a).
Proof.
  unfold next_value, value_or_array_from_json. destruct a as [a|l]; simpl.
  - destruct (string_codec_string (c := address_json) a) as [s Hs].
    pose proof (string_codec_rt (c := address_json) a) as Hrt. rewrite Hs in *. simpl. by rewrite Hrt.
  - rewrite string_codec_array. simpl. by rewrite (mapM_rt _ _ id l string_codec_rt), list_fmap_id.
Qed.

Lemma next_value_topics ts :
  next_value (vec_from_json (option_from_json (topic_from_json hash_json)))
    (JArray (option_to_json (topic_to_json hash_json) <$> ts)) = Ok (Some (canonical_topic <$> ts)).
Proof. unfold next_value. simpl. by rewrite (mapM_rt _ _ canonical_topic ts option_topic_rt). Qed.

Lemma assign_filtered_topics ts : length ts = 4%nat ->
  (length (filtered_topics ts) <= 4)%nat /\
  assign_topics 0 (canonical_topic <$> filtered_topics ts) [None; None; None; None] = canonical_topic <$> ts.
Proof.
  destruct ts as [|t0 [|t1 [|t2 [|t3 [|]]]]]; try done. intros _.
  destruct t0, t1, t2, t3; simpl; (split; [lia|done]).
Qed.

(** An explicit [null] and an empty position flatten to the same wildcard. *)
Lemma canonical_flatten f : flatten (canonical_filter f) = flatten f.
Proof.
  unfold flatten, canonical_filter. cbn [f_topics]. do 2 f_equal. rewrite <- list_fmap_compose. apply list_fmap_ext.
  by intros _ [[[v|]|l]|] _.
Qed.

(** The test of a header's bloom before its receipts are read. *)
Definition bloom_accepts (keccak256 : bytes -> Z) (f : Filter) (bloom : Bloom) : option bool :=
  tf ← topics_filter keccak256 (if has_topics f then Some (flat_topics (FilteredParams_new (Some f))) else None);
  af ← address_filter keccak256 (f_address f);
  Some (matches_topics bloom tf && matches_address bloom af).

Lemma canonical_bloom keccak256 f bloom : length (f_topics f) = 4%nat ->
  bloom_accepts keccak256 (canonical_filter f) bloom = bloom_accepts keccak256 f bloom.
Proof.
  intros H4. unfold bloom_accepts. cbn [FilteredParams_new flat_topics]. rewrite canonical_flatten.
  change (f_address (canonical_filter f)) with (f_address f). unfold has_topics, flatten. cbn [canonical_filter f_topics].
  destruct (f_topics f) as [|t0 [|t1 [|t2 [|t3 [|] ] ] ] ]; try done.
  destruct t0 as [[[]|]|], t1 as [[[]|]|], t2 as [[[]|]|], t3 as [[[]|]|]; try reflexivity.
Qed.

Lemma read_back f : length (f_topics f) = 4%nat ->
  Filter_deserialize hash_json address_json number_json
    (Filter_serialize hash_json address_json number_json f) = Ok (canonical_filter f).
Proof.
  intros H4. destruct (assign_filtered_topics _ H4) as [Hlen Has].
  destruct f as [[[fb|] [tb|]|h] [a|] ts]; cbn [f_topics block_option f_address] in *;
    unfold Filter_deserialize, Filter_serialize, visit_map, visit_field, canonical_filter; cbn -[next_value to_json zlen Z.ltb];
    repeat (rewrite ?next_value_string, ?next_value_address, ?next_value_topics by done; cbn -[next_value to_json zlen Z.ltb]);
    rewrite length_fmap; destruct (Z.ltb_spec 4 (zlen (filtered_topics ts))); try lia; by rewrite Has.
Qed.

(** C35. The JSON form of a filter with four topic positions is read back as a filter
    that accepts the same logs, addresses, blocks and blooms: the block option and the
    addresses are those that were written, and so are the topics, except that a
    position that holds the explicit value [null] becomes an empty one.  Without such a
    position the filter itself comes back. *)
Theorem filter_json_roundtrip f : length (f_topics f) = 4%nat ->
  exists g, Filter_deserialize hash_json address_json number_json
      (Filter_serialize hash_json address_json number_json f) = Ok g /\
    (Some (Value None) ∉ f_topics f -> g = f) /\
    let p := FilteredParams_new (Some f) in
    let q := FilteredParams_new (Some g) in
    (forall log, filter_topics q log = filter_topics p log /\ filter_address q log = filter_address p log) /\
    (forall n, filter_block_range q n = filter_block_range p n) /\ (forall h, filter_block_hash q h = filter_block_hash p h) /\
    (forall keccak256 bloom, bloom_accepts keccak256 g bloom = bloom_accepts keccak256 f bloom).
Proof.
  intros H4. exists (canonical_filter f). split; [by apply read_back|]. split.
  - intros Hn. destruct f as [o a ts]. unfold canonical_filter. cbn in *. f_equal. clear H4.
    induction ts as [|t ts IH]; [done|]. apply not_elem_of_cons in Hn as [Ht Hn]. cbn. rewrite IH by done.
    by destruct t as [[[v|]|l]|].
  - cbv zeta. assert (Hf : flat_topics (FilteredParams_new (Some (canonical_filter f))) = flat_topics (FilteredParams_new (Some f)))
      by (cbn; apply canonical_flatten).
    split_and!; [|done|done|intros; by apply canonical_bloom]. intros log. unfold filter_topics. by rewrite Hf.
Qed.
End JsonProofs.

(** ** An instance: numbers in hexadecimal *)
Module SampleJson.
Definition hex_json : JsonCodec Z :=
  mkJsonCodec _ (fun z => JString (HexString.of_Z z))
    (fun j => match j with JString s => Some (HexString.to_Z s) | _ => None end).

Definition number_json : JsonCodec BlockNumber :=
  mkJsonCodec _
    (fun b => JString (match b with
                       | Latest => "latest" | Finalized => "finalized" | Safe => "safe"
                       | Earliest => "earliest" | Pending => "pending" | Number n => HexString.of_Z n
                       end))
    (fun j => match j with
              | JString s =>
                  Some (if String.eqb s "latest" then Latest else if String.eqb s "finalized" then Finalized
                        else if String.eqb s "safe" then Safe else if String.eqb s "earliest" then Earliest
                        else if String.eqb s "pending" then Pending else Number (HexString.to_Z s))
              | _ => None
              end).

Lemma hex_json_ok : StringCodecOk hex_json.
Proof. split; simpl; [intros t; by rewrite HexString.to_Z_of_Z|eauto|done]. Qed.

Lemma number_json_ok : StringCodecOk number_json.
Proof.
  split; simpl; [|eauto|done]. intros [| | | | |n]; simpl; try done.
  rewrite HexString.to_Z_of_Z. by destruct n.
Qed.

(** A filter with empty positions before, between and after its topics. *)
Definition sample_filter : Filter :=
  mkFilter (Range (Some (Number 1337)) (Some Latest)) (Some (Array [1; 2]))
    [None; Some (Array [Some 7; None]); Some (Value None); None].

Lemma filter_json_roundtrip_witness : exists g,
  Filter_deserialize hex_json hex_json number_json (Filter_serialize hex_json hex_json number_json sample_filter) = Ok g /\
  forall log, filter_topics (FilteredParams_new (Some g)) log = filter_topics (FilteredParams_new (Some sample_filter)) log.
Proof.
  destruct (filter_json_roundtrip hex_json hex_json number_json (StringCodecOk0 := hex_json_ok)
           (StringCodecOk1 := hex_json_ok) (StringCodecOk2 := number_json_ok) sample_filter eq_refl) as (g & E & _ & Hl & _).
  exists g. split; [exact E|]. intros log. apply Hl.
Defined.

(** The filter that comes back. *)
Example sample_read_back :
  Filter_deserialize hex_json hex_json number_json (Filter_serialize hex_json hex_json number_json sample_filter)
  = Ok (mkFilter (Range (Some (Number 1337)) (Some Latest)) (Some (Array [1; 2]))
          [None; Some (Array [Some 7; None]); None; None]).
Proof. by vm_compute. Qed.
End SampleJson.
