(* ===== verification/LogFilter.v ===== *)
(** * Log queries and installed filters of the RPC server

    crates/rpc/rpc/src/eth/filter.rs, logs_utils.rs and crates/primitives/src/chain/info.rs:
    scanning a range of blocks for the logs a filter accepts, and polling an
    installed filter.  The provider the server reads from is the record [Client]. *)
From S2P Require Import Prelude Bytes Primitives SubState Bloom Filter.

Record ChainInfo := mkChainInfo {
  best_hash : Z; best_number : Z; last_finalized : option Z; safe_finalized : option Z
}.

Definition convert_block_number (i : ChainInfo) (number : BlockNumber) : option Z :=
  match number with
  | Finalized => last_finalized i
  | Safe => safe_finalized i
  | Earliest => Some 0
  | Number num => Some num
  | Pending => None
  | Latest => Some (best_number i)
  end.

(** [reth_rpc_types::Log]; the positions are always set here. *)
Record RpcLog := mkRpcLog {
  rl_address : Z; rl_topics : list Z; rl_data : bytes;
  rl_block_hash : Z; rl_block_number : Z; rl_transaction_hash : Z;
  rl_transaction_index : Z; rl_log_index : Z; rl_transaction_log_index : Z; removed : bool
}.

(** ** logs_utils.rs *)

(** [None] is a panic of [filter_topics]; the tests are made in the order of the
    source and stop at the first that fails. *)
Definition log_matches_filter (block_hash block_number : Z) (log : Log) (params : FilteredParams)
    : option bool :=
  match fp_filter params with
  | None => Some true
  | Some _ =>
      if negb (filter_block_range params block_number) then Some false
      else if negb (filter_block_hash params block_hash) then Some false
      else if negb (filter_address params log) then Some false
      else filter_topics params log
  end.

(** The inner loop, over the logs of one receipt. *)
Fixpoint append_receipt_logs (filter : FilteredParams) (block_hash block_number transaction_idx transaction_hash : Z)
    (transaction_log_idx : Z) (ls : list Log) (log_index : Z) (all_logs : list RpcLog)
    : option (list RpcLog * Z) :=
  match ls with
  | [] => Some (all_logs, log_index)
  | log :: ls =>
      m ← log_matches_filter block_hash block_number log filter;
      let all_logs :=
        if (m : bool) then
          all_logs ++ [mkRpcLog (log_address log) (topics log) (data log) block_hash block_number
                         transaction_hash transaction_idx log_index transaction_log_idx false]
        else all_logs in
      append_receipt_logs filter block_hash block_number transaction_idx transaction_hash
        (transaction_log_idx + 1) ls (wadd 32 log_index 1) all_logs
  end.

Fixpoint append_block_logs (filter : FilteredParams) (block_hash block_number transaction_idx : Z)
    (tx_and_receipts : list (Z * Receipt)) (log_index : Z) (all_logs : list RpcLog) : option (list RpcLog) :=
  match tx_and_receipts with
  | [] => Some all_logs
  | (transaction_hash, receipt) :: tx_and_receipts =>
      '(all_logs, log_index) ←
        append_receipt_logs filter block_hash block_number transaction_idx transaction_hash 0
          (logs receipt) log_index all_logs;
      append_block_logs filter block_hash block_number (transaction_idx + 1) tx_and_receipts log_index all_logs
  end.

Definition append_matching_block_logs (all_logs : list RpcLog) (filter : FilteredParams)
    (block_hash block_number : Z) (tx_and_receipts : list (Z * Receipt)) : option (list RpcLog) :=
  append_block_logs filter block_hash block_number 0 tx_and_receipts 0 all_logs.

Definition matching_block_logs (filter : FilteredParams) (block_hash block_number : Z)
    (tx_and_receipts : list (Z * Receipt)) : option (list RpcLog) :=
  append_matching_block_logs [] filter block_hash block_number tx_and_receipts.

(** ** filter.rs *)

Inductive FilterId := Num (n : Z) | Str (s : string).
#[global] Instance FilterId_eq_dec : EqDecision FilterId.
Proof. solve_decision. Defined.
#[global] Instance FilterId_countable : Countable FilterId.
Proof.
  apply (inj_countable' (fun i => match i with Num n => inl n | Str s => inr s end)
                        (fun i => match i with inl n => Num n | inr s => Str s end)). by intros [].
Defined.

Inductive RpcError :=
| FilterNotFound (id : FilterId)
| QueryExceedsMaxResults (max : Z)
| UnknownBlockNumber
| InternalRpcErr.

Inductive FilterKind := LogKind (f : Filter) | BlockKind | PendingTransactionKind.

Record ActiveFilter := mkActiveFilter { af_block : Z; last_poll_timestamp : Z; af_kind : FilterKind }.

Inductive FilterChanges := LogChanges (l : list RpcLog) | HashChanges (l : list Z) | EmptyChanges.

(** A block as the provider returns it. *)
Record RpcBlock := mkRpcBlock { rb_header : Header; rb_body : list TransactionSigned }.

Record Client := mkClient {
  chain_info : outcome RpcError ChainInfo;
  client_block_hash : Z -> outcome RpcError (option Z);
  block_by_number : Z -> outcome RpcError (option RpcBlock);
  receipts_by_block : Z -> outcome RpcError (option (list Receipt))
}.

Definition DEFAULT_MAX_LOGS_IN_RESPONSE : Z := 2000.

Definition or_panic {E A} (o : option A) : outcome E A := match o with Some a => Ok a | None => Panic end.

Section Server.
Context (keccak256 : bytes -> Z) (hash_slow : Header -> Z) (max_logs_in_response : Z).

(** The loop [for block_number in from_block..=to_block]. *)
Fixpoint filter_logs_loop (client : Client) (filter_params : FilteredParams) (address_filter : BloomFilter)
    (topics_filter : list BloomFilter) (numbers : list Z) (all_logs : list RpcLog)
    : outcome RpcError (list RpcLog) :=
  match numbers with
  | [] => Ok all_logs
  | block_number :: numbers =>
      o ← block_by_number client block_number;
      all_logs ←
        match o with
        | Some block =>
            let bloom := bloom_of_value (logs_bloom (rb_header block)) in
            if matches_address bloom address_filter && matches_topics bloom topics_filter then
              r ← receipts_by_block client (number (rb_header block));
              match r with
              | Some receipts =>
                  all_logs ← or_panic
                    (append_matching_block_logs all_logs filter_params (hash_slow (rb_header block)) block_number
                       (zip (ts_hash <$> rb_body block) receipts));
                  if max_logs_in_response <? zlen all_logs
                  then Err (QueryExceedsMaxResults max_logs_in_response) else Ok all_logs
              | None => Ok all_logs
              end
            else Ok all_logs
        | None => Ok all_logs
        end;
      filter_logs_loop client filter_params address_filter topics_filter numbers all_logs
  end.

(** [from..=to] *)
Definition range_inclusive (from to : Z) : list Z := seqZ from (to - from + 1).

Definition filter_logs (client : Client) (f : Filter) (from_block to_block : Z)
    : outcome RpcError (list RpcLog) :=
  let filter_params := FilteredParams_new (Some f) in
  let topics := if has_topics f then Some (flat_topics filter_params) else None in
  address_filter ← or_panic (address_filter keccak256 (f_address f));
  topics_filter ← or_panic (topics_filter keccak256 topics);
  filter_logs_loop client filter_params address_filter topics_filter (range_inclusive from_block to_block) [].

Abbreviation ActiveFilters := (gmap FilterId ActiveFilter).

(** The identifier comes from the id provider, [now] from the clock. *)
Definition install_filter (client : Client) (id : FilterId) (now : Z) (kind : FilterKind)
    : st ActiveFilters RpcError FilterId :=
  info ← st_lift (chain_info client);
  filters ← st_get;
  _ ← st_put (<[id := mkActiveFilter (best_number info) now kind]> filters);
  mret id.

Definition new_filter (client : Client) (id : FilterId) (now : Z) (f : Filter) : st ActiveFilters RpcError FilterId :=
  install_filter client id now (LogKind f).
Definition new_block_filter (client : Client) (id : FilterId) (now : Z) : st ActiveFilters RpcError FilterId :=
  install_filter client id now BlockKind.
Definition new_pending_transaction_filter (client : Client) (id : FilterId) (now : Z)
    : st ActiveFilters RpcError FilterId :=
  install_filter client id now PendingTransactionKind.

(** The loop that collects the hashes of new blocks. *)
Fixpoint block_hashes_loop (client : Client) (numbers : list Z) (block_hashes : list Z)
    : outcome RpcError (list Z) :=
  match numbers with
  | [] => Ok block_hashes
  | block_num :: numbers =>
      o ← client_block_hash client block_num;
      match o with
      | None => Err UnknownBlockNumber
      | Some block_hash => block_hashes_loop client numbers (block_hashes ++ [block_hash])
      end
  end.

(** The block range of a log filter at a poll. *)
Definition poll_range (info : ChainInfo) (start_block : Z) (o : FilterBlockOption) : Z * Z :=
  match o with
  | Range from_block to_block =>
      (match from_block ≫= convert_block_number info with
       | Some filter_from_block => Z.max start_block filter_from_block
       | None => start_block
       end,
       match to_block ≫= convert_block_number info with
       | Some filter_to_block => if best_number info <? filter_to_block then best_number info else filter_to_block
       | None => best_number info
       end)
  | AtBlockHash _ => (start_block, best_number info)
  end.

Definition filter_changes (client : Client) (now : Z) (id : FilterId) : st ActiveFilters RpcError FilterChanges :=
  info ← st_lift (chain_info client);
  let best := best_number info in
  filters ← st_get;
  match filters !! id with
  | None => st_throw (FilterNotFound id)
  | Some filter =>
      let start_block := af_block filter in
      let kind := af_kind filter in
      _ ← st_put (<[id := mkActiveFilter (wadd 64 best 1) now kind]> filters);
      match kind with
      | PendingTransactionKind => st_throw InternalRpcErr
      | BlockKind =>
          block_hashes ← st_lift (block_hashes_loop client (seqZ start_block (best - start_block)) []);
          mret (HashChanges block_hashes)
      | LogKind f =>
          let '(from_block_number, to_block_number) := poll_range info start_block (block_option f) in
          l ← st_lift (filter_logs client f from_block_number to_block_number);
          mret (LogChanges l)
      end
  end.

Definition uninstall_filter (id : FilterId) : st ActiveFilters RpcError bool :=
  filters ← st_get;
  match filters !! id with
  | Some _ => _ ← st_put (delete id filters); mret true
  | None => mret false
  end.
End Server.

(** ** What a query returns *)

(** All logs of a block with their positions. *)
Definition receipt_positions (ti : nat) (tx : Z * Receipt) : list (nat * Z * nat * Log) :=
  imap (fun li log => (ti, tx.1, li, log)) (logs tx.2).

Definition rpc_log (block_hash block_number : Z) (gi : nat) (p : nat * Z * nat * Log) : RpcLog :=
  let '(ti, th, li, log) := p in
  mkRpcLog (log_address log) (topics log) (data log) block_hash block_number th (Z.of_nat ti) (Z.of_nat gi)
    (Z.of_nat li) false.

Definition block_rpc_logs (block_hash block_number : Z) (txs : list (Z * Receipt)) : list RpcLog :=
  imap (rpc_log block_hash block_number) (concat (imap receipt_positions txs)).

(** What a filter means for a log of a block. *)
Definition block_option_accepts (o : FilterBlockOption) (block_hash block_number : Z) : bool :=
  match o with
  | Range from to =>
      match from with Some (Number a) => a <=? block_number | _ => true end &&
      match to with Some (Number b) => block_number <=? b | _ => true end
  | AtBlockHash h => h =? block_hash
  end.

Definition address_accepts (a : option (ValueOrArray Z)) (x : Z) : bool :=
  match a with
  | Some (Value y) => bool_decide (x = y)
  | Some (Array []) | None => true
  | Some (Array l) => bool_decide (x ∈ l)
  end.

Definition filter_accepts (f : Filter) (r : RpcLog) : bool :=
  block_option_accepts (block_option f) (rl_block_hash r) (rl_block_number r) &&
  address_accepts (f_address f) (rl_address r) &&
  topics_match (alternatives <$> f_topics f) (rl_topics r).

(** The source lets no block pass a filter up to the tag [earliest]. *)
Definition ok_filter (f : Filter) : Prop := wf_filter f /\ option_to_block (block_option f) <> Some Earliest.

Lemma filter_address_accepts f log :
  filter_address (FilteredParams_new (Some f)) log = address_accepts (f_address f) (log_address log).
Proof.
  unfold filter_address, address_accepts. cbn. destruct (f_address f) as [[y|l]|]; [..|done].
  - by destruct (Z.eqb_spec (log_address log) y), (bool_decide_reflect (log_address log = y)).
  - destruct l as [|y l]; [done|]. apply eq_true_iff_eq.
    rewrite (existsb_exists (fun a => a =? log_address log) (y :: l)), bool_decide_eq_true, list_elem_of_In. split.
    + by intros (x & Hx & <-%Z.eqb_eq).
    + intros Hx. exists (log_address log). by rewrite Z.eqb_refl.
Qed.

Lemma log_matches_filter_accepts f h n gi ti th li log : ok_filter f ->
  log_matches_filter h n log (FilteredParams_new (Some f)) =
  Some (filter_accepts f (rpc_log h n gi (ti, th, li, log))).
Proof.
  intros [Hwf Hto]. unfold log_matches_filter.
  change (fp_filter (FilteredParams_new (Some f))) with (Some f).
  unfold filter_accepts. cbn [rpc_log rl_block_hash rl_block_number rl_address rl_topics].
  rewrite filter_address_accepts, (filter_topics_wf f log Hwf).
  unfold filter_block_range, filter_block_hash, block_option_accepts, filter_hash. cbn.
  destruct (address_accepts (f_address f) (log_address log)), (block_option f) as [from to|h']; cbn in *.
  all: first [by destruct (h' =? h)|destruct from as [[]|], to as [[]|]; try done; cbn; zcase; try lia; done].
Qed.

Lemma imap_imap {A B C} (g : nat -> B -> C) (h : nat -> A -> B) l :
  imap g (imap h l) = imap (fun n x => g n (h n x)) l.
Proof.
  revert g h. induction l as [|x l IH]; intros g h; [done|]. rewrite !imap_cons. f_equal. apply IH.
Qed.

Section Query.
Context (f : Filter) (Hf : ok_filter f).

Abbreviation accepted l := (filter (fun r => filter_accepts f r = true) l).

Lemma append_receipt_logs_ok h n ti th ls li gi all_logs :
  Z.of_nat gi + zlen ls < 2 ^ 32 ->
  append_receipt_logs (FilteredParams_new (Some f)) h n (Z.of_nat ti) th (Z.of_nat li) ls (Z.of_nat gi) all_logs =
  Some (all_logs ++ accepted (imap (fun k log => rpc_log h n (gi + k) (ti, th, (li + k)%nat, log)) ls),
        Z.of_nat (gi + length ls)).
Proof.
  revert li gi all_logs. induction ls as [|log ls IH]; intros li gi all_logs Hr.
  { simpl. rewrite app_nil_r, Nat.add_0_r. done. }
  cbn [append_receipt_logs]. rewrite (log_matches_filter_accepts f h n gi ti th li log Hf). cbn [mbind option_bind].
  rewrite length_cons in Hr.
  rewrite wadd_small by (unfold in_u; lia).
  replace (Z.of_nat gi + 1) with (Z.of_nat (S gi)) by lia.
  replace (Z.of_nat li + 1) with (Z.of_nat (S li)) by lia. rewrite IH by lia.
  rewrite imap_cons, !Nat.add_0_r, filter_cons. unfold compose. rewrite length_cons.
  assert (forall k log0, rpc_log h n (gi + S k) (ti, th, (li + S k)%nat, log0)
                         = rpc_log h n (S gi + k) (ti, th, (S li + k)%nat, log0)) as E.
  { intros. by rewrite !Nat.add_succ_r. }
  rewrite (imap_ext (fun k log0 => rpc_log h n (gi + S k) (ti, th, (li + S k)%nat, log0))
             (fun k log0 => rpc_log h n (S gi + k) (ti, th, (S li + k)%nat, log0)) ls)
    by (intros; apply E).
  replace (S gi + length ls)%nat with (gi + S (length ls))%nat by lia.
  destruct (filter_accepts f _) eqn:Ea; simpl in Ea |- *.
  - by rewrite <- app_assoc.
  - done.
Qed.

Lemma append_block_logs_ok h n ti txs gi all_logs :
  Z.of_nat gi + zlen (concat (logs ∘ snd <$> txs)) < 2 ^ 32 ->
  append_block_logs (FilteredParams_new (Some f)) h n (Z.of_nat ti) txs (Z.of_nat gi) all_logs =
  Some (all_logs ++ accepted (imap (fun k => rpc_log h n (gi + k))
                                (concat (imap (fun k => receipt_positions (ti + k)) txs)))).
Proof.
  revert ti gi all_logs. induction txs as [|[th r] txs IH]; intros ti gi all_logs Hr.
  { simpl. by rewrite app_nil_r. }
  rewrite fmap_cons in Hr. cbn [concat compose snd] in Hr. rewrite length_app in Hr.
  cbn [append_block_logs]. rewrite (append_receipt_logs_ok h n ti th (logs r) 0 gi) by lia.
  cbn [mbind option_bind]. cbv beta iota.
  replace (Z.of_nat ti + 1) with (Z.of_nat (S ti)) by lia. rewrite IH by lia.
  rewrite imap_cons. cbn [concat]. rewrite imap_app, filter_app, app_assoc. f_equal. f_equal; [f_equal|].
  - unfold receipt_positions. cbn [fst snd]. rewrite Nat.add_0_r, imap_imap. done.
  - f_equal. rewrite (imap_ext ((fun k => receipt_positions (ti + k)) ∘ S) (fun k => receipt_positions (S ti + k)))
      by (intros i x _; unfold compose; by rewrite Nat.add_succ_r).
    apply imap_ext. intros i x _. unfold receipt_positions. rewrite length_imap.
    by rewrite Nat.add_assoc.
Qed.

Lemma append_matching_block_logs_ok h n txs all_logs :
  zlen (concat (logs ∘ snd <$> txs)) < 2 ^ 32 ->
  append_matching_block_logs all_logs (FilteredParams_new (Some f)) h n txs =
  Some (all_logs ++ accepted (block_rpc_logs h n txs)).
Proof. intros Hr. apply (append_block_logs_ok h n 0 txs 0). lia. Qed.
End Query.

(** ** Queries over a chain *)

Definition block_txs (b : RpcBlock * list Receipt) : list (Z * Receipt) := zip (ts_hash <$> rb_body b.1) b.2.

Section Chain.
Context (keccak256 : bytes -> Z) (hash_slow : Header -> Z) (max_logs_in_response : Z).
(** The blocks of a chain with their receipts. *)
Context (chain : Z -> option (RpcBlock * list Receipt)).

(** A block whose receipts match its body and whose header carries their bloom. *)
Definition block_ok (n : Z) (b : RpcBlock * list Receipt) : Prop :=
  number (rb_header b.1) = n /\ length (rb_body b.1) = length b.2 /\
  zlen (concat (logs <$> b.2)) < 2 ^ 32 /\
  bloom_value <$> calc_logs_bloom keccak256 (concat (logs <$> b.2)) = Some (logs_bloom (rb_header b.1)).

(** A provider whose database holds the chain up to its best block. *)
Definition client_ok (c : Client) (best : Z) : Prop :=
  (exists info, chain_info c = Ok info /\ best_number info = best) /\
  forall n, n <= best ->
    block_by_number c n = Ok (fst <$> chain n) /\ receipts_by_block c n = Ok (snd <$> chain n) /\
    forall b, chain n = Some b -> block_ok n b.

(** The logs of a block, and those of it that a filter accepts. *)
Definition chain_logs (f : Filter) (n : Z) : list RpcLog :=
  match chain n with
  | Some b => filter (fun r => filter_accepts f r = true) (block_rpc_logs (hash_slow (rb_header b.1)) n (block_txs b))
  | None => []
  end.

Lemma bloom_of_value_id b : wf_bloom b -> bloom_of_value (bloom_value b) = b.
Proof. intros [Hl Hw]. unfold bloom_of_value, bloom_value. rewrite <- Hl. by apply be_bytes_be_value. Qed.

Lemma elem_of_block_rpc_logs h n txs r : r ∈ block_rpc_logs h n txs ->
  exists log, log ∈ concat (logs ∘ snd <$> txs) /\ rl_address r = log_address log /\ rl_topics r = topics log /\
    rl_block_hash r = h /\ rl_block_number r = n.
Proof.
  unfold block_rpc_logs. intros Hr. apply elem_of_lookup_imap in Hr as (i & [[[ti th] li] log] & -> & Hp).
  apply list_elem_of_lookup_2, elem_of_concat in Hp as (l & Hl & Hp).
  apply elem_of_lookup_imap in Hl as (k & tx & -> & Htx).
  unfold receipt_positions in Hp. apply elem_of_lookup_imap in Hp as (j & log' & [= -> -> -> ->] & Hlog).
  exists log'. split; [|done]. apply elem_of_concat. exists (logs tx.2).
  split; [|by eapply list_elem_of_lookup_2]. apply list_elem_of_fmap. exists tx.
  split; [done|by eapply list_elem_of_lookup_2].
Qed.

Lemma block_txs_receipts n b : block_ok n b -> logs ∘ snd <$> block_txs b = logs <$> b.2.
Proof.
  intros (_ & Hlen & _). rewrite list_fmap_compose. f_equal. unfold block_txs. apply snd_zip.
  rewrite length_fmap. lia.
Qed.

(** A block that fails the bloom tests has no log the filter accepts. *)
Lemma bloom_tests_complete f n b af tf : ok_filter f -> block_ok n b ->
  address_filter keccak256 (f_address f) = Some af ->
  topics_filter keccak256 (if has_topics f then Some (flatten f) else None) = Some tf ->
  matches_address (bloom_of_value (logs_bloom (rb_header b.1))) af &&
    matches_topics (bloom_of_value (logs_bloom (rb_header b.1))) tf = false ->
  filter (fun r => filter_accepts f r = true) (block_rpc_logs (hash_slow (rb_header b.1)) n (block_txs b)) = [].
Proof.
  intros Hf Hb Haf Htf Hm. destruct (filter _ _) as [|r l] eqn:E; [done|exfalso].
  assert (Hr : r ∈ r :: l) by apply list_elem_of_here. rewrite <- E in Hr.
  apply list_elem_of_filter in Hr as [Hacc Hr].
  apply elem_of_block_rpc_logs in Hr as (log & Hlog & Ea & Et & _).
  rewrite (block_txs_receipts n b Hb) in Hlog. destruct Hb as (_ & _ & _ & Hbl).
  destruct (calc_logs_bloom_total keccak256 (concat (logs <$> b.2))) as (bl & Ebl & Wbl).
  rewrite Ebl in Hbl. injection Hbl as Hbl. rewrite <- Hbl, bloom_of_value_id in Hm by done.
  unfold filter_accepts in Hacc. rewrite Ea, Et in Hacc.
  apply andb_prop in Hacc as [[_ Ha]%andb_prop Ht].
  rewrite (bloom_covers_address keccak256 _ bl Ebl f log af) in Hm;
    [|done|by rewrite filter_address_accepts|done].
  destruct (has_topics f).
  - rewrite (bloom_covers_topics keccak256 _ bl Ebl f log tf) in Hm; [done|apply Hf|done| |done].
    by rewrite filter_topics_wf, Ht by apply Hf.
  - simpl in Htf. by simplify_eq.
Qed.

(** The scan, from any accumulated result. *)
Lemma filter_logs_loop_exact c best f af tf numbers all_logs : ok_filter f -> client_ok c best ->
  address_filter keccak256 (f_address f) = Some af ->
  topics_filter keccak256 (if has_topics f then Some (flatten f) else None) = Some tf ->
  Forall (fun n => n <= best) numbers -> zlen all_logs <= max_logs_in_response ->
  let result := all_logs ++ (numbers ≫= chain_logs f) in
  filter_logs_loop hash_slow max_logs_in_response c (FilteredParams_new (Some f)) af tf numbers all_logs =
  if max_logs_in_response <? zlen result then Err (QueryExceedsMaxResults max_logs_in_response) else Ok result.
Proof.
  intros Hf [_ Hc] Haf Htf Hn. cbv zeta. revert all_logs.
  induction Hn as [|n numbers Hnb Hn IH]; intros all_logs Hmax.
  { simpl. rewrite app_nil_r. destruct (Z.ltb_spec max_logs_in_response (zlen all_logs)); [lia|done]. }
  rewrite bind_cons. set (rest := numbers ≫= chain_logs f) in *. clearbody rest.
  cbn [filter_logs_loop]. destruct (Hc n Hnb) as (-> & Hrec & Hbok). cbn [mbind outcome_bind].
  unfold chain_logs. destruct (chain n) as [b|]; cbn [fmap option_fmap option_map].
  2: { cbn [mbind outcome_bind app]. by apply IH. }
  specialize (Hbok b eq_refl).
  destruct (matches_address _ af && matches_topics _ tf) eqn:Em.
  2: { rewrite (bloom_tests_complete f n b af tf) by done. cbn [mbind outcome_bind]. by apply IH. }
  pose proof Hbok as (Hnum & _ & Hlog & _). rewrite Hnum, Hrec. cbn [mbind outcome_bind fmap option_fmap option_map].
  fold (block_txs b). rewrite (append_matching_block_logs_ok f Hf) by (by rewrite (block_txs_receipts n b Hbok)).
  cbn [or_panic mbind outcome_bind]. rewrite app_assoc.
  destruct (Z.ltb_spec max_logs_in_response (zlen (all_logs ++ filter (fun r => filter_accepts f r = true)
             (block_rpc_logs (hash_slow (rb_header b.1)) n (block_txs b))))) as [Hlt|Hle].
  - cbn [mbind outcome_bind]. rewrite length_app. zcase; [done|]. lia.
  - cbn [mbind outcome_bind]. by apply IH.
Qed.

(** A log query returns the logs of the blocks of its range that the filter accepts,
    or the error of a result larger than the limit: skipping blocks by their bloom
    loses nothing, and nothing panics. *)
Lemma filter_logs_exact c best f from to : ok_filter f -> client_ok c best -> to <= best ->
  0 <= max_logs_in_response ->
  let result := range_inclusive from to ≫= chain_logs f in
  filter_logs keccak256 hash_slow max_logs_in_response c f from to =
  if max_logs_in_response <? zlen result then Err (QueryExceedsMaxResults max_logs_in_response) else Ok result.
Proof.
  intros Hf Hc Hto Hmax. cbv zeta. unfold filter_logs.
  destruct (address_filter_total keccak256 (f_address f)) as [af Haf]. rewrite Haf. cbn [or_panic mbind outcome_bind].
  change (flat_topics (FilteredParams_new (Some f))) with (flatten f).
  destruct (topics_filter_total keccak256 (if has_topics f then Some (flatten f) else None)) as [tf Htf].
  rewrite Htf. cbn [or_panic mbind outcome_bind].
  rewrite (filter_logs_loop_exact c best f af tf); try done.
  apply Forall_forall. intros n Hn. apply elem_of_seqZ in Hn. lia.
Qed.

(** *** Polling an installed filter *)

(** Successive polls of one filter, each with the provider and the clock of its time. *)
Fixpoint poll_all (id : FilterId) (polls : list (Client * Z)) : st (gmap FilterId ActiveFilter) RpcError (list FilterChanges) :=
  match polls with
  | [] => mret []
  | (c, now) :: polls =>
      x ← filter_changes keccak256 hash_slow max_logs_in_response c now id;
      xs ← poll_all id polls;
      mret (x :: xs)
  end.

(** The bounds of the filter are numbers, or absent. *)
Definition numeric_bound (o : option BlockNumber) : Prop :=
  match o with Some (Number _) | None => True | _ => False end.
Definition numeric_filter (f : Filter) : Prop :=
  numeric_bound (option_from_block (block_option f)) /\ numeric_bound (option_to_block (block_option f)).

Lemma chain_logs_outside f n :
  (forall h, block_option_accepts (block_option f) h n = false) -> chain_logs f n = [].
Proof.
  intros Ho. unfold chain_logs. destruct (chain n) as [b|]; [|done].
  destruct (filter _ _) as [|r l] eqn:E; [done|exfalso].
  assert (Hr : r ∈ r :: l) by apply list_elem_of_here. rewrite <- E in Hr.
  apply list_elem_of_filter in Hr as [Hacc Hr].
  apply elem_of_block_rpc_logs in Hr as (log & _ & _ & _ & _ & En).
  unfold filter_accepts in Hacc. by rewrite En, Ho in Hacc.
Qed.

Lemma bind_empty (g : Z -> list RpcLog) l : (forall n, n ∈ l -> g n = []) -> l ≫= g = [].
Proof.
  induction l as [|n l IH]; intros Hg; [done|]. rewrite bind_cons, Hg by apply list_elem_of_here.
  apply IH. intros m Hm. apply Hg. by apply list_elem_of_further.
Qed.

Lemma range_inclusive_app a b c : a <= b + 1 -> b <= c ->
  range_inclusive a c = range_inclusive a b ++ range_inclusive (b + 1) c.
Proof.
  intros H1 H2. unfold range_inclusive. replace (c - a + 1) with ((b - a + 1) + (c - b)) by lia.
  rewrite seqZ_app by lia. do 2 f_equal; lia.
Qed.

(** Narrowing a range to one outside which the filter accepts nothing. *)
Lemma narrowed_range (g : Z -> list RpcLog) a b a' b' : a <= a' -> b' <= b ->
  (forall n, a <= n <= b -> n < a' \/ b' < n -> g n = []) ->
  range_inclusive a' b' ≫= g = range_inclusive a b ≫= g.
Proof.
  intros Ha Hb Hg. destruct (decide (a' <= b')) as [Hle|Hgt].
  - rewrite (range_inclusive_app a (a' - 1) b), (range_inclusive_app (a' - 1 + 1) b' b) by lia.
    replace (a' - 1 + 1) with a' by lia. rewrite !bind_app.
    rewrite (bind_empty g (range_inclusive a (a' - 1))), (bind_empty g (range_inclusive (b' + 1) b)).
    + by rewrite app_nil_r.
    + intros n Hn. apply elem_of_seqZ in Hn. apply Hg; lia.
    + intros n Hn. apply elem_of_seqZ in Hn. apply Hg; lia.
  - rewrite (bind_empty g (range_inclusive a' b')), (bind_empty g (range_inclusive a b)); [done|..].
    + intros n Hn. apply elem_of_seqZ in Hn. apply Hg; lia.
    + intros n Hn. apply elem_of_seqZ in Hn. lia.
Qed.

Lemma poll_range_logs info start f : numeric_filter f ->
  let '(from, to) := poll_range info start (block_option f) in
  to <= best_number info /\
  range_inclusive from to ≫= chain_logs f = range_inclusive start (best_number info) ≫= chain_logs f.
Proof.
  intros [Hfrom Hto]. unfold poll_range.
  destruct (block_option f) as [from to|h] eqn:Eo; cbn in Hfrom, Hto |- *; [|done].
  assert (forall n, match from with Some (Number a) => n < a | _ => False end \/
                    match to with Some (Number b) => b < n | _ => False end -> chain_logs f n = []) as Hout.
  { intros n Hn. apply chain_logs_outside. intros h. rewrite Eo. cbn. apply andb_false_iff.
    destruct Hn as [Hn|Hn]; [left; destruct from as [[]|]|right; destruct to as [[]|]]; try done;
      apply Z.leb_gt; lia. }
  destruct from as [[]|], to as [[]|]; try done; cbn in *; zcase; (split; [lia|]); try done;
    (apply narrowed_range; [lia..|]); intros m ? ?; apply Hout; lia.
Qed.

Lemma filter_changes_poll c now id best start t f filters :
  ok_filter f -> numeric_filter f -> client_ok c best -> in_u 64 (best + 1) ->
  0 <= max_logs_in_response -> filters !! id = Some (mkActiveFilter start t (LogKind f)) ->
  zlen (range_inclusive start best ≫= chain_logs f) <= max_logs_in_response ->
  filter_changes keccak256 hash_slow max_logs_in_response c now id filters =
  (Ok (LogChanges (range_inclusive start best ≫= chain_logs f)),
   <[id := mkActiveFilter (best + 1) now (LogKind f)]> filters).
Proof.
  intros Hf Hnum Hc Hb Hmax Hid Hlen. pose proof Hc as [(info & Hi & Hbest) _].
  unfold filter_changes. erewrite bind_ok by (unfold st_lift; by rewrite Hi). cbv zeta.
  erewrite bind_ok by done. rewrite Hid. cbn [af_block af_kind]. erewrite bind_ok by done.
  rewrite Hbest, wadd_small by done.
  pose proof (poll_range_logs info start f Hnum) as Hr. destruct (poll_range _ _ _) as [from to].
  destruct Hr as [Hto Hr]. rewrite Hbest in Hto, Hr.
  erewrite bind_ok; [done|]. unfold st_lift.
  rewrite (filter_logs_exact c best f from to) by done. rewrite Hr. zcase; [lia|done].
Qed.

(** No poll finds more new logs than one answer may hold. *)
Fixpoint polls_fit (f : Filter) (start : Z) (bests : list Z) : Prop :=
  match bests with
  | [] => True
  | best :: bests => zlen (range_inclusive start best ≫= chain_logs f) <= max_logs_in_response /\ polls_fit f (best + 1) bests
  end.

(** C15. A client that polls an installed log filter while the chain grows receives
    every log the filter accepts exactly once, in the order of the chain and with its
    positions: the answers of the polls, put together, are the accepted logs of all
    blocks from the one the filter starts at to the last best block.  Skipping blocks
    by their bloom loses nothing, and nothing panics.  This holds of filters that the
    matching of the source decides, without an empty list of alternatives and without
    a wildcard among alternatives, whose bounds are numbers or absent, on a chain
    that only grows and whose headers have the blooms of their logs, as long as no poll
    finds more new logs than the limit of an answer. *)
Theorem polls_deliver_once id f polls start t filters :
  ok_filter f -> numeric_filter f -> filters !! id = Some (mkActiveFilter start t (LogKind f)) ->
  Forall (fun p => client_ok p.1.1 p.2 /\ in_u 64 (p.2 + 1)) polls ->
  StronglySorted Z.le (start - 1 :: polls.*2) ->
  let last_best := default (start - 1) (last polls.*2) in
  let expected := range_inclusive start last_best ≫= chain_logs f in
  polls_fit f start polls.*2 ->
  exists answers filters',
    poll_all id polls.*1 filters = (Ok (LogChanges <$> answers), filters') /\
    concat answers = expected /\
    exists t', filters' !! id = Some (mkActiveFilter (last_best + 1) t' (LogKind f)).
Proof.
  intros Hf Hnum. revert start t filters.
  induction polls as [|[[c now] best] polls IH]; intros start t filters Hid Hc Hs; cbv zeta.
  { intros _. cbn. exists [], filters. split; [done|]. split.
    - unfold range_inclusive. by rewrite seqZ_nil by lia.
    - exists t. by replace (start - 1 + 1) with start by lia. }
  apply Forall_cons in Hc as [[Hc1 Hb] Hc]. cbn [fst snd fmap list_fmap] in *.
  apply StronglySorted_inv in Hs as [Hs Hle]. apply Forall_cons in Hle as [Hle _].
  set (last_best := default (start - 1) (last (best :: polls.*2))).
  assert (last_best = default best (last polls.*2)) as El.
  { unfold last_best. destruct polls as [|p polls]; [done|]. cbn [fmap list_fmap]. rewrite last_cons_cons.
    by destruct (last _) eqn:E; [|apply last_None in E]. }
  assert (best <= last_best) as Hbl.
  { rewrite El. apply StronglySorted_inv in Hs as [_ Hall].
    destruct (last polls.*2) as [z|] eqn:E; cbn; [|lia]. apply last_Some_elem_of in E.
    rewrite Forall_forall in Hall. by apply Hall. }
  rewrite (range_inclusive_app start best last_best) by lia. rewrite bind_app. intros [Hmax Hfit].
  destruct (IH (best + 1) now (<[id := mkActiveFilter (best + 1) now (LogKind f)]> filters))
    as (answers & filters' & Hrun & Hcat & t' & Ht'); [by rewrite lookup_insert_eq|done|..].
  { by replace (best + 1 - 1) with best by lia. }
  { done. }
  replace (best + 1 - 1) with best in Hcat, Ht' by lia. rewrite <- El in Hcat, Ht'.
  exists ((range_inclusive start best ≫= chain_logs f) :: answers), filters'.
  split; [|split; [cbn [concat]; by rewrite Hcat|by exists t']].
  cbn [poll_all]. erewrite bind_ok by (apply (filter_changes_poll c now id best start t f); (done || lia)).
  by erewrite bind_ok by exact Hrun.
Qed.
End Chain.

(** ** Where the code falls short *)

(** A block filter polled at its start block reports nothing and moves past it: the
    range of hashes excludes the best block, the next poll starts after it. *)
Lemma block_filter_skips_best keccak256 hash_slow max c now id t info filters :
  chain_info c = Ok info -> in_u 64 (best_number info + 1) ->
  filters !! id = Some (mkActiveFilter (best_number info) t BlockKind) ->
  filter_changes keccak256 hash_slow max c now id filters =
  (Ok (HashChanges []), <[id := mkActiveFilter (best_number info + 1) now BlockKind]> filters).
Proof.
  intros Hi Hb Hid. unfold filter_changes. erewrite bind_ok by (unfold st_lift; by rewrite Hi). cbv zeta.
  erewrite bind_ok by done. rewrite Hid. cbn [af_block af_kind]. erewrite bind_ok by done.
  rewrite wadd_small by done. by rewrite Z.sub_diag.
Qed.

Module SampleFilter.
Definition keccak (l : bytes) : Z := (be_value l + 1) * 0x9e3779b97f4a7c15f39cc0605cedc8341082276bf3a27251f86c6a11d0c18e95 mod 2 ^ 256.
Definition slow_hash (h : Header) : Z := 1000 + number h.

Definition log_a : Log := mkLog 5 [7; 8] [1; 2; 3].
Definition log_b : Log := mkLog 6 [9] [].
Definition log_c : Log := mkLog 5 [7] [4].

Definition bloom_of (ls : list Log) : Z := from_option bloom_value 0 (calc_logs_bloom keccak ls).
Definition sample_receipt (ls : list Log) : Receipt := mkReceipt TxLegacyType true 21000 (bloom_of ls) ls.
Definition sample_tx (h : Z) : TransactionSigned :=
  mkTransactionSigned h (mkSignature 1 1 false) (TLegacy (mkTxLegacy None 0 1 21000 Create 0 [])).
Definition sample_block (n : Z) (txs : list (Z * list Log)) : RpcBlock * list Receipt :=
  (mkRpcBlock (mkHeader 0 0 0 0 0 0 None (bloom_of (concat txs.*2)) 0 n 30000000 21000 n 0 0 None [])
     (sample_tx <$> txs.*1), sample_receipt <$> txs.*2).

Definition sample_chain (n : Z) : option (RpcBlock * list Receipt) :=
  if n =? 1 then Some (sample_block 1 [(101, [log_b; log_a]); (102, [log_c])])
  else if n =? 2 then Some (sample_block 2 [(201, [log_b])])
  else if n =? 3 then Some (sample_block 3 [(301, []); (302, [log_c; log_c])])
  else None.

Definition client_at (best : Z) : Client :=
  mkClient (Ok (mkChainInfo (1000 + best) best None None)) (fun n => Ok (Some (1000 + n)))
    (fun n => Ok (fst <$> sample_chain n)) (fun n => Ok (snd <$> sample_chain n)).

Definition block_okb (n : Z) (b : RpcBlock * list Receipt) : bool :=
  (number (rb_header b.1) =? n) && (length (rb_body b.1) =? length b.2)%nat &&
  (zlen (concat (logs <$> b.2)) <? 2 ^ 32) &&
  bool_decide (bloom_value <$> calc_logs_bloom keccak (concat (logs <$> b.2)) = Some (logs_bloom (rb_header b.1))).

Lemma block_okb_ok n b : block_okb n b = true -> block_ok keccak n b.
Proof.
  unfold block_okb, block_ok. rewrite !andb_true_iff, Z.eqb_eq, Nat.eqb_eq, Z.ltb_lt, bool_decide_eq_true. tauto.
Qed.

Lemma client_at_ok best : client_ok keccak sample_chain (client_at best) best.
Proof.
  split; [by eexists|]. intros n _. split; [done|]. split; [done|]. intros b Hb. apply block_okb_ok.
  unfold sample_chain in Hb.
  destruct (Z.eqb_spec n 1) as [->|_]; [injection Hb as <-; by vm_compute|].
  destruct (Z.eqb_spec n 2) as [->|_]; [injection Hb as <-; by vm_compute|].
  destruct (Z.eqb_spec n 3) as [->|_]; [injection Hb as <-; by vm_compute|done].
Qed.

(** Logs of address 5 with first topic 7. *)
Definition sample_filter : Filter :=
  mkFilter (Range None None) (Some (Value 5)) [Some (Value (Some 7)); None; None; None].

Definition sample_filters : gmap FilterId ActiveFilter :=
  {[Str "0x1" := mkActiveFilter 1 0 (LogKind sample_filter)]}.

Lemma sample_filter_ok : ok_filter sample_filter /\ numeric_filter sample_filter.
Proof.
  split; [|done]. split; [|done]. split; [done|]. cbn.
  repeat apply Forall_cons_2; [|by left..|done]. right. split; [done|]. by intros H%list_elem_of_singleton.
Qed.

Lemma polls_deliver_once_witness : exists answers filters',
  poll_all keccak slow_hash 2000 (Str "0x1") [(client_at 1, 10); (client_at 1, 11); (client_at 3, 12)] sample_filters
    = (Ok (LogChanges <$> answers), filters') /\
  concat answers = range_inclusive 1 3 ≫= chain_logs slow_hash sample_chain sample_filter /\
  exists t', filters' !! Str "0x1" = Some (mkActiveFilter 4 t' (LogKind sample_filter)).
Proof.
  apply (polls_deliver_once keccak slow_hash 2000 sample_chain (Str "0x1") sample_filter
           [((client_at 1, 10), 1); ((client_at 1, 11), 1); ((client_at 3, 12), 3)] 1 0 sample_filters).
  - apply sample_filter_ok.
  - apply sample_filter_ok.
  - done.
  - repeat (apply Forall_cons_2; [split; [apply client_at_ok|unfold in_u; cbn; lia]|]). done.
  - cbn. repeat (apply SSorted_cons || apply SSorted_nil || apply Forall_cons_2 || apply Forall_nil_2); lia.
  - by vm_compute.
Defined.

(** The four logs of the sample query. *)
Lemma sample_logs :
  (fun r => (rl_block_number r, rl_transaction_hash r, rl_log_index r, rl_transaction_log_index r)) <$>
    (range_inclusive 1 3 ≫= chain_logs slow_hash sample_chain sample_filter)
  = [(1, 101, 1, 1); (1, 102, 2, 0); (3, 302, 0, 0); (3, 302, 1, 1)].
Proof. by vm_compute. Qed.

(** A poll that fails moves the filter all the same: with a limit of one log the
    three logs of the first block are never delivered. *)
Lemma failed_poll_loses_logs :
  let '(r1, s1) := filter_changes keccak slow_hash 1 (client_at 1) 10 (Str "0x1") sample_filters in
  r1 = Err (QueryExceedsMaxResults 1) /\
  fst (filter_changes keccak slow_hash 1 (client_at 2) 11 (Str "0x1") s1) = Ok (LogChanges []).
Proof. by vm_compute. Qed.

(** An empty list of alternatives at one position switches off all positions. *)
Lemma empty_alternatives_match_all :
  let f := mkFilter (Range None None) None [Some (Value (Some 7)); Some (Array []); None; None] in
  filter_topics (FilteredParams_new (Some f)) log_b = Some true.
Proof. by vm_compute. Qed.

(** A wildcard among the alternatives of a position is not honoured. *)
Lemma wildcard_alternative_ignored :
  let f := mkFilter (Range None None) None [Some (Array [Some 7; None]); None; None; None] in
  topics_match (alternatives <$> f_topics f) (topics log_b) = true /\
  filter_topics (FilteredParams_new (Some f)) log_b = Some false.
Proof. by vm_compute. Qed.

(** The range up to the tag [earliest] excludes block 0. *)
Lemma earliest_excludes_genesis :
  filter_block_range (FilteredParams_new (Some (mkFilter (Range None (Some Earliest)) None [None; None; None; None]))) 0
  = false.
Proof. done. Qed.
End SampleFilter.
