(* ===== verification/Executor.v ===== *)
(** * The block executor

    crates/executor/src/executor.rs and eth_dao_fork.rs, with the environments, the
    conversions and the database wrapper of crates/revm: transactions are run by the
    interpreter on a cache over a state provider, and every change of the cache becomes
    a change set.  The interpreter and its cache are revm's: the record [Revm]. *)
From S2P Require Import Prelude Bytes BTree PoolInner Primitives ChainSpec SubState PrimitivesRlp Bloom.

(** ** Data of the interpreter *)

Record AccountInfo := mkAccountInfo { ai_balance : Z; ai_nonce : Z; ai_code_hash : Z; ai_code : option bytes }.

Inductive AccountState := AsNotExisting | AsTouched | AsStorageCleared | AsNone.

(** An account of the cache. *)
Record DbAccount := mkDbAccount { da_info : AccountInfo; account_state : AccountState; da_storage : gmap Z Z }.

(** An account in the output of a transaction: slots with original and present value. *)
Record RevmAccount := mkRevmAccount {
  ra_info : AccountInfo; ra_storage : gmap Z (Z * Z); storage_cleared : bool; is_destroyed : bool
}.

(** [StateProvider] *)
Record StateProvider (E : Type) := mkStateProvider {
  sp_basic_account : Z -> outcome E (option Account);
  sp_storage : Z -> Z -> outcome E (option Z);
  sp_block_hash : Z -> outcome E (option Z)
}.
Arguments mkStateProvider {E} _ _ _.
Arguments sp_basic_account {E} _ _.
Arguments sp_storage {E} _ _ _.
Arguments sp_block_hash {E} _ _.

(** [SubState], the cache over a state provider. *)
Record CacheDB (E : Type) := mkCacheDB {
  ca_accounts : gmap Z DbAccount; ca_contracts : gmap Z bytes; ca_db : StateProvider E
}.
Arguments mkCacheDB {E} _ _ _.
Arguments ca_accounts {E} _.
Arguments ca_contracts {E} _.
Arguments ca_db {E} _.

Definition set_account {E} (address : Z) (x : DbAccount) (db : CacheDB E) : CacheDB E :=
  mkCacheDB (<[address := x]> (ca_accounts db)) (ca_contracts db) (ca_db db).

(** [ExecutionResult] of the interpreter, through its getters. *)
Record EvmResult := mkEvmResult { er_gas_used : Z; er_is_success : bool; er_logs : list Log }.
Record ResultAndState := mkResultAndState { rs_result : EvmResult; rs_state : gmap Z RevmAccount }.

Inductive SpecId :=
| FRONTIER | HOMESTEAD | TANGERINE | SPURIOUS_DRAGON | BYZANTIUM | PETERSBURG | ISTANBUL | BERLIN | LONDON
| MERGE | SHANGHAI.

(** Two switches that [fill_cfg_env] sets to constants are left out. *)
Record CfgEnv := mkCfgEnv { cfg_chain_id : Z; spec_id : SpecId }.
Record BlockEnv := mkBlockEnv {
  be_number : Z; coinbase : Z; be_timestamp : Z; be_difficulty : Z; prevrandao : option Z;
  basefee : Z; be_gas_limit : Z
}.
Inductive TransactTo := TransactCall (to : Z) | TransactCreate.
Record TxEnv := mkTxEnv {
  caller : Z; te_gas_limit : Z; te_gas_price : Z; gas_priority_fee : option Z; transact_to : TransactTo;
  te_value : Z; te_data : bytes; te_chain_id : option Z; te_nonce : option Z; te_access_list : list (Z * list Z)
}.
Record Env := mkEnv { env_cfg : CfgEnv; env_block : BlockEnv; env_tx : TxEnv }.

(** What the executor calls of the interpreter.  [load_account] returns the account
    of the cache, reading it from the provider when it is not there; [run] is
    [inspect] when its first argument is true, [transact] otherwise. *)
Record Revm (E : Type) := mkRevm {
  default_info : AccountInfo;
  default_db_account : DbAccount;
  info_eqb : AccountInfo -> AccountInfo -> bool;
  info_is_empty : AccountInfo -> bool;
  is_storage_cleared : AccountState -> bool;
  code_is_empty : bytes -> bool;
  load_account : Z -> CacheDB E -> outcome E (DbAccount * CacheDB E);
  should_inspect : Env -> Z -> bool;
  evm_run : bool -> Env -> CacheDB E -> outcome Z ResultAndState * CacheDB E
}.
Arguments mkRevm {E} _ _ _ _ _ _ _ _ _.
Arguments default_info {E} _.
Arguments default_db_account {E} _.
Arguments info_eqb {E} _ _ _.
Arguments info_is_empty {E} _ _.
Arguments is_storage_cleared {E} _ _.
Arguments code_is_empty {E} _ _.
Arguments load_account {E} _ _ _.
Arguments should_inspect {E} _ _ _.
Arguments evm_run {E} _ _ _ _.

(** ** crates/revm: conversions, database wrapper, environments *)

Definition to_reth_acc (revm_acc : AccountInfo) : Account :=
  mkAccount (ai_nonce revm_acc) (ai_balance revm_acc)
    (if ai_code_hash revm_acc =? KECCAK_EMPTY then None else Some (ai_code_hash revm_acc)).

(** [State::basic], [State::storage], [State::block_hash] *)
Definition state_basic {E} (db : StateProvider E) (address : Z) : outcome E (option AccountInfo) :=
  o ← sp_basic_account db address;
  Ok ((fun account => mkAccountInfo (acc_balance account) (acc_nonce account)
                          (default KECCAK_EMPTY (bytecode_hash account)) None) <$> (o : option Account)).
Definition state_storage {E} (db : StateProvider E) (address index : Z) : outcome E Z :=
  o ← sp_storage db address index; Ok (default 0 o).
Definition state_block_hash {E} (db : StateProvider E) (number : Z) : outcome E Z :=
  o ← sp_block_hash db number; Ok (default 0 o).

Definition WEI_2ETH : Z := 2000000000000000000.
Definition WEI_3ETH : Z := 3000000000000000000.
Definition WEI_5ETH : Z := 5000000000000000000.

(** [None] is the panic of a specification without an active fork. *)
Definition revm_spec (chain_spec : ChainSpec) (block : Head) : option SpecId :=
  let active f := active_at_head (fork chain_spec f) block in
  if active Shanghai then Some SHANGHAI
  else if active Paris then Some MERGE
  else if active London then Some LONDON
  else if active Berlin then Some BERLIN
  else if active Istanbul then Some ISTANBUL
  else if active Petersburg then Some PETERSBURG
  else if active Byzantium then Some BYZANTIUM
  else if active SpuriousDragon then Some SPURIOUS_DRAGON
  else if active Tangerine then Some TANGERINE
  else if active Homestead then Some HOMESTEAD
  else if active Frontier then Some FRONTIER
  else None.

Definition fill_cfg_env (chain_spec : ChainSpec) (header : Header) (total_difficulty : Z) : option CfgEnv :=
  spec_id ← revm_spec chain_spec (mkHead (number header) 0 (difficulty header) total_difficulty (timestamp header));
  Some (mkCfgEnv (cs_chain_id chain_spec) spec_id).

Definition fill_block_env (header : Header) (after_merge : bool) : BlockEnv :=
  mkBlockEnv (number header) (beneficiary header) (timestamp header)
    (if after_merge then 0 else difficulty header)
    (if after_merge then Some (mix_hash header) else None)
    (default 0 (base_fee_per_gas header)) (h_gas_limit header).

(** [cfg.spec_id >= SpecId::MERGE] *)
Definition spec_after_merge (s : SpecId) : bool := match s with MERGE | SHANGHAI => true | _ => false end.

Definition fill_cfg_and_block_env (chain_spec : ChainSpec) (header : Header) (total_difficulty : Z) (env : Env)
    : option Env :=
  cfg ← fill_cfg_env chain_spec header total_difficulty;
  Some (mkEnv cfg (fill_block_env header (spec_after_merge (spec_id cfg))) (env_tx env)).

Definition to_transact (to : TransactionKind) : TransactTo :=
  match to with Call to => TransactCall to | Create => TransactCreate end.
Definition to_access_list (l : list AccessListItem) : list (Z * list Z) :=
  (fun i => (ali_address i, storage_keys i)) <$> l.

Definition fill_tx_env (transaction : TransactionSigned) (sender : Z) : TxEnv :=
  match ts_transaction transaction with
  | TLegacy x =>
      mkTxEnv sender (lg_gas_limit x) (lg_gas_price x) None (to_transact (lg_to x)) (lg_value x) (lg_input x)
        (lg_chain_id x) (Some (lg_nonce x)) []
  | TEip2930 x =>
      mkTxEnv sender (al_gas_limit x) (al_gas_price x) None (to_transact (al_to x)) (al_value x) (al_input x)
        (Some (al_chain_id x)) (Some (al_nonce x)) (to_access_list (al_access_list x))
  | TEip1559 x =>
      mkTxEnv sender (df_gas_limit x) (df_max_fee_per_gas x) (Some (df_max_priority_fee_per_gas x))
        (to_transact (df_to x)) (df_value x) (df_input x) (Some (df_chain_id x)) (Some (df_nonce x))
        (to_access_list (df_access_list x))
  end.

(** ** eth_dao_fork.rs *)

Definition DAO_HARDFORK_BENEFICIARY : Z := 0xbf4ed7b27f1d666546e30d74d50d173d20bca754.
Definition DAO_HARDKFORK_ACCOUNTS : list Z :=
  [0xd4fe7bc31cedb7bfb8a345f31e668033056b2728; 0xb3fb0e5aba0e20e5c49d252dfd30e102b171a425;
   0x2c19c7f9ae8b751e37aeb2d93a699722395ae18f; 0xecd135fa4f61a655311e86238c92adcd779555d2;
   0x1975bd06d486162d5dc297798dfc41edd5d160a7; 0xa3acf3a1e16b1d7c315e23510fdd7847b48234f6;
   0x319f70bab6845585f412ec7724b744fec6095c85; 0x06706dd3f2c9abf0a21ddcc6941d9b86f0596936;
   0x5c8536898fbb74fc7445814902fd08422eac56d0; 0x6966ab0d485353095148a2155858910e0965b6f9;
   0x779543a0491a837ca36ce8c635d6154e3c4911a6; 0x2a5ed960395e2a49b1c758cef4aa15213cfd874c;
   0x5c6e67ccd5849c0d29219c4f95f1a7a93b3f5dc5; 0x9c50426be05db97f5d64fc54bf89eff947f0a321;
   0x200450f06520bdd6c527622a273333384d870efb; 0xbe8539bfe837b67d1282b2b1d61c3f723966f049;
   0x6b0c4d41ba9ab8d8cfb5d379c69a612f2ced8ecb; 0xf1385fb24aad0cd7432824085e42aff90886fef5;
   0xd1ac8b1ef1b69ff51d1d401a476e7e612414f091; 0x8163e7fb499e90f8544ea62bbf80d21cd26d9efd;
   0x51e0ddd9998364a2eb38588679f0d2c42653e4a6; 0x627a0a960c079c21c34f7612d5d230e01b4ad4c7;
   0xf0b1aa0eb660754448a7937c022e30aa692fe0c5; 0x24c4d950dfd4dd1902bbed3508144a54542bba94;
   0x9f27daea7aca0aa0446220b98d028715e3bc803d; 0xa5dc5acd6a7968a4554d89d65e59b7fd3bff0f90;
   0xd9aef3a1e38a39c16b31d1ace71bca8ef58d315b; 0x63ed5a272de2f6d968408b4acb9024f4cc208ebf;
   0x6f6704e5a10332af6672e50b3d9754dc460dfa4d; 0x77ca7b50b6cd7e2f3fa008e24ab793fd56cb15f6;
   0x492ea3bb0f3315521c31f273e565b868fc090f17; 0x0ff30d6de14a8224aa97b78aea5388d1c51c1f00;
   0x9ea779f907f0b315b364b0cfc39a0fde5b02a416; 0xceaeb481747ca6c540a000c1f3641f8cef161fa7;
   0xcc34673c6c40e791051898567a1222daf90be287; 0x579a80d909f346fbfb1189493f521d7f48d52238;
   0xe308bd1ac5fda103967359b2712dd89deffb7973; 0x4cb31628079fb14e4bc3cd5e30c2f7489b00960c;
   0xac1ecab32727358dba8962a0f3b261731aad9723; 0x4fd6ace747f06ece9c49699c7cabc62d02211f75;
   0x440c59b325d2997a134c2c7c60a8c61611212bad; 0x4486a3d68fac6967006d7a517b889fd3f98c102b;
   0x9c15b54878ba618f494b38f0ae7443db6af648ba; 0x27b137a85656544b1ccb5a0f2e561a5703c6a68f;
   0x21c7fdb9ed8d291d79ffd82eb2c4356ec0d81241; 0x23b75c2f6791eef49c69684db4c6c1f93bf49a50;
   0x1ca6abd14d30affe533b24d7a21bff4c2d5e1f3b; 0xb9637156d330c0d605a791f1c31ba5890582fe1c;
   0x6131c42fa982e56929107413a9d526fd99405560; 0x1591fc0f688c81fbeb17f5426a162a7024d430c2;
   0x542a9515200d14b68e934e9830d91645a980dd7a; 0xc4bbd073882dd2add2424cf47d35213405b01324;
   0x782495b7b3355efb2833d56ecb34dc22ad7dfcc4; 0x58b95c9a9d5d26825e70a82b6adb139d3fd829eb;
   0x3ba4d81db016dc2890c81f3acec2454bff5aada5; 0xb52042c8ca3f8aa246fa79c3feaa3d959347c0ab;
   0xe4ae1efdfc53b73893af49113d8694a057b9c0d1; 0x3c02a7bc0391e86d91b7d144e61c2c01a25a79c5;
   0x0737a6b837f97f46ebade41b9bc3e1c509c85c53; 0x97f43a37f595ab5dd318fb46e7a155eae057317a;
   0x52c5317c848ba20c7504cb2c8052abd1fde29d03; 0x4863226780fe7c0356454236d3b1c8792785748d;
   0x5d2b2e6fcbe3b11d26b525e085ff818dae332479; 0x5f9f3392e9f62f63b8eac0beb55541fc8627f42c;
   0x057b56736d32b86616a10f619859c6cd6f59092a; 0x9aa008f65de0b923a2a4f02012ad034a5e2e2192;
   0x304a554a310c7e546dfe434669c62820b7d83490; 0x914d1b8b43e92723e64fd0a06f5bdb8dd9b10c79;
   0x4deb0033bb26bc534b197e61d19e0733e5679784; 0x07f5c1e1bc2c93e0402f23341973a0e043f7bf8a;
   0x35a051a0010aba705c9008d7a7eff6fb88f6ea7b; 0x4fa802324e929786dbda3b8820dc7834e9134a2a;
   0x9da397b9e80755301a3b32173283a91c0ef6c87e; 0x8d9edb3054ce5c5774a420ac37ebae0ac02343c6;
   0x0101f3be8ebb4bbd39a2e3b9a3639d4259832fd9; 0x5dc28b15dffed94048d73806ce4b7a4612a1d48f;
   0xbcf899e6c7d9d5a215ab1e3444c86806fa854c76; 0x12e626b0eebfe86a56d633b9864e389b45dcb260;
   0xa2f1ccba9395d7fcb155bba8bc92db9bafaeade7; 0xec8e57756626fdc07c63ad2eafbd28d08e7b0ca5;
   0xd164b088bd9108b60d0ca3751da4bceb207b0782; 0x6231b6d0d5e77fe001c2a460bd9584fee60d409b;
   0x1cba23d343a983e9b5cfd19496b9a9701ada385f; 0xa82f360a8d3455c5c41366975bde739c37bfeb8a;
   0x9fcd2deaff372a39cc679d5c5e4de7bafb0b1339; 0x005f5cee7a43331d5a3d3eec71305925a62f34b6;
   0x0e0da70933f4c7849fc0d203f5d1d43b9ae4532d; 0xd131637d5275fd1a68a3200f4ad25c71a2a9522e;
   0xbc07118b9ac290e4622f5e77a0853539789effbe; 0x47e7aa56d6bdf3f36be34619660de61275420af8;
   0xacd87e28b0c9d1254e868b81cba4cc20d9a32225; 0xadf80daec7ba8dcf15392f1ac611fff65d94f880;
   0x5524c55fb03cf21f549444ccbecb664d0acad706; 0x40b803a9abce16f50f36a77ba41180eb90023925;
   0xfe24cdd8648121a43a7c86d289be4dd2951ed49f; 0x17802f43a0137c506ba92291391a8a8f207f487d;
   0x253488078a4edf4d6f42f113d1e62836a942cf1a; 0x86af3e9626fce1957c82e88cbf04ddf3a2ed7915;
   0xb136707642a4ea12fb4bae820f03d2562ebff487; 0xdbe9b615a3ae8709af8b93336ce9b477e4ac0940;
   0xf14c14075d6c4ed84b86798af0956deef67365b5; 0xca544e5c4687d109611d0f8f928b53a25af72448;
   0xaeeb8ff27288bdabc0fa5ebb731b6f409507516c; 0xcbb9d3703e651b0d496cdefb8b92c25aeb2171f7;
   0x6d87578288b6cb5549d5076a207456a1f6a63dc0; 0xb2c6f0dfbb716ac562e2d85d6cb2f8d5ee87603e;
   0xaccc230e8a6e5be9160b8cdf2864dd2a001c28b6; 0x2b3455ec7fedf16e646268bf88846bd7a2319bb2;
   0x4613f3bca5c44ea06337a9e439fbc6d42e501d0a; 0xd343b217de44030afaa275f54d31a9317c7f441e;
   0x84ef4b2357079cd7a7c69fd7a37cd0609a679106; 0xda2fef9e4a3230988ff17df2165440f37e8b1708;
   0xf4c64518ea10f995918a454158c6b61407ea345c; 0x7602b46df5390e432ef1c307d4f2c9ff6d65cc97;
   0xbb9bc244d798123fde783fcc1c72d3bb8c189413; 0x807640a13483f8ac783c557fcdf27be11ea4ac7a].

(** ** executor.rs *)

Inductive ExecutorError (E : Type) :=
| EVM (hash : Z) (message : Z)
| SenderRecoveryError
| ReceiptRootDiff (got expected : Z)
| BloomLogDiff (expected got : Z)
| TransactionGasLimitMoreThenAvailableBlockGas (transaction_gas_limit block_available_gas : Z)
| BlockGasUsed (got expected : Z)
| ExecutorProviderError.
Arguments EVM {E} hash message.
Arguments SenderRecoveryError {E}.
Arguments ReceiptRootDiff {E} got expected.
Arguments BloomLogDiff {E} expected got.
Arguments TransactionGasLimitMoreThenAvailableBlockGas {E} _ _.
Arguments BlockGasUsed {E} got expected.
Arguments ExecutorProviderError {E}.

Definition tx_type (t : Transaction) : TxType :=
  match t with TLegacy _ => TxLegacyType | TEip2930 _ => TxEIP2930Type | TEip1559 _ => TxEIP1559Type end.

Section Executor.
Context {E : Type} (revm : Revm E) (chain_spec : ChainSpec).
Context (keccak256 : bytes -> Z) (recover_signer : TransactionSigned -> option Z).
Context (calculate_receipt_root : list Receipt -> Z).
(** The order in which a hash map is walked. *)
Context (iter : forall V, gmap Z V -> list (Z * V)).

Abbreviation db := (CacheDB E).
(** The state of the executor: the environment and the cached database. *)
Record ExecutorState := mkExecutorState { x_env : Env; x_db : db }.
Abbreviation op := (st ExecutorState (ExecutorError E)).

Fixpoint recover_signers (body : list TransactionSigned) : option (list Z) :=
  match body with
  | [] => Some []
  | tx :: body => s ← recover_signer tx; ss ← recover_signers body; Some (s :: ss)
  end.

Definition recover_senders (body : list TransactionSigned) (senders : option (list Z))
    : outcome (ExecutorError E) (list Z) :=
  match senders with
  | Some senders => if (length body =? length senders)%nat then Ok senders else Err SenderRecoveryError
  | None => match recover_signers body with Some senders => Ok senders | None => Err SenderRecoveryError end
  end.

Definition init_env (header : Header) (total_difficulty : Z) : op unit :=
  s ← st_get;
  match fill_cfg_and_block_env chain_spec header total_difficulty (x_env s) with
  | Some env => st_put (mkExecutorState env (x_db s))
  | None => st_panic
  end.

(** The new bytecode of an account, and the cached contracts. *)
Definition commit_code (info : AccountInfo) (contracts : gmap Z bytes) (new_bytecodes : gmap Z bytes)
    : gmap Z bytes * gmap Z bytes :=
  match ai_code info with
  | Some code =>
      if code_is_empty revm code then (contracts, new_bytecodes)
      else
        match contracts !! ai_code_hash info with
        | None => (<[ai_code_hash info := code]> contracts, <[ai_code_hash info := code]> new_bytecodes)
        | Some _ => (<[ai_code_hash info := code]> contracts, new_bytecodes)
        end
  | None => (contracts, new_bytecodes)
  end.

(** The account change set and the account of the cache before its state and its
    storage are set. *)
Definition commit_info (entry : option DbAccount) (account : RevmAccount) : AccountInfoChangeSet * DbAccount :=
  match entry with
  | None =>
      let x := default_db_account revm in
      (Created (to_reth_acc (ra_info account)), mkDbAccount (ra_info account) (account_state x) (da_storage x))
  | Some x =>
      (match account_state x with
       | AsNotExisting => Created (to_reth_acc (ra_info account))
       | _ =>
           if negb (info_eqb revm (da_info x) (ra_info account))
           then Changed (to_reth_acc (ra_info account)) (to_reth_acc (da_info x))
           else NoChange (info_is_empty revm (ra_info account))
       end,
       mkDbAccount (ra_info account) (account_state x) (da_storage x))
  end.

Definition commit_storage (account : RevmAccount) (x : DbAccount) : DbAccount :=
  let '(state, storage) :=
    if storage_cleared account then (AsStorageCleared, ∅)
    else if is_storage_cleared revm (account_state x) then (AsStorageCleared, da_storage x)
    else (AsTouched, da_storage x) in
  mkDbAccount (da_info x) state ((snd <$> ra_storage account) ∪ storage).

(** One turn of the loop of [commit_changes]; [None] is the panic. *)
Definition commit_account (address : Z) (account : RevmAccount)
    (s : db * gmap Z AccountChangeSet * gmap Z bytes) : option (db * gmap Z AccountChangeSet * gmap Z bytes) :=
  let '(d, change, new_bytecodes) := s in
  if is_destroyed account then
    match ca_accounts d !! address with
    | None => None
    | Some x =>
        Some (set_account address (mkDbAccount (default_info revm) AsNotExisting ∅) d,
              <[address := mkAccountChangeSet (Destroyed (to_reth_acc (da_info x))) ∅ true]> change, new_bytecodes)
    end
  else
    let '(contracts, new_bytecodes) := commit_code (ra_info account) (ca_contracts d) new_bytecodes in
    let '(account_info_changeset, new_account) := commit_info (ca_accounts d !! address) account in
    Some (mkCacheDB (<[address := commit_storage account new_account]> (ca_accounts d)) contracts (ca_db d),
          <[address := mkAccountChangeSet account_info_changeset (ra_storage account) false]> change, new_bytecodes).

Fixpoint commit_loop (l : list (Z * RevmAccount)) (s : db * gmap Z AccountChangeSet * gmap Z bytes)
    : option (db * gmap Z AccountChangeSet * gmap Z bytes) :=
  match l with
  | [] => Some s
  | (address, account) :: l => s ← commit_account address account s; commit_loop l s
  end.

Definition commit_changes (changes : gmap Z RevmAccount) : op (gmap Z AccountChangeSet * gmap Z bytes) :=
  s ← st_get;
  match commit_loop (iter _ changes) (x_db s, ∅, ∅) with
  | Some (d, change, new_bytecodes) => st_put (mkExecutorState (x_env s) d);; mret (change, new_bytecodes)
  | None => st_panic
  end.

Definition get_block_reward (header : Header) (total_difficulty : Z) : option Z :=
  if active_at_ttd (fork chain_spec Paris) total_difficulty (difficulty header) then None
  else if active_at_block (fork chain_spec Petersburg) (number header) then Some WEI_2ETH
  else if active_at_block (fork chain_spec Byzantium) (number header) then Some WEI_3ETH
  else Some WEI_5ETH.

(** [*balance_increments.entry(address).or_default() += value] *)
Definition add_increment (address value : Z) (m : gmap Z Z) : gmap Z Z :=
  <[address := wadd 256 (default 0 (m !! address)) value]> m.

Definition ommer_reward (block_number reward : Z) (ommer : Header) : Z :=
  Z.shiftr (wrap 128 (wrap 64 (8 + number ommer - block_number) * reward)) 3.

Definition block_reward (reward : Z) (ommers : list Header) : Z :=
  wrap 128 (reward + wrap 128 (Z.shiftr reward 5 * zlen ommers)).

Definition post_block_balance_increments (block : Block) (td : Z) : gmap Z Z :=
  let header := b_header block in
  let m := match get_block_reward header td with
           | Some reward =>
               let m := foldl (fun m ommer => add_increment (beneficiary ommer)
                                 (ommer_reward (number header) reward ommer) m) ∅ (b_ommers block) in
               add_increment (beneficiary header) (block_reward reward (b_ommers block)) m
           | None => ∅
           end in
  if active_at_timestamp (fork chain_spec Shanghai) (timestamp header) then
    match b_withdrawals block with
    | Some withdrawals => foldl (fun m w => add_increment (w_address w) (amount_wei w) m) m withdrawals
    | None => m
    end
  else m.

(** [db.load_account(address).map_err(|_| Error::ProviderError)?] *)
Definition load (address : Z) : op DbAccount :=
  s ← st_get;
  match load_account revm address (x_db s) with
  | Ok (x, d) => st_put (mkExecutorState (x_env s) d);; mret x
  | Err _ => st_throw ExecutorProviderError
  | Panic => st_panic
  | Diverge => st_lift Diverge
  end.

(** Writing through the reference that [load_account] returned. *)
Definition store (address : Z) (x : DbAccount) : op unit :=
  s ← st_get; st_put (mkExecutorState (x_env s) (set_account address x (x_db s))).

Definition set_balance (balance : Z) (i : AccountInfo) : AccountInfo :=
  mkAccountInfo balance (ai_nonce i) (ai_code_hash i) (ai_code i).

(** The accounts that the DAO fork drains. *)
Fixpoint drain_accounts (l : list Z) (drained_balance : Z) (changesets : gmap Z AccountInfoChangeSet)
    : op (Z * gmap Z AccountInfoChangeSet) :=
  match l with
  | [] => mret (drained_balance, changesets)
  | address :: l =>
      x ← load address;
      let info := set_balance 0 (da_info x) in
      store address (mkDbAccount info (account_state x) (da_storage x));;
      drain_accounts l (wadd 256 drained_balance (ai_balance (da_info x)))
        (<[address := Changed (to_reth_acc info) (to_reth_acc (da_info x))]> changesets)
  end.

Definition dao_fork_changeset : op (gmap Z AccountInfoChangeSet) :=
  '(drained_balance, changesets) ← drain_accounts DAO_HARDKFORK_ACCOUNTS 0 ∅;
  let beneficiary := DAO_HARDFORK_BENEFICIARY in
  x ← load beneficiary;
  let info := set_balance (wadd 256 (ai_balance (da_info x)) drained_balance) (da_info x) in
  store beneficiary (mkDbAccount info (account_state x) (da_storage x));;
  mret (<[beneficiary := Changed (to_reth_acc info) (to_reth_acc (da_info x))]> changesets).

Definition account_balance_increment_changeset (address increment : Z) : op AccountInfoChangeSet :=
  x ← load address;
  let old := to_reth_acc (da_info x) in
  let info := set_balance (wadd 256 (ai_balance (da_info x)) increment) (da_info x) in
  let new := to_reth_acc info in
  match account_state x with
  | AsNotExisting =>
      store address (mkDbAccount info AsStorageCleared (da_storage x));;
      mret (Created (mkAccount 0 (acc_balance new) None))
  | AsNone =>
      store address (mkDbAccount info AsTouched (da_storage x));;
      mret (Changed new old)
  | state =>
      store address (mkDbAccount info state (da_storage x));;
      mret (Changed new old)
  end.

Definition transact (transaction : TransactionSigned) (sender : Z) : op ResultAndState :=
  s ← st_get;
  let env := mkEnv (env_cfg (x_env s)) (env_block (x_env s)) (fill_tx_env transaction sender) in
  let hash := ts_hash transaction in
  let '(out, d) := evm_run revm (should_inspect revm env hash) env (x_db s) in
  st_put (mkExecutorState env d);;
  match out with
  | Ok r => mret r
  | Err e => st_throw (EVM hash e)
  | Panic => st_panic
  | Diverge => st_lift Diverge
  end.

(** One turn of the loop of [execute_transactions]. *)
Definition execute_transaction (block_gas_limit cumulative_gas_used : Z) (transaction : TransactionSigned) (sender : Z)
    : op (TransactionChangeSet * Z) :=
  let block_available_gas := wrap 64 (block_gas_limit - cumulative_gas_used) in
  if block_available_gas <? t_gas_limit (ts_transaction transaction) then
    st_throw (TransactionGasLimitMoreThenAvailableBlockGas (t_gas_limit (ts_transaction transaction)) block_available_gas)
  else
    r ← transact transaction sender;
    '(changeset, new_bytecodes) ← commit_changes (rs_state r);
    let cumulative_gas_used := wadd 64 cumulative_gas_used (er_gas_used (rs_result r)) in
    let logs := er_logs (rs_result r) in
    match calc_logs_bloom keccak256 logs with
    | None => st_panic
    | Some bloom =>
        mret (mkTransactionChangeSet
                (mkReceipt (tx_type (ts_transaction transaction)) (er_is_success (rs_result r)) cumulative_gas_used
                   (bloom_value bloom) logs) changeset new_bytecodes,
              cumulative_gas_used)
    end.

Fixpoint execute_loop_txs (block_gas_limit : Z) (l : list (TransactionSigned * Z)) (cumulative_gas_used : Z)
    (tx_changesets : list TransactionChangeSet) : op (list TransactionChangeSet * Z) :=
  match l with
  | [] => mret (tx_changesets, cumulative_gas_used)
  | (transaction, sender) :: l =>
      '(c, cumulative_gas_used) ← execute_transaction block_gas_limit cumulative_gas_used transaction sender;
      execute_loop_txs block_gas_limit l cumulative_gas_used (tx_changesets ++ [c])
  end.

Definition execute_transactions (block : Block) (total_difficulty : Z) (senders : option (list Z))
    : op (list TransactionChangeSet * Z) :=
  senders ← st_lift (recover_senders (b_body block) senders);
  init_env (b_header block) total_difficulty;;
  execute_loop_txs (h_gas_limit (b_header block)) (zip (b_body block) senders) 0 [].

Fixpoint increment_loop (l : list (Z * Z)) (block_changesets : gmap Z AccountInfoChangeSet)
    : op (gmap Z AccountInfoChangeSet) :=
  match l with
  | [] => mret block_changesets
  | (address, increment) :: l =>
      changeset ← account_balance_increment_changeset address increment;
      increment_loop l (<[address := changeset]> block_changesets)
  end.

Definition execute (block : Block) (total_difficulty : Z) (senders : option (list Z)) : op ExecutionResult :=
  '(tx_changesets, cumulative_gas_used) ← execute_transactions block total_difficulty senders;
  if negb (gas_used (b_header block) =? cumulative_gas_used)
  then st_throw (BlockGasUsed cumulative_gas_used (gas_used (b_header block)))
  else
    block_changesets ← increment_loop (iter _ (post_block_balance_increments block total_difficulty)) ∅;
    block_changesets ←
      (if transitions_at_block (fork chain_spec Dao) (number (b_header block)) then
         dao ← dao_fork_changeset; mret (dao ∪ block_changesets)
       else mret block_changesets);
    mret (mkExecutionResult tx_changesets block_changesets).

Definition verify_receipt (expected_receipts_root expected_logs_bloom : Z) (receipts : list Receipt)
    : outcome (ExecutorError E) unit :=
  let receipts_root := calculate_receipt_root receipts in
  if negb (receipts_root =? expected_receipts_root) then Err (ReceiptRootDiff receipts_root expected_receipts_root)
  else
    let logs_bloom := foldl (fun b r => Z.lor b (bloom r)) 0 receipts in
    if negb (logs_bloom =? expected_logs_bloom) then Err (BloomLogDiff expected_logs_bloom logs_bloom)
    else Ok tt.

Definition execute_and_verify_receipt (block : Block) (total_difficulty : Z) (senders : option (list Z))
    : op ExecutionResult :=
  execution_result ← execute block total_difficulty senders;
  (if active_at_block (fork chain_spec Byzantium) (number (b_header block)) then
     st_lift (verify_receipt (receipts_root (b_header block)) (logs_bloom (b_header block))
                (receipt <$> tx_changesets execution_result))
   else mret tt);;
  mret execution_result.
End Executor.
