(* ===== verification/ExecutorState.v ===== *)
(** * The state of the block executor

    The state that the executor's cache stands for, what the interpreter promises of
    it, and that committing the output of a transaction yields change sets that
    describe the difference: written to the tables they give the new state. *)
From S2P Require Import Prelude Bytes BTree PoolInner Primitives ChainSpec SubState PrimitivesRlp Bloom Compact Tables History Provider ProviderState ProviderEffect Executor.

(** ** Views of the cache *)
Section Views.
Context {E : Type}.
Implicit Types (sp : StateProvider E) (d : CacheDB E) (x : DbAccount).

Definition base_account sp (a : Z) : option Account := match sp_basic_account sp a with Ok o => o | _ => None end.
Definition base_slot sp (a k : Z) : Z := match state_storage sp a k with Ok v => v | _ => 0 end.

Definition view_entry x : option Account :=
  match account_state x with AsNotExisting => None | _ => Some (to_reth_acc (da_info x)) end.

(** The account at an address. *)
Definition view d (a : Z) : option Account :=
  match ca_accounts d !! a with Some x => view_entry x | None => base_account (ca_db d) a end.

Definition entry_slot sp (a k : Z) x : Z :=
  match da_storage x !! k with
  | Some v => v
  | None => match account_state x with AsNotExisting | AsStorageCleared => 0 | _ => base_slot sp a k end
  end.

(** The value of a slot. *)
Definition slot_view d (a k : Z) : Z :=
  match ca_accounts d !! a with Some x => entry_slot (ca_db d) a k x | None => base_slot (ca_db d) a k end.

(** An account that the cache holds as not existing is empty. *)
Definition cache_wf d : Prop := forall a x, ca_accounts d !! a = Some x -> account_state x = AsNotExisting ->
  to_reth_acc (da_info x) = empty_account /\ forall k v, da_storage x !! k = Some v -> v = 0.

(** Accounts of the provider: the hash of the empty code is not stored, and only
    existing accounts have storage. *)
Definition provider_ok sp : Prop :=
  (forall a acc, base_account sp a = Some acc -> bytecode_hash acc <> Some KECCAK_EMPTY) /\
  (forall a k, base_account sp a = None -> base_slot sp a k = 0).
End Views.

(** ** What the executor relies on of the interpreter *)
Section Laws.
Context {E : Type} (revm : Revm E).
Implicit Types (sp : StateProvider E) (d : CacheDB E) (x : DbAccount).

(** An account read from the provider, with slots read from it. *)
Definition loaded_from sp (a : Z) x : Prop :=
  match state_basic sp a with
  | Ok (Some i) => da_info x = i /\ account_state x = AsNone
  | Ok None => da_info x = default_info revm /\ account_state x = AsNotExisting
  | _ => False
  end /\
  forall k v, da_storage x !! k = Some v -> v = base_slot sp a k.

(** The cache after reads: entries keep their account, new entries and new slots hold
    what the provider has. *)
Definition cached d d' : Prop :=
  ca_db d' = ca_db d /\
  forall a, match ca_accounts d !! a, ca_accounts d' !! a with
    | Some x, Some x' =>
        da_info x' = da_info x /\ account_state x' = account_state x /\
        forall k, da_storage x' !! k = da_storage x !! k \/
                  (da_storage x !! k = None /\ da_storage x' !! k = Some (slot_view d a k))
    | None, Some x' => loaded_from (ca_db d) a x'
    | None, None => True
    | Some _, None => False
    end.

Class RevmOk : Prop := {
  ok_default_info : to_reth_acc (default_info revm) = empty_account;
  ok_info_eqb i j : info_eqb revm i j = true <-> to_reth_acc i = to_reth_acc j;
  ok_is_empty i : ai_code_hash i <> 0 -> info_is_empty revm i = account_is_empty (to_reth_acc i);
  ok_cleared : is_storage_cleared revm AsStorageCleared = true /\
    is_storage_cleared revm AsTouched = false /\ is_storage_cleared revm AsNone = false;
  (** [load_account] reads one account. *)
  ok_load a d : match load_account revm a d with
    | Ok (x, d') => cached d d' /\ ca_accounts d' !! a = Some x
    | Err _ => True
    | _ => False
    end;
  (** Running a transaction only reads the cache; the accounts it returns are in the
      cache, with the slots they had as original values, and it uses no more gas than
      its limit. *)
  ok_run i env d o d' : evm_run revm i env d = (o, d') ->
    cached d d' /\ safe o /\
    forall r, o = Ok r ->
      0 <= er_gas_used (rs_result r) <= te_gas_limit (env_tx env) /\
      forall a acc, rs_state r !! a = Some acc ->
        is_Some (ca_accounts d' !! a) /\
        (is_destroyed acc = false -> forall k o p, ra_storage acc !! k = Some (o, p) -> o = slot_view d' a k)
}.
End Laws.

(** ** Reads do not change the state *)
Section Reads.
Context {E : Type} (revm : Revm E) `{!RevmOk revm}.
Implicit Types (sp : StateProvider E) (d : CacheDB E) (x : DbAccount).

Lemma loaded_view sp a x : provider_ok sp -> loaded_from revm sp a x ->
  view_entry x = base_account sp a /\ (forall k, entry_slot sp a k x = base_slot sp a k) /\
  (account_state x = AsNotExisting -> to_reth_acc (da_info x) = empty_account /\ forall k v, da_storage x !! k = Some v -> v = 0).
Proof.
  intros [Hc Hz] [Hl Hs]. unfold view_entry, entry_slot.
  assert (Hslots : (account_state x = AsNotExisting -> base_account sp a = None) -> account_state x <> AsStorageCleared ->
    (forall k, match da_storage x !! k with Some v => v | None => match account_state x with AsNotExisting | AsStorageCleared => 0 | _ => base_slot sp a k end end = base_slot sp a k)).
  { intros Hn Hst k. destruct (da_storage x !! k) eqn:Ek; [by apply Hs|]. destruct (account_state x); try done.
    symmetry. apply Hz. by apply Hn. }
  unfold state_basic in Hl. specialize (Hc a). specialize (Hz a). unfold base_account in *.
  destruct (sp_basic_account sp a) as [[[n b h]|]|?| |]; try done; cbn in Hl; destruct Hl as [Hi Hst]; rewrite Hst in *.
  - split; [|split; [by apply Hslots|done]]. rewrite Hi. unfold to_reth_acc. cbn [ai_nonce ai_balance ai_code_hash].
    specialize (Hc _ eq_refl). cbn in Hc. do 2 f_equal.
    destruct h as [h|]; [|done]. change (default KECCAK_EMPTY (Some h)) with h.
    by rewrite (proj2 (Z.eqb_neq h KECCAK_EMPTY)) by congruence.
  - split; [done|]. split; [by apply Hslots|]. intros _. rewrite Hi. split; [by apply ok_default_info|].
    intros k v Hk. rewrite (Hs k v Hk). by apply Hz.
Qed.

Lemma cached_same d d' : provider_ok (ca_db d) -> cache_wf d -> cached revm d d' ->
  cache_wf d' /\ (forall a, view d' a = view d a) /\ (forall a k, slot_view d' a k = slot_view d a k).
Proof.
  intros Hp Hw [Edb Hc].
  assert (forall a, view d' a = view d a /\ (forall k, slot_view d' a k = slot_view d a k) /\
    (forall x, ca_accounts d' !! a = Some x -> account_state x = AsNotExisting ->
       to_reth_acc (da_info x) = empty_account /\ forall k v, da_storage x !! k = Some v -> v = 0)) as H.
  { intros a. specialize (Hc a). specialize (Hw a). unfold view, slot_view in *.
    destruct (ca_accounts d' !! a) as [x'|], (ca_accounts d !! a) as [x|]; rewrite ?Edb in *; try done.
    - destruct Hc as (Hi & Hs & Hk). unfold view_entry, entry_slot in *. rewrite Hi, Hs. split; [done|]. split.
      + intros k. destruct (Hk k) as [Hk'|[Hk1 Hk2]]; [by rewrite Hk'|]. by rewrite Hk2.
      + intros y [= <-]. rewrite Hs, Hi. intros Hn. destruct (Hw x eq_refl Hn) as [He Hv]. split; [done|].
        intros k v Hk'. destruct (Hk k) as [Hk2|[Hk1 Hk2]]; [by apply (Hv k); rewrite <- Hk2|].
        rewrite Hk2, Hk1, Hn in Hk'. congruence.
    - destruct (loaded_view _ _ _ Hp Hc) as (H1 & H2 & H3). split; [done|]. split; [done|]. by intros y [= <-]. }
  split; [|split; intros; by apply H]. intros a x Hx. by apply (proj2 (proj2 (H a))).
Qed.
End Reads.

(** ** Committing the output of a transaction *)
Section Commit.
Context {E : Type} (revm : Revm E) `{!RevmOk revm}.
Implicit Types (d : CacheDB E) (x : DbAccount) (acc : RevmAccount).

(** The change set of one account and its new entry. *)
Definition committed (entry : option DbAccount) acc : option (AccountChangeSet * DbAccount) :=
  if is_destroyed acc then
    x ← entry;
    Some (mkAccountChangeSet (Destroyed (to_reth_acc (da_info x))) ∅ true, mkDbAccount (default_info revm) AsNotExisting ∅)
  else
    let '(c, x) := commit_info revm entry acc in
    Some (mkAccountChangeSet c (ra_storage acc) false, commit_storage revm acc x).

Lemma commit_account_spec a acc d ch nb d' ch' nb' :
  commit_account revm a acc (d, ch, nb) = Some (d', ch', nb') <->
  exists c x contracts, committed (ca_accounts d !! a) acc = Some (c, x) /\
    d' = mkCacheDB (<[a := x]> (ca_accounts d)) contracts (ca_db d) /\ ch' = <[a := c]> ch /\
    (contracts, nb') = if is_destroyed acc then (ca_contracts d, nb) else commit_code revm (ra_info acc) (ca_contracts d) nb.
Proof.
  unfold commit_account, committed. destruct (is_destroyed acc).
  - destruct (ca_accounts d !! a) as [x|]; cbn; [|naive_solver]. unfold set_account. naive_solver.
  - destruct (commit_code _ _ _ _) as [cs nb1], (commit_info _ _ _) as [c x]. naive_solver.
Qed.

(** The loop treats every account once. *)
Lemma commit_loop_spec l d ch nb d' ch' nb' : NoDup l.*1 ->
  commit_loop revm l (d, ch, nb) = Some (d', ch', nb') ->
  ca_db d' = ca_db d /\
  forall a, match (list_to_map l : gmap Z RevmAccount) !! a with
    | Some acc => exists c x, committed (ca_accounts d !! a) acc = Some (c, x) /\
                    ca_accounts d' !! a = Some x /\ ch' !! a = Some c
    | None => ca_accounts d' !! a = ca_accounts d !! a /\ ch' !! a = ch !! a
    end.
Proof.
  revert d ch nb. induction l as [|[a acc] l IH]; intros d ch nb Hn; cbn [commit_loop].
  { intros [= <- <- <-]. split; [done|]. done. }
  apply NoDup_cons in Hn as [Ha Hn]. cbn in Ha.
  destruct (commit_account _ _ _ _) as [[[d1 ch1] nb1]|] eqn:E1; [|done]. cbn [mbind option_bind].
  apply commit_account_spec in E1 as (c & x & cs & Ec & -> & -> & _). intros H.
  apply IH in H as [Edb H]; [|done]. split; [done|]. intros b. specialize (H b). cbn [ca_accounts] in H.
  cbn [list_to_map foldr fst snd]. destruct (decide (b = a)) as [->|Hb].
  - rewrite lookup_insert_eq. rewrite (not_elem_of_list_to_map_1 l a) in H by done.
    rewrite !lookup_insert_eq in H. destruct H as [H1 H2]. eauto.
  - rewrite (lookup_insert_ne _ a b) by done. rewrite !(lookup_insert_ne _ a b) in H by done. done.
Qed.

(** No account is vacant, so that nothing panics. *)
Lemma commit_loop_total l d ch nb : (forall a acc, (a, acc) ∈ l -> is_Some (ca_accounts d !! a)) ->
  is_Some (commit_loop revm l (d, ch, nb)).
Proof.
  revert d ch nb. induction l as [|[a acc] l IH]; intros d ch nb Hl; cbn [commit_loop]; [done|].
  destruct (Hl a acc (list_elem_of_here _ _)) as [x Hx].
  assert (exists d1 ch1 nb1, commit_account revm a acc (d, ch, nb) = Some (d1, ch1, nb1) /\
    forall b, is_Some (ca_accounts d !! b) -> is_Some (ca_accounts d1 !! b)) as (d1 & ch1 & nb1 & -> & Hd1).
  { assert (forall (m : gmap Z DbAccount) y b, is_Some (m !! b) -> is_Some (<[a := y]> m !! b)) as Hm.
    { intros m y b Hb. destruct (decide (b = a)) as [->|]; [by rewrite lookup_insert_eq|by rewrite lookup_insert_ne]. }
    unfold commit_account. destruct (is_destroyed acc).
    - rewrite Hx. do 3 eexists. split; [done|]. intros b. apply Hm.
    - destruct (commit_code _ _ _ _), (commit_info _ _ _). do 3 eexists. split; [done|]. intros b. apply Hm. }
  cbn [mbind option_bind]. apply IH. intros b acc' Hb. eapply Hd1, Hl, list_elem_of_further, Hb.
Qed.

(** With state clearing an empty account is none. *)
Definition norm (sd : bool) (o : option Account) : option Account :=
  match o with Some acc => if sd && account_is_empty acc then None else Some acc | None => None end.

(** What the interpreter returns for an account, where writing the change sets gives the
    state after it: with state clearing an account that is not empty does not become
    empty; storage is cleared only where there is none; an account that does not exist,
    is not created anew and is not taken as cleared has no storage left in the tables.
    With [rv], moreover, the change sets hold the old values: a destroyed account existed
    before, and, with state clearing, an empty account does not change. *)
Record regular (rv sd : bool) d (a : Z) acc : Prop := {
  rg_address : 0 <= a;
  rg_code : is_destroyed acc = false -> ai_code_hash (ra_info acc) <> 0;
  rg_full old : is_destroyed acc = false -> sd = true -> view d a = Some old ->
    account_is_empty old = false -> account_is_empty (to_reth_acc (ra_info acc)) = false;
  rg_cleared k : is_destroyed acc = false -> storage_cleared acc = true -> slot_view d a k = 0;
  rg_fresh k : is_destroyed acc = false -> storage_cleared acc = false -> is_storage_cleared revm AsNotExisting = false ->
    view d a = None -> base_slot (ca_db d) a k = 0;
  rg_destroyed : rv = true -> is_destroyed acc = true -> norm sd (view d a) <> None;
  rg_empty old : rv = true -> is_destroyed acc = false -> sd = true -> view d a = Some old ->
    account_is_empty old = true -> to_reth_acc (ra_info acc) = old
}.

Lemma reth_acc_empty i : account_is_empty (to_reth_acc i) = true -> to_reth_acc i = empty_account.
Proof.
  unfold account_is_empty, to_reth_acc, empty_account. cbn. rewrite !andb_true_iff, !Z.eqb_eq. intros [ [-> ->] H]. f_equal.
  destruct (Z.eqb_spec (ai_code_hash i) KECCAK_EMPTY); [done|]. cbn in H. by apply Z.eqb_eq in H.
Qed.

(** An account that exists: it changed, or it did not. *)
Lemma existing_change (rv sd : bool) i j :
  ai_code_hash j <> 0 ->
  (sd = true -> account_is_empty (to_reth_acc i) = false -> account_is_empty (to_reth_acc j) = false) ->
  (rv = true -> sd = true -> account_is_empty (to_reth_acc i) = true -> to_reth_acc j = to_reth_acc i) ->
  let c := if negb (info_eqb revm i j) then Changed (to_reth_acc j) (to_reth_acc i) else NoChange (info_is_empty revm j) in
  (rv = true -> info_valid sd (norm sd (Some (to_reth_acc i))) c) /\
  norm sd (Some (to_reth_acc j)) = info_after sd c (norm sd (Some (to_reth_acc i))).
Proof.
  intros Hcode Hf He. cbv zeta. rewrite (ok_is_empty revm j Hcode). pose proof (ok_info_eqb revm i j) as Heq.
  pose proof (reth_acc_empty i) as Hi. pose proof (reth_acc_empty j) as Hj.
  generalize dependent (to_reth_acc i). generalize dependent (to_reth_acc j). intros new Hj old Hf He Heq Hi.
  destruct (info_eqb revm i j); cbn [negb info_valid info_after norm].
  - rewrite <- (proj1 Heq eq_refl). destruct sd, (account_is_empty old); by split.
  - assert (old <> new) by (intros Hn; apply Heq in Hn; done).
    destruct sd; [|done]. cbn [andb]. destruct (account_is_empty old); [|by rewrite Hf].
    split; [intros ->; by rewrite He in *|]. destruct (account_is_empty new); [|done].
    by rewrite Hi, Hj in *.
Qed.

(** The change set of one account describes the step of the cache. *)
Lemma committed_info rv sd d a acc x c y : regular rv sd d a acc -> ca_accounts d !! a = Some x ->
  committed (Some x) acc = Some (c, y) ->
  (rv = true -> info_valid sd (norm sd (view d a)) (account c)) /\
  norm sd (view_entry y) = info_after sd (account c) (norm sd (view d a)).
Proof.
  intros [_ Hcode Hf _ _ Hd He] Hx Hc. unfold view in *. rewrite Hx in *. unfold committed in Hc.
  destruct (is_destroyed acc) eqn:Ed.
  { cbn in Hc. injection Hc as <- <-. cbn. split; [|done]. intros Hrv. specialize (Hd Hrv eq_refl). unfold view_entry, norm in *.
    destruct (account_state x); [done|..]; by destruct (sd && _). }
  destruct (commit_info revm (Some x) acc) as [ci x1] eqn:Ei. injection Hc as <- <-. cbn [account].
  unfold commit_info in Ei. injection Ei as <- <-.
  assert (view_entry (commit_storage revm acc (mkDbAccount (ra_info acc) (account_state x) (da_storage x)))
          = Some (to_reth_acc (ra_info acc))) as ->.
  { unfold commit_storage, view_entry. cbn.
    destruct (storage_cleared acc); [done|]. by destruct (is_storage_cleared revm (account_state x)). }
  unfold view_entry in *. specialize (Hcode eq_refl). specialize (Hf (to_reth_acc (da_info x)) eq_refl).
  assert (He' := fun H => He (to_reth_acc (da_info x)) H eq_refl).
  destruct (account_state x); [|by apply existing_change; [|intros Hsd; apply Hf|intros Hrv Hsd; apply He']..].
  cbn. by destruct (sd && _).
Qed.

(** A contract that a transaction creates and destroys: its change set holds an empty
    account as the old one, where there was none, and the row it writes says so. *)
Lemma created_destroyed sd d a acc x now (t : AccountTables) : cache_wf d -> ca_accounts d !! a = Some x ->
  account_state x = AsNotExisting -> is_destroyed acc = true ->
  exists y, committed (Some x) acc = Some (mkAccountChangeSet (Destroyed empty_account) ∅ true, y) /\
    view d a = None /\ (now, (a, Some empty_account)) ∈ AccountChangeSetTable (apply_to_db (Destroyed empty_account) a now sd t).
Proof.
  intros Hw Hx Hs Hd. destruct (Hw a x Hx Hs) as [He _]. unfold committed. rewrite Hd. cbn [mbind option_bind]. rewrite He.
  eexists. split; [reflexivity|]. split; [unfold view, view_entry; by rewrite Hx, Hs|]. cbn. set_solver.
Qed.

(** So do its slots. *)
Lemma committed_slots rv sd d a acc x c y k : regular rv sd d a acc -> cache_wf d -> ca_accounts d !! a = Some x ->
  committed (Some x) acc = Some (c, y) -> entry_slot (ca_db d) a k y = slot_after c k (slot_view d a k).
Proof.
  intros [_ _ _ Hcl Hfr _ _] Hwf Hx Hc. pose proof (Hwf a x Hx) as Hne. unfold committed in Hc.
  destruct (is_destroyed acc) eqn:Ed.
  { cbn in Hc. injection Hc as <- <-. unfold entry_slot, slot_after. cbn. by rewrite !lookup_empty. }
  destruct (commit_info revm (Some x) acc) as [ci x1] eqn:Ei. injection Hc as <- <-.
  unfold commit_info in Ei. injection Ei as _ <-. unfold slot_after, commit_storage. cbn [acs_storage wipe_storage account_state da_storage da_info].
  specialize (Hcl k eq_refl). specialize (Hfr k eq_refl). unfold slot_view, view in *. rewrite Hx in *.
  unfold entry_slot in *. destruct (ok_cleared revm) as (C1 & C2 & C3).
  assert (Hu : forall m, ((snd <$> ra_storage acc) ∪ m) !! k =
    match ra_storage acc !! k with Some (_, p) => Some p | None => m !! k end).
  { intros m. rewrite lookup_union, lookup_fmap. by destruct (ra_storage acc !! k) as [[o p]|], (m !! k). }
  destruct (storage_cleared acc); cbn [da_storage account_state].
  - rewrite Hu, lookup_empty. destruct (ra_storage acc !! k) as [[]|]; [done|]. symmetry. by apply Hcl.
  - destruct (is_storage_cleared revm (account_state x)) eqn:Ec; cbn [da_storage account_state]; rewrite Hu;
      (destruct (ra_storage acc !! k) as [[]|]; [done|]); destruct (da_storage x !! k) eqn:Ek; try done.
    + by destruct (account_state x); rewrite ?C2, ?C3 in Ec.
    + unfold view_entry in Hfr. destruct (account_state x); rewrite ?C1 in Ec; try done. by apply Hfr.
Qed.

Lemma committed_wf entry acc c y : committed entry acc = Some (c, y) -> account_state y = AsNotExisting ->
  to_reth_acc (da_info y) = empty_account /\ forall k v, da_storage y !! k = Some v -> v = 0.
Proof.
  unfold committed. destruct (is_destroyed acc).
  - destruct entry; cbn; [|done]. intros [= <- <-] _. split; [apply (ok_default_info revm)|]. intros k v. cbn.
    by rewrite lookup_empty.
  - destruct (commit_info revm entry acc) as [ci x1]. intros [= <- <-]. unfold commit_storage. cbn.
    destruct (storage_cleared acc); [done|]. by destruct (is_storage_cleared revm (account_state x1)).
Qed.

Lemma committed_wipe entry acc c y : committed entry acc = Some (c, y) -> wipe_storage c = true -> acs_storage c = ∅.
Proof.
  unfold committed. destruct (is_destroyed acc).
  - destruct entry; cbn; [|done]. by intros [= <- <-].
  - destruct (commit_info revm entry acc). by intros [= <- <-].
Qed.
End Commit.

(** ** Tables that hold the state of the cache *)
Section Mirror.
Context {E IL TE : Type} (value_le : relation Z) `{!RelDecision value_le, !TotalOrder value_le}.
Context (revm : Revm E) `{!RevmOk revm}.
Implicit Types (d : CacheDB E) (s : StateTables IL).

Record mirrors (sd : bool) d s : Prop := {
  mi_account a : plain_accounts s !! a = norm sd (view d a);
  mi_slot a k : slot value_le (plain_storage s) a k = slot_view d a k;
  mi_storage : storage_wf (plain_storage s);
  mi_cache : cache_wf d;
  mi_provider : provider_ok (ca_db d)
}.

Lemma mirrors_cached sd d d' s : mirrors sd d s -> cached revm d d' -> mirrors sd d' s.
Proof.
  intros [H1 H2 H3 H4 H5] Hc. destruct (cached_same revm d d' H5 H4 Hc) as (Hw & Hv & Hs). destruct Hc as [Edb _].
  split; [intros a; by rewrite Hv|intros a k; by rewrite Hs|done|done|by rewrite Edb].
Qed.

(** An account of the output with which the change sets are written. *)
Definition output_ok (rv sd : bool) d (a : Z) (acc : RevmAccount) : Prop :=
  regular revm rv sd d a acc /\ is_Some (ca_accounts d !! a) /\
  (is_destroyed acc = false -> forall k o p, ra_storage acc !! k = Some (o, p) -> o = slot_view d a k).

Lemma commit_mirrors rv sd d changes l d' ch nb s : mirrors sd d s -> map_Forall (output_ok rv sd d) changes ->
  l ≡ₚ map_to_list changes -> commit_loop revm l (d, ∅, ∅) = Some (d', ch, nb) ->
  (rv = true -> map_Forall (change_valid value_le sd s) ch) /\ map_Forall (slots_valid value_le (plain_storage s)) ch /\
  map_Forall (fun _ c => wipe_storage c = true -> acs_storage c = ∅) ch /\
  forall s', written value_le sd ch s s' -> mirrors sd d' s'.
Proof.
  intros [H1 H2 H3 H4 H5] Hout Hl Hc.
  assert (Hn : NoDup l.*1) by (rewrite Hl; apply NoDup_fst_map_to_list).
  assert (Em : list_to_map l = changes).
  { rewrite <- (list_to_map_to_list changes). by apply list_to_map_proper. }
  apply commit_loop_spec in Hc as [Edb Hc]; [|done]. rewrite Em in Hc.
  assert (Hat : forall a, match changes !! a with
      | Some acc => exists x c y, ca_accounts d !! a = Some x /\ committed revm (Some x) acc = Some (c, y) /\
                      output_ok rv sd d a acc /\ ca_accounts d' !! a = Some y /\ ch !! a = Some c
      | None => ca_accounts d' !! a = ca_accounts d !! a /\ ch !! a = None end).
  { intros a. specialize (Hc a). destruct (changes !! a) as [acc|] eqn:Ea; [|done].
    pose proof (Hout a acc Ea) as Ho. destruct (proj1 (proj2 Ho)) as [x Hx]. rewrite Hx in Hc.
    destruct Hc as (c & y & ? & ? & ?). by exists x, c, y. }
  assert (Hsl : map_Forall (slots_valid value_le (plain_storage s)) ch).
  { intros a c Hch. specialize (Hat a). destruct (changes !! a) as [acc|]; [|naive_solver].
    destruct Hat as (x & c' & y & Hx & Hcm & (Hr & _ & Ho) & _ & E'). simplify_eq.
    intros k o p Hk. unfold committed in Hcm. destruct (is_destroyed acc).
    + cbn in Hcm. injection Hcm as <- _. cbn in Hk. by rewrite lookup_empty in Hk.
    + destruct (commit_info revm (Some x) acc). injection Hcm as <- _. cbn in *. rewrite H2. symmetry. by eapply Ho. }
  split; [|split; [done|split] ].
  - intros Hrv a c Hch. split; [|split; [|by apply Hsl] ]; specialize (Hat a); (destruct (changes !! a) as [acc|]; [|naive_solver]);
      destruct Hat as (x & c' & y & Hx & Hcm & (Hr & _ & Ho) & _ & E'); simplify_eq; [apply Hr|rewrite H1; by eapply committed_info].
  - intros a c Hch. specialize (Hat a). destruct (changes !! a) as [acc|]; [|naive_solver].
    destruct Hat as (x & c' & y & Hx & Hcm & _ & _ & E'). simplify_eq. by eapply committed_wipe.
  - intros s' [W A B]. split; [..|done| |by rewrite Edb].
    + intros a. specialize (Hat a). rewrite A. unfold view at 1. destruct (changes !! a) as [acc|].
      * destruct Hat as (x & c & y & Hx & Hcm & (Hr & _) & -> & ->). rewrite H1. symmetry. by eapply committed_info.
      * destruct Hat as [-> ->]. rewrite H1, Edb. done.
    + intros a k. specialize (Hat a). rewrite B. unfold slot_view at 1. rewrite Edb. destruct (changes !! a) as [acc|].
      * destruct Hat as (x & c & y & Hx & Hcm & (Hr & _) & -> & ->). rewrite H2. symmetry. by eapply committed_slots.
      * destruct Hat as [-> ->]. apply H2.
    + intros a y Hy Hn'. specialize (Hat a). destruct (changes !! a) as [acc|].
      * destruct Hat as (x & c & y' & Hx & Hcm & _ & Hy' & _). simplify_eq. by eapply committed_wf.
      * destruct Hat as [Ey _]. rewrite Ey in Hy. by eapply H4.
Qed.
End Mirror.
