(* ===== verification/ExecutorProofs.v ===== *)
(** * Correctness of the block executor

    The transactions, the balance increments and the DAO fork of a block that executes
    yield change sets that write its final state to the tables. *)
From S2P Require Import Prelude Bytes BTree PoolInner Primitives ChainSpec SubState PrimitivesRlp Bloom Compact Tables History Provider ProviderState ProviderRevert ProviderEffect Executor ExecutorState.

Section Run.
Context {E IL TE : Type} (value_le : relation Z) `{!RelDecision value_le, !TotalOrder value_le}.
Context (revm : Revm E) `{!RevmOk revm} (chain_spec : ChainSpec).
Context (keccak256 : bytes -> Z) (recover_signer : TransactionSigned -> option Z).
Context (calculate_receipt_root : list Receipt -> Z).
Context (iter : forall V, gmap Z V -> list (Z * V)) (Hiter : iter_ok iter).
Implicit Types (d : CacheDB E) (s : StateTables IL) (x : ExecutorState (E := E)).

Abbreviation mirrors := (mirrors value_le).
Abbreviation transact := (transact revm).
Abbreviation execute_transaction := (execute_transaction revm keccak256 iter).
Abbreviation execute_loop_txs := (execute_loop_txs revm keccak256 iter).

(** ** Transactions *)

Lemma transact_ok tx sender x r x1 : transact tx sender x = (Ok r, x1) ->
  cached revm (x_db x) (x_db x1) /\
  0 <= er_gas_used (rs_result r) <= t_gas_limit (ts_transaction tx) /\
  forall a acc, rs_state r !! a = Some acc -> is_Some (ca_accounts (x_db x1) !! a) /\
    (is_destroyed acc = false -> forall k o p, ra_storage acc !! k = Some (o, p) -> o = slot_view (x_db x1) a k).
Proof.
  unfold Executor.transact. intros (x' & x2 & [= <- <-] & H)%bind_inv. cbv zeta in H.
  destruct (evm_run _ _ _ _) as [o d] eqn:Er. apply bind_inv in H as ([] & x3 & [= <-] & H).
  destruct (ok_run revm _ _ _ _ _ Er) as (Hc & _ & Hr).
  destruct o as [r'|e| |]; try done. injection H as -> <-. destruct (Hr r eq_refl) as [Hg Hs].
  split; [done|]. split; [|done]. cbn in Hg. unfold fill_tx_env in Hg. by destruct (ts_transaction tx).
Qed.

(** What a transaction adds: gas within its limit, a receipt of its logs. *)
Record tx_done (gas_limit cum : Z) (tx : TransactionSigned) (c : TransactionChangeSet) (cum' : Z) : Prop := {
  td_limit : t_gas_limit (ts_transaction tx) <= wrap 64 (gas_limit - cum);
  td_gas : exists g, 0 <= g <= t_gas_limit (ts_transaction tx) /\ cum' = wadd 64 cum g;
  td_receipt : cumulative_gas_used (receipt c) = cum';
  td_bloom : bloom_value <$> calc_logs_bloom keccak256 (logs (receipt c)) = Some (bloom (receipt c))
}.

Lemma execute_transaction_inv gl cum tx sender x c cum' x2 :
  execute_transaction gl cum tx sender x = (Ok (c, cum'), x2) ->
  tx_done gl cum tx c cum' /\
  exists r x1 nb, transact tx sender x = (Ok r, x1) /\
    commit_loop revm (iter _ (rs_state r)) (x_db x1, ∅, ∅) = Some (x_db x2, changeset c, nb).
Proof.
  unfold Executor.execute_transaction. cbv zeta.
  destruct (Z.ltb_spec (wrap 64 (gl - cum)) (t_gas_limit (ts_transaction tx))) as [|Hlim]; [done|].
  intros (r & x1 & Ht & H)%bind_inv. apply bind_inv in H as ([ch nb] & x3 & Hcm & H). cbv beta iota in H.
  destruct (calc_logs_bloom _ _) as [bl|] eqn:Eb; [|done]. injection H as <- <- <-.
  unfold commit_changes in Hcm. apply bind_inv in Hcm as (x' & x1' & [= <- <-] & Hcm).
  destruct (commit_loop _ _ _) as [[[d ch'] nb']|] eqn:El; [|done].
  apply bind_inv in Hcm as ([] & x4 & [= <-] & [= <- <- <-]).
  destruct (transact_ok _ _ _ _ _ Ht) as (_ & Hg & _).
  split; [split; [done|by eexists|done|cbn [receipt logs bloom]; by rewrite Eb]|]. exists r, x1, nb'. by split.
Qed.

(** The output of the interpreter for one transaction, where the change sets describe it. *)
Definition regular_tx (rv sd : bool) tx sender x : Prop :=
  forall r x1, transact tx sender x = (Ok r, x1) -> map_Forall (regular revm rv sd (x_db x1)) (rs_state r).

Lemma execute_transaction_mirrors rv sd gl cum tx sender x c cum' x2 s :
  mirrors sd (x_db x) s -> regular_tx rv sd tx sender x ->
  execute_transaction gl cum tx sender x = (Ok (c, cum'), x2) ->
  (rv = true -> map_Forall (change_valid value_le sd s) (changeset c)) /\
  forall now s', apply_account_changesets (TE := TE) value_le sd now (entries Z.le (changeset c)) s = (Ok tt, s') ->
    mirrors sd (x_db x2) s'.
Proof.
  intros Hm Hreg H. apply execute_transaction_inv in H as (_ & r & x1 & nb & Ht & Hc).
  destruct (transact_ok _ _ _ _ _ Ht) as (Hcd & _ & Hs).
  assert (Hout : map_Forall (output_ok revm rv sd (x_db x1)) (rs_state r)).
  { intros a acc Ha. destruct (Hs a acc Ha). split; [by apply (Hreg r x1 Ht)|done]. }
  destruct (commit_mirrors value_le revm rv sd _ _ _ _ _ _ s (mirrors_cached value_le revm _ _ _ _ Hm Hcd) Hout (Hiter _ _) Hc)
    as (Hv & Hsl & Hw & Hnext).
  split; [done|]. intros now s' Happ. apply Hnext. eapply apply_entries_after; try done. apply Hm.
Qed.

(** ** The loop over the transactions *)

Fixpoint regular_txs (rv sd : bool) (gl : Z) (l : list (TransactionSigned * Z)) (cum : Z) x : Prop :=
  match l with
  | [] => True
  | (tx, sender) :: l =>
      regular_tx rv sd tx sender x /\
      forall c cum' x2, execute_transaction gl cum tx sender x = (Ok (c, cum'), x2) -> regular_txs rv sd gl l cum' x2
  end.

(** The gas accounting of a list of transactions. *)
Inductive txs_done (gl : Z) : Z -> list TransactionSigned -> list TransactionChangeSet -> Z -> Prop :=
| txs_done_nil cum : txs_done gl cum [] [] cum
| txs_done_cons cum tx txs c cs cum' cum'' :
    tx_done gl cum tx c cum' -> txs_done gl cum' txs cs cum'' -> txs_done gl cum (tx :: txs) (c :: cs) cum''.

Lemma execute_loop_inv gl l cum acc x out cum' x1 :
  execute_loop_txs gl l cum acc x = (Ok (out, cum'), x1) -> exists new, out = acc ++ new /\ txs_done gl cum l.*1 new cum'.
Proof.
  revert cum acc x. induction l as [|[tx sender] l IH]; intros cum acc x; cbn [Executor.execute_loop_txs].
  { intros [= <- <- <-]. exists []. split; [by rewrite app_nil_r|constructor]. }
  intros ([c cum1] & x2 & H1 & H)%bind_inv. cbv beta iota in H. apply IH in H as (new & -> & Hd).
  exists (c :: new). split; [by rewrite <- app_assoc|]. cbn. econstructor; [|done].
  by apply execute_transaction_inv in H1 as [? _].
Qed.

Lemma execute_loop_mirrors rv sd gl l cum acc x out cum' x1 s now :
  mirrors sd (x_db x) s -> regular_txs rv sd gl l cum x ->
  execute_loop_txs gl l cum acc x = (Ok (out, cum'), x1) ->
  exists new, out = acc ++ new /\ (rv = true -> txs_valid (TE := TE) value_le sd now new s) /\
    forall now' n s', apply_transactions (TE := TE) value_le sd now' new s = (Ok n, s') -> mirrors sd (x_db x1) s'.
Proof.
  revert cum acc x s now. induction l as [|[tx sender] l IH]; intros cum acc x s now Hm Hr; cbn [Executor.execute_loop_txs].
  { intros [= <- <- <-]. exists []. split; [by rewrite app_nil_r|]. split; [done|]. by intros now' n s' [= _ <-]. }
  destruct Hr as [Hr1 Hr2]. intros ([c cum1] & x2 & H1 & H)%bind_inv. cbv beta iota in H.
  destruct (execute_transaction_mirrors rv sd gl cum tx sender x c cum1 x2 s Hm Hr1 H1) as [Hv Hnext].
  assert (Hrest : forall now now' s', apply_account_changesets (TE := TE) value_le sd now (entries Z.le (changeset c)) s = (Ok tt, s') ->
    exists new, out = (acc ++ [c]) ++ new /\
      (rv = true -> txs_valid (TE := TE) value_le sd now' new (with_bytecodes (new_bytecodes c ∪ Bytecodes s') s')) /\
      forall now2 n s2, apply_transactions (TE := TE) value_le sd now2 new (with_bytecodes (new_bytecodes c ∪ Bytecodes s') s') = (Ok n, s2) ->
        mirrors sd (x_db x1) s2).
  { intros now1 now2 s' Happ. apply (IH cum1 (acc ++ [c]) x2); [|by eapply Hr2|done].
    destruct (Hnext _ _ Happ). by split. }
  destruct (execute_loop_inv _ _ _ _ _ _ _ _ H) as (new & -> & _).
  exists (c :: new). split; [by rewrite <- app_assoc|]. split.
  - intros Hrv. split; [by apply Hv|]. intros s' Happ. destruct (Hrest now (now + 1) s' Happ) as (new' & E' & Hv' & _).
    apply app_inv_head in E' as <-. by apply Hv'.
  - intros now' n s'. cbn [apply_transactions]. intros ([] & s1 & Happ & Hrun)%bind_inv.
    destruct (Hrest now' 0 s1 Happ) as (new' & E' & _ & Hend). apply app_inv_head in E' as <-.
    apply bind_inv in Hrun as ([] & s2 & [= <-] & Hrun). by eapply Hend.
Qed.

(** ** Changes at the end of a block *)

(** The account changes [m] describe the step from [d0] to [d], with the old values for
    [rv]. *)
Record described (rv sd : bool) (m : gmap Z AccountInfoChangeSet) d0 d : Prop := {
  de_change a : match m !! a with
    | Some c => (rv = true -> info_valid sd (norm sd (view d0 a)) c) /\ norm sd (view d a) = info_after sd c (norm sd (view d0 a))
    | None => view d a = view d0 a
    end;
  de_slot a k : slot_view d a k = slot_view d0 a k;
  de_cache : cache_wf d;
  de_db : ca_db d = ca_db d0
}.

Lemma described_refl rv sd d : cache_wf d -> described rv sd ∅ d d.
Proof. intros Hw. by split. Qed.

Lemma described_cached rv sd m d0 d d' : provider_ok (ca_db d0) -> described rv sd m d0 d -> cached revm d d' -> described rv sd m d0 d'.
Proof.
  intros Hp [H1 H2 H3 H4] Hc. destruct (cached_same revm d d') as (Hw & Hv & Hs); [by rewrite H4|done..|].
  split; [intros a; rewrite Hv; apply H1|intros a k; by rewrite Hs|done|destruct Hc as [-> _]; done].
Qed.

Lemma described_store rv sd m d0 d a (x y : DbAccount) c : described rv sd m d0 d -> m !! a = None -> ca_accounts d !! a = Some x ->
  account_state y <> AsNotExisting -> (rv = true -> info_valid sd (norm sd (view_entry x)) c) ->
  norm sd (view_entry y) = info_after sd c (norm sd (view_entry x)) ->
  (forall k, entry_slot (ca_db d) a k y = entry_slot (ca_db d) a k x) ->
  described rv sd (<[a := c]> m) d0 (set_account a y d).
Proof.
  intros [H1 H2 H3 H4] Ha Hx Hy Hv Hn Hs. pose proof (H1 a) as Hva. rewrite Ha in Hva.
  assert (Hvx : view d0 a = view_entry x) by (rewrite <- Hva; unfold view; by rewrite Hx).
  split; [..|done].
  - intros b. destruct (decide (b = a)) as [->|Hb].
    + rewrite lookup_insert_eq, Hvx. unfold view, set_account. cbn. by rewrite lookup_insert_eq.
    + rewrite lookup_insert_ne by done. specialize (H1 b).
      assert (view (set_account a y d) b = view d b) as ->; [|done].
      unfold view, set_account. cbn. by rewrite lookup_insert_ne.
  - intros b k. rewrite <- H2. unfold slot_view, set_account. cbn. destruct (decide (b = a)) as [->|Hb].
    + by rewrite lookup_insert_eq, Hx.
    + by rewrite lookup_insert_ne.
  - intros b z Hz. unfold set_account in Hz. cbn in Hz. destruct (decide (b = a)) as [->|Hb].
    + rewrite lookup_insert_eq in Hz. by injection Hz as <-.
    + rewrite lookup_insert_ne in Hz by done. by apply (H3 b).
Qed.

Lemma load_ok a x y x1 : load revm a x = (Ok y, x1) -> cached revm (x_db x) (x_db x1) /\ ca_accounts (x_db x1) !! a = Some y.
Proof.
  unfold load. intros (x' & x2 & [= <- <-] & H)%bind_inv. pose proof (ok_load revm a (x_db x)) as Hl.
  destruct (load_account _ _ _) as [[y' d]|e| |]; try done. apply bind_inv in H as ([] & x3 & [= <-] & [= <- <-]). done.
Qed.

Lemma store_ok a (y : DbAccount) x u x1 : store a y x = (Ok u, x1) -> x_db x1 = set_account a y (x_db x).
Proof. unfold store. by intros (x' & x2 & [= <- <-] & [= _ <-])%bind_inv. Qed.

(** The increments that the change sets describe: the balance does not overflow, and with
    state clearing an empty account gets something.  With [rv], a rewarded account is
    not an empty one that state clearing keeps out of the tables. *)
Definition increment_ok (rv sd : bool) d (a increment : Z) : Prop :=
  0 <= increment /\
  forall old, view d a = Some old ->
    0 <= acc_balance old /\ acc_balance old + increment < 2 ^ 256 /\
    (sd = true -> account_is_empty old = true -> 0 < increment) /\
    (rv = true -> sd = true -> account_is_empty old = false).

Lemma incremented_not_empty i balance increment : 0 <= ai_balance i -> 0 <= increment ->
  ai_balance i + increment < 2 ^ 256 -> balance = wadd 256 (ai_balance i) increment ->
  (account_is_empty (to_reth_acc i) = true -> 0 < increment) -> account_is_empty (to_reth_acc (set_balance balance i)) = false.
Proof.
  intros Hb Hi Hs -> He. rewrite wadd_small by (unfold in_u; lia).
  destruct (account_is_empty (to_reth_acc (set_balance (ai_balance i + increment) i))) eqn:Ee; [|done].
  unfold account_is_empty, to_reth_acc, set_balance in *.
  cbn [acc_nonce acc_balance bytecode_hash ai_nonce ai_balance ai_code_hash] in *.
  rewrite !andb_true_iff, !Z.eqb_eq in Ee. destruct Ee as [ [E1 E2] E3]. rewrite E1, E3 in He.
  assert (ai_balance i = 0) as E0 by lia. rewrite E0 in He. specialize (He eq_refl). lia.
Qed.

Lemma increment_described rv sd m d0 a increment x c x1 : provider_ok (ca_db d0) -> described rv sd m d0 (x_db x) -> m !! a = None ->
  increment_ok rv sd d0 a increment ->
  account_balance_increment_changeset revm a increment x = (Ok c, x1) -> described rv sd (<[a := c]> m) d0 (x_db x1).
Proof.
  intros Hp Hd Ha [Hi Hok]. unfold account_balance_increment_changeset. intros (y & x2 & [Hc Hy]%load_ok & H)%bind_inv.
  pose proof (described_cached _ _ _ _ _ _ Hp Hd Hc) as Hd2. cbv zeta in H.
  assert (Hv : view d0 a = view_entry y).
  { pose proof (de_change _ _ _ _ _ Hd2 a) as Hv. rewrite Ha in Hv. rewrite <- Hv. unfold view. by rewrite Hy. }
  rewrite Hv in Hok. pose proof (de_cache _ _ _ _ _ Hd2 a y Hy) as Hne.
  set (info := set_balance (wadd 256 (ai_balance (da_info y)) increment) (da_info y)) in H.
  assert (Hchanged : forall st, account_state y <> AsNotExisting -> st <> AsNotExisting ->
    (forall k, entry_slot (ca_db (x_db x2)) a k (mkDbAccount info st (da_storage y)) = entry_slot (ca_db (x_db x2)) a k y) ->
    described rv sd (<[a := Changed (to_reth_acc info) (to_reth_acc (da_info y))]> m) d0 (set_account a (mkDbAccount info st (da_storage y)) (x_db x2))).
  { intros st Hst Hst' Hsl. assert (Hvy : view_entry y = Some (to_reth_acc (da_info y))) by (unfold view_entry; by destruct (account_state y)).
    destruct (Hok _ Hvy) as (Hb & Hs & Hpos & He).
    assert (sd = true -> account_is_empty (to_reth_acc info) = false) as He' by (intros Hsd; by eapply incremented_not_empty; auto).
    apply (described_store rv sd m d0 (x_db x2) a y); try done; rewrite Hvy; unfold view_entry; cbn [account_state da_info norm info_valid info_after].
    - intros Hrv. destruct sd; [by rewrite He|done].
    - destruct st; try done; cbn [norm]; destruct sd; cbn [andb]; by rewrite ?He'. }
  destruct (account_state y) eqn:Est.
  - apply bind_inv in H as ([] & x3 & Ex3%store_ok & [= <- <-]). rewrite Ex3.
    destruct (Hne eq_refl) as [Hempty Hz]. apply (described_store rv sd m d0 (x_db x2) a y); try done.
    + unfold view_entry. by rewrite Est.
    + unfold view_entry. rewrite Est. cbn [account_state da_info norm info_after].
      replace (to_reth_acc info) with (mkAccount 0 (acc_balance (to_reth_acc info)) None).
      * cbn [norm info_after acc_balance]. by destruct (sd && _).
      * unfold info, to_reth_acc, empty_account in *. cbn. injection Hempty as -> _ ->. done.
    + intros k. unfold entry_slot. cbn. by rewrite Est.
  - apply bind_inv in H as ([] & x3 & Ex3%store_ok & [= <- <-]). rewrite Ex3. apply Hchanged; [done..|].
    intros k. unfold entry_slot. cbn. by rewrite Est.
  - apply bind_inv in H as ([] & x3 & Ex3%store_ok & [= <- <-]). rewrite Ex3. apply Hchanged; [done..|].
    intros k. unfold entry_slot. cbn. by rewrite Est.
  - apply bind_inv in H as ([] & x3 & Ex3%store_ok & [= <- <-]). rewrite Ex3. apply Hchanged; [done..|].
    intros k. unfold entry_slot. cbn. by rewrite Est.
Qed.

Lemma increment_loop_described rv sd l m d0 x m' x1 : provider_ok (ca_db d0) -> described rv sd m d0 (x_db x) -> NoDup l.*1 ->
  Forall (fun ai => m !! ai.1 = None /\ increment_ok rv sd d0 ai.1 ai.2) l ->
  increment_loop revm l m x = (Ok m', x1) ->
  described rv sd m' d0 (x_db x1) /\ (forall a, a ∉ l.*1 -> m' !! a = m !! a).
Proof.
  intros Hp. revert m x. induction l as [|[a inc] l IH]; intros m x Hd Hn Hl; cbn [increment_loop].
  { by intros [= <- <-]. }
  apply NoDup_cons in Hn as [Ha Hn]. apply Forall_cons in Hl as [[Hm Hi] Hl]. cbn in Ha, Hm, Hi.
  intros (c & x2 & Hc & H)%bind_inv. apply IH in H as [Hd' Hm']; [|by eapply increment_described|done|].
  - split; [done|]. intros b. cbn. rewrite not_elem_of_cons. intros [Hb Hbl]. rewrite Hm' by done. by rewrite lookup_insert_ne.
  - apply Forall_forall. intros [b inc'] Hin. rewrite Forall_forall in Hl. destruct (Hl _ Hin) as [Hb Hi']. split; [|done].
    cbn in *. rewrite lookup_insert_ne; [done|]. intros ->. apply Ha, list_elem_of_fmap. by exists (b, inc').
Qed.

(** *** The DAO fork *)

(** A balance written in place, as an irregular change. *)
Lemma balance_described rv m d0 a x y x1 x2 u b : provider_ok (ca_db d0) -> described rv false m d0 (x_db x) -> m !! a = None ->
  view d0 a <> None -> load revm a x = (Ok y, x1) ->
  store a (mkDbAccount (set_balance b (da_info y)) (account_state y) (da_storage y)) x1 = (Ok u, x2) ->
  described rv false (<[a := Changed (to_reth_acc (set_balance b (da_info y))) (to_reth_acc (da_info y))]> m) d0 (x_db x2) /\
  view d0 a = Some (to_reth_acc (da_info y)).
Proof.
  intros Hp Hd Ha Hex [Hc Hy]%load_ok Hst%store_ok. rewrite Hst. pose proof (described_cached _ _ _ _ _ _ Hp Hd Hc) as Hd1.
  assert (Hv : view d0 a = view_entry y).
  { pose proof (de_change _ _ _ _ _ Hd1 a) as Hv. rewrite Ha in Hv. rewrite <- Hv. unfold view. by rewrite Hy. }
  rewrite Hv in Hex |- *. assert (Hs : account_state y <> AsNotExisting) by (unfold view_entry in Hex; by destruct (account_state y)).
  assert (Hvy : view_entry y = Some (to_reth_acc (da_info y))) by (unfold view_entry; by destruct (account_state y)).
  split; [|done]. apply (described_store rv false m d0 (x_db x1) a y); try done; rewrite ?Hvy; try done.
  unfold view_entry. cbn. by destruct (account_state y).
Qed.

Definition dao_accounts : list Z := DAO_HARDFORK_BENEFICIARY :: DAO_HARDKFORK_ACCOUNTS.
(** The accounts of the fork exist and differ from the rewarded ones. *)
Definition dao_ok (sd : bool) (m : gmap Z Z) d : Prop :=
  sd = false /\ forall a, a ∈ dao_accounts -> view d a <> None /\ m !! a = None.

Lemma drain_described rv l total ch m d0 x total' ch' x1 : provider_ok (ca_db d0) -> described rv false (ch ∪ m) d0 (x_db x) ->
  NoDup l -> Forall (fun a => (ch ∪ m) !! a = None /\ view d0 a <> None) l ->
  drain_accounts revm l total ch x = (Ok (total', ch'), x1) ->
  described rv false (ch' ∪ m) d0 (x_db x1) /\ (forall a, a ∉ l -> (ch' ∪ m) !! a = (ch ∪ m) !! a).
Proof.
  intros Hp. revert total ch x. induction l as [|a l IH]; intros total ch x Hd Hn Hl; cbn [drain_accounts].
  { by intros [= <- <- <-]. }
  apply NoDup_cons in Hn as [Ha Hn]. apply Forall_cons in Hl as [[Hm Hex] Hl]. intros (y & x2 & Hy & H)%bind_inv. cbv zeta in H.
  apply bind_inv in H as (u & x3 & Hst & H). destruct (balance_described _ _ _ _ _ _ _ _ _ _ Hp Hd Hm Hex Hy Hst) as [Hd3 _].
  rewrite insert_union_l in Hd3. apply IH in H as [Hd' Hk]; [|done|done|].
  - split; [done|]. intros b [Hb Hbl]%not_elem_of_cons. rewrite Hk by done. by rewrite <- insert_union_l, lookup_insert_ne.
  - apply Forall_forall. intros b Hb. rewrite Forall_forall in Hl. destruct (Hl b Hb). split; [|done].
    rewrite <- insert_union_l, lookup_insert_ne; [done|]. by intros ->.
Qed.

Lemma dao_accounts_distinct : NoDup dao_accounts.
Proof. apply (bool_decide_unpack _). by vm_compute. Qed.

Lemma dao_described rv m d0 x ch x1 : provider_ok (ca_db d0) -> described rv false m d0 (x_db x) ->
  (forall a, a ∈ dao_accounts -> m !! a = None /\ view d0 a <> None) ->
  dao_fork_changeset revm x = (Ok ch, x1) -> described rv false (ch ∪ m) d0 (x_db x1).
Proof.
  intros Hp Hd Hok. unfold dao_fork_changeset. intros ([total ch1] & x2 & Hdr & H)%bind_inv. cbv beta iota zeta in H.
  pose proof dao_accounts_distinct as Hn. apply NoDup_cons in Hn as [Hb Hn].
  apply (drain_described rv _ _ _ m d0) in Hdr as [Hd2 Hk]; [|done|by rewrite map_empty_union|done|].
  - apply bind_inv in H as (y & x3 & Hy & H). apply bind_inv in H as (u & x4 & Hst & [= <- <-]).
    rewrite <- insert_union_l. destruct (Hok DAO_HARDFORK_BENEFICIARY) as [Hm Hex]; [apply list_elem_of_here|].
    eapply balance_described; try done. rewrite Hk by done. by rewrite map_empty_union.
  - apply Forall_forall. intros a Ha. rewrite map_empty_union. apply Hok. by apply list_elem_of_further.
Qed.

(** ** Blocks *)
Abbreviation execute := (execute revm chain_spec keccak256 recover_signer iter).
Abbreviation execute_transactions := (execute_transactions revm chain_spec keccak256 recover_signer iter).
Abbreviation increments := (post_block_balance_increments chain_spec).

Definition spurious_dragon (n : Z) : bool := active_at_block (fork chain_spec SpuriousDragon) n.

(** The run of a block that the change sets describe, with the old values for [rv]. *)
Definition regular_block (rv : bool) (block : Block) (td : Z) (senders : option (list Z)) x : Prop :=
  let sd := spurious_dragon (number (b_header block)) in
  forall ss x1, recover_senders (E := E) recover_signer (b_body block) senders = Ok ss ->
    init_env chain_spec (b_header block) td x = (Ok tt, x1) ->
    regular_txs rv sd (h_gas_limit (b_header block)) (zip (b_body block) ss) 0 x1 /\
    forall out x2, execute_loop_txs (h_gas_limit (b_header block)) (zip (b_body block) ss) 0 [] x1 = (Ok out, x2) ->
      map_Forall (increment_ok rv sd (x_db x2)) (increments block td) /\
      (transitions_at_block (fork chain_spec Dao) (number (b_header block)) = true -> dao_ok sd (increments block td) (x_db x2)).

Lemma init_env_db header td x u x1 : init_env (E := E) chain_spec header td x = (Ok u, x1) -> x_db x1 = x_db x.
Proof.
  unfold init_env. intros (x' & x2 & [= <- <-] & H)%bind_inv. destruct (fill_cfg_and_block_env _ _ _ _); [|done].
  by injection H as _ <-.
Qed.

Lemma execute_inv block td senders x r x3 : execute block td senders x = (Ok r, x3) ->
  exists ss x1 cum x2 m, recover_senders (E := E) recover_signer (b_body block) senders = Ok ss /\
    init_env chain_spec (b_header block) td x = (Ok tt, x1) /\
    execute_loop_txs (h_gas_limit (b_header block)) (zip (b_body block) ss) 0 [] x1 = (Ok (tx_changesets r, cum), x2) /\
    gas_used (b_header block) = cum /\
    exists x2', increment_loop revm (iter _ (increments block td)) ∅ x2 = (Ok m, x2') /\
    if transitions_at_block (fork chain_spec Dao) (number (b_header block))
    then exists ch, dao_fork_changeset revm x2' = (Ok ch, x3) /\ block_changesets r = ch ∪ m
    else x3 = x2' /\ block_changesets r = m.
Proof.
  unfold Executor.execute. intros ([out cum] & x2 & Ht & H)%bind_inv. cbv beta iota in H.
  unfold Executor.execute_transactions in Ht. apply bind_inv in Ht as (ss & x0 & Hs & Ht).
  assert (recover_senders (E := E) recover_signer (b_body block) senders = Ok ss /\ x0 = x) as [Hss ->] by (unfold st_lift in Hs; by injection Hs).
  apply bind_inv in Ht as ([] & x1 & Hi & Ht).
  destruct (Z.eqb_spec (gas_used (b_header block)) cum) as [Hg|]; [|done]. cbn [negb] in H.
  apply bind_inv in H as (m & x2' & Hm & H). apply bind_inv in H as (m' & x3' & Hd & [= <- <-]).
  exists ss, x1, cum, x2, m. do 4 (split; [done|]). exists x2'. split; [done|].
  destruct (transitions_at_block _ _).
  - apply bind_inv in Hd as (ch & x4 & Hch & [= <- <-]). eauto.
  - by injection Hd as <- <-.
Qed.

(** The changes at the end of the block, for the cache and for the tables. *)
Lemma block_changes_described rv sd block td x2 r x3 m x2' :
  provider_ok (ca_db (x_db x2)) -> cache_wf (x_db x2) ->
  map_Forall (increment_ok rv sd (x_db x2)) (increments block td) ->
  (transitions_at_block (fork chain_spec Dao) (number (b_header block)) = true -> dao_ok sd (increments block td) (x_db x2)) ->
  increment_loop revm (iter _ (increments block td)) ∅ x2 = (Ok m, x2') ->
  (if transitions_at_block (fork chain_spec Dao) (number (b_header block))
   then exists ch, dao_fork_changeset revm x2' = (Ok ch, x3) /\ block_changesets r = ch ∪ m
   else x3 = x2' /\ block_changesets r = m) ->
  described rv sd (block_changesets r) (x_db x2) (x_db x3).
Proof.
  intros Hp Hw Hi Hdao Hm Hd.
  apply (increment_loop_described rv sd _ ∅ (x_db x2)) in Hm as [Hm Hkeys]; [|done|by apply described_refl| |].
  - destruct (transitions_at_block _ _).
    + destruct Hd as (ch & Hch & ->). destruct (Hdao eq_refl) as [-> Hok].
      apply (dao_described rv m (x_db x2) x2'); try done. intros a Ha. destruct (Hok a Ha) as [Hv Ha']. split; [|done].
      rewrite Hkeys; [by rewrite lookup_empty|]. rewrite list_elem_of_fmap. intros ([b i] & -> & Hin). cbn in *.
      rewrite (Hiter _ _), elem_of_map_to_list in Hin. congruence.
    + destruct Hd as [-> ->]. done.
  - rewrite (Hiter _ _). apply NoDup_fst_map_to_list.
  - apply Forall_forall. intros [a i] Hin. rewrite (Hiter _ _), elem_of_map_to_list in Hin. split; [by rewrite lookup_empty|].
    by apply Hi.
Qed.

Lemma described_mirrors rv sd m d0 d now s : mirrors sd d0 s -> described rv sd m d0 d ->
  (rv = true -> map_Forall (fun a c => info_valid sd (plain_accounts s !! a) c) m) /\
  mirrors sd d (with_accounts (apply_block_changesets sd now (entries Z.le m) (h_accounts (s_history s))) s).
Proof.
  intros [M1 M2 M3 M4 M5] [D1 D2 D3 D4]. split.
  - intros Hrv a c Ha. specialize (D1 a). rewrite Ha in D1. rewrite M1. by apply D1.
  - split; [..|done|done|by rewrite D4].
    + intros a. etransitivity; [apply block_changesets_after, entries_NoDup_keys|].
      rewrite list_to_map_entries. specialize (D1 a). specialize (M1 a). unfold plain_accounts in M1. rewrite M1.
      destruct (m !! a); [symmetry; apply D1|by rewrite D1].
    + intros a k. rewrite D2. apply M2.
Qed.

End Run.
