(* ===== verification/ExecutorReceipts.v ===== *)
(** * Gas and receipts of executed blocks

    The receipts of a block that executes account for its gas and its logs; an
    execution does not panic.  A block that passes the receipt check is one whose logs
    a filter finds. *)
From S2P Require Import Prelude Bytes BTree PoolInner Primitives ChainSpec SubState PrimitivesRlp Bloom Executor ExecutorState ExecutorProofs LogFilter.

Section Receipts.
Context {E : Type} (revm : Revm E) `{!RevmOk revm} (chain_spec : ChainSpec).
Context (keccak256 : bytes -> Z) (recover_signer : TransactionSigned -> option Z).
Context (calculate_receipt_root : list Receipt -> Z).
Context (iter : forall V, gmap Z V -> list (Z * V)) (Hiter : iter_ok iter).
Implicit Types (x : ExecutorState (E := E)).

Abbreviation execute := (execute revm chain_spec keccak256 recover_signer iter).
Abbreviation execute_and_verify_receipt :=
  (execute_and_verify_receipt revm chain_spec keccak256 recover_signer calculate_receipt_root iter).

(** ** Gas *)

(** Running sums. *)
Fixpoint running (cum : Z) (gs : list Z) : list Z :=
  match gs with [] => [] | g :: gs => (cum + g) :: running (cum + g) gs end.

(** What a block asks of the gas its transactions use, and its receipts record. *)
Record gas_accounted (gl cum : Z) (body : list TransactionSigned) (rs : list Receipt) (gs : list Z) (total : Z) : Prop := {
  ga_used : Forall2 (fun g tx => 0 <= g <= t_gas_limit (ts_transaction tx)) gs body;
  ga_receipts : cumulative_gas_used <$> rs = running cum gs;
  ga_limit : Forall (fun p => p.1 + t_gas_limit (ts_transaction p.2) <= gl) (zip (cum :: running cum gs) body);
  ga_total : total = cum + foldr Z.add 0 gs
}.

Lemma txs_done_gas gl cum body cs total : in_u 64 gl -> 0 <= cum <= gl -> txs_done keccak256 gl cum body cs total ->
  total <= gl /\ exists gs, gas_accounted gl cum body (receipt <$> cs) gs total.
Proof.
  intros Hgl Hc H. induction H as [cum|cum tx txs c cs cum' cum'' [Hl (g & Hg & Hcum') Hr _] _ IH].
  { split; [lia|]. exists []. split; cbn; [constructor|done|constructor|lia]. }
  unfold in_u in Hgl. rewrite wrap_small in Hl by (unfold in_u; lia). rewrite wadd_small in Hcum' by (unfold in_u; lia).
  destruct IH as (Ht & gs & [G1 G2 G3 G4]); [lia|]. split; [done|]. exists (g :: gs). subst cum'. split.
  - by constructor.
  - rewrite fmap_cons, fmap_cons. cbn [running]. by rewrite G2, Hr.
  - cbn [running zip_with]. constructor; [cbn; lia|done].
  - cbn [foldr]. lia.
Qed.

Lemma txs_done_bloom gl cum body cs total : txs_done keccak256 gl cum body cs total ->
  Forall (fun r => bloom_value <$> calc_logs_bloom keccak256 (logs r) = Some (bloom r)) (receipt <$> cs) /\ length cs = length body.
Proof. induction 1 as [|? ? ? ? ? ? ? [_ _ _ Hb] _ [IH1 IH2]]; cbn; [done|]. split; [by constructor|by rewrite IH2]. Qed.

Lemma recover_signers_length body ss : recover_signers recover_signer body = Some ss -> length ss = length body.
Proof.
  revert ss. induction body as [|tx body IH]; intros ss; cbn; [by intros [= <-]|].
  destruct (recover_signer tx); [|done]. cbn. destruct (recover_signers recover_signer body); [|done]. cbn.
  intros [= <-]. cbn. by rewrite (IH _ eq_refl).
Qed.

Lemma recover_senders_length body senders ss : recover_senders (E := E) recover_signer body senders = Ok ss -> length ss = length body.
Proof.
  unfold recover_senders. destruct senders as [ss'|].
  - destruct (Nat.eqb_spec (length body) (length ss')); [|done]. by intros [= <-].
  - destruct (recover_signers _ _) eqn:Er; [|done]. intros [= <-]. by apply recover_signers_length.
Qed.

Lemma execute_done block td senders x r x1 : execute block td senders x = (Ok r, x1) ->
  txs_done keccak256 (h_gas_limit (b_header block)) 0 (b_body block) (tx_changesets r) (gas_used (b_header block)).
Proof.
  intros H. apply execute_inv in H as (ss & x2 & cum & x3 & m & Hss & _ & Hl & Hg & _); [|done..].
  apply execute_loop_inv in Hl as (new & -> & Hd); [|done]. rewrite fst_zip in Hd by (apply recover_senders_length in Hss; lia).
  by rewrite Hg.
Qed.

(** C21. A block that executes has one receipt per transaction, which records the gas
    used so far; no transaction starts with a gas limit above what is left of the
    block, and the total is the gas used that the header states, within its limit.
    When the receipts are verified against the header, the logs of the block are those
    that its bloom announces, so that every log query finds them. *)
Theorem execute_receipts block td senders x r x1 : in_u 64 (h_gas_limit (b_header block)) ->
  execute_and_verify_receipt block td senders x = (Ok r, x1) ->
  let rs := receipt <$> tx_changesets r in
  (exists gs, gas_accounted (h_gas_limit (b_header block)) 0 (b_body block) rs gs (gas_used (b_header block))) /\
  gas_used (b_header block) <= h_gas_limit (b_header block) /\
  (active_at_block (fork chain_spec Byzantium) (number (b_header block)) = true ->
   zlen (concat (logs <$> rs)) < 2 ^ 32 ->
   receipts_root (b_header block) = calculate_receipt_root rs /\
   block_ok keccak256 (number (b_header block)) (mkRpcBlock (b_header block) (b_body block), rs)).
Proof.
  intros Hgl H. unfold Executor.execute_and_verify_receipt in H. apply bind_inv in H as (r' & x2 & He & H).
  apply bind_inv in H as ([] & x3 & Hv & [= -> <-]). apply execute_done in He. cbv zeta.
  assert (Hz : 0 <= 0 <= h_gas_limit (b_header block)) by (unfold in_u in Hgl; lia).
  destruct (txs_done_gas _ _ _ _ _ Hgl Hz He) as [Ht Hgs].
  split; [done|]. split; [done|]. intros Hbyz Hlen. rewrite Hbyz in Hv. unfold st_lift, verify_receipt in Hv. cbv zeta in Hv.
  destruct (Z.eqb_spec (calculate_receipt_root (receipt <$> tx_changesets r)) (receipts_root (b_header block))) as [Hroot|]; [|done].
  cbn [negb] in Hv. destruct (Z.eqb_spec (foldl (fun b r => Z.lor b (bloom r)) 0 (receipt <$> tx_changesets r)) (logs_bloom (b_header block))) as [Hbl|]; [|done].
  split; [done|]. destruct (txs_done_bloom _ _ _ _ _ He) as [Hb Hn]. split; [done|]. split; [cbn; by rewrite length_fmap|]. split; [done|].
  cbn [fst snd rb_header]. rewrite <- Hbl. by apply fold_blooms.
Qed.

(** ** Executions end without a panic *)

Lemma load_safe a x : safe (fst (load revm a x)).
Proof.
  unfold load. apply bind_safe; [done|]. intros x' x1 [= <- <-]. pose proof (ok_load revm a (x_db x)) as Hl.
  destruct (load_account revm a (x_db x)) as [[y d]|e| |]; done.
Qed.

Lemma transact_safe tx sender x : safe (fst (transact revm tx sender x)).
Proof.
  unfold transact. apply bind_safe; [done|]. intros x' x1 [= <- <-]. cbv zeta.
  destruct (evm_run _ _ _ _) as [o d] eqn:Er. destruct (ok_run revm _ _ _ _ _ Er) as (_ & Ho & _).
  apply bind_safe; [done|]. intros [] x2 [= <-]. by destruct o.
Qed.

Lemma execute_transaction_safe gl cum tx sender x : safe (fst (execute_transaction revm keccak256 iter gl cum tx sender x)).
Proof.
  unfold execute_transaction. cbv zeta. destruct (_ <? _); [done|]. apply bind_safe; [apply transact_safe|].
  intros r x1 Ht. destruct (transact_ok revm _ _ _ _ _ Ht) as (_ & _ & Hs). apply bind_safe.
  - unfold commit_changes. apply bind_safe; [done|]. intros x' x2 [= <- <-].
    destruct (commit_loop_total revm (iter _ (rs_state r)) (x_db x1) ∅ ∅) as [[[d ch] nb] ->]; [|done].
    intros a acc Hin. rewrite (Hiter _ _), elem_of_map_to_list in Hin. by eapply Hs.
  - intros [ch nb] x2 _. destruct (calc_logs_bloom_total keccak256 (er_logs (rs_result r))) as (b & -> & _). done.
Qed.

Lemma execute_loop_safe gl l cum acc x : safe (fst (execute_loop_txs revm keccak256 iter gl l cum acc x)).
Proof.
  revert cum acc x. induction l as [|[tx sender] l IH]; intros cum acc x; cbn [execute_loop_txs]; [done|].
  apply bind_safe; [apply execute_transaction_safe|]. intros [c cum'] x1 _. apply IH.
Qed.

Lemma increment_loop_safe l m x : safe (fst (increment_loop revm l m x)).
Proof.
  revert m x. induction l as [|[a i] l IH]; intros m x; cbn [increment_loop]; [done|].
  apply bind_safe; [|intros c x1 _; apply IH]. unfold account_balance_increment_changeset.
  apply bind_safe; [apply load_safe|]. intros y x1 _. cbv zeta. by destruct (account_state y).
Qed.

Lemma dao_safe x : safe (fst (dao_fork_changeset revm x)).
Proof.
  unfold dao_fork_changeset. apply bind_safe.
  - generalize DAO_HARDKFORK_ACCOUNTS, 0, (∅ : gmap Z AccountInfoChangeSet). intros l. revert x.
    induction l as [|a l IH]; intros x t ch; cbn [drain_accounts]; [done|].
    apply bind_safe; [apply load_safe|]. intros y x1 _. cbv zeta. apply bind_safe; [done|]. intros [] x2 _. apply IH.
  - intros [t ch] x1 _. cbv beta iota zeta. apply bind_safe; [apply load_safe|]. done.
Qed.

(** Executing and verifying a block ends with a result or an error, never in a
    panic, on a chain whose first fork is active at block 0. *)
Theorem execute_safe block td senders x : fork chain_spec Frontier = FcBlock 0 -> 0 <= number (b_header block) ->
  safe (fst (execute_and_verify_receipt block td senders x)).
Proof.
  intros Hf Hn. unfold Executor.execute_and_verify_receipt, Executor.execute, execute_transactions. apply bind_safe.
  - apply bind_safe.
    + apply bind_safe; [unfold st_lift, recover_senders; repeat case_match; done|]. intros ss x1 _. apply bind_safe.
      * unfold init_env. apply bind_safe; [done|]. intros x' x2 [= <- <-].
        unfold fill_cfg_and_block_env, fill_cfg_env, revm_spec. cbv zeta.
        assert (Ha : active_at_head (fork chain_spec Frontier) (mkHead (number (b_header block)) 0 (difficulty (b_header block)) td (timestamp (b_header block))) = true).
        { rewrite Hf. unfold active_at_head. cbn. by zdec. }
        rewrite Ha. by repeat case_match.
      * intros [] x2 _. apply execute_loop_safe.
    + intros [out cum] x1 _. cbv beta iota. destruct (negb _); [done|]. apply bind_safe; [apply increment_loop_safe|].
      intros m x2 _. apply bind_safe; [|done]. destruct (transitions_at_block _ _); [|done].
      apply bind_safe; [apply dao_safe|done].
  - intros r x1 _. apply bind_safe; [|done]. destruct (active_at_block _ _); [|done]. unfold st_lift, verify_receipt. cbv zeta.
    by repeat case_match.
Qed.
End Receipts.
