(* ===== verification/ExecutorRewards.v ===== *)
(** * Rewards and withdrawals

    The balance increments at the end of a block are the rewards of the issuance schedule
    and the withdrawals, added up per account. *)
From S2P Require Import Prelude Bytes BTree Primitives ChainSpec PrimitivesRlp Executor.

(** What a list of payments adds to an account. *)
Definition paid (a : Z) (l : list (Z * Z)) : Z := foldr (fun e n => (if e.1 =? a then e.2 else 0) + n) 0 l.

Lemma paid_app a l k : paid a (l ++ k) = paid a l + paid a k.
Proof. induction l as [|e l IH]; cbn; [done|]. fold (paid a (l ++ k)) (paid a l). lia. Qed.

Lemma pay_all l m a : in_u 256 (default 0 (m !! a)) ->
  default 0 (foldl (fun m e => add_increment e.1 e.2 m) m l !! a) = wrap 256 (default 0 (m !! a) + paid a l) /\
  (is_Some (foldl (fun m e => add_increment e.1 e.2 m) m l !! a) <-> is_Some (m !! a) \/ a ∈ l.*1).
Proof.
  revert m. induction l as [|[b v] l IH]; intros m Hm; cbn [foldl fst snd paid foldr fmap list_fmap].
  { rewrite Z.add_0_r, wrap_small by done. split; [done|]. set_solver. }
  fold (paid a l). destruct (Z.eqb_spec b a) as [->|Hne].
  - destruct (IH (add_increment a v m)) as [H1 H2].
    { unfold add_increment. rewrite lookup_insert_eq. by apply wrap_range. }
    rewrite H1, H2. unfold add_increment. rewrite lookup_insert_eq. cbn [default from_option]. split.
    + unfold wadd, wrap. change (id ?z) with z. rewrite Zplus_mod_idemp_l. f_equal. lia.
    + rewrite elem_of_cons. split; [intros _; right; by left|]. intros _. by left.
  - destruct (IH (add_increment b v m)) as [H1 H2]; unfold add_increment in *; rewrite lookup_insert_ne in * by done; [done|].
    rewrite H1, H2. split; [f_equal; lia|]. rewrite elem_of_cons. naive_solver.
Qed.

(** ** The issuance of a chain *)

Definition ETHER : Z := 10 ^ 18.

(** When the block reward changes: EIP-649 (Byzantium), EIP-1234 (the upgrade with
    Petersburg) and EIP-3675 (the merge); and when withdrawals start, EIP-4895. *)
Record Schedule := mkSchedule {
  sc_byzantium : option Z; sc_petersburg : option Z; sc_terminal_difficulty : Z; sc_shanghai : option Z
}.

Definition reached (at_ : option Z) (n : Z) : Prop := exists b, at_ = Some b /\ b <= n.

(** The reward of block [n] on a parent of total difficulty [ptd]; none after the merge. *)
Inductive issued (s : Schedule) (n ptd : Z) : option Z -> Prop :=
| issued_none : sc_terminal_difficulty s <= ptd -> issued s n ptd None
| issued_petersburg : ptd < sc_terminal_difficulty s -> reached (sc_petersburg s) n -> issued s n ptd (Some (2 * ETHER))
| issued_byzantium : ptd < sc_terminal_difficulty s -> ~ reached (sc_petersburg s) n -> reached (sc_byzantium s) n ->
    issued s n ptd (Some (3 * ETHER))
| issued_frontier : ptd < sc_terminal_difficulty s -> ~ reached (sc_petersburg s) n -> ~ reached (sc_byzantium s) n ->
    issued s n ptd (Some (5 * ETHER)).

Definition at_block (o : option Z) : ForkCondition := match o with Some b => FcBlock b | None => FcNever end.
Definition at_time (o : option Z) : ForkCondition := match o with Some t => FcTimestamp t | None => FcNever end.

(** A chain specification with that schedule. *)
Record follows (chain_spec : ChainSpec) (s : Schedule) : Prop := {
  fo_byzantium : fork chain_spec Byzantium = at_block (sc_byzantium s);
  fo_petersburg : fork chain_spec Petersburg = at_block (sc_petersburg s);
  fo_paris : exists b, fork chain_spec Paris = FcTTD b (sc_terminal_difficulty s);
  fo_shanghai : fork chain_spec Shanghai = at_time (sc_shanghai s)
}.

(** The payments of a block: each ommer's beneficiary gets the reward lessened by an
    eighth per generation, the block's beneficiary the reward and a 32nd of it per
    ommer; withdrawals are in Gwei. *)
Definition reward_payments (block : Block) (reward : option Z) : list (Z * Z) :=
  match reward with
  | Some reward =>
      ((fun o => (beneficiary o, (8 - (number (b_header block) - number o)) * reward / 8)) <$> b_ommers block) ++
      [(beneficiary (b_header block), reward + reward / 32 * zlen (b_ommers block))]
  | None => []
  end.

Definition withdrawal_payments (s : Schedule) (block : Block) : list (Z * Z) :=
  match sc_shanghai s with
  | Some t => if decide (t <= timestamp (b_header block))
              then (fun w => (w_address w, amount w * 10 ^ 9)) <$> default [] (b_withdrawals block) else []
  | None => []
  end.

Definition payments (s : Schedule) (block : Block) (reward : option Z) : list (Z * Z) :=
  reward_payments block reward ++ withdrawal_payments s block.

Section Rewards.
Context (chain_spec : ChainSpec) (s : Schedule) (Hs : follows chain_spec s).

Lemma reached_active o n : active_at_block (at_block o) n = true <-> reached o n.
Proof.
  destruct o as [b|]; cbn; [rewrite Z.leb_le|]; split; [by exists b|by intros (? & [= <-] & ?)|done|by intros (? & [=] & _)].
Qed.

(** The reward of the code is that of the schedule. *)
Lemma get_block_reward_issued header td : difficulty header <= td ->
  issued s (number header) (td - difficulty header) (get_block_reward chain_spec header td).
Proof.
  intros Htd. destruct Hs as [Hb Hp (fb & Hm) _]. unfold get_block_reward. rewrite Hm, Hb, Hp. cbn [active_at_ttd]. unfold saturating_sub.
  rewrite (proj2 (Z.ltb_ge _ _)) by lia. destruct (Z.leb_spec (sc_terminal_difficulty s) (td - difficulty header)) as [|Hlt]; [by constructor|].
  pose proof (reached_active (sc_petersburg s) (number header)) as Rp. pose proof (reached_active (sc_byzantium s) (number header)) as Rb.
  destruct (active_at_block (at_block (sc_petersburg s)) _).
  { replace WEI_2ETH with (2 * ETHER) by done. apply issued_petersburg; [done|by apply Rp]. }
  destruct (active_at_block (at_block (sc_byzantium s)) _).
  - replace WEI_3ETH with (3 * ETHER) by done. apply issued_byzantium; [done|by intros ?%Rp|by apply Rb].
  - replace WEI_5ETH with (5 * ETHER) by done. apply issued_frontier; [done|by intros ?%Rp|by intros ?%Rb].
Qed.

Definition ommers_ok (block : Block) : Prop :=
  Forall (fun o => 0 <= number (b_header block) - number o <= 8) (b_ommers block) /\ zlen (b_ommers block) < 2 ^ 32.
Definition withdrawals_ok (block : Block) : Prop :=
  Forall (fun w => in_u 64 (amount w)) (default [] (b_withdrawals block)).

Lemma issued_range n ptd r : issued s n ptd r -> match r with Some reward => 0 <= reward < 2 ^ 64 | None => True end.
Proof. by destruct 1. Qed.

Lemma ommer_reward_exact n o reward : 0 <= n - number o <= 8 -> 0 <= reward < 2 ^ 64 ->
  ommer_reward n reward o = (8 - (n - number o)) * reward / 8.
Proof.
  intros Hn Hr. unfold ommer_reward. rewrite (wrap_small 64) by (unfold in_u; lia).
  replace (8 + number o - n) with (8 - (n - number o)) by lia.
  rewrite wrap_small by (unfold in_u; nia). by rewrite Z.shiftr_div_pow2 by lia.
Qed.

Lemma block_reward_exact (ommers : list Header) reward : 0 <= reward < 2 ^ 64 -> zlen ommers < 2 ^ 32 ->
  block_reward reward ommers = reward + reward / 32 * zlen ommers.
Proof.
  intros Hr Ho. unfold block_reward. rewrite Z.shiftr_div_pow2 by lia. change (2 ^ 5) with 32.
  assert (0 <= reward / 32 < 2 ^ 64) by (split; [apply Z.div_pos; lia|apply Z.div_lt_upper_bound; lia]).
  rewrite (wrap_small 128 (_ * _)) by (unfold in_u; nia). apply wrap_small. unfold in_u. nia.
Qed.

(** The loops of the source pay the payments one after the other. *)
Abbreviation pay := (foldl (fun m e => add_increment e.1 e.2 m)).

Lemma ommers_pay (ommers : list Header) n reward m : 0 <= reward < 2 ^ 64 -> Forall (fun o => 0 <= n - number o <= 8) ommers ->
  foldl (fun m ommer => add_increment (beneficiary ommer) (ommer_reward n reward ommer) m) m ommers
  = pay m ((fun o => (beneficiary o, (8 - (n - number o)) * reward / 8)) <$> ommers).
Proof.
  intros Hr Ho. revert m. induction Ho as [|o l Hd _ IH]; intros m; [done|]. cbn [foldl fmap list_fmap fst snd].
  rewrite ommer_reward_exact by done. apply IH.
Qed.

Lemma withdrawals_pay ws m : Forall (fun w => in_u 64 (amount w)) ws ->
  foldl (fun m w => add_increment (w_address w) (amount_wei w) m) m ws = pay m ((fun w => (w_address w, amount w * 10 ^ 9)) <$> ws).
Proof.
  intros Hw. revert m. induction Hw as [|w ws Ha _ IH]; intros m; [done|]. cbn [foldl fmap list_fmap fst snd]. rewrite <- IH. do 2 f_equal.
  unfold amount_wei. apply wrap_small. unfold in_u in *. nia.
Qed.

Lemma increments_payments block td : ommers_ok block -> withdrawals_ok block -> difficulty (b_header block) <= td ->
  post_block_balance_increments chain_spec block td = pay ∅ (payments s block (get_block_reward chain_spec (b_header block) td)).
Proof.
  intros [Ho Hn] Hw Htd. unfold post_block_balance_increments, payments. cbv zeta. rewrite foldl_app.
  pose proof (issued_range _ _ _ (get_block_reward_issued _ _ Htd)) as Hrange.
  assert (Hrew : match get_block_reward chain_spec (b_header block) td with
      | Some reward => add_increment (beneficiary (b_header block)) (block_reward reward (b_ommers block))
          (foldl (fun m ommer => add_increment (beneficiary ommer) (ommer_reward (number (b_header block)) reward ommer) m) ∅ (b_ommers block))
      | None => ∅ end = pay ∅ (reward_payments block (get_block_reward chain_spec (b_header block) td))).
  { destruct (get_block_reward chain_spec (b_header block) td) as [reward|]; [|done].
    unfold reward_payments. rewrite foldl_app. cbn [foldl fst snd]. by rewrite block_reward_exact, ommers_pay. }
  rewrite Hrew. rewrite (fo_shanghai _ _ Hs). unfold withdrawal_payments.
  destruct (sc_shanghai s) as [t|]; [|done]. cbn [at_time active_at_timestamp].
  destruct (Z.leb_spec t (timestamp (b_header block))); [rewrite decide_True by done|by rewrite decide_False by lia].
  unfold withdrawals_ok in Hw. destruct (b_withdrawals block) as [ws|]; [|done]. cbn in Hw |- *. by apply withdrawals_pay.
Qed.

(** C22. The balance increments of a block are the payments of the issuance schedule.
    On a chain whose specification has the schedule, the reward is 5, 3 or 2 ether by
    the era of the block number, and none once the parent's total difficulty has
    reached the terminal one; ommers get it lessened by an eighth per generation, the
    block's beneficiary a 32nd more per ommer, and after Shanghai withdrawals are paid.
    They are added up per account modulo 2^256, and exactly the accounts paid have an
    entry.  Ommers are at most eight generations back and fewer than 2^32, amounts are
    64-bit, and the total difficulty includes that of the block. *)
Theorem balance_increments_paid block td a : ommers_ok block -> withdrawals_ok block -> difficulty (b_header block) <= td ->
  let m := post_block_balance_increments chain_spec block td in
  exists reward, issued s (number (b_header block)) (td - difficulty (b_header block)) reward /\
    default 0 (m !! a) = wrap 256 (paid a (payments s block reward)) /\ (is_Some (m !! a) <-> a ∈ (payments s block reward).*1).
Proof.
  intros Ho Hw Htd. cbv zeta. eexists. split; [by apply get_block_reward_issued|]. rewrite (increments_payments block td Ho Hw Htd).
  destruct (pay_all (payments s block (get_block_reward chain_spec (b_header block) td)) ∅ a) as [H1 H2]; [rewrite lookup_empty; unfold in_u; cbn; lia|].
  rewrite lookup_empty in H1, H2. split; [done|]. rewrite H2. split; [|by right]. by intros [[? [=]]|].
Qed.
End Rewards.
