(* ===== verification/ExecutorSample.v ===== *)
(** * A sample interpreter and a sample block

    An interpreter that meets what the executor relies on: a transaction moves its
    value, writes one slot of the account it calls and logs it.  A block of mainnet
    after Byzantium is executed with it. *)
From S2P Require Import Prelude Bytes BTree PoolInner Primitives ChainSpec SubState PrimitivesRlp Bloom Compact Tables History HistoryProofs Provider ProviderState ProviderRevert ProviderEffect LogFilter Executor ExecutorState ExecutorProofs ExecutorReceipts ExecutorRewards.

Module SampleExecutor.
Import ListIndex.
Import Sample.
Import SampleFilter.
Import SampleRevert.

(** ** The interpreter *)
Section Interpreter.
Implicit Types (d : CacheDB unit).

Definition no_info : AccountInfo := mkAccountInfo 0 0 KECCAK_EMPTY None.

Definition sample_load (a : Z) d : outcome unit (DbAccount * CacheDB unit) :=
  match ca_accounts d !! a with
  | Some x => Ok (x, d)
  | None =>
      match state_basic (ca_db d) a with
      | Ok (Some i) => let x := mkDbAccount i AsNone ∅ in Ok (x, set_account a x d)
      | Ok None => let x := mkDbAccount no_info AsNotExisting ∅ in Ok (x, set_account a x d)
      | _ => Err ()
      end
  end.

(** A transaction that is no call, or has less gas than a transfer takes, fails. *)
Definition sample_run (_ : bool) (env : Env) d : outcome Z ResultAndState * CacheDB unit :=
  let tx := env_tx env in
  match transact_to tx with
  | TransactCreate => (Err 0, d)
  | TransactCall to =>
      if te_gas_limit tx <? 21000 then (Err 1, d)
      else
        match sample_load (caller tx) d with
        | Ok (x, d1) =>
            match sample_load to d1 with
            | Ok (y, d2) =>
                let i := da_info x in
                let j := da_info y in
                let x' := mkRevmAccount (mkAccountInfo (ai_balance i - te_value tx) (ai_nonce i + 1) (ai_code_hash i) None) ∅ false false in
                let y' := mkRevmAccount (mkAccountInfo (ai_balance j + te_value tx) (ai_nonce j) (ai_code_hash j) None)
                            {[ 1 := (slot_view d2 to 1, te_value tx) ]} false false in
                (Ok (mkResultAndState (mkEvmResult 21000 true [mkLog to [7] []]) (<[caller tx := x']> {[ to := y' ]})), d2)
            | _ => (Err 2, d1)
            end
        | _ => (Err 2, d)
        end
  end.

Definition sample_revm : Revm unit :=
  mkRevm no_info (mkDbAccount no_info AsNone ∅)
    (fun i j => bool_decide (to_reth_acc i = to_reth_acc j)) (fun i => account_is_empty (to_reth_acc i))
    (fun st => match st with AsStorageCleared => true | _ => false end) (fun code => (length code =? 0)%nat)
    sample_load (fun _ _ => false) sample_run.

Lemma cached_refl d : cached sample_revm d d.
Proof. split; [done|]. intros a. destruct (ca_accounts d !! a); [|done]. split; [done|]. split; [done|]. by left. Qed.

Lemma cached_fresh d0 d a x : cached sample_revm d0 d -> ca_accounts d !! a = None -> loaded_from sample_revm (ca_db d0) a x ->
  cached sample_revm d0 (set_account a x d).
Proof.
  intros [Edb Hc] Ha Hx. split; [done|]. intros b. specialize (Hc b). unfold set_account. cbn.
  destruct (decide (b = a)) as [->|Hb]; [|by rewrite lookup_insert_ne].
  rewrite lookup_insert_eq. rewrite Ha in Hc. by destruct (ca_accounts d0 !! a).
Qed.

Lemma sample_load_ok a d0 d : cached sample_revm d0 d ->
  match sample_load a d with
  | Ok (x, d') => cached sample_revm d0 d' /\ ca_accounts d' !! a = Some x /\
                  forall b, is_Some (ca_accounts d !! b) -> is_Some (ca_accounts d' !! b)
  | Err _ => True
  | _ => False
  end.
Proof.
  intros Hc. unfold sample_load. destruct (ca_accounts d !! a) as [x|] eqn:Ea; [done|].
  assert (Hfresh : forall x, loaded_from sample_revm (ca_db d0) a x ->
    cached sample_revm d0 (set_account a x d) /\ ca_accounts (set_account a x d) !! a = Some x /\
    forall b, is_Some (ca_accounts d !! b) -> is_Some (ca_accounts (set_account a x d) !! b)).
  { intros x Hx. split; [by apply cached_fresh|]. cbn. rewrite lookup_insert_eq. split; [done|]. intros b Hb.
    destruct (decide (b = a)) as [->|]; [by rewrite lookup_insert_eq|by rewrite lookup_insert_ne]. }
  unfold loaded_from in Hfresh. rewrite <- (proj1 Hc) in Hfresh.
  destruct (state_basic (ca_db d) a) as [[i|]|?| |]; try done; apply Hfresh; split; try done; intros k v Hk; cbn in Hk; by rewrite lookup_empty in Hk.
Qed.

#[export] Instance sample_revm_ok : RevmOk sample_revm.
Proof.
  split; try done.
  - intros i j. apply bool_decide_eq_true.
  - intros a d. pose proof (sample_load_ok a d d (cached_refl d)) as H. cbn [sample_revm load_account].
    destruct (sample_load a d) as [[x d']|?| |]; try done. destruct H as (? & ? & _). done.
  - intros i env d o d'. cbn [sample_revm evm_run]. unfold sample_run. cbv zeta.
    destruct (transact_to (env_tx env)) as [to|]; [|intros [= <- <-]; split; [apply cached_refl|done] ].
    destruct (Z.ltb_spec (te_gas_limit (env_tx env)) 21000) as [|Hg]; [intros [= <- <-]; split; [apply cached_refl|done]|].
    pose proof (sample_load_ok (caller (env_tx env)) d d (cached_refl d)) as H1.
    destruct (sample_load _ d) as [[x d1]|?| |]; try done; [|intros [= <- <-]; split; [apply cached_refl|done] ].
    destruct H1 as (H1 & Hx & _). pose proof (sample_load_ok to d d1 H1) as H2.
    destruct (sample_load to d1) as [[y d2]|?| |]; try done; [|intros [= <- <-]; split; done].
    destruct H2 as (H2 & Hy & Hk). intros [= <- <-]. split; [done|]. split; [done|]. intros r [= <-]. cbn [rs_result er_gas_used rs_state].
    split; [lia|]. intros a acc Ha. apply lookup_insert_Some in Ha as [[<- <-]|[_ Ha] ].
    + split; [apply Hk; by rewrite Hx|]. intros _ k v p Hv. cbn in Hv. by rewrite lookup_empty in Hv.
    + apply lookup_singleton_Some in Ha as [<- <-]. split; [by rewrite Hy|]. intros _ k v p Hv. cbn [ra_storage] in Hv.
      by apply lookup_singleton_Some in Hv as [<- [= <- _]].
Qed.
End Interpreter.

(** ** The block *)

(** Account 2 is a contract with slot 1 set. *)
Definition sample_accounts : gmap Z Account :=
  list_to_map [(1, mkAccount 4 1000 None); (2, mkAccount 1 10 (Some 77)); (4, mkAccount 0 6 None)].
Definition sample_provider : StateProvider unit :=
  mkStateProvider (fun a => Ok (sample_accounts !! a)) (fun a k => Ok (if (a =? 2) && (k =? 1) then Some 5 else None)) (fun _ => Ok None).
Definition sample_env : Env :=
  mkEnv (mkCfgEnv 1 FRONTIER) (mkBlockEnv 0 0 0 0 None 0 0) (mkTxEnv 0 0 0 None TransactCreate 0 [] None None []).
Definition sample_start : ExecutorState (E := unit) := mkExecutorState sample_env (mkCacheDB ∅ ∅ sample_provider).
Definition sample_tables : StateTables (list Z) :=
  mkStateTables (mkHistoryTables (mkAccountTables sample_accounts ∅) {[ (2, (1, 5)) ]} ∅ ∅ ∅) ∅ ∅ ∅.

(** The first transaction calls the contract, the second an address without an account. *)
Definition call_tx (h nonce to value : Z) : TransactionSigned :=
  mkTransactionSigned h (mkSignature 1 1 false) (TLegacy (mkTxLegacy None nonce 1 30000 (Call to) value [])).
Definition sample_body : list TransactionSigned := [call_tx 101 4 2 100; call_tx 102 5 9 50].
Definition sample_logs_bloom : Z := bloom_of [mkLog 2 [7] []; mkLog 9 [7] []].
Definition sample_ommer : Header := mkHeader 0 0 4 0 0 0 None 0 0 4999998 30000000 0 0 0 0 None [].
Definition executed_block : Block :=
  mkBlock (mkHeader 0 0 3 0 0 8 None sample_logs_bloom 0 5000000 30000000 42000 0 0 0 None []) sample_body [sample_ommer] None.
Definition sample_root (rs : list Receipt) : Z := 6 + zlen rs.
Definition no_signer (tx : TransactionSigned) : option Z := None.
Definition sample_senders : option (list Z) := Some [1; 1].

Abbreviation run_block := (execute sample_revm mainnet keccak no_signer example_iter executed_block 1 sample_senders sample_start).
Definition sample_result : ExecutionResult := match fst run_block with Ok r => r | _ => mkExecutionResult [] ∅ end.
Definition sample_end : ExecutorState (E := unit) := snd run_block.

Lemma sample_executed : run_block = (Ok sample_result, sample_end).
Proof. by vm_compute. Qed.

Lemma sample_mirrors : mirrors code_le true (x_db sample_start) sample_tables.
Proof.
  split.
  - intros a. unfold view, sample_start. cbn [x_db ca_accounts ca_db sample_provider base_account sp_basic_account]. rewrite lookup_empty.
    change (plain_accounts sample_tables) with sample_accounts. unfold base_account. cbn [sp_basic_account sample_provider].
    destruct (sample_accounts !! a) as [acc|] eqn:Ea; [|done]. apply elem_of_list_to_map_2 in Ea. set_unfold.
    by destruct_or! Ea; simplify_eq.
  - intros a k. unfold slot. destruct (decide (a = 2 /\ k = 1)) as [[-> ->]|Hne]; [by vm_compute|].
    destruct (plain_slot code_le (plain_storage sample_tables) a k) as [v|] eqn:Ev.
    { apply plain_slot_in in Ev. cbn in Ev. set_unfold. naive_solver. }
    unfold slot_view. cbn. unfold base_slot, state_storage. cbn.
    destruct (Z.eqb_spec a 2), (Z.eqb_spec k 1); by try (exfalso; tauto).
  - split; [intros a k v v' H1 H2|intros a k v H1]; cbn in *; set_unfold; naive_solver.
  - intros a x Hx. cbn in Hx. by rewrite lookup_empty in Hx.
  - split.
    + intros a acc Ea. unfold base_account in Ea. cbn [sp_basic_account sample_provider] in Ea.
      apply elem_of_list_to_map_2 in Ea. set_unfold. by destruct_or! Ea; simplify_eq.
    + intros a k Ha. unfold base_account in Ha. cbn [sp_basic_account sample_provider] in Ha.
      unfold base_slot, state_storage. cbn. by destruct (Z.eqb_spec a 2) as [->|].
Qed.

(** A check of the output of a transaction, account by account. *)
Definition regularb (d : CacheDB unit) (a : Z) (acc : RevmAccount) : bool :=
  let new := to_reth_acc (ra_info acc) in
  (0 <=? a) && negb (is_destroyed acc) && negb (storage_cleared acc) && negb (ai_code_hash (ra_info acc) =? 0) &&
  match view d a with
  | Some old => if account_is_empty old then bool_decide (new = old) else negb (account_is_empty new)
  | None => negb (a =? 2)
  end.

Lemma regularb_ok d a acc : ca_db d = sample_provider -> regularb d a acc = true -> regular sample_revm true true d a acc.
Proof.
  intros Hd. unfold regularb. rewrite !andb_true_iff, !negb_true_iff, Z.leb_le, Z.eqb_neq. intros ((((Ha & Hde) & Hcl) & Hc) & Hv).
  split; try done; try congruence.
  - intros old _ _ Ho He. rewrite Ho, He in Hv. by apply negb_true_iff.
  - intros k _ _ _ Hn. rewrite Hn in Hv. rewrite Hd. unfold base_slot, state_storage. cbn. by destruct (Z.eqb_spec a 2).
  - intros old _ _ _ Ho He. rewrite Ho, He in Hv. by apply bool_decide_eq_true in Hv.
Qed.

Lemma regular_tx_check tx sender x :
  let t := transact sample_revm tx sender x in
  ca_db (x_db t.2) = sample_provider ->
  match t.1 with Ok r => forallb (fun p => regularb (x_db t.2) p.1 p.2) (map_to_list (rs_state r)) | _ => true end = true ->
  regular_tx sample_revm true true tx sender x.
Proof.
  unfold regular_tx. destruct (transact _ _ _ _) as [o x1]. cbn [fst snd]. intros Hd Hf r x2 [= -> <-] a acc Ha.
  apply regularb_ok; [done|]. rewrite forallb_forall in Hf. apply (Hf (a, acc)). by apply list_elem_of_In, elem_of_map_to_list.
Qed.

Definition increment_okb (d : CacheDB unit) (a increment : Z) : bool :=
  (0 <=? increment) &&
  match view d a with
  | Some old => negb (account_is_empty old) && (0 <=? acc_balance old) && (acc_balance old + increment <? 2 ^ 256)
  | None => true
  end.

Lemma increments_check d m : forallb (fun p => increment_okb d p.1 p.2) (map_to_list m) = true -> map_Forall (increment_ok true true d) m.
Proof.
  intros Hf a i Ha. rewrite forallb_forall in Hf. specialize (Hf (a, i)).
  rewrite <- list_elem_of_In, elem_of_map_to_list in Hf. specialize (Hf Ha). unfold increment_okb in Hf. cbn [fst snd] in Hf.
  apply andb_true_iff in Hf as [Hi Hv]. split; [by apply Z.leb_le|]. intros old Ho. rewrite Ho in Hv.
  rewrite !andb_true_iff, negb_true_iff, Z.leb_le, Z.ltb_lt in Hv. destruct Hv as [ [-> ?] ?]. done.
Qed.

Lemma sample_regular : regular_block sample_revm mainnet keccak no_signer example_iter true executed_block 1 sample_senders sample_start.
Proof.
  unfold regular_block. cbv zeta. change (spurious_dragon mainnet (number (b_header executed_block))) with true.
  intros ss x1 [= <-] Hi. apply (f_equal snd) in Hi. cbn [snd] in Hi. subst x1. split.
  - cbn [regular_txs zip_with sample_body b_body executed_block]. split; [by apply regular_tx_check; vm_compute|].
    intros c cum x2 H. apply (f_equal snd) in H. cbn [snd] in H. subst x2. split; [by apply regular_tx_check; vm_compute|done].
  - intros out x2 H. apply (f_equal snd) in H. cbn [snd] in H. subst x2. split; [|by vm_compute].
    apply increments_check. by vm_compute.
Qed.

(** ** The theorems at the sample block *)


(** The state after the block: the values moved by the transactions, the slots, the
    rewards of three ether. *)
Example sample_state_after :
  (fun a => view (x_db sample_end) a) <$> [1; 2; 3; 4; 9] =
  [Some (mkAccount 6 850 None); Some (mkAccount 1 110 (Some 77));
   Some (mkAccount 0 (3000000000000000000 + 3000000000000000000 / 32) None);
   Some (mkAccount 0 (6 + 3000000000000000000 * 6 / 8) None); Some (mkAccount 0 50 None)] /\
  slot_view (x_db sample_end) 2 1 = 100 /\ slot_view (x_db sample_end) 9 1 = 50.
Proof. by vm_compute. Qed.

Lemma execute_receipts_witness :
  gas_used (b_header executed_block) <= h_gas_limit (b_header executed_block) /\
  block_ok keccak 5000000 (mkRpcBlock (b_header executed_block) sample_body, receipt <$> tx_changesets sample_result).
Proof.
  destruct (execute_receipts sample_revm mainnet keccak no_signer sample_root example_iter
              executed_block 1 sample_senders sample_start sample_result sample_end) as (_ & Hg & Hb).
  - done.
  - by vm_compute.
  - split; [exact Hg|]. apply Hb; by vm_compute.
Defined.

Lemma execute_safe_witness :
  safe (fst (execute_and_verify_receipt sample_revm mainnet keccak no_signer sample_root example_iter executed_block 1 None sample_start)).
Proof.
  apply (execute_safe sample_revm mainnet keccak no_signer sample_root example_iter example_iter_ok executed_block 1 None sample_start);
    by vm_compute.
Defined.

Definition mainnet_schedule : Schedule := mkSchedule (Some 4370000) (Some 7280000) 58750000000000000000000 None.
Lemma mainnet_follows : follows mainnet mainnet_schedule.
Proof. split; [by vm_compute|by vm_compute|exists None; by vm_compute|by vm_compute]. Qed.

(** The ommer of the block, two generations back, earns six eighths of three ether. *)
Lemma balance_increments_paid_witness :
  default 0 (post_block_balance_increments mainnet executed_block 1 !! 4) = 3 * ETHER * 6 / 8.
Proof.
  destruct (balance_increments_paid mainnet mainnet_schedule mainnet_follows executed_block 1 4) as (reward & Hr & Hm & _).
  - split; [apply Forall_singleton; by vm_compute|by vm_compute].
  - apply Forall_nil_2.
  - by vm_compute.
  - rewrite Hm. destruct Hr as [H|_ (b & [= <-] & H)|_ _ _|_ _ H].
    + exfalso. clear -H. change (58750000000000000000000 <= 1) in H. lia.
    + exfalso. clear -H. change (7280000 <= 5000000) in H. lia.
    + by vm_compute.
    + exfalso. apply H. exists 4370000. split; [done|]. by vm_compute.
Defined.
End SampleExecutor.
